(* ===== verification/_CoqProject ===== *)
-Q . S2P
Prelude.v
PyAst.v
NodeVisitorBases.v
FreeVariableAnalyses.v
FreeVariableSpec.v
AstUtil.v
IndexMaps.v
PyStrings.v
TypeDescription.v
ObjectRegistry.v
S3.v
ChannelDemuxer.v
MultiChannelListener.v
ObjectCaches.v
GeneratedClient.v
MessageProcessor.v
GatewaySession.v
SharedStateSynchronizer.v
PureBuiltins.v
PureNumpy.v
MersenneTwister.v
PurePandas.v
RegressionTrees.v
GradientBoosting.v
BoostingError.v
ComputedValueGateway.v
CumulusActiveMachines.v
CumulusService.v
JsonPickle.v
PyHeap.v
PyObjectWalker.v
PyObjectWalkerSpec.v
PyObjectWalkerEnds.v
PyObjectWalkerSamples.v
PyforaClient.v
PyforaClientSpec.v
PyforaClientLive.v
PyforaClientEnds.v
PyforaClientTypes.v
StronglyConnectedComponents.v
NativeConverterAdaptor.v
Converter.v
ConverterGraphs.v
ConverterRuns.v
NativeConverterAdaptorSpec.v
ConverterSpec.v
ConverterRequests.v
PyforaObjectConverter.v
ConverterSamples.v
ResultTransformer.v
ResultTransformerSpec.v
PyforaComputedValue.v
PyforaComputedValueSpec.v
PythonObjectRehydrator.v
Results.v
ResultSamples.v
PureImplementationMappings.v
WithBlockExecutor.v
