(* ===== verification/Prelude.v ===== *)
(** * Verification of the pyfora client and of Ufora's Python services

    pyfora runs Python programs on a cluster: the client walks over live Python
    objects, finds the variables that their code needs, and sends descriptions of them
    to a gateway; the cluster's Python code makes values of the descriptions, computes,
    and reports results that the client waits for with futures. Around that path stand
    services in Python: sessions of the gateway, its traffic with the cluster, a shared
    state, channels between workers, an S3 service; and the Python that programs of the
    cluster run in place of the builtins, numpy and pandas.
    This development models that code as Gallina functions, definition by definition,
    and proves what each component promises. File names are relative to [src/];
    [pyfora/] is [packages/python/pyfora/].

    ** How the code is modelled

    Python's exceptions are the type [exn], one constructor per exception class that
    the code raises or catches. A function that may raise returns [res]; a method that
    changes an object is a computation [M S] on the object's state, which keeps what was
    changed before an exception, as Python does; [catch] is [try]/[except], [forM_] and
    [mapM] are loops. An integer is [Z]: Python's do not overflow. A dict is a [gmap], or
    the list of its items where the order of iteration or duplicates matter; a set is a
    [gset]. Live objects are a heap from identities to contents, so that sharing and
    cycles are what they are in Python ([PyHeap]). What is not under [src/] or is native
    (the FORA engine, inspect, sockets, the JSON of the transport) is a parameter: a
    section variable or a type class whose laws state what the code relies on, and every
    theorem with such a law has a witness at a concrete instance.

    Loops and recursions that Python leaves to its stack take fuel. The definitions that
    call them choose the fuel, and the theorems show that it suffices, or are stated for
    every fuel above a bound: the traversal of the dependency graph visits each id once,
    so the number of defined ids is enough ([computeDependencyGraph_exact]); Tarjan's
    algorithm enters each node once ([components_exact]); the walk over live objects
    nests no deeper than there are objects ([walk_ends]); the graph of a container's
    members is smaller than the container's ([runs_component]); a fresh name is found
    among one more than the used ones ([freshVarname_proper]); the evaluation of pure
    builtins ends after ten splits and the nesting of the generator ([Reduce_is_fold]); the product of a frame calls
    itself at most once more than there are rows ([dot_range_ok]); a tree is fitted with one
    call for each row, and read in as many steps as it has rules
    ([rows_get_their_groups_value]), fewer than two for each row
    ([training_error_never_grows]).

    Floating point numbers are not modelled. The Python of [pure_numpy.py],
    [pure_pandas.py] and [algorithms/regressionTrees/] is generic in its numbers: the
    definitions use the interface [Number], and a theorem states the laws of exact
    arithmetic that it needs, or is about integers or about rationals in lowest terms.
    The Mersenne twister computes in 32-bit integers with their wrap-around, and its
    deviates are exact rationals.

    ** The parts

    - Syntax ([pyfora/pyAst/]). [PyAst]: Python 2.7 trees and [ast.NodeVisitor].
      [NodeVisitorBases]: the visitor base classes with their scopes.
      [FreeVariableAnalyses]: bound values, free variables, free variable member access
      chains ([PyAstFreeVariableAnalyses.py]); [FreeVariableSpec] reads them as
      relations on trees and proves soundness, completeness and the exact errors.
      [AstUtil] ([PyAstUtil.py]): definitions by line, enclosing functions, data members
      that [__init__] sets, returns and yields of a scope, memoisation.
    - Descriptions. [PyStrings]: [base64], [str], [int]. [TypeDescription]
      ([TypeDescription.py]): the named tuples and their round trip. [ObjectRegistry]
      ([ObjectRegistry.py]): ids, definitions, the dependency graph, exactly what is
      reachable.
    - The walk. [PyHeap], [PyObjectWalker] ([PyObjectWalker.py]): from a live object to
      definitions of everything it refers to. [PyObjectWalkerSpec]: what is registered
      depicts the heap, and no id is left undefined. [PyObjectWalkerEnds]: walks end.
      [PyObjectWalkerSamples]: concrete heaps, and the walks that go wrong. The mappings
      to pure Python are the interface [PureClassMapping] of [PyHeap];
      [PureImplementationMappings] ([PureImplementationMapping.py],
      [PureImplementationMappings.py]) implements it, and its inverse for the rehydrator:
      the last mapping for an object is the one that counts.
    - The client. [PyforaClient] ([Executor.py], [Connection.py], [ObjectConverter.py],
      [Future.py], [SocketIoJsonInterface.py], [generatePythonWrapper.py]): operations
      and the callbacks of their requests, as data. [PyforaClientSpec] and
      [PyforaClientLive]: an answer touches one future, and every future of an open
      client has a request under way. [PyforaClientEnds]: a broken connection resolves
      all, a closed client is silent, what becomes of calls and downloads.
      [PyforaClientTypes]: what kind of result a future can have. [WithBlockExecutor]
      ([WithBlockExecutor.py], [DownloadPolicy.py]): with blocks, whose variables appear in
      the frame around them; the executor's operations, waited for, are the interface
      [Cluster].
    - The server's conversion ([ufora/FORA/python/PurePython/]).
      [StronglyConnectedComponents]: Tarjan's algorithm of [pyfora/], with its contract
      [components_of]. [NativeConverterAdaptor]: expressions of functions, classes, with
      blocks, and their binding; the native module is the class [ForaNative].
      [Converter]: the conversion of a dependency graph, component by component.
      [ConverterGraphs]: restricted graphs, and where a component stands in the list.
      [ConverterRuns]: what a run may raise; [NativeConverterAdaptorSpec],
      [ConverterSpec] and [ConverterRequests]: a value that is read is there, for every
      well-formed request. [PyforaObjectConverter]: the handler of requests; it reads
      back what the client's registry has. [ConverterSamples]: a native module that
      writes down what it is asked, and the requests that fail.
    - The way back. [ResultTransformer] ([Converter.py], [PyforaToJsonTransformer.py]): a
      value becomes definitions with ids, whose bytes are counted; [ResultTransformerSpec]
      reads values as shapes, and the definitions are those of the shapes, one for each
      value. [PyforaComputedValue] ([PyforaComputedValue.py]): what the gateway answers of
      a computation; [PyforaComputedValueSpec]: a result is sent whole or not at all.
      [PythonObjectRehydrator] ([PythonObjectRehydrator.py]): objects of the definitions,
      in the client's heap. [Results]: of a value of data the client gets an object of its
      contents. [ResultSamples]: a result on its way, with numpy's arrays as bytes.
    - The gateway ([ufora/BackendGateway/SubscribableWebObjects/]). [ObjectCaches]: JSON
      values, and the two object caches. [GeneratedClient] ([generatePythonWrapper.py]):
      how the generated client reads responses; it reads back what the gateway sends.
      [MessageProcessor] ([MessageProcessor.py], [Subscriptions.py], [Decorators.py]): the
      messages of a session; [GatewaySession]: each gets its answer, changes are
      reported once, only exposed members are reached.
      [ComputedValueGateway] ([ComputedValueGateway.py], [BackgroundUpdateQueue.py],
      [CumulusGateway.py]): values and vectors that are asked of the cluster, the queue of
      their updates, priorities and requests of slices. [JsonPickle]
      ([ufora/core/JsonPickle.py]): objects as simple values and back.
    - Workers ([ufora/cumulus/distributed/], [ufora/networking/]). [MultiChannelListener]
      ([MultiChannelListener.py], [ChannelListener.py]): the channels of a connection are
      collected, one for each port. [CumulusActiveMachines] ([CumulusActiveMachines.py]):
      which machines there are, for listeners. [CumulusService] ([CumulusService.py]): the
      handshake, and the machines the scheduler is given.
    - Services. [ChannelDemuxer] ([ufora/networking/ChannelDemuxer.py]): contents in
      order. [SharedStateSynchronizer] ([ufora/distributed/SharedState/ComputedGraph/]):
      listeners are told, writes are not lost. [S3]
      ([ufora/distributed/S3/InMemoryS3Interface.py], [CacheSemantics.py]): access,
      owners, multipart uploads, chunks. [IndexMaps] ([ufora/util/]): dictionaries that
      keep an index refine relations and dicts.
    - Pure Python ([pyfora/pure_modules/], [pyfora/algorithms/]). [PureBuiltins]
      ([pure___builtin__.py]): reduce, sum, xrange, max, min, all, any, enumerate, reversed.
      [PureNumpy] ([pure_numpy.py]): arrays, their shapes, products and reductions.
      [MersenneTwister] ([pure_numpy.py]): the generator of random numbers is MT19937.
      [PurePandas] ([pure_pandas.py]): series, frames and their parts, as rows.
      [RegressionTrees] ([algorithms/regressionTrees/]): a tree is fitted and predicts.
      [GradientBoosting] (the same directory): sums of trees, for regression and for
      classification. [BoostingError]: with exact numbers, fitting returns and no tree
      makes the error on the fitted rows greater.

    ** How the parts meet

    The walker uses the analyses of syntax and writes to a registry; the client of
    [PyforaClient] holds the walker and sends the registry's descriptions;
    [PyforaObjectConverter] receives them ([sent], [receive]) and hands the server's
    registry to [Converter], which uses the dependency graph of [ObjectRegistry],
    [StronglyConnectedComponents] and [AstUtil]. [walkPyObject_depicts] and
    [conversion_is_closed] give the client's half of that path, [server_answers] the
    server's: the precondition of the latter, [well_formed_request], asks for what the
    walk registers (files as sources, bases among the free variables, no dangling id) and
    for what it does not promise: that no function, instance or with block is its own
    dependency. [ConverterSamples] has the requests without it. On the way back
    [client_gets_the_value] composes the transformer, the gateway's answer and the
    rehydrator: what the one writes ([describes]) is what the other reads ([object_is]). It
    is about primitives, singletons, tuples, lists, arrays and dicts;
    [result_is_sent_whole] covers exceptions, functions, classes and instances, too, whose
    source the client compiles again. A transformation recurses at most once into each value
    of the world it meets, so the number of values bounds the fuel, also where a function
    refers to itself; plain data nests without cycles. A gateway session uses the caches,
    and the generated client of [GeneratedClient] reads what they name; the synchronizer
    uses the indexed dictionaries.

    A worker's [CumulusService] is told of other machines by [CumulusActiveMachines], dials
    those with greater ids and is dialed by the others: its state holds that of
    [MultiChannelListener], and [workers_connect] composes the two sides, what one writes
    being what the other reads. Trees are fitted to frames of [PurePandas], which filters
    and divides its columns; the sums of splits are those of [PureBuiltins], whose
    generators divide the rows into chunks; boosting fits trees to what the trees before
    them leave, with the [fit_] and the predictions of [RegressionTrees].

    ** What is not modelled, and why

    The engine, the compiler and the scheduler ([ufora/FORA], [ufora/cumulus],
    [ufora/core], [ufora/native]) are C++, and most of their Python binds, configures and
    tests them. Sockets, processes, threads, cloud and S3 client libraries are I/O
    ([ufora/networking] but for the listeners and the demultiplexer, [ufora/distributed]
    around the synchronizer, [pyfora/aws], [PythonIoTasks.py],
    [ufora/util/ManagedThread.py]). The object model of the cluster
    ([BackendGateway/ComputedValue], [ComputedGraph]) is properties that the native
    computed graph evaluates. The client's compilation and execution of source, its calls
    of classes and the imports of modules are interfaces ([ClientPython], [Imports]). [PyforaInspect.py] and the tracing of with blocks read
    frames of the interpreter. [pure_math.py], [pure_scipy.py] and the linear and logistic
    regressions of [algorithms/] are floating point arithmetic and calls of inline FORA code.
    Tests, settings and build files are left out. Python's recursion
    limit, the order in which a dict is iterated (every order is covered where a list of
    items is quantified over, but the generated client is taken to read items in the order
    in which they were written) and the garbage collector are not modelled. Threads are:
    where a lock is let go of, the steps on both sides are separate ([CumulusService],
    [ComputedValueGateway]). *)
From stdpp Require Import base gmap sets list strings fin_maps.
From Stdlib Require Import Lia.

#[export] Set Warnings "-clear-no-such-hyp".

(** ** Python exceptions

    One constructor per exception class the modelled code raises or catches.
    [RecursionLimit] is Python's [RuntimeError] for a recursion that is too
    deep: it is also what a fuelled definition answers when its fuel ends. *)

Inductive exn : Type :=
| KeyError
| IndexError
| AssertionError
| AttributeError
| TypeError
| ValueError
| ZeroDivisionError
| UserWarning
| QueueEmpty
| RecursionLimit
| OtherException (name : string)
| InternalError
| PythonToForaConversionError
| ForaToPythonConversionError
| CantGetSourceTextError
| PyforaInspectError
| BadWithBlockError
| MalformedMessage
| InvalidObjectDefinition
| SubscribableWebObjects (what : string)
| UnresolvedFreeVariable (chain : list string) (line : Z) (contextName : option string)
| UnresolvedFreeVariableWithTrace (variable : string) (trace : list (string * Z)).

#[export] Instance exn_eq_dec : EqDecision exn.
Proof. solve_decision. Defined.

(** ** Results and stateful computations

    Python keeps the mutations made before an exception, so a computation
    returns a state in both cases. *)

Inductive res (A : Type) : Type :=
| Ret (a : A)
| Raise (e : exn).
Arguments Ret {A} a.
Arguments Raise {A} e.

#[export] Instance res_eq_dec {A} `{EqDecision A} : EqDecision (res A).
Proof. solve_decision. Defined.

#[export] Instance res_ret : MRet res := @Ret.
#[export] Instance res_bind : MBind res := λ A B f m,
  match m with Ret a => f a | Raise e => Raise e end.
#[export] Instance res_fmap : FMap res := λ A B f m,
  match m with Ret a => Ret (f a) | Raise e => Raise e end.

Definition of_option {A} (e : exn) (o : option A) : res A :=
  match o with Some a => Ret a | None => Raise e end.

Definition is_ret {A} (r : res A) : bool :=
  match r with Ret _ => true | Raise _ => false end.

(** [assert b] in the source. *)
Definition py_assert (b : bool) : res unit :=
  if b then Ret tt else Raise AssertionError.

(** The reading of every element of a list, stopping at the first exception. *)
Fixpoint mapR {A B} (f : A → res B) (l : list A) : res (list B) :=
  match l with
  | [] => Ret []
  | x :: l => y ← f x; ys ← mapR f l; Ret (y :: ys)
  end.

Lemma mapR_Ret {X Y} (f : X → res Y) l r : mapR f l = Ret r → Forall2 (λ x y, f x = Ret y) l r.
Proof.
  revert r. induction l as [|x l IH]; intros r; cbn [mapR]; [intros [= <-]; constructor|].
  destruct (f x) as [y|] eqn:Hx; cbn; [|done]. destruct (mapR f l) as [ys|]; cbn; [|done].
  intros [= <-]. constructor; [done|by apply IH].
Qed.

Lemma mapR_Raise {X Y} (f : X → res Y) l e : mapR f l = Raise e → ∃ x, x ∈ l ∧ f x = Raise e.
Proof.
  induction l as [|x l IH]; cbn [mapR]; [done|]. destruct (f x) as [y|e'] eqn:Hx; cbn.
  - destruct (mapR f l) as [ys|e'] eqn:Hl; cbn; [done|]. intros [= ->]. destruct (IH eq_refl) as (z & Hz & He).
    exists z. split; [apply elem_of_cons; by right|done].
  - intros [= ->]. exists x. split; [apply elem_of_cons; by left|done].
Qed.

Lemma mapR_fmap {X Y K} (f : X → res Y) (g : X → K) (h : Y → K) l r :
  (∀ x y, f x = Ret y → h y = g x) → mapR f l = Ret r → h <$> r = g <$> l.
Proof.
  intros Hf Hr%mapR_Ret. induction Hr as [|x y l r Hxy _ IH]; [done|]. cbn. f_equal; [by apply Hf|done].
Qed.

Lemma mapR_of_option {X Y} e (f : X → option Y) l e' :
  mapR (λ x, of_option e (f x)) l = Raise e' → e' = e.
Proof.
  induction l as [|x l IH]; cbn; [done|]. destruct (f x); cbn; [|congruence].
  destruct (mapR _ l); cbn; [done|exact IH].
Qed.

Definition M (S A : Type) : Type := S → res A * S.

#[export] Instance M_ret S : MRet (M S) := λ A a s, (Ret a, s).
#[export] Instance M_bind S : MBind (M S) := λ A B f m s,
  match m s with
  | (Ret a, s') => f a s'
  | (Raise e, s') => (Raise e, s')
  end.

Definition raise {S A} (e : exn) : M S A := λ s, (Raise e, s).
Definition get {S} : M S S := λ s, (Ret s, s).
Definition put {S} (s : S) : M S unit := λ _, (Ret tt, s).
Definition modify {S} (f : S → S) : M S unit := λ s, (Ret tt, f s).
Definition lift {S A} (r : res A) : M S A := λ s, (r, s).
Definition when {S} (b : bool) (m : M S unit) : M S unit :=
  if b then m else mret tt.

(** [try: m except: h]. What [m] did before it raised stays. *)
Definition catch {S A} (m : M S A) (h : exn → M S A) : M S A := λ s,
  match m s with
  | (Ret a, s) => (Ret a, s)
  | (Raise e, s) => h e s
  end.

(** [for x in l: f(x)]. *)
Definition forM_ {S A} (f : A → M S unit) : list A → M S unit :=
  fix go l :=
    match l with
    | [] => mret tt
    | x :: l => f x ;; go l
    end.

(** [[f(x) for x in l]]. *)
Definition mapM {S A B} (f : A → M S B) : list A → M S (list B) :=
  fix go l :=
    match l with
    | [] => mret []
    | x :: l => y ← f x; ys ← go l; mret (y :: ys)
    end.

(** Optional AST fields and other values that may be [None]. *)
Definition optM_ {S A} (f : A → M S unit) (o : option A) : M S unit :=
  match o with Some x => f x | None => mret tt end.

(** ** Equations of the monad *)

Section monad_laws.
Context {S : Type}.

Lemma bind_ret_l {A B} (a : A) (f : A → M S B) s :
  mbind f (mret a : M S A) s = f a s.
Proof. reflexivity. Qed.

Lemma bind_assoc {A B C} (m : M S A) (f : A → M S B) (g : B → M S C) s :
  mbind g (mbind f m) s = mbind (λ a, mbind g (f a)) m s.
Proof. unfold mbind, M_bind. by destruct (m s) as [[a|e] s']. Qed.

Lemma bind_inv {A B} (m : M S A) (f : A → M S B) s b s' :
  mbind f m s = (Ret b, s') →
  ∃ a s1, m s = (Ret a, s1) ∧ f a s1 = (Ret b, s').
Proof.
  unfold mbind, M_bind. destruct (m s) as [[a|e] s1]; [eauto | done].
Qed.

Lemma bind_step {A B} (m : M S A) (f : A → M S B) s a s1 :
  m s = (Ret a, s1) → mbind f m s = f a s1.
Proof. unfold mbind, M_bind. by intros ->. Qed.

Lemma forM__cons {A} (f : A → M S unit) x l s :
  forM_ f (x :: l) s = mbind (λ _, forM_ f l) (f x) s.
Proof. reflexivity. Qed.

Lemma mapM_cons {A B} (f : A → M S B) x l s :
  mapM f (x :: l) s = (y ← f x; ys ← mapM f l; mret (y :: ys)) s.
Proof. reflexivity. Qed.

Lemma forM__app {A} (f : A → M S unit) l1 l2 s :
  forM_ f (l1 ++ l2) s = mbind (λ _, forM_ f l2) (forM_ f l1) s.
Proof.
  revert s. induction l1 as [|x l1 IH]; intros s; [reflexivity|].
  cbn [app]. rewrite !forM__cons. unfold mbind, M_bind.
  rewrite forM__cons. unfold mbind, M_bind.
  destruct (f x s) as [[[]|e] s1]; [|done].
  specialize (IH s1). unfold mbind, M_bind in IH. exact IH.
Qed.

Lemma forM__inv {A} (f : A → M S unit) (I : S → Prop) l s u s' :
  (∀ x s1 u1 s2, x ∈ l → I s1 → f x s1 = (Ret u1, s2) → I s2) →
  I s → forM_ f l s = (Ret u, s') → I s'.
Proof.
  revert s. induction l as [|x l IH]; intros s Hf Hs H;
    [cbn in H; unfold mret, M_ret in H; by simplify_eq|].
  rewrite forM__cons in H. apply bind_inv in H as (u1 & s1 & H1 & H2).
  apply (IH s1); [|eapply Hf; eauto; set_solver|done].
  intros; eapply Hf; eauto. set_solver.
Qed.
End monad_laws.

(** ** State invariants of computations

    [keeps I m]: the computation [m] re-establishes [I], also when it raises. *)

Definition keeps {S A} (I : S → Prop) (m : M S A) : Prop :=
  ∀ s, I s → I (snd (m s)).

Section keeps.
Context {S : Type} (I : S → Prop).

Lemma keeps_ret {A} (a : A) : keeps I (mret a : M S A).
Proof. intros s Hs. exact Hs. Qed.

Lemma keeps_raise {A} e : keeps I (raise e : M S A).
Proof. intros s Hs. exact Hs. Qed.

Lemma keeps_lift {A} (r : res A) : keeps I (lift r).
Proof. intros s Hs. exact Hs. Qed.

Lemma keeps_get : keeps I get.
Proof. intros s Hs. exact Hs. Qed.

Lemma keeps_bind {A B} (m : M S A) (f : A → M S B) :
  keeps I m → (∀ a, keeps I (f a)) → keeps I (mbind f m).
Proof.
  intros Hm Hf s Hs. unfold mbind, M_bind. specialize (Hm s Hs).
  destruct (m s) as [[a|e] s1]; [by apply Hf|done].
Qed.

Lemma keeps_catch {A} (m : M S A) (h : exn → M S A) :
  keeps I m → (∀ e, keeps I (h e)) → keeps I (catch m h).
Proof.
  intros Hm Hh s Hs. unfold catch. specialize (Hm s Hs).
  destruct (m s) as [[a|e] s1]; [done|by apply Hh].
Qed.

Lemma keeps_modify f : (∀ s, I s → I (f s)) → keeps I (modify f).
Proof. intros Hf s Hs. by apply Hf. Qed.

Lemma keeps_when b (m : M S unit) : keeps I m → keeps I (when b m).
Proof. intros H. destruct b; [exact H|apply keeps_ret]. Qed.

Lemma keeps_forM_ {A} (f : A → M S unit) l :
  (∀ x, x ∈ l → keeps I (f x)) → keeps I (forM_ f l).
Proof.
  induction l as [|x l IH]; intros Hf; [apply keeps_ret|].
  intros s Hs. rewrite forM__cons. revert s Hs.
  apply keeps_bind; [apply Hf; set_solver|]. intros _. apply IH.
  intros y Hy. apply Hf. set_solver.
Qed.

Lemma keeps_mapM {A B} (f : A → M S B) l :
  (∀ x, x ∈ l → keeps I (f x)) → keeps I (mapM f l).
Proof.
  induction l as [|x l IH]; intros Hf; [apply keeps_ret|].
  intros s Hs. rewrite mapM_cons. revert s Hs.
  apply keeps_bind; [apply Hf; set_solver|]. intros y.
  apply keeps_bind; [apply IH; intros z Hz; apply Hf; set_solver|]. intros ys. apply keeps_ret.
Qed.

Lemma keeps_optM_ {A} (f : A → M S unit) o :
  (∀ x, o = Some x → keeps I (f x)) → keeps I (optM_ f o).
Proof. intros H. destruct o; [by apply H|apply keeps_ret]. Qed.
End keeps.

Create HintDb keeps_db.
#[export] Hint Resolve keeps_ret keeps_raise keeps_lift keeps_get keeps_bind
  keeps_catch keeps_when : keeps_db.

(** ** Small tactics *)

(** Split the monadic hypotheses [mbind f m s = (Ret b, s')]. *)
Ltac inv_bind :=
  repeat match goal with
  | H : mbind _ _ _ = (Ret _, _) |- _ =>
      let a := fresh "v" in let s := fresh "st" in
      let H1 := fresh "Hm" in let H2 := fresh "Hk" in
      apply bind_inv in H as (a & s & H1 & H2)
  | H : @mret _ _ _ _ _ = (Ret _, _) |- _ =>
      unfold mret, M_ret in H; simplify_eq
  | H : modify _ _ = (Ret _, _) |- _ => unfold modify in H; simplify_eq
  | H : lift _ _ = (Ret _, _) |- _ => unfold lift in H; simplify_eq
  | H : raise _ _ = (Ret _, _) |- _ => discriminate H
  end.

Ltac split_ands := repeat match goal with |- _ ∧ _ => split end.

(** Run the first computation of a sequence, given its result. *)
Ltac step H := rewrite (bind_step _ _ _ _ _ H).
