(* ===== verification/PyAst.v ===== *)
(** * Python 2.7 syntax trees and the [ast.NodeVisitor] traversal

    The data the analyses of [packages/python/pyfora/pyAst] work on. Python's
    [ast] module is part of the language: [node] has one constructor per AST
    class of Python 2.7, with the fields in the order of its [_fields], and the
    attributes [lineno] and [col_offset] where the class has them. The nodes
    form one sort, as in the [ast] module, where nothing separates expressions
    from statements at run time. *)
From stdpp Require Import base gmap sets list strings fin_maps.
From S2P Require Import Prelude.

(** [PositionInFile] of NodeVisitorBases.py. *)
Record PositionInFile := Pos { lineno : Z; col_offset : Z }.

#[export] Instance pos_eq_dec : EqDecision PositionInFile.
Proof. solve_decision. Defined.
#[export] Instance pos_countable : Countable PositionInFile.
Proof.
  apply (inj_countable' (λ p, (lineno p, col_offset p)) (λ '(l, c), Pos l c)).
  by intros [].
Defined.

Inductive expr_context := Load | Store | Del | AugLoad | AugStore | Param.

#[export] Instance expr_context_eq_dec : EqDecision expr_context.
Proof. solve_decision. Defined.

(** Operators carry the name of their class ([Add], [Mult], [Or], [Lt], ...). *)
Abbreviation op := string (only parsing).

#[local] Set Warnings "-register-all".

Inductive node : Type :=
(* mod *)
| Module (body : list node)
| Interactive (body : list node)
| Expression (body : node)
(* stmt *)
| FunctionDef (p : PositionInFile) (name : string) (args : node)
    (body decorator_list : list node)
| ClassDef (p : PositionInFile) (name : string)
    (bases body decorator_list : list node)
| Return (p : PositionInFile) (value : option node)
| Delete (p : PositionInFile) (targets : list node)
| Assign (p : PositionInFile) (targets : list node) (value : node)
| AugAssign (p : PositionInFile) (target : node) (o : op) (value : node)
| Print (p : PositionInFile) (dest : option node) (values : list node) (nl : bool)
| For (p : PositionInFile) (target iter : node) (body orelse : list node)
| While (p : PositionInFile) (test : node) (body orelse : list node)
| If (p : PositionInFile) (test : node) (body orelse : list node)
| With (p : PositionInFile) (context_expr : node) (optional_vars : option node)
    (body : list node)
| Raise_ (p : PositionInFile) (type inst tback : option node)
| TryExcept (p : PositionInFile) (body handlers orelse : list node)
| TryFinally (p : PositionInFile) (body finalbody : list node)
| Assert (p : PositionInFile) (test : node) (msg : option node)
| Import_ (p : PositionInFile) (names : list node)
| ImportFrom (p : PositionInFile) (module : option string) (names : list node)
    (level : option Z)
| Exec (p : PositionInFile) (body : node) (globals locals : option node)
| Global_ (p : PositionInFile) (names : list string)
| Expr (p : PositionInFile) (value : node)
| Pass (p : PositionInFile)
| Break (p : PositionInFile)
| Continue (p : PositionInFile)
(* expr *)
| BoolOp (p : PositionInFile) (o : op) (values : list node)
| BinOp (p : PositionInFile) (left : node) (o : op) (right : node)
| UnaryOp (p : PositionInFile) (o : op) (operand : node)
| Lambda (p : PositionInFile) (args body : node)
| IfExp (p : PositionInFile) (test body orelse : node)
| Dict (p : PositionInFile) (keys values : list node)
| Set_ (p : PositionInFile) (elts : list node)
| ListComp (p : PositionInFile) (elt : node) (generators : list node)
| SetComp (p : PositionInFile) (elt : node) (generators : list node)
| DictComp (p : PositionInFile) (key value : node) (generators : list node)
| GeneratorExp (p : PositionInFile) (elt : node) (generators : list node)
| Yield (p : PositionInFile) (value : option node)
| Compare (p : PositionInFile) (left : node) (ops : list op)
    (comparators : list node)
| Call (p : PositionInFile) (func : node) (args keywords : list node)
    (starargs kwargs : option node)
| Repr (p : PositionInFile) (value : node)
| Num (p : PositionInFile) (n : Z)
| Str (p : PositionInFile) (s : string)
| Attribute (p : PositionInFile) (value : node) (attr : string)
    (ctx : expr_context)
| Subscript (p : PositionInFile) (value slice : node) (ctx : expr_context)
| Name (p : PositionInFile) (id : string) (ctx : expr_context)
| List_ (p : PositionInFile) (elts : list node) (ctx : expr_context)
| Tuple_ (p : PositionInFile) (elts : list node) (ctx : expr_context)
(* slice *)
| Ellipsis
| Slice (lower upper step : option node)
| ExtSlice (dims : list node)
| Index (value : node)
(* comprehension, excepthandler, arguments, keyword, alias. The parser gives
   [arguments] no position; GenericScopedVisitor sets one (see NodeVisitorBases). *)
| comprehension (target iter : node) (ifs : list node)
| ExceptHandler (p : PositionInFile) (type name : option node) (body : list node)
| arguments (p : option PositionInFile) (args : list node)
    (vararg kwarg : option string) (defaults : list node)
| keyword (arg : string) (value : node)
| alias (name : string) (asname : option string).

(** ** Children, in the order of [_fields] *)

Definition opt_list {A} (o : option A) : list A :=
  match o with Some x => [x] | None => [] end.

Definition children (n : node) : list node :=
  match n with
  | Module body | Interactive body => body
  | Expression body => [body]
  | FunctionDef _ _ args body decs => args :: body ++ decs
  | ClassDef _ _ bases body decs => bases ++ body ++ decs
  | Return _ v | Yield _ v => opt_list v
  | Delete _ ts => ts
  | Assign _ ts v => ts ++ [v]
  | AugAssign _ t _ v => [t; v]
  | Print _ d vs _ => opt_list d ++ vs
  | For _ t i body orelse => t :: i :: body ++ orelse
  | While _ t body orelse | If _ t body orelse => t :: body ++ orelse
  | With _ c v body => c :: opt_list v ++ body
  | Raise_ _ t i b => opt_list t ++ opt_list i ++ opt_list b
  | TryExcept _ b h o => b ++ h ++ o
  | TryFinally _ b f => b ++ f
  | Assert _ t m => t :: opt_list m
  | Import_ _ ns | ImportFrom _ _ ns _ => ns
  | Exec _ b g l => b :: opt_list g ++ opt_list l
  | Global_ _ _ | Pass _ | Break _ | Continue _ | Num _ _ | Str _ _
  | Name _ _ _ | Ellipsis | alias _ _ => []
  | Expr _ v | Repr _ v | Index v | keyword _ v | Attribute _ v _ _ => [v]
  | BoolOp _ _ vs => vs
  | BinOp _ l _ r => [l; r]
  | UnaryOp _ _ v => [v]
  | Lambda _ args body => [args; body]
  | IfExp _ t b o => [t; b; o]
  | Dict _ ks vs => ks ++ vs
  | Set_ _ es | List_ _ es _ | Tuple_ _ es _ | ExtSlice es => es
  | ListComp _ e gs | SetComp _ e gs | GeneratorExp _ e gs => e :: gs
  | DictComp _ k v gs => k :: v :: gs
  | Compare _ l _ cs => l :: cs
  | Call _ f args kws sa ka => f :: args ++ kws ++ opt_list sa ++ opt_list ka
  | Subscript _ v s _ => [v; s]
  | Slice l u s => opt_list l ++ opt_list u ++ opt_list s
  | comprehension t i ifs => t :: i :: ifs
  | ExceptHandler _ t nm body => opt_list t ++ opt_list nm ++ body
  | arguments _ args _ _ defaults => args ++ defaults
  end.

(** [node.lineno], for the classes that have the attribute. *)
Definition node_pos (n : node) : option PositionInFile :=
  match n with
  | FunctionDef p _ _ _ _ | ClassDef p _ _ _ _ | Return p _ | Delete p _
  | Assign p _ _ | AugAssign p _ _ _ | Print p _ _ _ | For p _ _ _ _
  | While p _ _ _ | If p _ _ _ | With p _ _ _ | Raise_ p _ _ _
  | TryExcept p _ _ _ | TryFinally p _ _ | Assert p _ _ | Import_ p _
  | ImportFrom p _ _ _ | Exec p _ _ _ | Global_ p _ | Expr p _ | Pass p
  | Break p | Continue p | BoolOp p _ _ | BinOp p _ _ _ | UnaryOp p _ _
  | Lambda p _ _ | IfExp p _ _ _ | Dict p _ _ | Set_ p _ | ListComp p _ _
  | SetComp p _ _ | DictComp p _ _ _ | GeneratorExp p _ _ | Yield p _
  | Compare p _ _ _ | Call p _ _ _ _ _ | Repr p _ | Num p _ | Str p _
  | Attribute p _ _ _ | Subscript p _ _ _ | Name p _ _ | List_ p _ _
  | Tuple_ p _ _ | ExceptHandler p _ _ _ => Some p
  | arguments p _ _ _ _ => p
  | _ => None
  end.

(** ** [ast.NodeVisitor.generic_visit]

    Visits the fields of [n] in the order of [_fields]; [visit] is
    [self.visit]. It is written by cases so that the visitors that call it with
    themselves are structural recursions. *)

Section generic_visit.
Context {S : Type} (visit : node → M S unit).
Let list_ := forM_ visit.
Let opt_ := optM_ visit.

Definition generic_visit (n : node) : M S unit :=
  match n with
  | Module body | Interactive body => list_ body
  | Expression body => visit body
  | FunctionDef _ _ args body decs => visit args ;; list_ body ;; list_ decs
  | ClassDef _ _ bases body decs => list_ bases ;; list_ body ;; list_ decs
  | Return _ v | Yield _ v => opt_ v
  | Delete _ ts => list_ ts
  | Assign _ ts v => list_ ts ;; visit v
  | AugAssign _ t _ v => visit t ;; visit v
  | Print _ d vs _ => opt_ d ;; list_ vs
  | For _ t i body orelse => visit t ;; visit i ;; list_ body ;; list_ orelse
  | While _ t body orelse | If _ t body orelse =>
      visit t ;; list_ body ;; list_ orelse
  | With _ c v body => visit c ;; opt_ v ;; list_ body
  | Raise_ _ t i b => opt_ t ;; opt_ i ;; opt_ b
  | TryExcept _ b h o => list_ b ;; list_ h ;; list_ o
  | TryFinally _ b f => list_ b ;; list_ f
  | Assert _ t m => visit t ;; opt_ m
  | Import_ _ ns | ImportFrom _ _ ns _ => list_ ns
  | Exec _ b g l => visit b ;; opt_ g ;; opt_ l
  | Global_ _ _ | Pass _ | Break _ | Continue _ | Num _ _ | Str _ _
  | Name _ _ _ | Ellipsis | alias _ _ => mret tt
  | Expr _ v | Repr _ v | Index v | keyword _ v | Attribute _ v _ _ => visit v
  | BoolOp _ _ vs => list_ vs
  | BinOp _ l _ r => visit l ;; visit r
  | UnaryOp _ _ v => visit v
  | Lambda _ args body => visit args ;; visit body
  | IfExp _ t b o => visit t ;; visit b ;; visit o
  | Dict _ ks vs => list_ ks ;; list_ vs
  | Set_ _ es | List_ _ es _ | Tuple_ _ es _ | ExtSlice es => list_ es
  | ListComp _ e gs | SetComp _ e gs | GeneratorExp _ e gs =>
      visit e ;; list_ gs
  | DictComp _ k v gs => visit k ;; visit v ;; list_ gs
  | Compare _ l _ cs => visit l ;; list_ cs
  | Call _ f args kws sa ka =>
      visit f ;; list_ args ;; list_ kws ;; opt_ sa ;; opt_ ka
  | Subscript _ v s _ => visit v ;; visit s
  | Slice l u s => opt_ l ;; opt_ u ;; opt_ s
  | comprehension t i ifs => visit t ;; visit i ;; list_ ifs
  | ExceptHandler _ t nm body => opt_ t ;; opt_ nm ;; list_ body
  | arguments _ args _ _ defaults => list_ args ;; list_ defaults
  end.
End generic_visit.

(** ** Induction over syntax trees *)

Fixpoint node_size (n : node) : nat :=
  S match n with
  | Module body | Interactive body => sum_list_with node_size body
  | Expression body => node_size body
  | FunctionDef _ _ args body decs => node_size args + (sum_list_with node_size body + sum_list_with node_size decs)
  | ClassDef _ _ bases body decs => sum_list_with node_size bases + (sum_list_with node_size body + sum_list_with node_size decs)
  | Return _ v | Yield _ v => from_option node_size 0 v
  | Delete _ ts => sum_list_with node_size ts
  | Assign _ ts v => sum_list_with node_size ts + node_size v
  | AugAssign _ t _ v => node_size t + node_size v
  | Print _ d vs _ => from_option node_size 0 d + sum_list_with node_size vs
  | For _ t i body orelse => node_size t + (node_size i + (sum_list_with node_size body + sum_list_with node_size orelse))
  | While _ t body orelse | If _ t body orelse =>
      node_size t + (sum_list_with node_size body + sum_list_with node_size orelse)
  | With _ c v body => node_size c + (from_option node_size 0 v + sum_list_with node_size body)
  | Raise_ _ t i b => from_option node_size 0 t + (from_option node_size 0 i + from_option node_size 0 b)
  | TryExcept _ b h o => sum_list_with node_size b + (sum_list_with node_size h + sum_list_with node_size o)
  | TryFinally _ b f => sum_list_with node_size b + sum_list_with node_size f
  | Assert _ t m => node_size t + from_option node_size 0 m
  | Import_ _ ns | ImportFrom _ _ ns _ => sum_list_with node_size ns
  | Exec _ b g l => node_size b + (from_option node_size 0 g + from_option node_size 0 l)
  | Global_ _ _ | Pass _ | Break _ | Continue _ | Num _ _ | Str _ _
  | Name _ _ _ | Ellipsis | alias _ _ => 0
  | Expr _ v | Repr _ v | Index v | keyword _ v | Attribute _ v _ _ => node_size v
  | BoolOp _ _ vs => sum_list_with node_size vs
  | BinOp _ l _ r => node_size l + node_size r
  | UnaryOp _ _ v => node_size v
  | Lambda _ args body => node_size args + node_size body
  | IfExp _ t b o => node_size t + (node_size b + node_size o)
  | Dict _ ks vs => sum_list_with node_size ks + sum_list_with node_size vs
  | Set_ _ es | List_ _ es _ | Tuple_ _ es _ | ExtSlice es => sum_list_with node_size es
  | ListComp _ e gs | SetComp _ e gs | GeneratorExp _ e gs =>
      node_size e + sum_list_with node_size gs
  | DictComp _ k v gs => node_size k + (node_size v + sum_list_with node_size gs)
  | Compare _ l _ cs => node_size l + sum_list_with node_size cs
  | Call _ f args kws sa ka =>
      node_size f + (sum_list_with node_size args + (sum_list_with node_size kws + (from_option node_size 0 sa + from_option node_size 0 ka)))
  | Subscript _ v s _ => node_size v + node_size s
  | Slice l u s => from_option node_size 0 l + (from_option node_size 0 u + from_option node_size 0 s)
  | comprehension t i ifs => node_size t + (node_size i + sum_list_with node_size ifs)
  | ExceptHandler _ t nm body => from_option node_size 0 t + (from_option node_size 0 nm + sum_list_with node_size body)
  | arguments _ args _ _ defaults => sum_list_with node_size args + sum_list_with node_size defaults
  end.

Lemma sum_size_opt o :
  sum_list_with node_size (opt_list o) = from_option node_size 0 o.
Proof. destruct o; simpl; lia. Qed.

Lemma node_size_children n :
  node_size n = S (sum_list_with node_size (children n)).
Proof.
  destruct n; cbn [node_size children sum_list_with]; f_equal;
    repeat (rewrite ?sum_list_with_app, ?sum_size_opt; cbn [sum_list_with]);
    lia.
Qed.

Lemma child_size c n : c ∈ children n → node_size c < node_size n.
Proof.
  rewrite (node_size_children n). generalize (children n). intros l.
  induction 1; simpl; lia.
Qed.

(** The induction principle: [P] holds of a node when it holds of its children. *)
Lemma node_rec_ind (P : node → Prop) :
  (∀ n, (∀ c, c ∈ children n → P c) → P n) → ∀ n, P n.
Proof.
  intros H n. remember (node_size n) as k eqn:Hk. revert n Hk.
  induction (lt_wf k) as [k _ IH]; intros n ->.
  apply H. intros c Hc. eapply IH; [by apply child_size|done].
Qed.

(** [generic_visit] is a loop over the children. *)
Lemma generic_visit_children {S} (visit : node → M S unit) n s :
  generic_visit visit n s = forM_ visit (children n) s.
Proof.
  assert (Happ : ∀ (m1 m2 : M S unit) l1 l2 s,
    (∀ s, m1 s = forM_ visit l1 s) → (∀ s, m2 s = forM_ visit l2 s) →
    (m1 ;; m2) s = forM_ visit (l1 ++ l2) s).
  { intros m1 m2 l1 l2 s1 H1 H2. rewrite forM__app. unfold mbind, M_bind.
    rewrite H1. by destruct (forM_ visit l1 s1) as [[?|?] ?]. }
  assert (Hone : ∀ x s, visit x s = forM_ visit [x] s).
  { intros x s1. rewrite forM__cons. unfold mbind, M_bind, forM_, mret, M_ret.
    by destruct (visit x s1) as [[[]|?] ?]. }
  assert (Hopt : ∀ o s, optM_ visit o s = forM_ visit (opt_list o) s).
  { intros [x|] s1; [apply Hone|done]. }
  assert (Hcons : ∀ (m2 : M S unit) x l2 s, (∀ s, m2 s = forM_ visit l2 s) →
    (visit x ;; m2) s = forM_ visit (x :: l2) s).
  { intros m2 x l2 s1 H2. apply (Happ _ _ [x]); auto. }
  destruct n; cbn [generic_visit children]; try reflexivity;
    repeat first [ apply Hone | apply Hopt | reflexivity
                 | apply Hcons; intros ? | apply Happ; intros ? ].
Qed.

(** ** Subterms *)

Inductive subnode : node → node → Prop :=
| subnode_refl n : subnode n n
| subnode_child m c n : c ∈ children n → subnode m c → subnode m n.

Lemma subnode_trans m n k : subnode m n → subnode n k → subnode m k.
Proof. intros H1 H2. induction H2; eauto using subnode. Qed.
