(* ===== verification/NodeVisitorBases.v ===== *)
(** * Visitor base classes ([pyAst/NodeVisitorBases.py])

    [Base] is [NodeVisitorBase]; [InScope] is [GenericInScopeVisitor] with its
    context manager [InScopeSaveRestoreValue]; [Scoped] is
    [GenericScopedVisitor] with [ScopedSaveRestoreComputedValue]. A visitor is
    a structural recursion over [node]; its methods take [visit] (the source's
    [self.visit]) and the fields of the node they are called on. A subclass
    keeps its own attributes in the [own] field of the state. *)
From stdpp Require Import base gmap sets list strings fin_maps.
From S2P Require Import Prelude PyAst.

Definition isScopeNode (n : node) : bool :=
  match n with
  | Module _ | ClassDef _ _ _ _ _ | FunctionDef _ _ _ _ _ | Lambda _ _ _
  | GeneratorExp _ _ _ => true
  | _ => false
  end.

(** ** NodeVisitorBase *)

Module Base.
Section methods.
Context {S : Type} (visit : node → M S unit).

(** [self.visit(list)]: no [visit_list] method exists, so the list goes to
    [generic_visit], which hands it to [_generic_visit_list]. *)
Definition generic_visit_list (l : list node) : M S unit := forM_ visit l.

Definition visit_Assign (targets : list node) (value : node) : M S unit :=
  visit value ;; generic_visit_list targets.

Definition visit_AugAssign (target value : node) : M S unit :=
  visit value ;; visit target.

(** [visit_ListComp], [visit_SetComp] and [visit_GeneratorExp]. *)
Definition visit_Comp (elt : node) (generators : list node) : M S unit :=
  generic_visit_list generators ;; visit elt.

Definition visit_DictComp (key value : node) (generators : list node) :
    M S unit :=
  generic_visit_list generators ;; visit key ;; visit value.
End methods.
End Base.

(** ** GenericInScopeVisitor *)

Module InScope.
(** [_stash] belongs to the one [InScopeSaveRestoreValue] of the visitor. *)
Record state (X : Type) := State {
  isInDefinition : bool;
  stash : list bool;
  isComputed : bool;
  own : X }.
Arguments State {X}.
Arguments isInDefinition {X}.
Arguments stash {X}.
Arguments isComputed {X}.
Arguments own {X}.

Definition init {X} (x : X) : state X := State false [] false x.

Definition modify_own {X} (f : X → X) : M (state X) unit :=
  modify (λ s, State (isInDefinition s) (stash s) (isComputed s) (f (own s))).

(** [InScopeSaveRestoreValue.__enter__] and [__exit__]. *)
Definition mgr_enter {X} (newValue : bool) (s : state X) : state X :=
  State newValue (isInDefinition s :: stash s) (isComputed s) (own s).

Definition mgr_exit {X} (s : state X) : res unit * state X :=
  match stash s with
  | saved :: st => (Ret tt, State saved st (isComputed s) (own s))
  | [] => (Raise IndexError, s)
  end.

(** [with self._isInDefinitionMgr(newValue): body]: the exit runs in every
    case, and its own exception would replace the body's. *)
Definition with_isInDefinition {X} (newValue : bool)
    (body : M (state X) unit) : M (state X) unit := λ s,
  let '(r, s1) := body (mgr_enter newValue s) in
  let '(re, s2) := mgr_exit s1 in
  match re with Ret _ => (r, s2) | Raise e => (Raise e, s2) end.

Section methods.
Context {X : Type} (visit : node → M (state X) unit).
Let visit_list := Base.generic_visit_list visit.

Definition visit_Assign (targets : list node) (value : node) :=
  visit value ;; with_isInDefinition true (visit_list targets).

Definition visit_AugAssign (target value : node) :=
  visit value ;; with_isInDefinition true (visit target).

Definition visit_For (target iter : node) (body orelse : list node) :=
  with_isInDefinition true (visit target) ;;
  visit iter ;; visit_list body ;; visit_list orelse.

Definition visit_With (context_expr : node) (optional_vars : option node)
    (body : list node) :=
  visit context_expr ;;
  with_isInDefinition true (optM_ visit optional_vars) ;;
  visit_list body.

Definition visit_Attribute (value : node) :=
  with_isInDefinition false (visit value).

Definition visit_Global : M (state X) unit :=
  raise PythonToForaConversionError.

Definition visit_ExceptHandler (type name : option node)
    (body : list node) :=
  optM_ visit type ;;
  match name with
  | Some nm => with_isInDefinition true (visit nm)
  | None => mret tt
  end ;;
  visit_list body.

Definition visit_arguments (args defaults : list node) :=
  visit_list defaults ;; with_isInDefinition true (visit_list args).

Definition visit_comprehension (target iter : node) (ifs : list node) :=
  with_isInDefinition true (visit target) ;; visit iter ;; visit_list ifs.

(** The method table of the class, inherited methods included; Module,
    FunctionDef, ClassDef, Lambda and GeneratorExp are not entered. *)
Definition dispatch (n : node) : M (state X) unit :=
  match n with
  | Module _ | FunctionDef _ _ _ _ _ | ClassDef _ _ _ _ _ | Lambda _ _ _
  | GeneratorExp _ _ _ => mret tt
  | Assign _ ts v => visit_Assign ts v
  | AugAssign _ t _ v => visit_AugAssign t v
  | ListComp _ e gs | SetComp _ e gs => Base.visit_Comp visit e gs
  | DictComp _ k v gs => Base.visit_DictComp visit k v gs
  | For _ t i b o => visit_For t i b o
  | With _ c v b => visit_With c v b
  | Attribute _ v _ _ => visit_Attribute v
  | Global_ _ _ => visit_Global
  | ExceptHandler _ t nm b => visit_ExceptHandler t nm b
  | arguments _ args _ _ defaults => visit_arguments args defaults
  | comprehension t i ifs => visit_comprehension t i ifs
  | _ => generic_visit visit n
  end.

(** [_cachedCompute] on the visitor's root. A [FunctionDef] has a field
    [args] and never an attribute [arguments], so the branch that copies
    the position to [self._root.arguments] is not taken. *)
Definition cachedCompute (root : node) : M (state X) unit :=
  s ← get;
  if isComputed s then mret tt
  else if isScopeNode root then
    generic_visit visit root ;;
    modify (λ s, State (isInDefinition s) (stash s) true (own s))
  else raise InternalError.
End methods.

(** *** What the class visits

    [ctx_children stop d n] lists the children of [n] the visitor goes to,
    each with the value of [isInDefinition] during its visit, [d] being the
    value at [n]; [stop] says which nodes a subclass does not enter. *)
Definition ctx_children (stop : node → bool) (d : bool) (n : node) :
    list (bool * node) :=
  if stop n then [] else
  match n with
  | Module _ | FunctionDef _ _ _ _ _ | ClassDef _ _ _ _ _ | Lambda _ _ _
  | GeneratorExp _ _ _ | Global_ _ _ => []
  | Assign _ ts v => (d, v) :: (pair true <$> ts)
  | AugAssign _ t _ v => [(d, v); (true, t)]
  | For _ t i b o => (true, t) :: (d, i) :: (pair d <$> b ++ o)
  | With _ c v b => (d, c) :: (pair true <$> opt_list v) ++ (pair d <$> b)
  | Attribute _ v _ _ => [(false, v)]
  | ExceptHandler _ t nm b =>
      (pair d <$> opt_list t) ++ (pair true <$> opt_list nm) ++ (pair d <$> b)
  | arguments _ args _ _ defaults =>
      (pair d <$> defaults) ++ (pair true <$> args)
  | comprehension t i ifs => (true, t) :: (d, i) :: (pair d <$> ifs)
  | _ => pair d <$> children n
  end.

(** [reach stop d n d' m]: a visit of [n] with [isInDefinition = d] visits
    [m] with [isInDefinition = d'], without leaving the scope. *)
Inductive reach (stop : node → bool) : bool → node → bool → node → Prop :=
| reach_refl d n : reach stop d n d n
| reach_step d n d' c d'' m :
    (d', c) ∈ ctx_children stop d n → reach stop d' c d'' m →
    reach stop d n d'' m.

Lemma ctx_child_child stop d n d' c :
  (d', c) ∈ ctx_children stop d n → c ∈ children n.
Proof.
  unfold ctx_children. destruct (stop n); [by intros ?%not_elem_of_nil|].
  destruct n; cbn [children]; set_solver.
Qed.

Lemma reach_subnode stop d n d' m : reach stop d n d' m → subnode m n.
Proof.
  induction 1; [constructor|]. econstructor; [|eassumption].
  by eapply ctx_child_child.
Qed.

(** *** The effect of a computation on the visitor's state

    [effect m B E]: [m] restores [isInDefinition], the stash and the cache
    flag; if it returns, the entries it recorded are those of [B d], [d]
    being the flag at its start; it raises exactly when [E d] holds. [In]
    reads the recorded entries. *)
Section effect.
Context {X Y : Type} (In : X → Y → Prop).

Definition effect (m : M (state X) unit) (B : bool → Y → Prop)
    (E : bool → Prop) : Prop := ∀ s, ∃ r x,
  m s = (r, State (isInDefinition s) (stash s) (isComputed s) x) ∧
  match r with
  | Ret _ =>
      (∀ y, In x y ↔ In (own s) y ∨ B (isInDefinition s) y) ∧
      ¬ E (isInDefinition s)
  | Raise _ => E (isInDefinition s)
  end.

Lemma effect_weaken m B B' (E E' : bool → Prop) :
  (∀ d y, B d y ↔ B' d y) → (∀ d, E d ↔ E' d) →
  effect m B E → effect m B' E'.
Proof.
  intros HB HE Hm s. destruct (Hm s) as (r & x & Heq & Hr).
  exists r, x. split; [done|]. destruct r; [|by apply HE].
  destruct Hr as [Hr HnE]. split; [|by rewrite <- HE].
  intros y. by rewrite Hr, HB.
Qed.

Lemma effect_ret : effect (mret tt) (λ _ _, False) (λ _, False).
Proof. intros [d st c x]. exists (Ret tt), x. naive_solver. Qed.

Lemma effect_raise e : effect (raise e) (λ _ _, False) (λ _, True).
Proof. intros [d st c x]. by exists (Raise e), x. Qed.

Lemma effect_own f B :
  (∀ x y d, In (f x) y ↔ In x y ∨ B d y) →
  effect (modify_own f) B (λ _, False).
Proof. intros Hf [d st c x]. exists (Ret tt), (f x). cbn. auto. Qed.

Lemma effect_seq m1 m2 B1 B2 E1 E2 :
  effect m1 B1 E1 → effect m2 B2 E2 →
  effect (m1 ;; m2) (λ d y, B1 d y ∨ B2 d y) (λ d, E1 d ∨ E2 d).
Proof.
  intros H1 H2 s. destruct (H1 s) as ([u1|e] & x1 & Heq1 & Hr1).
  - destruct (H2 (State (isInDefinition s) (stash s) (isComputed s) x1))
      as (r2 & x2 & Heq2 & Hr2).
    exists r2, x2. cbn in Heq2, Hr2. split.
    + unfold mbind, M_bind. by rewrite Heq1.
    + destruct Hr1 as [Hr1 Hn1]. destruct r2; [|by right].
      destruct Hr2 as [Hr2 Hn2]. split; [|naive_solver].
      intros y. rewrite Hr2, Hr1. naive_solver.
  - exists (Raise e), x1. unfold mbind, M_bind. rewrite Heq1. naive_solver.
Qed.

Lemma effect_with d' m B E :
  effect m B E → effect (with_isInDefinition d' m) (λ _, B d') (λ _, E d').
Proof.
  intros Hm s. destruct (Hm (mgr_enter d' s)) as (r & x & Heq & Hr).
  exists r, x. unfold with_isInDefinition. rewrite Heq. cbn in *.
  by destruct r.
Qed.

(** A computation that visits the list [L d] of nodes with flags. *)
Context (visit : node → M (state X) unit).
Context (B : node → bool → Y → Prop) (E : node → bool → Prop).

Definition visits (m : M (state X) unit)
    (L : bool → list (bool * node)) : Prop :=
  effect m (λ d y, ∃ d' c, (d', c) ∈ L d ∧ B c d' y)
           (λ d, ∃ d' c, (d', c) ∈ L d ∧ E c d').

Lemma visits_nil : visits (mret tt) (λ _, []).
Proof.
  eapply effect_weaken; [| |apply effect_ret]; intros; split; try done.
  all: by intros (? & ? & ?%not_elem_of_nil & ?).
Qed.

Lemma visits_one c :
  effect (visit c) (B c) (E c) → visits (visit c) (λ d, [(d, c)]).
Proof.
  apply effect_weaken; setoid_rewrite list_elem_of_singleton; naive_solver.
Qed.

Lemma visits_seq m1 m2 L1 L2 :
  visits m1 L1 → visits m2 L2 → visits (m1 ;; m2) (λ d, L1 d ++ L2 d).
Proof.
  intros H1 H2. eapply effect_weaken; [| |apply effect_seq; eassumption].
  - intros d y. setoid_rewrite elem_of_app. naive_solver.
  - intros d. setoid_rewrite elem_of_app. naive_solver.
Qed.

Lemma visits_with d' m L :
  visits m L → visits (with_isInDefinition d' m) (λ _, L d').
Proof. apply effect_with. Qed.

Lemma visits_ext m L L' :
  visits m L → (∀ d e, e ∈ L d ↔ e ∈ L' d) → visits m L'.
Proof.
  intros Hm HL. eapply effect_weaken; [| |exact Hm].
  - intros d y. by setoid_rewrite HL.
  - intros d. by setoid_rewrite HL.
Qed.

Lemma visits_list l :
  (∀ c, c ∈ l → effect (visit c) (B c) (E c)) →
  visits (forM_ visit l) (λ d, pair d <$> l).
Proof.
  induction l as [|c l IH]; intros Hl; [apply visits_nil|].
  change (forM_ visit (c :: l)) with (visit c ;; forM_ visit l).
  eapply visits_ext;
    [eapply visits_seq; [apply visits_one, Hl; left|apply IH]|done].
  intros. apply Hl. by right.
Qed.

Lemma visits_opt o :
  (∀ c, c ∈ opt_list o → effect (visit c) (B c) (E c)) →
  visits (optM_ visit o) (λ d, pair d <$> opt_list o).
Proof.
  intros Ho. destruct o as [c|]; [|apply visits_nil].
  apply visits_one, Ho. left.
Qed.

Lemma visits_opt_with d' o :
  (∀ c, c ∈ opt_list o → effect (visit c) (B c) (E c)) →
  visits (match o with
          | Some c => with_isInDefinition d' (visit c)
          | None => mret tt
          end) (λ _, pair d' <$> opt_list o).
Proof.
  intros Ho. destruct o as [c|]; [|apply visits_nil].
  eapply visits_ext; [apply visits_with, visits_one, Ho; left|done].
Qed.

(** The class's method table visits exactly the [ctx_children], and raises
    by itself on a [global] statement only. *)
Lemma visits_dispatch stop n :
  stop n = false → (∀ p ns, n ≠ Global_ p ns) →
  (∀ c, c ∈ children n → effect (visit c) (B c) (E c)) →
  visits (dispatch visit n) (λ d, ctx_children stop d n).
Proof.
  intros Hstop Hglob Hc. unfold ctx_children. rewrite Hstop.
  pose proof (visits_list _ Hc) as Hgen.
  destruct n; try (by edestruct Hglob);
    try (intros s; cbn [dispatch]; rewrite generic_visit_children; apply Hgen);
    try apply visits_nil; clear Hgen Hglob; cbn [dispatch children] in *;
    (eapply visits_ext; [repeat first
      [ apply visits_one | apply visits_list | apply visits_opt
      | apply visits_opt_with
      | eapply visits_with | eapply visits_seq ] |]).
  all: try (intros d e; set_solver).
  all: try (intros; apply Hc; set_solver).
  all: try (apply Hc; set_solver).
Qed.
End effect.

(** *** Invariants of the subclass's own attributes *)
Section keeps.
Context {X : Type} (J : X → Prop) (visit : node → M (state X) unit).
Let I (s : state X) : Prop := J (own s).

Lemma keeps_with d m : keeps I m → keeps I (with_isInDefinition d m).
Proof.
  intros Hm s Hs. unfold with_isInDefinition. specialize (Hm (mgr_enter d s) Hs).
  destruct (m _) as [r s1]. unfold mgr_exit. by destruct (stash s1).
Qed.

Lemma keeps_generic n :
  (∀ c, c ∈ children n → keeps I (visit c)) → keeps I (generic_visit visit n).
Proof.
  intros Hc s. rewrite generic_visit_children. revert s. by apply keeps_forM_.
Qed.

Lemma keeps_dispatch n :
  (∀ c, c ∈ children n → keeps I (visit c)) → keeps I (dispatch visit n).
Proof.
  intros Hc. pose proof (keeps_generic n Hc) as Hg.
  destruct n; try exact Hg; clear Hg; cbn [dispatch children] in *;
    repeat first
      [ apply keeps_ret | apply keeps_raise | apply keeps_with
      | apply keeps_forM_; intros | apply keeps_optM_; intros ? ->
      | apply keeps_bind; [|intros _]
      | match goal with |- keeps _ (match ?o with _ => _ end) => destruct o end
      | apply Hc; set_solver ].
Qed.

Lemma keeps_cachedCompute root :
  (∀ c, keeps I (visit c)) → keeps I (cachedCompute visit root).
Proof.
  intros Hc. apply keeps_bind; [apply keeps_get|]. intros s.
  destruct (isComputed s); [apply keeps_ret|].
  destruct (isScopeNode root); [|apply keeps_raise].
  apply keeps_bind; [by apply keeps_generic|]. intros _. by apply keeps_modify.
Qed.
End keeps.
End InScope.

(** ** GenericScopedVisitor *)

Module Scoped.
(** [value] is what the scope manager saves and restores, with
    [valueGetter]/[valueSetter]; [stash] is the manager's [_stash]. *)
Record state (V X : Type) := State {
  value : V;
  stash : list V;
  own : X }.
Arguments State {V X}.
Arguments value {V X}.
Arguments stash {V X}.
Arguments own {V X}.

Definition modify_value {V X} (f : V → V) : M (state V X) unit :=
  modify (λ s, State (f (value s)) (stash s) (own s)).

Definition modify_own {V X} (f : X → X) : M (state V X) unit :=
  modify (λ s, State (value s) (stash s) (f (own s))).

(** [node.args.lineno = node.lineno] (and [col_offset]): the tree the scope
    manager then sees. *)
Definition set_args_pos (n : node) : node :=
  match n with
  | FunctionDef p name (arguments _ a va ka d) body decs =>
      FunctionDef p name (arguments (Some p) a va ka d) body decs
  | Lambda p (arguments _ a va ka d) body =>
      Lambda p (arguments (Some p) a va ka d) body
  | _ => n
  end.

Section methods.
(** [computer] is the manager's [valueComputer]. *)
Context {V X : Type} (computer : node → V → res V).
Context (visit : node → M (state V X) unit).
Let visit_list := Base.generic_visit_list visit.

(** [ScopedSaveRestoreComputedValue.__enter__]: when the computation of the
    new value raises, the old one is already on the stash. *)
Definition scope_enter (root : node) : M (state V X) unit := λ s,
  let old := value s in
  let s1 := State old (old :: stash s) (own s) in
  match computer root old with
  | Ret v => (Ret tt, State v (old :: stash s) (own s))
  | Raise e => (Raise e, s1)
  end.

Definition scope_exit (s : state V X) : res unit * state V X :=
  match stash s with
  | saved :: st => (Ret tt, State saved st (own s))
  | [] => (Raise IndexError, s)
  end.

(** [with self._getScopeMgr(node): body]. *)
Definition with_scope (root : node) (body : M (state V X) unit) :
    M (state V X) unit := λ s,
  match scope_enter root s with
  | (Raise e, s1) => (Raise e, s1)
  | (Ret _, s1) =>
      let '(r, s2) := body s1 in
      let '(re, s3) := scope_exit s2 in
      match re with Ret _ => (r, s3) | Raise e => (Raise e, s3) end
  end.

(** [self.visit(node.args.defaults)]. *)
Definition visit_defaults (args : node) : M (state V X) unit :=
  match args with
  | arguments _ _ _ _ defaults => visit_list defaults
  | _ => raise AttributeError
  end.

Definition visit_Module (n : node) (body : list node) :=
  with_scope n (visit_list body).

Definition visit_FunctionDef (n args : node) (body decs : list node) :=
  visit_defaults args ;;
  with_scope (set_args_pos n) (visit_list body ;; visit_list decs).

Definition visit_Lambda (n args body : node) :=
  visit_defaults args ;; with_scope (set_args_pos n) (visit body).

Definition visit_GeneratorExp (n elt : node) (generators : list node) :=
  with_scope n (Base.visit_Comp visit elt generators).

Definition visit_ClassDef (bases body decs : list node) :=
  visit_list bases ;; visit_list body ;; visit_list decs.

(** The method table of the class. The methods that subclasses override
    are its arguments: [self.generic_visit], [self.visit_ClassDef] (whose
    version here is [visit_ClassDef]), and [self.visit_Name] and
    [self.visit_Attribute] (which this class does not define). *)
Definition dispatch (self_generic_visit : node → M (state V X) unit)
    (self_visit_ClassDef :
      string → list node → list node → list node → M (state V X) unit)
    (self_visit_Name :
      PositionInFile → string → expr_context → M (state V X) unit)
    (self_visit_Attribute :
      node → node → PositionInFile → M (state V X) unit)
    (n : node) : M (state V X) unit :=
  match n with
  | Module body => visit_Module n body
  | FunctionDef _ _ args body decs => visit_FunctionDef n args body decs
  | Lambda _ args body => visit_Lambda n args body
  | GeneratorExp _ e gs => visit_GeneratorExp n e gs
  | ClassDef _ name bases body decs => self_visit_ClassDef name bases body decs
  | Assign _ ts v => Base.visit_Assign visit ts v
  | AugAssign _ t _ v => Base.visit_AugAssign visit t v
  | ListComp _ e gs | SetComp _ e gs => Base.visit_Comp visit e gs
  | DictComp _ k v gs => Base.visit_DictComp visit k v gs
  | Name p id ctx => self_visit_Name p id ctx
  | Attribute p v _ _ => self_visit_Attribute n v p
  | _ => self_generic_visit n
  end.
End methods.
End Scoped.
