(* ===== verification/FreeVariableAnalyses.v ===== *)
(** * Free-variable analyses ([pyAst/PyAstFreeVariableAnalyses.py])

    The bound values of one scope, the free variables of a tree and its free
    variable member access chains: what pyfora reads to know which live objects
    a function, class or with-block needs. *)
From stdpp Require Import base gmap sets list strings fin_maps.
From S2P Require Import Prelude PyAst NodeVisitorBases.

(** [VarWithPosition]. *)
Abbreviation VarWithPosition := (string * PositionInFile)%type.
Abbreviation ChainWithPosition := (list string * PositionInFile)%type.

(** ** Bound values of one scope *)

Module Collect.
Import InScope.

Record own_t := Own {
  boundVarsWithPos : gset VarWithPosition;
  boundNamesWithPos : gset VarWithPosition }.
Abbreviation st := (state own_t).

Definition add_var (x : string) (p : PositionInFile) : M st unit :=
  modify_own (λ o, Own ({[ (x, p) ]} ∪ boundVarsWithPos o) (boundNamesWithPos o)).
Definition add_name (x : string) (p : PositionInFile) : M st unit :=
  modify_own (λ o, Own (boundVarsWithPos o) ({[ (x, p) ]} ∪ boundNamesWithPos o)).

Definition visit_FunctionDef (p : PositionInFile) (name : string) : M st unit :=
  when (negb (bool_decide (name = ""))) (add_name name p).

Definition visit_Name (p : PositionInFile) (id : string) : M st unit :=
  s ← get; when (isInDefinition s) (add_var id p).

(** [pos] is [node.lineno, node.col_offset]; without it the attribute
    accesses raise. *)
Definition add_special (pos : option PositionInFile) (o : option string) :
    M st unit :=
  match o with
  | None => mret tt
  | Some x =>
      match pos with Some p => add_var x p | None => raise AttributeError end
  end.

Fixpoint visit (n : node) : M st unit :=
  match n with
  | Module _ => raise InternalError
  | FunctionDef p name _ _ _ => visit_FunctionDef p name
  | ClassDef p name _ _ _ => add_name name p
  | Lambda _ _ _ => mret tt
  | Name p id _ => visit_Name p id
  | Attribute _ _ _ _ => mret tt
  | Global_ _ _ => raise PythonToForaConversionError
  | arguments pos args vararg kwarg defaults =>
      InScope.visit_arguments visit args defaults ;;
      add_special pos vararg ;; add_special pos kwarg
  | _ => dispatch visit n
  end.

Definition run {A} (root : node) (result : own_t → A) : res A :=
  let '(r, s) := cachedCompute visit root (init (Own ∅ ∅)) in
  match r with Ret _ => Ret (result (own s)) | Raise e => Raise e end.
End Collect.

Definition vars_of (s : gset VarWithPosition) : gset string := set_map fst s.

(** [collectBoundValuesInScope(node, getPositions=True)]. *)
Definition collectBoundValuesInScopeWithPositions (n : node) :
    res (gset VarWithPosition) :=
  Collect.run n (λ o, Collect.boundVarsWithPos o ∪ Collect.boundNamesWithPos o).

Definition collectBoundVariablesInScope (n : node) : res (gset string) :=
  Collect.run n (λ o, vars_of (Collect.boundVarsWithPos o)).

Definition collectBoundNamesInScope (n : node) : res (gset string) :=
  Collect.run n (λ o, vars_of (Collect.boundNamesWithPos o)).

Definition collectBoundValuesInScope (n : node) : res (gset string) :=
  Collect.run n (λ o, vars_of (Collect.boundVarsWithPos o) ∪
                      vars_of (Collect.boundNamesWithPos o)).

(** ** Roots of an analysis ([PyAstUtil.getRootInContext]) *)

Definition getRootInContext (n : node) (isClassContext : option bool) : res node :=
  if isScopeNode n then
    match n with
    | FunctionDef _ _ _ _ _ =>
        match isClassContext with
        | None => Raise InternalError
        | Some false => Ret (Module [n])
        | Some true => Ret n
        end
    | _ => Ret n
    end
  else Raise InternalError.

(** ** GenericBoundValuesScopedVisitor *)

Module BoundValues.
(** The pair of sets the scope manager saves and restores. *)
Record value_t := Values {
  boundValues : gset string;
  boundInScopeSoFar : gset string }.
Abbreviation st X := (Scoped.state value_t X).

Definition computeScopeBoundValues (n : node) (old : value_t) : res value_t :=
  b ← collectBoundValuesInScope n; Ret (Values (boundValues old ∪ b) ∅).

Definition isBoundSoFar (v : value_t) (name : string) : bool :=
  bool_decide (name ∈ boundValues v) || bool_decide (name ∈ boundInScopeSoFar v).

Definition store {X} (x : string) : M (st X) unit :=
  Scoped.modify_value
    (λ v, Values (boundValues v) ({[ x ]} ∪ boundInScopeSoFar v)).

Section methods.
Context {X : Type} (visit : node → M (st X) unit).

Definition visit_ClassDef (name : string) (bases body decs : list node) :
    M (st X) unit :=
  Scoped.modify_value
    (λ v, Values ({[ name ]} ∪ boundValues v) (boundInScopeSoFar v)) ;;
  Scoped.visit_ClassDef visit bases body decs.

(** [visit_Name] of both subclasses: a store is remembered, a load of a name
    that is not bound is passed to [found]. *)
Definition visit_Name (found : string → PositionInFile → M (st X) unit)
    (p : PositionInFile) (id : string) (ctx : expr_context) : M (st X) unit :=
  s ← get;
  match ctx with
  | Store => store id
  | Load => when (negb (isBoundSoFar (Scoped.value s) id)) (found id p)
  | _ => mret tt
  end.
End methods.

Definition init {X} (x : X) : st X := Scoped.State (Values ∅ ∅) [] x.
End BoundValues.

(** ** Free variables *)

Module FreeVars.
Import BoundValues.
Abbreviation st := (BoundValues.st (gset VarWithPosition)).

Definition found (x : string) (p : PositionInFile) : M st unit :=
  Scoped.modify_own (λ fs, {[ (x, p) ]} ∪ fs).

Fixpoint visit (n : node) : M st unit :=
  Scoped.dispatch computeScopeBoundValues visit (generic_visit visit)
    (visit_ClassDef visit) (visit_Name found)
    (λ n _ _, generic_visit visit n) n.
End FreeVars.

(** [getFreeVariables(node, isClassContext, getPositions=True)]. *)
Definition getFreeVariablesWithPositions (n : node) (isClassContext : option bool) :
    res (gset VarWithPosition) :=
  root ← getRootInContext n isClassContext;
  let '(r, s) := FreeVars.visit root (BoundValues.init ∅) in
  match r with Ret _ => Ret (Scoped.own s) | Raise e => Raise e end.

Definition getFreeVariables (n : node) (isClassContext : option bool) :
    res (gset string) :=
  vars_of <$> getFreeVariablesWithPositions n isClassContext.

(** ** Free variable member access chains *)

Fixpoint memberAccessChainOrNoneImpl (n : node) : list string :=
  match n with
  | Name _ id _ => [id]
  | Expr _ v => memberAccessChainOrNoneImpl v
  | Attribute _ v attr _ =>
      match memberAccessChainOrNoneImpl v with
      | [] => []
      | prefix => prefix ++ [attr]
      end
  | _ => []
  end.

Definition memberAccessChainOrNone (n : node) : option (list string) :=
  match memberAccessChainOrNoneImpl n with [] => None | chain => Some chain end.

Module Chains.
Import BoundValues.
Abbreviation st := (BoundValues.st (gset ChainWithPosition)).

Definition found (c : list string) (p : PositionInFile) : M st unit :=
  Scoped.modify_own (λ fs, {[ (c, p) ]} ∪ fs).

Section visitor.
Context (exclude_predicate : option (node → bool)).

(** The overriding [generic_visit]. *)
Definition generic (visit : node → M st unit) (n : node) : M st unit :=
  match exclude_predicate with
  | None => generic_visit visit n
  | Some ex => if ex n then mret tt else generic_visit visit n
  end.

(** [visit_Attribute]: a chain is tested against [_boundValues] only, and
    when there is no chain [generic_visit] is called on [node.value]. *)
Definition visit_Attribute (visit : node → M st unit) (n value : node)
    (p : PositionInFile) : M st unit :=
  match memberAccessChainOrNone n with
  | Some chain =>
      s ← get;
      when (negb (bool_decide (default "" (head chain) ∈
                    boundValues (Scoped.value s))))
        (found chain p)
  | None => generic visit value
  end.

Fixpoint visit (n : node) : M st unit :=
  Scoped.dispatch computeScopeBoundValues visit (generic visit)
    (visit_ClassDef visit) (visit_Name (λ id, found [id]))
    (visit_Attribute visit) n.
End visitor.
End Chains.

(** [getFreeVariableMemberAccessChains(..., getPositions=True)]. *)
Definition getFreeVariableMemberAccessChainsWithPositions (n : node)
    (isClassContext : option bool) (exclude : option (node → bool)) :
    res (gset ChainWithPosition) :=
  root ← getRootInContext n isClassContext;
  let '(r, s) := Chains.visit exclude root (BoundValues.init ∅) in
  match r with Ret _ => Ret (Scoped.own s) | Raise e => Raise e end.

Definition getFreeVariableMemberAccessChains (n : node)
    (isClassContext : option bool) (exclude : option (node → bool)) :
    res (gset (list string)) :=
  set_map fst <$> getFreeVariableMemberAccessChainsWithPositions n isClassContext exclude.

(** ** What the analyses compute *)

Module CollectSpec.
Import InScope Collect.

(** An entry of the collected sets: is it a function or class name, the
    identifier, the position. *)
Abbreviation entry := (bool * string * PositionInFile)%type.

Definition In (o : own_t) (e : entry) : Prop :=
  let '(b, x, p) := e in
  (x, p) ∈ (if b then boundNamesWithPos o else boundVarsWithPos o).

(** Python's binding constructs, one node at a time; [d] says that the node is
    in a binding position. *)
Definition local_bind (d : bool) (n : node) (e : entry) : Prop :=
  match n with
  | FunctionDef p name _ _ _ => name ≠ "" ∧ e = (true, name, p)
  | ClassDef p name _ _ _ => e = (true, name, p)
  | Name p id _ => d = true ∧ e = (false, id, p)
  | arguments (Some p) _ va ka _ =>
      (∃ x, va = Some x ∧ e = (false, x, p)) ∨
      (∃ x, ka = Some x ∧ e = (false, x, p))
  | _ => False
  end.

(** Nodes on which the visitor raises: a [global] statement, a nested module,
    and starred arguments of an [arguments] node that has no position. *)
Definition offends (n : node) : Prop :=
  match n with
  | Module _ | Global_ _ _ => True
  | arguments None _ va ka _ => va ≠ None ∨ ka ≠ None
  | _ => False
  end.

(** Attributes are not entered: [x.y = e] binds nothing. *)
Definition stop (n : node) : bool :=
  match n with Module _ | Attribute _ _ _ _ => true | _ => false end.

Definition binds (n : node) (d : bool) (e : entry) : Prop :=
  ∃ d' m, reach stop d n d' m ∧ local_bind d' m e.
Definition bad (n : node) (d : bool) : Prop :=
  ∃ d' m, reach stop d n d' m ∧ offends m.

(** The entries bound in the scope of [root], and the reasons to fail. *)
Definition scope_binds (root : node) (e : entry) : Prop :=
  ∃ c, c ∈ children root ∧ binds c false e.
Definition scope_bad (root : node) : Prop :=
  ∃ c, c ∈ children root ∧ bad c false.

Lemma binds_unfold n d e :
  binds n d e ↔
  local_bind d n e ∨
  ∃ d' c, (d', c) ∈ ctx_children stop d n ∧ binds c d' e.
Proof.
  split.
  - intros (d' & m & Hr & Hl). inversion Hr; subst; [by left|right].
    do 2 eexists. split; [eassumption|]. by do 2 eexists.
  - intros [Hl|(d' & c & Hc & d'' & m & Hr & Hl)].
    + do 2 eexists. split; [constructor|done].
    + do 2 eexists. split; [by econstructor|done].
Qed.

Lemma bad_unfold n d :
  bad n d ↔ offends n ∨ ∃ d' c, (d', c) ∈ ctx_children stop d n ∧ bad c d'.
Proof.
  split.
  - intros (d' & m & Hr & Hl). inversion Hr; subst; [by left|right].
    do 2 eexists. split; [eassumption|]. by do 2 eexists.
  - intros [Hl|(d' & c & Hc & d'' & m & Hr & Hl)].
    + do 2 eexists. split; [constructor|done].
    + do 2 eexists. split; [by econstructor|done].
Qed.

Lemma effect_add_var x p :
  effect In (add_var x p) (λ _ e, e = (false, x, p)) (λ _, False).
Proof.
  apply effect_own. intros o [[[] y] q] d; cbn; set_solver.
Qed.

Lemma effect_add_name x p :
  effect In (add_name x p) (λ _ e, e = (true, x, p)) (λ _, False).
Proof.
  apply effect_own. intros o [[[] y] q] d; cbn; set_solver.
Qed.

Lemma effect_add_special pos o :
  effect In (add_special pos o)
    (λ _ e, ∃ p x, pos = Some p ∧ o = Some x ∧ e = (false, x, p))
    (λ _, pos = None ∧ o ≠ None).
Proof.
  destruct o as [x|]; [destruct pos as [p|]|]; cbn.
  - eapply effect_weaken; [| |apply effect_add_var]; naive_solver.
  - eapply effect_weaken; [| |apply effect_raise]; naive_solver.
  - eapply effect_weaken; [| |apply effect_ret]; naive_solver.
Qed.

(** A visit of [n] records the entries bound by [n] in this scope, and raises
    only on account of an offending node of the scope. *)
Lemma effect_visit n : effect In (visit n) (binds n) (bad n).
Proof.
  induction n as [n IH] using node_rec_ind.
  assert (Hd : stop n = false → ¬ offends n →
    (∀ d e, ¬ local_bind d n e) → effect In (dispatch visit n) (binds n) (bad n)).
  { intros Hs Hg Hl.
    eapply effect_weaken;
      [| |eapply visits_dispatch; [exact Hs|by intros ? ? ->; apply Hg|exact IH]];
      intros d; [intros e; rewrite (binds_unfold n); specialize (Hl d e)
                |rewrite (bad_unfold n)]; tauto. }
  assert (Hleaf : ∀ m B E, effect In m B E → ctx_children stop true n = [] →
    ctx_children stop false n = [] → (∀ d e, B d e ↔ local_bind d n e) →
    (∀ d, E d ↔ offends n) → effect In m (binds n) (bad n)).
  { intros m B E Hm Ht Hf HB HE. eapply effect_weaken; [| |exact Hm];
      intros []; [intros e; rewrite (binds_unfold n), Ht
      |intros e; rewrite (binds_unfold n), Hf
      |rewrite (bad_unfold n), Ht|rewrite (bad_unfold n), Hf];
      rewrite ?HB, ?HE; (split; [by left|]);
      (intros [?|(? & ? & ?%not_elem_of_nil & ?)]; done). }
  destruct n; try (apply Hd; [done|by intros []|by intros ? ? []]);
    clear Hd; cbn [visit].
  - eapply Hleaf; [apply effect_raise|done..].
  - unfold Collect.visit_FunctionDef. case_bool_decide; cbn [negb when].
    + eapply Hleaf; [apply effect_ret|done|done|cbn; naive_solver|done].
    + eapply Hleaf; [apply effect_add_name|done|done|cbn; naive_solver|done].
  - eapply Hleaf; [apply effect_add_name|done..].
  - eapply Hleaf; [apply effect_raise|done..].
  - eapply Hleaf; [apply effect_ret|done..].
  - intros s. destruct (isInDefinition s) eqn:Hdef; unfold visit_Name, mbind, M_bind;
      cbn [get]; rewrite Hdef; cbn [when].
    + destruct (effect_add_var id p s) as (r & x & Heq & Hr).
      exists r, x. split; [by rewrite Heq, Hdef|].
      destruct r; [|done]. destruct Hr as [Hr _].
      split; [|rewrite bad_unfold; cbn; set_solver].
      intros y. rewrite Hr, binds_unfold. cbn. set_solver.
    + exists (Ret tt), (own s). split; [destruct s; cbn in *; by subst|].
      split; [|rewrite bad_unfold; cbn; set_solver].
      intros y. rewrite binds_unfold. cbn. set_solver.
  - eapply effect_weaken; [| |eapply effect_seq;
      [eapply (visits_dispatch In visit binds bad stop (arguments p args vararg kwarg defaults));
         [done|done|exact IH]
      |eapply effect_seq; apply effect_add_special]]; intros d.
    + intros e. rewrite (binds_unfold (arguments _ _ _ _ _)). cbn.
      destruct p; naive_solver.
    + rewrite (bad_unfold (arguments _ _ _ _ _)). cbn. destruct p; naive_solver.
Qed.

(** The run of the visitor on a scope: it fails exactly when the scope holds
    an offending node, and otherwise its sets hold exactly the bound entries. *)
Lemma run_spec root :
  isScopeNode root = true →
  (∃ o, (∀ e, In o e ↔ scope_binds root e) ∧ ¬ scope_bad root ∧
        ∀ A (f : own_t → A), run root f = Ret (f o)) ∨
  (∃ ex, scope_bad root ∧ ∀ A (f : own_t → A), run root f = Raise ex).
Proof.
  intros Hroot.
  assert (Heff : effect In (forM_ visit (children root))
    (λ d e, ∃ c, c ∈ children root ∧ binds c d e)
    (λ d, ∃ c, c ∈ children root ∧ bad c d)).
  { eapply effect_weaken;
      [| |apply (visits_list In visit binds bad); intros; apply effect_visit];
      intros; set_solver. }
  destruct (Heff (init (Own ∅ ∅))) as (r & o & Heq & Hr).
  unfold run, cachedCompute, mbind, M_bind. cbn [get isComputed init].
  rewrite Hroot, generic_visit_children, Heq. destruct r as [[]|ex]; cbn in *.
  - left. exists o. destruct Hr as [Hr Hbad]. split_ands; [|done|done].
    intros e. rewrite Hr. unfold scope_binds.
    assert (¬ In (Own ∅ ∅) e) by (destruct e as [[[] ?] ?]; cbn; set_solver).
    tauto.
  - right. by exists ex.
Qed.

(** [x] is bound somewhere in the scope of [root]. *)
Definition bound_in (root : node) (x : string) : Prop :=
  ∃ b p, scope_binds root (b, x, p).

Lemma collectBoundValues_bound root b :
  collectBoundValuesInScope root = Ret b → ∀ x, x ∈ b ↔ bound_in root x.
Proof.
  unfold collectBoundValuesInScope. intros Hb x.
  destruct (isScopeNode root) eqn:Hroot.
  - destruct (run_spec root Hroot) as [(o & HIn & _ & Hrun)|(ex & _ & Hrun)];
      rewrite Hrun in Hb; simplify_eq.
    unfold bound_in. setoid_rewrite <- HIn. unfold In, vars_of.
    rewrite elem_of_union, !elem_of_map. split.
    + intros [([y q] & -> & ?)|([y q] & -> & ?)]; [exists false|exists true]; eauto.
    + intros ([] & q & ?); [right|left]; eexists (_, _); eauto.
  - unfold run, cachedCompute, mbind, M_bind in Hb. cbn in Hb. by rewrite Hroot in Hb.
Qed.
End CollectSpec.
