(* ===== verification/FreeVariableSpec.v ===== *)
(** * What the free-variable analyses compute

    A declarative reading of [getFreeVariables] and
    [getFreeVariableMemberAccessChains], as a relation over the syntax tree, and
    the theorems that the visitors of FreeVariableAnalyses.v compute it. *)
From stdpp Require Import base gmap sets list strings fin_maps.
From S2P Require Import Prelude PyAst NodeVisitorBases FreeVariableAnalyses.

(** The nodes at which [GenericScopedVisitor] opens a scope. *)
Definition opens (n : node) : bool :=
  match n with
  | Module _ | FunctionDef _ _ _ _ _ | Lambda _ _ _ | GeneratorExp _ _ _ => true
  | _ => false
  end.

(** [node.args] of a function that is not an [arguments] node. *)
Definition bad_args (n : node) : bool :=
  match n with
  | FunctionDef _ _ (arguments _ _ _ _ _) _ _ | Lambda _ (arguments _ _ _ _ _) _ => false
  | FunctionDef _ _ _ _ _ | Lambda _ _ _ => true
  | _ => false
  end.

Definition arg_defaults (n : node) : list node :=
  match n with
  | FunctionDef _ _ (arguments _ _ _ _ ds) _ _
  | Lambda _ (arguments _ _ _ _ ds) _ => ds
  | _ => []
  end.

(** A name that the code assigns with a [Store] or defines as a class. *)
Definition assigns (n : node) (x : string) : Prop :=
  match n with
  | Name _ y Store => x = y
  | ClassDef _ y _ _ _ => x = y
  | _ => False
  end.

Definition quiet (n : node) (x : string) : Prop :=
  ∀ m, subnode m n → ¬ assigns m x.

Lemma quiet_child c n x : c ∈ children n → quiet n x → quiet c x.
Proof. intros Hc Hq m Hm. apply Hq. by econstructor. Qed.

Lemma set_args_pos_scope n : isScopeNode (Scoped.set_args_pos n) = isScopeNode n.
Proof.
  destruct n; try done; cbn;
    match goal with |- context [match ?a with _ => _ end] => by destruct a end.
Qed.

Lemma defaults_child n c :
  c ∈ arg_defaults n → ∃ m, m ∈ children n ∧ c ∈ children m.
Proof.
  destruct n; cbn; try by intros ?%not_elem_of_nil.
  all: match goal with |- _ ∈ match ?a with _ => _ end → _ =>
    intros Hc; exists a; split; [set_solver|]; destruct a; cbn in *; set_solver end.
Qed.

(** ** The scoped traversal *)

Section scoped_spec.
Context {Y : Type} `{Countable Y} (root : Y → string).
(** [loc]: what a node contributes by itself; [gk]: where [self.generic_visit]
    goes; [ak]: where [self.visit_Attribute] goes. *)
Context (loc : node → Y → Prop) (gk ak : node → list node).

(** The nodes that are visited on account of [n], with a flag that says
    whether the visit is inside the scope that [n] opens. *)
Definition kids (n : node) : list (bool * node) :=
  match n with
  | Module body => pair true <$> body
  | FunctionDef _ _ _ body decs =>
      (pair false <$> arg_defaults n) ++ (pair true <$> body ++ decs)
  | Lambda _ _ body => (pair false <$> arg_defaults n) ++ [(true, body)]
  | GeneratorExp _ e gs => pair true <$> gs ++ [e]
  | ClassDef _ _ _ _ _ | Assign _ _ _ | AugAssign _ _ _ _ | ListComp _ _ _
  | SetComp _ _ _ | DictComp _ _ _ _ => pair false <$> children n
  | Name _ _ _ => []
  | Attribute _ _ _ _ => pair false <$> ak n
  | _ => pair false <$> gk n
  end.

(** [free n y]: [y] occurs in [n], and no scope between the occurrence and
    [n] binds its root. *)
Inductive free : node → Y → Prop :=
| free_here n y : loc n y → free n y
| free_kid n b c y :
    (b, c) ∈ kids n →
    (b = true → ¬ CollectSpec.bound_in (Scoped.set_args_pos n) (root y)) →
    free c y → free n y.

(** [fails n]: the traversal meets a scope whose bound values cannot be
    computed, or a function without arguments node. *)
Inductive fails : node → Prop :=
| fails_args n : bad_args n = true → fails n
| fails_scope n :
    opens n = true → CollectSpec.scope_bad (Scoped.set_args_pos n) → fails n
| fails_kid n b c : (b, c) ∈ kids n → fails c → fails n.

Lemma free_unfold n y :
  free n y ↔ loc n y ∨ ∃ b c, (b, c) ∈ kids n ∧
    (b = true → ¬ CollectSpec.bound_in (Scoped.set_args_pos n) (root y)) ∧
    free c y.
Proof.
  split; [inversion 1; subst; naive_solver|].
  intros [?|(b & c & ? & ? & ?)]; [by constructor|by econstructor].
Qed.

Lemma fails_unfold n :
  fails n ↔ bad_args n = true ∨
    (opens n = true ∧ CollectSpec.scope_bad (Scoped.set_args_pos n)) ∨
    ∃ b c, (b, c) ∈ kids n ∧ fails c.
Proof.
  split; [inversion 1; subst; naive_solver|].
  intros [?|[[? ?]|(b & c & ? & ?)]];
    [by constructor|by constructor|by econstructor].
Qed.

(** *** Effect of a computation *)

Import BoundValues.
Abbreviation st := (BoundValues.st (gset Y)).

Definition bv (s : st) := boundValues (Scoped.value s).
Definition sf (s : st) := boundInScopeSoFar (Scoped.value s).

(** [L]: the entries it may record; [Q]: the names it neither binds nor
    stores, whose entries it records whenever they are not bound yet; [E]:
    it raises. *)
Definition seff (m : M st unit) (L : Y → Prop) (Q : string → Prop) (E : Prop) :
    Prop := ∀ s,
  match m s with
  | (Raise _, _) => E
  | (Ret _, s') =>
      ¬ E ∧ Scoped.stash s' = Scoped.stash s ∧ bv s ⊆ bv s' ∧
      Scoped.own s ⊆ Scoped.own s' ∧
      (∀ y, y ∈ Scoped.own s' → y ∈ Scoped.own s ∨ root y ∉ bv s ∧ L y) ∧
      (∀ x, Q x → (x ∈ bv s' → x ∈ bv s) ∧ (x ∈ sf s' → x ∈ sf s)) ∧
      (∀ y, Q (root y) → L y → root y ∉ bv s → root y ∉ sf s →
            y ∈ Scoped.own s')
  end.

Lemma seff_weaken m (L L' : Y → Prop) (Q Q' : string → Prop) (E E' : Prop) :
  (∀ y, L y ↔ L' y) → (∀ x, Q' x → Q x) → (E ↔ E') →
  seff m L Q E → seff m L' Q' E'.
Proof.
  intros HL HQ HE Hm s. specialize (Hm s).
  destruct (m s) as [[u|e] s']; [|by apply HE].
  destruct Hm as (? & ? & ? & ? & H1 & H2 & H3).
  split_ands; [tauto|done..| | |].
  - intros y Hy. rewrite <- HL. auto.
  - auto.
  - intros y Hq HL'. apply H3; [auto|by apply HL].
Qed.

Lemma seff_ret : seff (mret tt) (λ _, False) (λ _, True) False.
Proof. intros s. cbn. split_ands; try done; auto. Qed.

Lemma seff_get : seff (get ;; mret tt) (λ _, False) (λ _, True) False.
Proof. exact seff_ret. Qed.

Lemma seff_raise e : seff (raise e) (λ _, False) (λ _, True) True.
Proof. intros s. done. Qed.

Lemma seff_seq m1 m2 L1 L2 Q1 Q2 (E1 E2 : Prop) :
  seff m1 L1 Q1 E1 → seff m2 L2 Q2 E2 →
  seff (m1 ;; m2) (λ y, L1 y ∨ L2 y) (λ x, Q1 x ∧ Q2 x) (E1 ∨ E2).
Proof.
  intros H1 H2 s. unfold mbind, M_bind. specialize (H1 s).
  destruct (m1 s) as [[u|e] s1]; [|by left].
  specialize (H2 s1). destruct (m2 s1) as [[u2|e] s2]; [|by right].
  destruct H1 as (? & Hs1 & Hb1 & Ho1 & Hsd1 & Hq1 & Hc1).
  destruct H2 as (? & Hs2 & Hb2 & Ho2 & Hsd2 & Hq2 & Hc2).
  split_ands; [tauto|congruence|set_solver|set_solver| | |].
  - intros y Hy. apply Hsd2 in Hy as [Hy|[Hy ?]]; [naive_solver|].
    right. split; [set_solver|by right].
  - intros x [? ?]. naive_solver.
  - intros y [? ?] [?|?] ? ?; [by apply Ho2, Hc1|].
    apply Hc2; naive_solver.
Qed.

(** Entering the scope of [n]. *)
Lemma seff_scope n m L Q (E : Prop) :
  isScopeNode n = true → seff m L Q E →
  seff (Scoped.with_scope computeScopeBoundValues n m)
    (λ y, ¬ CollectSpec.bound_in n (root y) ∧ L y) Q
    (CollectSpec.scope_bad n ∨ E).
Proof.
  intros Hn Hm s. unfold Scoped.with_scope, Scoped.scope_enter.
  unfold computeScopeBoundValues, mbind, res_bind.
  destruct (CollectSpec.run_spec n Hn) as [(o & _ & Hok & Hrun)|(ex & Hbad & Hrun)].
  2: { unfold collectBoundValuesInScope. rewrite Hrun. by left. }
  destruct (collectBoundValuesInScope n) as [b|e] eqn:Hb;
    [|unfold collectBoundValuesInScope in Hb; by rewrite Hrun in Hb].
  pose proof (CollectSpec.collectBoundValues_bound _ _ Hb) as Hbound.
  set (s1 := Scoped.State _ _ _). specialize (Hm s1).
  destruct (m s1) as [[u|e] s2].
  - destruct Hm as (HE & Hst & Hbv & Ho & Hsd & Hq & Hc).
    unfold Scoped.scope_exit. rewrite Hst. unfold bv, sf in *. cbn in *.
    split_ands; [tauto|done..| | |done|].
    + done.
    + intros y Hy. apply Hsd in Hy as [?|[Hy ?]]; [by left|right].
      rewrite <- Hbound. set_solver.
    + intros y ? [Hnb ?] ? ?. rewrite <- Hbound in Hnb. apply Hc; set_solver.
  - unfold Scoped.scope_exit.
    destruct (Scoped.stash s2); by right.
Qed.

(** A computation that visits the nodes [l] in the current scope. *)
Context (visit : node → M st unit).

Definition good (c : node) : Prop :=
  seff (visit c) (free c) (quiet c) (fails c).

Definition tours (m : M st unit) (l : list node) : Prop :=
  seff m (λ y, ∃ c, c ∈ l ∧ free c y) (λ x, ∀ c, c ∈ l → quiet c x)
    (∃ c, c ∈ l ∧ fails c).

Lemma tours_nil : tours (mret tt) [].
Proof.
  eapply seff_weaken; [| | |apply seff_ret]; try done; split; try done;
    by intros (? & ?%not_elem_of_nil & ?).
Qed.

Lemma tours_one c : good c → tours (visit c) [c].
Proof.
  apply seff_weaken; intros; try setoid_rewrite list_elem_of_singleton;
    set_solver.
Qed.

Lemma tours_seq m1 m2 l1 l2 :
  tours m1 l1 → tours m2 l2 → tours (m1 ;; m2) (l1 ++ l2).
Proof.
  intros H1 H2. eapply seff_weaken; [| | |apply seff_seq; eassumption];
    set_solver.
Qed.

Lemma tours_ext m l l' : tours m l → (∀ c, c ∈ l ↔ c ∈ l') → tours m l'.
Proof. intros Hm Hl. eapply seff_weaken; [| | |exact Hm]; set_solver. Qed.

Lemma tours_list l : (∀ c, c ∈ l → good c) → tours (forM_ visit l) l.
Proof.
  induction l as [|c l IH]; intros Hl; [apply tours_nil|].
  apply (tours_seq (visit c) (forM_ visit l) [c] l).
  - apply tours_one, Hl. left.
  - apply IH. intros. apply Hl. by right.
Qed.

Lemma tours_generic n :
  (∀ c, c ∈ children n → good c) → tours (generic_visit visit n) (children n).
Proof.
  intros Hc s. rewrite generic_visit_children. by apply tours_list.
Qed.

(** The nodes that are visited in the scope of [n] only. *)
Lemma tours_good n m l :
  tours m l → kids n = pair false <$> l → (∀ y, ¬ loc n y) →
  bad_args n = false → opens n = false →
  (∀ c x, c ∈ l → quiet n x → quiet c x) →
  seff m (free n) (quiet n) (fails n).
Proof.
  intros Hm Hk Hl Hb Ho Hq. eapply seff_weaken; [| | |exact Hm].
  - intros y. rewrite free_unfold, Hk. split.
    + intros (c & ? & ?). right. exists false, c. split_ands; [|done|done].
      by apply list_elem_of_fmap_2.
    + intros [?|(b & c & Hc & _ & ?)]; [by edestruct Hl|].
      apply list_elem_of_fmap in Hc as (? & [= -> ->] & ?). eauto.
  - intros x Hx c Hc. by apply Hq.
  - rewrite fails_unfold, Hk, Hb, Ho. split.
    + intros (c & ? & ?). right; right. exists false, c. split; [|done].
      by apply list_elem_of_fmap_2.
    + intros [?|[[? ?]|(b & c & Hc & ?)]]; [done|done|].
      apply list_elem_of_fmap in Hc as (? & [= -> ->] & ?). eauto.
Qed.

(** A node that opens a scope: [l0] is visited outside of it, [l1] inside. *)
Lemma tours_scope n m0 m1 l0 l1 :
  tours m0 l0 → tours m1 l1 →
  kids n = (pair false <$> l0) ++ (pair true <$> l1) → (∀ y, ¬ loc n y) →
  opens n = true → bad_args n = false →
  (∀ c x, c ∈ l0 ++ l1 → quiet n x → quiet c x) →
  seff (m0 ;; Scoped.with_scope computeScopeBoundValues
                (Scoped.set_args_pos n) m1)
    (free n) (quiet n) (fails n).
Proof.
  intros H0 H1 Hk Hl Ho Hb Hq.
  eapply seff_weaken; [| | |apply seff_seq; [exact H0|apply seff_scope; [|exact H1]]].
  - intros y. rewrite free_unfold, Hk. specialize (Hl y). split.
    + intros [(c & ? & ?)|[? (c & ? & ?)]]; right; [exists false, c|exists true, c];
        set_solver.
    + intros [?|(b & c & Hc & Hnb & ?)]; [done|].
      apply elem_of_app in Hc as [Hc|Hc];
        apply list_elem_of_fmap in Hc as (? & [= -> ->] & ?); [left|right]; eauto.
  - intros x Hx. split; intros c Hc; (apply Hq; [set_solver|done]).
  - rewrite fails_unfold, Hk, Hb, Ho. split.
    + intros [(c & ? & ?)|[?|(c & ? & ?)]]; right; [right|by left|right];
        [exists false, c|exists true, c]; set_solver.
    + intros [?|[[? ?]|(b & c & Hc & ?)]]; [done|by right; left|].
      apply elem_of_app in Hc as [Hc|Hc];
        apply list_elem_of_fmap in Hc as (? & [= -> ->] & ?);
        [left|right; right]; eauto.
  - rewrite set_args_pos_scope. by destruct n.
Qed.

Lemma tours_scope_only n m1 l1 :
  tours m1 l1 → kids n = pair true <$> l1 → (∀ y, ¬ loc n y) →
  opens n = true → bad_args n = false → l1 ⊆ children n →
  seff (Scoped.with_scope computeScopeBoundValues (Scoped.set_args_pos n) m1)
    (free n) (quiet n) (fails n).
Proof.
  intros H1 Hk Hl Ho Hb Hsub.
  refine (tours_scope n (mret tt) m1 [] l1 tours_nil H1 Hk Hl Ho Hb _).
  intros c x Hc. apply quiet_child. by apply Hsub.
Qed.

Lemma seff_bind_class name :
  seff (Scoped.modify_value
          (λ v, Values ({[ name ]} ∪ boundValues v) (boundInScopeSoFar v)))
    (λ _, False) (λ x, x ≠ name) False.
Proof. intros s. unfold bv, sf. cbn. split_ands; set_solver. Qed.

Lemma seff_store x :
  seff (BoundValues.store x) (λ _, False) (λ y, y ≠ x) False.
Proof. intros s. unfold bv, sf. cbn. split_ands; set_solver. Qed.

(** Recording [y0] unless its root is bound; [strict] says that names stored
    so far in the scope count as bound. *)
Lemma seff_found (test : value_t → bool) y0 :
  (∀ v, test v = false → root y0 ∉ boundValues v) →
  (∀ v, root y0 ∉ boundValues v → root y0 ∉ boundInScopeSoFar v → test v = false) →
  seff (s ← get; when (negb (test (Scoped.value s)))
                   (Scoped.modify_own (λ fs, {[ y0 ]} ∪ fs)))
    (λ y, y = y0) (λ _, True) False.
Proof.
  intros Ht Hf s. unfold mbind, M_bind. cbn [get]. specialize (Ht (Scoped.value s)).
  specialize (Hf (Scoped.value s)). unfold bv, sf.
  destruct (test (Scoped.value s)); cbn.
  - split_ands; try done; auto. intros ? _ -> ? ?. exfalso. by discriminate Hf.
  - specialize (Ht eq_refl). split_ands; try done; set_solver.
Qed.

(** The entries of a leaf. *)
Lemma seff_leaf n m (Q : string → Prop) :
  seff m (loc n) Q False → kids n = [] → bad_args n = false → opens n = false →
  (∀ x, quiet n x → Q x) → seff m (free n) (quiet n) (fails n).
Proof.
  intros Hm Hk Hb Ho HQ. eapply seff_weaken; [| | |exact Hm]; [|done|].
  - intros y. rewrite free_unfold, Hk. split; [by left|].
    intros [?|(? & ? & ?%not_elem_of_nil & ?)]; done.
  - rewrite fails_unfold, Hk, Hb, Ho. split; [done|].
    intros [?|[[? ?]|(? & ? & ?%not_elem_of_nil & ?)]]; done.
Qed.

(** *** The method table of GenericBoundValuesScopedVisitor *)
Section dispatch.
Context (self_generic_visit : node → M st unit)
  (self_visit_Name : PositionInFile → string → expr_context → M st unit)
  (self_visit_Attribute : node → node → PositionInFile → M st unit).
Context (n : node).
Context (Hloc : ∀ m y, loc m y →
  match m with Name _ _ _ | Attribute _ _ _ _ => True | _ => False end).
Context (IH : ∀ c, node_size c < node_size n → good c).
Context (Hgk : tours (self_generic_visit n) (gk n)).
Context (Hgk_sub : gk n ⊆ children n).
Context (Hname : ∀ p x ctx, n = Name p x ctx →
  seff (self_visit_Name p x ctx) (free n) (quiet n) (fails n)).
Context (Hattr : ∀ p v a ctx, n = Attribute p v a ctx →
  seff (self_visit_Attribute n v p) (free n) (quiet n) (fails n)).

Lemma good_child c : c ∈ children n → good c.
Proof. intros Hc. by apply IH, child_size. Qed.

Lemma good_default c : c ∈ arg_defaults n → good c.
Proof.
  intros (m & Hm & Hc)%defaults_child. apply IH.
  apply child_size in Hm, Hc. lia.
Qed.

Lemma quiet_default c x : c ∈ arg_defaults n → quiet n x → quiet c x.
Proof.
  intros (m & Hm & Hc)%defaults_child Hq.
  eapply quiet_child; [exact Hc|]. by eapply quiet_child.
Qed.

Lemma tours_defaults args :
  bad_args n = false → (∃ p x b d, n = FunctionDef p x args b d) ∨
                       (∃ p b, n = Lambda p args b) →
  tours (Scoped.visit_defaults visit args) (arg_defaults n).
Proof.
  intros Hb [(p & x & b & d & Hn)|(p & b & Hn)]; pose proof good_default as Hg;
    rewrite Hn in Hb, Hg |- *; destruct args; try done; by apply tours_list.
Qed.

Lemma fails_bad_args args m :
  bad_args n = true → (∃ p x b d, n = FunctionDef p x args b d) ∨
                       (∃ p b, n = Lambda p args b) →
  seff (Scoped.visit_defaults visit args ;; m) (free n) (quiet n) (fails n).
Proof.
  intros Hb Hn s. assert (Scoped.visit_defaults visit args = raise AttributeError) as ->.
  { destruct Hn as [(p & x & b & d & ->)|(p & b & ->)]; by destruct args. }
  by apply fails_args.
Qed.

Lemma no_loc y :
  match n with Name _ _ _ | Attribute _ _ _ _ => False | _ => True end →
  ¬ loc n y.
Proof. intros Hn Hy. apply Hloc in Hy. by destruct n. Qed.

Ltac solve_tours :=
  repeat first
    [ apply tours_one | apply tours_list | eapply tours_seq ];
  intros; apply good_child; set_solver.

Ltac solve_quiet :=
  intros; eapply quiet_child; [|eassumption]; set_solver.

(** A node that opens a scope after the visit of its parameters' defaults. *)
Lemma good_function args m1 l1 :
  (∃ p x b d, n = FunctionDef p x args b d) ∨ (∃ p b, n = Lambda p args b) →
  tours m1 l1 → l1 ⊆ children n →
  kids n = (pair false <$> arg_defaults n) ++ (pair true <$> l1) →
  seff (Scoped.visit_defaults visit args ;;
        Scoped.with_scope computeScopeBoundValues (Scoped.set_args_pos n) m1)
    (free n) (quiet n) (fails n).
Proof.
  intros Hn Hm Hsub Hk.
  destruct (bad_args n) eqn:Hb; [by apply fails_bad_args|].
  eapply tours_scope; [by apply tours_defaults|exact Hm|exact Hk| | |done|].
  - intros y. apply no_loc. destruct Hn as [(? & ? & ? & ? & ->)|(? & ? & ->)]; done.
  - destruct Hn as [(? & ? & ? & ? & ->)|(? & ? & ->)]; done.
  - intros c x [Hc|Hc]%elem_of_app; [by apply quiet_default|].
    apply quiet_child. by apply Hsub.
Qed.

Lemma good_dispatch :
  seff (Scoped.dispatch computeScopeBoundValues visit self_generic_visit
          (BoundValues.visit_ClassDef visit) self_visit_Name
          self_visit_Attribute n) (free n) (quiet n) (fails n).
Proof.
  pose proof no_loc as Hno. pose proof good_child as Hgc.
  pose proof good_function as Hfun.
  destruct n eqn:Hn; cbn [Scoped.dispatch];
    try (eapply tours_good; [exact Hgk|done|by intros; apply Hno|done|done|];
         intros c x Hc; apply quiet_child; by apply Hgk_sub);
    try (apply (tours_good _ _ (children n)); rewrite ?Hn;
      [ unfold Base.visit_Assign, Base.visit_AugAssign, Base.visit_Comp,
          Base.visit_DictComp, Base.generic_visit_list;
        eapply tours_ext; [repeat first
          [ apply tours_one | apply tours_list | eapply tours_seq ];
          intros; apply Hgc; cbn; set_solver|]; cbn; set_solver
      | done | by intros; apply Hno | done | done
      | intros c x Hc; apply quiet_child; exact Hc ]).
  - (* Module *)
    apply (tours_scope_only (Module body) _ body); [by apply tours_list|done| |done..].
    by intros; apply Hno.
  - (* FunctionDef *)
    apply (Hfun n0 _ (body ++ decorator_list)); [eauto 6| |set_solver|done].
    apply tours_seq; apply tours_list; intros; apply Hgc; cbn; set_solver.
  - (* ClassDef *)
    eapply seff_weaken; [| | |apply seff_seq;
      [apply (seff_bind_class name)
      |apply (tours_good (ClassDef p name bases body decorator_list) _
                (bases ++ body ++ decorator_list));
       [repeat apply tours_seq; apply tours_list; intros; apply Hgc; cbn; set_solver
       |done|by intros; apply Hno|done|done
       |intros c x Hc; apply quiet_child; exact Hc]]].
    + tauto.
    + intros x Hx. split; [|done]. intros ->. by apply (Hx _ (subnode_refl _)).
    + tauto.
  - (* Lambda *)
    match goal with |- context [Scoped.visit_Lambda _ _ _ ?a ?b] =>
      apply (Hfun a _ [b]) end; [eauto 6| |set_solver|done].
    apply tours_one, Hgc. set_solver.
  - (* GeneratorExp *)
    apply (tours_scope_only (GeneratorExp p n0 generators) _ (generators ++ [n0])); [|done| |done|done|].
    + apply tours_seq; [apply tours_list|apply tours_one];
        intros; apply Hgc; cbn; set_solver.
    + by intros; apply Hno.
    + cbn. set_solver.
  - (* Attribute *) by eapply Hattr.
  - (* Name *) by eapply Hname.
Qed.
End dispatch.
End scoped_spec.

(** ** Free variables *)

Module FreeVarsSpec.
Import BoundValues.

(** A load of [x] at [p]. *)
Definition loc (n : node) (y : VarWithPosition) : Prop :=
  match n with Name p x Load => y = (x, p) | _ => False end.

(** [free n (x, p)]: the name [x] is read at [p] in [n], and no function,
    lambda, generator or module between the two binds it. *)
Definition free : node → VarWithPosition → Prop :=
  FreeVariableSpec.free fst loc children children.
Definition fails : node → Prop := FreeVariableSpec.fails children children.

Lemma fv_visit_eq n : FreeVars.visit n =
  Scoped.dispatch computeScopeBoundValues FreeVars.visit
    (generic_visit FreeVars.visit) (visit_ClassDef FreeVars.visit)
    (visit_Name FreeVars.found) (λ n _ _, generic_visit FreeVars.visit n) n.
Proof. by destruct n. Qed.

Lemma fv_good_visit n : good fst loc children children FreeVars.visit n.
Proof.
  remember (node_size n) as k eqn:Hk. revert n Hk.
  induction (lt_wf k) as [k _ IH]; intros n ->.
  assert (IH' : ∀ c, node_size c < node_size n →
    good fst loc children children FreeVars.visit c).
  { intros c Hc. by eapply IH. }
  assert (Hgen : tours fst loc children children (generic_visit FreeVars.visit n)
                   (children n)).
  { apply tours_generic. intros c Hc. by apply IH', child_size. }
  unfold good. rewrite fv_visit_eq.
  apply good_dispatch; [|exact IH'|exact Hgen|done| |].
  - intros m y. by destruct m.
  - intros p x ctx ->. destruct ctx; cbn [visit_Name];
      try (eapply seff_leaf with (Q := λ _, True); [exact (seff_get fst)|done..]).
    + eapply seff_leaf with (Q := λ _, True); [|done..].
      apply (seff_found fst (λ v, isBoundSoFar v x) (x, p)); unfold isBoundSoFar; cbn.
      * intros v [?%bool_decide_eq_false ?]%orb_false_iff. done.
      * intros v ? ?. by rewrite !bool_decide_eq_false_2.
    + eapply seff_leaf;
        [exact (seff_store fst x)|done..|]. intros y Hy ->.
      by apply (Hy _ (subnode_refl _)).
  - intros p v a ctx ->. eapply tours_good; [exact Hgen|done|by intros ? []|done|done|].
    intros c x. apply quiet_child.
Qed.

(** The run of the visitor from a root. *)
Lemma fv_visit_root r :
  match FreeVars.visit r (BoundValues.init ∅) with
  | (Raise _, _) => fails r
  | (Ret _, s) =>
      ¬ fails r ∧ (∀ y, y ∈ Scoped.own s → free r y) ∧
      (∀ y, quiet r y.1 → free r y → y ∈ Scoped.own s)
  end.
Proof.
  pose proof (fv_good_visit r (BoundValues.init ∅)) as H. revert H.
  destruct (FreeVars.visit r _) as [[u|e] s]; [|done]. unfold bv, sf. cbn.
  intros (? & _ & _ & _ & Hs & _ & Hc). split_ands; [done| |].
  - intros y [?%not_elem_of_empty|[_ ?]]%Hs; done.
  - intros y Hq Hy. apply Hc; [done..| |]; set_solver.
Qed.
End FreeVarsSpec.

(** ** Free variable member access chains *)

Module ChainsSpec.
Import BoundValues.

Section spec.
Context (ex : option (node → bool)).

Definition root (y : ChainWithPosition) : string := default "" (head y.1).

(** A name that is read, or an attribute expression that is a chain. *)
Definition loc (n : node) (y : ChainWithPosition) : Prop :=
  match n with
  | Name p x Load => y = ([x], p)
  | Attribute p _ _ _ => ∃ c, memberAccessChainOrNone n = Some c ∧ y = (c, p)
  | _ => False
  end.

Definition gk (n : node) : list node :=
  match ex with
  | Some f => if f n then [] else children n
  | None => children n
  end.

Definition ak (n : node) : list node :=
  match n with
  | Attribute _ v _ _ =>
      match memberAccessChainOrNone n with Some _ => [] | None => gk v end
  | _ => []
  end.

Definition free : node → ChainWithPosition → Prop :=
  FreeVariableSpec.free root loc gk ak.
Definition fails : node → Prop := FreeVariableSpec.fails gk ak.

Abbreviation visit := (Chains.visit ex).

Lemma visit_eq n : visit n =
  Scoped.dispatch computeScopeBoundValues visit (Chains.generic ex visit)
    (visit_ClassDef visit) (visit_Name (λ id, Chains.found [id]))
    (Chains.visit_Attribute ex visit) n.
Proof. by destruct n. Qed.

Lemma gk_sub n : gk n ⊆ children n.
Proof. unfold gk. destruct ex as [f|]; [destruct (f n)|]; set_solver. Qed.

Lemma tours_gk n :
  (∀ c, c ∈ children n → good root loc gk ak visit c) →
  tours root loc gk ak (Chains.generic ex visit n) (gk n).
Proof.
  intros Hc. pose proof (tours_generic _ _ _ _ _ _ Hc) as Hg.
  unfold Chains.generic. change (gk n) with
    (match ex with
     | Some f => if f n then [] else children n
     | None => children n
     end).
  destruct ex as [f|]; [destruct (f n); [apply tours_nil|]|]; exact Hg.
Qed.

Lemma good_visit n : good root loc gk ak visit n.
Proof.
  remember (node_size n) as k eqn:Hk. revert n Hk.
  induction (lt_wf k) as [k _ IH]; intros n ->.
  assert (IH' : ∀ c, node_size c < node_size n → good root loc gk ak visit c).
  { intros c Hc. by eapply IH. }
  unfold good. rewrite visit_eq.
  apply good_dispatch; [|exact IH'| |apply gk_sub| |].
  - intros m y. by destruct m.
  - apply tours_gk. intros c Hc. by apply IH', child_size.
  - intros p x ctx ->. destruct ctx; cbn [visit_Name];
      try (eapply seff_leaf with (Q := λ _, True); [exact (seff_get root)|done..]).
    + eapply seff_leaf with (Q := λ _, True); [|done..].
      apply (seff_found root (λ v, isBoundSoFar v x) ([x], p)); unfold isBoundSoFar; cbn.
      * intros v [?%bool_decide_eq_false ?]%orb_false_iff. done.
      * intros v ? ?. by rewrite !bool_decide_eq_false_2.
    + eapply seff_leaf;
        [exact (seff_store root x)|done..|]. intros y Hy ->.
      by apply (Hy _ (subnode_refl _)).
  - intros p v a ctx ->. unfold Chains.visit_Attribute.
    destruct (memberAccessChainOrNone (Attribute p v a ctx)) as [c|] eqn:Hc.
    + assert (Hl : ∀ y, y = (c, p) ↔ loc (Attribute p v a ctx) y).
      { intros y. cbn [loc]. rewrite Hc. naive_solver. }
      eapply seff_leaf with (Q := λ _, True); [|cbn [kids ak]; by rewrite Hc|done..].
      eapply seff_weaken with (Q := λ _, True) (E := False); [exact Hl|done|done|].
      set (test := λ v, bool_decide (default "" (head c) ∈ boundValues v)).
      apply (seff_found root test (c, p)); unfold test.
      * intros w. by intros ?%bool_decide_eq_false.
      * intros w ? _. by apply bool_decide_eq_false.
    + assert (Hv : v ∈ children (Attribute p v a ctx)) by (cbn; left).
      eapply tours_good; [apply (tours_gk v)| | |done|done|].
      * intros d Hd. apply IH'. apply child_size in Hv, Hd. lia.
      * cbn [kids ak]. by rewrite Hc.
      * intros y. cbn [loc]. rewrite Hc. naive_solver.
      * intros d x Hd Hq. eapply quiet_child; [by apply gk_sub|].
        by eapply quiet_child.
Qed.

Lemma visit_root r :
  match visit r (BoundValues.init ∅) with
  | (Raise _, _) => fails r
  | (Ret _, s) =>
      ¬ fails r ∧ (∀ y, y ∈ Scoped.own s → free r y) ∧
      (∀ y, quiet r (root y) → free r y → y ∈ Scoped.own s)
  end.
Proof.
  pose proof (good_visit r (BoundValues.init ∅)) as H. revert H.
  destruct (visit r _) as [[u|e] s]; [|done]. unfold bv, sf. cbn.
  intros (? & _ & _ & _ & Hs & _ & Hc). split_ands; [done| |].
  - intros y [?%not_elem_of_empty|[_ ?]]%Hs; done.
  - intros y Hq Hy. apply Hc; [done..| |]; set_solver.
Qed.
End spec.
End ChainsSpec.

(** ** The analyses, exactly *)

(** [collectBoundValuesInScope] of a scope node raises exactly when the
    scope holds a [global] statement, a nested module or starred parameters
    without position, and otherwise returns exactly the names, with positions,
    that Python's binding constructs introduce in that scope: assignment, loop,
    [with], [except] and comprehension targets, parameters, function and class
    names; never those of a nested scope nor the attributes assigned to. *)
Theorem collectBoundValues_exact root :
  isScopeNode root = true →
  match collectBoundValuesInScopeWithPositions root with
  | Ret s => ¬ CollectSpec.scope_bad root ∧
      ∀ x p, (x, p) ∈ s ↔ ∃ b, CollectSpec.scope_binds root (b, x, p)
  | Raise _ => CollectSpec.scope_bad root
  end.
Proof.
  intros Hroot. unfold collectBoundValuesInScopeWithPositions.
  destruct (CollectSpec.run_spec root Hroot) as [(o & HIn & Hok & ->)|(e & Hbad & ->)];
    [|done].
  split; [done|]. intros x p. setoid_rewrite <- HIn. cbn. rewrite elem_of_union.
  split; [intros [?|?]; [by exists false|by exists true]|intros [[] ?]; tauto].
Qed.

(** C8. [getFreeVariables] raises exactly when some scope it enters cannot be
    analysed. Otherwise every variable it returns is read at the returned
    position with no enclosing scope binding it, and every such read of a name
    that the code neither stores nor defines as a class is returned. *)
Theorem getFreeVariables_exact n isClassContext r :
  getRootInContext n isClassContext = Ret r →
  match getFreeVariablesWithPositions n isClassContext with
  | Ret fs => ¬ FreeVarsSpec.fails r ∧
      (∀ x p, (x, p) ∈ fs → FreeVarsSpec.free r (x, p)) ∧
      (∀ x p, quiet r x → FreeVarsSpec.free r (x, p) → (x, p) ∈ fs)
  | Raise _ => FreeVarsSpec.fails r
  end.
Proof.
  intros Hr. unfold getFreeVariablesWithPositions. rewrite Hr. cbn.
  pose proof (FreeVarsSpec.fv_visit_root r) as H. revert H.
  destruct (FreeVars.visit r _) as [[u|e] s]; [|done].
  intros (? & Hs & Hc). split_ands; [done|by auto|].
  intros x p Hq Hf. by apply Hc.
Qed.

(** C7. The free variable member access chains: an error exactly when some
    scope cannot be analysed; every chain returned is an attribute chain or a
    name that occurs in the part of the tree the analysis visits, under no scope
    that binds its root; and every such chain is returned when its root is a
    name that the code neither stores nor defines as a class. *)
Theorem getFreeVariableMemberAccessChains_exact n isClassContext exclude r :
  getRootInContext n isClassContext = Ret r →
  match getFreeVariableMemberAccessChainsWithPositions n isClassContext exclude with
  | Ret cs => ¬ ChainsSpec.fails exclude r ∧
      (∀ c p, (c, p) ∈ cs → ChainsSpec.free exclude r (c, p)) ∧
      (∀ c p, quiet r (ChainsSpec.root (c, p)) → ChainsSpec.free exclude r (c, p) →
              (c, p) ∈ cs)
  | Raise _ => ChainsSpec.fails exclude r
  end.
Proof.
  intros Hr. unfold getFreeVariableMemberAccessChainsWithPositions. rewrite Hr. cbn.
  pose proof (ChainsSpec.visit_root exclude r) as H. revert H.
  destruct (Chains.visit exclude r _) as [[u|e] s]; [|done].
  intros (? & Hs & Hc). split_ands; [done|by auto|].
  intros c p Hq Hf. by apply Hc.
Qed.

(** ** On concrete code *)

Module Samples.
Definition at_ (l c : Z) := Pos l c.
Definition load (l c : Z) (x : string) := Name (Pos l c) x Load.

(** [def f(a):] / [  b = a.size] / [  return lambda c: b + c + g.h.k] *)
Definition f : node :=
  FunctionDef (Pos 1 0) "f"
    (arguments None [Name (Pos 1 6) "a" Param] None None [])
    [Assign (Pos 2 2) [Name (Pos 2 2) "b" Store]
       (Attribute (Pos 2 6) (load 2 6 "a") "size" Load);
     Return (Pos 3 2) (Some (Lambda (Pos 3 9)
       (arguments None [Name (Pos 3 16) "c" Param] None None [])
       (BinOp (Pos 3 19)
          (BinOp (Pos 3 19) (load 3 19 "b") "Add" (load 3 23 "c")) "Add"
          (Attribute (Pos 3 27) (Attribute (Pos 3 27) (load 3 27 "g") "h" Load)
             "k" Load))))]
    [].

Example f_bound :
  collectBoundValuesInScope f = Ret {["a"; "b"]} := eq_refl.

Example f_free : getFreeVariables f (Some false) = Ret {["g"]} := eq_refl.

Example f_chains :
  getFreeVariableMemberAccessChains f (Some false) None =
    Ret {[ ["g"; "h"; "k"] ]} := eq_refl.

(** [(e for e in xs).next]: its free variables are those of the generator,
    but the chains also report the generator's own variable. *)
Definition gen_next : node :=
  Module [Expr (Pos 1 0) (Attribute (Pos 1 0)
    (GeneratorExp (Pos 1 1) (load 1 1 "e")
       [comprehension (Name (Pos 1 7) "e" Store) (load 1 12 "xs") []])
    "next" Load)].

Lemma chains_report_generator_variable :
  getFreeVariables gen_next None = Ret {["xs"]} ∧
  getFreeVariableMemberAccessChains gen_next None None =
    Ret {[ ["e"]; ["xs"] ]}.
Proof. split; vm_compute; reflexivity. Qed.

(** [class C:] / [  x = y] / [  z = x.foo]: the name [x] is not free, but the
    chain [x.foo] is reported. *)
Definition class_body : node :=
  ClassDef (Pos 1 0) "C" []
    [Assign (Pos 2 2) [Name (Pos 2 2) "x" Store] (load 2 6 "y");
     Assign (Pos 3 2) [Name (Pos 3 2) "z" Store]
       (Attribute (Pos 3 6) (load 3 6 "x") "foo" Load)] [].

Lemma chains_report_bound_class_variable :
  getFreeVariables class_body None = Ret {["y"]} ∧
  getFreeVariableMemberAccessChains class_body None None =
    Ret {[ ["y"]; ["x"; "foo"] ]}.
Proof. split; vm_compute; reflexivity. Qed.

(** [def f( *args)] given to [collectBoundValuesInScope] directly. *)
Definition starred : node :=
  FunctionDef (Pos 1 0) "f" (arguments None [] (Some "args") None []) [] [].

Lemma starred_root_raises :
  collectBoundValuesInScope starred = Raise AttributeError ∧
  getFreeVariables starred (Some false) = Ret ∅.
Proof. split; vm_compute; reflexivity. Qed.
End Samples.

Lemma collectBoundValues_exact_witness :
  isScopeNode Samples.f = true ∧
  ∀ x p, (x, p) ∈ ({[ ("a", Pos 1 6); ("b", Pos 2 2) ]} : gset VarWithPosition) ↔
    ∃ b, CollectSpec.scope_binds Samples.f (b, x, p).
Proof.
  split; [reflexivity|].
  exact (proj2 (collectBoundValues_exact Samples.f eq_refl)).
Defined.

Lemma getFreeVariables_exact_witness :
  getRootInContext Samples.f (Some false) = Ret (Module [Samples.f]) ∧
  ¬ FreeVarsSpec.fails (Module [Samples.f]) ∧
  FreeVarsSpec.free (Module [Samples.f]) ("g", Pos 3 27).
Proof.
  split; [reflexivity|].
  pose proof (getFreeVariables_exact Samples.f (Some false) _ eq_refl) as H.
  split; [exact (proj1 H)|].
  apply (proj1 (proj2 H)). vm_compute. reflexivity.
Defined.

Lemma getFreeVariableMemberAccessChains_exact_witness :
  getRootInContext Samples.f (Some false) = Ret (Module [Samples.f]) ∧
  ChainsSpec.free None (Module [Samples.f]) (["g"; "h"; "k"], Pos 3 27).
Proof.
  split; [reflexivity|].
  pose proof (getFreeVariableMemberAccessChains_exact Samples.f (Some false) None _
    eq_refl) as H.
  apply (proj1 (proj2 H)). vm_compute. reflexivity.
Defined.
