(* ===== verification/AstUtil.v ===== *)
(** * Queries on syntax trees ([pyAst/PyAstUtil.py])

    Memoisation of the analyses, the lookup of definitions by line number, the
    enclosing function of a line, the data members that [__init__] sets, and the
    return and yield statements of a scope. *)
From stdpp Require Import base gmap sets list strings fin_maps.
From S2P Require Import Prelude PyAst NodeVisitorBases.

(** ** CachedByArgs *)

Section CachedByArgs.
Context {A V S : Type} `{Countable A}.

(** [inner] of the decorator: the cache is the closure's dict, [f] the
    decorated function; an exception of [f] leaves no entry. *)
Definition CachedByArgs (f : A → res V) (all_args : A) : M (gmap A V) V := λ cache,
  match cache !! all_args with
  | Some v => (Ret v, cache)
  | None =>
      match f all_args with
      | Ret v => (Ret v, <[all_args := v]> cache)
      | Raise e => (Raise e, cache)
      end
  end.

(** Every entry is what [f] returns. *)
Definition cache_ok (f : A → res V) (cache : gmap A V) : Prop :=
  ∀ a v, cache !! a = Some v → f a = Ret v.

Lemma CachedByArgs_ok f a cache :
  cache_ok f cache →
  (CachedByArgs f a cache).1 = f a ∧ cache_ok f (CachedByArgs f a cache).2.
Proof.
  intros Hok. unfold CachedByArgs. destruct (cache !! a) as [v|] eqn:Ha.
  - split; [symmetry; by apply Hok|done].
  - destruct (f a) as [v|e] eqn:Hf; cbn; [|by split].
    split; [done|]. intros b w.
    destruct (decide (a = b)) as [->|Hne].
    + rewrite lookup_insert_eq. by intros [= <-].
    + rewrite lookup_insert_ne by done. apply Hok.
Qed.

End CachedByArgs.

(** ** Preorder *)

(** What [ast.walk] in depth-first order would list; written through the
    traversal, like the visitors. *)
Fixpoint collect (n : node) : M (list node) unit :=
  modify (λ l, l ++ [n]) ;; generic_visit collect n.

Definition preorder (n : node) : list node := snd (collect n []).

Lemma collect_app n : ∀ l, collect n l = (Ret tt, l ++ preorder n).
Proof.
  induction n as [n IH] using node_rec_ind.
  assert (Heq : ∀ l, collect n l = forM_ collect (children n) (l ++ [n])).
  { intros l. rewrite <- generic_visit_children. by destruct n. }
  assert (Hgen : ∀ cs, (∀ c, c ∈ cs → ∀ l, collect c l = (Ret tt, l ++ preorder c)) →
    ∀ l, forM_ collect cs l = (Ret tt, l ++ (cs ≫= preorder))).
  { clear. induction cs as [|c cs IHcs]; intros Hcs l.
    - by rewrite app_nil_r.
    - rewrite forM__cons. unfold mbind, M_bind. rewrite Hcs by left.
      rewrite IHcs by (intros; apply Hcs; by right).
      cbn. by rewrite (assoc (++)). }
  intros l. unfold preorder. rewrite !Heq, !Hgen by done. cbn.
  by rewrite <- (assoc (++)).
Qed.

Lemma preorder_unfold n : preorder n = n :: (children n ≫= preorder).
Proof.
  unfold preorder at 1.
  assert (Heq : collect n [] = forM_ collect (children n) [n]).
  { rewrite <- generic_visit_children. by destruct n. }
  rewrite Heq. generalize (children n). intros cs.
  change (n :: (cs ≫= preorder)) with ([n] ++ (cs ≫= preorder)).
  generalize [n]. induction cs as [|c cs IH]; intros l; cbn.
  - by rewrite app_nil_r.
  - unfold mbind, M_bind. rewrite collect_app. rewrite IH. by rewrite (assoc (++)).
Qed.

Lemma elem_of_preorder n m : m ∈ preorder n ↔ subnode m n.
Proof.
  revert m. induction n as [n IH] using node_rec_ind; intros m.
  rewrite preorder_unfold, elem_of_cons, list_elem_of_bind. split.
  - intros [->|(c & Hm & Hc)]; [constructor|].
    econstructor; [exact Hc|]. by apply IH.
  - inversion 1 as [|? c ? Hc Hm]; subst; [by left|right].
    exists c. split; [by apply IH|done].
Qed.

(** ** _AtLineNumberVisitor *)

Module AtLineNumber.
Record state := State {
  classDefSubnodesAtLineNumber : list node;
  withBlockSubnodesAtLineNumber : list node;
  funcDefSubnodesAtLineNumber : list node;
  lambdaSubnodesAtLineNumber : list node }.

Definition init : state := State [] [] [] [].

Section visitor.
Context (lineNumber : Z).

Definition at_line (p : PositionInFile) : bool :=
  bool_decide (lineno p = lineNumber).

Definition add_class (n : node) (s : state) : state :=
  State (classDefSubnodesAtLineNumber s ++ [n]) (withBlockSubnodesAtLineNumber s)
    (funcDefSubnodesAtLineNumber s) (lambdaSubnodesAtLineNumber s).
Definition add_with (n : node) (s : state) : state :=
  State (classDefSubnodesAtLineNumber s) (withBlockSubnodesAtLineNumber s ++ [n])
    (funcDefSubnodesAtLineNumber s) (lambdaSubnodesAtLineNumber s).
Definition add_func (n : node) (s : state) : state :=
  State (classDefSubnodesAtLineNumber s) (withBlockSubnodesAtLineNumber s)
    (funcDefSubnodesAtLineNumber s ++ [n]) (lambdaSubnodesAtLineNumber s).
Definition add_lambda (n : node) (s : state) : state :=
  State (classDefSubnodesAtLineNumber s) (withBlockSubnodesAtLineNumber s)
    (funcDefSubnodesAtLineNumber s) (lambdaSubnodesAtLineNumber s ++ [n]).

Fixpoint visit (n : node) : M state unit :=
  match n with
  | ClassDef p _ _ _ _ =>
      when (at_line p) (modify (add_class n)) ;; generic_visit visit n
  | With p _ _ _ =>
      when (at_line p) (modify (add_with n)) ;; generic_visit visit n
  | FunctionDef p _ _ _ _ =>
      when (at_line p) (modify (add_func n)) ;; generic_visit visit n
  | Lambda p _ _ =>
      when (at_line p) (modify (add_lambda n)) ;; generic_visit visit n
  | _ => generic_visit visit n
  end.

Definition run (sourceAst : node) : state := snd (visit sourceAst init).
End visitor.

(** The end of the three lookups. *)
Definition unique (subnodesAtLineNumber : list node) : res node :=
  match subnodesAtLineNumber with
  | [] => Raise CantGetSourceTextError
  | [n] => Ret n
  | _ => Raise CantGetSourceTextError
  end.

(** What each list is meant to hold. *)
Inductive category := Classes | Withs | Functions | Lambdas.

Definition is_at (k : category) (line : Z) (n : node) : bool :=
  match k, n with
  | Classes, ClassDef p _ _ _ _ | Withs, With p _ _ _
  | Functions, FunctionDef p _ _ _ _ | Lambdas, Lambda p _ _ => at_line line p
  | _, _ => false
  end.

Definition list_of (k : category) (s : state) : list node :=
  match k with
  | Classes => classDefSubnodesAtLineNumber s
  | Withs => withBlockSubnodesAtLineNumber s
  | Functions => funcDefSubnodesAtLineNumber s
  | Lambdas => lambdaSubnodesAtLineNumber s
  end.

(** [m] appends to each list the nodes of [l] that belong to it. *)
Definition appends (line : Z) (m : M state unit) (l : list node) : Prop :=
  ∀ s, (m s).1 = Ret tt ∧
    ∀ k, list_of k (m s).2 = list_of k s ++ List.filter (is_at k line) l.

Lemma appends_seq line m1 m2 l1 l2 :
  appends line m1 l1 → appends line m2 l2 → appends line (m1 ;; m2) (l1 ++ l2).
Proof.
  intros H1 H2 s. destruct (H1 s) as [Hr1 Hk1]. unfold mbind, M_bind.
  destruct (m1 s) as [r s1]; cbn in *; subst. destruct (H2 s1) as [Hr2 Hk2].
  split; [done|]. intros k.
  by rewrite Hk2, Hk1, List.filter_app, (assoc (++)).
Qed.

Lemma appends_forM line cs :
  (∀ c, c ∈ cs → appends line (visit line c) (preorder c)) →
  appends line (forM_ (visit line) cs) (cs ≫= preorder).
Proof.
  induction cs as [|c cs IH]; intros Hc.
  - intros s. split; [done|]. intros k. by rewrite app_nil_r.
  - apply (appends_seq line (visit line c) (forM_ (visit line) cs)).
    + apply Hc. left.
    + apply IH. intros. apply Hc. by right.
Qed.

Lemma visit_appends line n : appends line (visit line n) (preorder n).
Proof.
  induction n as [n IH] using node_rec_ind.
  assert (Hgen : appends line (generic_visit (visit line) n) (children n ≫= preorder)).
  { intros s. rewrite generic_visit_children. by apply appends_forM. }
  rewrite preorder_unfold.
  assert (Hskip : (∀ k, is_at k line n = false) →
    appends line (generic_visit (visit line) n) (n :: (children n ≫= preorder))).
  { intros Hk s. destruct (Hgen s) as [Hr Hl]. split; [done|]. intros k.
    cbn [List.filter]. rewrite Hk. apply Hl. }
  assert (Hadd : ∀ k0 p add,
    (∀ k, is_at k line n = true ↔ k = k0 ∧ at_line line p = true) →
    (∀ s, list_of k0 (add s) = list_of k0 s ++ [n]) →
    (∀ k s, k ≠ k0 → list_of k (add s) = list_of k s) →
    appends line (when (at_line line p) (modify add) ;; generic_visit (visit line) n)
      (n :: (children n ≫= preorder))).
  { intros k0 p add Hk Hadd0 Hadd.
    apply (appends_seq line _ _ [n]); [|exact Hgen].
    intros s. split; [by destruct (at_line line p)|]. intros k. specialize (Hk k).
    cbn [List.filter]. destruct (is_at k line n) eqn:Hi.
    - destruct Hk as [Hk _]. destruct (Hk eq_refl) as [-> ->]. apply Hadd0.
    - destruct (at_line line p) eqn:Hl; cbn; rewrite app_nil_r; [|done].
      apply Hadd. intros ->. by destruct Hk as [_ Hk%(λ H, H (conj eq_refl eq_refl))]. }
  destruct n; try (apply Hskip; by intros []); cbn [visit].
  - apply (Hadd Functions p); [intros []; cbn; naive_solver|done|by intros []].
  - apply (Hadd Classes p); [intros []; cbn; naive_solver|done|by intros []].
  - apply (Hadd Withs p); [intros []; cbn; naive_solver|done|by intros []].
  - apply (Hadd Lambdas p); [intros []; cbn; naive_solver|done|by intros []].
Qed.

(** The lists after a run. *)
Lemma run_lists line sourceAst k :
  list_of k (run line sourceAst) = List.filter (is_at k line) (preorder sourceAst).
Proof.
  unfold run. destruct (visit_appends line sourceAst init) as [_ ->].
  by destruct k.
Qed.
End AtLineNumber.

(** [classDefAtLineNumber], [withBlockAtLineNumber] and
    [functionDefOrLambdaAtLineNumber], before memoisation. *)
Definition classDefAtLineNumber (sourceAst : node) (lineNumber : Z) : res node :=
  AtLineNumber.unique
    (AtLineNumber.classDefSubnodesAtLineNumber (AtLineNumber.run lineNumber sourceAst)).

Definition withBlockAtLineNumber (sourceAst : node) (lineNumber : Z) : res node :=
  AtLineNumber.unique
    (AtLineNumber.withBlockSubnodesAtLineNumber (AtLineNumber.run lineNumber sourceAst)).

Definition functionDefOrLambdaAtLineNumber (sourceAst : node) (lineNumber : Z) :
    res node :=
  let visitor := AtLineNumber.run lineNumber sourceAst in
  AtLineNumber.unique (AtLineNumber.funcDefSubnodesAtLineNumber visitor ++
                       AtLineNumber.lambdaSubnodesAtLineNumber visitor).

(** ** FindEnclosingFunctionVisitor *)

Definition VisitDone : exn := OtherException "VisitDone".

Module FindEnclosingFunction.
Record state := State {
  enclosingFunction : option string;
  currentFunction : option string;
  stash : list (option string) }.

Section visitor.
Context (targetLine : Z).

Definition set_enclosing (s : state) : state :=
  State (currentFunction s) (currentFunction s) (stash s).
Definition push_function (name : string) (s : state) : state :=
  State (enclosingFunction s) (Some name) (currentFunction s :: stash s).
(** [self._currentFunction = self._stash.pop()]. *)
Definition pop_function : M state unit := λ s,
  match stash s with
  | [] => (Raise IndexError, s)
  | f :: st => (Ret tt, State (enclosingFunction s) f st)
  end.

(** The overriding [generic_visit], [super_visit] being the inherited one
    on the node. *)
Definition generic (n : node) (super_visit : M state unit) : M state unit :=
  match node_pos n with
  | Some p =>
      if bool_decide (targetLine ≤ lineno p)%Z
      then modify set_enclosing ;; raise VisitDone
      else super_visit
  | None => super_visit
  end.

Fixpoint visit (n : node) : M state unit :=
  match n with
  | FunctionDef p name _ _ _ =>
      if bool_decide (targetLine < lineno p)%Z then raise VisitDone
      else
        modify (push_function name) ;;
        generic n (generic_visit visit n) ;;
        pop_function
  | _ => generic n (generic_visit visit n)
  end.
End visitor.

Definition init : state := State None None [].

Definition find (targetLine : Z) (n : node) : res (option string) :=
  if match node_pos n with
     | Some p => bool_decide (targetLine < lineno p)%Z
     | None => false
     end
  then Ret None
  else
    match visit targetLine n init with
    | (Ret _, _) => Ret None
    | (Raise e, s) =>
        if bool_decide (e = VisitDone) then Ret (enclosingFunction s) else Raise e
    end.
End FindEnclosingFunction.

Definition findEnclosingFunctionName (astNode : node) (lineno : Z) :
    res (option string) :=
  FindEnclosingFunction.find lineno astNode.

(** *** The reference: the nodes in preorder with their enclosing function *)

Module EnclosingSpec.
Import FindEnclosingFunction.

(** A function definition counts as enclosed by itself. *)
Definition inner (cur : option string) (n : node) : option string :=
  match n with FunctionDef _ name _ _ _ => Some name | _ => cur end.

Fixpoint walk (cur : option string) (n : node) : M (list (option string * node)) unit :=
  modify (λ l, l ++ [(inner cur n, n)]) ;; generic_visit (walk (inner cur n)) n.

Definition scoped_preorder (cur : option string) (n : node) :
    list (option string * node) := snd (walk cur n []).

(** The first node at or after the line. *)
Definition at_or_after (line : Z) (x : option string * node) : bool :=
  match node_pos (snd x) with
  | Some p => bool_decide (line ≤ lineno p)%Z
  | None => false
  end.

(** A function definition that starts after the line encloses nothing. *)
Definition answer (line : Z) (x : option string * node) : option string :=
  match snd x with
  | FunctionDef p _ _ _ _ => if bool_decide (line < lineno p)%Z then None else fst x
  | _ => fst x
  end.

Lemma walk_app n : ∀ cur l, walk cur n l = (Ret tt, l ++ scoped_preorder cur n).
Proof.
  induction n as [n IH] using node_rec_ind.
  assert (Heq : ∀ cur l, walk cur n l =
    forM_ (walk (inner cur n)) (children n) (l ++ [(inner cur n, n)])).
  { intros cur l. rewrite <- generic_visit_children. by destruct n. }
  assert (Hgen : ∀ cs cur, (∀ c, c ∈ cs → ∀ l, walk cur c l =
      (Ret tt, l ++ scoped_preorder cur c)) →
    ∀ l, forM_ (walk cur) cs l = (Ret tt, l ++ (cs ≫= scoped_preorder cur))).
  { clear. induction cs as [|c cs IHcs]; intros cur Hcs l.
    - by rewrite app_nil_r.
    - rewrite forM__cons. unfold mbind, M_bind. rewrite Hcs by left.
      rewrite IHcs by (intros; apply Hcs; by right).
      cbn. by rewrite (assoc (++)). }
  intros cur l. unfold scoped_preorder. rewrite !Heq, !Hgen by (intros; by apply IH).
  cbn. by rewrite <- (assoc (++)).
Qed.

Lemma scoped_preorder_unfold cur n :
  scoped_preorder cur n =
  (inner cur n, n) :: (children n ≫= scoped_preorder (inner cur n)).
Proof.
  unfold scoped_preorder at 1.
  assert (Heq : walk cur n [] = forM_ (walk (inner cur n)) (children n) [(inner cur n, n)]).
  { rewrite <- generic_visit_children. by destruct n. }
  rewrite Heq. generalize (inner cur n) as f. intros f. generalize (children n). intros cs.
  change ((f, n) :: (cs ≫= scoped_preorder f))
    with ([(f, n)] ++ (cs ≫= scoped_preorder f)).
  generalize [(f, n)]. induction cs as [|c cs IH]; intros l; cbn.
  - by rewrite app_nil_r.
  - unfold mbind, M_bind. rewrite walk_app. rewrite IH. by rewrite (assoc (++)).
Qed.

(** The outcome of a visit, given the first hit of the list it walks. *)
Definition outcome (line : Z) (m : M state unit) (L : list (option string * node))
    (s : state) : Prop :=
  match List.find (at_or_after line) L with
  | None => m s = (Ret tt, s)
  | Some x => ∃ s', m s = (Raise VisitDone, s') ∧
      (enclosingFunction s = None → enclosingFunction s' = answer line x)
  end.

Lemma find_app {A} (f : A → bool) l1 l2 :
  List.find f (l1 ++ l2) =
  match List.find f l1 with Some x => Some x | None => List.find f l2 end.
Proof. induction l1 as [|x l1 IH]; cbn; [done|]. by destruct (f x). Qed.

Lemma outcome_forM line cs cur s :
  currentFunction s = cur →
  (∀ c s, c ∈ cs → currentFunction s = cur →
     outcome line (visit line c) (scoped_preorder cur c) s) →
  outcome line (forM_ (visit line) cs) (cs ≫= scoped_preorder cur) s.
Proof.
  intros Hcur Hc. induction cs as [|c cs IH]; [done|].
  assert (H1 : outcome line (visit line c) (scoped_preorder cur c) s)
    by (apply Hc; [left|done]).
  unfold outcome in *. change ((c :: cs) ≫= scoped_preorder cur)
    with (scoped_preorder cur c ++ (cs ≫= scoped_preorder cur)).
  rewrite find_app, forM__cons.
  destruct (List.find _ (scoped_preorder cur c)) as [x|].
  - destruct H1 as (s' & Heq & ?). exists s'. split; [|done].
    unfold mbind, M_bind. by rewrite Heq.
  - rewrite (bind_step _ _ _ _ _ H1). apply IH. intros. apply Hc; [by right|done].
Qed.

Lemma visit_outcome line n : ∀ s,
  outcome line (visit line n) (scoped_preorder (currentFunction s) n) s.
Proof.
  induction n as [n IH] using node_rec_ind. intros s.
  assert (Hgen : ∀ s1, outcome line (generic_visit (visit line) n)
    (children n ≫= scoped_preorder (currentFunction s1)) s1).
  { intros s1. unfold outcome. rewrite generic_visit_children.
    apply outcome_forM; [done|]. intros c s2 Hc <-. by apply IH. }
  rewrite scoped_preorder_unfold. unfold outcome. cbn [List.find].
  assert (Hfun : (∃ p f a b d, n = FunctionDef p f a b d) ∨
    (visit line n = generic line n (generic_visit (visit line) n) ∧
     inner (currentFunction s) n = currentFunction s ∧
     answer line (currentFunction s, n) = currentFunction s)).
  { destruct n; eauto 10. }
  destruct Hfun as [(p & f & a & b & d & ->)|(-> & -> & Hans)].
  - cbn [visit]. unfold at_or_after; cbn [snd node_pos inner].
    destruct (bool_decide_reflect (line < lineno p)%Z) as [Hlt|Hlt].
    + rewrite bool_decide_eq_true_2 by lia. exists s. split; [done|].
      intros ->. unfold answer. cbn. by rewrite bool_decide_eq_true_2.
    + unfold generic. cbn [node_pos].
      destruct (bool_decide_reflect (line ≤ lineno p)%Z) as [Hle|Hle].
      * eexists. split; [reflexivity|]. intros _. unfold answer. cbn.
        by rewrite bool_decide_eq_false_2.
      * specialize (Hgen (push_function f s)). unfold outcome in Hgen.
        cbn [push_function currentFunction] in Hgen. cbn [inner].
        unfold mbind, M_bind, modify.
        destruct (List.find _ _) as [x|].
        -- destruct Hgen as (s' & -> & He). exists s'. split; [done|]. exact He.
        -- rewrite Hgen. by destruct s.
  - unfold generic. unfold at_or_after at 1. cbn [snd].
    destruct (node_pos n) as [p|]; [|apply Hgen].
    destruct (bool_decide_reflect (line ≤ lineno p)%Z); [|apply Hgen].
    eexists. split; [reflexivity|]. intros _. by rewrite Hans.
Qed.
End EnclosingSpec.

(** ** Data members set in [__init__] *)

Module SelfMembers.
Record state := State { isInAssign : bool; memberNames : gset string }.

Section visitor.
Context (selfName : string).

Definition set_isInAssign (b : bool) : M state unit :=
  modify (λ s, State b (memberNames s)).
Definition add_member (attr : string) : M state unit :=
  modify (λ s, State (isInAssign s) ({[ attr ]} ∪ memberNames s)).

Definition visit_Attribute (value : node) (attr : string) : M state unit :=
  s ← get;
  when (isInAssign s)
    match value with
    | Name _ id _ => when (bool_decide (id = selfName)) (add_member attr)
    | _ => mret tt
    end.

Fixpoint visit (n : node) : M state unit :=
  match n with
  | Assign _ targets _ =>
      s ← get;
      set_isInAssign true ;; forM_ visit targets ;; set_isInAssign (isInAssign s)
  | Attribute _ v attr _ => visit_Attribute v attr
  | _ => generic_visit visit n
  end.
End visitor.

Definition init : state := State false ∅.

(** [assigned self b attr n]: below [n] some [self.attr] stands in an
    assignment target, [b] saying that [n] itself already does. The value of
    an assignment and the inside of an attribute are not looked at. *)
Inductive assigned (self : string) : bool → string → node → Prop :=
| assigned_here p q c1 c2 attr :
    assigned self true attr (Attribute p (Name q self c1) attr c2)
| assigned_target b p ts v t attr :
    t ∈ ts → assigned self true attr t → assigned self b attr (Assign p ts v)
| assigned_child b n c attr :
    match n with Assign _ _ _ | Attribute _ _ _ _ => False | _ => True end →
    c ∈ children n → assigned self b attr c → assigned self b attr n.

Definition effect (m : M state unit) (A : bool → string → Prop) : Prop := ∀ s, ∃ ms,
  m s = (Ret tt, State (isInAssign s) ms) ∧
  ∀ x, x ∈ ms ↔ x ∈ memberNames s ∨ A (isInAssign s) x.

Lemma members_weaken m A A' :
  (∀ b x, A b x ↔ A' b x) → effect m A → effect m A'.
Proof.
  intros HA Hm s. destruct (Hm s) as (ms & ? & Hx). exists ms. split; [done|].
  intros x. by rewrite Hx, HA.
Qed.

Lemma members_forM self l :
  (∀ c, c ∈ l → effect (visit self c) (λ b x, assigned self b x c)) →
  effect (forM_ (visit self) l) (λ b x, ∃ c, c ∈ l ∧ assigned self b x c).
Proof.
  induction l as [|c l IH]; intros Hl s.
  - exists (memberNames s). split; [by destruct s|]. set_solver.
  - rewrite forM__cons. unfold mbind, M_bind.
    destruct (Hl c ltac:(left) s) as (ms & -> & Hms).
    destruct (IH ltac:(intros; apply Hl; by right) (State (isInAssign s) ms))
      as (ms' & -> & Hms').
    exists ms'. split; [done|]. intros x. rewrite Hms'. cbn. rewrite Hms. set_solver.
Qed.

Lemma members_visit self n : effect (visit self n) (λ b x, assigned self b x n).
Proof.
  induction n as [n IH] using node_rec_ind.
  assert (Hgen : match n with Assign _ _ _ | Attribute _ _ _ _ => False | _ => True end →
    effect (generic_visit (visit self) n) (λ b x, assigned self b x n)).
  { intros Hn s. rewrite generic_visit_children.
    destruct (members_forM self (children n) IH s) as (ms & -> & Hms).
    exists ms. split; [done|]. intros x. rewrite Hms.
    split; (intros [?|Hx]; [by left|right]).
    - destruct Hx as (c & ? & ?). by eapply assigned_child.
    - inversion Hx; subst; [done|done|eauto]. }
  destruct n; try (by apply Hgen); clear Hgen; cbn [visit]; intros s.
  - destruct (members_forM self targets ltac:(intros; apply IH; cbn; set_solver)
      (State true (memberNames s))) as (ms & Heq & Hms).
    exists ms. unfold mbind, M_bind. cbn. rewrite Heq. split; [done|].
    intros x. rewrite Hms. cbn. split; (intros [?|Hx]; [by left|right]).
    + destruct Hx as (c & ? & ?). by eapply assigned_target.
    + inversion Hx; subst; [eauto|done].
  - unfold visit_Attribute, mbind, M_bind. cbn [get].
    destruct (isInAssign s) eqn:Hb; cbn [when].
    + destruct n; try (exists (memberNames s); split; [by destruct s; cbn in *; subst|];
        intros x; split; [by left|]; intros [?|Hx]; [done|inversion Hx; subst; done]).
      case_bool_decide as Hid; cbn [when].
      * subst. eexists. split; [by destruct s; cbn in *; subst|]. intros x. cbn.
        rewrite elem_of_union, elem_of_singleton. split.
        -- intros [->|?]; [right; constructor|by left].
        -- intros [?|Hx]; [by right|]. inversion Hx; subst; [by left|done].
      * exists (memberNames s); split; [by destruct s; cbn in *; subst|].
        intros x. split; [by left|]. intros [?|Hx]; [done|]. by inversion Hx; subst.
    + exists (memberNames s). split; [by destruct s; cbn in *; subst|].
      intros x. split; [by left|]. intros [?|Hx]; [done|]. by inversion Hx; subst.
Qed.
End SelfMembers.

Definition extractSimpleSelfMemberAssignments (initFunctionDef : node)
    (selfName : string) : gset string :=
  SelfMembers.memberNames (snd (SelfMembers.visit selfName initFunctionDef SelfMembers.init)).

(** [_AssertOnlySimpleStatementsVisitor]; it keeps no state. *)
Fixpoint AssertOnlySimpleStatements (n : node) : M unit unit :=
  match n with
  | FunctionDef _ _ _ _ _ => raise PythonToForaConversionError
  | ClassDef _ _ _ _ _ => raise PythonToForaConversionError
  | _ => generic_visit AssertOnlySimpleStatements n
  end.

Definition body_of (n : node) : res (list node) :=
  match n with
  | Module b | Interactive b | FunctionDef _ _ _ b _ | ClassDef _ _ _ b _ => Ret b
  | _ => Raise AttributeError
  end.

Definition assertOnlySimpleStatements (initAst : node) : res unit :=
  body ← body_of initAst;
  fst (forM_ AssertOnlySimpleStatements body tt).

(** [initAst.args.args], of a function definition. *)
Definition args_args (n : node) : res (list node) :=
  match n with
  | FunctionDef _ _ (arguments _ args _ _ _) _ _ => Ret args
  | _ => Raise AttributeError
  end.

Definition collectDataMembersSetInInitAst (initAst : node) : res (gset string) :=
  _ ← assertOnlySimpleStatements initAst;
  args ← args_args initAst;
  match args with
  | [] => Raise PythonToForaConversionError
  | Name _ id _ :: _ => Ret (extractSimpleSelfMemberAssignments initAst id)
  | _ :: _ => Raise InternalError
  end.

(** [_computeInitMethodAstOrNone], given [pyAstFor(pyClassObject)]. *)
Definition is_init (stmt : node) : bool :=
  match stmt with
  | FunctionDef _ name _ _ _ => bool_decide (name = "__init__")
  | _ => false
  end.

Definition computeInitMethodAstOrNone (pyAst : node) : res (option node) :=
  body ← body_of pyAst;
  _ ← py_assert (bool_decide (length body = 1));
  match body with
  | ClassDef _ _ _ body' _ :: _ =>
      Ret (fold_left (λ tr stmt, if is_init stmt then Some stmt else tr) body' None)
  | _ => Raise AssertionError
  end.

Definition collectDataMembersSetInInit (pyAst : node) : res (gset string) :=
  o ← computeInitMethodAstOrNone pyAst;
  match o with
  | None => Ret ∅
  | Some initAst => collectDataMembersSetInInitAst initAst
  end.

(** No definition below [n]. *)
Definition simple (n : node) : Prop :=
  ∀ m, subnode m n →
    match m with FunctionDef _ _ _ _ _ | ClassDef _ _ _ _ _ => False | _ => True end.

Lemma AssertOnlySimpleStatements_ok n :
  match AssertOnlySimpleStatements n tt with
  | (Ret _, _) => simple n
  | (Raise e, _) => e = PythonToForaConversionError ∧ ¬ simple n
  end.
Proof.
  induction n as [n IH] using node_rec_ind.
  assert (Hgen : match n with FunctionDef _ _ _ _ _ | ClassDef _ _ _ _ _ => False
                 | _ => True end →
    match generic_visit AssertOnlySimpleStatements n tt with
    | (Ret _, _) => simple n
    | (Raise e, _) => e = PythonToForaConversionError ∧ ¬ simple n
    end).
  { intros Hn. rewrite generic_visit_children.
    assert (Hl : ∀ l, (∀ c, c ∈ l → match AssertOnlySimpleStatements c tt with
        | (Ret _, _) => simple c
        | (Raise e, _) => e = PythonToForaConversionError ∧ ¬ simple c end) →
      match forM_ AssertOnlySimpleStatements l tt with
      | (Ret _, _) => ∀ c, c ∈ l → simple c
      | (Raise e, _) => e = PythonToForaConversionError ∧ ∃ c, c ∈ l ∧ ¬ simple c
      end).
    { clear. induction l as [|c l IH]; intros Hc; [by intros ? ?%not_elem_of_nil|].
      rewrite forM__cons. unfold mbind, M_bind.
      pose proof (Hc c ltac:(left)) as H1.
      destruct (AssertOnlySimpleStatements c tt) as [[[]|e] []].
      - specialize (IH ltac:(intros; apply Hc; by right)).
        destruct (forM_ _ l tt) as [[[]|e] []]; set_solver.
      - split; [by apply H1|]. exists c. split; [left|by apply H1]. }
    specialize (Hl _ IH). destruct (forM_ _ _ _) as [[[]|e] []].
    - intros m Hm. inversion Hm; subst; [done|]. by eapply Hl.
    - destruct Hl as [? (c & Hc & Hs)]. split; [done|]. intros Hsn. apply Hs.
      intros m Hm. apply Hsn. by econstructor. }
  destruct n; try (by apply Hgen); cbn; (split; [done|]);
    intros Hs; exact (Hs _ (subnode_refl _)).
Qed.

Lemma assertOnlySimpleStatements_ok initAst body :
  body_of initAst = Ret body →
  match assertOnlySimpleStatements initAst with
  | Ret _ => ∀ c, c ∈ body → simple c
  | Raise e => e = PythonToForaConversionError ∧ ∃ c, c ∈ body ∧ ¬ simple c
  end.
Proof.
  unfold assertOnlySimpleStatements. intros ->. unfold mbind, res_bind.
  induction body as [|c body IH]; [by intros ? ?%not_elem_of_nil|].
  rewrite forM__cons. unfold mbind, M_bind.
  pose proof (AssertOnlySimpleStatements_ok c) as H1.
  destruct (AssertOnlySimpleStatements c tt) as [[[]|e] []]; cbn.
  - destruct (forM_ _ body tt) as [[[]|e] []]; set_solver.
  - split; [by apply H1|]. exists c. split; [left|by apply H1].
Qed.

(** ** Returns and yields of a scope ([_OuterScopeCountingVisitor]) *)

Module OuterScopeCounting.
Import InScope.

Record own_t := Own {
  returnCount : nat;
  yieldCount : nat;
  returnLocs : list Z;
  yieldLocs : list Z }.
Abbreviation st := (state own_t).

Definition visit_Return (p : PositionInFile) : M st unit :=
  modify_own (λ o, Own (S (returnCount o)) (yieldCount o)
                     (returnLocs o ++ [lineno p]) (yieldLocs o)).
Definition visit_Yield (p : PositionInFile) : M st unit :=
  modify_own (λ o, Own (returnCount o) (S (yieldCount o))
                     (returnLocs o) (yieldLocs o ++ [lineno p])).

Fixpoint visit (n : node) : M st unit :=
  match n with
  | Return p _ => visit_Return p
  | Yield p _ => visit_Yield p
  | _ => dispatch visit n
  end.

Definition run {A} (root : node) (result : own_t → A) : res A :=
  let '(r, s) := cachedCompute visit root (init (Own 0 0 [] [])) in
  match r with Ret _ => Ret (result (own s)) | Raise e => Raise e end.
End OuterScopeCounting.

Definition countReturnsInOuterScope (n : node) : res nat :=
  OuterScopeCounting.run n OuterScopeCounting.returnCount.
Definition countYieldsInOuterScope (n : node) : res nat :=
  OuterScopeCounting.run n OuterScopeCounting.yieldCount.
Definition hasReturnInOuterScope (n : node) : res bool :=
  OuterScopeCounting.run n (λ o, bool_decide (0 < OuterScopeCounting.returnCount o)).
Definition hasYieldInOuterScope (n : node) : res bool :=
  OuterScopeCounting.run n (λ o, bool_decide (0 < OuterScopeCounting.yieldCount o)).
Definition hasReturnOrYieldInOuterScope (n : node) : res bool :=
  OuterScopeCounting.run n (λ o,
    bool_decide (0 < OuterScopeCounting.returnCount o) ||
    bool_decide (0 < OuterScopeCounting.yieldCount o)).
Definition getReturnLocationsInOuterScope (n : node) : res (list Z) :=
  OuterScopeCounting.run n OuterScopeCounting.returnLocs.
Definition getYieldLocationsInOuterScope (n : node) : res (list Z) :=
  OuterScopeCounting.run n OuterScopeCounting.yieldLocs.

Module OuterScopeSpec.
Import InScope OuterScopeCounting.

(** An entry: is it a return, and its line. *)
Definition In (o : own_t) (e : bool * Z) : Prop :=
  e.2 ∈ (if e.1 then returnLocs o else yieldLocs o).

Definition local (n : node) (e : bool * Z) : Prop :=
  match n with
  | Return p _ => e = (true, lineno p)
  | Yield p _ => e = (false, lineno p)
  | _ => False
  end.

Definition offends (n : node) : Prop :=
  match n with Global_ _ _ => True | _ => False end.

(** The operands of [return] and [yield] are not entered. *)
Definition stop (n : node) : bool :=
  match n with Return _ _ | Yield _ _ => true | _ => false end.

Definition occurs (n : node) (d : bool) (e : bool * Z) : Prop :=
  ∃ d' m, reach stop d n d' m ∧ local m e.
Definition bad (n : node) (d : bool) : Prop :=
  ∃ d' m, reach stop d n d' m ∧ offends m.

Lemma occurs_unfold n d e :
  occurs n d e ↔
  local n e ∨ ∃ d' c, (d', c) ∈ ctx_children stop d n ∧ occurs c d' e.
Proof.
  split.
  - intros (d' & m & Hr & Hl). inversion Hr; subst; [by left|right].
    do 2 eexists. split; [eassumption|]. by do 2 eexists.
  - intros [Hl|(d' & c & Hc & d'' & m & Hr & Hl)].
    + do 2 eexists. split; [constructor|done].
    + do 2 eexists. split; [by econstructor|done].
Qed.

Lemma returns_bad_unfold n d :
  bad n d ↔ offends n ∨ ∃ d' c, (d', c) ∈ ctx_children stop d n ∧ bad c d'.
Proof.
  split.
  - intros (d' & m & Hr & Hl). inversion Hr; subst; [by left|right].
    do 2 eexists. split; [eassumption|]. by do 2 eexists.
  - intros [Hl|(d' & c & Hc & d'' & m & Hr & Hl)].
    + do 2 eexists. split; [constructor|done].
    + do 2 eexists. split; [by econstructor|done].
Qed.

Lemma effect_leaf n m :
  effect In m (λ _ e, local n e) (λ _, offends n) →
  ctx_children stop true n = [] → ctx_children stop false n = [] →
  effect In m (occurs n) (bad n).
Proof.
  intros Hm Ht Hf. eapply effect_weaken; [| |exact Hm]; intros [];
    [intros e; rewrite (occurs_unfold n), Ht|intros e; rewrite (occurs_unfold n), Hf
    |rewrite (returns_bad_unfold n), Ht|rewrite (returns_bad_unfold n), Hf];
    (split; [by left|]);
    (intros [?|(? & ? & ?%not_elem_of_nil & ?)]; done).
Qed.

Lemma returns_visit n : effect In (visit n) (occurs n) (bad n).
Proof.
  induction n as [n IH] using node_rec_ind.
  assert (Hd : stop n = false → ¬ offends n → (∀ e, ¬ local n e) →
    effect In (dispatch visit n) (occurs n) (bad n)).
  { intros Hs Hg Hl.
    eapply effect_weaken;
      [| |eapply visits_dispatch; [exact Hs|by intros ? ? ->; apply Hg|exact IH]];
      intros d; [intros e; rewrite (occurs_unfold n); specialize (Hl e)
                |rewrite (returns_bad_unfold n)]; tauto. }
  destruct n; try (apply Hd; [done|by intros []|by intros ? []]); clear Hd;
    apply effect_leaf; try done; cbn [visit].
  - apply effect_own. intros o [[] l] _; unfold In; cbn; set_solver.
  - eapply effect_weaken; [| |apply effect_raise]; done.
  - apply effect_own. intros o [[] l] _; unfold In; cbn; set_solver.
Qed.

(** The counters are the lengths of the lists. *)
Definition counted (o : own_t) : Prop :=
  returnCount o = length (returnLocs o) ∧ yieldCount o = length (yieldLocs o).

Lemma keeps_counted n : keeps (λ s : st, counted (own s)) (visit n).
Proof.
  induction n as [n IH] using node_rec_ind.
  pose proof (keeps_dispatch counted visit n IH) as Hd.
  destruct n; try exact Hd; apply keeps_modify; intros [? ? ? o] [? ?];
    unfold counted; cbn in *; rewrite length_app; cbn; lia.
Qed.

(** The entries and the errors of a whole scope. *)
Definition scope_occurs (root : node) (e : bool * Z) : Prop :=
  ∃ c, c ∈ children root ∧ occurs c false e.
Definition scope_bad (root : node) : Prop :=
  ∃ c, c ∈ children root ∧ bad c false.

Lemma returns_run_spec root :
  isScopeNode root = true →
  (∃ o, (∀ e, In o e ↔ scope_occurs root e) ∧ counted o ∧ ¬ scope_bad root ∧
        ∀ A (f : own_t → A), run root f = Ret (f o)) ∨
  (∃ ex, scope_bad root ∧ ∀ A (f : own_t → A), run root f = Raise ex).
Proof.
  intros Hroot.
  assert (Heff : effect In (forM_ visit (children root))
    (λ d e, ∃ c, c ∈ children root ∧ occurs c d e)
    (λ d, ∃ c, c ∈ children root ∧ bad c d)).
  { eapply effect_weaken;
      [| |apply (visits_list In visit occurs bad); intros; apply returns_visit];
      intros; set_solver. }
  pose proof (keeps_cachedCompute counted visit root keeps_counted
    (init (Own 0 0 [] [])) (conj eq_refl eq_refl)) as Hcount.
  destruct (Heff (init (Own 0 0 [] []))) as (r & o & Heq & Hr). revert Hcount.
  unfold run, cachedCompute, mbind, M_bind. cbn [get isComputed init].
  rewrite Hroot, generic_visit_children, Heq. intros Hcount.
  destruct r as [[]|ex]; cbn in *.
  - left. exists o. destruct Hr as [Hr Hbad]. split_ands; [|apply Hcount..|done|done].
    intros e. rewrite Hr. unfold scope_occurs.
    assert (¬ In (Own 0 0 [] []) e)
      by (destruct e as [[] ?]; unfold In; cbn; by intros ?%not_elem_of_nil).
    tauto.
  - right. by exists ex.
Qed.
End OuterScopeSpec.

(** ** The queries, exactly *)

(** The function definitions, then the lambdas, that start on a line. *)
Definition functions_at (line : Z) (sourceAst : node) : list node :=
  List.filter (AtLineNumber.is_at AtLineNumber.Functions line) (preorder sourceAst) ++
  List.filter (AtLineNumber.is_at AtLineNumber.Lambdas line) (preorder sourceAst).

Lemma unique_iff l :
  (∃ n, AtLineNumber.unique l = Ret n ∧ l = [n]) ∨
  (AtLineNumber.unique l = Raise CantGetSourceTextError ∧ length l ≠ 1).
Proof. destruct l as [|n [|]]; cbn; eauto. Qed.

(** Looking a definition up by its line ([classDefAtLineNumber],
    [withBlockAtLineNumber], [functionDefOrLambdaAtLineNumber]) returns the one
    class, with statement, or function or lambda of the tree that starts on that
    line, and raises [CantGetSourceTextError] when there are none or several. *)
Theorem definition_at_line_unique sourceAst line :
  ∀ lookup found,
    (lookup, found) ∈
      [ (classDefAtLineNumber, List.filter (AtLineNumber.is_at AtLineNumber.Classes line)
                                 (preorder sourceAst));
        (withBlockAtLineNumber, List.filter (AtLineNumber.is_at AtLineNumber.Withs line)
                                  (preorder sourceAst));
        (functionDefOrLambdaAtLineNumber, functions_at line sourceAst) ] →
    (∃ n, lookup sourceAst line = Ret n ∧ found = [n] ∧ subnode n sourceAst) ∨
    (lookup sourceAst line = Raise CantGetSourceTextError ∧ length found ≠ 1).
Proof.
  intros lookup found Hin.
  assert (Hl : lookup sourceAst line = AtLineNumber.unique found ∧
               ∀ n, n ∈ found → subnode n sourceAst).
  { pose proof (λ k, AtLineNumber.run_lists line sourceAst k) as Hr.
    assert (Hsub : ∀ k n, n ∈ List.filter (AtLineNumber.is_at k line)
      (preorder sourceAst) → subnode n sourceAst).
    { intros k n [? _]%list_elem_of_In%filter_In.
      by apply elem_of_preorder, list_elem_of_In. }
    rewrite !elem_of_cons in Hin.
    destruct Hin as [[= -> ->]|[[= -> ->]|[[= -> ->]|?%not_elem_of_nil]]]; [| | |done].
    - split; [|apply Hsub]. unfold classDefAtLineNumber. f_equal.
      apply (Hr AtLineNumber.Classes).
    - split; [|apply Hsub]. unfold withBlockAtLineNumber. f_equal.
      apply (Hr AtLineNumber.Withs).
    - split; [|unfold functions_at; intros n [?|?]%elem_of_app; by eapply Hsub].
      unfold functionDefOrLambdaAtLineNumber, functions_at. f_equal. f_equal.
      + apply (Hr AtLineNumber.Functions).
      + apply (Hr AtLineNumber.Lambdas). }
  destruct Hl as [-> Hsub].
  destruct (unique_iff found) as [(n & -> & ->)|[-> ?]]; [left|by right].
  exists n. split_ands; [done..|]. apply Hsub. left.
Qed.

(** [findEnclosingFunctionName(tree, line)] never raises. It takes the first
    node, in traversal order, whose line is at or after [line]; it answers the
    innermost function that holds that node, a function holding itself, but
    [None] when that node is a function that starts after the line, and [None]
    when there is no such node. *)
Theorem findEnclosingFunctionName_first astNode line :
  findEnclosingFunctionName astNode line =
    Ret (match List.find (EnclosingSpec.at_or_after line)
                 (EnclosingSpec.scoped_preorder None astNode) with
         | Some x => EnclosingSpec.answer line x
         | None => None
         end).
Proof.
  unfold findEnclosingFunctionName, FindEnclosingFunction.find.
  pose proof (EnclosingSpec.visit_outcome line astNode FindEnclosingFunction.init) as H.
  unfold EnclosingSpec.outcome in H. cbn [FindEnclosingFunction.init
    FindEnclosingFunction.currentFunction] in H.
  assert (Hrun : match FindEnclosingFunction.visit line astNode FindEnclosingFunction.init with
    | (Ret _, _) => Ret None
    | (Raise e, s) => if bool_decide (e = VisitDone)
        then Ret (FindEnclosingFunction.enclosingFunction s) else Raise e
    end = Ret (match List.find (EnclosingSpec.at_or_after line)
                 (EnclosingSpec.scoped_preorder None astNode) with
         | Some x => EnclosingSpec.answer line x
         | None => None
         end)).
  { destruct (List.find _ _) as [x|]; [|by rewrite H].
    destruct H as (s' & -> & He). rewrite bool_decide_eq_true_2 by done.
    by rewrite He. }
  destruct (node_pos astNode) as [p|] eqn:Hp; [|exact Hrun].
  case_bool_decide as Hlt; [|exact Hrun].
  rewrite EnclosingSpec.scoped_preorder_unfold. cbn [List.find].
  unfold EnclosingSpec.at_or_after at 1. cbn [snd]. rewrite Hp.
  rewrite bool_decide_eq_true_2 by lia. f_equal. unfold EnclosingSpec.answer. cbn.
  destruct astNode; cbn in Hp; simplify_eq; try done.
  by rewrite bool_decide_eq_true_2.
Qed.

(** [_collectDataMembersSetInInitAst] of a function definition: with a
    function or class definition in the body, or without parameters, the code is
    rejected; with a tuple as its first parameter it is an internal error;
    otherwise the result is exactly the set of names [x] such that [self.x]
    stands in the targets of an assignment, [self] being the first parameter. *)
Theorem collectDataMembersSetInInitAst_exact p name pos args va ka ds body decs :
  let initAst := FunctionDef p name (arguments pos args va ka ds) body decs in
  match collectDataMembersSetInInitAst initAst with
  | Ret members =>
      (∀ c, c ∈ body → simple c) ∧
      ∃ q self ctx rest, args = Name q self ctx :: rest ∧
        ∀ x, x ∈ members ↔ SelfMembers.assigned self false x initAst
  | Raise PythonToForaConversionError => (∃ c, c ∈ body ∧ ¬ simple c) ∨ args = []
  | Raise e => e = InternalError ∧
      ∃ a rest, args = a :: rest ∧ ¬ ∃ q self ctx, a = Name q self ctx
  end.
Proof.
  intros initAst. unfold collectDataMembersSetInInitAst.
  pose proof (assertOnlySimpleStatements_ok initAst body eq_refl) as Hs.
  destruct (assertOnlySimpleStatements initAst) as [u|e]; cbn;
    [|destruct Hs as [-> ?]; by left].
  destruct args as [|a rest]; [by right|].
  assert (Hname : (∃ q self ctx, a = Name q self ctx) ∨
                  (¬ ∃ q self ctx, a = Name q self ctx)).
  { destruct a; try (right; by intros (? & ? & ? & ?)). left; eauto. }
  destruct Hname as [(q & self & ctx & ->)|Hn]; [|].
  - split; [done|]. exists q, self, ctx, rest. split; [done|]. intros x.
    unfold extractSimpleSelfMemberAssignments.
    destruct (SelfMembers.members_visit self initAst SelfMembers.init) as (ms & -> & Hms).
    cbn. rewrite Hms. set_solver.
  - destruct a; try (by edestruct Hn; eauto); (split; [done|]; eauto).
Qed.

(** The counting queries on a scope node raise exactly when the scope holds
    a [global] statement. Otherwise [hasReturnInOuterScope] and
    [hasYieldInOuterScope] say whether a return, a yield, occurs in the scope
    outside of nested scopes and of the operands of other returns and yields,
    the counts are the lengths of the lists of locations, and those hold exactly
    the lines of these statements. *)
Theorem returns_and_yields_of_scope root :
  isScopeNode root = true →
  (∃ rl yl,
    getReturnLocationsInOuterScope root = Ret rl ∧
    getYieldLocationsInOuterScope root = Ret yl ∧
    countReturnsInOuterScope root = Ret (length rl) ∧
    countYieldsInOuterScope root = Ret (length yl) ∧
    hasReturnInOuterScope root = Ret (negb (bool_decide (rl = []))) ∧
    hasYieldInOuterScope root = Ret (negb (bool_decide (yl = []))) ∧
    hasReturnOrYieldInOuterScope root = Ret (negb (bool_decide (rl ++ yl = []))) ∧
    (∀ line, line ∈ rl ↔ OuterScopeSpec.scope_occurs root (true, line)) ∧
    (∀ line, line ∈ yl ↔ OuterScopeSpec.scope_occurs root (false, line)) ∧
    ¬ OuterScopeSpec.scope_bad root) ∨
  (∃ e, OuterScopeSpec.scope_bad root ∧ hasReturnOrYieldInOuterScope root = Raise e ∧
        countReturnsInOuterScope root = Raise e ∧ countYieldsInOuterScope root = Raise e).
Proof.
  intros Hroot. destruct (OuterScopeSpec.returns_run_spec root Hroot)
    as [([rc yc rl yl] & HIn & [Hrc Hyc] & Hok & Hrun)|(e & Hbad & Hrun)]; [left|right].
  - cbn in *. exists rl, yl.
    unfold getReturnLocationsInOuterScope, getYieldLocationsInOuterScope,
      countReturnsInOuterScope, countYieldsInOuterScope, hasReturnInOuterScope,
      hasYieldInOuterScope, hasReturnOrYieldInOuterScope.
    rewrite !Hrun. cbn. subst. split_ands; try done.
    + by destruct rl.
    + by destruct yl.
    + destruct rl, yl; done.
    + intros line. apply (HIn (true, line)).
    + intros line. apply (HIn (false, line)).
  - exists e. unfold hasReturnOrYieldInOuterScope, countReturnsInOuterScope,
      countYieldsInOuterScope. by rewrite !Hrun.
Qed.

Module AstUtilSamples.
(** [class A:] / [  def __init__(self, x):] / [    self.x, y.z = x, 1] /
    [    if x: self.y = x] / [  def g(self): return lambda: (yield)] *)
Definition init_def : node :=
  FunctionDef (Pos 2 2) "__init__"
    (arguments None [Name (Pos 2 15) "self" Param; Name (Pos 2 21) "x" Param]
       None None [])
    [Assign (Pos 3 4)
       [Tuple_ (Pos 3 4)
          [Attribute (Pos 3 4) (Name (Pos 3 4) "self" Load) "x" Store;
           Attribute (Pos 3 12) (Name (Pos 3 12) "y" Load) "z" Store] Store]
       (Tuple_ (Pos 3 18) [Name (Pos 3 18) "x" Load; Num (Pos 3 21) 1] Load);
     If (Pos 4 4) (Name (Pos 4 7) "x" Load)
       [Assign (Pos 4 10)
          [Attribute (Pos 4 10) (Name (Pos 4 10) "self" Load) "y" Store]
          (Name (Pos 4 19) "x" Load)] []] [].

Definition g_def : node :=
  FunctionDef (Pos 5 2) "g" (arguments None [Name (Pos 5 8) "self" Param] None None [])
    [Return (Pos 5 15) (Some (Lambda (Pos 5 22) (arguments None [] None None [])
       (Yield (Pos 5 31) None)))] [].

Definition source : node := Module [ClassDef (Pos 1 0) "A" [] [init_def; g_def] []].

Example members : collectDataMembersSetInInit source = Ret {["x"; "y"]} := eq_refl.
Example at_2 : functionDefOrLambdaAtLineNumber source 2 = Ret init_def := eq_refl.
Example at_5 :
  functionDefOrLambdaAtLineNumber source 5 = Raise CantGetSourceTextError := eq_refl.
Example enclosing_4 : findEnclosingFunctionName source 4 = Ret (Some "__init__")
  := eq_refl.
Example returns_g : hasReturnOrYieldInOuterScope g_def = Ret true := eq_refl.
End AstUtilSamples.

Lemma definition_at_line_unique_witness :
  subnode AstUtilSamples.init_def AstUtilSamples.source.
Proof.
  destruct (definition_at_line_unique AstUtilSamples.source 2
    functionDefOrLambdaAtLineNumber (functions_at 2 AstUtilSamples.source))
    as [(n & Hn & _ & Hs)|[Hn _]].
  - right. right. left.
  - assert (Heq : Ret AstUtilSamples.init_def = Ret n)
      by (rewrite <- Hn; vm_compute; reflexivity).
    injection Heq as <-. exact Hs.
  - vm_compute in Hn. discriminate Hn.
Defined.

Lemma returns_and_yields_of_scope_witness :
  OuterScopeSpec.scope_occurs AstUtilSamples.g_def (true, 5%Z) ∧
  ¬ OuterScopeSpec.scope_bad AstUtilSamples.g_def.
Proof.
  destruct (returns_and_yields_of_scope AstUtilSamples.g_def eq_refl)
    as [(rl & yl & H1 & _ & _ & _ & _ & _ & _ & H2 & _ & H3)|(e & _ & H & _)].
  - split; [|exact H3]. apply H2. vm_compute in H1. injection H1 as <-. left.
  - vm_compute in H. discriminate H.
Defined.
