(* ===== verification/IndexMaps.v ===== *)
(** * Indexed dictionaries ([ufora/util])

    [DefaultDict], [TwoWaySetMap], [MapWithIndex] and [ThreadSafeDict]. A Python
    dict is a [gmap] and a set a [gset]; a loop over a set runs over [order s],
    the order Python happens to choose, of which only the elements matter. *)
From stdpp Require Import base gmap sets list strings fin_maps.
From S2P Require Import Prelude.

(** ** DefaultDict, with [lambda key: set()] as the default *)

Module DefaultDict.
Section ops.
Context {K V : Type} `{Countable K, Countable V}.

(** [d[x]] when it is read: a missing key is inserted. *)
Definition getitem (x : K) : M (gmap K (gset V)) (gset V) := λ d,
  match d !! x with
  | Some s => (Ret s, d)
  | None => (Ret ∅, <[x := ∅]> d)
  end.

(** [d[x].add(y)] and [d[x].discard(y)]. *)
Definition add (x : K) (y : V) (d : gmap K (gset V)) : gmap K (gset V) :=
  <[x := {[ y ]} ∪ default ∅ (d !! x)]> d.
Definition discard (x : K) (y : V) (d : gmap K (gset V)) : gmap K (gset V) :=
  <[x := default ∅ (d !! x) ∖ {[ y ]}]> d.

(** [d[x].remove(y)]. *)
Definition remove (x : K) (y : V) : M (gmap K (gset V)) unit := λ d,
  if bool_decide (y ∈ default ∅ (d !! x))
  then (Ret tt, discard x y d)
  else (Raise KeyError, <[x := default ∅ (d !! x)]> d).

(** [if not d[x]: del d[x]]. *)
Definition del_if_empty (x : K) (d : gmap K (gset V)) : gmap K (gset V) :=
  if bool_decide (default ∅ (d !! x) = ∅) then delete x d else d.

(** The values of a key, a missing key having none. *)
Definition at_key (d : gmap K (gset V)) (x : K) : gset V := default ∅ (d !! x).

Lemma at_key_insert x s d y :
  at_key (<[x := s]> d) y = if decide (x = y) then s else at_key d y.
Proof.
  unfold at_key. destruct (decide (x = y)) as [->|Hne].
  - by rewrite lookup_insert_eq.
  - by rewrite lookup_insert_ne.
Qed.

Lemma at_key_del x d y : at_key (del_if_empty x d) y = at_key d y.
Proof.
  unfold del_if_empty, at_key. case_bool_decide as Hx; [|done].
  destruct (decide (x = y)) as [->|Hne].
  - by rewrite lookup_delete_eq, Hx.
  - by rewrite lookup_delete_ne.
Qed.

(** No key has an empty set of values. *)
Definition no_empty (d : gmap K (gset V)) : Prop := ∀ x, d !! x ≠ Some ∅.

Lemma no_empty_insert x s d : s ≠ ∅ → no_empty d → no_empty (<[x := s]> d).
Proof. intros Hs Hd y. rewrite lookup_insert. case_decide; [congruence|apply Hd]. Qed.

Lemma no_empty_discard x y d : no_empty d → no_empty (del_if_empty x (discard x y d)).
Proof.
  intros Hd z. unfold del_if_empty, discard. rewrite lookup_insert_eq. cbn.
  case_bool_decide as Hx.
  - destruct (decide (x = z)) as [->|Hne]; [by rewrite lookup_delete_eq|].
    rewrite lookup_delete_ne, lookup_insert_ne by done. apply Hd.
  - rewrite lookup_insert. case_decide; [congruence|apply Hd].
Qed.
End ops.
End DefaultDict.

(** ** TwoWaySetMap *)

Module TwoWaySetMap.
Import DefaultDict.

Section map.
Context {K V : Type} `{Countable K, Countable V}.
(** The iteration orders. *)
Context (orderK : gset K → list K) (orderV : gset V → list V).

Record state := State {
  keyVal : gmap K (gset V);
  valKeys : gmap V (gset K) }.

Definition init : state := State ∅ ∅.

Definition on_keyVal {A} (m : M (gmap K (gset V)) A) : M state A := λ s,
  let '(r, d) := m (keyVal s) in (r, State d (valKeys s)).
Definition on_valKeys {A} (m : M (gmap V (gset K)) A) : M state A := λ s,
  let '(r, d) := m (valKeys s) in (r, State (keyVal s) d).

(** [__setitem__], [vals] being already a set. *)
Definition setitem (key : K) (vals : gset V) : M state unit :=
  old ← on_keyVal (getitem key);
  forM_ (λ v, on_valKeys (modify (add v key))) (orderV (vals ∖ old)) ;;
  forM_ (λ v, on_valKeys (remove v key) ;;
              on_valKeys (modify (del_if_empty v))) (orderV (old ∖ vals)) ;;
  on_keyVal (modify (insert key vals)) ;;
  on_keyVal (modify (del_if_empty key)).

Definition add (key : K) (value : V) : M state unit :=
  on_keyVal (modify (DefaultDict.add key value)) ;;
  on_valKeys (modify (DefaultDict.add value key)).

Definition drop (key : K) (value : V) : M state unit :=
  on_keyVal (modify (discard key value)) ;;
  on_keyVal (modify (del_if_empty key)) ;;
  s ← get;
  when (bool_decide (is_Some (valKeys s !! value)))
    (on_valKeys (modify (discard value key)) ;;
     on_valKeys (modify (del_if_empty value))).

Definition getitem (key : K) : M state (gset V) := on_keyVal (DefaultDict.getitem key).
Definition delitem (key : K) : M state unit := setitem key ∅.
Definition dropKey (key : K) : M state unit := delitem key.

Definition keysFor (s : state) (val : V) : gset K := default ∅ (valKeys s !! val).
Definition valuesFor (s : state) (key : K) : gset V := default ∅ (keyVal s !! key).
Definition hasKey (s : state) (key : K) : bool := bool_decide (is_Some (keyVal s !! key)).
Definition hasVal (s : state) (val : V) : bool := bool_decide (is_Some (valKeys s !! val)).
Definition len (s : state) : nat := size (keyVal s).

Definition dropValue (val : V) : M state unit :=
  s ← get;
  forM_ (λ k,
    on_keyVal (modify (discard k val)) ;;
    on_keyVal (modify (del_if_empty k)) ;;
    on_valKeys (modify (discard val k)) ;;
    on_valKeys (modify (del_if_empty val))) (orderK (keysFor s val)).

(** *** The relation and its two indexes *)

Definition rel (s : state) (k : K) (v : V) : Prop := v ∈ valuesFor s k.

Definition wf (s : state) : Prop :=
  (∀ k v, k ∈ keysFor s v ↔ v ∈ valuesFor s k) ∧ no_empty (valKeys s).

Hypothesis orderK_perm : ∀ s, orderK s ≡ₚ elements s.
Hypothesis orderV_perm : ∀ s, orderV s ≡ₚ elements s.

(** The mutations of the two dicts, as functions of the relation. *)
Definition index (s : state) (R : K → V → Prop) (R' : K → V → Prop) : Prop :=
  (∀ k v, v ∈ valuesFor s k ↔ R k v) ∧ (∀ k v, k ∈ keysFor s v ↔ R' k v) ∧
  no_empty (valKeys s).

Lemma wf_index s : wf s ↔ index s (rel s) (rel s).
Proof. unfold wf, index, rel. naive_solver. Qed.

Lemma in_valuesFor_insert s key vs k :
  valuesFor (State (<[key := vs]> (keyVal s)) (valKeys s)) k =
  if decide (key = k) then vs else valuesFor s k.
Proof. apply at_key_insert. Qed.

Lemma index_valAdd s R R' v key :
  index s R R' →
  index (State (keyVal s) (DefaultDict.add v key (valKeys s))) R
    (λ k w, (k = key ∧ w = v) ∨ R' k w).
Proof.
  intros (H1 & H2 & H3). unfold index. split_ands; [exact H1| |].
  - intros k w. unfold keysFor; cbn. unfold DefaultDict.add.
    pose proof (at_key_insert v ({[key]} ∪ default ∅ (valKeys s !! v)) (valKeys s) w)
      as Hins. unfold at_key in Hins. rewrite Hins.
    specialize (H2 k w). unfold keysFor in H2.
    case_decide as Hd; [subst|]; set_solver.
  - apply no_empty_insert; [set_solver|done].
Qed.

Lemma index_valDiscard s R R' v key :
  index s R R' →
  index (State (keyVal s) (del_if_empty v (discard v key (valKeys s)))) R
    (λ k w, ¬ (k = key ∧ w = v) ∧ R' k w).
Proof.
  intros (H1 & H2 & H3). unfold index. split_ands; [exact H1| |by apply no_empty_discard].
  intros k w. unfold keysFor; cbn.
  pose proof (at_key_del v (discard v key (valKeys s)) w) as Hdel.
  unfold at_key in Hdel. rewrite Hdel. unfold discard.
  pose proof (at_key_insert v (default ∅ (valKeys s !! v) ∖ {[key]}) (valKeys s) w)
    as Hins. unfold at_key in Hins. rewrite Hins.
  specialize (H2 k w). unfold keysFor in H2. case_decide as Hd; [subst|]; set_solver.
Qed.

Lemma index_keySet s R R' key vs :
  index s R R' →
  index (State (del_if_empty key (<[key := vs]> (keyVal s))) (valKeys s))
    (λ k v, if decide (k = key) then v ∈ vs else R k v) R'.
Proof.
  intros (H1 & H2 & H3). unfold index. split_ands; [|exact H2|exact H3].
  intros k v. unfold valuesFor; cbn.
  pose proof (at_key_del key (<[key := vs]> (keyVal s)) k) as Hdel.
  unfold at_key in Hdel. rewrite Hdel.
  pose proof (at_key_insert key vs (keyVal s) k) as Hins. unfold at_key in Hins.
  rewrite Hins. destruct (decide (key = k)), (decide (k = key)); try congruence;
    [done|apply H1].
Qed.

Lemma index_keySet_only s R R' key vs :
  index s R R' →
  index (State (<[key := vs]> (keyVal s)) (valKeys s))
    (λ k v, if decide (k = key) then v ∈ vs else R k v) R'.
Proof.
  intros (H1 & H2 & H3). unfold index. split_ands; [|exact H2|exact H3].
  intros k v. unfold valuesFor; cbn.
  pose proof (at_key_insert key vs (keyVal s) k) as Hins. unfold at_key in Hins.
  rewrite Hins. destruct (decide (key = k)), (decide (k = key)); try congruence;
    [done|apply H1].
Qed.

Lemma index_ext s R1 R1' R2 R2' :
  (∀ k v, R1 k v ↔ R2 k v) → (∀ k v, R1' k v ↔ R2' k v) →
  index s R1 R1' → index s R2 R2'.
Proof. unfold index. naive_solver. Qed.

Lemma loop_add key l s R R' :
  index s R R' →
  ∃ s', forM_ (λ v, on_valKeys (modify (DefaultDict.add v key))) l s = (Ret tt, s') ∧
    index s' R (λ k v, (k = key ∧ v ∈ l) ∨ R' k v).
Proof.
  revert s R'. induction l as [|v l IH]; intros s R' Hs.
  - exists s. split; [done|]. eapply index_ext; [done| |exact Hs]. set_solver.
  - destruct (IH _ _ (index_valAdd _ _ _ v key Hs)) as (s' & Heq & Hs').
    exists s'. split; [exact Heq|]. eapply index_ext; [done| |exact Hs']. set_solver.
Qed.

Lemma loop_remove key l s R R' :
  NoDup l → (∀ v, v ∈ l → R' key v) → index s R R' →
  ∃ s', forM_ (λ v, on_valKeys (remove v key) ;;
                   on_valKeys (modify (del_if_empty v))) l s = (Ret tt, s') ∧
    index s' R (λ k v, ¬ (k = key ∧ v ∈ l) ∧ R' k v).
Proof.
  intros Hl. revert s R'. induction Hl as [|v l Hv Hl IH]; intros s R' HR Hs.
  - exists s. split; [done|]. eapply index_ext; [done| |exact Hs]. set_solver.
  - edestruct IH as (s' & Heq & Hs'); [|exact (index_valDiscard _ _ _ v key Hs)|].
    { intros w Hw. split; [set_solver|]. apply HR. by right. }
    exists s'. split.
    + assert (Hin : key ∈ keysFor s v) by (apply Hs, HR; left).
      rewrite forM__cons. unfold mbind, M_bind, on_valKeys, remove, modify.
      rewrite bool_decide_eq_true_2 by exact Hin. exact Heq.
    + eapply index_ext; [done| |exact Hs']. set_solver.
Qed.

Lemma loop_dropValue val l s R :
  index s R R →
  ∃ s', forM_ (λ k,
      on_keyVal (modify (discard k val)) ;;
      on_keyVal (modify (del_if_empty k)) ;;
      on_valKeys (modify (discard val k)) ;;
      on_valKeys (modify (del_if_empty val))) l s = (Ret tt, s') ∧
    index s' (λ k v, ¬ (k ∈ l ∧ v = val) ∧ R k v)
             (λ k v, ¬ (k ∈ l ∧ v = val) ∧ R k v).
Proof.
  revert s R. induction l as [|k l IH]; intros s R Hs.
  - exists s. split; [done|]. eapply index_ext; [| |exact Hs]; set_solver.
  - assert (H1 : index (State (del_if_empty k (discard k val (keyVal s))) (valKeys s))
      (λ k' v, ¬ (k' = k ∧ v = val) ∧ R k' v) R).
    { eapply index_ext; [|done|eapply (index_keySet _ _ _ k); exact Hs].
      intros k' v. destruct Hs as (Hs & _ & _). specialize (Hs k' v).
      unfold valuesFor in Hs. case_decide; [subst|]; set_solver. }
    eapply (index_valDiscard _ _ _ val k) in H1. cbn in H1.
    match type of H1 with index ?s1 _ _ =>
      destruct (IH s1 (λ k' v, ¬ (k' = k ∧ v = val) ∧ R k' v))
        as (s' & Heq & Hs') end.
    { eapply index_ext; [| |exact H1]; naive_solver. }
    exists s'. split; [exact Heq|]. eapply index_ext; [| |exact Hs']; set_solver.
Qed.

(** *** Operations against the relation they maintain *)

Inductive op :=
| OpSet (key : K) (vals : gset V)
| OpAdd (key : K) (value : V)
| OpDrop (key : K) (value : V)
| OpGet (key : K)
| OpDel (key : K)
| OpDropValue (val : V).

Definition exec (o : op) : M state unit :=
  match o with
  | OpSet k vs => setitem k vs
  | OpAdd k v => add k v
  | OpDrop k v => drop k v
  | OpGet k => getitem k ;; mret tt
  | OpDel k => delitem k
  | OpDropValue v => dropValue v
  end.

Definition denote (o : op) (R : K → V → Prop) : K → V → Prop := λ k v,
  match o with
  | OpSet key vals => if decide (k = key) then v ∈ vals else R k v
  | OpAdd key value => (k = key ∧ v = value) ∨ R k v
  | OpDrop key value => ¬ (k = key ∧ v = value) ∧ R k v
  | OpGet _ => R k v
  | OpDel key => k ≠ key ∧ R k v
  | OpDropValue val => v ≠ val ∧ R k v
  end.

Lemma get_index key s R :
  index s R R → ∃ s', on_keyVal (DefaultDict.getitem key) s = (Ret (valuesFor s key), s')
    ∧ index s' R R.
Proof.
  intros Hs. unfold on_keyVal, DefaultDict.getitem, valuesFor.
  destruct (keyVal s !! key) as [vs|] eqn:Hk.
  - exists s. split; [by destruct s|done].
  - eexists. split; [reflexivity|].
    eapply index_ext; [|done|by eapply (index_keySet_only _ _ _ key ∅)].
    intros k v. destruct Hs as (Hs & _ & _). specialize (Hs k v).
    unfold valuesFor in Hs. case_decide; [subst; rewrite Hk in Hs|]; set_solver.
Qed.

Lemma setitem_index key vals s R :
  index s R R →
  ∃ s', setitem key vals s = (Ret tt, s') ∧
    index s' (denote (OpSet key vals) R) (denote (OpSet key vals) R).
Proof.
  intros Hs. destruct (get_index key s R Hs) as (s1 & Hg & H1). unfold setitem.
  rewrite (bind_step _ _ _ _ _ Hg). clear Hg.
  assert (Hold : ∀ v, v ∈ valuesFor s key ↔ R key v) by (intros; apply Hs).
  destruct (loop_add key (orderV (vals ∖ valuesFor s key)) s1 R R H1) as (s2 & Ha & H2).
  rewrite (bind_step _ _ _ _ _ Ha). clear Ha.
  edestruct (loop_remove key (orderV (valuesFor s key ∖ vals)) s2)
    as (s3 & Hr & H3); [| |exact H2|].
  { rewrite orderV_perm. apply NoDup_elements. }
  { intros v Hv. rewrite orderV_perm in Hv. set_solver. }
  rewrite (bind_step _ _ _ _ _ Hr). clear Hr.
  eexists. split; [reflexivity|].
  cbn [keyVal valKeys].
  eapply index_ext; [| |eapply (index_keySet _ _ _ key vals); exact H3]; intros k v.
  - done.
  - unfold denote. cbn. rewrite !orderV_perm, !elem_of_elements.
    specialize (Hold v). destruct (decide (k = key)) as [->|]; [|naive_solver].
    rewrite <- Hold, !elem_of_difference.
    destruct (decide (v ∈ vals)), (decide (v ∈ valuesFor s key)); naive_solver.
Qed.

Lemma exec_index o s R :
  index s R R → ∃ s', exec o s = (Ret tt, s') ∧ index s' (denote o R) (denote o R).
Proof.
  intros Hs. destruct o as [key vals|key value|key value|key|key|val]; cbn [exec].
  - by apply setitem_index.
  - eexists. split; [reflexivity|].
    eapply index_ext; [| |eapply (index_valAdd (State (DefaultDict.add key value (keyVal s))
      (valKeys s)) _ _ value key), index_keySet_only, Hs].
    + intros k v. destruct Hs as (Hs & _ & _). specialize (Hs k v). cbn.
      unfold valuesFor in Hs. case_decide; [subst|]; set_solver.
    + intros k v. cbn. naive_solver.
  - assert (H1 : index (State (del_if_empty key (discard key value (keyVal s))) (valKeys s))
      (denote (OpDrop key value) R) R).
    { eapply index_ext; [|done|eapply (index_keySet _ _ _ key); exact Hs].
      intros k' v. destruct Hs as (Hs & _ & _). specialize (Hs k' v). cbn.
      unfold valuesFor in Hs. case_decide; [subst|]; set_solver. }
    unfold drop, mbind, M_bind. cbn [get on_keyVal modify valKeys].
    case_bool_decide as Hv; eexists; (split; [reflexivity|]).
    + eapply index_ext; [done| |eapply (index_valDiscard _ _ _ value key H1)]. done.
    + eapply index_ext; [done| |exact H1]. intros k v. cbn.
      split; [|naive_solver]. intros HR. split; [|done]. intros [-> ->].
      apply Hv. destruct Hs as (_ & Hs & _). apply Hs in HR. unfold keysFor in HR.
      destruct (valKeys s !! value); [by eexists|]. set_solver.
  - destruct (get_index key s R Hs) as (s1 & Hg & H1). exists s1.
    unfold getitem. rewrite (bind_step _ _ _ _ _ Hg). done.
  - destruct (setitem_index key ∅ s R Hs) as (s' & Heq & Hs'). exists s'.
    split; [exact Heq|]. eapply index_ext; [| |exact Hs']; intros k v; cbn;
      case_decide; set_solver.
  - destruct (loop_dropValue val (orderK (keysFor s val)) s R Hs) as (s' & Heq & Hs').
    exists s'. split; [exact Heq|].
    assert (Hk : ∀ k, k ∈ orderK (keysFor s val) ↔ R k val).
    { intros k. rewrite orderK_perm, elem_of_elements. apply Hs. }
    eapply index_ext; [| |exact Hs']; intros k v; cbn; rewrite Hk; naive_solver.
Qed.

Lemma init_index : index init (λ _ _, False) (λ _ _, False).
Proof.
  unfold index, no_empty, keysFor, valuesFor. cbn.
  split_ands; intros; rewrite !lookup_empty; set_solver.
Qed.

(** No sequence of operations on a [TwoWaySetMap] raises, whatever the
    order in which Python iterates its sets: the map and its reverse index
    always hold the same relation, the one obtained by applying the
    operations to a set of pairs, and [hasVal] is exact. *)
Theorem operations_refine_relation (ops : list op) :
  ∃ s, forM_ exec ops init = (Ret tt, s) ∧
    let R := fold_left (λ R o, denote o R) ops (λ _ _, False) in
    (∀ k v, v ∈ valuesFor s k ↔ R k v) ∧
    (∀ k v, k ∈ keysFor s v ↔ R k v) ∧
    (∀ v, hasVal s v = true ↔ ∃ k, R k v).
Proof.
  assert (Hrun : ∀ ops s R, index s R R → ∃ s', forM_ exec ops s = (Ret tt, s') ∧
    index s' (fold_left (λ R o, denote o R) ops R)
             (fold_left (λ R o, denote o R) ops R)).
  { clear ops. induction ops as [|o ops IH]; intros s R Hs; [by exists s|].
    destruct (exec_index o s R Hs) as (s1 & Ho & H1).
    destruct (IH s1 _ H1) as (s2 & Heq & H2). exists s2. split; [|exact H2].
    rewrite forM__cons. by rewrite (bind_step _ _ _ _ _ Ho). }
  destruct (Hrun ops init _ init_index) as (s & Heq & H1 & H2 & H3).
  exists s. split; [exact Heq|]. cbn. split_ands; [exact H1|exact H2|].
  intros v. unfold hasVal. rewrite bool_decide_eq_true.
  setoid_rewrite <- (λ k, H2 k v). unfold keysFor. split.
  - intros [ks Hks]. rewrite Hks. cbn.
    destruct (set_choose_or_empty ks) as [[k Hk]|He]; [by exists k|].
    apply leibniz_equiv in He. subst. by apply H3 in Hks.
  - intros [k Hk]. destruct (valKeys s !! v); [by eexists|]. set_solver.
Qed.
End map.
End TwoWaySetMap.

Lemma operations_refine_relation_witness :
  ∃ s : TwoWaySetMap.state (K:=nat) (V:=nat),
    (∀ v, TwoWaySetMap.hasVal s v = true ↔
       ∃ k, fold_left (λ R o, TwoWaySetMap.denote o R)
              [TwoWaySetMap.OpAdd 0 1; TwoWaySetMap.OpSet 2 {[ 1; 3 ]};
               TwoWaySetMap.OpDropValue 1] (λ _ _, False) k v).
Proof.
  destruct (TwoWaySetMap.operations_refine_relation elements elements
    (λ s, reflexivity _) (λ s, reflexivity _)
    [TwoWaySetMap.OpAdd 0 1; TwoWaySetMap.OpSet 2 {[ 1; 3 ]};
     TwoWaySetMap.OpDropValue 1]) as (s & _ & _ & _ & H).
  exists s. exact H.
Defined.

(** ** MapWithIndex *)

Module MapWithIndex.
Section map.
Context {K V : Type} `{Countable K, Countable V}.
Context (orderK : gset K → list K).

Record state := State {
  keyVal : gmap K V;
  valKeys : gmap V (gset K) }.

Definition init : state := State ∅ ∅.

Definition keysFor (s : state) (val : V) : gset K := default ∅ (valKeys s !! val).
Definition hasKey (s : state) (key : K) : bool := bool_decide (is_Some (keyVal s !! key)).
Definition hasVal (s : state) (val : V) : bool := bool_decide (is_Some (valKeys s !! val)).
Definition len (s : state) : nat := size (keyVal s).

(** [curSet] is the set inside [valKeys]: discarding from it changes the
    dict. *)
Definition dropKey (key : K) : M state unit := λ s,
  match keyVal s !! key with
  | None => (Ret tt, s)
  | Some val =>
      match valKeys s !! val with
      | None => (Raise KeyError, s)
      | Some curSet =>
          let cur := curSet ∖ {[ key ]} in
          (Ret tt, State (delete key (keyVal s))
             (if bool_decide (cur = ∅) then delete val (valKeys s)
              else <[val := cur]> (valKeys s)))
      end
  end.

Definition setitem (key : K) (val : V) : M state unit :=
  s ← get;
  when (hasKey s key) (dropKey key) ;;
  modify (λ s, State (<[key := val]> (keyVal s)) (valKeys s)) ;;
  modify (λ s, State (keyVal s)
    match valKeys s !! val with
    | None => <[val := {[ key ]}]> (valKeys s)
    | Some ks => <[val := {[ key ]} ∪ ks]> (valKeys s)
    end).

Definition getitem (key : K) : M state V := λ s,
  (of_option KeyError (keyVal s !! key), s).
Definition delitem (key : K) : M state unit := dropKey key.

Definition dropValue (value : V) : M state unit :=
  s ← get; forM_ dropKey (orderK (keysFor s value)).

(** The index of [keyVal]. *)
Definition wf (s : state) : Prop :=
  (∀ k v, k ∈ keysFor s v ↔ keyVal s !! k = Some v) ∧
  DefaultDict.no_empty (valKeys s).

Lemma init_wf : wf init.
Proof.
  split; [intros k v; unfold keysFor; cbn; rewrite !lookup_empty; set_solver|].
  intros v. cbn. by rewrite lookup_empty.
Qed.

Lemma dropKey_wf key s :
  wf s → ∃ s', dropKey key s = (Ret tt, s') ∧ wf s' ∧
    keyVal s' = delete key (keyVal s).
Proof.
  intros [H1 H2]. unfold dropKey. destruct (keyVal s !! key) as [val|] eqn:Hk;
    [|exists s; split_ands; [done|by split|by rewrite delete_id]].
  assert (Hin : key ∈ keysFor s val) by by apply H1. unfold keysFor in Hin.
  destruct (valKeys s !! val) as [ks|] eqn:Hv; [cbn in Hin|set_solver].
  eexists. split; [reflexivity|]. split; [|done]. split; cbn.
  - intros k v. unfold keysFor; cbn. rewrite lookup_delete. specialize (H1 k v).
    unfold keysFor in H1. destruct (decide (val = v)) as [->|Hne].
    + rewrite Hv in H1. cbn in H1.
      assert (Hd : default ∅ ((if bool_decide (ks ∖ {[key]} = ∅) then delete v (valKeys s)
         else <[v:=ks ∖ {[key]}]> (valKeys s)) !! v) = ks ∖ {[key]}).
      { case_bool_decide as He; [by rewrite lookup_delete_eq, He|].
        by rewrite lookup_insert_eq. }
      rewrite Hd, elem_of_difference, elem_of_singleton, H1.
      destruct (decide (key = k)); intuition congruence.
    + assert (Hd : (if bool_decide (ks ∖ {[key]} = ∅) then delete val (valKeys s)
         else <[val:=ks ∖ {[key]}]> (valKeys s)) !! v = valKeys s !! v).
      { case_bool_decide; [by rewrite lookup_delete_ne|by rewrite lookup_insert_ne]. }
      rewrite Hd, H1. destruct (decide (key = k)); [subst; intuition congruence|done].
  - intros v. case_bool_decide as He.
    + rewrite lookup_delete. case_decide; [done|apply H2].
    + rewrite lookup_insert. case_decide; [congruence|apply H2].
Qed.

Lemma setitem_wf key val s :
  wf s → ∃ s', setitem key val s = (Ret tt, s') ∧ wf s' ∧
    keyVal s' = <[key := val]> (keyVal s).
Proof.
  intros Hs. unfold setitem.
  assert (Hd : ∃ s1, when (hasKey s key) (dropKey key) s = (Ret tt, s1) ∧ wf s1 ∧
    keyVal s1 = delete key (keyVal s)).
  { unfold hasKey. case_bool_decide as Hk; [by apply dropKey_wf|].
    exists s. split_ands; [done..|]. rewrite delete_id; [done|].
    by apply eq_None_not_Some. }
  destruct Hd as (s1 & Hw & [H1 H2] & Hkv). unfold mbind, M_bind. cbn [get].
  rewrite Hw. eexists. split; [reflexivity|]. cbn [modify keyVal valKeys].
  split; [|by rewrite Hkv, insert_delete_eq]. split; cbn.
  - intros k v. unfold keysFor; cbn. specialize (H1 k v) as H1k. unfold keysFor in H1k.
    rewrite lookup_insert. rewrite Hkv, lookup_delete in H1k.
    destruct (valKeys s1 !! val) as [ks|] eqn:Hv; rewrite lookup_insert;
      destruct (decide (val = v)) as [->|Hne]; rewrite ?Hv in H1k; cbn in *;
      destruct (decide (key = k)) as [->|Hk]; rewrite ?Hkv, ?lookup_delete_ne by done;
      set_solver.
  - intros v. destruct (valKeys s1 !! val) as [ks|]; rewrite lookup_insert;
      case_decide; try apply H2; intros [= Hx]; set_solver.
Qed.

(** *** Operations *)

Inductive op :=
| OpSet (key : K) (val : V)
| OpDel (key : K)
| OpDropValue (val : V).

Definition exec (o : op) : M state unit :=
  match o with
  | OpSet k v => setitem k v
  | OpDel k => delitem k
  | OpDropValue v => dropValue v
  end.

Definition denote (o : op) (m : gmap K V) : gmap K V :=
  match o with
  | OpSet k v => <[k := v]> m
  | OpDel k => delete k m
  | OpDropValue v => filter (λ kv, kv.2 ≠ v) m
  end.

Hypothesis orderK_perm : ∀ s, orderK s ≡ₚ elements s.

Lemma dropKeys_wf l s :
  wf s → ∃ s', forM_ dropKey l s = (Ret tt, s') ∧ wf s' ∧
    ∀ k, keyVal s' !! k = if decide (k ∈ l) then None else keyVal s !! k.
Proof.
  revert s. induction l as [|k0 l IH]; intros s Hs; [by exists s|].
  destruct (dropKey_wf k0 s Hs) as (s1 & Hd & Hs1 & Hk1).
  destruct (IH s1 Hs1) as (s2 & Heq & Hs2 & Hk2). exists s2.
  rewrite forM__cons, (bind_step _ _ _ _ _ Hd). split_ands; [done..|].
  intros k. rewrite Hk2, Hk1, lookup_delete.
  repeat case_decide; set_solver.
Qed.

Lemma exec_wf o s :
  wf s → ∃ s', exec o s = (Ret tt, s') ∧ wf s' ∧ keyVal s' = denote o (keyVal s).
Proof.
  intros Hs. destruct o as [k v|k|v]; cbn [exec denote].
  - by apply setitem_wf.
  - by apply dropKey_wf.
  - destruct (dropKeys_wf (orderK (keysFor s v)) s Hs) as (s' & Heq & Hs' & Hk).
    exists s'. split_ands; [exact Heq|done|]. apply map_eq. intros k. rewrite Hk.
    pose proof (proj1 Hs k v) as Hin.
    destruct (keyVal s !! k) as [w|] eqn:Hkv.
    + case_decide as Hd; rewrite orderK_perm, elem_of_elements, Hin in Hd.
      * symmetry. apply map_lookup_filter_None. right. intros x Hx. naive_solver.
      * symmetry. apply map_lookup_filter_Some. naive_solver.
    + symmetry. rewrite map_lookup_filter_None_2 by (by left). by case_decide.
Qed.

(** No sequence of operations on a [MapWithIndex] raises, whatever the
    iteration order of sets: the map holds the same keys and values as a
    plain dict, [keysFor] is its inverse image and [hasVal] tells whether
    some key has the value. *)
Theorem operations_refine_dict (ops : list op) :
  ∃ s, forM_ exec ops init = (Ret tt, s) ∧
    keyVal s = fold_left (λ m o, denote o m) ops ∅ ∧
    (∀ k v, k ∈ keysFor s v ↔ keyVal s !! k = Some v) ∧
    (∀ v, hasVal s v = true ↔ ∃ k, keyVal s !! k = Some v).
Proof.
  assert (Hrun : ∀ ops s, wf s → ∃ s', forM_ exec ops s = (Ret tt, s') ∧ wf s' ∧
    keyVal s' = fold_left (λ m o, denote o m) ops (keyVal s)).
  { clear ops. induction ops as [|o ops IH]; intros s Hs; [by exists s|].
    destruct (exec_wf o s Hs) as (s1 & Ho & H1 & Hk1).
    destruct (IH s1 H1) as (s2 & Heq & H2 & Hk2). exists s2.
    rewrite forM__cons, (bind_step _ _ _ _ _ Ho), Hk2, Hk1. done. }
  destruct (Hrun ops init init_wf) as (s & Heq & [H1 H2] & Hk).
  exists s. split_ands; [exact Heq|exact Hk|exact H1|].
  intros v. unfold hasVal. rewrite bool_decide_eq_true.
  setoid_rewrite <- (λ k, H1 k v). unfold keysFor. split.
  - intros [ks Hks]. rewrite Hks. cbn.
    destruct (set_choose_or_empty ks) as [[k Hin]|He]; [by exists k|].
    apply leibniz_equiv in He. subst. by apply H2 in Hks.
  - intros [k Hin]. destruct (valKeys s !! v); [by eexists|]. set_solver.
Qed.
End map.
End MapWithIndex.

Lemma operations_refine_dict_witness :
  ∃ s : MapWithIndex.state (K:=nat) (V:=nat),
    MapWithIndex.keyVal s = {[ 2 := 5 ]} ∧
    ∀ k v, k ∈ MapWithIndex.keysFor s v ↔ MapWithIndex.keyVal s !! k = Some v.
Proof.
  destruct (MapWithIndex.operations_refine_dict elements (λ s, reflexivity _)
    [MapWithIndex.OpSet 1 4; MapWithIndex.OpSet 1 5; MapWithIndex.OpSet 2 5;
     MapWithIndex.OpSet 3 6; MapWithIndex.OpDel 1; MapWithIndex.OpDropValue 6])
    as (s & _ & Hk & H & _).
  exists s. split; [rewrite Hk; vm_compute; reflexivity|exact H].
Defined.

(** ** ThreadSafeDict

    Every method runs under the dict's lock, so a concurrent run is a sequence
    of these operations. A value is an [option], [None] being Python's. *)

Module ThreadSafeDict.
Section map.
Context {K V : Type} `{Countable K}.
Abbreviation vals := (gmap K (option V)).

Definition getitem (index : K) : M vals (option V) := λ d,
  (of_option KeyError (d !! index), d).
Definition setitem (index : K) (val : option V) : M vals unit :=
  modify (insert index val).

(** [updateItem]; when [f] raises, nothing is stored. *)
Definition updateItem (index : K) (f : option V → res (option V))
    (noneisdel : bool) : M vals unit :=
  d ← get;
  v ← lift (f (match d !! index with Some v => v | None => None end));
  modify (insert index v) ;;
  d ← get;
  when (noneisdel && match d !! index with Some None => true | _ => false end)
    (modify (delete index)).

Definition update (foreignDict : vals) : M vals unit := modify (union foreignDict).
Definition has_key (index : K) : M vals bool := λ d,
  (Ret (bool_decide (is_Some (d !! index))), d).
Definition delitem (key : K) : M vals unit := λ d,
  match d !! key with
  | Some _ => (Ret tt, delete key d)
  | None => (Raise KeyError, d)
  end.
Definition len : M vals nat := λ d, (Ret (size d), d).
Definition dictCopy : M vals vals := get.
End map.
End ThreadSafeDict.
