(* ===== verification/PyStrings.v ===== *)
(** * Strings and integers of the Python standard library

    [base64], [str] and [int] as the modelled code uses them, with their round
    trips. *)
From Stdlib Require Import Ascii String Lia ZifyBool ZifyNat ZifyN.
From stdpp Require Import base gmap sets list strings fin_maps.
From S2P Require Import Prelude.

(** ** base64.b64encode

    The Standard alphabet with padding; a [str] is its list of bytes. *)

Module Base64.

Definition alphabet : string :=
  "ABCDEFGHIJKLMNOPQRSTUVWXYZabcdefghijklmnopqrstuvwxyz0123456789+/".

Definition byte_of (c : ascii) : Z := Z.of_nat (nat_of_ascii c).
Definition char_of (z : Z) : ascii := ascii_of_nat (Z.to_nat z).

Definition digit (i : Z) : ascii :=
  default zero (String.get (Z.to_nat i) alphabet).

(** The 24 bits of three bytes as four digits. *)
Fixpoint b64encode (s : string) : string :=
  match s with
  | EmptyString => EmptyString
  | String a EmptyString =>
      let x := byte_of a in
      String (digit (x / 4)) (String (digit ((x mod 4) * 16))
        (String "=" (String "=" EmptyString)))
  | String a (String b EmptyString) =>
      let x := byte_of a in let y := byte_of b in
      String (digit (x / 4)) (String (digit ((x mod 4) * 16 + y / 16))
        (String (digit ((y mod 16) * 4)) (String "=" EmptyString)))
  | String a (String b (String c s)) =>
      let x := byte_of a in let y := byte_of b in let z := byte_of c in
      String (digit (x / 4)) (String (digit ((x mod 4) * 16 + y / 16))
        (String (digit ((y mod 16) * 4 + z / 64)) (String (digit (z mod 64))
          (b64encode s))))
  end.

(** Decoding, to state that nothing is lost. *)
Definition value_of (c : ascii) : Z :=
  match String.index 0 (String c EmptyString) alphabet with
  | Some i => Z.of_nat i
  | None => 0
  end.

Fixpoint b64decode (s : string) : string :=
  match s with
  | String a (String b (String c (String d s))) =>
      let x := value_of a in let y := value_of b in
      let z := value_of c in let w := value_of d in
      String (char_of (x * 4 + y / 16))
        (if Ascii.eqb c "=" then EmptyString
         else String (char_of ((y mod 16) * 16 + z / 4))
           (if Ascii.eqb d "=" then EmptyString
            else String (char_of ((z mod 4) * 64 + w)) (b64decode s)))
  | _ => EmptyString
  end.

Lemma byte_range c : (0 ≤ byte_of c < 256)%Z.
Proof. unfold byte_of. pose proof (nat_ascii_bounded c). lia. Qed.

Lemma char_of_byte c : char_of (byte_of c) = c.
Proof. unfold char_of, byte_of. by rewrite Nat2Z.id, ascii_nat_embedding. Qed.

Lemma digits_ok :
  forallb (λ i, Z.eqb (value_of (digit (Z.of_nat i))) (Z.of_nat i) &&
                negb (Ascii.eqb (digit (Z.of_nat i)) "=")) (seq 0 64) = true.
Proof. vm_compute. reflexivity. Qed.

Lemma value_of_digit i :
  (0 ≤ i < 64)%Z → value_of (digit i) = i ∧ Ascii.eqb (digit i) "=" = false.
Proof.
  intros Hi. pose proof (proj1 (forallb_forall _ _) digits_ok (Z.to_nat i)) as H.
  cbv beta in H. rewrite Z2Nat.id in H by lia.
  specialize (H ltac:(apply in_seq; lia)).
  apply andb_true_iff in H as [H1 H2]. split; [lia|]. by apply negb_true_iff.
Qed.

Lemma eq_char : Ascii.eqb "=" "=" = true.
Proof. reflexivity. Qed.

Ltac b64_digit :=
  rewrite ?(fun i H => proj1 (value_of_digit i H)), ?(fun i H => proj2 (value_of_digit i H)), ?eq_char.

Lemma first_char x y :
  (0 ≤ x < 256)%Z → (0 ≤ y < 256)%Z → (x / 4 * 4 + (x mod 4 * 16 + y / 16) / 16 = x)%Z.
Proof. intros. Z.to_euclidean_division_equations. lia. Qed.

Lemma second_char x y z :
  (0 ≤ x < 256)%Z → (0 ≤ y < 256)%Z → (0 ≤ z < 256)%Z →
  ((x mod 4 * 16 + y / 16) mod 16 * 16 + (y mod 16 * 4 + z / 64) / 4 = y)%Z.
Proof. intros. Z.to_euclidean_division_equations. lia. Qed.

Lemma third_char y z :
  (0 ≤ y < 256)%Z → (0 ≤ z < 256)%Z →
  ((y mod 16 * 4 + z / 64) mod 4 * 64 + z mod 64 = z)%Z.
Proof. intros. Z.to_euclidean_division_equations. lia. Qed.

Lemma digit_ranges x y z :
  (0 ≤ x < 256)%Z → (0 ≤ y < 256)%Z → (0 ≤ z < 256)%Z →
  (0 ≤ x / 4 < 64)%Z ∧ (0 ≤ x mod 4 * 16 + y / 16 < 64)%Z ∧
  (0 ≤ y mod 16 * 4 + z / 64 < 64)%Z ∧ (0 ≤ z mod 64 < 64)%Z.
Proof. intros. split_ands; Z.to_euclidean_division_equations; lia. Qed.

Lemma b64decode_four a b c d s :
  (0 ≤ a < 64)%Z → (0 ≤ b < 64)%Z → (0 ≤ c < 64)%Z → (0 ≤ d < 64)%Z →
  b64decode (String (digit a) (String (digit b) (String (digit c) (String (digit d) s)))) =
  String (char_of (a * 4 + b / 16)) (String (char_of (b mod 16 * 16 + c / 4))
    (String (char_of (c mod 4 * 64 + d)) (b64decode s))).
Proof.
  intros Ha Hb Hc Hd.
  destruct (value_of_digit a Ha) as [Va _], (value_of_digit b Hb) as [Vb _],
    (value_of_digit c Hc) as [Vc Ec], (value_of_digit d Hd) as [Vd Ed].
  cbn [b64decode]. by rewrite Va, Vb, Vc, Vd, Ec, Ed.
Qed.

Lemma b64_roundtrip s : b64decode (b64encode s) = s.
Proof.
  remember (String.length s) as n eqn:Hn. revert s Hn.
  induction (lt_wf n) as [n _ IH]; intros s ->.
  destruct s as [|a [|b [|c s]]]; [done| | |].
  - pose proof (byte_range a) as Ha. pose proof (digit_ranges (byte_of a) 0 0 Ha
      ltac:(lia) ltac:(lia)) as (H1 & H2 & _).
    rewrite Z.div_0_l, Z.add_0_r in H2 by lia.
    cbn [b64encode b64decode].
    rewrite (proj1 (value_of_digit _ H1)), (proj1 (value_of_digit _ H2)), eq_char.
    pose proof (first_char (byte_of a) 0 Ha ltac:(lia)) as Hc.
    rewrite Z.div_0_l, Z.add_0_r in Hc by lia. by rewrite Hc, char_of_byte.
  - pose proof (byte_range a) as Ha. pose proof (byte_range b) as Hb.
    pose proof (digit_ranges (byte_of a) (byte_of b) 0 Ha Hb ltac:(lia))
      as (H1 & H2 & H3 & _). rewrite Z.div_0_l, Z.add_0_r in H3 by lia.
    cbn [b64encode b64decode].
    rewrite (proj1 (value_of_digit _ H1)), (proj1 (value_of_digit _ H2)),
      (proj1 (value_of_digit _ H3)), (proj2 (value_of_digit _ H3)), eq_char.
    pose proof (second_char (byte_of a) (byte_of b) 0 Ha Hb ltac:(lia)) as Hc.
    rewrite Z.div_0_l, Z.add_0_r in Hc by lia.
    by rewrite first_char, Hc, !char_of_byte by done.
  - pose proof (byte_range a) as Ha. pose proof (byte_range b) as Hb.
    pose proof (byte_range c) as Hc.
    destruct (digit_ranges _ _ _ Ha Hb Hc) as (H1 & H2 & H3 & H4).
    change (b64encode (String a (String b (String c s)))) with
      (String (digit (byte_of a / 4)) (String (digit (byte_of a mod 4 * 16 + byte_of b / 16))
        (String (digit (byte_of b mod 16 * 4 + byte_of c / 64))
          (String (digit (byte_of c mod 64)) (b64encode s))))).
    rewrite b64decode_four, first_char, second_char, third_char, !char_of_byte by done.
    by rewrite (IH (String.length s)) by (cbn; lia).
Qed.

End Base64.

(** ** Python strings and integers *)

Module PyStr.

Definition is_digit (c : ascii) : bool :=
  let n := nat_of_ascii c in (48 <=? n)%nat && (n <=? 57)%nat.
Definition is_space (c : ascii) : bool :=
  let n := nat_of_ascii c in ((9 <=? n)%nat && (n <=? 13)%nat) || (n =? 32)%nat.
Definition digit_val (c : ascii) : N := N.of_nat (nat_of_ascii c - 48).
Definition digit_chr (d : N) : ascii := ascii_of_nat (48 + N.to_nat d).

(** [str(n)] for [n >= 0]. *)
Fixpoint digits (fuel : nat) (n : N) (acc : string) : string :=
  match fuel with
  | O => acc
  | S fuel =>
      if (n <? 10)%N then String (digit_chr n) acc
      else digits fuel (n / 10) (String (digit_chr (n mod 10)) acc)
  end.

Definition str_N (n : N) : string := digits (S (N.size_nat n)) n EmptyString.

(** [str(z)]. *)
Definition str (z : Z) : string :=
  if (z <? 0)%Z then String "-" (str_N (Z.to_N (- z))) else str_N (Z.to_N z).

Fixpoint all_space (s : string) : bool :=
  match s with EmptyString => true | String c s => is_space c && all_space s end.

(** The digits of [s] after the value [v], then only spaces. *)
Fixpoint parse_go (s : string) (v : N) : option N :=
  match s with
  | EmptyString => Some v
  | String c s' =>
      if is_digit c then parse_go s' (v * 10 + digit_val c)
      else if all_space s then Some v else None
  end.

Definition parse_digits (s : string) : option N :=
  match s with
  | String c s' => if is_digit c then parse_go s 0 else None
  | EmptyString => None
  end.

Fixpoint lstrip (s : string) : string :=
  match s with
  | String c s' => if is_space c then lstrip s' else s
  | EmptyString => EmptyString
  end.

(** [int(s)] for a [str]. *)
Definition int (s : string) : res Z :=
  of_option ValueError
    match lstrip s with
    | String c s' =>
        if Ascii.eqb c "-" then (λ n, (- Z.of_N n)%Z) <$> parse_digits s'
        else if Ascii.eqb c "+" then Z.of_N <$> parse_digits s'
        else Z.of_N <$> parse_digits (String c s')
    | EmptyString => None
    end.

(** [s[n:]] for [n >= 0]. *)
Fixpoint drop (n : nat) (s : string) : string :=
  match n, s with
  | S n, String _ s => drop n s
  | _, _ => s
  end.

(** [s[low:high]]; a negative index counts from the end. *)
Definition clamp (i len : Z) : Z :=
  Z.max 0 (Z.min len (if (i <? 0)%Z then i + len else i)).
Definition slice (s : string) (low high : Z) : string :=
  let len := Z.of_nat (String.length s) in
  let lo := clamp low len in
  String.substring (Z.to_nat lo) (Z.to_nat (clamp high len - lo)) s.

Lemma digit_chr_ok d :
  (d < 10)%N → is_digit (digit_chr d) = true ∧ digit_val (digit_chr d) = d.
Proof.
  intros Hd. unfold digit_chr, is_digit, digit_val.
  rewrite !nat_ascii_embedding by lia. split; lia.
Qed.

Lemma parse_go_digits fuel n acc :
  (n < 10 ^ N.of_nat fuel)%N → parse_go (digits fuel n acc) 0 = parse_go acc n.
Proof.
  revert n acc. induction fuel as [|fuel IH]; intros n acc Hn.
  - cbn in Hn. assert (n = 0%N) as -> by lia. done.
  - cbn [digits]. destruct (N.ltb_spec n 10) as [Hlt|Hge].
    + cbn [parse_go]. destruct (digit_chr_ok n Hlt) as [-> ->]. f_equal.
    + rewrite IH.
      * cbn [parse_go]. assert (n mod 10 < 10)%N as Hm by (apply N.mod_lt; lia).
        destruct (digit_chr_ok _ Hm) as [-> ->]. f_equal.
        pose proof (N.div_mod n 10). lia.
      * rewrite Nat2N.inj_succ, N.pow_succ_r' in Hn.
        apply N.Div0.div_lt_upper_bound. lia.
Qed.

Lemma digits_head fuel n acc :
  ∃ c s, digits (S fuel) n acc = String c s ∧
    (is_digit c = true ∨ ∃ c' s', acc = String c' s' ∧ fuel = 0).
Proof.
  revert n acc. induction fuel as [|fuel IH]; intros n acc.
  - cbn. destruct (N.ltb_spec n 10) as [Hlt|Hge].
    + do 2 eexists. split; [reflexivity|]. left. by apply digit_chr_ok.
    + do 2 eexists. split; [reflexivity|]. left. apply digit_chr_ok, N.mod_lt. lia.
  - cbn [digits]. destruct (N.ltb_spec n 10) as [Hlt|Hge].
    + do 2 eexists. split; [reflexivity|]. left. by apply digit_chr_ok.
    + destruct (IH (n / 10)%N (String (digit_chr (n mod 10)) acc)) as (c & s & Heq & Hc).
      cbn [digits] in Heq. exists c, s. split; [exact Heq|].
      destruct Hc as [?|(c' & s' & [= <- <-] & ->)]; [by left|].
      left. cbn in Heq. revert Heq. destruct (N.ltb_spec (n / 10) 10) as [Hlt|Hge']; intros [= <- _].
      * by apply digit_chr_ok.
      * apply digit_chr_ok, N.mod_lt. lia.
Qed.

Lemma pow2_le_pow10 k : (2 ^ k ≤ 10 ^ k)%N.
Proof. apply N.pow_le_mono_l. lia. Qed.

Lemma str_N_bound n : (n < 10 ^ N.of_nat (S (N.size_nat n)))%N.
Proof.
  assert (n < 2 ^ N.of_nat (N.size_nat n))%N.
  { destruct n as [|p]; [cbn; lia|].
    assert (Hp : N.of_nat (Pos.size_nat p) = N.pos (Pos.size p)).
    { induction p; cbn [Pos.size_nat Pos.size]; lia. }
    pose proof (N.size_gt (N.pos p)) as Hgt. cbn [N.size N.size_nat] in *.
    by rewrite Hp. }
  rewrite Nat2N.inj_succ, N.pow_succ_r'.
  pose proof (pow2_le_pow10 (N.of_nat (N.size_nat n))). lia.
Qed.

Lemma digit_not_space c : is_digit c = true → is_space c = false.
Proof. unfold is_digit, is_space. lia. Qed.

Lemma digit_not_sign c : is_digit c = true → Ascii.eqb c "-" = false ∧ Ascii.eqb c "+" = false.
Proof.
  intros Hc. split; apply Ascii.eqb_neq; intros ->; by vm_compute in Hc.
Qed.

(** [int(str(z)) == z] for natural numbers. *)
Lemma int_str z : (0 ≤ z)%Z → int (str z) = Ret z.
Proof.
  intros Hz. unfold str. replace (z <? 0)%Z with false by lia.
  set (n := Z.to_N z). unfold int, str_N.
  destruct (digits_head (N.size_nat n) n EmptyString) as (c & s & Heq & Hc).
  rewrite Heq. destruct Hc as [Hc|(? & ? & [=] & _)].
  cbn [lstrip]. rewrite (digit_not_space _ Hc).
  destruct (digit_not_sign _ Hc) as [-> ->]. cbn [parse_digits]. rewrite Hc.
  rewrite <- Heq, parse_go_digits by apply str_N_bound. cbn. f_equal. lia.
Qed.

Lemma str_inj z1 z2 : (0 ≤ z1)%Z → (0 ≤ z2)%Z → str z1 = str z2 → z1 = z2.
Proof. intros H1 H2 Heq%(f_equal int). rewrite !int_str in Heq by done. congruence. Qed.

Lemma drop_app (p s : string) : drop (String.length p) (p ++ s)%string = s.
Proof. induction p; cbn; auto. Qed.

Lemma prefix_app (p s : string) : String.prefix p (p ++ s)%string = true.
Proof.
  induction p as [|c p IH]; [by destruct s|].
  change (match ascii_dec c c with
          | left _ => String.prefix p (p ++ s)%string | right _ => false end = true).
  destruct (ascii_dec c c); [exact IH|congruence].
Qed.
End PyStr.
