(* ===== verification/TypeDescription.v ===== *)
(** * Descriptions of converted objects ([pyfora/TypeDescription.py])

    The named tuples that describe Python objects to the server, their
    conversion to dictionaries, and back. *)
From stdpp Require Import base gmap sets list strings fin_maps.
From S2P Require Import Prelude.

(** ** Python values that occur in descriptions *)

(** A float is carried by its [repr]; [OtherObject] is any object that the
    module never looks into (a [ComputedValue] argument, for example). *)
Inductive prim :=
| PNone
| PInt (z : Z)
| PFloat (repr : string)
| PStr (s : string)
| PBool (b : bool).

#[export] Instance prim_eq_dec : EqDecision prim.
Proof. solve_decision. Defined.

(** [NamedTuple T vs] is an instance of the class that [type_description(T, ...)]
    returns; [Dict_] lists a mapping's items in iteration order. *)
Inductive pyval :=
| Prim (p : prim)
| PyList (vs : list pyval)
| PyTuple (vs : list pyval)
| Dict_ (items : list (string * pyval))
| NamedTuple (typename : string) (vs : list pyval)
| OtherObject (id : Z).

Abbreviation VStr s := (Prim (PStr s)).
Abbreviation VNone := (Prim PNone).

Definition isPrimitive (v : pyval) : bool :=
  match v with Prim _ => true | _ => false end.

Definition is_list (v : pyval) : bool :=
  match v with PyList _ => true | _ => false end.

(** ** The classes *)

(** [type_description(typename, field_names)] for every class of the module, the
    field [typeName] added last. *)
Definition classes : list (string * list string) :=
  [ ("Tuple", ["memberIds"; "typeName"]);
    ("Dict", ["keyIds"; "valueIds"; "typeName"]);
    ("List", ["memberIds"; "typeName"]);
    ("File", ["path"; "text"; "typeName"]);
    ("FunctionDefinition",
      ["sourceFileId"; "lineNumber"; "freeVariableMemberAccessChainsToId"; "typeName"]);
    ("ClassDefinition",
      ["sourceFileId"; "lineNumber"; "freeVariableMemberAccessChainsToId";
       "baseClassIds"; "typeName"]);
    ("ClassInstanceDescription",
      ["classId"; "classMemberNameToClassMemberId"; "typeName"]);
    ("WithBlockDescription",
      ["freeVariableMemberAccessChainsToId"; "sourceFileId"; "lineNumber"; "typeName"]);
    ("RemotePythonObject", ["computedValueArgument"; "typeName"]);
    ("NamedSingleton", ["singletonName"; "typeName"]);
    ("BuiltinExceptionInstance", ["builtinExceptionTypeName"; "argsId"; "typeName"]);
    ("InstanceMethod", ["instanceId"; "methodName"; "typeName"]);
    ("Unconvertible", ["typeName"]) ].

Definition assoc {A} (k : string) (l : list (string * A)) : option A :=
  snd <$> List.find (λ x, bool_decide (x.1 = k)) l.

Definition fields_of (typename : string) : option (list string) :=
  assoc typename classes.

(** [T.__new__.__defaults__]: [None] for every field but [typeName]. *)
Definition field_default (typename field : string) : pyval :=
  if bool_decide (field = "typeName") then VStr typename else VNone.

(** [T( **value_dict )]: a keyword that is not a field is a [TypeError]. *)
Definition new_kw (typename : string) (fields : list string)
    (value_dict : list (string * pyval)) : res pyval :=
  if forallb (λ kv, bool_decide (kv.1 ∈ fields)) value_dict
  then Ret (NamedTuple typename
         ((λ f, default (field_default typename f) (assoc f value_dict)) <$> fields))
  else Raise TypeError.

(** [T( *values )]: too many values are a [TypeError], the missing ones take
    their defaults. *)
Definition new_args (typename : string) (fields : list string)
    (values : list pyval) : res pyval :=
  if bool_decide (length fields < length values) then Raise TypeError
  else Ret (NamedTuple typename
         (values ++ (field_default typename <$> drop (length values) fields))).

(** [globals()[typeName]], for the names of classes: the module's other globals
    are not type names. *)
Definition class_named (v : pyval) : res (string * list string) :=
  match v with
  | VStr t => fs ← of_option KeyError (fields_of t); Ret (t, fs)
  | PyList _ | Dict_ _ => Raise TypeError
  | _ => Raise KeyError
  end.

Definition fromDict (value_dict : list (string * pyval)) : res pyval :=
  t ← of_option KeyError (assoc "typeName" value_dict);
  '(t, fs) ← class_named t;
  new_kw t fs value_dict.

Definition fromList (values : list pyval) : res pyval :=
  t ← of_option IndexError (last values);
  '(t, fs) ← class_named t;
  new_args t fs values.

(** [object_definition._asdict()]. *)
Definition asdict (v : pyval) : res pyval :=
  match v with
  | NamedTuple t vs =>
      fs ← of_option AttributeError (fields_of t); Ret (Dict_ (zip fs vs))
  | _ => Raise AttributeError
  end.

Definition serialize (object_definition : pyval) : res pyval :=
  if isPrimitive object_definition || is_list object_definition
  then Ret object_definition
  else asdict object_definition.

(** [fromList] is reached by sequences other than lists only: a named tuple is
    one, and so is a tuple. *)
Definition deserialize (value : pyval) : res pyval :=
  if isPrimitive value || is_list value then Ret value
  else
    match value with
    | Dict_ items => fromDict items
    | PyTuple vs | NamedTuple _ vs => fromList vs
    | _ => Raise TypeError
    end.

(** ** Round trips *)

(** An instance of a class of the module: a value per field, the last one being
    the class's own name. *)
Definition described (v : pyval) : Prop :=
  match v with
  | Prim _ | PyList _ => True
  | NamedTuple t vs => ∃ fs vs', fields_of t = Some fs ∧ vs = vs' ++ [VStr t] ∧
                         length vs = length fs
  | _ => False
  end.

Definition well_formed (fs : list string) : Prop :=
  NoDup fs ∧ last fs = Some "typeName".

Lemma fields_of_ok t fs : fields_of t = Some fs → well_formed fs.
Proof.
  unfold fields_of, assoc. intros Hf.
  assert (Hall : Forall (λ c, well_formed c.2) classes).
  { unfold classes, well_formed. repeat constructor; cbn;
      try (intros Hin; repeat (apply elem_of_cons in Hin as [Hin|Hin]; [done|]);
           by apply not_elem_of_nil in Hin). }
  destruct (List.find _ classes) as [[t' fs']|] eqn:Hfind; [|done].
  cbn in Hf. simplify_eq. apply find_some in Hfind as [Hin _].
  rewrite Forall_forall in Hall. by apply (Hall (t', fs)), list_elem_of_In.
Qed.

Lemma assoc_zip {A} (fs : list string) (vs : list A) i f v :
  NoDup fs → fs !! i = Some f → vs !! i = Some v → assoc f (zip fs vs) = Some v.
Proof.
  intros Hnd. revert vs i. unfold assoc.
  induction Hnd as [|f0 fs Hf0 Hnd IH]; intros [|v0 vs] [|i] Hf Hv; cbn in *; simplify_eq.
  - by rewrite bool_decide_eq_true_2.
  - rewrite bool_decide_eq_false_2; [by apply (IH vs i)|].
    intros ->. apply Hf0. by eapply list_elem_of_lookup_2.
Qed.

Lemma assoc_zip_map {A} (g : string → A) fs vs :
  NoDup fs → length vs = length fs →
  (λ f, default (g f) (assoc f (zip fs vs))) <$> fs = vs.
Proof.
  intros Hnd Hlen. apply list_eq. intros i. rewrite list_lookup_fmap.
  destruct (fs !! i) as [f|] eqn:Hf; cbn.
  - assert (Hi : i < length vs) by (rewrite Hlen; by eapply lookup_lt_Some).
    apply lookup_lt_is_Some in Hi as [v Hv].
    by rewrite (assoc_zip _ _ _ _ _ Hnd Hf Hv).
  - symmetry. apply lookup_ge_None. apply lookup_ge_None in Hf. lia.
Qed.

Lemma fromDict_asdict t fs vs :
  fields_of t = Some fs → length vs = length fs → last vs = Some (VStr t) →
  fromDict (zip fs vs) = Ret (NamedTuple t vs).
Proof.
  intros Hfs Hlen Hlast. destruct (fields_of_ok t fs Hfs) as [Hnd Htn].
  rewrite last_lookup in Htn. rewrite last_lookup, Hlen in Hlast.
  unfold fromDict. rewrite (assoc_zip _ _ _ _ _ Hnd Htn Hlast).
  cbn [of_option mbind res_bind class_named]. rewrite Hfs.
  cbn [of_option mbind res_bind]. unfold new_kw.
  rewrite assoc_zip_map by done.
  assert (Hall : forallb (λ kv : string * pyval, bool_decide (kv.1 ∈ fs)) (zip fs vs) = true)
    by (apply forallb_forall; intros [f v] Hin; apply bool_decide_eq_true;
        by apply in_combine_l, list_elem_of_In in Hin).
  by rewrite Hall.
Qed.

Lemma serialize_described v :
  described v → ∃ w, serialize v = Ret w ∧ deserialize w = Ret v.
Proof.
  destruct v as [p|l|l|d|t vs|o]; try done; [by eexists..|].
  intros (fs & vs' & Hfs & -> & Hlen). unfold serialize, asdict. cbn [isPrimitive is_list orb]. rewrite Hfs.
  eexists. split; [reflexivity|]. apply fromDict_asdict; [done..|]. by rewrite last_snoc.
Qed.

(** [deserialize] undoes [serialize] on every description that pyfora
    builds: primitives, lists of primitives, and instances of the module's
    classes, whose type is found again from the field [typeName]. The sequence
    form of an instance deserialises to it as well. *)
Theorem serialize_roundtrip v :
  described v →
  (d ← serialize v; deserialize d) = Ret v ∧
  match v with NamedTuple _ vs => deserialize (PyTuple vs) = Ret v | _ => True end.
Proof.
  intros Hv. split.
  { destruct (serialize_described v Hv) as (w & -> & Hw). exact Hw. }
  destruct v as [p|l|l|d|t vs|o]; try done. destruct Hv as (fs & vs' & Hfs & -> & Hlen).
  unfold deserialize, fromList. cbn [isPrimitive is_list orb].
  rewrite last_snoc. cbn [of_option mbind res_bind class_named]. rewrite Hfs.
  cbn [of_option mbind res_bind]. unfold new_args. rewrite bool_decide_eq_false_2 by lia.
  rewrite drop_ge by lia. by rewrite app_nil_r.
Qed.

Lemma serialize_roundtrip_witness :
  described (NamedTuple "Dict" [PyList [Prim (PInt 1)]; PyList [Prim (PInt 2)]; VStr "Dict"]) ∧
  deserialize (Dict_ [("keyIds", PyList [Prim (PInt 1)]);
                      ("valueIds", PyList [Prim (PInt 2)]);
                      ("typeName", VStr "Dict")])
  = Ret (NamedTuple "Dict" [PyList [Prim (PInt 1)]; PyList [Prim (PInt 2)]; VStr "Dict"]).
Proof.
  assert (Hd : described (NamedTuple "Dict"
    [PyList [Prim (PInt 1)]; PyList [Prim (PInt 2)]; VStr "Dict"])).
  { exists ["keyIds"; "valueIds"; "typeName"].
    exists [PyList [Prim (PInt 1)]; PyList [Prim (PInt 2)]]. by split_ands. }
  split; [exact Hd|]. exact (proj1 (serialize_roundtrip _ Hd)).
Defined.
