(* ===== verification/ObjectRegistry.v ===== *)
(** * The registry of converted objects ([pyfora/ObjectRegistry.py])

    Object ids, definitions, the encoding of strings and the dependency graph
    that the client sends to the server. *)
From stdpp Require Import base gmap sets list strings fin_maps.
From S2P Require Import Prelude PyStrings TypeDescription.

(** ** Object definitions *)

(** A scope: a dict from free variable member access chains (or member names)
    to object ids, its items in iteration order. *)
Abbreviation scope := (list (string * Z)).

Inductive definition :=
| Primitive (p : prim)
| PrimitiveList (l : list pyval)
| Tuple (memberIds : list Z)
| List (memberIds : list Z)
| File (path text : string)
| Dict (keyIds valueIds : list Z)
| RemotePythonObject (computedValueArgument : pyval)
| BuiltinExceptionInstance (builtinExceptionTypeName : string) (argsId : Z)
| NamedSingleton (singletonName : string)
| FunctionDefinition (sourceFileId lineNumber : Z)
    (freeVariableMemberAccessChainsToId : scope)
| ClassDefinition (sourceFileId lineNumber : Z)
    (freeVariableMemberAccessChainsToId : scope) (baseClassIds : list Z)
| Unconvertible
| ClassInstanceDescription (classId : Z) (classMemberNameToClassMemberId : scope)
| InstanceMethod (instanceId : Z) (methodName : string)
| WithBlockDescription (freeVariableMemberAccessChainsToId : scope)
    (sourceFileId lineNumber : Z).

(** The object of the module TypeDescription that each definition is. *)
Definition ids (l : list Z) : pyval := PyList ((λ z, Prim (PInt z)) <$> l).
Definition scope_dict (s : scope) : pyval := Dict_ ((λ x, (x.1, Prim (PInt x.2))) <$> s).

Definition describe (d : definition) : pyval :=
  match d with
  | Primitive p => Prim p
  | PrimitiveList l => PyList l
  | Tuple ms => NamedTuple "Tuple" [ids ms; VStr "Tuple"]
  | List ms => NamedTuple "List" [ids ms; VStr "List"]
  | File p t => NamedTuple "File" [VStr p; VStr t; VStr "File"]
  | Dict ks vs => NamedTuple "Dict" [ids ks; ids vs; VStr "Dict"]
  | RemotePythonObject a =>
      NamedTuple "RemotePythonObject" [a; VStr "RemotePythonObject"]
  | BuiltinExceptionInstance t a =>
      NamedTuple "BuiltinExceptionInstance"
        [VStr t; Prim (PInt a); VStr "BuiltinExceptionInstance"]
  | NamedSingleton n => NamedTuple "NamedSingleton" [VStr n; VStr "NamedSingleton"]
  | FunctionDefinition f l s =>
      NamedTuple "FunctionDefinition"
        [Prim (PInt f); Prim (PInt l); scope_dict s; VStr "FunctionDefinition"]
  | ClassDefinition f l s bs =>
      NamedTuple "ClassDefinition"
        [Prim (PInt f); Prim (PInt l); scope_dict s; ids bs; VStr "ClassDefinition"]
  | Unconvertible => NamedTuple "Unconvertible" [VStr "Unconvertible"]
  | ClassInstanceDescription c ms =>
      NamedTuple "ClassInstanceDescription"
        [Prim (PInt c); scope_dict ms; VStr "ClassInstanceDescription"]
  | InstanceMethod i n =>
      NamedTuple "InstanceMethod" [Prim (PInt i); VStr n; VStr "InstanceMethod"]
  | WithBlockDescription s f l =>
      NamedTuple "WithBlockDescription"
        [scope_dict s; Prim (PInt f); Prim (PInt l); VStr "WithBlockDescription"]
  end.

Lemma describe_described d : described (describe d).
Proof.
  destruct d; try exact I; cbn [describe described];
    match goal with |- ∃ fs vs', _ ∧ ?vs = _ ∧ _ => eexists _, (removelast vs) end;
    (split; [reflexivity|]); by split.
Qed.

(** ** ObjectRegistry *)

Record registry := Registry {
  nextObjectID : Z;
  objectIdToObjectDefinition : gmap Z definition }.

Definition init : registry := Registry 0 ∅.

Definition getDefinition (objectId : Z) (r : registry) : res definition :=
  of_option KeyError (objectIdToObjectDefinition r !! objectId).

Definition allocateObject : M registry Z := λ r,
  (Ret (nextObjectID r),
   Registry (nextObjectID r + 1) (objectIdToObjectDefinition r)).

(** [self.objectIdToObjectDefinition[objectId] = d]. *)
Definition define (objectId : Z) (d : definition) : M registry unit :=
  modify (λ r, Registry (nextObjectID r)
                 (<[objectId := d]> (objectIdToObjectDefinition r))).

Definition definePrimitive (objectId : Z) (primitive : prim) : M registry unit :=
  define objectId (Primitive
    match primitive with
    | PStr s => PStr (Base64.b64encode s)
    | p => p
    end).
Definition defineTuple (objectId : Z) (memberIds : list Z) :=
  define objectId (Tuple memberIds).
Definition defineList (objectId : Z) (memberIds : list Z) :=
  define objectId (List memberIds).
Definition defineFile (objectId : Z) (text path : string) :=
  define objectId (File path text).
Definition defineDict (objectId : Z) (keyIds valueIds : list Z) :=
  define objectId (Dict keyIds valueIds).
Definition defineRemotePythonObject (objectId : Z) (computedValueArg : pyval) :=
  define objectId (RemotePythonObject computedValueArg).
Definition defineBuiltinExceptionInstance (objectId : Z) (typename : string)
    (argsId : Z) := define objectId (BuiltinExceptionInstance typename argsId).
Definition defineNamedSingleton (objectId : Z) (singletonName : string) :=
  define objectId (NamedSingleton singletonName).

(** A copy of the dict. *)
Definition processFreeVariableMemberAccessChainResolution (s : scope) : scope :=
  (λ x, (x.1, x.2)) <$> s.

Definition defineFunction (objectId sourceFileId lineNumber : Z) (scopeIds : scope) :=
  define objectId (FunctionDefinition sourceFileId lineNumber
    (processFreeVariableMemberAccessChainResolution scopeIds)).
Definition defineClass (objectId sourceFileId lineNumber : Z) (scopeIds : scope)
    (baseClassIds : list Z) :=
  define objectId (ClassDefinition sourceFileId lineNumber
    (processFreeVariableMemberAccessChainResolution scopeIds) baseClassIds).
Definition defineUnconvertible (objectId : Z) := define objectId Unconvertible.
Definition defineClassInstance (objectId classId : Z)
    (classMemberNameToClassMemberId : scope) :=
  define objectId (ClassInstanceDescription classId classMemberNameToClassMemberId).
Definition defineInstanceMethod (objectId instanceId : Z) (methodName : string) :=
  define objectId (InstanceMethod instanceId methodName).
Definition defineWithBlock (objectId : Z)
    (freeVariableMemberAccessChainsToId : scope) (sourceFileId lineNumber : Z) :=
  define objectId
    (WithBlockDescription freeVariableMemberAccessChainsToId sourceFileId lineNumber).

(** ** The dependency graph *)

Section dependencies.
Context (r : registry).

(** [_computeDependentIds]; it follows the class of an instance, [fuel] bounds
    that chain. *)
Fixpoint computeDependentIds (fuel : nat) (objectId : Z) : res (list Z) :=
  match fuel with
  | O => Raise RecursionLimit
  | S fuel =>
      d ← getDefinition objectId r;
      match d with
      | Primitive _ | PrimitiveList _ | File _ _ | RemotePythonObject _
      | NamedSingleton _ | Unconvertible => Ret []
      | BuiltinExceptionInstance _ argsId => Ret [argsId]
      | List ms | Tuple ms => Ret ms
      | FunctionDefinition f _ s | ClassDefinition f _ s _ => Ret (s.*2 ++ [f])
      | InstanceMethod i _ => Ret [i]
      | ClassInstanceDescription c ms =>
          tr ← computeDependentIds fuel c;
          Ret ((c :: tr) ++ ms.*2)
      | Dict ks vs => Ret (ks ++ vs)
      | WithBlockDescription s f _ => Ret (s.*2 ++ [f])
      end
  end.

(** A chain of classes longer than the registry is a cycle. *)
Definition dependentIds : Z → res (list Z) :=
  computeDependentIds (S (size (objectIdToObjectDefinition r))).
End dependencies.

(** [_populateGraphOfIds], [graphOfIds] being the state and [deps] being
    [self._computeDependentIds]. *)
Fixpoint populateGraphOfIds (deps : Z → res (list Z)) (fuel : nat) (objectId : Z) :
    M (gmap Z (list Z)) unit :=
  match fuel with
  | O => raise RecursionLimit
  | S fuel =>
      dependentIds ← lift (deps objectId);
      modify (insert objectId dependentIds) ;;
      forM_ (λ o, g ← get;
                  when (negb (bool_decide (o ∈ dom g))) (populateGraphOfIds deps fuel o))
        dependentIds
  end.

(** The recursion visits an id once, so it is never deeper than the ids that
    are defined, plus one that is not. *)
Definition computeDependencyGraph (r : registry) (objectId : Z) :
    res (gmap Z (list Z)) :=
  let '(res, g) := populateGraphOfIds (dependentIds r)
    (S (size (objectIdToObjectDefinition r))) objectId ∅ in
  match res with Ret _ => Ret g | Raise e => Raise e end.

(** ** What the graph holds *)

(** [reaches deps o o']: [o'] is [o] or a dependency of what [o] reaches. *)
Inductive reaches (deps : Z → res (list Z)) (o : Z) : Z → Prop :=
| reaches_refl : reaches deps o o
| reaches_step o' l o'' :
    reaches deps o o' → deps o' = Ret l → o'' ∈ l → reaches deps o o''.

Section graph.
Context (deps : Z → res (list Z)).

Lemma reaches_trans a b c : reaches deps a b → reaches deps b c → reaches deps a c.
Proof. intros Hab Hbc. induction Hbc; eauto using reaches. Qed.

(** A traversal that started from [g] at the ids [R] and ended with [g']: what
    it added is closed under dependencies, and reached from [R]. *)
Definition closes (R : Z → Prop) (g g' : gmap Z (list Z)) : Prop :=
  g ⊆ g' ∧ ∀ x l, g' !! x = Some l → g !! x = Some l ∨
    (deps x = Ret l ∧ (∀ d, d ∈ l → d ∈ dom g') ∧ ∃ s, R s ∧ reaches deps s x).

Lemma closes_refl R g : closes R g g.
Proof. split; [done|]. by left. Qed.

Lemma closes_trans (R1 R2 R : Z → Prop) g1 g2 g3 :
  closes R1 g1 g2 → closes R2 g2 g3 → (∀ s, R1 s → R s) → (∀ s, R2 s → R s) →
  closes R g1 g3.
Proof.
  intros [Hs1 H1] [Hs2 H2] HR1 HR2. split; [by etrans|]. intros x l Hx.
  destruct (H2 x l Hx) as [Hx2|(? & ? & ? & ? & ?)]; [|right; eauto 7].
  destruct (H1 x l Hx2) as [?|(? & Hl & ? & ? & ?)]; [by left|right].
  split_ands; [done| |eauto]. intros d Hd. apply (subseteq_dom g2 g3); auto.
Qed.

Abbreviation visit_all fuel := (forM_ (λ o, g ← get;
  when (negb (bool_decide (o ∈ dom g))) (populateGraphOfIds deps fuel o))).

Lemma populate_closes fuel : ∀ o g g',
  o ∉ dom g → populateGraphOfIds deps fuel o g = (Ret tt, g') →
  closes (λ s, s = o) g g' ∧ o ∈ dom g'.
Proof.
  induction fuel as [|fuel IH]; intros o g g' Ho Heq; [done|].
  assert (Hloop : ∀ ds g2, visit_all fuel ds g2 = (Ret tt, g') →
    closes (λ s, s ∈ ds) g2 g' ∧ ∀ d, d ∈ ds → d ∈ dom g').
  { clear -IH. induction ds as [|d ds IHds]; intros g2 H2.
    - injection H2 as <-. split; [apply closes_refl|set_solver].
    - rewrite forM__cons in H2. apply bind_inv in H2 as ([] & g3 & H3 & H4).
      apply bind_inv in H3 as (? & ? & [= <- <-] & H3).
      apply IHds in H4 as [Hc Hds].
      assert (H23 : closes (λ s, s = d) g2 g3 ∧ d ∈ dom g3).
      { case_bool_decide as Hd; cbn [negb when] in H3.
        - injection H3 as <-. split; [apply closes_refl|done].
        - by apply IH. }
      destruct H23 as [H23 Hd]. split; [eapply closes_trans; set_solver|].
      intros x [->|Hx]%elem_of_cons; [|by apply Hds].
      by apply (subseteq_dom g3 g'); [apply Hc|]. }
  cbn [populateGraphOfIds] in Heq. apply bind_inv in Heq as (l & g1 & Hl & Heq).
  injection Hl as Hl <-. apply bind_inv in Heq as ([] & g2 & [= <-] & Heq).
  apply Hloop in Heq as [[Hs Hc] Hl']. split; [split|].
  - etrans; [|exact Hs]. apply insert_subseteq. by apply not_elem_of_dom.
  - intros x lx Hx. destruct (Hc x lx Hx) as [Hx1|(? & ? & s & Hsl & ?)].
    + destruct (decide (o = x)) as [->|Hne].
      * right. rewrite lookup_insert_eq in Hx1. simplify_eq.
        split_ands; [done|done|]. exists x. split; [done|constructor].
      * left. by rewrite lookup_insert_ne in Hx1.
    + right. split_ands; [done|done|]. exists o. split; [done|].
      eapply reaches_trans; [|done]. econstructor; [constructor|exact Hl|done].
  - apply (subseteq_dom _ _ Hs). set_solver.
Qed.

(** Everything that can be reached, [P], has dependencies and lies in [U]. *)
Context (P : Z → Prop) (U : gset Z).
Context (HP : ∀ o, P o → ∃ l, deps o = Ret l ∧ ∀ d, d ∈ l → P d).
Context (HPU : ∀ o, P o → o ∈ U).

Lemma reaches_P s o : P s → reaches deps s o → P o.
Proof.
  intros Hs Hr. induction Hr as [|o l o' Hr IH Hl Hin]; [done|].
  destruct (HP o IH) as (l' & Hl' & Hd). rewrite Hl in Hl'. injection Hl' as <-.
  by apply Hd.
Qed.

Lemma closes_dom (R : Z → Prop) g g' :
  closes R g g' → (∀ s, R s → P s) → dom g ⊆ U → dom g' ⊆ U.
Proof.
  intros [_ Hc] HR Hg x [l Hx]%elem_of_dom.
  destruct (Hc x l Hx) as [?|(_ & _ & s & Hs & Hr)].
  - apply Hg. by eapply elem_of_dom_2.
  - apply HPU. eapply reaches_P; [|exact Hr]. auto.
Qed.

(** Enough fuel gives the result. *)
Lemma populate_returns fuel : ∀ o g,
  P o → o ∉ dom g → dom g ⊆ U → size (U ∖ dom g) ≤ fuel →
  ∃ g', populateGraphOfIds deps fuel o g = (Ret tt, g').
Proof.
  induction fuel as [|fuel IH]; intros o g Ho Hg HgU Hsize.
  { exfalso. apply HPU in Ho. assert (U ∖ dom g ≡ ∅) by (apply size_empty_inv; lia).
    set_solver. }
  destruct (HP o Ho) as (l & Hl & Hin). pose proof (HPU o Ho) as HoU.
  set (g1 := <[o := l]> g).
  assert (Hdom1 : dom g1 = {[ o ]} ∪ dom g) by apply dom_insert_L.
  assert (Hsize1 : size (U ∖ dom g1) ≤ fuel).
  { assert (U ∖ dom g1 ⊂ U ∖ dom g) as Hlt%subset_size by set_solver. lia. }
  assert (Hloop : ∀ ds g2, g1 ⊆ g2 → dom g2 ⊆ U → (∀ d, d ∈ ds → P d) →
    ∃ g', visit_all fuel ds g2 = (Ret tt, g')).
  { induction ds as [|d ds IHds]; intros g2 H12 H2U Hds; [by exists g2|].
    assert (Hd : ∃ g3, (g ← get; when (negb (bool_decide (d ∈ dom g)))
          (populateGraphOfIds deps fuel d)) g2 = (Ret tt, g3) ∧
          closes (λ s, s = d) g2 g3).
    { unfold mbind, M_bind. cbn [get]. case_bool_decide as Hd2; cbn [negb when].
      - exists g2. split; [done|apply closes_refl].
      - destruct (IH d g2) as (g3 & Heq); [apply Hds; left|done|done| |].
        + etrans; [|exact Hsize1]. apply subseteq_size.
          apply subseteq_dom in H12. set_solver.
        + exists g3. split; [exact Heq|]. by eapply populate_closes. }
    destruct Hd as (g3 & Heq & Hc). rewrite forM__cons, (bind_step _ _ _ _ _ Heq).
    apply IHds; [etrans; [done|apply Hc]| |intros; apply Hds; by right].
    eapply closes_dom; [exact Hc| |done]. intros s ->. apply Hds. left. }
  destruct (Hloop l g1) as (g' & Heq); [done|set_solver|done|].
  exists g'. cbn [populateGraphOfIds]. unfold mbind, M_bind, lift. rewrite Hl. exact Heq.
Qed.
End graph.

Lemma dependentIds_defined r o l :
  dependentIds r o = Ret l → o ∈ dom (objectIdToObjectDefinition r).
Proof.
  unfold dependentIds. cbn [computeDependentIds]. unfold getDefinition.
  destruct (objectIdToObjectDefinition r !! o) eqn:Ho; [|done].
  intros _. by eapply elem_of_dom_2.
Qed.

Lemma computeDependencyGraph_returns r root :
  (∀ o, reaches (dependentIds r) root o → is_ret (dependentIds r o)) →
  is_ret (computeDependencyGraph r root).
Proof.
  set (deps := dependentIds r). intros Hok.
  assert (HP : ∀ o, reaches deps root o →
    ∃ l, deps o = Ret l ∧ ∀ d, d ∈ l → reaches deps root d).
  { intros o Ho. specialize (Hok o Ho). destruct (deps o) as [l|] eqn:Hl; [|done].
    exists l. split; [done|]. intros d Hd. by econstructor. }
  destruct (populate_returns deps (reaches deps root)
    (dom (objectIdToObjectDefinition r)) HP) with
    (fuel := S (size (objectIdToObjectDefinition r))) (o := root)
    (g := (∅ : gmap Z (list Z))) as (g' & Heq).
  - intros o Ho. destruct (HP o Ho) as (l & Hl & _). by eapply dependentIds_defined.
  - constructor.
  - set_solver.
  - set_solver.
  - rewrite dom_empty_L, difference_empty_L, size_dom. lia.
  - unfold computeDependencyGraph. fold deps. by rewrite Heq.
Qed.

(** The graph has the root, and no edge out of it. *)
Lemma computeDependencyGraph_spec r root g :
  computeDependencyGraph r root = Ret g →
  root ∈ dom g ∧ ∀ x l, g !! x = Some l →
    dependentIds r x = Ret l ∧ (∀ d, d ∈ l → d ∈ dom g) ∧ reaches (dependentIds r) root x.
Proof.
  unfold computeDependencyGraph. set (deps := dependentIds r).
  destruct (populateGraphOfIds deps _ root ∅) as [[[]|] g'] eqn:Heq; [|done].
  intros [= ->]. apply populate_closes in Heq as [[_ Hc] Hroot]; [|set_solver].
  split; [done|]. intros x lx Hx. destruct (Hc x lx Hx) as [He|(? & ? & s & -> & ?)]; [|done].
  by rewrite lookup_empty in He.
Qed.

(** C12. When the dependencies of everything reachable from an object can be
    computed, [computeDependencyGraph] returns, cyclic references included, and
    the graph holds exactly the reachable ids, each with its dependencies. It
    raises only when the dependencies of some reachable id raise. *)
Theorem computeDependencyGraph_exact r root :
  ((∀ o, reaches (dependentIds r) root o → is_ret (dependentIds r o)) →
     is_ret (computeDependencyGraph r root)) ∧
  ∀ g, computeDependencyGraph r root = Ret g →
    ∀ o l, g !! o = Some l ↔
             reaches (dependentIds r) root o ∧ dependentIds r o = Ret l.
Proof.
  split; [apply computeDependencyGraph_returns|]. intros g Hg o l.
  destruct (computeDependencyGraph_spec r root g Hg) as [Hroot Hin].
  split; [intros Ho; by destruct (Hin o l Ho) as (? & _ & ?)|].
  intros [Hr Hl].
  assert (Hdom : o ∈ dom g).
  { clear Hl. induction Hr as [|o' l' o'' Hr IH Hl' Hd]; [done|].
    apply elem_of_dom in IH as [l'' Hl''].
    destruct (Hin o' l'' Hl'') as (Hl2 & Hds & _). rewrite Hl' in Hl2.
    injection Hl2 as <-. by apply Hds. }
  apply elem_of_dom in Hdom as [l' Hl']. destruct (Hin o l' Hl') as (? & _).
  congruence.
Qed.

(** ** Allocation and definition *)

(** The ids handed out so far. *)
Definition allocated (r : registry) (o : Z) : Prop := (0 ≤ o < nextObjectID r)%Z.

Inductive command :=
| Allocate
| Define (objectId : Z) (d : definition).

Definition run_command (c : command) : M registry (option Z) :=
  match c with
  | Allocate => o ← allocateObject; mret (Some o)
  | Define o d => define o d ;; mret None
  end.

(** The ids that [allocateObject] hands out in the course of any sequence of
    allocations and definitions are pairwise distinct: they are consecutive. *)
Theorem allocated_ids_distinct (cs : list command) :
  ∃ n, omap (λ x : option Z, x)
         (match (mapM run_command cs init).1 with Ret l => l | Raise _ => [] end)
       = seqZ 0 n ∧
       nextObjectID (mapM run_command cs init).2 = n ∧ (0 ≤ n)%Z ∧
       is_ret (mapM run_command cs init).1.
Proof.
  assert (Hgen : ∀ cs r, ∃ l r', mapM run_command cs r = (Ret l, r') ∧
    (nextObjectID r ≤ nextObjectID r')%Z ∧
    omap (λ x : option Z, x) l = seqZ (nextObjectID r) (nextObjectID r' - nextObjectID r)).
  { clear cs. induction cs as [|c cs IH]; intros r.
    - exists [], r. split_ands; [done|lia|]. by rewrite Z.sub_diag.
    - rewrite mapM_cons. destruct c as [|o d].
      + destruct (IH (Registry (nextObjectID r + 1) (objectIdToObjectDefinition r)))
          as (l & r' & Heq & Hle & Hl). cbn in Hle, Hl.
        exists (Some (nextObjectID r) :: l), r'. split_ands; [|lia|].
        * erewrite bind_step by reflexivity. by rewrite (bind_step _ _ _ _ _ Heq).
        * cbn. rewrite Hl, (seqZ_cons (nextObjectID r)) by lia. f_equal. f_equal; lia.
      + destruct (IH (define o d r).2) as (l & r' & Heq & Hle & Hl). cbn in Hle, Hl.
        exists (None :: l), r'. split_ands; [|lia|exact Hl].
        erewrite bind_step by reflexivity. by rewrite (bind_step _ _ _ _ _ Heq). }
  destruct (Hgen cs init) as (l & r' & Heq & Hle & Hl).
  exists (nextObjectID r'). rewrite Heq. cbn. cbn in Hl, Hle.
  split_ands; [|done|done|done]. rewrite Hl. f_equal. lia.
Qed.

(** A string given to [definePrimitive] is stored in base64, which loses
    nothing: two strings with the same definition are equal. *)
Theorem definePrimitive_injective o s1 s2 r :
  (definePrimitive o (PStr s1) r).2 = (definePrimitive o (PStr s2) r).2 → s1 = s2.
Proof.
  intros Heq. apply (f_equal (λ r, objectIdToObjectDefinition r !! o)) in Heq.
  cbn in Heq. rewrite !lookup_insert_eq in Heq. injection Heq as Heq.
  apply (f_equal Base64.b64decode) in Heq. by rewrite !Base64.b64_roundtrip in Heq.
Qed.

Lemma definePrimitive_injective_witness :
  (definePrimitive 0 (PStr "ab") init).2 = (definePrimitive 0 (PStr "ab") init).2 ∧
  ("ab" = "ab")%string.
Proof. split; [reflexivity|]. exact (definePrimitive_injective 0 "ab" "ab" init eq_refl). Defined.

(** ** A cyclic registry *)

Module RegistrySamples.
(** A list that holds itself and a function of file 2 that uses the list. *)
Definition cyclic : registry :=
  ((defineList 0 [0; 1]%Z ;;
    defineFunction 1 2 10 [("x.y", 0)]%Z ;;
    defineFile 2 "text" "path" ;;
    definePrimitive 3 (PStr "unused")) (Registry 4 ∅)).2.

Example cyclic_graph :
  computeDependencyGraph cyclic 1 =
    Ret (list_to_map [(1, [0; 2]); (0, [0; 1]); (2, [])]%Z) := eq_refl.
Example missing_id : computeDependencyGraph cyclic 7 = Raise KeyError := eq_refl.
Example encoded :
  getDefinition 3 cyclic = Ret (Primitive (PStr "dW51c2Vk")) := eq_refl.
End RegistrySamples.

Lemma computeDependencyGraph_exact_witness :
  reaches (dependentIds RegistrySamples.cyclic) 1%Z 2%Z.
Proof.
  apply (proj2 (computeDependencyGraph_exact RegistrySamples.cyclic 1%Z) _ eq_refl 2%Z []).
  vm_compute. reflexivity.
Defined.
