(* ===== verification/S3.v ===== *)
(** * The in-memory S3 service ([ufora/distributed/S3/InMemoryS3Interface.py])

    Buckets with owners, keys with values, multipart uploads, and the splitting
    of a dataset into chunks ([ufora/FORA/python/CacheSemantics.py]). *)
From Stdlib Require Import Ascii String Lia ZifyBool ZifyNat ZifyN.
From stdpp Require Import base gmap sets list strings fin_maps sorting.
From S2P Require Import Prelude PyStrings.

(** ** S3 errors and state *)

Definition BucketNotFound : exn := OtherException "BucketNotFound".
Definition BucketAccessError : exn := OtherException "BucketAccessError".
Definition KeyNotFound : exn := OtherException "KeyNotFound".
Definition UnableToWriteKey : exn := OtherException "UnableToWriteKey".

(** [(awsAccessKey, awsSecretKey)]. *)
Abbreviation credentials := (string * string)%type.
Definition publicCredentials : credentials := (EmptyString, EmptyString).

Record InMemoryS3Key := Key { value : string; mtime : Z }.

(** [InMemoryS3State]. A dict is iterated in the order of [map_to_list]; the
    machine's name may be [None]. Sleeping changes no state. *)
Record state := State {
  buckets : gmap string (gmap string InMemoryS3Key);
  bucketOwners : gmap string credentials;
  throughput : option Z;
  bytesLoadedPerMachine : gmap (option string) Z;
  writeFailureInjector : option (string → string → bool) }.

Definition init : state := State ∅ ∅ None ∅ None.

Definition clear (s : state) : state := State ∅ ∅ None ∅ (writeFailureInjector s).

Definition with_buckets (b : gmap string (gmap string InMemoryS3Key)) (s : state) :=
  State b (bucketOwners s) (throughput s) (bytesLoadedPerMachine s)
    (writeFailureInjector s).

(** [time.sleep(float(data) / self.throughput)]. *)
Definition logBytesLoadedAndDelay (machine : option string) (data : Z) : M state unit :=
  modify (λ s, State (buckets s) (bucketOwners s) (throughput s)
    (<[machine := (default 0 (bytesLoadedPerMachine s !! machine) + data)%Z]>
       (bytesLoadedPerMachine s)) (writeFailureInjector s)) ;;
  s ← get;
  when (bool_decide (throughput s = Some 0%Z)) (raise ZeroDivisionError).

Definition setThroughputPerMachine (t : option Z) : M state unit :=
  modify (λ s, State (buckets s) (bucketOwners s) t (bytesLoadedPerMachine s)
                 (writeFailureInjector s)).

Definition setWriteFailureInjector (f : option (string → string → bool)) : M state unit :=
  modify (λ s, State (buckets s) (bucketOwners s) (throughput s)
                 (bytesLoadedPerMachine s) f).

Definition createBucket (bucketName : string) (c : credentials) : M state unit :=
  s ← get;
  lift (py_assert (bool_decide (bucketOwners s !! bucketName = None))) ;;
  modify (λ s, State (<[bucketName := ∅]> (buckets s))
                 (<[bucketName := c]> (bucketOwners s)) (throughput s)
                 (bytesLoadedPerMachine s) (writeFailureInjector s)).

Definition validateAccess (bucketName : string) (c : credentials) : M state unit :=
  s ← get;
  match bucketOwners s !! bucketName with
  | None => raise BucketNotFound
  | Some owner =>
      when (negb (bool_decide (c = owner)) &&
            negb (bool_decide (owner = publicCredentials)))
        (raise BucketAccessError)
  end.

(** [self.publicCredentials] is an attribute of the interface, which
    [InMemoryS3State] does not have: reading it raises. *)
Definition listBuckets_ (c : credentials) : M state (list string) := λ s,
  (mapR (λ x : string * credentials,
     if bool_decide (x.2 = c) then Ret x.1 else Raise AttributeError)
     (map_to_list (bucketOwners s)), s).

(** ** InMemoryS3InterfaceFactory *)

Definition getPerMachineBytecounts (s : state) : gmap (option string) Z :=
  bytesLoadedPerMachine s.

Definition listAllBucketKeyPairs (s : state) : list (string * string) :=
  b ← map_to_list (buckets s); (λ k, (b.1, k.1)) <$> map_to_list b.2.

Definition totalBytesInStorage (s : state) : nat :=
  sum_list_with (λ b : string * gmap string InMemoryS3Key,
    sum_list_with (λ k : string * InMemoryS3Key, String.length (value k.2))
      (map_to_list b.2)) (map_to_list (buckets s)).

(** ** InMemoryS3Interface *)

Section interface.
(** [self.credentials_] and [self.machine_]. *)
Context (credentials_ : credentials) (machine_ : option string).

Definition bucket_of (bucketName : string) : M state (gmap string InMemoryS3Key) := λ s,
  (of_option KeyError (buckets s !! bucketName), s).

(** [if bucketName not in self.state_.buckets_: raise BucketNotFound]. *)
Definition need_bucket (bucketName : string) : M state unit :=
  s ← get;
  when (bool_decide (buckets s !! bucketName = None)) (raise BucketNotFound).

(** [if bucketName not in self.state_.buckets_: createBucket(...)]. *)
Definition make_bucket (bucketName : string) : M state unit :=
  s ← get;
  when (bool_decide (buckets s !! bucketName = None))
    (createBucket bucketName credentials_).

Definition listBuckets : M state (list string) := listBuckets_ credentials_.

Definition listKeysAndSizes (bucketName : string) : M state (list (string * nat * Z)) :=
  need_bucket bucketName ;;
  validateAccess bucketName credentials_ ;;
  b ← bucket_of bucketName;
  mret ((λ x : string * InMemoryS3Key,
           (x.1, String.length (value x.2), mtime x.2)) <$> map_to_list b).

Definition listKeysWithPrefix (bucketName prefix : string) :
    M state (list (string * nat * Z)) :=
  validateAccess bucketName credentials_ ;;
  l ← listKeysAndSizes bucketName;
  mret (filter (λ x, String.prefix prefix x.1.1 = true) l).

Definition getKeyValue (bucketName keyName : string) (logBytes : bool) :
    M state string :=
  need_bucket bucketName ;;
  validateAccess bucketName credentials_ ;;
  b ← bucket_of bucketName;
  match b !! keyName with
  | None => raise KeyNotFound
  | Some k =>
      when logBytes
        (logBytesLoadedAndDelay machine_ (Z.of_nat (String.length (value k)))) ;;
      mret (value k)
  end.

Definition deleteKey (bucketName keyName : string) : M state unit :=
  make_bucket bucketName ;;
  validateAccess bucketName credentials_ ;;
  b ← bucket_of bucketName;
  match b !! keyName with
  | None => raise KeyNotFound
  | Some _ =>
      modify (λ s, with_buckets (<[bucketName := delete keyName b]> (buckets s)) s)
  end.

Definition getKeyValueOverRange (bucketName keyName : string) (lowIndex highIndex : Z) :
    M state string :=
  validateAccess bucketName credentials_ ;;
  v ← getKeyValue bucketName keyName false;
  let result := PyStr.slice v lowIndex highIndex in
  logBytesLoadedAndDelay machine_ (Z.of_nat (String.length result)) ;;
  mret result.

Definition getKeySize (bucketName keyName : string) : M state nat :=
  validateAccess bucketName credentials_ ;;
  v ← getKeyValue bucketName keyName false;
  mret (String.length v).

Definition keyExists (bucketName keyName : string) : M state bool :=
  validateAccess bucketName credentials_ ;;
  s ← get;
  match buckets s !! bucketName with
  | None => mret false
  | Some b => mret (bool_decide (is_Some (b !! keyName)))
  end.

Definition bucketExists (bucketName : string) : M state bool :=
  s ← get; mret (bool_decide (is_Some (buckets s !! bucketName))).

(** [now] is what [time.time()] returns. *)
Definition setKeyValue (now : Z) (bucketName keyName value : string) : M state unit :=
  s ← get;
  when (match writeFailureInjector s with
        | Some f => f bucketName keyName
        | None => false
        end) (raise UnableToWriteKey) ;;
  make_bucket bucketName ;;
  validateAccess bucketName credentials_ ;;
  b ← bucket_of bucketName;
  modify (λ s, with_buckets (<[bucketName := <[keyName := Key value now]> b]> (buckets s)) s).

Definition setKeyValueFromFile : M state unit := mret tt.

(** *** Multipart uploads: the parts are keys named after the upload *)

Definition initiateMultipartUpload (eventualKeyName : string) : string :=
  ("__multipart__" ++ eventualKeyName)%string.

Definition setMultipartUploadPart (now : Z) (bucketName uploadId : string)
    (oneBasedPartNumber : Z) (value : string) : M state unit :=
  lift (py_assert (bool_decide (1 ≤ oneBasedPartNumber ∧ oneBasedPartNumber ≤ 10000)%Z)) ;;
  setKeyValue now bucketName (uploadId ++ PyStr.str oneBasedPartNumber)%string value.

(** The order of [sorted] on pairs of an integer and a string. *)
Definition pair_le (x y : Z * string) : Prop :=
  (x.1 < y.1)%Z ∨ (x.1 = y.1 ∧ String.le x.2 y.2).
#[global] Instance pair_le_dec x y : Decision (pair_le x y).
Proof. unfold pair_le. solve_decision. Defined.

Definition completeMultipartUpload (now : Z) (bucketName eventualKeyName uploadId : string) :
    M state unit :=
  keys ← listKeysWithPrefix bucketName uploadId;
  ids ← lift (mapR (λ x : string * nat * Z,
    i ← PyStr.int (PyStr.drop (String.length uploadId) x.1.1); Ret (i, x.1.1)) keys);
  let partIdsAndKeys := merge_sort pair_le ids in
  lift (py_assert (bool_decide (length partIdsAndKeys ≤ 1000))) ;;
  parts ← mapM (λ p : Z * string,
    v ← getKeyValue bucketName p.2 true;
    deleteKey bucketName p.2 ;;
    mret v) partIdsAndKeys;
  setKeyValue now bucketName eventualKeyName (String.concat EmptyString parts).
End interface.

(** ** Single operations *)

(** [c] may use the bucket. *)
Definition allowed (c : credentials) (s : state) (bucketName : string) : Prop :=
  ∃ owner, bucketOwners s !! bucketName = Some owner ∧
    (c = owner ∨ owner = publicCredentials).

Lemma validateAccess_allowed c s b :
  allowed c s b → validateAccess b c s = (Ret tt, s).
Proof.
  intros (o & Ho & Hc). unfold validateAccess, mbind, M_bind. cbn [get]. rewrite Ho.
  destruct Hc as [->| ->].
  - rewrite bool_decide_eq_true_2 by done. done.
  - rewrite (bool_decide_eq_true_2 (publicCredentials = _)) by done.
    by rewrite andb_false_r.
Qed.

Lemma validateAccess_denied c s b owner :
  bucketOwners s !! b = Some owner → c ≠ owner → owner ≠ publicCredentials →
  validateAccess b c s = (Raise BucketAccessError, s).
Proof.
  intros Ho Hc Hp. unfold validateAccess, mbind, M_bind. cbn [get]. rewrite Ho.
  by rewrite !bool_decide_eq_false_2.
Qed.

Lemma need_bucket_ok s b B : buckets s !! b = Some B → need_bucket b s = (Ret tt, s).
Proof. intros Hb. unfold need_bucket, mbind, M_bind. cbn. by rewrite Hb. Qed.

Lemma make_bucket_ok c s b B :
  buckets s !! b = Some B → make_bucket c b s = (Ret tt, s).
Proof. intros Hb. unfold make_bucket, mbind, M_bind. cbn. by rewrite Hb. Qed.

Lemma bucket_of_ok s b B : buckets s !! b = Some B → bucket_of b s = (Ret B, s).
Proof. intros Hb. unfold bucket_of. by rewrite Hb. Qed.

Section operations.
Context (c : credentials) (machine : option string) (b : string).
Context (s : state) (B : gmap string InMemoryS3Key).
Context (Hb : buckets s !! b = Some B) (Hc : allowed c s b).

Lemma listKeysWithPrefix_ok prefix :
  listKeysWithPrefix c b prefix s =
  (Ret (filter (λ x, String.prefix prefix x.1.1 = true)
     ((λ x : string * InMemoryS3Key, (x.1, String.length (value x.2), mtime x.2)) <$>
        map_to_list B)), s).
Proof.
  assert (Hl : listKeysAndSizes c b s = (Ret ((λ x : string * InMemoryS3Key,
    (x.1, String.length (value x.2), mtime x.2)) <$> map_to_list B), s)).
  { unfold listKeysAndSizes. step (need_bucket_ok _ _ _ Hb).
    step (validateAccess_allowed _ _ _ Hc). by step (bucket_of_ok _ _ _ Hb). }
  unfold listKeysWithPrefix. step (validateAccess_allowed _ _ _ Hc). by step Hl.
Qed.

Lemma getKeyValue_ok k v :
  throughput s ≠ Some 0%Z → B !! k = Some v →
  ∃ bl, getKeyValue c machine b k true s =
    (Ret (value v), State (buckets s) (bucketOwners s) (throughput s) bl
                      (writeFailureInjector s)).
Proof.
  intros Ht Hk. unfold getKeyValue. step (need_bucket_ok _ _ _ Hb).
  step (validateAccess_allowed _ _ _ Hc). step (bucket_of_ok _ _ _ Hb). rewrite Hk.
  unfold logBytesLoadedAndDelay, mbind, M_bind. cbn.
  rewrite bool_decide_eq_false_2 by done. eexists. reflexivity.
Qed.

Lemma deleteKey_ok k v :
  B !! k = Some v →
  deleteKey c b k s = (Ret tt, with_buckets (<[b := delete k B]> (buckets s)) s).
Proof.
  intros Hk. unfold deleteKey. step (make_bucket_ok c _ _ _ Hb).
  step (validateAccess_allowed _ _ _ Hc). step (bucket_of_ok _ _ _ Hb). by rewrite Hk.
Qed.

Lemma setKeyValue_ok now k v :
  writeFailureInjector s = None →
  setKeyValue c now b k v s =
    (Ret tt, with_buckets (<[b := <[k := Key v now]> B]> (buckets s)) s).
Proof.
  intros Hw. unfold setKeyValue. erewrite bind_step by reflexivity. rewrite Hw.
  erewrite bind_step by reflexivity. step (make_bucket_ok c _ _ _ Hb).
  step (validateAccess_allowed _ _ _ Hc). by step (bucket_of_ok _ _ _ Hb).
Qed.
End operations.

(** ** Requests of any client *)

Inductive request :=
| ListBuckets
| ListKeysAndSizes (bucketName : string)
| ListKeysWithPrefix (bucketName prefix : string)
| GetKeyValue (bucketName keyName : string)
| DeleteKey (bucketName keyName : string)
| GetKeyValueOverRange (bucketName keyName : string) (lowIndex highIndex : Z)
| GetKeySize (bucketName keyName : string)
| KeyExists (bucketName keyName : string)
| BucketExists (bucketName : string)
| SetKeyValue (now : Z) (bucketName keyName value : string)
| SetMultipartUploadPart (now : Z) (bucketName uploadId : string)
    (oneBasedPartNumber : Z) (value : string)
| CompleteMultipartUpload (now : Z) (bucketName eventualKeyName uploadId : string).

Definition serve (c : credentials) (machine : option string) (r : request) : M state unit :=
  match r with
  | ListBuckets => listBuckets c ;; mret tt
  | ListKeysAndSizes b => listKeysAndSizes c b ;; mret tt
  | ListKeysWithPrefix b p => listKeysWithPrefix c b p ;; mret tt
  | GetKeyValue b k => getKeyValue c machine b k true ;; mret tt
  | DeleteKey b k => deleteKey c b k
  | GetKeyValueOverRange b k lo hi => getKeyValueOverRange c machine b k lo hi ;; mret tt
  | GetKeySize b k => getKeySize c machine b k ;; mret tt
  | KeyExists b k => keyExists c b k ;; mret tt
  | BucketExists b => bucketExists b ;; mret tt
  | SetKeyValue now b k v => setKeyValue c now b k v
  | SetMultipartUploadPart now b u n v => setMultipartUploadPart c now b u n v
  | CompleteMultipartUpload now b k u => completeMultipartUpload c machine now b k u
  end.

(** The bucket whose content a request reads or writes. *)
Definition content_of (r : request) : option string :=
  match r with
  | ListBuckets | BucketExists _ => None
  | ListKeysAndSizes b | ListKeysWithPrefix b _ | GetKeyValue b _ | DeleteKey b _
  | GetKeyValueOverRange b _ _ _ | GetKeySize b _ | KeyExists b _ | SetKeyValue _ b _ _
  | SetMultipartUploadPart _ b _ _ _ | CompleteMultipartUpload _ b _ _ => Some b
  end.

(** Every bucket has an owner. *)
Definition wf (s : state) : Prop := dom (buckets s) = dom (bucketOwners s).

(** [s'] has the owners of [s], and maybe more buckets. *)
Definition owners_grow (s s' : state) : Prop :=
  bucketOwners s ⊆ bucketOwners s' ∧ wf s'.

Section grow.
Context (s0 : state).
Let I (s : state) : Prop := owners_grow s0 s.

Lemma grow_setBucket (f : state → state) :
  (∀ s, bucketOwners (f s) = bucketOwners s ∧ dom (buckets (f s)) = dom (buckets s)) →
  keeps I (modify f).
Proof.
  intros Hf s [Ho Hw]. destruct (Hf s) as [H1 H2]. split; cbn.
  - by rewrite H1.
  - unfold wf in *. by rewrite H1, H2.
Qed.

Lemma grow_createBucket b c : keeps I (createBucket b c).
Proof.
  intros s [Ho Hw]. unfold createBucket, mbind, M_bind. cbn [get lift].
  case_bool_decide as Hb; [|done]. split; cbn.
  - etrans; [exact Ho|]. by apply insert_subseteq.
  - unfold wf in *. cbn. rewrite !dom_insert_L, Hw. done.
Qed.

Lemma grow_make_bucket c b : keeps I (make_bucket c b).
Proof.
  apply keeps_bind; [apply keeps_get|]. intros s. apply keeps_when, grow_createBucket.
Qed.

Lemma grow_validate b c : keeps I (validateAccess b c).
Proof.
  apply keeps_bind; [apply keeps_get|]. intros s.
  destruct (_ !! _); [apply keeps_when|]; apply keeps_raise.
Qed.

Lemma grow_need b : keeps I (need_bucket b).
Proof. apply keeps_bind; [apply keeps_get|]. intros s. apply keeps_when, keeps_raise. Qed.

Lemma grow_log m d : keeps I (logBytesLoadedAndDelay m d).
Proof.
  apply keeps_bind; [by apply grow_setBucket|]. intros _.
  apply keeps_bind; [apply keeps_get|]. intros s. apply keeps_when, keeps_raise.
Qed.

(** Writing a bucket that was read just before. *)
Lemma grow_update b (f : gmap string InMemoryS3Key → gmap string InMemoryS3Key)
    (m : M state unit) :
  keeps I m →
  keeps I (m ;; (B ← bucket_of b;
                 modify (λ s, with_buckets (<[b := f B]> (buckets s)) s))).
Proof.
  intros Hm. apply keeps_bind; [exact Hm|]. intros _ s [Ho Hw].
  unfold mbind, M_bind, bucket_of. destruct (buckets s !! b) as [B|] eqn:Hb; [|done].
  split; cbn; [done|]. unfold wf in *. cbn. rewrite dom_insert_L, <- Hw.
  apply elem_of_dom_2 in Hb. set_solver.
Qed.

Lemma grow_bucket_of b : keeps I (bucket_of b).
Proof. intros s Hs. exact Hs. Qed.

Ltac grow1 := first
  [ apply keeps_ret | apply keeps_lift | apply keeps_get | apply keeps_raise
  | apply grow_need | apply grow_validate | apply grow_log | apply grow_bucket_of
  | apply grow_make_bucket | apply keeps_when | apply keeps_bind; [|intros ?]
  | match goal with |- keeps _ (match ?o with _ => _ end) => destruct o end ].
Ltac grow := repeat grow1.

Lemma grow_list c b : keeps I (listKeysAndSizes c b).
Proof. unfold listKeysAndSizes. grow. Qed.

Lemma grow_get c m b k l : keeps I (getKeyValue c m b k l).
Proof. unfold getKeyValue. grow. Qed.

Lemma grow_delete c b k : keeps I (deleteKey c b k).
Proof.
  unfold deleteKey. apply keeps_bind; [apply grow_make_bucket|]. intros _.
  apply keeps_bind; [apply grow_validate|]. intros _ s Hs.
  pose proof (grow_update b (delete k) (mret tt) (keeps_ret I tt) s Hs) as Hu.
  unfold mbind, M_bind, bucket_of in *. cbn in Hu.
  destruct (buckets s !! b) as [B|]; cbn in *; [|done]. by destruct (B !! k).
Qed.

Lemma grow_set c now b k v : keeps I (setKeyValue c now b k v).
Proof.
  unfold setKeyValue. apply keeps_bind; [grow|intros s].
  apply keeps_bind; [grow|intros _]. apply keeps_bind; [grow|intros _].
  apply grow_update, grow_validate.
Qed.

Lemma grow_serve c m r : keeps I (serve c m r).
Proof.
  assert (Hl : ∀ b, keeps I (listKeysAndSizes c b)) by (intros; apply grow_list).
  assert (Hg : ∀ b k l, keeps I (getKeyValue c m b k l)) by (intros; apply grow_get).
  assert (Hd : ∀ b k, keeps I (deleteKey c b k)) by (intros; apply grow_delete).
  assert (Hs : ∀ n b k v, keeps I (setKeyValue c n b k v)) by (intros; apply grow_set).
  destruct r; cbn [serve];
    unfold listBuckets, listKeysWithPrefix, getKeyValueOverRange, getKeySize, keyExists,
      bucketExists, setMultipartUploadPart, completeMultipartUpload;
    repeat first [apply Hl | apply Hg | apply Hd | apply Hs
      | apply keeps_mapM; intros ? _ | grow1].
Qed.
End grow.

(** Buckets keep their owner: whatever requests are served, by whatever
    clients and in whatever order, failing ones included, a bucket that has an
    owner keeps it, and exactly the buckets with an owner exist. *)
Theorem owners_are_permanent (rs : list (credentials * option string * request)) s :
  wf s → ∀ s', s' = (fold_left (λ s r, (serve r.1.1 r.1.2 r.2 s).2) rs s) →
  wf s' ∧ ∀ b o, bucketOwners s !! b = Some o → bucketOwners s' !! b = Some o.
Proof.
  intros Hw s' ->.
  assert (Hg : owners_grow s (fold_left (λ s r, (serve r.1.1 r.1.2 r.2 s).2) rs s)).
  { assert (H0 : owners_grow s s) by done. revert H0. generalize s at 2 4. intros s1.
    revert s1. induction rs as [|r rs IH]; intros s1 H1; [done|].
    cbn. apply IH. by apply grow_serve. }
  destruct Hg as [Hs Hw']. split; [done|]. intros b o Ho. by eapply lookup_weaken.
Qed.

Lemma owners_are_permanent_witness :
  wf init ∧ wf (fold_left (λ s r, (serve r.1.1 r.1.2 r.2 s).2)
    [(("a", "b"), None, SetKeyValue 0 "bucket" "k" "v");
     (("c", "d"), None, DeleteKey "bucket" "k")] init).
Proof.
  split; [reflexivity|].
  exact (proj1 (owners_are_permanent
    [(("a", "b"), None, SetKeyValue 0 "bucket" "k" "v");
     (("c", "d"), None, DeleteKey "bucket" "k")] init eq_refl _ eq_refl)).
Defined.

(** C40. Access control: when a bucket belongs to another client and is not
    public, every request for its content raises and changes nothing at all. *)
Theorem access_is_denied c machine r b owner s :
  wf s → content_of r = Some b → bucketOwners s !! b = Some owner →
  c ≠ owner → owner ≠ publicCredentials →
  ∃ e, serve c machine r s = (Raise e, s).
Proof.
  intros Hw Hr Ho Hc Hp.
  assert (HB : ∃ B, buckets s !! b = Some B).
  { apply elem_of_dom. rewrite Hw. by eapply elem_of_dom_2. }
  destruct HB as [B HB].
  pose proof (validateAccess_denied c s b owner Ho Hc Hp) as Hv.
  assert (Hraise : ∀ {A C} (m : M state A) (k : A → M state C) e,
    m s = (Raise e, s) → mbind k m s = (Raise e, s)).
  { intros A C m k e Hm. unfold mbind, M_bind. by rewrite Hm. }
  assert (Hset : ∀ now k v, ∃ e, setKeyValue c now b k v s = (Raise e, s)).
  { intros now k v. unfold setKeyValue. erewrite bind_step by reflexivity.
    destruct (match writeFailureInjector s with
              | Some f => f b k | None => false end); [by eexists|].
    erewrite bind_step by reflexivity. step (make_bucket_ok c _ _ _ HB).
    eexists. by apply Hraise. }
  destruct r; cbn [content_of serve] in *; simplify_eq;
    try (eexists; apply Hraise, Hraise, Hv);
    try (eexists; apply Hraise; unfold listKeysAndSizes, getKeyValue;
         step (need_bucket_ok _ _ _ HB); apply Hraise, Hv).
  - eexists. unfold deleteKey. step (make_bucket_ok c _ _ _ HB). apply Hraise, Hv.
  - apply Hset.
  - unfold setMultipartUploadPart. case_bool_decide; [|by eexists].
    erewrite bind_step by reflexivity. apply Hset.
Qed.

Lemma access_is_denied_witness :
  ∃ e, serve ("c", "d") None (CompleteMultipartUpload 1 "bucket" "k" "u")
    (serve ("a", "b") None (SetKeyValue 0 "bucket" "k" "v") init).2 =
    (Raise e, (serve ("a", "b") None (SetKeyValue 0 "bucket" "k" "v") init).2).
Proof.
  apply (access_is_denied ("c", "d") None _ "bucket" ("a", "b"));
    [reflexivity|reflexivity|reflexivity|discriminate|discriminate].
Defined.

(** ** Multipart uploads *)

Section multipart.
Context (c : credentials) (machine : option string) (b name : string) (t now : Z).

(** A part: its number and its content. *)
Abbreviation part := (Z * string)%type.
Let uid := initiateMultipartUpload name.
Let key_of (n : Z) : string := (uid ++ PyStr.str n)%string.

(** A bucket after parts were uploaded, one after another. *)
Definition uploaded (ups : list part) (B : gmap string InMemoryS3Key) :=
  foldl (λ B p, <[key_of p.1 := Key p.2 t]> B) B ups.

(** A key belongs to the upload, as the service sees it. *)
Definition of_upload (k : string) : Prop := String.prefix uid k = true.

Definition contents (B : gmap string InMemoryS3Key) (k : string) : string :=
  default EmptyString (value <$> B !! k).

Lemma key_of_inj n1 n2 : (0 ≤ n1)%Z → (0 ≤ n2)%Z → key_of n1 = key_of n2 → n1 = n2.
Proof.
  intros H1 H2 Heq. apply PyStr.str_inj; [done|done|].
  apply (f_equal (PyStr.drop (String.length uid))) in Heq. unfold key_of in Heq.
  by rewrite !PyStr.drop_app in Heq.
Qed.

Lemma int_key n :
  (0 ≤ n)%Z → PyStr.int (PyStr.drop (String.length uid) (key_of n)) = Ret n.
Proof. intros Hn. unfold key_of. by rewrite PyStr.drop_app, PyStr.int_str. Qed.

(** What uploading and reading leave alone. *)
Definition same (s s' : state) : Prop :=
  bucketOwners s' = bucketOwners s ∧ writeFailureInjector s' = writeFailureInjector s ∧
  throughput s' = throughput s.

Lemma same_allowed s s' : same s s' → allowed c s b → allowed c s' b.
Proof. intros [Ho _]. unfold allowed. by rewrite Ho. Qed.

Lemma upload_parts ups : ∀ s B,
  buckets s !! b = Some B → allowed c s b → writeFailureInjector s = None →
  (∀ p, p ∈ ups → (1 ≤ p.1 ≤ 10000)%Z) →
  ∃ s', forM_ (λ p : part, setMultipartUploadPart c t b uid p.1 p.2) ups s = (Ret tt, s') ∧
    same s s' ∧ buckets s' = <[b := uploaded ups B]> (buckets s).
Proof.
  induction ups as [|p ups IH]; intros s B HB Hc Hw Hps.
  - exists s. split_ands; [done|done|]. cbn. by rewrite insert_id.
  - assert (H1 : setMultipartUploadPart c t b uid p.1 p.2 s =
      (Ret tt, with_buckets (<[b := <[key_of p.1 := Key p.2 t]> B]> (buckets s)) s)).
    { unfold setMultipartUploadPart. assert (1 ≤ p.1 ≤ 10000)%Z by (apply Hps; left).
      rewrite bool_decide_eq_true_2 by done. erewrite bind_step by reflexivity.
      by apply setKeyValue_ok. }
    rewrite forM__cons. step H1.
    destruct (IH (with_buckets (<[b := <[key_of p.1 := Key p.2 t]> B]> (buckets s)) s)
      (<[key_of p.1 := Key p.2 t]> B)) as (s' & Heq & Hs & Hb).
    + cbn. by rewrite lookup_insert_eq.
    + by eapply same_allowed.
    + done.
    + intros q Hq. apply Hps. by right.
    + exists s'. split_ands; [exact Heq|exact Hs|]. rewrite Hb. cbn [buckets with_buckets].
      by rewrite insert_insert_eq.
Qed.

(** Reading and deleting keys in order. *)
Definition dropped (ks : list string) (B : gmap string InMemoryS3Key) :=
  foldl (λ B k, delete k B) B ks.

Lemma dropped_lookup ks B k : dropped ks B !! k = if decide (k ∈ ks) then None else B !! k.
Proof.
  revert B. induction ks as [|k' ks IH]; intros B; [done|].
  change (dropped (k' :: ks) B) with (dropped ks (delete k' B)). rewrite IH.
  destruct (decide (k ∈ ks)), (decide (k ∈ k' :: ks)) as [Hin|Hin]; rewrite elem_of_cons in Hin;
    [done|tauto| |].
  - destruct Hin as [->|]; [|done]. by rewrite lookup_delete_eq.
  - rewrite lookup_delete_ne; [done|]. intros ->. tauto.
Qed.

Lemma collect_keys (found : list (Z * string)) : ∀ s B,
  NoDup found.*2 → (∀ k, k ∈ found.*2 → is_Some (B !! k)) →
  buckets s !! b = Some B → allowed c s b → throughput s ≠ Some 0%Z →
  ∃ s', mapM (λ p : Z * string,
      v ← getKeyValue c machine b p.2 true;
      deleteKey c b p.2 ;; mret v) found s
    = (Ret ((λ x : Z * string, contents B x.2) <$> found), s') ∧ same s s' ∧
      buckets s' = <[b := dropped found.*2 B]> (buckets s).
Proof.
  induction found as [|[n k] found IH]; intros s B Hnd HB Hb Hc Ht.
  - exists s. split_ands; [done|done|]. cbn. by rewrite insert_id.
  - rewrite fmap_cons in Hnd, HB. apply NoDup_cons in Hnd as [Hk Hnd]. cbn [snd] in Hk, HB.
    destruct (HB k ltac:(left)) as [v Hv].
    destruct (getKeyValue_ok c machine b s B Hb Hc k v Ht Hv) as (bl & Hget).
    set (s1 := State _ _ _ _ _) in Hget.
    pose proof (deleteKey_ok c b s1 B Hb (same_allowed s s1 ltac:(done) Hc) k v Hv) as Hdel.
    set (s2 := with_buckets _ s1) in Hdel.
    destruct (IH s2 (delete k B) Hnd) as (s' & Heq & Hs & Hb').
    + intros k' Hk'. rewrite lookup_delete_ne by (intros ->; done). apply HB. by right.
    + cbn. by rewrite lookup_insert_eq.
    + by eapply same_allowed.
    + done.
    + exists s'. split_ands; [|exact Hs|].
      * rewrite mapM_cons. cbn [snd].
        assert (Hone : (v ← getKeyValue c machine b k true;
          deleteKey c b k ;; mret v) s = (Ret (value v), s2)) by (step Hget; by step Hdel).
        step Hone. step Heq. rewrite fmap_cons. cbn [snd]. assert (contents B k = value v) as -> by (unfold contents; by rewrite Hv).
        replace ((λ x : part, contents (delete k B) x.2) <$> found) with ((λ x : part, contents B x.2) <$> found);
          [done|]. apply list_fmap_ext. intros i [n' k'] Hi%list_elem_of_lookup_2. cbn. unfold contents.
        rewrite lookup_delete_ne; [done|]. intros ->. apply Hk. by apply (list_elem_of_fmap_2 snd) in Hi.
      * rewrite Hb'. cbn. by rewrite insert_insert_eq.
Qed.

(** The numbers in the names of keys. *)
Lemma number_keys (keys : list (string * nat * Z)) (number : string → Z) :
  (∀ x, x ∈ keys → PyStr.int (PyStr.drop (String.length uid) x.1.1) = Ret (number x.1.1)) →
  mapR (λ x : string * nat * Z,
      i ← PyStr.int (PyStr.drop (String.length uid) x.1.1); Ret (i, x.1.1)) keys
    = Ret ((λ x : string * nat * Z, (number x.1.1, x.1.1)) <$> keys).
Proof.
  induction keys as [|x keys IH]; intros Hx; [done|]. cbn [mapR]. rewrite (Hx x) by left.
  cbn [mbind res_bind]. rewrite IH by (intros; apply Hx; by right). done.
Qed.

#[local] Instance pair_le_trans : Transitive pair_le.
Proof.
  intros x y z [?|[? ?]] [?|[? ?]]; unfold pair_le; [left; lia|left; lia|left; lia|right].
  split; [congruence|]. by etrans.
Qed.
#[local] Instance pair_le_total : Total pair_le.
Proof.
  intros x y. unfold pair_le. destruct (Z.lt_total x.1 y.1) as [?|[?|?]]; [tauto| |tauto].
  destruct (String.le_total x.2 y.2); [left|right]; right; done.
Qed.
#[local] Instance pair_le_antisym : AntiSymm eq pair_le.
Proof.
  intros [n k] [n' k'] [?|[? ?]] [?|[? ?]]; cbn in *; try lia. f_equal; [done|]. by apply (anti_symm String.le).
Qed.

(** The keys of the upload, and their numbers: what [completeMultipartUpload] finds. *)
Lemma found_keys (found : list (Z * string)) B keys :
  keys = filter (λ x : string * nat * Z, String.prefix uid x.1.1 = true)
    ((λ x : string * InMemoryS3Key, (x.1, String.length (value x.2), mtime x.2)) <$> map_to_list B) →
  (∀ x, x ∈ found → PyStr.int (PyStr.drop (String.length uid) x.2) = Ret x.1) →
  (∀ k, k ∈ found.*2 ↔ of_upload k ∧ is_Some (B !! k)) →
  NoDup found →
  ∃ ids, mapR (λ x : string * nat * Z,
      i ← PyStr.int (PyStr.drop (String.length uid) x.1.1); Ret (i, x.1.1)) keys = Ret ids ∧ ids ≡ₚ found.
Proof.
  intros Hkeys Hint Hfound Hnd.
  assert (Hin : ∀ k, k ∈ (λ x : string * nat * Z, x.1.1) <$> keys ↔ k ∈ found.*2).
  { intros k. rewrite Hfound, Hkeys, list_elem_of_fmap. split.
    - intros (x & -> & [Hp Hx]%list_elem_of_filter). split; [done|].
      apply list_elem_of_fmap in Hx as ([k' v] & -> & Hx%elem_of_map_to_list). by eexists.
    - intros [Hp [v Hv]]. exists (k, String.length (value v), mtime v). split; [done|].
      apply list_elem_of_filter. split; [done|]. apply list_elem_of_fmap. exists (k, v).
      by split; [|apply elem_of_map_to_list]. }
  assert (Hnames : NoDup ((λ x : string * nat * Z, x.1.1) <$> keys)).
  { rewrite Hkeys. assert (Hall : NoDup ((λ x : string * nat * Z, x.1.1) <$>
      ((λ x : string * InMemoryS3Key, (x.1, String.length (value x.2), mtime x.2)) <$> map_to_list B))).
    { rewrite <- list_fmap_compose. apply NoDup_fst_map_to_list. }
    eapply sublist_NoDup; [exact Hall|]. apply fmap_sublist, sublist_filter. }
  pose (number := λ k, match PyStr.int (PyStr.drop (String.length uid) k) with Ret n => n | Raise _ => 0%Z end).
  eexists. split; [apply (number_keys keys number)|].
  - intros x Hx. apply (list_elem_of_fmap_2 (λ x : string * nat * Z, x.1.1)) in Hx. apply Hin in Hx.
    apply list_elem_of_fmap in Hx as ([n k] & -> & Hx). unfold number. by rewrite (Hint _ Hx).
  - apply NoDup_Permutation; [|done|].
    + apply (NoDup_fmap_1 snd). by rewrite <- list_fmap_compose.
    + intros [n k]. rewrite list_elem_of_fmap. split.
      * intros (x & [= -> ->] & Hx). apply (list_elem_of_fmap_2 (λ x : string * nat * Z, x.1.1)) in Hx.
        apply Hin in Hx. apply list_elem_of_fmap in Hx as ([n' k'] & Hk & Hx). cbn in Hk. rewrite Hk.
        unfold number. pose proof (Hint _ Hx) as Hn. cbn in Hn. by rewrite Hn.
      * intros Hx. pose proof (Hint _ Hx) as Hn. apply (list_elem_of_fmap_2 snd) in Hx. apply Hin in Hx.
        apply list_elem_of_fmap in Hx as (x & Hk & Hx). cbn in Hk, Hn. exists x. split; [|done].
        unfold number. by rewrite <- Hk, Hn.
Qed.

(** Uploads only touch keys of the upload. *)
Lemma uploaded_others ups B k : ¬ of_upload k → uploaded ups B !! k = B !! k.
Proof.
  intros Hk. revert B. induction ups as [|p ups IH]; intros B; [done|].
  change (uploaded (p :: ups) B) with (uploaded ups (<[key_of p.1 := Key p.2 t]> B)). rewrite IH.
  apply lookup_insert_ne. intros <-. apply Hk, PyStr.prefix_app.
Qed.

Lemma rest_of_bucket ups B ks :
  (∀ k, k ∈ ks ↔ of_upload k ∧ is_Some (uploaded ups B !! k)) →
  dropped ks (uploaded ups B) = filter (λ x, ¬ of_upload x.1) B.
Proof.
  intros Hks. apply map_eq. intros k. rewrite dropped_lookup. destruct (decide (of_upload k)) as [Hk|Hk].
  - transitivity (@None InMemoryS3Key); [|symmetry; apply map_lookup_filter_None; right; naive_solver].
    destruct (decide (k ∈ ks)) as [|Hin]; [done|]. apply eq_None_not_Some. rewrite Hks in Hin. tauto.
  - rewrite decide_False by (rewrite Hks; tauto). rewrite uploaded_others by done.
    rewrite map_lookup_filter. destruct (B !! k); [|done]. cbn. by rewrite option_guard_True.
Qed.

(** C33. What completing a multipart upload does, after any parts were uploaded to a bucket
    with any other keys in it. The service takes the keys that start with the upload's id.
    When what follows the id is a number in each of them, and they are at most 1000, it
    stores under the eventual name their contents, in the order of the numbers (and of the
    keys, for one number), removes all of them, and leaves every key that does not start with
    the id as it was. So the parts of an upload come together in the order of their numbers,
    each as it was uploaded last; a key of another upload that starts with this id, as the
    part [2] of [k1] does for the id of [k], is taken for a part too (see
    [uploads_with_common_prefix_mix]). *)
Theorem multipart_upload_assembles ups s B (found : list (Z * string)) :
  buckets s !! b = Some B → allowed c s b → writeFailureInjector s = None →
  throughput s ≠ Some 0%Z →
  (∀ p, p ∈ ups → (1 ≤ p.1 ≤ 10000)%Z) →
  (∀ x, x ∈ found → PyStr.int (PyStr.drop (String.length uid) x.2) = Ret x.1) →
  (∀ k, k ∈ found.*2 ↔ of_upload k ∧ is_Some (uploaded ups B !! k)) →
  NoDup found → StronglySorted pair_le found → length found ≤ 1000 →
  ∃ s', (forM_ (λ p : part, setMultipartUploadPart c t b (initiateMultipartUpload name) p.1 p.2)
           ups ;;
         completeMultipartUpload c machine now b name (initiateMultipartUpload name)) s
    = (Ret tt, s') ∧
    buckets s' = <[b := <[name := Key (String.concat EmptyString
                             ((λ x : Z * string, contents (uploaded ups B) x.2) <$> found)) now]>
                          (filter (λ x, ¬ of_upload x.1) B)]> (buckets s) ∧
    bucketOwners s' = bucketOwners s.
Proof.
  intros Hb Hc Hw Ht Hrange Hint Hfound Hnd Hsort Hlen. fold uid.
  destruct (upload_parts ups s B Hb Hc Hw Hrange) as (s1 & Hup & Hs1 & Hb1).
  assert (Hb1' : buckets s1 !! b = Some (uploaded ups B)) by (rewrite Hb1; apply lookup_insert_eq).
  pose proof (same_allowed _ _ Hs1 Hc) as Hc1.
  step Hup. unfold completeMultipartUpload. step (listKeysWithPrefix_ok c b s1 _ Hb1' Hc1 uid).
  edestruct (found_keys found (uploaded ups B)) as (ids & Hids & Hperm); [reflexivity|done|done|done|].
  erewrite bind_step by (unfold lift; rewrite Hids; reflexivity).
  assert (merge_sort pair_le ids = found) as ->.
  { apply (StronglySorted_unique pair_le); [apply StronglySorted_merge_sort; apply _|done|].
    by rewrite merge_sort_Permutation. }
  rewrite (bool_decide_eq_true_2 (length _ ≤ 1000)) by exact Hlen. erewrite bind_step by reflexivity.
  destruct (collect_keys found s1 (uploaded ups B)) as (s2 & Hcol & Hs2 & Hb2); [| |done|done| |].
  { apply NoDup_fmap_2_strong; [|done]. intros [n1 k1] [n2 k2] H1 H2 Hk. cbn in Hk. subst k2.
    apply Hint in H1, H2. cbn in *. congruence. }
  { intros k Hk. by apply Hfound. }
  { destruct Hs1 as (_ & _ & ->). done. }
  step Hcol. rewrite rest_of_bucket in Hb2 by exact Hfound.
  assert (Hb2' : buckets s2 !! b = Some (filter (λ x, ¬ of_upload x.1) B)) by (rewrite Hb2; apply lookup_insert_eq).
  destruct Hs1 as (Ho1 & Hw1 & Ht1), Hs2 as (Ho2 & Hw2 & Ht2).
  eexists. split; [apply (setKeyValue_ok c b s2 _ Hb2')|].
  - by apply (same_allowed s1).
  - congruence.
  - cbn. rewrite Hb2, Hb1, !insert_insert_eq. split; [done|congruence].
Qed.

(** When nothing else in the bucket starts with the id, the keys that are found are the
    parts, and nothing else of the bucket changes. *)
Lemma parts_alone ups parts B :
  ups ≡ₚ parts → StronglySorted (λ p q : part, (p.1 < q.1)%Z) parts →
  (∀ p, p ∈ parts → (1 ≤ p.1)%Z) → (∀ k, is_Some (B !! k) → ¬ of_upload k) →
  let found := (λ p : part, (p.1, key_of p.1)) <$> parts in
  (∀ x, x ∈ found → PyStr.int (PyStr.drop (String.length uid) x.2) = Ret x.1) ∧
  (∀ k, k ∈ found.*2 ↔ of_upload k ∧ is_Some (uploaded ups B !! k)) ∧
  NoDup found ∧ StronglySorted pair_le found ∧ filter (λ x, ¬ of_upload x.1) B = B.
Proof.
  intros Hperm Hsort Hpos HB found.
  assert (Hup : ∀ l B' k, is_Some (uploaded l B' !! k) ↔ k ∈ (λ p : part, key_of p.1) <$> l ∨ is_Some (B' !! k)).
  { induction l as [|p l IH]; intros B' k; [cbn; rewrite elem_of_nil; naive_solver|].
    change (uploaded (p :: l) B') with (uploaded l (<[key_of p.1 := Key p.2 t]> B')). rewrite fmap_cons.
    rewrite IH, lookup_insert_is_Some', elem_of_cons. naive_solver. }
  split_ands.
  - intros x (p & -> & Hp)%list_elem_of_fmap. cbn. apply int_key. pose proof (Hpos p Hp). lia.
  - intros k. unfold found. rewrite <- list_fmap_compose. unfold compose. cbn. rewrite Hup, <- Hperm. split.
    + intros Hk. split; [|by left]. apply list_elem_of_fmap in Hk as (p & -> & _). apply PyStr.prefix_app.
    + intros [Hk [?|Hs]]; [done|]. by destruct (HB k Hs).
  - clear -Hsort. subst found. induction Hsort as [|p parts _ IH Hall]; [constructor|]. cbn. constructor; [|done].
    intros (q & [= Hq _] & Hin)%list_elem_of_fmap. rewrite Forall_forall in Hall. specialize (Hall q Hin). lia.
  - clear -Hsort. subst found. induction Hsort as [|p parts _ IH Hall]; [constructor|]. cbn. constructor; [done|].
    apply Forall_fmap. eapply Forall_impl; [exact Hall|]. intros q Hq. by left.
  - apply map_filter_id. intros k v Hk. cbn. apply HB. by eexists.
Qed.
End multipart.

Module S3Samples.
(** Parts of [k] and of [k1]: completing [k] takes the parts of [k1] too. *)
Definition prefix_clash : state :=
  ((setMultipartUploadPart ("a", "b") 1 "bucket" (initiateMultipartUpload "k") 1 "x" ;;
    setMultipartUploadPart ("a", "b") 1 "bucket" (initiateMultipartUpload "k1") 2 "y" ;;
    completeMultipartUpload ("a", "b") None 2 "bucket" "k" (initiateMultipartUpload "k"))
   init).2.

Lemma uploads_with_common_prefix_mix :
  buckets prefix_clash !! "bucket" = Some {[ "k" := Key "xy" 2 ]}.
Proof. vm_compute. reflexivity. Qed.

(** A client with a bucket of its own cannot list buckets once another client
    has one. *)
Lemma listBuckets_raises :
  (listBuckets ("c", "d")
     (serve ("a", "b") None (SetKeyValue 0 "bucket" "k" "v") init).2).1
  = Raise AttributeError.
Proof. vm_compute. reflexivity. Qed.

Definition bucket_made : state :=
  (serve ("a", "b") None (SetKeyValue 0 "bucket" "other" "v") init).2.
End S3Samples.

(** Parts out of order, the second uploaded twice, in a bucket with a part of another
    upload, of ["k1"]. *)
Lemma multipart_upload_assembles_witness :
  let s := (serve ("a", "b") None (SetMultipartUploadPart 0 "bucket" (initiateMultipartUpload "k1") 7 "!")
              S3Samples.bucket_made).2 in
  ∃ s', (forM_ (λ p : Z * string, setMultipartUploadPart ("a", "b") 1 "bucket"
            (initiateMultipartUpload "k") p.1 p.2) [(10, "z"); (2, "?"); (1, "x"); (2, "y")]%Z ;;
         completeMultipartUpload ("a", "b") None 2 "bucket" "k"
           (initiateMultipartUpload "k")) s = (Ret tt, s') ∧
    buckets s' !! "bucket" = Some {[ "k" := Key "xyz!" 2; "other" := Key "v" 0 ]}.
Proof.
  intros s. destruct (multipart_upload_assembles ("a", "b") None "bucket" "k" 1 2
    [(10, "z"); (2, "?"); (1, "x"); (2, "y")]%Z s
    {[ "other" := Key "v" 0; "__multipart__k17" := Key "!" 0 ]}
    [(1, "__multipart__k1"); (2, "__multipart__k2"); (10, "__multipart__k10"); (17, "__multipart__k17")]%Z)
    as (s' & Hrun & Hb & _).
  - reflexivity.
  - exists ("a", "b"). split; [reflexivity|by left].
  - reflexivity.
  - discriminate.
  - intros p Hp. rewrite !elem_of_cons, elem_of_nil in Hp.
    destruct Hp as [->|[->|[->|[->|[]]]]]; cbn; lia.
  - intros x Hx. rewrite !elem_of_cons, elem_of_nil in Hx.
    destruct Hx as [->|[->|[->|[->|[]]]]]; reflexivity.
  - intros k. set (B := uploaded _ _ _ _).
    assert (B = {[ "__multipart__k1" := Key "x" 1; "__multipart__k2" := Key "y" 1;
      "__multipart__k10" := Key "z" 1; "__multipart__k17" := Key "!" 0; "other" := Key "v" 0 ]}) as ->
      by (apply map_eq_iff; vm_compute; done).
    change (_.*2) with ["__multipart__k1"; "__multipart__k2"; "__multipart__k10"; "__multipart__k17"]%string.
    rewrite !lookup_insert_is_Some', lookup_singleton_is_Some, !elem_of_cons, elem_of_nil. split.
    + intros [->|[->|[->|[->|[]]]]]; (split; [reflexivity|tauto]).
    + intros [Hp [<-|[<-|[<-|[<-|<-]]]]]; try tauto. discriminate Hp.
  - repeat (constructor; [rewrite ?not_elem_of_cons; repeat split; done || apply not_elem_of_nil|]). constructor.
  - repeat constructor.
  - cbn. lia.
  - exists s'. split; [exact Hrun|]. rewrite Hb. vm_compute. reflexivity.
Defined.

(** ** Chunks of a dataset ([CacheSemantics.getAppropriateChunksForSize]) *)

Module Chunks.

(** The loop; [None] when the fuel ends. *)
Fixpoint cut (fuel : nat) (curIx size chunkSize : Z) : option (list (Z * Z)) :=
  match fuel with
  | O => None
  | S fuel =>
      if (curIx <? size)%Z then
        let top := Z.min (curIx + chunkSize) size in
        l ← cut fuel top size chunkSize; Some ((curIx, top) :: l)
      else Some []
  end.

(** The last chunk joins the one before when it is short. *)
Definition join_last (chunkSize : Z) (chunks : list (Z * Z)) : list (Z * Z) :=
  match rev chunks with
  | (lo2, hi2) :: (lo1, hi1) :: rest =>
      if (hi2 - lo2 <? chunkSize / 2)%Z then rev ((lo1, hi2) :: rest) else chunks
  | _ => chunks
  end.

(** A positive chunk size advances the loop by at least one. *)
Definition getAppropriateChunksForSize (size chunkSize : Z) : option (list (Z * Z)) :=
  join_last chunkSize <$> cut (S (Z.to_nat size)) 0 size chunkSize.

(** [l] cuts the interval from [lo] to [hi]. *)
Inductive tiles : Z → Z → list (Z * Z) → Prop :=
| tiles_nil x : tiles x x []
| tiles_cons lo mid hi l : (lo < mid)%Z → tiles mid hi l → tiles lo hi ((lo, mid) :: l).

Lemma tiles_app lo hi l1 l2 :
  tiles lo hi (l1 ++ l2) ↔ ∃ mid, tiles lo mid l1 ∧ tiles mid hi l2.
Proof.
  revert lo. induction l1 as [|[a b] l1 IH]; intros lo; cbn.
  - split; [intros H; exists lo; split; [constructor|done]|].
    intros (mid & H1 & H2). by inversion H1; subst.
  - split.
    + inversion 1 as [|? ? ? ? Hlt Ht]; subst. apply IH in Ht as (mid & H1 & H2).
      exists mid. split; [by constructor|done].
    + intros (mid & H1 & H2). inversion H1; subst. constructor; [done|].
      apply IH. eauto.
Qed.

Lemma tiles_le lo hi l : tiles lo hi l → (lo ≤ hi)%Z.
Proof. induction 1; lia. Qed.

Lemma tiles_one lo hi a b : tiles lo hi [(a, b)] → a = lo ∧ b = hi ∧ (lo < hi)%Z.
Proof. inversion 1 as [|? ? ? ? ? Hn]; subst. by inversion Hn; subst. Qed.

(** Every chunk of the loop but the last has the chunk size. *)
Inductive full (cs : Z) : list (Z * Z) → Prop :=
| full_nil : full cs []
| full_last a b : (b - a ≤ cs)%Z → full cs [(a, b)]
| full_cons a b l : (b - a = cs)%Z → full cs l → full cs ((a, b) :: l).

Lemma cut_ok fuel cur size cs :
  (0 < cs)%Z → (cur ≤ size)%Z → (size - cur < Z.of_nat fuel)%Z →
  ∃ l, cut fuel cur size cs = Some l ∧ tiles cur size l ∧ full cs l.
Proof.
  revert cur. induction fuel as [|fuel IH]; intros cur Hcs Hle Hf; [lia|]. cbn [cut].
  destruct (Z.ltb_spec cur size) as [Hlt|Hge].
  - destruct (IH (Z.min (cur + cs) size)) as (l & -> & Ht & Hl); [lia..|].
    eexists. split; [reflexivity|]. split; [constructor; [lia|done]|].
    destruct (Z.le_gt_cases (cur + cs) size) as [Hc|Hc].
    + apply full_cons; [lia|done].
    + rewrite Z.min_r in * by lia. inversion Ht as [|? ? ? ? Hlt' Ht']; subst.
      * apply full_last. lia.
      * apply tiles_le in Ht'. lia.
  - assert (cur = size) as -> by lia. exists []. split_ands; [done|constructor|constructor].
Qed.

Lemma full_app cs l x : full cs (l ++ [x]) → Forall (λ c, c.2 - c.1 = cs)%Z l ∧ (x.2 - x.1 ≤ cs)%Z.
Proof.
  induction l as [|y l IH]; cbn; intros H.
  - inversion H; subst; split; try constructor; cbn; lia.
  - inversion H as [|? ? ? Heq|? ? ? ? Hl]; subst; [by destruct l|].
    destruct (IH Hl). split; [by constructor|done].
Qed.

(** For a positive chunk size, [getAppropriateChunksForSize] returns chunks
    that follow one another from 0 to the size without gap or overlap, each
    non-empty and at most one and a half chunk sizes long; when there are
    several, none is shorter than half a chunk size. *)
Theorem chunks_cover size chunkSize :
  (0 < chunkSize)%Z → (0 ≤ size)%Z →
  ∃ l, getAppropriateChunksForSize size chunkSize = Some l ∧ tiles 0 size l ∧
    ∀ a b, (a, b) ∈ l → (2 * (b - a) ≤ 3 * chunkSize)%Z ∧
      (length l = 1%nat ∨ (chunkSize / 2 ≤ b - a)%Z).
Proof.
  intros Hcs Hsize.
  destruct (cut_ok (S (Z.to_nat size)) 0 size chunkSize) as (l & Hl & Ht & Hf); [lia..|].
  unfold getAppropriateChunksForSize. rewrite Hl. cbn [fmap option_fmap option_map].
  eexists. split; [reflexivity|]. clear Hl. unfold join_last.
  destruct (rev l) as [|[lo2 hi2] [|[lo1 hi1] rest]] eqn:Hr;
    apply (f_equal (@rev _)) in Hr; rewrite rev_involutive in Hr; cbn in Hr; subst l.
  - split; [done|]. intros a b Hab. by apply not_elem_of_nil in Hab.
  - split; [done|]. apply (full_app _ []) in Hf as [_ Hf]. cbn in Hf.
    intros a b [= -> ->]%list_elem_of_singleton. split; [lia|by left].
  - apply full_app in Hf as [Hall Hlast]. cbn in Hlast.
    apply Forall_app in Hall as [Hrest [Hlo1 _]%Forall_cons_1]. cbn in Hlo1.
    rewrite Forall_forall in Hrest.
    assert (Hhalf : (2 * (chunkSize / 2) ≤ chunkSize)%Z)
      by (apply Z.mul_div_le; lia).
    apply tiles_app in Ht as (m2 & Ht & Ht2). apply tiles_app in Ht as (m1 & Ht1 & Ht).
    apply tiles_one in Ht as (-> & -> & Ht). apply tiles_one in Ht2 as (-> & -> & Ht2).
    destruct (Z.ltb_spec (size - m2) (chunkSize / 2)) as [Hlt|Hge]; cbn [rev].
    + split.
      * apply tiles_app. exists m1. split; [done|].
        constructor; [lia|constructor].
      * intros a b [Hab|[= -> ->]%list_elem_of_singleton]%elem_of_app.
        -- specialize (Hrest _ Hab). cbn in Hrest. lia.
        -- lia.
    + split.
      * apply tiles_app. exists m2. split; [apply tiles_app; exists m1; split; [done|]|].
        -- constructor; [lia|constructor].
        -- constructor; [lia|constructor].
      * intros a b [[Hab|[= -> ->]%list_elem_of_singleton]%elem_of_app
          |[= -> ->]%list_elem_of_singleton]%elem_of_app; [|lia|lia].
        specialize (Hrest _ Hab). cbn in Hrest. lia.
Qed.

End Chunks.

Lemma chunks_cover_witness :
  ∃ l, Chunks.getAppropriateChunksForSize 21 10 = Some l ∧ Chunks.tiles 0 21 l.
Proof.
  destruct (Chunks.chunks_cover 21 10 ltac:(lia) ltac:(lia)) as (l & Hl & Ht & _).
  exists l. split; [exact Hl|exact Ht].
Defined.
