(* ===== verification/ChannelDemuxer.v ===== *)
(** * Demultiplexing channels ([ufora/networking/ChannelDemuxer.py])

    Messages of many channels travel over one transport and may arrive in any
    order; each carries a sequence number, and the demuxer writes the contents of
    a channel in sequence. *)
From stdpp Require Import base gmap sets list strings fin_maps.
From S2P Require Import Prelude PyStrings.

(** ** Messages *)

(** A value of a JSON object: a string, an integer, [null], or a list or object,
    which cannot be a dict key. *)
Inductive jvalue := JStr (s : string) | JInt (z : Z) | JNull | JUnhashable.

#[export] Instance jvalue_eq_dec : EqDecision jvalue.
Proof. solve_decision. Defined.
#[export] Instance jvalue_countable : Countable jvalue.
Proof.
  apply (inj_countable'
    (λ v, match v with
          | JStr s => inl s | JInt z => inr (inl z)
          | JNull => inr (inr true) | JUnhashable => inr (inr false) end)
    (λ x : string + (Z + bool), match x with
          | inl s => JStr s | inr (inl z) => JInt z
          | inr (inr true) => JNull | inr (inr false) => JUnhashable end)).
  by intros [].
Defined.

(** What [json.loads] makes of a text: [None] when it is not JSON, [Some None]
    when it is not an object, else the object. A text written by [json.dumps] is
    identified with its object. *)
Abbreviation text := (option (option (gmap string jvalue))).

Record Message := Msg {
  channelGroup : jvalue;
  channelId : jvalue;
  hostId : jvalue;
  sequenceNumber : jvalue;
  content : string }.

(** [Message(...)]: the constructor's assertion. *)
Definition new_Message (m : Message) : res Message :=
  _ ← py_assert (negb (bool_decide (channelGroup m = JStr ""))); Ret m.

(** [encodeMessage]: the instance's dict with the content in base64. *)
Definition encodeMessage (m : Message) : text :=
  Some (Some (<["channelGroup" := channelGroup m]> (<["channelId" := channelId m]>
    (<["hostId" := hostId m]> (<["sequenceNumber" := sequenceNumber m]>
      {[ "content" := JStr (Base64.b64encode (content m)) ]}))))).

Section decode.
(** [base64.b64decode] of a text that is not an encoding. *)
Context (b64decode_other : string → res string).

Definition b64decode (s : string) : res string :=
  if bool_decide (Base64.b64encode (Base64.b64decode s) = s)
  then Ret (Base64.b64decode s) else b64decode_other s.

Definition decodeMessage (encodedMessage : text) : res Message :=
  messageDict ← of_option ValueError encodedMessage;
  messageDict ← of_option TypeError messageDict;
  c ← of_option KeyError (messageDict !! "content");
  c ← match c with JStr s => b64decode s | _ => Raise TypeError end;
  let field f := of_option TypeError (messageDict !! f) in
  g ← field "channelGroup"; i ← field "channelId"; h ← field "hostId";
  s ← field "sequenceNumber";
  _ ← (if bool_decide (size messageDict = 5) then Ret tt else Raise TypeError);
  new_Message (Msg g i h s c).

Lemma decode_encode m :
  channelGroup m ≠ JStr "" → decodeMessage (encodeMessage m) = Ret m.
Proof.
  intros Hg. destruct m as [g i h s c]. unfold decodeMessage, encodeMessage.
  cbn [of_option mbind res_bind channelGroup channelId hostId sequenceNumber content] in *.
  set (d := <["channelGroup" := g]> _).
  assert (Hc : d !! "content" = Some (JStr (Base64.b64encode c))) by by simplify_map_eq.
  assert (H1 : d !! "channelGroup" = Some g) by by simplify_map_eq.
  assert (H2 : d !! "channelId" = Some i) by by simplify_map_eq.
  assert (H3 : d !! "hostId" = Some h) by by simplify_map_eq.
  assert (H4 : d !! "sequenceNumber" = Some s) by by simplify_map_eq.
  assert (Hd : size d = 5).
  { unfold d. rewrite !map_size_insert_None by by simplify_map_eq.
    by rewrite map_size_singleton. }
  rewrite Hc, H1, H2, H3, H4, Hd. cbn [of_option mbind res_bind].
  unfold b64decode. rewrite Base64.b64_roundtrip, bool_decide_eq_true_2 by done.
  rewrite bool_decide_eq_true_2 by done. cbn [mbind res_bind].
  unfold new_Message. cbn. by rewrite bool_decide_eq_false_2.
Qed.
End decode.

(** ** Channels and the demuxer *)

Definition MAX_BACKLOG_SIZE : Z := 1024 * 1024 * 100.
Definition SUPRESSION_COUNT : Z := 1.

(** A channel object with the attributes that [add] gives it. [written] and
    [disconnects] record the calls of [write] that returned and the calls of
    [disconnect]. *)
Record channel := Channel {
  group : string;
  incomingSequenceNumber : Z;
  outgoingSequenceNumber : Z;
  messageBacklog : gmap Z Message;
  byteSize : Z;
  written : list string;
  disconnects : nat }.

(** Channel objects are shared by [channels] and by their threads, so they are
    numbered; [sent] is what went to the transport, [broke] the groups given to
    [onChannelBroke]. *)
Record demuxer := Demuxer {
  objects : gmap nat channel;
  channels : gmap string nat;
  shuttingDown : bool;
  totalBytesRead : Z;
  badChannelMessageCount : gmap jvalue Z;
  sent : list text;
  broke : list string }.

Definition set_object (c : nat) (o : channel) (d : demuxer) : demuxer :=
  Demuxer (<[c := o]> (objects d)) (channels d) (shuttingDown d) (totalBytesRead d)
    (badChannelMessageCount d) (sent d) (broke d).
Definition set_channels (cs : gmap string nat) (d : demuxer) : demuxer :=
  Demuxer (objects d) cs (shuttingDown d) (totalBytesRead d)
    (badChannelMessageCount d) (sent d) (broke d).
Definition add_bytes (n : Z) (d : demuxer) : demuxer :=
  Demuxer (objects d) (channels d) (shuttingDown d) (totalBytesRead d + n)
    (badChannelMessageCount d) (sent d) (broke d).
Definition set_bad (b : gmap jvalue Z) (d : demuxer) : demuxer :=
  Demuxer (objects d) (channels d) (shuttingDown d) (totalBytesRead d)
    b (sent d) (broke d).
Definition add_sent (t : text) (d : demuxer) : demuxer :=
  Demuxer (objects d) (channels d) (shuttingDown d) (totalBytesRead d)
    (badChannelMessageCount d) (sent d ++ [t]) (broke d).
Definition add_broke (g : string) (d : demuxer) : demuxer :=
  Demuxer (objects d) (channels d) (shuttingDown d) (totalBytesRead d)
    (badChannelMessageCount d) (sent d) (broke d ++ [g]).

Definition init : demuxer := Demuxer ∅ ∅ false 0 ∅ [] [].

(** [add] and the start of [channelThread_]: the object [c] gets its attributes
    and is registered under the generated id. *)
Definition add (c : nat) (id channelGroup : string) : M demuxer unit :=
  modify (set_object c (Channel channelGroup 0 0 ∅ 0 [] 0)) ;;
  modify (λ d, set_channels (<[id := c]> (channels d)) d).

Definition object (c : nat) : M demuxer channel := λ d,
  (of_option AttributeError (objects d !! c), d).
Definition update (c : nat) (f : channel → channel) : M demuxer unit :=
  o ← object c; modify (set_object c (f o)).

Definition logBytes (byteCount : Z) : M demuxer unit := modify (add_bytes byteCount).

Definition set_backlog (b : gmap Z Message) (o : channel) : channel :=
  Channel (group o) (incomingSequenceNumber o) (outgoingSequenceNumber o) b
    (byteSize o) (written o) (disconnects o).
Definition add_byteSize (n : Z) (o : channel) : channel :=
  Channel (group o) (incomingSequenceNumber o) (outgoingSequenceNumber o)
    (messageBacklog o) (byteSize o + n) (written o) (disconnects o).
Definition next_incoming (o : channel) : channel :=
  Channel (group o) (incomingSequenceNumber o + 1) (outgoingSequenceNumber o)
    (messageBacklog o) (byteSize o) (written o) (disconnects o).
Definition next_outgoing (o : channel) : channel :=
  Channel (group o) (incomingSequenceNumber o) (outgoingSequenceNumber o + 1)
    (messageBacklog o) (byteSize o) (written o) (disconnects o).
Definition add_written (s : string) (o : channel) : channel :=
  Channel (group o) (incomingSequenceNumber o) (outgoingSequenceNumber o)
    (messageBacklog o) (byteSize o) (written o ++ [s]) (disconnects o).
Definition count_disconnect (o : channel) : channel :=
  Channel (group o) (incomingSequenceNumber o) (outgoingSequenceNumber o)
    (messageBacklog o) (byteSize o) (written o) (S (disconnects o)).

Definition strlen (s : string) : Z := Z.of_nat (String.length s).

Section handlers.
(** The channel's own operations (native code) and the client's callback: the
    exception each raises, if any, given the channel and the content. *)
Context (write_raises : nat → string → option exn)
  (disconnect_raises : nat → option exn)
  (onChannelBroke : option (string → option exn))
  (b64decode_other : string → res string).

Definition raise_option (o : option exn) : M demuxer unit :=
  match o with Some e => raise e | None => mret tt end.

(** [channel.write(content)] inside its [try]: does it raise? *)
Definition try_write (c : nat) (s : string) : M demuxer bool :=
  match write_raises c s with
  | Some _ => mret true
  | None => update c (add_written s) ;; mret false
  end.

Definition disconnect (c : nat) : M demuxer unit :=
  update c count_disconnect ;; raise_option (disconnect_raises c).

(** One turn of the loop of [drainMessageBacklog]. *)
Definition drain_one (c : nat) (o : channel) (message : Message) : M demuxer unit :=
  update c (set_backlog (delete (incomingSequenceNumber o) (messageBacklog o))) ;;
  deleteChannel ←
    (if bool_decide (0 < strlen (content message))%Z then
       update c (add_byteSize (- strlen (content message))) ;;
       update c next_incoming ;;
       try_write c (content message)
     else mret true);
  d ← get;
  match channelId message with
  | JStr id =>
      when (deleteChannel && bool_decide (is_Some (channels d !! id)))
        (modify (λ d, set_channels (delete id (channels d)) d) ;;
         disconnect c ;;
         match onChannelBroke with
         | Some f => modify (add_broke (group o)) ;; raise_option (f (group o))
         | None => mret tt
         end)
  | _ => mret tt
  end.

(** [drainMessageBacklog]; a turn removes a message, so the backlog's size
    bounds the turns. *)
Fixpoint drain (fuel : nat) (c : nat) : M demuxer unit :=
  match fuel with
  | O => raise RecursionLimit
  | S fuel =>
      o ← object c;
      match messageBacklog o !! incomingSequenceNumber o with
      | Some message => drain_one c o message ;; drain fuel c
      | None => mret tt
      end
  end.

Definition drainMessageBacklog (c : nat) : M demuxer unit :=
  o ← object c; drain (S (size (messageBacklog o))) c.

(** [int(message.sequenceNumber)]. *)
Definition int_of (v : jvalue) : res Z :=
  match v with JInt z => Ret z | JStr s => PyStr.int s | _ => Raise TypeError end.

(** The body of the [try] of [onMessageReceived_]. *)
Definition accept (c : nat) (message : Message) : M demuxer unit :=
  n ← lift (int_of (sequenceNumber message));
  o ← object c;
  update c (set_backlog (<[n := message]> (messageBacklog o))) ;;
  update c (add_byteSize (strlen (content message))) ;;
  logBytes (strlen (content message)) ;;
  o ← object c;
  lift (py_assert (bool_decide (byteSize o < MAX_BACKLOG_SIZE)%Z)) ;;
  when (bool_decide (n = incomingSequenceNumber o)) (drainMessageBacklog c).

(** [except UserWarning: if not self.shuttingDown: raise] and
    [except Exception: log]. *)
Definition log_exceptions (m : M demuxer unit) : M demuxer unit := λ d,
  match m d with
  | (Ret u, d') => (Ret u, d')
  | (Raise e, d') =>
      if bool_decide (e = UserWarning) then
        if shuttingDown d' then (Ret tt, d') else (Raise e, d')
      else (Ret tt, d')
  end.

Definition onMessageReceived (encodedMessage : text) : M demuxer unit := λ d,
  match decodeMessage b64decode_other encodedMessage with
  | Raise ValueError => (Ret tt, d)
  | Raise e => (Raise e, d)
  | Ret message =>
      match channelId message with
      | JUnhashable => (Raise TypeError, d)
      | i =>
          match (match i with JStr id => channels d !! id | _ => None end) with
          | Some c => log_exceptions (accept c message) d
          | None =>
              (Ret tt, set_bad (<[i := (default 0 (badChannelMessageCount d !! i) + 1)%Z]>
                                  (badChannelMessageCount d)) d)
          end
      end
  end.

(** *** The sending side: one turn of the loop of [channelThread_]

    [content] is what [channel.get()] returned, [None] when it raised
    [UserWarning]. The result says whether the loop goes on. *)
Definition channelThread_turn (c : nat) (id channelGroup hostId : string)
    (content : option string) : M demuxer bool :=
  d ← get;
  match content, channels d !! id with
  | None, None => mret false
  | _, _ =>
      o ← object c;
      lift (new_Message (Msg (JStr channelGroup) (JStr id) (JStr hostId)
              (JInt (outgoingSequenceNumber o)) (default "" content))) ;;
      update c next_outgoing ;;
      modify (add_sent (encodeMessage (Msg (JStr channelGroup) (JStr id) (JStr hostId)
              (JInt (outgoingSequenceNumber o)) (default "" content)))) ;;
      mret (bool_decide (is_Some content))
  end.

(** [close], of channels whose [disconnect] does not raise anything it does not
    catch; the threads have then ended. *)
Definition close : M demuxer unit :=
  modify (λ d, Demuxer (objects d) (channels d) true (totalBytesRead d)
                 (badChannelMessageCount d) (sent d) (broke d)) ;;
  d ← get;
  forM_ (λ x : string * nat,
      modify (λ d, set_channels (delete x.1 (channels d)) d) ;;
      update x.2 count_disconnect) (map_to_list (channels d)) ;;
  modify (λ d, Demuxer (objects d) ∅ false (totalBytesRead d)
                 (badChannelMessageCount d) (sent d) (broke d)).
End handlers.

(** ** Delivery in sequence *)

Lemma set_object_twice c o1 o2 d : set_object c o2 (set_object c o1 d) = set_object c o2 d.
Proof. unfold set_object. cbn. by rewrite insert_insert_eq. Qed.

Lemma object_ok d c o : objects d !! c = Some o → object c d = (Ret o, d).
Proof. intros Ho. unfold object. by rewrite Ho. Qed.

Lemma update_ok d c o f :
  objects d !! c = Some o → update c f d = (Ret tt, set_object c (f o) d).
Proof. intros Ho. unfold update. by step (object_ok _ _ _ Ho). Qed.

Lemma objects_set_object d c o : objects (set_object c o d) !! c = Some o.
Proof. apply lookup_insert_eq. Qed.

Section delivery.
Context (write_raises : nat → string → option exn)
  (disconnect_raises : nat → option exn)
  (onChannelBroke : option (string → option exn))
  (b64decode_other : string → res string).
(** One channel, and the messages sent on it. *)
Context (c : nat) (id g h : string) (contents : list string).
Context (Hwrite : ∀ s, write_raises c s = None).
Context (Hg : g ≠ "").
Context (Hcontents : ∀ s, s ∈ contents → s ≠ "").

Definition message (k : nat) (s : string) : Message :=
  Msg (JStr g) (JStr id) (JStr h) (JInt (Z.of_nat k)) s.

Definition nth_message (k : nat) : Message := message k (contents !!! k).

Definition total (ss : list string) : Z := Z.of_nat (sum_list_with String.length ss).

(** The channel after the messages numbered [R] were received: those before
    [k] are written, the others wait. *)
Definition holds (R : list nat) (k : nat) (o : channel) : Prop :=
  incomingSequenceNumber o = Z.of_nat k ∧ k ≤ length contents ∧
  (∀ j, j < k → j ∈ R) ∧ written o = take k contents ∧
  (∀ j : nat, messageBacklog o !! Z.of_nat j =
     if decide (j ∈ R ∧ k ≤ j) then Some (nth_message j) else None) ∧
  (∀ z, (z < 0)%Z → messageBacklog o !! z = None) ∧
  byteSize o = (total ((λ j, contents !!! j) <$> R) - total (take k contents))%Z.

Lemma total_nonneg ss : (0 ≤ total ss)%Z.
Proof. unfold total. lia. Qed.

Lemma total_app ss1 ss2 : total (ss1 ++ ss2) = (total ss1 + total ss2)%Z.
Proof. unfold total. rewrite sum_list_with_app. lia. Qed.

Lemma total_one s : total [s] = strlen s.
Proof. unfold total, strlen. cbn. lia. Qed.

Lemma nonempty_strlen s : s ≠ "" → (0 < strlen s)%Z.
Proof. destruct s; [done|]. unfold strlen. cbn. lia. Qed.

Lemma drain_one_ok d o k :
  objects d !! c = Some o → k < length contents →
  incomingSequenceNumber o = Z.of_nat k →
  drain_one write_raises disconnect_raises onChannelBroke c o (nth_message k) d =
    (Ret tt, set_object c
       (add_written (contents !!! k) (next_incoming
         (add_byteSize (- strlen (contents !!! k))
           (set_backlog (delete (Z.of_nat k) (messageBacklog o)) o)))) d).
Proof.
  intros Ho Hk Hin. unfold drain_one.
  assert (Hne : contents !!! k ≠ "").
  { apply Hcontents. apply lookup_lt_is_Some in Hk as [s Hs].
    rewrite (list_lookup_total_correct _ _ _ Hs). by eapply list_elem_of_lookup_2. }
  step (update_ok _ _ _ (set_backlog (delete (incomingSequenceNumber o) (messageBacklog o))) Ho).
  rewrite Hin. cbn [nth_message message content channelId].
  rewrite bool_decide_eq_true_2 by (by apply nonempty_strlen).
  unfold mbind at 1, M_bind.
  erewrite (bind_step (update c (add_byteSize _))); [|eapply update_ok, objects_set_object].
  erewrite (bind_step (update c next_incoming)); [|eapply update_ok, objects_set_object].
  unfold try_write. rewrite Hwrite.
  erewrite (bind_step (update c (add_written _))); [|eapply update_ok, objects_set_object].
  cbn. by rewrite !set_object_twice.
Qed.

(** Writing message [k] when it waits. *)
Lemma holds_write R k o :
  holds R k o → k ∈ R → k < length contents →
  holds R (S k) (add_written (contents !!! k) (next_incoming
    (add_byteSize (- strlen (contents !!! k))
      (set_backlog (delete (Z.of_nat k) (messageBacklog o)) o)))).
Proof.
  intros (Hin & Hk & Hlt & Hw & Hb & Hneg & Hsz) HkR Hlen.
  apply lookup_lt_is_Some in Hlen as [s Hs].
  assert (Htake : take (S k) contents = take k contents ++ [contents !!! k]).
  { rewrite (list_lookup_total_correct _ _ _ Hs). by apply take_S_r. }
  unfold holds. cbn. split_ands.
  - lia.
  - apply lookup_lt_Some in Hs. lia.
  - intros j Hj. destruct (decide (j = k)) as [->|]; [done|]. apply Hlt. lia.
  - by rewrite Hw, Htake.
  - intros j. rewrite lookup_delete, Hb.
    destruct (decide (Z.of_nat k = Z.of_nat j)) as [Heq|Hne].
    + apply Nat2Z.inj in Heq as <-. rewrite decide_False; [done|]. intros [_ ?]. lia.
    + destruct (decide (j ∈ R ∧ k ≤ j)) as [[? ?]|Hn].
      * rewrite decide_True; [done|]. split; [done|]. lia.
      * rewrite decide_False; [done|]. intros [? ?]. apply Hn. split; [done|lia].
  - intros z Hz. rewrite lookup_delete. case_decide; [done|by apply Hneg].
  - rewrite Hsz, Htake, total_app, total_one. lia.
Qed.

(** Draining writes the waiting messages up to the first that is missing. *)
Lemma drain_ok fuel : ∀ R k d o,
  objects d !! c = Some o → holds R k o → (∀ j, j ∈ R → j < length contents) →
  size (messageBacklog o) < fuel →
  ∃ o' k', drain write_raises disconnect_raises onChannelBroke fuel c d =
      (Ret tt, set_object c o' d) ∧ holds R k' o' ∧ k' ∉ R.
Proof.
  induction fuel as [|fuel IH]; intros R k d o Ho Hh HR Hf; [lia|]. cbn [drain].
  step (object_ok _ _ _ Ho).
  pose proof Hh as (Hin & _ & _ & _ & Hb & _).
  specialize (Hb k) as Hbk. rewrite Hin, Hbk.
  destruct (decide (k ∈ R ∧ k ≤ k)) as [[HkR _]|HkR].
  - pose proof (HR k HkR) as Hlen. step (drain_one_ok d o k Ho Hlen Hin).
    edestruct (IH R (S k)) as (o' & k' & Heq & Ho' & Hk');
      [apply objects_set_object|by apply holds_write|done| |].
    + cbn. rewrite map_size_delete, Hbk.
      assert (size (messageBacklog o) ≠ 0); [|lia].
      intros He%map_size_empty_inv. by rewrite He in Hbk.
    + exists o', k'. split_ands; [|done|done]. rewrite Heq. by rewrite set_object_twice.
  - exists o, k. split_ands; [|done|].
    + unfold set_object. rewrite insert_id by done. by destruct d.
    + intros HkR'. apply HkR. split; [done|lia].
Qed.

Lemma decode_nth j :
  decodeMessage b64decode_other (encodeMessage (nth_message j)) = Ret (nth_message j).
Proof. apply decode_encode. cbn. by intros [= ?]. Qed.

(** Receiving a message that was not received yet. *)
Lemma receive_ok R k d o j :
  objects d !! c = Some o → channels d !! id = Some c → holds R k o → k ∉ R →
  (∀ i, i ∈ R → i < length contents) → j ∉ R → j < length contents →
  (total ((λ i, contents !!! i) <$> R ++ [j]) < MAX_BACKLOG_SIZE)%Z →
  ∃ d' o' k', onMessageReceived write_raises disconnect_raises onChannelBroke
      b64decode_other (encodeMessage (nth_message j)) d = (Ret tt, d') ∧
    objects d' !! c = Some o' ∧ channels d' = channels d ∧
    holds (R ++ [j]) k' o' ∧ k' ∉ R ++ [j].
Proof.
  intros Ho Hch Hh HkR HR HjR Hj Hmax.
  unfold onMessageReceived. rewrite decode_nth. cbn [nth_message message channelId].
  rewrite Hch. fold (message j (contents !!! j)). fold (nth_message j).
  destruct Hh as (Hin & Hk & Hlt & Hw & Hb & Hneg & Hsz).
  set (o1 := add_byteSize (strlen (contents !!! j))
    (set_backlog (<[Z.of_nat j := nth_message j]> (messageBacklog o)) o)).
  set (d1 := add_bytes (strlen (contents !!! j)) (set_object c o1 d)).
  assert (Ho1 : objects d1 !! c = Some o1) by apply lookup_insert_eq.
  assert (Hjk : k ≤ j).
  { destruct (decide (k ≤ j)); [done|]. exfalso. apply HjR, Hlt. lia. }
  assert (Hh1 : holds (R ++ [j]) k o1).
  { unfold holds, o1. cbn. split_ands; [done|done| |done| | |].
    - intros i Hi. apply elem_of_app. left. by apply Hlt.
    - intros i. rewrite lookup_insert, Hb.
      destruct (decide (Z.of_nat j = Z.of_nat i)) as [Heq|Hne].
      + apply Nat2Z.inj in Heq as <-. rewrite decide_True; [done|].
        split; [apply elem_of_app; right; left|done].
      + destruct (decide (i ∈ R ∧ k ≤ i)) as [[? ?]|Hn].
        * rewrite decide_True; [done|]. split; [apply elem_of_app; by left|done].
        * rewrite decide_False; [done|]. intros [[?|Hi]%elem_of_app ?]; [by apply Hn|].
          apply list_elem_of_singleton in Hi. lia.
    - intros z Hz. rewrite lookup_insert_ne by lia. by apply Hneg.
    - rewrite Hsz, fmap_app, total_app. cbn [fmap list_fmap]. rewrite total_one. lia. }
  assert (Hacc : ∃ o' k', accept write_raises disconnect_raises onChannelBroke c
      (nth_message j) d = (Ret tt, set_object c o' d1) ∧
      holds (R ++ [j]) k' o' ∧ k' ∉ R ++ [j]).
  { unfold accept. cbn [nth_message message sequenceNumber content int_of].
    erewrite bind_step by reflexivity. step (object_ok _ _ _ Ho).
    step (update_ok _ _ _ (set_backlog (<[Z.of_nat j := nth_message j]> (messageBacklog o))) Ho).
    erewrite (bind_step (update c (add_byteSize _)));
      [|eapply update_ok, objects_set_object].
    rewrite set_object_twice. erewrite (bind_step (logBytes _)) by reflexivity.
    step (object_ok d1 c o1 Ho1).
    assert (Hbound : (byteSize o1 < MAX_BACKLOG_SIZE)%Z).
    { destruct Hh1 as (_ & _ & _ & _ & _ & _ & ->).
      pose proof (total_nonneg (take k contents)). lia. }
    rewrite (bool_decide_eq_true_2 _ Hbound). erewrite bind_step by reflexivity.
    case_bool_decide as Heq; cbn [when].
    - unfold drainMessageBacklog. step (object_ok d1 c o1 Ho1).
      apply (drain_ok _ (R ++ [j]) k d1 o1); [done|done| |lia].
      intros i [?|Hi]%elem_of_app; [by apply HR|].
      apply list_elem_of_singleton in Hi. by subst.
    - exists o1, k. split_ands; [|done|].
      + unfold d1, set_object, add_bytes. cbn. by rewrite insert_insert_eq.
      + intros [?|Hi]%elem_of_app; [done|]. apply list_elem_of_singleton in Hi. subst.
        apply Heq. by rewrite <- Hin. }
  destruct Hacc as (o' & k' & Heq & Hh' & Hk'). unfold log_exceptions. rewrite Heq.
  eexists _, o', k'. split_ands; [reflexivity|apply objects_set_object|done|done|done].
Qed.

(** Receiving messages one after the other. *)
Lemma receive_all_ok order : ∀ R k d o,
  objects d !! c = Some o → channels d !! id = Some c → holds R k o → k ∉ R →
  NoDup (R ++ order) → (∀ i, i ∈ R ++ order → i < length contents) →
  (total ((λ i, contents !!! i) <$> R ++ order) < MAX_BACKLOG_SIZE)%Z →
  ∃ d' o' k', forM_ (λ j, onMessageReceived write_raises disconnect_raises onChannelBroke
      b64decode_other (encodeMessage (nth_message j))) order d = (Ret tt, d') ∧
    objects d' !! c = Some o' ∧ channels d' = channels d ∧
    holds (R ++ order) k' o' ∧ k' ∉ R ++ order.
Proof.
  induction order as [|j order IH]; intros R k d o Ho Hch Hh HkR Hnd HR Hmax.
  - exists d, o, k. rewrite app_nil_r. by split_ands.
  - assert (HjR : j ∉ R).
    { apply NoDup_app in Hnd as (_ & Hd & _). intros Hj. apply (Hd j Hj). left. }
    assert (Hpre : (total ((λ i, contents !!! i) <$> R ++ [j]) < MAX_BACKLOG_SIZE)%Z).
    { rewrite (app_assoc R [j] order : R ++ j :: order = _) in Hmax.
      rewrite fmap_app, total_app in Hmax.
      pose proof (total_nonneg ((λ i, contents !!! i) <$> order)). lia. }
    destruct (receive_ok R k d o j) as (d1 & o1 & k1 & Heq1 & Ho1 & Hc1 & Hh1 & Hk1);
      [done|done|done|done| |done| |done|].
    { intros i Hi. apply HR. apply elem_of_app. by left. }
    { apply HR. apply elem_of_app. right. left. }
    destruct (IH (R ++ [j]) k1 d1 o1) as (d2 & o2 & k2 & Heq2 & Ho2 & Hc2 & Hh2 & Hk2);
      [done|by rewrite Hc1|done|done|by rewrite <- app_assoc|by rewrite <- app_assoc
      |by rewrite <- app_assoc|].
    exists d2, o2, k2. rewrite <- app_assoc in Hh2, Hk2. split_ands; [|done| |done|done].
    + rewrite forM__cons. by step Heq1.
    + by rewrite Hc2.
Qed.

(** *** The sender *)

(** The loop of [channelThread_] over the contents that [channel.get] returns. *)
Lemma sender_ok ss : ∀ d o k,
  objects d !! c = Some o → outgoingSequenceNumber o = Z.of_nat k →
  ∃ d' o', forM_ (λ s, channelThread_turn c id g h (Some s) ;; mret tt) ss d = (Ret tt, d') ∧
    objects d' !! c = Some o' ∧
    outgoingSequenceNumber o' = Z.of_nat (k + length ss) ∧
    sent d' = sent d ++ imap (λ i s, encodeMessage (message (k + i) s)) ss.
Proof.
  induction ss as [|s ss IH]; intros d o k Ho Hk.
  - exists d, o. cbn. rewrite app_nil_r, Nat.add_0_r. by split_ands.
  - assert (Hturn : channelThread_turn c id g h (Some s) d =
      (Ret true, add_sent (encodeMessage (message k s)) (set_object c (next_outgoing o) d))).
    { unfold channelThread_turn. erewrite bind_step by reflexivity.
      step (object_ok _ _ _ Ho). erewrite bind_step;
        [|unfold lift, new_Message; cbn; rewrite bool_decide_eq_false_2;
          [reflexivity|by intros [= ?]]].
      step (update_ok _ _ _ next_outgoing Ho). rewrite Hk. done. }
    destruct (IH (add_sent (encodeMessage (message k s)) (set_object c (next_outgoing o) d))
      (next_outgoing o) (S k)) as (d' & o' & Heq & Ho' & Hout & Hsent).
    + apply objects_set_object.
    + cbn. lia.
    + exists d', o'. split_ands; [|done| |].
      * rewrite forM__cons. erewrite bind_step; [exact Heq|]. by step Hturn.
      * rewrite Hout. cbn. lia.
      * rewrite Hsent. cbn. rewrite <- app_assoc. cbn. f_equal. rewrite Nat.add_0_r.
        f_equal. apply imap_ext. intros i x _. cbn.
        by replace (k + S i) with (S (k + i)) by lia.
Qed.
End delivery.

(** C19. Delivery in order: one demuxer sends the contents of a channel, and its
    messages, in whatever order the transport delivers them, are received by a
    demuxer where the channel is registered, together less than the backlog's
    maximum. Then the receiving demuxer has written the contents to the channel
    in the order they were sent, without raising, and nothing is left in the
    backlog. *)
Theorem delivery_in_order write_raises disconnect_raises onChannelBroke b64decode_other
    c id g h contents sender receiver texts :
  (∀ s, write_raises c s = None) → g ≠ "" → (∀ s, s ∈ contents → s ≠ "") →
  (total contents < MAX_BACKLOG_SIZE)%Z →
  let started := (add c id g sender).2 in
  texts ≡ₚ drop (length (sent sender))
    (sent (forM_ (λ s, channelThread_turn c id g h (Some s) ;; mret tt) contents started).2) →
  ∃ d o, forM_ (onMessageReceived write_raises disconnect_raises onChannelBroke
                  b64decode_other) texts (add c id g receiver).2 = (Ret tt, d) ∧
    objects d !! c = Some o ∧ written o = contents ∧ messageBacklog o = ∅ ∧
    byteSize o = 0%Z ∧ channels d !! id = Some c.
Proof.
  intros Hw Hg Hne Hmax started Htexts.
  destruct (sender_ok disconnect_raises b64decode_other c id g h Hg contents started (Channel g 0 0 ∅ 0 [] 0) 0)
    as (d1 & o1 & Hs & _ & _ & Hsent); [apply lookup_insert_eq|done|].
  rewrite Hs in Htexts. cbn [snd] in Htexts. rewrite Hsent in Htexts.
  unfold started in Htexts. cbn [add] in Htexts.
  change (sent (add c id g sender).2) with (sent sender) in Htexts.
  rewrite drop_app_length in Htexts.
  assert (Hmap : imap (λ i s, encodeMessage (message id g h (0 + i) s)) contents =
    (λ j, encodeMessage (nth_message id g h contents j)) <$> seq 0 (length contents)).
  { apply list_eq. intros i. rewrite list_lookup_imap, list_lookup_fmap.
    destruct (contents !! i) as [s|] eqn:Hi; cbn.
    - rewrite lookup_seq_lt by by eapply lookup_lt_Some. cbn. unfold nth_message.
      by rewrite (list_lookup_total_correct _ _ _ Hi).
    - rewrite lookup_seq_ge; [done|]. by apply lookup_ge_None. }
  rewrite Hmap in Htexts. apply Permutation_map_inv in Htexts as (order & -> & Hperm).
  set (d0 := (add c id g receiver).2).
  assert (Hseq : (λ i, contents !!! i) <$> seq 0 (length contents) = contents).
  { apply list_eq. intros i. rewrite list_lookup_fmap.
    destruct (contents !! i) as [s|] eqn:Hi.
    - rewrite lookup_seq_lt by by eapply lookup_lt_Some. cbn.
      by rewrite (list_lookup_total_correct _ _ _ Hi).
    - rewrite lookup_seq_ge; [done|]. by apply lookup_ge_None. }
  destruct (receive_all_ok write_raises disconnect_raises onChannelBroke b64decode_other
    c id g h contents Hw Hg Hne order [] 0 d0 (Channel g 0 0 ∅ 0 [] 0))
    as (d & o & k & Heq & Ho & Hch & Hh & Hk).
  - apply lookup_insert_eq.
  - apply lookup_insert_eq.
  - unfold holds. cbn. split_ands; [done|lia|intros; lia|done| |done|done].
    intros j. rewrite lookup_empty, decide_False; [done|]. by intros [?%not_elem_of_nil _].
  - apply not_elem_of_nil.
  - cbn. rewrite <- Hperm. apply NoDup_seq.
  - intros i Hi. cbn in Hi. rewrite <- Hperm, elem_of_seq in Hi. lia.
  - cbn [app]. unfold total. rewrite <- Hperm, Hseq. exact Hmax.
  - exists d, o. cbn [app] in Hh, Hk. destruct Hh as (_ & Hkl & _ & Hwr & Hb & Hneg & Hsz).
    assert (k = length contents) as ->.
    { rewrite <- Hperm, elem_of_seq in Hk. lia. }
    split_ands.
    + rewrite <- Heq. clear. generalize d0. induction order as [|j order IH]; intros d1;
        [done|]. cbn [map]. rewrite !forM__cons. unfold mbind, M_bind.
      destruct (onMessageReceived _ _ _ _ _ d1) as [[?|?] ?]; [apply IH|done].
    + exact Ho.
    + by rewrite Hwr, firstn_all.
    + apply map_eq. intros z. rewrite lookup_empty.
      destruct (decide (z < 0)%Z) as [Hz|Hz]; [by apply Hneg|].
      specialize (Hb (Z.to_nat z)). rewrite Z2Nat.id in Hb by lia. rewrite Hb.
      rewrite decide_False; [done|]. intros [Hi Hi'].
      rewrite <- Hperm, elem_of_seq in Hi. lia.
    + rewrite Hsz, firstn_all. unfold total. rewrite <- Hperm, Hseq. lia.
    + rewrite Hch. apply lookup_insert_eq.
Qed.

Lemma delivery_in_order_witness :
  let ss := ["one"; "two"; "three"] in
  let started := (add 0 "id" "g" init).2 in
  let d1 := (forM_ (λ s, channelThread_turn 0 "id" "g" "host" (Some s) ;; mret tt) ss started).2 in
  ∃ d o, forM_ (onMessageReceived (λ _ _, None) (λ _, None) None (λ _, Raise TypeError))
      (reverse (sent d1)) (add 0 "id" "g" init).2 = (Ret tt, d) ∧
    objects d !! 0 = Some o ∧ written o = ss ∧ messageBacklog o = ∅ ∧
    byteSize o = 0%Z ∧ channels d !! "id" = Some 0.
Proof.
  intros ss started d1.
  apply (delivery_in_order (λ _ _, None) (λ _, None) None (λ _, Raise TypeError) 0 "id" "g" "host"
    ss init init (reverse (sent d1))).
  - done.
  - done.
  - intros s Hs ->. revert Hs. unfold ss. rewrite !elem_of_cons. intros [?|[?|[?|?%not_elem_of_nil]]]; done.
  - vm_compute. done.
  - rewrite reverse_Permutation. cbn [sent init length drop]. done.
Defined.
