(* ===== verification/MultiChannelListener.v ===== *)
(** * Listeners on several ports ([networking/MultiChannelListener.py],
      [networking/ChannelListener.py])

    A listener per port scans for a free port and accepts channels; the listener on all
    ports collects the channels that get the same group id, one per port, and hands
    over a group that is complete. Channels without a group, and groups that stay
    incomplete, are closed after a while. Sockets are parameters: which
    ports can be bound, and the time, in microseconds, are inputs. *)
From Stdlib Require Import Lia.
From stdpp Require Import base gmap sets list fin_maps strings.
From S2P Require Import Prelude.
Set Default Proof Using "Type".

(** ** SocketListener *)

Module SocketListener.
Section scan.
(** [bindListener]: whether a port can be bound; and whether [onPortBound_] raises. *)
Context (canBind : Z → bool) (onPortBoundRaises : Z → bool).

(** The loop of [start], at most [fuel] ports: the port it listens on. An exception of
    [onPortBound_] is caught like one of [bindListener]. *)
Fixpoint start_loop (fuel : nat) (port portScanIncrement : Z) : option (res Z) :=
  match fuel with
  | O => None
  | S fuel =>
      if canBind port && negb (onPortBoundRaises port) then Some (Ret port)
      else if bool_decide (portScanIncrement = 0)%Z then Some (Raise (OtherException "error"))
      else start_loop fuel (port + portScanIncrement) portScanIncrement
  end.
End scan.
End SocketListener.

(** ** ChannelListener *)

Module ChannelListener.
Section listener.
Context {Channel : Type}.

(** What a connect callback is called with. *)
Inductive callback_arg := AChannel (c : Channel) | AList (l : list Channel).

(** [pendingChannelConnections] is [None] once a callback is registered. Every channel is a
    new object, so the set [channelsToTeardown] is a list. *)
Record state := {
  registered : bool;
  pendingChannelConnections : option (list Channel);
  channelsToTeardown : list Channel;
  calls : list callback_arg }.
Definition init : state :=
  {| registered := false; pendingChannelConnections := Some []; channelsToTeardown := []; calls := [] |}.

Definition call (a : callback_arg) : M state unit :=
  modify (λ s, {| registered := registered s; pendingChannelConnections := pendingChannelConnections s;
                  channelsToTeardown := channelsToTeardown s; calls := calls s ++ [a] |}).

Definition onSocketConnect (channel : Channel) : M state unit :=
  modify (λ s, {| registered := registered s; pendingChannelConnections := pendingChannelConnections s;
                  channelsToTeardown := channelsToTeardown s ++ [channel]; calls := calls s |}) ;;
  s ← get;
  if registered s then call (AChannel channel)
  else
    match pendingChannelConnections s with
    | Some l =>
        put {| registered := registered s; pendingChannelConnections := Some (l ++ [channel]);
               channelsToTeardown := channelsToTeardown s; calls := calls s |}
    | None => raise AttributeError
    end.

(** The callback is called with the list, once for every channel in it. *)
Definition registerConnectCallback : M state unit :=
  s ← get;
  if registered s then raise AssertionError
  else
    put {| registered := true; pendingChannelConnections := None;
           channelsToTeardown := channelsToTeardown s; calls := calls s |} ;;
    match pendingChannelConnections s with
    | None => raise TypeError
    | Some pending => forM_ (λ _, call (AList pending)) pending
    end.
End listener.
End ChannelListener.

(** ** MultiChannelListener *)

Section multi.
Context {Channel Group : Type} `{Countable Channel, Countable Group}.

Definition ACCEPT_TIMEOUT : Z := 10000000.
Definition GROUP_COMPLETION_TIMEOUT : Z := 20000000.

Record state := {
  ports : nat;
  pendingChannelGroups : gmap Group (Z * gmap nat Channel);
  acceptedChannels : gmap Channel (nat * Z);
  (** The calls of [completionCallback], and the channels that were closed. *)
  completed : list (list Channel * Group);
  disconnected : list Channel }.

Definition init (n : nat) : state :=
  {| ports := n; pendingChannelGroups := ∅; acceptedChannels := ∅; completed := []; disconnected := [] |}.

Definition set_accepted a s :=
  {| ports := ports s; pendingChannelGroups := pendingChannelGroups s; acceptedChannels := a;
     completed := completed s; disconnected := disconnected s |}.
Definition set_pending p s :=
  {| ports := ports s; pendingChannelGroups := p; acceptedChannels := acceptedChannels s;
     completed := completed s; disconnected := disconnected s |}.

Notation LM := (M state).

Definition disconnect (c : Channel) : LM unit :=
  modify (λ s, {| ports := ports s; pendingChannelGroups := pendingChannelGroups s;
                  acceptedChannels := acceptedChannels s; completed := completed s;
                  disconnected := disconnected s ++ [c] |}).

Definition completionCallback (channels : list Channel) (groupId : Group) : LM unit :=
  modify (λ s, {| ports := ports s; pendingChannelGroups := pendingChannelGroups s;
                  acceptedChannels := acceptedChannels s;
                  completed := completed s ++ [(channels, groupId)];
                  disconnected := disconnected s |}).

(** [del d[k]]. *)
Definition del_accepted (c : Channel) : LM unit :=
  modify (λ s, set_accepted (delete c (acceptedChannels s)) s).
Definition del_pending (g : Group) : LM unit :=
  modify (λ s, set_pending (delete g (pendingChannelGroups s)) s).

Definition setGroupIdForAcceptedChannel (channel : Channel) (groupId : Group) (now : Z) : LM unit :=
  s ← get;
  '(portIndex, _) ← lift (of_option KeyError (acceptedChannels s !! channel));
  lift (py_assert (bool_decide (portIndex < ports s))) ;;
  del_accepted channel ;;
  let entry := default ((now + GROUP_COMPLETION_TIMEOUT)%Z, ∅) (pendingChannelGroups s !! groupId) in
  modify (λ s, set_pending (<[groupId := entry]> (pendingChannelGroups s)) s) ;;
  lift (py_assert (bool_decide (entry.2 !! portIndex = None))) ;;
  let channels := <[portIndex := channel]> entry.2 in
  modify (λ s, set_pending (<[groupId := (entry.1, channels)]> (pendingChannelGroups s)) s) ;;
  if bool_decide (size channels = ports s) then
    args ← lift (mapR (λ ix, of_option KeyError (channels !! ix)) (seq 0 (ports s)));
    del_pending groupId ;;
    completionCallback args groupId
  else mret tt.

Definition rejectIncomingChannel (channel : Channel) : LM unit :=
  s ← get;
  when (bool_decide (is_Some (acceptedChannels s !! channel)))
    (del_accepted channel ;; disconnect channel).

Definition cleanupOrphanedChannels (now : Z) : LM unit :=
  s ← get;
  forM_ (λ x : Channel * (nat * Z),
    when (bool_decide (x.2.2 < now)%Z) (del_accepted x.1 ;; disconnect x.1))
    (map_to_list (acceptedChannels s)) ;;
  forM_ (λ x : Group * (Z * gmap nat Channel),
    when (bool_decide (x.2.1 < now)%Z)
      (del_pending x.1 ;; forM_ disconnect ((map_to_list x.2.2).*2)))
    (map_to_list (pendingChannelGroups s)).

(** What the user's callback does with the listener before it returns or raises. *)
Inductive user_call :=
| SetGroup (channel : Channel) (groupId : Group) (now : Z)
| Reject (channel : Channel)
| RaiseError.

Definition user (c : user_call) : LM unit :=
  match c with
  | SetGroup channel groupId now => setGroupIdForAcceptedChannel channel groupId now
  | Reject channel => rejectIncomingChannel channel
  | RaiseError => raise (OtherException "user")
  end.

(** [connectCallback], the callback of a port: its three parts read the clock. *)
Definition accept (portIndex : nat) (channel : Channel) (now : Z) : LM unit :=
  modify (λ s, set_accepted (<[channel := (portIndex, (now + ACCEPT_TIMEOUT)%Z)]> (acceptedChannels s)) s).
Definition connectCallback (portIndex : nat) (channel : Channel) (now : Z) (callback : list user_call)
    (later : Z) : LM unit :=
  accept portIndex channel now ;;
  forM_ user callback ;;
  cleanupOrphanedChannels later.

Inductive event :=
| Connect (portIndex : nat) (channel : Channel) (now : Z) (callback : list user_call) (later : Z)
| User (c : user_call).

Definition handle (e : event) : LM unit :=
  match e with
  | Connect portIndex channel now callback later => connectCallback portIndex channel now callback later
  | User c => user c
  end.
Definition run (es : list event) (s : state) : state := foldl (λ s e, (handle e s).2) s es.

(** ** Where the channels are *)

Definition channels_of (m : gmap nat Channel) : list Channel := (map_to_list m).*2.
Definition pending_channels (p : gmap Group (Z * gmap nat Channel)) : list Channel :=
  map_to_list p ≫= λ x, channels_of x.2.2.
Definition accepted_channels (a : gmap Channel (nat * Z)) : list Channel := (map_to_list a).*1.
Definition completed_channels (l : list (list Channel * Group)) : list Channel := l ≫= fst.

Definition everywhere (s : state) : list Channel :=
  accepted_channels (acceptedChannels s) ++ pending_channels (pendingChannelGroups s) ++
  completed_channels (completed s) ++ disconnected s.

Lemma accepted_insert a c x : a !! c = None → accepted_channels (<[c := x]> a) ≡ₚ c :: accepted_channels a.
Proof. intros Hc. unfold accepted_channels. by rewrite map_to_list_insert. Qed.

Lemma accepted_delete a c x : a !! c = Some x → accepted_channels a ≡ₚ c :: accepted_channels (delete c a).
Proof. intros Hc. rewrite <- (insert_delete_id a c x Hc) at 1. apply accepted_insert, lookup_delete_eq. Qed.

Lemma channels_insert m p c : m !! p = None → channels_of (<[p := c]> m) ≡ₚ c :: channels_of m.
Proof. intros Hp. unfold channels_of. by rewrite map_to_list_insert. Qed.

Lemma pending_insert p g e m :
  p !! g = None → pending_channels (<[g := (e, m)]> p) ≡ₚ channels_of m ++ pending_channels p.
Proof. intros Hg. unfold pending_channels. by rewrite map_to_list_insert. Qed.

Lemma pending_delete p g e m :
  p !! g = Some (e, m) → pending_channels p ≡ₚ channels_of m ++ pending_channels (delete g p).
Proof. intros Hg. rewrite <- (insert_delete_id p g _ Hg) at 1. apply pending_insert, lookup_delete_eq. Qed.

(** A group with a channel for every port is the list of them. *)
Lemma full_group (m : gmap nat Channel) n :
  size m = n → (∀ p, is_Some (m !! p) → p < n) →
  ∃ args, mapR (λ ix, of_option KeyError (m !! ix)) (seq 0 n) = Ret args ∧ length args = n ∧
    (∀ i c, args !! i = Some c → m !! i = Some c) ∧ args ≡ₚ channels_of m.
Proof.
  intros Hsize Hdom.
  assert (Hall : ∀ i, i < n → is_Some (m !! i)).
  { intros i Hi. apply elem_of_dom. assert (Hd : dom m = (set_seq 0 n : gset nat)).
    { apply set_subseteq_size_eq.
      - intros p [c Hp]%elem_of_dom. apply elem_of_set_seq. specialize (Hdom p (ex_intro _ c Hp)). lia.
      - by rewrite size_dom, Hsize, size_set_seq. }
    rewrite Hd. apply elem_of_set_seq. lia. }
  assert (∃ args, mapR (λ ix, of_option KeyError (m !! ix)) (seq 0 n) = Ret args) as [args Hargs].
  { assert (Hin : ∀ i, i ∈ seq 0 n → i < n) by (intros i [_ ?]%elem_of_seq; lia). revert Hin. clear -Hall.
    induction (seq 0 n) as [|i l IH]; intros Hin; [by exists []|].
    destruct (Hall i) as [c Hc]; [apply Hin; left|]. destruct IH as [r Hr]; [intros; apply Hin; by right|].
    exists (c :: r). cbn. by rewrite Hc, Hr. }
  pose proof (mapR_Ret _ _ _ Hargs) as Hf. exists args. split; [done|].
  assert (Hlen : length args = n) by (by rewrite <- (Forall2_length _ _ _ Hf), length_seq).
  assert (Hlk : ∀ i c, args !! i = Some c → m !! i = Some c).
  { intros i c Hi. destruct (Forall2_lookup_r _ _ _ _ _ Hf Hi) as (j & Hj & Hc).
    apply lookup_seq in Hj as [-> _]. cbn in Hc. by destruct (m !! i); [injection Hc as ->|]. }
  split; [done|]. split; [done|]. unfold channels_of.
  assert (Hp : map_to_list m ≡ₚ zip (seq 0 n) args).
  { apply NoDup_Permutation; [apply NoDup_map_to_list| |].
    - apply (NoDup_fmap_1 fst). rewrite fst_zip by (rewrite length_seq; lia). apply NoDup_seq.
    - intros [i c]. rewrite elem_of_map_to_list, elem_of_lookup_zip_with. split.
      + intros Hi. assert (i < n) by eauto. destruct (lookup_lt_is_Some_2 args i) as [c' Hc']; [lia|].
        exists i, i, c. rewrite lookup_seq_lt by done. split_and!; try done. rewrite Hc'. by rewrite <- Hi, (Hlk _ _ Hc').
      + intros (k & i' & c' & [= -> ->] & [-> _]%lookup_seq & Hc). by apply Hlk. }
  rewrite Hp, snd_zip; [done|]. rewrite length_seq. lia.
Qed.

(** ** The invariant

    [portOf] is the port a channel is accepted on and [groupOf] the group it is given. *)
Context (portOf : Channel → nat) (groupOf : Channel → Group).

(** No two channels on one port are given one group. *)
Definition one_per_port : Prop := ∀ c d, portOf c = portOf d → groupOf c = groupOf d → c = d.

Record sound (n : nat) (connected : list Channel) (s : state) : Prop := {
  so_ports : ports s = n;
  so_everywhere : connected ≡ₚ everywhere s;
  so_nodup : NoDup connected;
  so_accepted c p e : acceptedChannels s !! c = Some (p, e) → p = portOf c ∧ p < n;
  so_pending g e m : pendingChannelGroups s !! g = Some (e, m) →
    0 < size m < n ∧ ∀ p c, m !! p = Some c → p = portOf c ∧ g = groupOf c ∧ p < n;
  so_completed chs g : (chs, g) ∈ completed s →
    length chs = n ∧ ∀ i c, chs !! i = Some c → portOf c = i ∧ groupOf c = g }.

(** The channels of a group, when it is pending. *)
Definition group_of (s : state) (g : Group) : gmap nat Channel :=
  default ∅ (snd <$> pendingChannelGroups s !! g).

Lemma pending_split s g :
  pending_channels (pendingChannelGroups s) ≡ₚ
    channels_of (group_of s g) ++ pending_channels (delete g (pendingChannelGroups s)).
Proof.
  unfold group_of. destruct (pendingChannelGroups s !! g) as [[e m]|] eqn:Hg; cbn.
  - by apply pending_delete with e.
  - unfold channels_of. rewrite map_to_list_empty, delete_id by done. done.
Qed.

Lemma group_members n l s g p c :
  sound n l s → group_of s g !! p = Some c →
  p = portOf c ∧ g = groupOf c ∧ p < n ∧ c ∈ pending_channels (pendingChannelGroups s).
Proof.
  intros Hs Hc. assert (Hin : c ∈ pending_channels (pendingChannelGroups s)).
  { rewrite (pending_split s g). apply elem_of_app. left. apply list_elem_of_fmap.
    exists (p, c). split; [done|]. by apply elem_of_map_to_list. }
  unfold group_of in Hc. destruct (pendingChannelGroups s !! g) as [[e m]|] eqn:Hg; [|done].
  destruct (so_pending _ _ _ Hs g e m Hg) as [_ Hm]. cbn in Hc. destruct (Hm _ _ Hc) as (? & ? & ?). done.
Qed.

Lemma group_size n l s g : sound n l s → 0 < n → size (group_of s g) < n.
Proof.
  intros Hs Hn. unfold group_of. destruct (pendingChannelGroups s !! g) as [[e m]|] eqn:Hg; cbn.
  - by destruct (so_pending _ _ _ Hs g e m Hg) as [[_ ?] _].
  - by rewrite map_size_empty.
Qed.

Lemma not_twice n l s c p e :
  sound n l s → acceptedChannels s !! c = Some (p, e) → c ∉ pending_channels (pendingChannelGroups s).
Proof.
  intros Hs Hc Hin. pose proof (so_nodup _ _ _ Hs) as Hnd. rewrite (so_everywhere _ _ _ Hs) in Hnd.
  apply NoDup_app in Hnd as (_ & Hd & _). apply (Hd c); [|apply elem_of_app; by left].
  apply list_elem_of_fmap. exists (c, (p, e)). split; [done|]. by apply elem_of_map_to_list.
Qed.

(** What giving a group to a channel does, when the group has none on its port. *)
Lemma set_group_run n l s c p e now :
  sound n l s → acceptedChannels s !! c = Some (p, e) → group_of s (groupOf c) !! p = None →
  let g := groupOf c in
  let channels := <[p := c]> (group_of s g) in
  let s1 := set_accepted (delete c (acceptedChannels s)) s in
  size channels = S (size (group_of s g)) ∧
  ∃ e' args, channels_of channels ≡ₚ c :: channels_of (group_of s g) ∧
    if bool_decide (size channels = n) then
      args ≡ₚ channels_of channels ∧ length args = n ∧ (∀ i d, args !! i = Some d → channels !! i = Some d) ∧
      setGroupIdForAcceptedChannel c g now s =
        completionCallback args g (set_pending (delete g (pendingChannelGroups s)) s1)
    else
      setGroupIdForAcceptedChannel c g now s =
        (Ret tt, set_pending (<[g := (e', channels)]> (pendingChannelGroups s)) s1).
Proof.
  intros Hs Hc Hfree g channels s1. destruct (so_accepted _ _ _ Hs _ _ _ Hc) as [Hp Hpn]. fold g in Hfree.
  split; [by apply map_size_insert_None|].
  set (entry := default ((now + GROUP_COMPLETION_TIMEOUT)%Z, ∅) (pendingChannelGroups s !! g)).
  assert (Hentry : entry.2 = group_of s g).
  { unfold entry, group_of. by destruct (pendingChannelGroups s !! g). }
  assert (Hrun : setGroupIdForAcceptedChannel c g now s =
    (if bool_decide (size channels = n) then
       args ← lift (mapR (λ ix, of_option KeyError (channels !! ix)) (seq 0 n));
       del_pending g ;; completionCallback args g
     else mret tt) (set_pending (<[g := (entry.1, channels)]> (pendingChannelGroups s)) s1)).
  { unfold setGroupIdForAcceptedChannel. unfold mbind at 1, M_bind at 1, get at 1. cbn beta iota. rewrite Hc.
    unfold mbind, M_bind, lift, py_assert, del_accepted, modify. cbn [of_option]. cbn beta iota.
    rewrite (so_ports _ _ _ Hs), (bool_decide_true (p < n)) by done. fold s1. fold entry. rewrite Hentry.
    rewrite (bool_decide_true (_ = None)) by done. unfold set_pending at 1. cbn.
    rewrite insert_insert_eq. done. }
  exists entry.1. rewrite Hrun. case_bool_decide as Hfull.
  - destruct (full_group channels n Hfull) as (args & Hargs & Hlen & Hlk & Hperm).
    { intros q [d Hd]. unfold channels in Hd. apply lookup_insert_Some in Hd as [[<- _]|[_ Hd]]; [done|].
      by destruct (group_members n l s g q d Hs Hd) as (_ & _ & ? & _). }
    exists args. split; [by apply channels_insert|]. split; [done|]. split; [done|]. split; [done|].
    rewrite Hargs. unfold mbind, M_bind, lift, del_pending, modify. cbn beta iota. f_equal.
    unfold set_pending. cbn. by rewrite delete_insert_eq.
  - exists []. split; [by apply channels_insert|]. done.
Qed.

Lemma accepted_cases (a : gmap Channel (nat * Z)) c d x :
  delete c a !! d = Some x → a !! d = Some x.
Proof. by intros [_ ?]%lookup_delete_Some. Qed.

(** The channel that a call loses: it is no longer accepted when the assertion fails that
    its group has no channel on its port. *)
Definition lost_by (c : user_call) (s : state) : list Channel :=
  match c with
  | SetGroup channel groupId _ =>
      match acceptedChannels s !! channel with
      | Some (p, _) => if bool_decide (is_Some (group_of s groupId !! p)) then [channel] else []
      | None => []
      end
  | _ => []
  end.

Lemma set_group_loses n l s c p e now d :
  sound n l s → acceptedChannels s !! c = Some (p, e) → group_of s (groupOf c) !! p = Some d →
  ∃ l', l ≡ₚ c :: l' ∧ sound n l' (setGroupIdForAcceptedChannel c (groupOf c) now s).2.
Proof.
  intros Hs Hc Hd. destruct (so_accepted _ _ _ Hs _ _ _ Hc) as [Hp Hpn].
  assert (Hrun : (setGroupIdForAcceptedChannel c (groupOf c) now s).2 = set_accepted (delete c (acceptedChannels s)) s).
  { unfold group_of in Hd. destruct (pendingChannelGroups s !! groupOf c) as [x|] eqn:Hg; [|done].
    unfold setGroupIdForAcceptedChannel, mbind, M_bind, get, lift, py_assert, del_accepted, modify. cbn beta iota.
    rewrite Hc. cbn [of_option]. cbn beta iota. rewrite (so_ports _ _ _ Hs), (bool_decide_true (p < n)) by done.
    cbn beta iota. rewrite Hg. cbn [from_option id]. cbn in Hd. rewrite (bool_decide_false (_ = None)) by (by rewrite Hd).
    unfold set_pending, set_accepted. cbn. by rewrite insert_id. }
  rewrite Hrun. pose proof Hs as [Sp Se Sn Sa Spd Sc].
  exists (everywhere (set_accepted (delete c (acceptedChannels s)) s)).
  assert (Hl : l ≡ₚ c :: everywhere (set_accepted (delete c (acceptedChannels s)) s)).
  { rewrite Se. unfold everywhere. cbn. by rewrite (accepted_delete _ _ _ Hc). }
  split; [done|]. split; cbn; try done.
  - rewrite Hl in Sn. by apply NoDup_cons in Sn as [_ ?].
  - intros q k f Hq%accepted_cases. by apply Sa in Hq.
Qed.

Lemma set_group_keeps n l s c p e now :
  sound n l s → acceptedChannels s !! c = Some (p, e) → group_of s (groupOf c) !! p = None →
  sound n l (setGroupIdForAcceptedChannel c (groupOf c) now s).2.
Proof.
  intros Hs Hc Hfree.
  destruct (so_accepted _ _ _ Hs _ _ _ Hc) as [Hp Hpn].
  destruct (set_group_run n l s c p e now Hs Hc Hfree) as (Hsize & e' & args & Hperm & Hrun).
  pose proof (group_size n l s (groupOf c) Hs ltac:(lia)) as Hlt.
  pose proof (accepted_delete _ _ _ Hc) as Ha. pose proof (pending_split s (groupOf c)) as Hsplit.
  pose proof Hs as [Sp Se Sn Sa Spd Sc].
  assert (Hmem : ∀ q d, (<[p := c]> (group_of s (groupOf c))) !! q = Some d →
    q = portOf d ∧ groupOf c = groupOf d ∧ q < n).
  { intros q d [[<- <-]|[_ Hd]]%lookup_insert_Some; [done|].
    by destruct (group_members n l s _ q d Hs Hd) as (? & ? & ? & _). }
  revert Hrun. case_bool_decide as Hfull.
  - intros (Hargs & Hlen & Hlk & ->). split; cbn; try done.
    + rewrite Se. unfold everywhere. cbn. rewrite Ha, Hsplit. unfold completed_channels.
      rewrite bind_app. cbn. rewrite app_nil_r, Hargs, Hperm. solve_Permutation.
    + intros d q f Hd%accepted_cases. by apply Sa in Hd.
    + intros g e1 m [_ Hg]%lookup_delete_Some. by apply Spd in Hg.
    + intros chs g [Hin|[= -> ->]%list_elem_of_singleton]%elem_of_app; [by apply Sc|].
      split; [done|]. intros i d Hi%Hlk. by destruct (Hmem i d Hi) as (-> & -> & _).
  - intros ->. split; cbn; try done.
    + rewrite Se. unfold everywhere. cbn. rewrite Ha, Hsplit.
      rewrite <- insert_delete_eq, (pending_insert _ _ _ _ (lookup_delete_eq _ _)), Hperm. solve_Permutation.
    + intros d q f Hd%accepted_cases. by apply Sa in Hd.
    + intros g e1 m [[<- [= <- <-]]|[_ Hg]]%lookup_insert_Some; [|by apply Spd in Hg].
      split; [lia|]. intros q d Hd. by destruct (Hmem q d Hd) as (-> & -> & ?).
Qed.

Lemma set_group_sound n l s c now :
  sound n l s →
  ∃ l', l ≡ₚ lost_by (SetGroup c (groupOf c) now) s ++ l' ∧
    sound n l' (setGroupIdForAcceptedChannel c (groupOf c) now s).2.
Proof.
  intros Hs. cbn [lost_by]. destruct (acceptedChannels s !! c) as [[p e]|] eqn:Hc.
  2:{ exists l. split; [done|]. unfold setGroupIdForAcceptedChannel.
      unfold mbind at 1, M_bind at 1, get at 1. cbn beta iota. by rewrite Hc. }
  destruct (group_of s (groupOf c) !! p) as [d|] eqn:Hd.
  - rewrite bool_decide_true by eauto. by eapply set_group_loses.
  - rewrite bool_decide_false by (by intros [? [=]]). exists l. split; [done|]. by eapply set_group_keeps.
Qed.

Lemma reject_sound n l s c : sound n l s → sound n l (rejectIncomingChannel c s).2.
Proof.
  intros Hs. unfold rejectIncomingChannel. unfold mbind at 1, M_bind at 1, get at 1. cbn beta iota.
  destruct (acceptedChannels s !! c) as [[p e]|] eqn:Hc.
  2:{ by rewrite bool_decide_false by (by intros [? [=]]). }
  rewrite bool_decide_true by eauto. cbn. destruct Hs as [Sp Se Sn Sa Spd Sc]. split; cbn; try done.
  - rewrite Se. unfold everywhere. cbn. rewrite (accepted_delete _ _ _ Hc). solve_Permutation.
  - intros d q f Hd%accepted_cases. by apply Sa in Hd.
Qed.

Lemma accept_sound n l s c now :
  sound n l s → portOf c < n → c ∉ l → sound n (c :: l) (accept (portOf c) c now s).2.
Proof.
  intros [Sp Se Sn Sa Spd Sc] Hp Hc.
  assert (Hfresh : acceptedChannels s !! c = None).
  { destruct (acceptedChannels s !! c) as [x|] eqn:Hx; [|done]. exfalso. apply Hc. rewrite Se.
    apply elem_of_app. left. apply list_elem_of_fmap. exists (c, x). split; [done|]. by apply elem_of_map_to_list. }
  split; cbn; try done.
  - rewrite Se. unfold everywhere. cbn. by rewrite (accepted_insert _ _ _ Hfresh).
  - by constructor.
  - intros d q f [[<- [= <- _]]|[_ Hd]]%lookup_insert_Some; [done|by apply Sa in Hd].
Qed.

(** *** Clean-up *)

Definition expire_channel (now : Z) (x : Channel * (nat * Z)) : LM unit :=
  when (bool_decide (x.2.2 < now)%Z) (del_accepted x.1 ;; disconnect x.1).
Definition expire_group (now : Z) (x : Group * (Z * gmap nat Channel)) : LM unit :=
  when (bool_decide (x.2.1 < now)%Z) (del_pending x.1 ;; forM_ disconnect (channels_of x.2.2)).

Lemma expire_channel_ok n l s now c x :
  sound n l s → acceptedChannels s !! c = Some x →
  ∃ s', expire_channel now (c, x) s = (Ret tt, s') ∧ sound n l s' ∧
    pendingChannelGroups s' = pendingChannelGroups s ∧
    acceptedChannels s' = if bool_decide (x.2 < now)%Z then delete c (acceptedChannels s) else acceptedChannels s.
Proof.
  intros Hs Hc. unfold expire_channel. cbn [fst snd]. case_bool_decide; cbn [when]; [|by exists s].
  eexists. split; [done|]. split; [|done].
  pose proof (reject_sound n l s c Hs) as Hr. unfold rejectIncomingChannel in Hr.
  unfold mbind at 1, M_bind at 1, get at 1 in Hr. cbn beta iota in Hr.
  by rewrite bool_decide_true in Hr by eauto.
Qed.

Lemma expire_channels_ok n l now xs : ∀ s,
  NoDup xs.*1 → (∀ c x, (c, x) ∈ xs → acceptedChannels s !! c = Some x) → sound n l s →
  ∃ s', forM_ (expire_channel now) xs s = (Ret tt, s') ∧ sound n l s' ∧
    pendingChannelGroups s' = pendingChannelGroups s ∧
    ∀ c x, acceptedChannels s' !! c = Some x ↔
      acceptedChannels s !! c = Some x ∧ ((c, x) ∈ xs → (now ≤ x.2)%Z).
Proof.
  induction xs as [|[c x] xs IH]; intros s Hnd Hin Hs.
  { exists s. split; [done|]. split; [done|]. split; [done|]. intros c x. split; [|by intros [? _]].
    intros Hc. split; [done|]. by intros ?%elem_of_nil. }
  cbn in Hnd. apply NoDup_cons in Hnd as [Hc Hnd].
  assert (Hcx : acceptedChannels s !! c = Some x) by (apply Hin; left).
  destruct (expire_channel_ok n l s now c x Hs Hcx) as (s1 & Hrun & Hs1 & Hp1 & Ha1).
  assert (Hne : ∀ d y, (d, y) ∈ xs → d ≠ c).
  { intros d y Hd ->. apply Hc, list_elem_of_fmap. by exists (c, y). }
  destruct (IH s1 Hnd) as (s2 & Hrun2 & Hs2 & Hp2 & Ha2); [|done|].
  { intros d y Hd. rewrite Ha1. pose proof (Hne _ _ Hd).
    destruct (bool_decide _); [rewrite lookup_delete_ne by done|]; apply Hin; by right. }
  exists s2. split; [by rewrite forM__cons, (bind_step _ _ _ _ _ Hrun)|]. split; [done|].
  split; [congruence|]. intros d y. rewrite Ha2, Ha1, elem_of_cons.
  destruct (decide (d = c)) as [->|Hd].
  - assert (Hnot : (c, y) ∉ xs) by (intros Hy; by apply (Hne c y)).
    case_bool_decide as He.
    + rewrite lookup_delete_eq, Hcx. split; [by intros [? _]|]. intros [[= ->] Hy].
      specialize (Hy (or_introl eq_refl)). lia.
    + rewrite Hcx. split; intros [[= ->] Hy]; (split; [done|]); [|tauto]. intros [_|?]; [lia|done].
  - assert (Hif : (if bool_decide (x.2 < now)%Z then delete c (acceptedChannels s) else acceptedChannels s) !! d =
      acceptedChannels s !! d) by (destruct (bool_decide _); [by rewrite lookup_delete_ne|done]).
    rewrite Hif. split; intros [? Hy]; (split; [done|]); [intros [[= ? ?]|?]; [done|auto]|auto].
Qed.

Lemma disconnect_all cs : ∀ s,
  forM_ disconnect cs s =
    (Ret tt, {| ports := ports s; pendingChannelGroups := pendingChannelGroups s;
                acceptedChannels := acceptedChannels s; completed := completed s;
                disconnected := disconnected s ++ cs |}).
Proof.
  induction cs as [|c cs IH]; intros s; [cbn; rewrite app_nil_r; by destruct s|].
  rewrite forM__cons. unfold mbind, M_bind, disconnect, modify. cbn beta iota.
  setoid_rewrite IH. cbn. by rewrite <- app_assoc.
Qed.

Lemma expire_group_ok n l s now g x :
  sound n l s → pendingChannelGroups s !! g = Some x →
  ∃ s', expire_group now (g, x) s = (Ret tt, s') ∧ sound n l s' ∧
    acceptedChannels s' = acceptedChannels s ∧
    pendingChannelGroups s' = if bool_decide (x.1 < now)%Z then delete g (pendingChannelGroups s)
                              else pendingChannelGroups s.
Proof.
  intros Hs Hg. unfold expire_group. cbn [fst snd]. case_bool_decide; cbn [when]; [|by exists s].
  destruct x as [e m]. unfold mbind, M_bind, del_pending, modify. cbn beta iota. rewrite disconnect_all.
  eexists. split; [done|]. split; [|done]. destruct Hs as [Sp Se Sn Sa Spd Sc]. split; cbn; try done.
  - rewrite Se. unfold everywhere. cbn. rewrite (pending_delete _ _ _ _ Hg). solve_Permutation.
  - intros g' e' m' [_ Hg']%lookup_delete_Some. by apply Spd in Hg'.
Qed.

Lemma expire_groups_ok n l now xs : ∀ s,
  NoDup xs.*1 → (∀ g x, (g, x) ∈ xs → pendingChannelGroups s !! g = Some x) → sound n l s →
  ∃ s', forM_ (expire_group now) xs s = (Ret tt, s') ∧ sound n l s' ∧
    acceptedChannels s' = acceptedChannels s ∧
    ∀ g x, pendingChannelGroups s' !! g = Some x ↔
      pendingChannelGroups s !! g = Some x ∧ ((g, x) ∈ xs → (now ≤ x.1)%Z).
Proof.
  induction xs as [|[g x] xs IH]; intros s Hnd Hin Hs.
  { exists s. split; [done|]. split; [done|]. split; [done|]. intros g x. split; [|by intros [? _]].
    intros Hg. split; [done|]. by intros ?%elem_of_nil. }
  cbn in Hnd. apply NoDup_cons in Hnd as [Hg Hnd].
  assert (Hgx : pendingChannelGroups s !! g = Some x) by (apply Hin; left).
  destruct (expire_group_ok n l s now g x Hs Hgx) as (s1 & Hrun & Hs1 & Ha1 & Hp1).
  assert (Hne : ∀ h y, (h, y) ∈ xs → h ≠ g).
  { intros h y Hh ->. apply Hg, list_elem_of_fmap. by exists (g, y). }
  destruct (IH s1 Hnd) as (s2 & Hrun2 & Hs2 & Ha2 & Hp2); [|done|].
  { intros h y Hh. rewrite Hp1. pose proof (Hne _ _ Hh).
    destruct (bool_decide _); [rewrite lookup_delete_ne by done|]; apply Hin; by right. }
  exists s2. split; [by rewrite forM__cons, (bind_step _ _ _ _ _ Hrun)|]. split; [done|].
  split; [congruence|]. intros h y. rewrite Hp2, Hp1, elem_of_cons.
  destruct (decide (h = g)) as [->|Hh].
  - assert (Hnot : (g, y) ∉ xs) by (intros Hy; by apply (Hne g y)).
    case_bool_decide as He.
    + rewrite lookup_delete_eq, Hgx. split; [by intros [? _]|]. intros [[= ->] Hy].
      specialize (Hy (or_introl eq_refl)). lia.
    + rewrite Hgx. split; intros [[= ->] Hy]; (split; [done|]); [|tauto]. intros [_|?]; [lia|done].
  - assert (Hif : (if bool_decide (x.1 < now)%Z then delete g (pendingChannelGroups s) else pendingChannelGroups s) !! h =
      pendingChannelGroups s !! h) by (destruct (bool_decide _); [by rewrite lookup_delete_ne|done]).
    rewrite Hif. split; intros [? Hy]; (split; [done|]); [intros [[= ? ?]|?]; [done|auto]|auto].
Qed.

(** A clean-up closes exactly what has expired, and never raises. *)
Lemma cleanup_ok n l s now :
  sound n l s →
  ∃ s', cleanupOrphanedChannels now s = (Ret tt, s') ∧ sound n l s' ∧
    (∀ c x, acceptedChannels s' !! c = Some x ↔ acceptedChannels s !! c = Some x ∧ (now ≤ x.2)%Z) ∧
    (∀ g x, pendingChannelGroups s' !! g = Some x ↔ pendingChannelGroups s !! g = Some x ∧ (now ≤ x.1)%Z).
Proof.
  intros Hs. unfold cleanupOrphanedChannels. unfold mbind at 1, M_bind at 1, get at 1. cbn beta iota.
  destruct (expire_channels_ok n l now (map_to_list (acceptedChannels s)) s) as (s1 & H1' & Hs1 & Hp1 & Ha1).
  { apply NoDup_fst_map_to_list. } { intros c x. by rewrite elem_of_map_to_list. } { done. }
  destruct (expire_groups_ok n l now (map_to_list (pendingChannelGroups s)) s1) as (s2 & H2' & Hs2 & Ha2 & Hp2).
  { apply NoDup_fst_map_to_list. } { intros g x. by rewrite elem_of_map_to_list, Hp1. } { done. }
  exists s2. split; [erewrite bind_step; [exact H2'|exact H1']|]. split; [done|]. split.
  - intros c x. rewrite Ha2, Ha1, elem_of_map_to_list. tauto.
  - intros g x. rewrite Hp2, Hp1, elem_of_map_to_list. tauto.
Qed.

(** ** Histories *)

(** Channels are new when they connect, on their own port, and are given their own
    group. *)
Definition user_fair (c : user_call) : Prop :=
  match c with SetGroup channel groupId _ => groupId = groupOf channel | _ => True end.
Definition fair (n : nat) (connected : list Channel) (e : event) : Prop :=
  match e with
  | Connect portIndex channel _ callback _ =>
      portIndex = portOf channel ∧ portIndex < n ∧ channel ∉ connected ∧ Forall user_fair callback
  | User c => user_fair c
  end.
Definition connects (connected : list Channel) (e : event) : list Channel :=
  match e with Connect _ channel _ _ _ => channel :: connected | User _ => connected end.
Fixpoint fair_run (n : nat) (connected : list Channel) (es : list event) : Prop :=
  match es with [] => True | e :: es => fair n connected e ∧ fair_run n (connects connected e) es end.
Definition connected_in (es : list event) : list Channel := foldl connects [] es.

(** The channels that are lost in a history; a callback that raises ends there. *)
Fixpoint lost_in (cs : list user_call) (s : state) : list Channel :=
  match cs with
  | [] => []
  | c :: cs => lost_by c s ++ match user c s with (Ret _, s') => lost_in cs s' | _ => [] end
  end.
Definition lost_at (e : event) (s : state) : list Channel :=
  match e with
  | Connect portIndex channel now callback _ => lost_in callback (accept portIndex channel now s).2
  | User c => lost_by c s
  end.
Fixpoint losses (es : list event) (s : state) : list Channel :=
  match es with [] => [] | e :: es => lost_at e s ++ losses es (handle e s).2 end.

Lemma user_sound n l c s :
  sound n l s → user_fair c → ∃ l', l ≡ₚ lost_by c s ++ l' ∧ sound n l' (user c s).2.
Proof.
  intros Hs Hc. destruct c as [channel groupId now|channel|]; cbn [user].
  - cbn in Hc. subst groupId. by apply set_group_sound.
  - exists l. split; [done|]. by apply reject_sound.
  - by exists l.
Qed.

Lemma users_sound n cs : ∀ l s, sound n l s → Forall user_fair cs →
  ∃ l', l ≡ₚ lost_in cs s ++ l' ∧ sound n l' (forM_ user cs s).2.
Proof.
  induction cs as [|c cs IH]; intros l s Hs Hcs; [by exists l|]. apply Forall_cons in Hcs as [Hc Hcs].
  destruct (user_sound n l c s Hs Hc) as (l1 & Hl1 & Hs1). rewrite forM__cons. cbn [lost_in].
  unfold mbind, M_bind. destruct (user c s) as [[u|e] s1]; cbn [snd] in Hs1.
  - destruct (IH l1 s1 Hs1 Hcs) as (l2 & Hl2 & Hs2). exists l2. split; [by rewrite Hl1, Hl2, app_assoc|done].
  - exists l1. split; [by rewrite app_nil_r|done].
Qed.

Lemma handle_sound n l all e s :
  sound n l s → l ⊆ all → fair n all e →
  ∃ l', connects l e ≡ₚ lost_at e s ++ l' ∧ sound n l' (handle e s).2.
Proof.
  intros Hs Hsub He. destruct e as [portIndex channel now callback later|c]; cbn [connects handle lost_at].
  - destruct He as (-> & Hp & Hc & Hcb). unfold connectCallback. unfold mbind at 1, M_bind at 1.
    pose proof (accept_sound n l s channel now Hs Hp (λ H, Hc (Hsub _ H))) as Ha. cbn [accept modify] in *. cbn beta iota.
    destruct (users_sound n callback _ _ Ha Hcb) as (l' & Hl' & Hs'). exists l'. split; [exact Hl'|].
    unfold mbind, M_bind. cbn [snd] in Hs'.
    change ((accept (portOf channel) channel now s).2) with
      (set_accepted (<[channel:=(portOf channel, (now + ACCEPT_TIMEOUT)%Z)]> (acceptedChannels s)) s) in Hs'.
    destruct (forM_ user callback _) as [[u|x] s2]; [|done].
    destruct (cleanup_ok n l' s2 later Hs') as (s3 & -> & Hs3 & _). done.
  - by apply user_sound.
Qed.

Lemma run_sound n es : ∀ all lost l s,
  NoDup all → all ≡ₚ lost ++ l → sound n l s → fair_run n all es →
  NoDup (foldl connects all es) ∧
  ∃ l', foldl connects all es ≡ₚ (lost ++ losses es s) ++ l' ∧ sound n l' (run es s).
Proof.
  induction es as [|e es IH]; intros all lost l s Hnd Hall Hs.
  { intros _. split; [done|]. exists l. by rewrite app_nil_r. }
  intros [He Hes]. destruct (handle_sound n l all e s Hs) as (l' & Hl' & Hs'); [|done|].
  { intros c Hc. rewrite Hall. apply elem_of_app. by right. }
  cbn [foldl losses run]. destruct (IH (connects all e) (lost ++ lost_at e s) l' (handle e s).2) as (Hnd2 & l2 & Hl2 & Hs2).
  - destruct e as [p c now cb later|c]; [|done]. cbn. constructor; [|done]. by destruct He as (_ & _ & ? & _).
  - destruct e as [p c now cb later|c]; cbn [connects] in *; rewrite <- app_assoc, <- Hl'; [|done].
    rewrite Hall. by rewrite Permutation_middle.
  - done.
  - done.
  - split; [done|]. exists l2. by rewrite Hl2, (app_assoc lost).
Qed.

(** With one channel for a port in every group, none is lost. *)
Lemma nothing_lost n l s c : one_per_port → sound n l s → user_fair c → lost_by c s = [].
Proof.
  intros Hone Hs Hc. destruct c as [c g now|c|]; [|done|done]. cbn in Hc. subst g. cbn.
  destruct (acceptedChannels s !! c) as [[p e]|] eqn:Ha; [|done]. rewrite bool_decide_false; [done|]. intros [d Hd].
  destruct (so_accepted _ _ _ Hs _ _ _ Ha) as [Hp Hpn].
  destruct (group_members n l s _ p d Hs Hd) as (Hpd & Hgd & _ & Hin).
  assert (d = c) as -> by (apply Hone; [congruence|done]). by eapply not_twice in Hin.
Qed.

Lemma nothing_lost_in n cs : one_per_port → ∀ l s, sound n l s → Forall user_fair cs → lost_in cs s = [].
Proof.
  intros Hone. induction cs as [|c cs IH]; intros l s Hs Hcs; [done|]. apply Forall_cons in Hcs as [Hc Hcs].
  cbn [lost_in]. rewrite (nothing_lost n l s c Hone Hs Hc). destruct (user_sound n l c s Hs Hc) as (l1 & _ & Hs1).
  destruct (user c s) as [[u|e] s1]; [|done]. by eapply IH.
Qed.

Lemma nothing_lost_run n es : one_per_port → ∀ l all s,
  sound n l s → l ⊆ all → fair_run n all es → losses es s = [].
Proof.
  intros Hone. induction es as [|e es IH]; intros l all s Hs Hsub; [done|]. intros [He Hes]. cbn [losses].
  assert (Hnone : lost_at e s = []).
  { destruct e as [p c now cb later|c]; cbn [lost_at]; [|by eapply nothing_lost].
    destruct He as (-> & Hp & Hc & Hcb). eapply nothing_lost_in; [done| |done].
    apply (accept_sound n l s c now Hs Hp (λ H, Hc (Hsub _ H))). }
  destruct (handle_sound n l all e s Hs Hsub He) as (l' & Hl' & Hs'). rewrite Hnone in Hl' |- *. cbn [app] in *.
  eapply IH; [exact Hs'| |exact Hes]. intros c Hc. rewrite <- Hl' in Hc.
  destruct e as [p d now cb later|d]; cbn [connects] in *; [|by apply Hsub].
  apply elem_of_cons in Hc as [->|Hc]; apply elem_of_cons; [by left|right; by apply Hsub].
Qed.

Lemma init_sound n : sound n [] (init n).
Proof. split; try done; [by constructor|by intros ? ? ?%elem_of_nil]. Qed.

Lemma pending_member n l s c :
  sound n l s → c ∈ pending_channels (pendingChannelGroups s) →
  group_of s (groupOf c) !! portOf c = Some c.
Proof.
  intros Hs ([g [e m]] & Hc & Hg%elem_of_map_to_list)%list_elem_of_bind. cbn in Hc.
  apply list_elem_of_fmap in Hc as ([p d] & -> & Hd%elem_of_map_to_list). cbn.
  destruct (so_pending _ _ _ Hs g e m Hg) as [_ Hm]. destruct (Hm p d Hd) as (-> & -> & _).
  unfold group_of. by rewrite Hg.
Qed.

Lemma completed_once n l s : one_per_port → 0 < n → sound n l s → NoDup (completed s).*2.
Proof.
  intros Hone Hn Hs. pose proof (so_nodup _ _ _ Hs) as Hnd. rewrite (so_everywhere _ _ _ Hs) in Hnd.
  apply NoDup_app in Hnd as (_ & _ & Hnd). apply NoDup_app in Hnd as (_ & _ & Hnd).
  apply NoDup_app in Hnd as (Hnd & _ & _). pose proof (so_completed _ _ _ Hs) as Hc.
  assert (Hfirst : ∀ chs g, (chs, g) ∈ completed s → ∃ c, c ∈ chs ∧ portOf c = 0 ∧ groupOf c = g).
  { intros chs g Hin. destruct (Hc chs g Hin) as [Hlen Hlk].
    destruct (lookup_lt_is_Some_2 chs 0) as [c Hc0]; [lia|]. exists c.
    split; [by apply list_elem_of_lookup_2 in Hc0|by apply (Hlk 0)]. }
  clear Hc. induction (completed s) as [|[chs g] rest IH]; [constructor|]. cbn.
  unfold completed_channels in Hnd. rewrite bind_cons in Hnd. apply NoDup_app in Hnd as (_ & Hdis & Hnd).
  constructor; [|apply IH; [done|intros; apply Hfirst; by right]].
  intros Hin. apply list_elem_of_fmap in Hin as ([chs' g'] & -> & Hin). cbn in *.
  destruct (Hfirst chs g') as (c & Hc & Hpc & Hgc); [left|].
  destruct (Hfirst chs' g') as (d & Hd & Hpd & Hgd); [by right|].
  assert (c = d) as -> by (apply Hone; congruence).
  apply (Hdis d Hc). apply list_elem_of_bind. by exists (chs', g').
Qed.

(** C22. Groups of channels: when channels are new when they connect, then after every
    sequence of connections, assignments, rejections and clean-ups, with callbacks that
    may raise, every channel that connected is in exactly one place, and once: it waits for
    a group, or for the rest of its group, or was handed over with it, or was closed, or
    is one of the [losses], a second channel that a waiting group was given on one port. A
    group is handed over with one channel for every port, in the order of the ports, as
    soon as it has them: one that waits has fewer. When no two channels on one port are
    given one group, no channel is lost, a group is handed over at most once, and it has
    been handed over if a channel was given to it on every port and none of them closed. *)
Theorem groups_are_handed_over (n : nat) (es : list event) :
  0 < n → fair_run n [] es →
  let s := run es (init n) in
  NoDup (connected_in es) ∧
  connected_in es ≡ₚ losses es (init n) ++ accepted_channels (acceptedChannels s) ++
    pending_channels (pendingChannelGroups s) ++ completed_channels (completed s) ++ disconnected s ∧
  (∀ chs g, (chs, g) ∈ completed s →
     length chs = n ∧ ∀ i c, chs !! i = Some c → portOf c = i ∧ groupOf c = g) ∧
  (∀ g e m, pendingChannelGroups s !! g = Some (e, m) →
     0 < size m < n ∧ ∀ p c, m !! p = Some c → p = portOf c ∧ g = groupOf c) ∧
  (one_per_port →
     losses es (init n) = [] ∧ NoDup (completed s).*2 ∧
     ∀ g, (∀ p, p < n → ∃ c, c ∈ connected_in es ∧ portOf c = p ∧ groupOf c = g ∧
             c ∉ accepted_channels (acceptedChannels s) ∧ c ∉ disconnected s) →
       g ∈ (completed s).*2).
Proof.
  intros Hn Hf s. destruct (run_sound n es [] [] [] (init n) (NoDup_nil_2) (reflexivity _) (init_sound n) Hf) as (Hnd & l & Hl & Hs).
  change (foldl connects [] es) with (connected_in es) in *. fold s in Hs. cbn [app] in Hl.
  split; [done|]. split; [by rewrite Hl, (so_everywhere _ _ _ Hs)|]. split; [apply Hs|].
  split; [intros g e m Hg; destruct (so_pending _ _ _ Hs g e m Hg) as [? Hm]; split; [done|]; intros p c Hc; by destruct (Hm p c Hc) as (? & ? & _)|].
  intros Hone. pose proof (nothing_lost_run n es Hone [] [] _ (init_sound n) (reflexivity _) Hf) as Hnone.
  split; [done|]. split; [by eapply completed_once|]. rewrite Hnone in Hl. cbn [app] in Hl.
  intros g Hall. destruct (decide (g ∈ (completed s).*2)) as [|Hnot]; [done|]. exfalso.
  assert (Hsome : ∀ p, p < n → is_Some (group_of s g !! p)).
  { intros p Hp. destruct (Hall p Hp) as (c & Hc & <- & <- & Hna & Hnd').
    rewrite Hl, (so_everywhere _ _ _ Hs) in Hc. unfold everywhere in Hc. rewrite !elem_of_app in Hc.
    destruct Hc as [?|[Hc|[Hc|?]]]; [done| |exfalso|done].
    - exists c. by eapply pending_member.
    - apply list_elem_of_bind in Hc as ([chs g'] & Hin & Hcomp).
      apply list_elem_of_lookup_1 in Hin as [i Hi]. destruct (so_completed _ _ _ Hs _ _ Hcomp) as [_ Hlk].
      destruct (Hlk i c Hi) as [_ Hg]. apply Hnot, list_elem_of_fmap. exists (chs, g'). by rewrite Hg. }
  pose proof (group_size n _ s g Hs Hn) as Hlt.
  assert (Hsub : (set_seq 0 n : gset nat) ⊆ dom (group_of s g)).
  { intros p Hp%elem_of_set_seq. apply elem_of_dom, Hsome. lia. }
  apply subseteq_size in Hsub. rewrite size_set_seq, size_dom in Hsub. lia.
Qed.
End multi.

(** ** Samples *)

Module ListenerSamples.
(** A channel is a pair of its group and its port. *)
Notation events := (list (@event (nat * nat) nat)).
Definition sample : events :=
  [ Connect 1 (7, 1) 0%Z [SetGroup (7, 1) 7 0%Z] 0%Z;
    Connect 0 (8, 0) 1%Z [] 1%Z;
    Connect 0 (7, 0) 2%Z [SetGroup (7, 0) 7 2%Z] 2%Z ].

Lemma groups_are_handed_over_witness :
  completed (run sample (init 2)) = [([(7, 0); (7, 1)], 7)] ∧
  (let s := run sample (init 2) in
   connected_in sample ≡ₚ losses sample (init 2) ++ accepted_channels (acceptedChannels s) ++
     pending_channels (pendingChannelGroups s) ++ completed_channels (completed s) ++ disconnected s).
Proof.
  split; [vm_compute; reflexivity|].
  refine (proj1 (proj2 (groups_are_handed_over (snd : nat * nat → nat) (fst : nat * nat → nat) 2 sample _ _))).
  - lia.
  - cbn. split_and!; try done; try lia; try (repeat constructor); set_solver.
Defined.

(** Two channels on one port in one group: the second is neither kept nor closed here (the
    handshake of [CumulusService], which gives it its group, closes it when it fails). *)
Lemma second_channel_is_lost :
  let s := run [ Connect 0 1 0%Z [SetGroup 1 7 0%Z] 0%Z; Connect 0 2 0%Z [SetGroup 2 7 0%Z] 0%Z ] (@init nat nat _ _ _ _ 2) in
  everywhere s = [1] ∧
  losses [ Connect 0 1 0%Z [SetGroup 1 7 0%Z] 0%Z; Connect 0 2 0%Z [SetGroup 2 7 0%Z] 0%Z ] (@init nat nat _ _ _ _ 2) = [2].
Proof. vm_compute. by split. Qed.

(** A channel that connects before a callback is registered. *)
Lemma early_channels_come_as_a_list :
  (ChannelListener.calls (ChannelListener.onSocketConnect 5
     ((ChannelListener.registerConnectCallback
        (ChannelListener.onSocketConnect 3 ChannelListener.init).2).2)).2)
    = [ChannelListener.AList [3]; ChannelListener.AChannel 5].
Proof. vm_compute. reflexivity. Qed.

(** An exception of the callback for a bound port does not end [start], which goes on to the
    next port. *)
Lemma callback_errors_move_the_port :
  SocketListener.start_loop (λ _, true) (λ p, bool_decide (p = 80)%Z) 5 80%Z 2%Z = Some (Ret 82%Z).
Proof. vm_compute. reflexivity. Qed.
End ListenerSamples.
