(* ===== verification/ObjectCaches.v ===== *)
(** * The values and object caches of a gateway session
    ([ufora/BackendGateway/SubscribableWebObjects/MessageProcessor.py])

    The browser side and the gateway name objects by integers. [IncomingObjectCache]
    holds what the client named, [OutgoingObjectCache] what the gateway named. *)
From Stdlib Require Import Sorted Lia.
From stdpp Require Import base gmap sets list strings fin_maps sorting.
From S2P Require Import Prelude PyStrings.

(** ** Values *)

(** Keys of dicts. [True] and [False] are equal to 1 and 0 and have their hashes. *)
Inductive key := KNone | KInt (z : Z) | KStr (s : string).

#[export] Instance key_eq_dec : EqDecision key.
Proof. solve_decision. Defined.
#[export] Instance key_countable : Countable key.
Proof.
  apply (inj_countable'
    (λ k, match k with KNone => inl tt | KInt z => inr (inl z) | KStr s => inr (inr s) end)
    (λ x, match x with inl _ => KNone | inr (inl z) => KInt z | inr (inr s) => KStr s end)).
  by intros [].
Defined.

(** Python 2's order: [None], then the numbers, then the strings. *)
Definition key_rank (k : key) : Z :=
  match k with KNone => 0 | KInt _ => 1 | KStr _ => 2 end.
Definition key_leb (a b : key) : bool :=
  match a, b with
  | KInt x, KInt y => (x <=? y)%Z
  | KStr x, KStr y => String.leb x y
  | _, _ => (key_rank a <=? key_rank b)%Z
  end.
Definition key_le (a b : key) : Prop := key_leb a b = true.
#[export] Instance key_le_dec : RelDecision key_le.
Proof. intros a b. unfold key_le. apply _. Defined.

Lemma string_leb_trans (a b c : string) :
  String.leb a b = true → String.leb b c = true → String.leb a c = true.
Proof.
  revert b c. induction a as [|x a IH]; intros [|y b] [|z c]; unfold String.leb in *; cbn;
    try done.
  unfold Ascii.compare. intros H1 H2.
  destruct (N.compare_spec (Ascii.N_of_ascii x) (Ascii.N_of_ascii y)) as [E1|E1|E1];
  destruct (N.compare_spec (Ascii.N_of_ascii y) (Ascii.N_of_ascii z)) as [E2|E2|E2];
    try done;
  destruct (N.compare_spec (Ascii.N_of_ascii x) (Ascii.N_of_ascii z)) as [E3|E3|E3];
    try done; try lia.
  by eapply IH.
Qed.

Lemma key_leb_trans a b c : key_leb a b = true → key_leb b c = true → key_leb a c = true.
Proof.
  destruct a, b, c; cbn; try done.
  - intros. rewrite Z.leb_le in *. lia.
  - apply string_leb_trans.
Qed.

Lemma string_leb_total (a b : string) : String.leb a b = true ∨ String.leb b a = true.
Proof. unfold String.leb. rewrite (String.compare_antisym b a). destruct (String.compare a b); cbn; auto. Qed.

#[export] Instance key_le_trans : Transitive key_le.
Proof. intros a b c. apply key_leb_trans. Qed.
#[export] Instance key_le_total : Total key_le.
Proof.
  intros a b. unfold key_le. destruct a, b; cbn; auto.
  - destruct (Z.leb_spec z z0); [by left|]. right. apply Z.leb_le. lia.
  - apply string_leb_total.
Qed.

(** A JSON value, or one with objects in it: a ComputedGraph location, which is
    determined by its class and its keys; an instance that the session made from
    an object definition; or any other object. The last two are known by their
    identity. Numbers are integers. A dict is the list of its items. *)
Inductive pyval :=
| PNone
| PBool (b : bool)
| PInt (z : Z)
| PStr (s : string)
| PList (l : list pyval)
| PDict (l : list (key * pyval))
| PLoc (cls : string) (args : pyval)
| PInst (n : nat)
| POther (n : nat).

Section pyval_ind'.
Context (P : pyval → Prop).
Context (HNone : P PNone) (HBool : ∀ b, P (PBool b)) (HInt : ∀ z, P (PInt z))
  (HStr : ∀ s, P (PStr s)) (HList : ∀ l, Forall P l → P (PList l))
  (HDict : ∀ l, Forall (λ x, P x.2) l → P (PDict l))
  (HLoc : ∀ c a, P a → P (PLoc c a)) (HInst : ∀ n, P (PInst n))
  (HOther : ∀ n, P (POther n)).

Fixpoint pyval_ind' (v : pyval) : P v :=
  match v with
  | PNone => HNone
  | PBool b => HBool b
  | PInt z => HInt z
  | PStr s => HStr s
  | PList l => HList l ((fix go l : Forall P l :=
      match l with [] => Forall_nil_2 _ | x :: l => Forall_cons_2 _ _ _ (pyval_ind' x) (go l) end) l)
  | PDict l => HDict l ((fix go l : Forall (λ x, P x.2) l :=
      match l with
      | [] => Forall_nil_2 _
      | x :: l => Forall_cons_2 _ x _ (pyval_ind' x.2) (go l)
      end) l)
  | PLoc c a => HLoc c a (pyval_ind' a)
  | PInst n => HInst n
  | POther n => HOther n
  end.
End pyval_ind'.

Definition list_eqb {A} (eqb : A → A → bool) : list A → list A → bool :=
  fix go l1 l2 :=
    match l1, l2 with
    | [], [] => true
    | x :: l1, y :: l2 => eqb x y && go l1 l2
    | _, _ => false
    end.

Lemma list_eqb_spec {A} (eqb : A → A → bool) l1 :
  Forall (λ x, ∀ y, eqb x y = true ↔ x = y) l1 →
  ∀ l2, list_eqb eqb l1 l2 = true ↔ l1 = l2.
Proof.
  induction 1 as [|x l1 Hx _ IH]; intros [|y l2]; cbn; [done|done|done|].
  rewrite andb_true_iff, Hx, IH. split; [intros [-> ->]|intros [= -> ->]]; done.
Qed.

Fixpoint pyval_eqb (v w : pyval) : bool :=
  match v, w with
  | PNone, PNone => true
  | PBool a, PBool b => Bool.eqb a b
  | PInt a, PInt b => (a =? b)%Z
  | PStr a, PStr b => String.eqb a b
  | PList a, PList b => list_eqb pyval_eqb a b
  | PDict a, PDict b =>
      list_eqb (λ x y, bool_decide (x.1 = y.1) && pyval_eqb x.2 y.2) a b
  | PLoc c a, PLoc d b => String.eqb c d && pyval_eqb a b
  | PInst m, PInst n => (m =? n)%nat
  | POther m, POther n => (m =? n)%nat
  | _, _ => false
  end.

Lemma pyval_eqb_spec v : ∀ w, pyval_eqb v w = true ↔ v = w.
Proof.
  induction v using pyval_ind'; intros []; cbn; try done.
  - rewrite Bool.eqb_true_iff. split; congruence.
  - rewrite Z.eqb_eq. split; congruence.
  - rewrite String.eqb_eq. split; congruence.
  - rewrite list_eqb_spec by done. split; congruence.
  - rewrite list_eqb_spec; [split; congruence|].
    eapply Forall_impl; [eassumption|]. intros [k x] Hx [k' y]. cbn in *.
    rewrite andb_true_iff, bool_decide_eq_true, Hx.
    split; [intros [-> ->]|intros [= -> ->]]; done.
  - rewrite andb_true_iff, String.eqb_eq, IHv. split; [intros [-> ->]|intros [= -> ->]]; done.
  - rewrite Nat.eqb_eq. split; congruence.
  - rewrite Nat.eqb_eq. split; congruence.
Qed.

#[export] Instance pyval_eq_dec : EqDecision pyval.
Proof.
  intros v w. destruct (pyval_eqb v w) eqn:H; [left|right]; [by apply pyval_eqb_spec|].
  intros ->. assert (pyval_eqb w w = true) by by apply pyval_eqb_spec. congruence.
Defined.

Definition assoc {K A} `{EqDecision K} (k : K) : list (K * A) → option A :=
  fix go l :=
    match l with
    | [] => None
    | (k', a) :: l => if bool_decide (k = k') then Some a else go l
    end.

(** [hash(v)], for the values that can be keys. *)
Definition hash_key (v : pyval) : res key :=
  match v with
  | PNone => Ret KNone
  | PBool b => Ret (KInt (Z.b2z b))
  | PInt z => Ret (KInt z)
  | PStr s => Ret (KStr s)
  | _ => Raise TypeError
  end.

(** [s in text], of strings. *)
Fixpoint is_substring (s text : string) : bool :=
  String.prefix s text ||
  match text with EmptyString => false | String _ text => is_substring s text end.

(** [s in v], for a string [s]. *)
Definition py_in (s : string) (v : pyval) : res bool :=
  match v with
  | PDict d => Ret (bool_decide (is_Some (assoc (KStr s) d)))
  | PList l => Ret (bool_decide (PStr s ∈ l))
  | PStr t => Ret (is_substring s t)
  | _ => Raise TypeError
  end.

(** [v[s]], for a string [s]. *)
Definition getitem (s : string) (v : pyval) : res pyval :=
  match v with
  | PDict d => of_option KeyError (assoc (KStr s) d)
  | _ => Raise TypeError
  end.

(** ** IncomingObjectCache *)

Module Incoming.

(** The field [objectToIdCache_] is never used. *)
Record cache := Cache {
  objectIdCache_ : gmap key pyval;
  objectIdList_ : list key }.

Definition init : cache := Cache ∅ [].

Definition lookupObjectById (id : pyval) : M cache pyval := λ c,
  (k ← hash_key id; of_option MalformedMessage (objectIdCache_ c !! k), c).

Definition addObjectById (id : pyval) (objectDefinition : pyval) : M cache unit :=
  k ← lift (hash_key id);
  c ← get;
  if bool_decide (is_Some (objectIdCache_ c !! k)) then raise MalformedMessage
  else put (Cache (<[k := objectDefinition]> (objectIdCache_ c)) (objectIdList_ c ++ [k])).

(** [id < threshold], of an integer [threshold]. *)
Definition below (threshold : Z) (k : key) : bool :=
  negb (key_leb (KInt threshold) k).

(** The loop of [flushIdsBelow]; [del] raises on an absent key. *)
Fixpoint flush_loop (threshold : Z) (ids : list key) (m : gmap key pyval)
    : res unit * cache :=
  match ids with
  | k :: ids' =>
      if below threshold k then
        if bool_decide (is_Some (m !! k)) then flush_loop threshold ids' (delete k m)
        else (Raise KeyError, Cache m ids)
      else (Ret tt, Cache m ids)
  | [] => (Ret tt, Cache m [])
  end.

Definition flushIdsBelow (threshold : Z) : M cache unit := λ c,
  flush_loop threshold (merge_sort key_le (objectIdList_ c)) (objectIdCache_ c).

(** *** Its contract: a dict from which the ids below a threshold are dropped *)

Definition wf (c : cache) : Prop :=
  NoDup (objectIdList_ c) ∧ ∀ k, k ∈ objectIdList_ c ↔ is_Some (objectIdCache_ c !! k).

Lemma wf_init : wf init.
Proof. split; [constructor|]. intros k. cbn. rewrite lookup_empty. split; [by intros ?%not_elem_of_nil|by intros []]. Qed.

Lemma below_le threshold a b : key_le a b → below threshold a = false → below threshold b = false.
Proof.
  unfold below, key_le. intros Hab Ha. apply negb_false_iff in Ha. apply negb_false_iff.
  by eapply key_leb_trans.
Qed.

Lemma filter_all {A} (P : A → Prop) `{!∀ x, Decision (P x)} (l : list A) :
  (∀ x, x ∈ l → P x) → filter P l = l.
Proof.
  induction l as [|x l IH]; intros Hl; [done|].
  rewrite filter_cons_True by (apply Hl; left). f_equal. apply IH. intros y Hy.
  apply Hl. by right.
Qed.

Lemma flush_loop_ok threshold ids m :
  NoDup ids → StronglySorted key_le ids → (∀ k, k ∈ ids ↔ is_Some (m !! k)) →
  flush_loop threshold ids m =
    (Ret tt, Cache (filter (λ x, below threshold x.1 = false) m)
               (filter (λ k, below threshold k = false) ids)).
Proof.
  revert m. induction ids as [|k ids IH]; intros m Hnd Hs Hm.
  - assert (m = ∅) as ->; [|by cbn; rewrite map_filter_empty].
    apply map_empty. intros i. destruct (m !! i) eqn:Hi; [|done].
    assert (i ∈ @nil key) as ?%not_elem_of_nil by (apply Hm; eauto). done.
  - cbn [flush_loop]. apply NoDup_cons in Hnd as [Hk Hnd].
    apply StronglySorted_inv in Hs as [Hs Hle].
    rewrite filter_cons. destruct (below threshold k) eqn:Hb.
    + rewrite decide_False by done.
      rewrite bool_decide_eq_true_2 by (apply Hm; left). rewrite (IH (delete k m)).
      * f_equal. f_equal. apply map_filter_strong_ext. intros i x. cbn.
        rewrite lookup_delete. case_decide; [|done]. subst. split; [intros []; congruence|intros [? ?]; congruence].
      * done.
      * done.
      * intros i. rewrite lookup_delete. case_decide as Hi.
        -- subst. split; [done|by intros []].
        -- rewrite <- Hm, elem_of_cons. split; [by right|]. intros [->|?]; [done|done].
    + rewrite decide_True by done. f_equal. f_equal.
      * symmetry. apply map_filter_id. intros i x Hi. cbn.
        assert (i ∈ k :: ids) as Hin by (apply Hm; eauto).
        apply elem_of_cons in Hin as [->|Hin]; [done|].
        eapply below_le; [|exact Hb]. rewrite Forall_forall in Hle. by apply Hle.
      * f_equal. symmetry. apply filter_all. intros i Hi.
        rewrite Forall_forall in Hle. eapply below_le; [by apply Hle|done].
Qed.

Lemma flushIdsBelow_ok threshold c :
  wf c →
  ∃ c', flushIdsBelow threshold c = (Ret tt, c') ∧ wf c' ∧
    objectIdCache_ c' = filter (λ x, below threshold x.1 = false) (objectIdCache_ c).
Proof.
  intros [Hnd Hm]. unfold flushIdsBelow.
  pose proof (merge_sort_Permutation key_le (objectIdList_ c)) as Hp.
  rewrite flush_loop_ok.
  - eexists. split; [reflexivity|]. split; [|done]. split; cbn.
    + apply NoDup_filter. by rewrite Hp.
    + intros k. rewrite list_elem_of_filter, Hp, Hm, map_lookup_filter.
      destruct (objectIdCache_ c !! k); cbn; [|split; [by intros [_ []]|by intros []]].
      destruct (decide (below threshold k = false)); cbn.
      * rewrite option_guard_True by done. split; eauto.
      * rewrite option_guard_False by done. split; [by intros []|by intros []].
  - by rewrite Hp.
  - apply (StronglySorted_merge_sort key_le).
  - intros k. by rewrite Hp, Hm.
Qed.
End Incoming.

(** *** Refinement of a dict *)

Module IncomingSpec.
Import Incoming.

(** What the processor asks of the cache, and the answers. *)
Inductive op := Add (id obj : pyval) | Lookup (id : pyval) | Flush (threshold : Z).

Definition run_op (o : op) : M cache (option pyval) :=
  match o with
  | Add id obj => addObjectById id obj ;; mret None
  | Lookup id => v ← lookupObjectById id; mret (Some v)
  | Flush t => flushIdsBelow t ;; mret None
  end.

(** The promise: names are bound once, stay bound until they are flushed, and
    then are unknown. *)
Definition spec_op (o : op) (d : gmap key pyval) : res (option pyval) * gmap key pyval :=
  match o with
  | Add id obj =>
      match hash_key id with
      | Raise e => (Raise e, d)
      | Ret k =>
          match d !! k with
          | Some _ => (Raise MalformedMessage, d)
          | None => (Ret None, <[k := obj]> d)
          end
      end
  | Lookup id =>
      match hash_key id with
      | Raise e => (Raise e, d)
      | Ret k => (match d !! k with Some v => Ret (Some v) | None => Raise MalformedMessage end, d)
      end
  | Flush t => (Ret None, filter (λ x, key_leb (KInt t) x.1 = true) d)
  end.

(** A client goes on after an error. *)
Fixpoint runs {S} (f : op → M S (option pyval)) (os : list op) (s : S) : list (res (option pyval)) :=
  match os with
  | [] => []
  | o :: os => let (r, s) := f o s in r :: runs f os s
  end.

Lemma run_op_refines o c :
  wf c →
  (run_op o c).1 = (spec_op o (objectIdCache_ c)).1 ∧ wf (run_op o c).2 ∧
  objectIdCache_ (run_op o c).2 = (spec_op o (objectIdCache_ c)).2.
Proof.
  intros Hwf. destruct o as [id obj|id|t]; cbn.
  - unfold addObjectById, mbind, M_bind, lift, get, raise, put, mret, M_ret.
    destruct (hash_key id) as [k|e]; [|by split_ands].
    destruct (objectIdCache_ c !! k) eqn:Hk; cbn.
    + done.
    + split_ands; [done| |done].
      destruct Hwf as [Hnd Hm]. split; cbn.
      * apply NoDup_app. split_ands; [done| |apply NoDup_singleton].
        intros x Hx ->%list_elem_of_singleton. apply Hm in Hx. rewrite Hk in Hx. by destruct Hx.
      * intros x. rewrite elem_of_app, list_elem_of_singleton, Hm, lookup_insert_is_Some'.
        naive_solver.
  - unfold lookupObjectById, mbind, M_bind, mret, M_ret. cbn.
    destruct (hash_key id) as [k|e]; cbn; [|done].
    by destruct (objectIdCache_ c !! k).
  - destruct (flushIdsBelow_ok t c Hwf) as (c' & Heq & Hwf' & Hc').
    unfold mbind, M_bind. rewrite Heq. cbn. split_ands; [done|done|]. rewrite Hc'.
    apply map_filter_strong_ext. intros k x. cbn. unfold below. rewrite negb_false_iff. done.
Qed.

(** The incoming object cache keeps its promise to the message processor:
    every sequence of [addObjectById], [lookupObjectById] and [flushIdsBelow]
    gives the answers of a dict in which a name is bound at most once and from
    which a flush removes exactly the names below the threshold; the loop of
    [flushIdsBelow] over the sorted ids never raises. *)
Theorem incoming_cache_refines_dict os : runs run_op os init = runs spec_op os ∅.
Proof.
  assert (∀ c, wf c → runs run_op os c = runs spec_op os (objectIdCache_ c)) as H;
    [|apply (H init wf_init)].
  induction os as [|o os IH]; intros c Hwf; [done|]. cbn [runs].
  destruct (run_op_refines o c Hwf) as (Hr & Hwf' & Hs).
  destruct (run_op o c) as [r c'], (spec_op o (objectIdCache_ c)) as [r' d']; cbn in *.
  subst. f_equal. by apply IH.
Qed.
End IncomingSpec.

(** ** OutgoingObjectCache *)

Module Outgoing.

(** [objectToIdCache_]: only locations are looked up. [objectIdCache_] is written
    and never read. *)
Record cache := Cache {
  objectIdCache_ : gmap Z (string * pyval);
  objectToIdCache_ : list ((string * pyval) * Z);
  curObjectId : Z;
  minObjectId : Z }.

Definition maxObjectIdsToKeep : Z := 10000.
Definition init : cache := Cache ∅ [] 0 0.


Definition newId : M cache Z := λ c,
  (Ret (curObjectId c),
   Cache (objectIdCache_ c) (objectToIdCache_ c) (curObjectId c + 1) (minObjectId c)).

Definition lookupObjectId (obj : string * pyval) : M cache Z :=
  c ← get;
  when (bool_decide (assoc obj (objectToIdCache_ c) = None))
    (id ← newId;
     modify (λ c, Cache (<[id := obj]> (objectIdCache_ c)) ((obj, id) :: objectToIdCache_ c)
                    (curObjectId c) (minObjectId c))) ;;
  c ← get;
  lift (of_option KeyError (assoc obj (objectToIdCache_ c))).

Definition tryFlushObjectIdCache : M cache (option Z) := λ c,
  if bool_decide (minObjectId c + maxObjectIdsToKeep < curObjectId c)%Z
  then (Ret (Some (curObjectId c)), Cache ∅ [] (curObjectId c) (curObjectId c))
  else (Ret None, c).

Section convert.
(** The classes of [classMap], and the attribute [objectDefinition_] of
    instances. *)
Context (exposed : string → bool).
Context (objectDefinition_ : nat → option pyval).

(** A location's class goes by its name in [classMap], if it has one. *)
Definition typenameFromType (cls : string) : res string :=
  if exposed cls then Ret cls else Raise KeyError.

Definition raiseException {A} : M cache A :=
  raise (SubscribableWebObjects "result was not valid json").

(** The conversion, with that of instances as an argument. *)
Fixpoint convert_with (instance : nat → M cache pyval) (v : pyval) : M cache pyval :=
  match v with
  | PNone | PBool _ | PInt _ | PStr _ => mret v
  | PList l => r ← mapM (convert_with instance) l; mret (PList r)
  | PDict l =>
      r ← mapM (λ x : key * pyval,
            match x.1 with
            | KStr _ => w ← convert_with instance x.2; mret (x.1, w)
            | _ => raiseException
            end) l;
      mret (PDict r)
  | PLoc cls args =>
      c ← get;
      match assoc (cls, args) (objectToIdCache_ c) with
      | Some _ =>
          id ← lookupObjectId (cls, args);
          mret (PDict [(KStr "objectId_", PInt id)])
      | None =>
          id ← lookupObjectId (cls, args);
          t ← lift (typenameFromType cls);
          a ← convert_with instance args;
          mret (PDict [(KStr "objectId_", PInt id);
                       (KStr "objectDefinition_", PDict [(KStr "type", PStr t); (KStr "args", a)])])
      end
  | PInst n => instance n
  | POther _ => raiseException
  end.

(** The definition of an instance is JSON that the client sent, in which there
    are no instances. *)
Definition convertResponseToJson (v : pyval) : M cache pyval :=
  convert_with (λ n,
    match objectDefinition_ n with
    | Some d => convert_with (λ _, raise RecursionLimit) d
    | None => raiseException
    end) v.
End convert.

End Outgoing.

(** ** Object arguments: [convertObjectArgs] and [extractObjectDefinition]

    The state is the incoming cache and the instances made so far, with their
    class and their attribute [objectDefinition_]. *)

Record objects := Objects {
  incoming : Incoming.cache;
  instances : list (string * pyval) }.

Definition init_objects : objects := Objects Incoming.init [].

Definition with_incoming {A} (m : M Incoming.cache A) : M objects A := λ o,
  let (r, c) := m (incoming o) in (r, Objects c (instances o)).

(** What calling a class gives: the location of these keys, or a new instance. *)
Inductive made := MadeLocation (args : pyval) | MadeInstance.

Section arguments.
(** [classMap]: the exposed classes, called on their arguments. *)
Context (classMap : string → option (pyval → res made)).

Definition new_object (objType : string) (objDefJson : pyval) (m : made) : M objects pyval :=
  match m with
  | MadeLocation args => mret (PLoc objType args)
  | MadeInstance => λ o,
      (Ret (PInst (length (instances o))),
       Objects (incoming o) (instances o ++ [(objType, objDefJson)]))
  end.

(** The end of [extractObjectDefinition], after the arguments are converted. *)
Definition construct (objType objDefJson objectArgs : pyval) : M objects pyval :=
  k ← lift (hash_key objType);
  match k with
  | KStr t =>
      match classMap t with
      | None => raise InvalidObjectDefinition
      | Some cls =>
          match cls objectArgs with
          | Ret m => new_object t objDefJson m
          | Raise (SubscribableWebObjects _) => raise InvalidObjectDefinition
          | Raise e => raise e
          end
      end
  | _ => raise InvalidObjectDefinition
  end.

(** [extractObjectDefinition], given the conversion of the definition itself and
    that of its arguments. *)
Definition extract_with (whole args : M objects pyval) (objDefJson : pyval) : M objects pyval :=
  a ← lift (py_in "objectId_" objDefJson);
  b ← (if a : bool then mret true else lift (py_in "objectDefinition_" objDefJson));
  if b : bool then whole
  else
    t ← lift (py_in "type" objDefJson);
    u ← (if t : bool then lift (py_in "args" objDefJson) else mret false);
    if negb u then raise MalformedMessage
    else
      objType ← lift (getitem "type" objDefJson);
      objectArgs ← args;
      construct objType objDefJson objectArgs.

(** [f(d[k])] of a dict's items. *)
Definition at_key {A} (f : pyval → A) (k : key) : list (key * pyval) → option A :=
  fix go l :=
    match l with
    | [] => None
    | (k', v) :: l => if bool_decide (k = k') then Some (f v) else go l
    end.

Fixpoint convertObjectArgs (v : pyval) : M objects pyval :=
  match v with
  | PList l => r ← mapM convertObjectArgs l; mret (PList r)
  | PDict d =>
      match at_key (λ sub,
              extract_with (convertObjectArgs sub)
                (match sub with
                 | PDict d' => default (raise KeyError) (at_key convertObjectArgs (KStr "args") d')
                 | _ => raise TypeError
                 end) sub) (KStr "objectDefinition_") d with
      | Some extracted =>
          obj ← extracted;
          match assoc (KStr "objectId_") d with
          | Some id => with_incoming (Incoming.addObjectById id obj) ;; mret obj
          | None => mret obj
          end
      | None =>
          match assoc (KStr "objectId_") d with
          | Some id => with_incoming (Incoming.lookupObjectById id)
          | None =>
              tr ← mapM (λ x : key * pyval, w ← convertObjectArgs x.2; mret (x.1, w)) d;
              mret (PDict tr)
          end
      end
  | _ => mret v
  end.

Definition extractObjectDefinition (objDefJson : pyval) : M objects pyval :=
  extract_with (convertObjectArgs objDefJson)
    (args ← lift (getitem "args" objDefJson); convertObjectArgs args) objDefJson.
End arguments.
