(* ===== verification/GeneratedClient.v ===== *)
(** * The Python client that the gateway generates
    ([ufora/BackendGateway/SubscribableWebObjects/generatePythonWrapper.py])

    The text of the generated module begins with [headerText]: a session keeps the
    objects that the gateway named, reads the values of responses and forgets names when
    the gateway says so. Here is how it reads; the requests that it writes are not
    modelled. With it: the client reads back the values that the gateway sends. *)
From Stdlib Require Import Sorted Lia.
From stdpp Require Import base gmap sets list strings fin_maps sorting.
From S2P Require Import Prelude PyStrings ObjectCaches.


(** ** Sessions *)

(** A tuple is a [PList]; a web object of a generated class is a [PLoc] of the class and
    of the arguments in its attribute [objectDefinition_]. *)
Record session := SessionState {
  objectsById : gmap key pyval;
  objectIdsMemoized : list key;
  timesCleared : Z }.

Definition new_session : session := SessionState ∅ [] 0.

(** [__init__] of a generated class: no arguments are a dict of none. *)
Definition WebObject (className : string) (inArgs : pyval) : pyval :=
  PLoc className (match inArgs with PNone => PDict [] | _ => inArgs end).

(** The loop of [clearObjectIdsBelow]; [del] raises on an absent key. *)
Fixpoint clear_loop (minValidObjectId : Z) (ids : list key) (m : gmap key pyval)
    : res unit * (gmap key pyval * list key) :=
  match ids with
  | objId :: ids' =>
      if Incoming.below minValidObjectId objId then
        if bool_decide (is_Some (m !! objId)) then clear_loop minValidObjectId ids' (delete objId m)
        else (Raise KeyError, (m, ids'))
      else (Ret tt, (m, ids))
  | [] => (Ret tt, (m, []))
  end.

Definition clearObjectIdsBelow (minValidObjectId : Z) : M session unit := λ s,
  let '(r, (m, ids)) :=
    clear_loop minValidObjectId (merge_sort key_le (objectIdsMemoized s)) (objectsById s) in
  (r, SessionState m ids (timesCleared s + 1)).

(** An id that came without a definition. *)
Definition known_object (objectId : pyval) : M session pyval := λ s,
  (k ← hash_key objectId;
   of_option (OtherException "Received an undefined object id") (objectsById s !! k), s).

Definition memoize (objectId objectToReturn : pyval) : M session unit :=
  k ← lift (hash_key objectId);
  modify (λ s, SessionState (<[k := objectToReturn]> (objectsById s)) (objectIdsMemoized s ++ [k])
                 (timesCleared s)).

Section reading.
(** The dict [classes] of the module: the names of [classMap]. *)
Context (classes : string → bool).

Definition class_of (t : pyval) : res string :=
  k ← hash_key t;
  match k with KStr c => if classes c then Ret c else Raise KeyError | _ => Raise KeyError end.

(** The end of [convertJsonToObject], given the conversion of the definition's arguments. *)
Definition make_object (objectId definition : pyval) (args : M session pyval) : M session pyval :=
  match definition with
  | PNone => known_object objectId
  | _ =>
      t ← lift (getitem "type" definition);
      className ← lift (class_of t);
      inArgs ← args;
      let objectToReturn := WebObject className inArgs in
      memoize objectId objectToReturn ;;
      mret objectToReturn
  end.

Fixpoint convertJsonToObject (val : pyval) : M session pyval :=
  match val with
  | PList l => r ← mapM convertJsonToObject l; mret (PList r)
  | PDict d =>
      match assoc (KStr "objectId_") d with
      | None | Some PNone =>
          r ← mapM (λ x : key * pyval, w ← convertJsonToObject x.2; mret (x.1, w)) d;
          mret (PDict r)
      | Some objectId =>
          match at_key (λ definition, make_object objectId definition
                  (match definition with
                   | PDict d' => default (raise KeyError) (at_key convertJsonToObject (KStr "args") d')
                   | _ => raise TypeError
                   end)) (KStr "objectDefinition_") d with
          | Some m => m
          | None => known_object objectId
          end
      end
  | _ => mret val
  end.
End reading.

(** What the client has of a value: a web object for each location. *)
Fixpoint at_client (v : pyval) : pyval :=
  match v with
  | PList l => PList (at_client <$> l)
  | PDict l => PDict ((λ x, (x.1, at_client x.2)) <$> l)
  | PLoc cls args => WebObject cls (at_client args)
  | _ => v
  end.

(** *** Forgetting names *)

(** Each name is bound once. *)
Definition session_wf (s : session) : Prop :=
  NoDup (objectIdsMemoized s) ∧ ∀ k, k ∈ objectIdsMemoized s ↔ is_Some (objectsById s !! k).

Lemma clear_loop_flush threshold ids m c :
  Incoming.flush_loop threshold ids m = (Ret tt, c) →
  clear_loop threshold ids m = (Ret tt, (Incoming.objectIdCache_ c, Incoming.objectIdList_ c)).
Proof.
  revert m. induction ids as [|k ids IH]; intros m; cbn; [by intros [= <-]|].
  destruct (Incoming.below threshold k); [|by intros [= <-]]. by case_bool_decide; [apply IH|].
Qed.

Lemma clearObjectIdsBelow_ok t s :
  session_wf s → ∃ s', clearObjectIdsBelow t s = (Ret tt, s') ∧ session_wf s' ∧
    objectsById s' = filter (λ x, Incoming.below t x.1 = false) (objectsById s).
Proof.
  intros Hwf. destruct (Incoming.flushIdsBelow_ok t (Incoming.Cache (objectsById s) (objectIdsMemoized s)) Hwf)
    as (c & Hf & Hwf' & Hc). unfold clearObjectIdsBelow, Incoming.flushIdsBelow in *.
  apply clear_loop_flush in Hf. cbn in Hf. rewrite Hf. by eexists.
Qed.

Lemma memoize_wf k v s :
  session_wf s → objectsById s !! k = None →
  session_wf (SessionState (<[k := v]> (objectsById s)) (objectIdsMemoized s ++ [k]) (timesCleared s)).
Proof.
  intros [Hnd Hm] Hk. split; cbn.
  - apply NoDup_app. split_ands; [done| |apply NoDup_singleton].
    intros x Hx ->%list_elem_of_singleton. apply Hm in Hx. rewrite Hk in Hx. by destruct Hx.
  - intros x. rewrite elem_of_app, list_elem_of_singleton, Hm, lookup_insert_is_Some'. naive_solver.
Qed.

(** ** The gateway's names and the client's *)

Fixpoint psize (v : pyval) : nat :=
  match v with
  | PList l => S (sum_list_with psize l)
  | PDict l => S (sum_list_with (λ x, psize x.2) l)
  | PLoc _ a => S (psize a)
  | _ => 1
  end.

Section sendable.
Context (exposed : string → bool).

(** Values of JSON and of locations of exposed classes, whose dicts have strings
    for keys and do not use the names of the protocol. *)
Fixpoint sendable (v : pyval) : bool :=
  match v with
  | PList l => forallb sendable l
  | PDict l =>
      bool_decide (assoc (KStr "objectId_") l = None) &&
      bool_decide (assoc (KStr "objectDefinition_") l = None) &&
      forallb (λ x, match x.1 with KStr _ => sendable x.2 | _ => false end) l
  | PLoc c a => exposed c && sendable a
  | PInst _ | POther _ => false
  | _ => true
  end.

Lemma sendable_list l : sendable (PList l) = true ↔ Forall (λ v, sendable v = true) l.
Proof.
  cbn. rewrite forallb_forall, Forall_forall. by setoid_rewrite <- list_elem_of_In.
Qed.

Lemma sendable_dict l :
  sendable (PDict l) = true ↔ assoc (KStr "objectId_") l = None ∧
    assoc (KStr "objectDefinition_") l = None ∧
    Forall (λ x, (∃ s, x.1 = KStr s) ∧ sendable x.2 = true) l.
Proof.
  cbn. rewrite !andb_true_iff, !bool_decide_eq_true, forallb_forall, Forall_forall.
  setoid_rewrite <- list_elem_of_In. split.
  - intros [[? ?] Hl]. split_ands; [done|done|]. intros x Hx. specialize (Hl x Hx).
    destruct (x.1); try done. eauto.
  - intros (? & ? & Hl). split_ands; [done|done|]. intros x Hx.
    destruct (Hl x Hx) as [[s ->] ?]. done.
Qed.
End sendable.

(** The gateway's cache and the client's, while the definitions of [P] are under
    way. *)
Record sync (P : list (string * pyval)) (c : Outgoing.cache) (s : session) : Prop := Sync {
  sync_ids : ∀ o id, assoc o (Outgoing.objectToIdCache_ c) = Some id →
    (id < Outgoing.curObjectId c)%Z ∧
    objectsById s !! KInt id = (if decide (o ∈ P) then None else Some (at_client (PLoc o.1 o.2)));
  sync_names : ∀ k, is_Some (objectsById s !! k) →
    ∃ id, k = KInt id ∧ (id < Outgoing.curObjectId c)%Z;
  sync_inj : ∀ o1 o2 id, assoc o1 (Outgoing.objectToIdCache_ c) = Some id →
    assoc o2 (Outgoing.objectToIdCache_ c) = Some id → o1 = o2;
  sync_wf : session_wf s }.

Lemma assoc_cons {K A} `{EqDecision K} (k k' : K) (a : A) l :
  assoc k ((k', a) :: l) = if decide (k = k') then Some a else assoc k l.
Proof. cbn. by destruct (decide (k = k')) as [->|?]; [rewrite bool_decide_eq_true_2|rewrite bool_decide_eq_false_2]. Qed.

(** What [lookupObjectId] gives. *)
Lemma lookup_known o id c :
  assoc o (Outgoing.objectToIdCache_ c) = Some id →
  Outgoing.lookupObjectId o c = (Ret id, c).
Proof.
  intros Ho. unfold Outgoing.lookupObjectId, mbind, M_bind, get, when. rewrite Ho. cbn.
  unfold mret, M_ret, lift. by rewrite Ho.
Qed.

Definition named (o : string * pyval) (c : Outgoing.cache) : Outgoing.cache :=
  Outgoing.Cache (<[Outgoing.curObjectId c := o]> (Outgoing.objectIdCache_ c))
    ((o, Outgoing.curObjectId c) :: Outgoing.objectToIdCache_ c)
    (Outgoing.curObjectId c + 1) (Outgoing.minObjectId c).

Lemma lookup_new o c :
  assoc o (Outgoing.objectToIdCache_ c) = None →
  Outgoing.lookupObjectId o c = (Ret (Outgoing.curObjectId c), named o c).
Proof.
  intros Ho. unfold Outgoing.lookupObjectId, mbind, M_bind, get, when. rewrite Ho. cbn.
  unfold lift. cbn. by rewrite bool_decide_eq_true_2.
Qed.

Lemma sync_named P o c (ic : session) :
  sync P c ic → assoc o (Outgoing.objectToIdCache_ c) = None → sync (o :: P) (named o c) ic.
Proof.
  intros [Hids Hnames Hinj Hwf] Ho. split; cbn [named Outgoing.objectToIdCache_ Outgoing.curObjectId].
  - intros o' id. rewrite assoc_cons. destruct (decide (o' = o)) as [->|Hne].
    + intros [= <-]. split; [lia|]. rewrite decide_True by left.
      destruct (_ !! _) eqn:Hl; [|done].
      destruct (Hnames (KInt (Outgoing.curObjectId c))) as (id & [= <-] & ?); [eauto|lia].
    + intros Hid. destruct (Hids _ _ Hid) as [Hlt Hl]. split; [lia|]. rewrite Hl.
      destruct (decide (o' ∈ P)) as [Hin|Hin].
      * by rewrite decide_True by by right.
      * rewrite decide_False; [done|]. by intros [?|?]%elem_of_cons.
  - intros k Hk. destruct (Hnames k Hk) as (id & -> & ?). exists id. split; [done|lia].
  - intros o1 o2 id. rewrite !assoc_cons. intros H1 H2.
    destruct (decide (o1 = o)), (decide (o2 = o)); simplify_eq; try done.
    + destruct (Hids _ _ H2). lia.
    + destruct (Hids _ _ H1). lia.
    + by eapply Hinj.
  - done.
Qed.

(** The client learns the name of [o]. *)
Lemma sync_learned P o id c s :
  sync (o :: P) c s → assoc o (Outgoing.objectToIdCache_ c) = Some id → o ∉ P →
  ∃ s', memoize (PInt id) (at_client (PLoc o.1 o.2)) s = (Ret tt, s') ∧ sync P c s'.
Proof.
  intros [Hids Hnames Hinj Hwf] Ho HoP.
  destruct (Hids _ _ Ho) as [Hlt Hl]. rewrite decide_True in Hl by left.
  eexists. split; [reflexivity|]. split; cbn [objectsById].
  - intros o' id' Ho'. destruct (Hids _ _ Ho') as [Hlt' Hl']. split; [done|].
    destruct (decide (o' = o)) as [->|Hne].
    + assert (id' = id) as -> by congruence. rewrite lookup_insert_eq, decide_False by done. done.
    + assert (id' ≠ id) by (intros ->; apply Hne; by eapply Hinj).
      rewrite lookup_insert_ne by congruence. rewrite Hl'.
      destruct (decide (o' ∈ o :: P)) as [Hin|Hin].
      * apply elem_of_cons in Hin as [?|Hin]; [done|]. by rewrite decide_True.
      * rewrite decide_False; [done|]. intros ?. apply Hin. by right.
  - intros k Hk. apply lookup_insert_is_Some' in Hk as [<-|Hk]; eauto.
  - done.
  - by apply memoize_wf.
Qed.

Lemma assoc_None {A} (k : key) (l : list (key * A)) : assoc k l = None ↔ k ∉ l.*1.
Proof.
  induction l as [|[k' a] l IH]; [split; [by intros _ ?%not_elem_of_nil|done]|].
  rewrite assoc_cons. cbn. rewrite not_elem_of_cons, <- IH. destruct (decide (k = k')); naive_solver.
Qed.

Lemma at_key_None {A} (f : pyval → A) k l : at_key f k l = None ↔ assoc k l = None.
Proof.
  induction l as [|[k' a] l IH]; [done|]. cbn. by destruct (bool_decide (k = k')).
Qed.

(** A name given once stays. *)
Lemma lookup_keeps o id o' :
  keeps (λ c, assoc o (Outgoing.objectToIdCache_ c) = Some id) (Outgoing.lookupObjectId o').
Proof.
  intros c Hc. destruct (assoc o' (Outgoing.objectToIdCache_ c)) as [i|] eqn:Ho.
  - by rewrite (lookup_known _ _ _ Ho).
  - rewrite (lookup_new _ _ Ho). cbn [snd named Outgoing.objectToIdCache_].
    rewrite assoc_cons, decide_False; [done|]. intros ->. congruence.
Qed.

Lemma convert_keeps exposed instance o id v :
  (∀ n, keeps (λ c, assoc o (Outgoing.objectToIdCache_ c) = Some id) (instance n)) →
  keeps (λ c, assoc o (Outgoing.objectToIdCache_ c) = Some id)
    (Outgoing.convert_with exposed instance v).
Proof.
  intros Hi. induction v as [| | | |l IH|l IH|cls a IH| |] using pyval_ind';
    cbn [Outgoing.convert_with]; try apply keeps_ret.
  - apply keeps_bind; [|intros ?; apply keeps_ret]. apply keeps_mapM.
    rewrite Forall_forall in IH. done.
  - apply keeps_bind; [|intros ?; apply keeps_ret]. apply keeps_mapM.
    rewrite Forall_forall in IH. intros [k x] Hx. cbn. destruct k; try apply keeps_raise.
    apply keeps_bind; [by apply (IH _ Hx)|intros ?; apply keeps_ret].
  - apply keeps_bind; [apply keeps_get|]. intros c. destruct (assoc _ _).
    + apply keeps_bind; [apply lookup_keeps|intros ?; apply keeps_ret].
    + apply keeps_bind; [apply lookup_keeps|intros ?].
      apply keeps_bind; [apply keeps_lift|intros ?].
      apply keeps_bind; [done|intros ?; apply keeps_ret].
  - apply Hi.
  - apply keeps_raise.
Qed.

Section exchange.
Context (exposed : string → bool) (objectDefinition_ : nat → option pyval).

Let encode := Outgoing.convert_with exposed (λ n,
    match objectDefinition_ n with
    | Some d => Outgoing.convert_with exposed (λ _, raise RecursionLimit) d
    | None => Outgoing.raiseException
    end).
Let decode := convertJsonToObject exposed.

Definition exchanges (v : pyval) : Prop := ∀ P c s,
  sendable exposed v = true → (∀ p, p ∈ P → psize v < S (psize p.2)) → sync P c s →
  ∃ j c' s', encode v c = (Ret j, c') ∧ decode j s = (Ret (at_client v), s') ∧ sync P c' s'.

Lemma exchanges_list l : Forall exchanges l → ∀ P c s,
  Forall (λ v, sendable exposed v = true) l →
  (∀ p v, p ∈ P → v ∈ l → psize v < S (psize p.2)) → sync P c s →
  ∃ js c' s', mapM encode l c = (Ret js, c') ∧
    mapM decode js s = (Ret (at_client <$> l), s') ∧ sync P c' s'.
Proof.
  induction 1 as [|v l Hv _ IH]; intros P c s He HP Hs; [by exists [], c, s|].
  apply Forall_cons in He as [He1 He2].
  edestruct (Hv P c s) as (j & c1 & s1 & Hc1 & Hd1 & Hs1); [done| |done|].
  { intros p Hp. apply HP; [done|left]. }
  edestruct (IH P c1 s1) as (js & c2 & s2 & Hc2 & Hd2 & Hs2); [done| |done|].
  { intros p w Hp Hw. apply HP; [done|by right]. }
  exists (j :: js), c2, s2. rewrite !mapM_cons. split_ands; [| |done].
  - step Hc1. by step Hc2.
  - step Hd1. by step Hd2.
Qed.

Definition encode_item (x : key * pyval) : M Outgoing.cache (key * pyval) :=
  match x.1 with
  | KStr _ => w ← encode x.2; mret (x.1, w)
  | _ => Outgoing.raiseException
  end.
Definition decode_item (x : key * pyval) : M session (key * pyval) :=
  w ← decode x.2; mret (x.1, w).

Lemma exchanges_items l : Forall (λ x, exchanges x.2) l → ∀ P c s,
  Forall (λ x, (∃ s, x.1 = KStr s) ∧ sendable exposed x.2 = true) l →
  (∀ p x, p ∈ P → x ∈ l → psize x.2 < S (psize p.2)) → sync P c s →
  ∃ js c' s', js.*1 = l.*1 ∧ mapM encode_item l c = (Ret js, c') ∧
    mapM decode_item js s = (Ret ((λ x, (x.1, at_client x.2)) <$> l), s') ∧ sync P c' s'.
Proof.
  induction 1 as [|[k v] l Hv _ IH]; intros P c s He HP Hs; [by exists [], c, s|].
  apply Forall_cons in He as [[[t Hk] He1] He2]. cbn in Hk, He1. subst k.
  edestruct (Hv P c s) as (j & c1 & s1 & Hc1 & Hd1 & Hs1); [done| |done|].
  { intros p Hp. apply (HP p _ Hp). left. }
  edestruct (IH P c1 s1) as (js & c2 & s2 & Hks & Hc2 & Hd2 & Hs2); [done| |done|].
  { intros p w Hp Hw. apply HP; [done|by right]. }
  exists ((KStr t, j) :: js), c2, s2. rewrite !mapM_cons. split_ands; [by cbn; rewrite Hks| | |done].
  - erewrite (bind_step (encode_item _)); [|unfold encode_item; cbn [fst snd]; by step Hc1].
    by step Hc2.
  - erewrite (bind_step (decode_item _)); [|unfold decode_item; cbn [fst snd]; by step Hd1].
    by step Hd2.
Qed.

(** How the client reads a definition with its name. *)
Lemma decode_definition id t a s s1 v :
  exposed t = true → decode a s = (Ret v, s1) →
  decode (PDict [(KStr "objectId_", PInt id);
      (KStr "objectDefinition_", PDict [(KStr "type", PStr t); (KStr "args", a)])]) s =
  (memoize (PInt id) (WebObject t v) ;; mret (WebObject t v)) s1.
Proof.
  intros Ht Hd.
  transitivity ((className ← lift (class_of exposed (PStr t)); inArgs ← decode a;
    memoize (PInt id) (WebObject className inArgs) ;; mret (WebObject className inArgs)) s); [reflexivity|].
  unfold class_of. cbn [hash_key mbind res_bind]. rewrite Ht.
  erewrite (bind_step (lift _)) by reflexivity. by step Hd.
Qed.

Lemma psize_list v l : v ∈ l → psize v < psize (PList l).
Proof. intros (l1 & l2 & ->)%list_elem_of_split. cbn. rewrite sum_list_with_app. cbn. lia. Qed.

Lemma psize_dict x l : x ∈ l → psize x.2 < psize (PDict l).
Proof. intros (l1 & l2 & ->)%list_elem_of_split. cbn. rewrite sum_list_with_app. cbn. lia. Qed.

(** A location that the client knows, and one that it is told of. *)
Lemma exchange_known P c s cls a id :
  (cls, a) ∉ P → sync P c s →
  assoc (cls, a) (Outgoing.objectToIdCache_ c) = Some id →
  ∃ j c' s', encode (PLoc cls a) c = (Ret j, c') ∧
    decode j s = (Ret (at_client (PLoc cls a)), s') ∧ sync P c' s'.
Proof.
  intros HaP Hs Ha. eexists _, c, s. split_ands; [| |done].
  - cbn [encode Outgoing.convert_with]. erewrite bind_step by reflexivity. rewrite Ha.
    by step (lookup_known _ _ _ Ha).
  - destruct (sync_ids _ _ _ Hs _ _ Ha) as [_ Hl]. rewrite decide_False in Hl by done.
    transitivity (known_object (PInt id) s); [reflexivity|]. unfold known_object. cbn [hash_key mbind res_bind].
    by rewrite Hl.
Qed.

Lemma exchange_new P c s cls a :
  exchanges a → sendable exposed (PLoc cls a) = true → (cls, a) ∉ P →
  (∀ p, p ∈ P → psize a < S (psize p.2)) → sync P c s →
  assoc (cls, a) (Outgoing.objectToIdCache_ c) = None →
  ∃ j c' s', encode (PLoc cls a) c = (Ret j, c') ∧
    decode j s = (Ret (at_client (PLoc cls a)), s') ∧ sync P c' s'.
Proof.
  intros IH He HaP HP Hs Ha. cbn in He. apply andb_true_iff in He as [Hexp He].
  edestruct (IH ((cls, a) :: P) (named (cls, a) c) s) as (ja & c' & s1 & Hja & Hd & Hs1);
    [done| |by apply sync_named|].
  { intros p [->|Hp]%elem_of_cons; cbn; [lia|by apply HP]. }
  assert (Hkeep : assoc (cls, a) (Outgoing.objectToIdCache_ c') = Some (Outgoing.curObjectId c)).
  { replace c' with (encode a (named (cls, a) c)).2 by by rewrite Hja.
    apply convert_keeps; [|cbn; by rewrite bool_decide_eq_true_2].
    intros n. destruct (objectDefinition_ n); [|apply keeps_raise].
    apply convert_keeps. intros ?. apply keeps_raise. }
  edestruct (sync_learned P (cls, a) _ c' s1 Hs1 Hkeep HaP) as (s2 & Hadd & Hs2).
  eexists _, c', s2. split_ands; [| |done].
  - cbn [encode Outgoing.convert_with]. fold encode. erewrite bind_step by reflexivity. rewrite Ha.
    step (lookup_new _ _ Ha). unfold Outgoing.typenameFromType. rewrite Hexp.
    erewrite bind_step by reflexivity. by step Hja.
  - rewrite (decode_definition _ _ _ _ _ _ Hexp Hd). by step Hadd.
Qed.

Lemma exchange v : exchanges v.
Proof.
  induction v as [| | | |l IH|l IH|cls a IH| |] using pyval_ind'; intros P c st He HP Hs;
    try discriminate He;
    try (match goal with |- ∃ _ _ _, encode ?v _ = _ ∧ _ => by exists v, c, st end).
  - apply sendable_list in He.
    edestruct (exchanges_list l IH P c st) as (js & c' & s' & Hc & Hd & Hs'); [done| |done|].
    { intros p w Hp Hw. pose proof (psize_list w l Hw). pose proof (HP p Hp). lia. }
    eexists (PList js), c', s'. cbn [encode Outgoing.convert_with decode convertJsonToObject at_client].
    fold encode decode. split_ands; [by step Hc|by step Hd|done].
  - apply sendable_dict in He as (Hid & Hdef & He).
    edestruct (exchanges_items l IH P c st) as (js & c' & s' & Hk & Hc & Hd & Hs');
      [done| |done|].
    { intros p w Hp Hw. pose proof (psize_dict w l Hw). pose proof (HP p Hp). lia. }
    eexists (PDict js), c', s'. cbn [encode Outgoing.convert_with decode convertJsonToObject at_client].
    fold encode decode. split_ands; [etransitivity; [eapply bind_step, Hc|done]| |done].
    rewrite assoc_None, <- Hk, <- assoc_None in Hid.
    rewrite Hid. etransitivity; [eapply bind_step, Hd|done].
  - assert (HaP : (cls, a) ∉ P) by (intros Hp; specialize (HP _ Hp); cbn in HP; lia).
    destruct (assoc (cls, a) (Outgoing.objectToIdCache_ c)) as [id|] eqn:Ha.
    + by eapply exchange_known.
    + eapply exchange_new; [done|done|done| |done|done].
      intros p Hp. specialize (HP p Hp). cbn in HP. lia.
Qed.
End exchange.

(** ** A session's responses *)

(** What passes from the gateway to the client, in the order of the connection: a value of
    a response, and the end of a batch of responses, at which the gateway may tell the
    client to forget the names that it had so far. *)
Inductive traffic := Response (v : pyval) | EndOfBatch.

Section talk.
Context (exposed : string → bool) (objectDefinition_ : nat → option pyval).

(** Both ends: the gateway converts a value, the client reads it ([None] for no value). *)
Definition pass (t : traffic) : M (Outgoing.cache * session) (option pyval) := λ '(c, s),
  match t with
  | Response v =>
      match Outgoing.convertResponseToJson exposed objectDefinition_ v c with
      | (Raise e, c) => (Raise e, (c, s))
      | (Ret j, c) => let (r, s) := convertJsonToObject exposed j s in (Some <$> r, (c, s))
      end
  | EndOfBatch =>
      match Outgoing.tryFlushObjectIdCache c with
      | (Ret (Some t), c) => let (r, s) := clearObjectIdsBelow t s in (const None <$> r, (c, s))
      | (Ret None, c) => (Ret None, (c, s))
      | (Raise e, c) => (Raise e, (c, s))
      end
  end.

Definition sendable_traffic (t : traffic) : bool :=
  match t with Response v => sendable exposed v | EndOfBatch => true end.

Lemma clear_forgets t s :
  session_wf s → (∀ k, is_Some (objectsById s !! k) → ∃ id, k = KInt id ∧ (id < t)%Z) →
  ∃ s', clearObjectIdsBelow t s = (Ret tt, s') ∧ session_wf s' ∧ objectsById s' = ∅.
Proof.
  intros Hwf Hn. destruct (clearObjectIdsBelow_ok t s Hwf) as (s' & Hf & Hwf' & Hc).
  exists s'. split_ands; [done|done|]. rewrite Hc. apply map_eq. intros k.
  rewrite lookup_empty, map_lookup_filter_None. destruct (objectsById s !! k) eqn:Hk;
    [|by left]. right. intros x Hx. destruct (Hn k) as (id & -> & Hlt); [eauto|].
  unfold Incoming.below. cbn. apply not_false_iff_true, negb_true_iff, Z.leb_gt. done.
Qed.

Lemma pass_ok t c s :
  sendable_traffic t = true → sync [] c s →
  ∃ c' s', pass t (c, s) =
      (Ret (match t with Response v => Some (at_client v) | EndOfBatch => None end), (c', s')) ∧ sync [] c' s'.
Proof.
  intros Ht Hs. unfold pass. destruct t as [v|].
  - edestruct (exchange exposed objectDefinition_ v [] c s Ht) as (j & c1 & s1 & Hc & Hd & Hs1);
      [by intros p ?%not_elem_of_nil|done|].
    unfold Outgoing.convertResponseToJson. rewrite Hc, Hd. by exists c1, s1.
  - unfold Outgoing.tryFlushObjectIdCache. case_bool_decide as Hmax; [|by exists c, s].
    destruct (clear_forgets (Outgoing.curObjectId c) s) as (s2 & Hf & Hwf & He);
      [apply Hs|apply (sync_names _ _ _ Hs)|].
    rewrite Hf. eexists _, s2. split; [reflexivity|].
    split; cbn; [done| |done|done]. intros k. rewrite He, lookup_empty. by intros [].
Qed.
End talk.

(** C32. The generated Python client understands the gateway's names for objects. Take any
    values of JSON and locations of the classes that the client was generated for, one
    after another, and the ends of batches anywhere between them. As long as every value
    can be sent (one that cannot leaves names that the client never learns, see
    [failed_conversion_loses_definition]), each is converted without an exception, and the
    client reads back exactly that value, a web object of the same class and arguments for
    each location: no response names an object that the client does not know, or binds a
    name twice, and the client forgets the old names without a [KeyError]. The client reads
    the items of a dict in the order in which the gateway wrote them. *)
Theorem responses_are_understood classMap objectDefinition_ ts :
  Forall (λ t, sendable_traffic classMap t = true) ts →
  (mapM (pass classMap objectDefinition_) ts (Outgoing.init, new_session)).1 =
    Ret ((λ t, match t with Response v => Some (at_client v) | EndOfBatch => None end) <$> ts).
Proof.
  assert (sync [] Outgoing.init new_session) as H0.
  { split; [done| |done|]; [intros k; cbn; rewrite lookup_empty; by intros []|].
    split; [constructor|]. intros k. cbn. rewrite lookup_empty. split; [by intros ?%not_elem_of_nil|by intros []]. }
  revert H0. generalize Outgoing.init new_session.
  induction ts as [|t ts IH]; intros c s Hs Hts; [done|].
  apply Forall_cons in Hts as [Ht Hts].
  destruct (pass_ok classMap objectDefinition_ t c s Ht Hs) as (c' & s' & Hr & Hs').
  specialize (IH c' s' Hs' Hts). rewrite mapM_cons. step Hr. unfold mbind, M_bind.
  destruct (mapM _ ts _) as [[?|?] ?]; cbn in *; by simplify_eq.
Qed.

(** ** A session *)

Definition sample_classes (c : string) : bool :=
  bool_decide (c ∈ ["ComputedValue"; "PyforaComputedValue"; "Test"]).
Definition sample_traffic : list traffic :=
  [Response (PLoc "ComputedValue" (PDict [(KStr "arg", PInt 1)])); EndOfBatch;
   Response (PList [PLoc "PyforaComputedValue" (PLoc "ComputedValue" (PDict [(KStr "arg", PInt 1)]));
                    PLoc "Test" (PDict [])]);
   Response (PDict [(KStr "v", PLoc "Test" (PDict []))]); EndOfBatch].

Lemma responses_are_understood_witness :
  (mapM (pass sample_classes (λ _, None)) sample_traffic (Outgoing.init, new_session)).1 =
    Ret ((λ t, match t with Response v => Some (at_client v) | EndOfBatch => None end) <$> sample_traffic).
Proof. apply (responses_are_understood sample_classes (λ _, None)). vm_compute. repeat constructor. Defined.

(** The client forgets and is told of the object again. *)
Example told_again :
  let c := Outgoing.Cache ∅ [] 20000 5000 in
  (mapM (pass sample_classes (λ _, None))
     [Response (PLoc "Test" PNone); EndOfBatch; Response (PLoc "Test" PNone)] (c, new_session)).1 =
  Ret [Some (PLoc "Test" (PDict [])); None; Some (PLoc "Test" (PDict []))].
Proof. by vm_compute. Qed.

(** A dict with a new object in two items: a client that takes the items in another order
    meets the bare id first. *)
Lemma order_of_items_matters :
  let new := PLoc "Test" (PDict []) in
  match (Outgoing.convertResponseToJson sample_classes (λ _, None)
           (PDict [(KStr "a", new); (KStr "b", new)]) Outgoing.init).1 with
  | Ret (PDict items) =>
      (convertJsonToObject sample_classes (PDict items) new_session).1 =
        Ret (PDict [(KStr "a", new); (KStr "b", new)]) ∧
      (convertJsonToObject sample_classes (PDict (reverse items)) new_session).1 =
        Raise (OtherException "Received an undefined object id")
  | _ => False
  end.
Proof. vm_compute. done. Qed.

(** When a conversion fails after an object was given a name, the definition is
    not sent, but the next response takes it as known. *)
Lemma failed_conversion_loses_definition :
  let (r1, c) := Outgoing.convertResponseToJson (λ _, true) (λ _, None)
                   (PList [PLoc "Test" PNone; POther 0]) Outgoing.init in
  let (r2, _) := Outgoing.convertResponseToJson (λ _, true) (λ _, None) (PLoc "Test" PNone) c in
  r1 = Raise (SubscribableWebObjects "result was not valid json") ∧
  r2 = Ret (PDict [(KStr "objectId_", PInt 0)]).
Proof. vm_compute. done. Qed.
