(* ===== verification/MessageProcessor.v ===== *)
(** * A gateway session ([ufora/BackendGateway/SubscribableWebObjects/])

    [MessageProcessor.py], [Subscriptions.py] and [Decorators.py]: the messages of
    one client, in order, against the application's objects. *)
From Stdlib Require Import Lia.
From stdpp Require Import base gmap sets list strings fin_maps sorting.
From S2P Require Import Prelude PyStrings ObjectCaches.

(** ** Python's [==] on the values of a session *)

Fixpoint py_eq (v w : pyval) : bool :=
  match v, w with
  | PNone, PNone => true
  | (PBool _ | PInt _), (PBool _ | PInt _) => bool_decide (hash_key v = hash_key w)
  | PStr a, PStr b => String.eqb a b
  | PList a, PList b => list_eqb py_eq a b
  | PDict a, PDict b =>
      (length a =? length b)%nat &&
      forallb (λ x : key * pyval,
        match assoc x.1 b with Some w => py_eq x.2 w | None => false end) a
  | PLoc _ _, PLoc _ _ => pyval_eqb v w
  | PInst m, PInst n => (m =? n)%nat
  | POther m, POther n => (m =? n)%nat
  | _, _ => false
  end.

(** ** Members of classes ([Decorators.py]) *)

Inductive member :=
| FieldImpl (setter : bool)
| Key
| Property (exposeToProtocol setter : bool)
| PropertyMaker (exposeToProtocol : bool)
| Mutable (exposeToProtocol : bool)
| FunctionImpl
| Function (exposeToProtocol expandArgs wantsCallback : bool)
| OtherMember.

Definition isPropertyToExpose (classMember : member) : bool :=
  match classMember with
  | FieldImpl _ => true
  | Key => true
  | Property e _ | PropertyMaker e | Mutable e => e
  | _ => false
  end.

(** An object without the attribute [setter] never gets here. *)
Definition propertyHasSetter (classMember : member) : bool :=
  match classMember with
  | PropertyMaker _ | Mutable _ => true
  | Key => false
  | FieldImpl s | Property _ s => s
  | _ => false
  end.

Definition isFunctionToExpose (classMember : member) : bool :=
  match classMember with
  | FunctionImpl => true
  | Function e _ _ => e
  | _ => false
  end.

Definition functionExpectsExpandedArgs (classMember : member) : bool :=
  match classMember with Function _ x _ => x | _ => false end.

Definition functionExpectsCallback (classMember : member) : bool :=
  match classMember with Function _ _ c => c | _ => false end.

(** ** Responses *)

Inductive response :=
| OK (messageId : pyval)
| ReadResponse (messageId value : pyval)
| SubscribeResponse (messageId value : pyval)
| ValueChanged (messageId value : pyval)
| ExecutionResult (messageId result : pyval)
| ExceptionResponse (messageId : pyval) (message : string)
| UnicodeResponse (messageId : pyval) (line column : Z) (char : list Z)
| ClientFlushObjectIdsBelow (value : Z).

(** ** calculateLineAndColumn

    A unicode string is the list of its code points. *)

Definition newline : Z := 10.

(** [message.split('\n')]. *)
Fixpoint lines (message : list Z) : list (list Z) :=
  match message with
  | [] => [[]]
  | c :: message =>
      if bool_decide (c = newline) then [] :: lines message
      else match lines message with
           | l :: ls => (c :: l) :: ls
           | [] => [[c]]
           end
  end.

Fixpoint line_loop (ls : list (list Z)) (lineNo index : Z) : option (Z * Z) :=
  match ls with
  | [] => None
  | line :: ls =>
      if bool_decide (index < Z.of_nat (length line))%Z then Some (lineNo, index + 1)%Z
      else line_loop ls (lineNo + 1) (index - (Z.of_nat (length line) + 1))
  end.

Definition calculateLineAndColumn (message : list Z) (index : Z) : option (Z * Z) :=
  line_loop (lines message) 1 index.

(** ** Exceptions *)

(** [Exceptions.wrapException(e).message], with the guid that it makes up. *)
Definition wrapException (guid : string) (e : exn) : string :=
  match e with
  | SubscribableWebObjects what => what
  | _ => ("Unknown exception. Guid = " ++ guid)%string
  end.

Definition InvalidFieldException : exn := SubscribableWebObjects "Invalid field.".
Definition InvalidFunctionException : exn := SubscribableWebObjects "Invalid function.".

Definition is_malformed (e : exn) : bool :=
  match e with MalformedMessage | InvalidObjectDefinition => true | _ => false end.

(** ** Subscriptions *)

(** What a subscription's getter gave: a value, or an exception object, known by
    its identity, with its message. *)
Inductive reading := Value (v : pyval) | Failure (id : nat) (message : string).

(** Python's [!=]. *)
Definition differs (a b : reading) : bool :=
  match a, b with
  | Value v, Value w => negb (py_eq v w)
  | Failure m _, Failure n _ => negb (m =? n)%nat
  | _, _ => true
  end.

(** [subscriptionGetters] maps a subscription to the object and the field that
    its getter reads; [subscriptionKeys] is the mutable of [SubscriptionKeys()]. *)
Record subscriptions := Subscriptions {
  subscriptionGetters : gmap key (pyval * string);
  subscriptionValues : gmap key reading;
  changedSubscriptions : gset key;
  subscriptionKeys : option (list key) }.

Definition init_subscriptions : subscriptions := Subscriptions ∅ ∅ ∅ None.

Section recompute.
(** What a getter gives now. *)
Context (now : pyval * string → reading).

Definition recomputeSubscription_ (subscriptionId : key) (s : subscriptions) : subscriptions :=
  match subscriptionGetters s !! subscriptionId with
  | None => s
  | Some getter =>
      let newValue := now getter in
      match subscriptionValues s !! subscriptionId with
      | None =>
          Subscriptions (subscriptionGetters s)
            (<[subscriptionId := newValue]> (subscriptionValues s))
            (changedSubscriptions s) (subscriptionKeys s)
      | Some existingValue =>
          if differs existingValue newValue then
            Subscriptions (subscriptionGetters s)
              (<[subscriptionId := newValue]> (subscriptionValues s))
              ({[subscriptionId]} ∪ changedSubscriptions s) (subscriptionKeys s)
          else s
      end
  end.

(** [controlRoot.update()] generates the controls of these subscriptions. *)
Definition recompute_all (regenerated : list key) (s : subscriptions) : subscriptions :=
  foldl (λ s k, recomputeSubscription_ k s) s regenerated.
End recompute.

(** The end of [updateAndReturnChangedSubscriptionIds]. *)
Definition take_changed : M subscriptions (list key) := λ s,
  (Ret (merge_sort key_le (elements (changedSubscriptions s))),
   Subscriptions (subscriptionGetters s) (subscriptionValues s) ∅ (subscriptionKeys s)).

Definition removeSubscription (subscriptionId : key) : M subscriptions unit := λ s,
  match subscriptionGetters s !! subscriptionId with
  | None => (Raise KeyError, s)
  | Some _ =>
      let s := Subscriptions (delete subscriptionId (subscriptionGetters s))
                 (subscriptionValues s) (changedSubscriptions s) (subscriptionKeys s) in
      match subscriptionValues s !! subscriptionId with
      | None => (Raise KeyError, s)
      | Some _ =>
          (Ret tt, Subscriptions (subscriptionGetters s)
                     (delete subscriptionId (subscriptionValues s))
                     (changedSubscriptions s) (subscriptionKeys s))
      end
  end.

Definition subscription_value (subscriptionId : key) : M subscriptions reading := λ s,
  (of_option KeyError (subscriptionValues s !! subscriptionId), s).

Definition getValueAndDropSubscription (subscriptionId : key) : M subscriptions reading :=
  result ← subscription_value subscriptionId;
  removeSubscription subscriptionId ;;
  mret result.

Definition register (subscriptionId : key) (getter : pyval * string) (s : subscriptions)
    : subscriptions :=
  let getters := <[subscriptionId := getter]> (subscriptionGetters s) in
  Subscriptions getters (subscriptionValues s) (changedSubscriptions s)
    (Some (map_to_list getters).*1).

Definition subscriptionCount (s : subscriptions) : nat := size (subscriptionGetters s).

(** [SubscriptionKeys.keys]. *)
Definition keys (s : subscriptions) : list key := default [] (subscriptionKeys s).

(** ** The processor *)

(** A closure of [pendingObjectQueue]: the message it answers, and the exception
    or the value that the callback was given. *)
Inductive pending := PendingException (messageId : pyval) (result : exn)
| PendingResult (messageId result : pyval).

Definition pending_id (x : pending) : pyval :=
  match x with PendingException i _ | PendingResult i _ => i end.

(** How a caller passes the arguments on. *)
Inductive call_args :=
| Single (arg : pyval)
| Positional (args : list pyval)
| Keywords (args : list (key * pyval)).

(** The class of an object: that of a location, of an instance that the session
    made, of another instance, or a builtin type. *)
Inductive pyclass := LocationClass (cls : string) | InstanceClass (cls : string)
| ClassOf (n : nat) | Builtin (name : string).

Section processor.
(** The application's state, which the computed graph holds. *)
Context {App : Type}.

Record processor := Processor {
  expectedMessageId : Z;
  cache : objects;
  outgoingObjectCache : Outgoing.cache;
  subs : subscriptions;
  pendingObjectQueue : list pending;
  app : App }.

Definition init (a : App) : processor :=
  Processor 0 init_objects Outgoing.init init_subscriptions [] a.

Definition set_expected (n : Z) (p : processor) : processor :=
  Processor n (cache p) (outgoingObjectCache p) (subs p) (pendingObjectQueue p) (app p).
Definition set_subs (s : subscriptions) (p : processor) : processor :=
  Processor (expectedMessageId p) (cache p) (outgoingObjectCache p) s (pendingObjectQueue p) (app p).
Definition set_pending (l : list pending) (p : processor) : processor :=
  Processor (expectedMessageId p) (cache p) (outgoingObjectCache p) (subs p) l (app p).
Definition set_app (a : App) (p : processor) : processor :=
  Processor (expectedMessageId p) (cache p) (outgoingObjectCache p) (subs p) (pendingObjectQueue p) a.

Definition in_cache {A} (m : M objects A) : M processor A := λ p,
  let (r, c) := m (cache p) in
  (r, Processor (expectedMessageId p) c (outgoingObjectCache p) (subs p) (pendingObjectQueue p) (app p)).
Definition in_outgoing {A} (m : M Outgoing.cache A) : M processor A := λ p,
  let (r, c) := m (outgoingObjectCache p) in
  (r, Processor (expectedMessageId p) (cache p) c (subs p) (pendingObjectQueue p) (app p)).
Definition in_subs {A} (m : M subscriptions A) : M processor A := λ p,
  let (r, s) := m (subs p) in (r, set_subs s p).
Definition in_app {A} (f : App → res A * App) : M processor A := λ p,
  let (r, a) := f (app p) in (r, set_app a p).

(** What the application's classes do. [classMap] holds the exposed classes;
    [class_member] is [getattr] of a class; the other four read, assign and call
    members of objects. A function that wants a callback may give it results
    before it returns or raises; what it gives it later, from another thread, is
    a step of its own. *)
Context (classMap : string → option (pyval → res made)).
Context (class_member : pyclass → string → option member).
Context (read_member : App → pyval → string → res pyval).
Context (exception_identity : App → pyval → string → nat).
Context (assign_member : pyval → string → pyval → App → res unit * App).
Context (call_member : pyval → string → call_args → App → res pyval * App).
Context (call_with_callback :
  pyval → string → call_args → App → list (pyval + exn) * option exn * App).
Context (guid : string).

Definition exposed (t : string) : bool := bool_decide (is_Some (classMap t)).

Definition getObjectClass (o : processor) (v : pyval) : pyclass :=
  match v with
  | PLoc cls _ => LocationClass cls
  | PInst n =>
      match instances (cache o) !! n with
      | Some (cls, _) => InstanceClass cls
      | None => Builtin "object"
      end
  | POther n => ClassOf n
  | PNone => Builtin "NoneType"
  | PBool _ => Builtin "bool"
  | PInt _ => Builtin "int"
  | PStr _ => Builtin "str"
  | PList _ => Builtin "list"
  | PDict _ => Builtin "dict"
  end.

Definition to_json (v : pyval) : M processor pyval := λ p,
  in_outgoing (Outgoing.convertResponseToJson exposed
    (λ n, snd <$> instances (cache p) !! n) v) p.

(** *** Updates of the graph *)

(** What the world does during [updateComputedGraph_]: the shared state and the
    background queues change the application's state, or an exception comes out,
    and these subscriptions' controls are generated. *)
Record update := Update {
  changes : App → App;
  failure : option exn;
  regenerated : list key }.

(** A getter, with its exceptions caught and wrapped. *)
Definition now (a : App) (getter : pyval * string) : reading :=
  match read_member a getter.1 getter.2 with
  | Ret v => Value v
  | Raise e => Failure (exception_identity a getter.1 getter.2) (wrapException guid e)
  end.

Definition updateComputedGraph_ (u : update) : M processor unit :=
  modify (λ p, set_app (changes u (app p)) p) ;;
  match failure u with
  | Some e => raise e
  | None => modify (λ p, set_subs (recompute_all (now (app p)) (regenerated u) (subs p)) p)
  end.

Definition updateAndReturnChangedSubscriptionIds (u : update) : M processor (list key) :=
  updateComputedGraph_ u ;; in_subs take_changed.

Definition addSubscription (u : update) (subscriptionId : key) (resultGetter : pyval * string)
    : M processor (reading * list key) :=
  modify (λ p, set_subs (register subscriptionId resultGetter (subs p)) p) ;;
  changed ← updateAndReturnChangedSubscriptionIds u;
  value ← in_subs (subscription_value subscriptionId);
  mret (value, changed).

Definition key_val (k : key) : pyval :=
  match k with KNone => PNone | KInt z => PInt z | KStr s => PStr s end.

(** One turn of the loop of [encodeSubscriptionChangesAsJsonAndDrop]. *)
Definition encode_change (messageId : key) : M processor response :=
  value ← in_subs (getValueAndDropSubscription messageId);
  match value with
  | Failure _ message => mret (ExceptionResponse (key_val messageId) message)
  | Value v =>
      catch (j ← to_json v; mret (ValueChanged (key_val messageId) j))
        (λ _, mret (ExceptionResponse (key_val messageId)
                ("Error converting result to json. guid = " ++ guid)))
  end.

Definition encodeSubscriptionChangesAsJsonAndDrop (changedSubscriptionIds : list key)
    : M processor (list response) :=
  mapM encode_change changedSubscriptionIds.

Definition updateGraphAndReturnMessages (u : update) : M processor (list response) :=
  changed ← updateAndReturnChangedSubscriptionIds u;
  encodeSubscriptionChangesAsJsonAndDrop changed.

(** *** Handlers

    A handler returns the list of its responses; [None] is an exception object
    that is returned in place of a list. *)

Definition unexpectedExceptionJson (jsonMessage : pyval) (e : exn) : M processor response :=
  id ← lift (getitem "messageId" jsonMessage);
  mret (ExceptionResponse id (wrapException guid e)).

(** [try: ... except Exception as e: return [unexpectedExceptionJson(...)]]. *)
Definition or_exception (jsonMessage : pyval) (m : M processor (list response))
    : M processor (list response) :=
  catch m (λ e, r ← unexpectedExceptionJson jsonMessage e; mret [r]).

(** The [field] of a message, a string. *)
Definition message_field (jsonMessage : pyval) : res string :=
  has ← py_in "field" jsonMessage;
  if has : bool then
    f ← getitem "field" jsonMessage;
    match f with PStr field => Ret field | _ => Raise MalformedMessage end
  else Raise MalformedMessage.

(** [getattr(getObjectClass(objectToRead), field)]. *)
Definition object_member (objectToRead : pyval) (field : string) : M processor member := λ p,
  (of_option InvalidFieldException (class_member (getObjectClass p objectToRead) field), p).

(** The field that the returned getter reads. *)
Definition getFieldExtractorForReadMessage (jsonMessage objectToRead : pyval)
    : M processor string :=
  field ← lift (message_field jsonMessage);
  fieldDef ← object_member objectToRead field;
  if isPropertyToExpose fieldDef then mret field else raise InvalidFieldException.

Definition read (objectToRead : pyval) (field : string) : M processor pyval := λ p,
  (read_member (app p) objectToRead field, p).

Definition handleReadMessage (jsonMessage objectToRead : pyval) : M processor (list response) :=
  field ← getFieldExtractorForReadMessage jsonMessage objectToRead;
  or_exception jsonMessage
    (id ← lift (getitem "messageId" jsonMessage);
     v ← read objectToRead field;
     j ← to_json v;
     mret [ReadResponse id j]).

Definition handleSubscribeMessage (u : update) (jsonMessage objectToRead : pyval)
    : M processor (list response) :=
  field ← getFieldExtractorForReadMessage jsonMessage objectToRead;
  id ← lift (getitem "messageId" jsonMessage);
  k ← lift (hash_key id);
  x ← addSubscription u k (objectToRead, field);
  valueResponseJson ←
    match x.1 with
    | Failure _ message => mret (ExceptionResponse id message)
    | Value _ =>
        v ← read objectToRead field;
        j ← to_json v;
        mret (SubscribeResponse id j)
    end;
  rest ← encodeSubscriptionChangesAsJsonAndDrop x.2;
  mret (valueResponseJson :: rest).

(** The caller that [getFunctionForExecuteMessage] returns. *)
Record caller := Caller {
  called : string;
  expandArgs : bool;
  wantsCallback : bool }.

Definition getFunctionForExecuteMessage (jsonMessage objectToRead : pyval) : M processor caller :=
  field ← lift (message_field jsonMessage);
  funDef ← object_member objectToRead field;
  if isFunctionToExpose funDef then
    mret (Caller field (functionExpectsExpandedArgs funDef) (functionExpectsCallback funDef))
  else raise InvalidFunctionException.

Definition addResultToQueue (x : pending) : M processor unit :=
  modify (λ p, set_pending (pendingObjectQueue p ++ [x]) p).

(** The closure that [handleExecuteMessage] passes to the function. *)
Definition callback (messageId : pyval) (result : pyval + exn) : M processor unit :=
  addResultToQueue (match result with
                    | inl v => PendingResult messageId v
                    | inr e => PendingException messageId e
                    end).

(** [*arg] of a list, [**arg] of anything else. *)
Definition passed (c : caller) (arg : pyval) : res call_args :=
  if expandArgs c then
    match arg with
    | PList l => Ret (Positional l)
    | PDict d => Ret (Keywords d)
    | _ => Raise TypeError
    end
  else Ret (Single arg).

Definition call (c : caller) (messageId objectToExecuteOn objectArgs : pyval) : M processor unit :=
  if wantsCallback c then
    args ← lift (passed c objectArgs);
    results ← in_app (λ a,
      let '(rs, e, a) := call_with_callback objectToExecuteOn (called c) args a in (Ret (rs, e), a));
    forM_ (callback messageId) results.1 ;;
    match results.2 with Some e => raise e | None => mret tt end
  else
    result ← catch (args ← lift (passed c objectArgs);
                    v ← in_app (call_member objectToExecuteOn (called c) args);
                    mret (inl v)) (λ e, mret (inr e));
    callback messageId result.

Definition handleExecuteMessage (jsonMessage objectToExecuteOn : pyval)
    : M processor (list response) :=
  funImplementation ← getFunctionForExecuteMessage jsonMessage objectToExecuteOn;
  or_exception jsonMessage
    (args ← lift (getitem "args" jsonMessage);
     objectArgs ← in_cache (convertObjectArgs classMap args);
     id ← lift (getitem "messageId" jsonMessage);
     call funImplementation id objectToExecuteOn objectArgs ;;
     mret []).

Definition handleAssignMessage (jsonMessage objectToRead : pyval)
    : M processor (option (list response)) :=
  has ← lift (py_in "field" jsonMessage);
  lift (if has : bool then Ret tt else Raise MalformedMessage) ;;
  has ← lift (py_in "value" jsonMessage);
  lift (if has : bool then Ret tt else Raise MalformedMessage) ;;
  field ← lift (message_field jsonMessage);
  fieldDef ← object_member objectToRead field;
  if negb (isPropertyToExpose fieldDef) then raise InvalidFieldException
  else if negb (propertyHasSetter fieldDef) then mret None
  else
    r ← or_exception jsonMessage
      (v ← lift (getitem "value" jsonMessage);
       in_app (assign_member objectToRead field v) ;;
       id ← lift (getitem "messageId" jsonMessage);
       mret [OK id]);
    mret (Some r).

(** [isinstance(v, int)] in Python 2 on a 64-bit machine: larger numbers are
    [long]s. *)
Definition isint (v : pyval) : option Z :=
  match v with
  | PBool b => Some (Z.b2z b)
  | PInt z => if bool_decide (- 2 ^ 63 ≤ z < 2 ^ 63)%Z then Some z else None
  | _ => None
  end.

Definition handleFlushObjectIds (jsonMessage : pyval) : M processor (list response) :=
  has ← lift (py_in "value" jsonMessage);
  lift (if has : bool then Ret tt else Raise MalformedMessage) ;;
  v ← lift (getitem "value" jsonMessage);
  threshold ← lift (of_option MalformedMessage (isint v));
  in_cache (with_incoming (Incoming.flushIdsBelow threshold)) ;;
  id ← lift (getitem "messageId" jsonMessage);
  mret [OK id].

Definition messageTypes : list string :=
  ["Read"; "Assign"; "Subscribe"; "Execute"; "ServerFlushObjectIdsBelow"].

Definition handle (u : update) (messageType : string) (jsonMessage obj : pyval)
    : M processor (option (list response)) :=
  if String.eqb messageType "Read" then
    r ← handleReadMessage jsonMessage obj; mret (Some r)
  else if String.eqb messageType "Assign" then handleAssignMessage jsonMessage obj
  else if String.eqb messageType "Subscribe" then
    r ← handleSubscribeMessage u jsonMessage obj; mret (Some r)
  else if String.eqb messageType "Execute" then
    r ← handleExecuteMessage jsonMessage obj; mret (Some r)
  else r ← handleFlushObjectIds jsonMessage; mret (Some r).

(** The [try] of [handleJsonMessage]. *)
Definition dispatch (u : update) (jsonMessage : pyval) : M processor (option (list response)) :=
  modify (λ p, set_expected (expectedMessageId p + 1) p) ;;
  t ← lift (getitem "messageType" jsonMessage);
  k ← lift (hash_key t);
  match k with
  | KStr messageType =>
      lift (if bool_decide (messageType ∈ messageTypes) then Ret tt else Raise MalformedMessage) ;;
      has ← lift (py_in "objectDefinition" jsonMessage);
      lift (if has : bool then Ret tt else Raise MalformedMessage) ;;
      obj ← (if String.eqb messageType "ServerFlushObjectIdsBelow" then mret PNone
             else d ← lift (getitem "objectDefinition" jsonMessage);
                  in_cache (extractObjectDefinition classMap d));
      handle u messageType jsonMessage obj
  | _ => raise MalformedMessage
  end.

Definition handleJsonMessage (u : update) (incomingJsonMessage : pyval)
    : M processor (option (list response)) :=
  match incomingJsonMessage with
  | PDict d =>
      match assoc (KStr "messageId") d with
      | None => raise MalformedMessage
      | Some id => λ p,
          if negb (py_eq id (PInt (expectedMessageId p))) then (Raise MalformedMessage, p)
          else
            catch (dispatch u incomingJsonMessage)
              (λ e, if is_malformed e then raise e
                    else mret (Some [ExceptionResponse id (wrapException guid e)])) p
      end
  | _ => raise MalformedMessage
  end.

Definition tryFlushObjectIdCache : M processor (list response) :=
  objectId ← in_outgoing Outgoing.tryFlushObjectIdCache;
  mret (match objectId with Some i => [ClientFlushObjectIdsBelow i] | None => [] end).

(** What arrives: nothing before the timeout, text that is not JSON, a JSON
    value, or one with characters outside ASCII, for which [convertToStringRecursively]
    raises a [UnicodeEncodeError] about a range of one of its strings. *)
Inductive incoming_message :=
| NoMessage
| NotJson
| Json (v : pyval)
| NonAscii (v : pyval) (object : list Z) (start stop : Z).

Definition handleIncomingMessage (u : update) (message : incoming_message)
    : M processor (list response) :=
  match message with
  | NoMessage => updateGraphAndReturnMessages u
  | NotJson => raise ValueError
  | Json v =>
      r ← handleJsonMessage u v;
      match r with
      | Some responses => flush ← tryFlushObjectIdCache; mret (responses ++ flush)
      | None => tryFlushObjectIdCache ;; raise TypeError
      end
  | NonAscii v object start stop =>
      modify (λ p, set_expected (expectedMessageId p + 1) p) ;;
      x ← lift (of_option TypeError (calculateLineAndColumn object start));
      id ← lift (getitem "messageId" v);
      mret [UnicodeResponse id x.1 x.2
        (take (Z.to_nat stop - Z.to_nat start) (drop (Z.to_nat start) object))]
  end.

(** A closure of the queue is called. *)
Definition answer_pending (x : pending) : M processor response :=
  match x with
  | PendingException id e => mret (ExceptionResponse id (wrapException guid e))
  | PendingResult id result =>
      catch (j ← to_json result; mret (ExecutionResult id j))
        (λ e, mret (ExceptionResponse id (wrapException guid e)))
  end.

Definition extractPendingMessages : M processor (list response) :=
  p ← get;
  tr ← mapM answer_pending (pendingObjectQueue p);
  modify (set_pending []) ;;
  mret tr.

(** ** A connection ([ConnectionHandler.serviceIncomingChannel])

    One turn: what arrives before the timeout, what the world does meanwhile, the
    callbacks of other threads, and whether the shared state is still there. *)
Record turn_input := TurnInput {
  message : incoming_message;
  during : update;
  late_callbacks : list (pyval * (pyval + exn));
  isDisconnectedFromSharedState : bool }.

Definition turn (i : turn_input) : M processor (option (list response)) :=
  responses ← handleIncomingMessage (during i) (message i);
  forM_ (λ x : pyval * (pyval + exn), callback x.1 x.2) (late_callbacks i) ;;
  more ← extractPendingMessages;
  mret (if isDisconnectedFromSharedState i then None else Some (responses ++ more)).

Inductive ending := Connected | LostSharedState | Disconnected | Failed.

(** The responses written to the channel, and why the loop ended. *)
Fixpoint serviceIncomingChannel (inputs : list turn_input) (p : processor) : list response * ending :=
  match inputs with
  | [] => ([], Connected)
  | i :: inputs =>
      match turn i p with
      | (Ret (Some responses), p) =>
          let (written, e) := serviceIncomingChannel inputs p in (responses ++ written, e)
      | (Ret None, _) => ([], LostSharedState)
      | (Raise e, _) => ([], if is_malformed e then Disconnected else Failed)
      end
  end.
End processor.

(** ** Positions in a message *)

(** The reference: read character by character. *)
Definition advance (pos : Z * Z) (c : Z) : Z * Z :=
  if bool_decide (c = newline) then (pos.1 + 1, 1)%Z else (pos.1, pos.2 + 1)%Z.

Lemma lines_nonempty m : ∃ l ls, lines m = l :: ls.
Proof.
  destruct m as [|c m]; cbn; [eauto|]. case_bool_decide; [eauto|]. destruct (lines m); eauto.
Qed.

Lemma line_loop_from m : ∀ i c n k l ls,
  lines m = l :: ls → m !! i = Some c → c ≠ newline →
  (if bool_decide (Z.of_nat i < Z.of_nat (length l))%Z then Some (n, k + Z.of_nat i)%Z
   else line_loop ls (n + 1) (Z.of_nat i - (Z.of_nat (length l) + 1))) =
  Some (foldl advance (n, k) (take i m)).
Proof.
  induction m as [|d m IH]; intros i c n k l ls Hl Hi Hc; [done|]. cbn [lines] in Hl.
  destruct (lines_nonempty m) as (l' & ls' & Hl').
  destruct i as [|i]; cbn [lookup list_lookup] in Hi.
  - simplify_eq. rewrite bool_decide_eq_false_2, Hl' in Hl by done. simplify_eq.
    cbn. by rewrite Z.add_0_r.
  - change (m !! i = Some c) in Hi. cbn [take foldl]. unfold advance at 2. cbn [fst snd].
    case_bool_decide as Hd.
    + simplify_eq. rewrite bool_decide_eq_false_2 by (cbn; lia). rewrite Hl'. cbn [line_loop].
      rewrite <- (IH i c (n + 1)%Z 1%Z l' ls' Hl' Hi Hc). cbn [length].
      replace (Z.of_nat (S i) - (Z.of_nat 0 + 1))%Z with (Z.of_nat i) by lia.
      by rewrite (Z.add_comm 1).
    + rewrite Hl' in Hl. injection Hl as <- <-. rewrite <- (IH i c n (k + 1)%Z l' ls' Hl' Hi Hc).
      cbn [length]. do 2 case_bool_decide; try lia; [do 2 f_equal; lia|f_equal; lia].
Qed.

(** [calculateLineAndColumn] gives the line and the column, from 1, at which a
    reader of the text stands before the character at [index]: the search over the
    lengths of the lines agrees with reading character by character, for every
    position that is not a line's end. *)
Theorem calculateLineAndColumn_correct message index c :
  message !! index = Some c → c ≠ newline →
  calculateLineAndColumn message (Z.of_nat index) =
    Some (foldl advance (1, 1)%Z (take index message)).
Proof.
  intros Hi Hc. destruct (lines_nonempty message) as (l & ls & Hl).
  unfold calculateLineAndColumn. rewrite Hl. cbn [line_loop].
  rewrite <- (line_loop_from message index c 1 1 l ls Hl Hi Hc).
  case_bool_decide; [|done]. do 2 f_equal. lia.
Qed.

Lemma calculateLineAndColumn_correct_witness :
  calculateLineAndColumn [97; 10; 98; 233]%Z 3 = Some (2, 2)%Z.
Proof. apply (calculateLineAndColumn_correct [97; 10; 98; 233]%Z 3 233%Z); done. Defined.

(** ** Subscriptions report what changed *)

Section subscription_facts.
Context (now : pyval * string → reading).

(** The value of [k] is not what its getter gives now. *)
Definition stale (s : subscriptions) (k : key) : Prop :=
  ∃ getter v, subscriptionGetters s !! k = Some getter ∧
    subscriptionValues s !! k = Some v ∧ differs v (now getter) = true.

#[local] Instance stale_dec s k : Decision (stale s k).
Proof.
  unfold stale. destruct (subscriptionGetters s !! k) as [getter|]; [|right; by intros (?&?&?&_)].
  destruct (subscriptionValues s !! k) as [v|]; [|right; by intros (?&?&_&?&_)].
  destruct (differs v (now getter)) eqn:Hd; [left|right]; [by eauto 10|].
  intros (?&?&?&?&?). simplify_eq. congruence.
Defined.

(** After the controls of [done] were generated, from a state where every
    subscription has a value. *)
Record recomputed (s0 s : subscriptions) (ks : list key) : Prop := Recomputed {
  rec_getters : subscriptionGetters s = subscriptionGetters s0;
  rec_keys : subscriptionKeys s = subscriptionKeys s0;
  rec_changed : ∀ k, k ∈ changedSubscriptions s ↔
    k ∈ changedSubscriptions s0 ∨ (k ∈ ks ∧ stale s0 k);
  rec_values : ∀ k, subscriptionValues s !! k =
    (if decide (k ∈ ks ∧ stale s0 k) then now <$> subscriptionGetters s0 !! k
     else subscriptionValues s0 !! k) }.

Lemma recompute_one s0 s ks k :
  dom (subscriptionGetters s0) = dom (subscriptionValues s0) →
  recomputed s0 s ks → recomputed s0 (recomputeSubscription_ now k s) (ks ++ [k]).
Proof.
  intros Hdom [Hg Hk Hc Hv]. unfold recomputeSubscription_. rewrite Hg.
  assert (Hsame : ¬ stale s0 k ∨ k ∈ ks →
    ∀ k', (k' ∈ ks ++ [k] ∧ stale s0 k') ↔ (k' ∈ ks ∧ stale s0 k')).
  { intros H k'. rewrite elem_of_app, list_elem_of_singleton. split; [|naive_solver].
    intros [[?| ->] ?]; [done|]. destruct H; done. }
  destruct (subscriptionGetters s0 !! k) as [getter|] eqn:Hgk.
  - assert (is_Some (subscriptionValues s0 !! k)) as [v0 Hv0].
    { apply elem_of_dom. rewrite <- Hdom. apply elem_of_dom. eauto. }
    rewrite Hv. destruct (decide (k ∈ ks ∧ stale s0 k)) as [[Hin Hst]|Hn].
    + rewrite Hgk. cbn [fmap option_fmap option_map].
      assert (Hupd : <[k:=now getter]> (subscriptionValues s) = subscriptionValues s).
      { apply insert_id. by rewrite Hv, decide_True, Hgk. }
      assert (Hadd : {[k]} ∪ changedSubscriptions s = changedSubscriptions s).
      { apply subseteq_union_1_L. intros x ->%elem_of_singleton. apply Hc. by right. }
      rewrite Hupd, Hadd. specialize (Hsame (or_intror Hin)).
      destruct (differs (now getter) (now getter)); split; cbn [subscriptionGetters subscriptionKeys
        changedSubscriptions subscriptionValues]; try done; intros x; rewrite ?Hc, ?Hv.
      * by rewrite Hsame.
      * by rewrite (decide_ext _ _ _ _ (Hsame x)).
      * by rewrite Hsame.
      * by rewrite (decide_ext _ _ _ _ (Hsame x)).
    + rewrite Hv0. destruct (differs v0 (now getter)) eqn:Hd.
      * assert (Hst : stale s0 k) by (unfold stale; eauto 10).
        assert (Hin : ∀ x, x ∈ ks ++ [k] ∧ stale s0 x ↔ x = k ∨ (x ∈ ks ∧ stale s0 x)).
        { intros x. rewrite elem_of_app, list_elem_of_singleton. naive_solver. }
        split; cbn [subscriptionGetters subscriptionKeys changedSubscriptions
          subscriptionValues]; [done|done| |]; intros x.
        -- rewrite elem_of_union, elem_of_singleton, Hc, Hin. naive_solver.
        -- rewrite lookup_insert, Hv. destruct (decide (k = x)) as [<-|Hne].
           ++ rewrite decide_True by (apply Hin; by left). by rewrite Hgk.
           ++ apply decide_ext. rewrite Hin. naive_solver.
      * assert (Hst : ¬ stale s0 k) by (intros (?&?&?&?&?); simplify_eq; congruence).
        specialize (Hsame (or_introl Hst)).
        split; [done|done| |]; intros x; [by rewrite Hc, Hsame|].
        by rewrite Hv, (decide_ext _ _ _ _ (Hsame x)).
  - assert (Hst : ¬ stale s0 k) by (intros (?&?&?&_); congruence).
    specialize (Hsame (or_introl Hst)).
    split; [done|done| |]; intros x; [by rewrite Hc, Hsame|].
    by rewrite Hv, (decide_ext _ _ _ _ (Hsame x)).
Qed.

Lemma recompute_all_ok s0 ks :
  dom (subscriptionGetters s0) = dom (subscriptionValues s0) →
  recomputed s0 (recompute_all now ks s0) ks.
Proof.
  intros Hdom. unfold recompute_all.
  induction ks as [|k ks IH] using rev_ind.
  - split; [done|done| |]; intros x; cbn; [set_solver|]. rewrite decide_False; [done|].
    by intros [?%not_elem_of_nil _].
  - rewrite foldl_snoc. by apply recompute_one.
Qed.

End subscription_facts.
