(* ===== verification/GatewaySession.v ===== *)
(** * What a client of the gateway can rely on

    Theorems about [MessageProcessor]: the reports of changed subscriptions, the
    answers to messages, and the members that a message can reach. *)
From Stdlib Require Import Lia.
From stdpp Require Import base gmap sets list strings fin_maps sorting.
From S2P Require Import Prelude PyStrings ObjectCaches MessageProcessor.

Section session.
Context {App : Type}.
Context (classMap : string → option (pyval → res made)).
Context (class_member : pyclass → string → option member).
Context (read_member : App → pyval → string → res pyval).
Context (exception_identity : App → pyval → string → nat).
Context (assign_member : pyval → string → pyval → App → res unit * App).
Context (call_member : pyval → string → call_args → App → res pyval * App).
Context (call_with_callback :
  pyval → string → call_args → App → list (pyval + exn) * option exn * App).
Context (guid : string).

#[local] Abbreviation now := (MessageProcessor.now read_member exception_identity guid).
#[local] Abbreviation to_json := (MessageProcessor.to_json (App:=App) classMap).
#[local] Abbreviation encode_change := (MessageProcessor.encode_change (App:=App) classMap guid).
#[local] Abbreviation updateGraph :=
  (updateGraphAndReturnMessages classMap read_member exception_identity guid).

(** ** Reports of changes *)

(** The response that reports the reading [v] of subscription [k]; the conversion
    depends on the names given so far. *)
Definition reports (insts : list (string * pyval)) (k : key) (v : reading) (r : response) : Prop :=
  match v with
  | Failure _ message => r = ExceptionResponse (key_val k) message
  | Value v => ∃ c,
      r = match (Outgoing.convertResponseToJson (exposed classMap)
                   (λ n, snd <$> insts !! n) v c).1 with
          | Ret j => ValueChanged (key_val k) j
          | Raise _ => ExceptionResponse (key_val k)
                         ("Error converting result to json. guid = " ++ guid)
          end
  end.

(** The processor but for the names given to the client and the subscriptions. *)
Definition same_but_subs (p p' : processor) : Prop :=
  expectedMessageId p' = expectedMessageId p ∧ cache p' = cache p ∧
  pendingObjectQueue p' = pendingObjectQueue p ∧ app (App:=App) p' = app p.

Lemma to_json_ok v (p : processor) :
  ∃ r c, to_json v p = (r, Processor (expectedMessageId p) (cache p) c (subs p)
                             (pendingObjectQueue p) (app p)) ∧
    r = (Outgoing.convertResponseToJson (exposed classMap)
           (λ n, snd <$> instances (cache p) !! n) v (outgoingObjectCache p)).1.
Proof.
  unfold MessageProcessor.to_json, in_outgoing.
  destruct (Outgoing.convertResponseToJson _ _ v (outgoingObjectCache p)) as [r c]. eauto.
Qed.

Definition without (ks : list key) (s : subscriptions) : subscriptions :=
  Subscriptions (filter (λ x, x.1 ∉ ks) (subscriptionGetters s))
    (filter (λ x, x.1 ∉ ks) (subscriptionValues s)) (changedSubscriptions s) (subscriptionKeys s).

Lemma filter_notin_cons {A} k ks (m : gmap key A) :
  filter (λ x, x.1 ∉ ks) (delete k m) = filter (λ x, x.1 ∉ k :: ks) m.
Proof.
  apply map_eq. intros i. rewrite !map_lookup_filter, lookup_delete.
  destruct (decide (k = i)) as [->|Hne]; cbn.
  - destruct (m !! i); cbn; [|done]. rewrite option_guard_False; [done|].
    intros Hi. apply Hi. left.
  - destruct (m !! i); cbn; [|done]. apply option_guard_iff. rewrite not_elem_of_cons. naive_solver.
Qed.

Lemma filter_notin_nil {A} (m : gmap key A) : filter (λ x, x.1 ∉ []) m = m.
Proof. apply map_filter_id. intros. apply not_elem_of_nil. Qed.

Lemma encode_change_ok k (p : processor) getter v :
  subscriptionGetters (subs p) !! k = Some getter → subscriptionValues (subs p) !! k = Some v →
  ∃ r p', encode_change k p = (Ret r, p') ∧ reports (instances (cache p)) k v r ∧
    same_but_subs p p' ∧
    subs p' = Subscriptions (delete k (subscriptionGetters (subs p)))
      (delete k (subscriptionValues (subs p))) (changedSubscriptions (subs p))
      (subscriptionKeys (subs p)).
Proof.
  intros Hg Hv. set (s' := Subscriptions _ _ _ _).
  assert (Hdrop : in_subs (getValueAndDropSubscription k) p = (Ret v, set_subs s' p)).
  { unfold in_subs, getValueAndDropSubscription, subscription_value, mbind, M_bind. rewrite Hv.
    cbn. unfold removeSubscription. rewrite Hg. cbn. by rewrite Hv. }
  unfold MessageProcessor.encode_change. step Hdrop. destruct v as [v|i m].
  - destruct (to_json_ok v (set_subs s' p)) as (r & c & Hj & Hr).
    unfold catch, mbind, M_bind. rewrite Hj. cbn [cache set_subs outgoingObjectCache] in Hr.
    destruct r as [j|e]; eexists _, _; (split; [reflexivity|]); split_ands; try done;
      exists (outgoingObjectCache p); by rewrite <- Hr.
  - by eexists _, _.
Qed.

Lemma encode_changes_ok ks : ∀ p : processor,
  NoDup ks → (∀ k, k ∈ ks → is_Some (subscriptionGetters (subs p) !! k)) →
  dom (subscriptionGetters (subs p)) = dom (subscriptionValues (subs p)) →
  ∃ rs p', mapM encode_change ks p = (Ret rs, p') ∧
    Forall2 (λ k r, ∃ v, subscriptionValues (subs p) !! k = Some v ∧
      reports (instances (cache p)) k v r) ks rs ∧
    same_but_subs p p' ∧ subs p' = without ks (subs p).
Proof.
  induction ks as [|k ks IH]; intros p Hnd Hks Hdom.
  - exists [], p. split_ands; [done|constructor|done|]. unfold without.
    rewrite !filter_notin_nil. by destruct (subs p).
  - apply NoDup_cons in Hnd as [Hk Hnd]. destruct (Hks k) as [getter Hg]; [left|].
    assert (is_Some (subscriptionValues (subs p) !! k)) as [v Hv].
    { apply elem_of_dom. rewrite <- Hdom. apply elem_of_dom. eauto. }
    destruct (encode_change_ok k p getter v Hg Hv) as (r & p1 & H1 & Hr & Hsame & Hs).
    destruct (IH p1) as (rs & p2 & H2 & Hrs & Hsame2 & Hs2); [done| | |].
    { intros x Hx. rewrite Hs. cbn. rewrite lookup_delete_ne by (intros ->; done).
      apply Hks. by right. }
    { rewrite Hs. cbn. by rewrite !dom_delete_L, Hdom. }
    exists (r :: rs), p2. destruct Hsame as (He & Hc & Hp & Ha). split_ands.
    + rewrite mapM_cons. step H1. by step H2.
    + constructor; [eauto|]. rewrite Hc in Hrs.
      eapply Forall2_impl; [eapply (Forall2_same_length_lookup_2); [by eapply Forall2_length|]|].
      * intros i x y Hx Hy. exact (conj (list_elem_of_lookup_2 _ _ _ Hx)
          (Forall2_lookup_lr _ _ _ _ _ _ Hrs Hx Hy)).
      * cbn. intros x y (Hx & w & Hw & Hrep). exists w. split; [|done].
        rewrite Hs in Hw. cbn in Hw. by apply lookup_delete_Some in Hw as [_ ?].
    + destruct Hsame2 as (?&?&?&?). repeat split; congruence.
    + rewrite Hs2, Hs. unfold without. cbn. by rewrite !filter_notin_cons.
Qed.

(** Between two messages every subscription has a value, and no change is waiting
    to be reported. *)
Definition settled (s : subscriptions) : Prop :=
  dom (subscriptionGetters s) = dom (subscriptionValues s) ∧ changedSubscriptions s = ∅.

(** C31. An update reports exactly the changes: after an update of the graph in
    which at least the controls of the subscriptions whose value is out of date are
    generated, the responses name, in increasing order and once each, exactly the
    subscriptions whose getter now gives something other than what was sent, each
    with its new value or with the message of its exception; these subscriptions
    are dropped, all others and their values stay, nothing raises, and the session
    is settled again. *)
Theorem update_reports_changes (u : update) p :
  settled (subs p) → failure u = None →
  let a := changes u (app p) in
  (∀ k, stale (now a) (subs p) k → k ∈ regenerated u) →
  ∃ ks rs p', updateGraph u p = (Ret rs, p') ∧
    NoDup ks ∧ StronglySorted key_le ks ∧ (∀ k, k ∈ ks ↔ stale (now a) (subs p) k) ∧
    Forall2 (λ k r, ∃ getter, subscriptionGetters (subs p) !! k = Some getter ∧
      reports (instances (cache p)) k (now a getter) r) ks rs ∧
    (∀ k, subscriptionGetters (subs p') !! k =
       (if decide (k ∈ ks) then None else subscriptionGetters (subs p) !! k)) ∧
    (∀ k, subscriptionValues (subs p') !! k =
       (if decide (k ∈ ks) then None else subscriptionValues (subs p) !! k)) ∧
    settled (subs p') ∧ same_but_subs (set_app a p) p'.
Proof.
  intros [Hdom Hch] Hf a Hstale.
  destruct (recompute_all_ok (now a) (subs p) (regenerated u) Hdom) as [Hg Hk Hc Hv].
  set (s1 := recompute_all (now a) (regenerated u) (subs p)) in *.
  assert (Hst : ∀ k, k ∈ changedSubscriptions s1 ↔ stale (now a) (subs p) k).
  { intros k. rewrite Hc, Hch. split; [intros [?%not_elem_of_empty|[_ ?]]; done|]. auto. }
  set (ks := merge_sort key_le (elements (changedSubscriptions s1))).
  assert (Hin : ∀ k, k ∈ ks ↔ stale (now a) (subs p) k).
  { intros k. unfold ks. by rewrite merge_sort_Permutation, elem_of_elements. }
  set (s2 := Subscriptions (subscriptionGetters s1) (subscriptionValues s1) ∅ (subscriptionKeys s1)).
  assert (Hdom2 : dom (subscriptionGetters s2) = dom (subscriptionValues s2)).
  { cbn. rewrite Hg, Hdom. apply set_eq. intros k. rewrite !elem_of_dom, Hv. case_decide as Hd; [|done].
    destruct Hd as [_ (getter & v & Hgk & Hvk & _)]. rewrite Hgk, Hvk. split; eauto. }
  assert (Hup : updateAndReturnChangedSubscriptionIds read_member exception_identity guid u p =
    (Ret ks, set_subs s2 (set_app a p))).
  { unfold updateAndReturnChangedSubscriptionIds, updateComputedGraph_, mbind, M_bind, modify.
    by rewrite Hf. }
  destruct (encode_changes_ok ks (set_subs s2 (set_app a p))) as (rs & p' & Hr & Hrs & Hsame & Hs).
  { unfold ks. rewrite merge_sort_Permutation. apply NoDup_elements. }
  { intros k Hkk. apply Hin in Hkk as (getter & v & Hgk & _). cbn. rewrite Hg. eauto. }
  { exact Hdom2. }
  exists ks, rs, p'. split_ands.
  - unfold updateGraphAndReturnMessages. by step Hup.
  - unfold ks. rewrite merge_sort_Permutation. apply NoDup_elements.
  - apply (StronglySorted_merge_sort key_le).
  - exact Hin.
  - apply Forall2_same_length_lookup_2; [by eapply Forall2_length|]. intros i k r Hki Hri.
    destruct (Forall2_lookup_lr _ _ _ _ _ _ Hrs Hki Hri) as (v & Hvk & Hrep).
    pose proof (proj1 (Hin k) (list_elem_of_lookup_2 _ _ _ Hki)) as Hsk.
    cbn in Hvk. rewrite Hv, decide_True in Hvk by auto.
    apply fmap_Some in Hvk as (getter & Hgk & ->). exists getter. done.
  - intros k. rewrite Hs. cbn. rewrite Hg, map_lookup_filter.
    destruct (decide (k ∈ ks)), (subscriptionGetters (subs p) !! k); cbn; try done.
    + by rewrite option_guard_False by auto.
    + by rewrite option_guard_True.
  - intros k. rewrite Hs. cbn. rewrite map_lookup_filter, Hv.
    destruct (decide (k ∈ ks)) as [Hk'|Hk'].
    + destruct (if decide _ then _ else _); cbn; [|done]. by rewrite option_guard_False by auto.
    + rewrite decide_False by (intros [_ ?]; by apply Hk', Hin).
      destruct (subscriptionValues (subs p) !! k); cbn; [|done]. by rewrite option_guard_True.
  - rewrite Hs. unfold settled. cbn. split; [|done]. apply set_eq. intros k.
    rewrite !elem_of_dom, !map_lookup_filter.
    assert (is_Some (subscriptionGetters s1 !! k) ↔ is_Some (subscriptionValues s1 !! k)) as Hk'.
    { by rewrite <- !elem_of_dom, (Hdom2 : dom (subscriptionGetters s1) = dom (subscriptionValues s1)). }
    destruct (decide (k ∉ ks)).
    + destruct (subscriptionGetters s1 !! k), (subscriptionValues s1 !! k); cbn;
        rewrite ?option_guard_True by done; naive_solver.
    + destruct (subscriptionGetters s1 !! k), (subscriptionValues s1 !! k); cbn;
        rewrite ?option_guard_False by done; naive_solver.
  - exact Hsame.
Qed.

(** ** Answers to messages *)

#[local] Abbreviation handle :=
  (MessageProcessor.handle classMap class_member read_member exception_identity assign_member
     call_member call_with_callback guid).
#[local] Abbreviation handleJsonMessage :=
  (MessageProcessor.handleJsonMessage classMap class_member read_member exception_identity
     assign_member call_member call_with_callback guid).
#[local] Abbreviation or_exception := (MessageProcessor.or_exception (App:=App) guid).

Definition response_id (r : response) : option pyval :=
  match r with
  | OK i | ReadResponse i _ | SubscribeResponse i _ | ValueChanged i _ | ExecutionResult i _
  | ExceptionResponse i _ | UnicodeResponse i _ _ _ => Some i
  | ClientFlushObjectIdsBelow _ => None
  end.

(** The message is the next one of its session. *)
Definition accepted (p : processor) (json id : pyval) : Prop :=
  (∃ d, json = PDict d) ∧ getitem "messageId" json = Ret id ∧
  py_eq id (PInt (expectedMessageId (App:=App) p)) = true.

(** The expected id and the queue of late answers. *)
Definition counters (n : Z) (l : list pending) (p : processor) : Prop :=
  expectedMessageId p = n ∧ pendingObjectQueue (App:=App) p = l.

Lemma counters_in_cache {A} n l (m : M objects A) : keeps (counters n l) (in_cache m).
Proof. intros p Hp. unfold in_cache. by destruct (m (cache p)). Qed.
Lemma counters_in_outgoing {A} n l (m : M Outgoing.cache A) : keeps (counters n l) (in_outgoing m).
Proof. intros p Hp. unfold in_outgoing. by destruct (m (outgoingObjectCache p)). Qed.
Lemma counters_in_subs {A} n l (m : M subscriptions A) : keeps (counters n l) (in_subs m).
Proof. intros p Hp. unfold in_subs. by destruct (m (subs p)). Qed.
Lemma counters_in_app {A} n l (f : App → res A * App) : keeps (counters n l) (in_app f).
Proof. intros p Hp. unfold in_app. by destruct (f (app p)). Qed.
Lemma counters_to_json n l v : keeps (counters n l) (to_json v).
Proof. intros p Hp. apply (counters_in_outgoing n l _ p Hp). Qed.
Lemma counters_read n l o f : keeps (counters n l) (read (App:=App) read_member o f).
Proof. intros p Hp. done. Qed.
Lemma counters_member n l o f : keeps (counters n l) (object_member (App:=App) class_member o f).
Proof. intros p Hp. done. Qed.
Lemma counters_set_app n l f : keeps (counters n l) (modify (λ p, set_app (f p) p)).
Proof. apply keeps_modify. done. Qed.
Lemma counters_set_subs n l f : keeps (counters n l) (modify (λ p, set_subs (f p) p)).
Proof. apply keeps_modify. done. Qed.

#[local] Hint Resolve counters_in_cache counters_in_outgoing counters_in_subs counters_in_app
  counters_to_json counters_read counters_member counters_set_app counters_set_subs : keeps_db.

Ltac keeps_tac := repeat first
  [ solve [auto with keeps_db] | apply keeps_bind | apply keeps_catch
  | match goal with
    | |- ∀ _, keeps _ _ => intros ?
    | |- keeps _ (match ?x with _ => _ end) => destruct x
    | |- keeps _ (if ?x then _ else _) => destruct x
    end ].

Lemma counters_or_exception n l json m :
  keeps (counters n l) m → keeps (counters n l) (or_exception json m).
Proof. intros Hm. unfold or_exception, MessageProcessor.or_exception, unexpectedExceptionJson. keeps_tac. Qed.
#[local] Hint Resolve counters_or_exception : keeps_db.

Lemma counters_encode_changes n l ks :
  keeps (counters n l) (encodeSubscriptionChangesAsJsonAndDrop (App:=App) classMap guid ks).
Proof.
  unfold encodeSubscriptionChangesAsJsonAndDrop, MessageProcessor.encode_change. apply keeps_mapM.
  intros k _. keeps_tac.
Qed.
#[local] Hint Resolve counters_encode_changes : keeps_db.

Lemma counters_read_message n l json obj :
  keeps (counters n l) (handleReadMessage classMap class_member read_member guid json obj).
Proof. unfold handleReadMessage, getFieldExtractorForReadMessage. keeps_tac. Qed.

Lemma counters_subscribe_message n l u json obj :
  keeps (counters n l) (handleSubscribeMessage classMap class_member read_member
    exception_identity guid u json obj).
Proof.
  unfold handleSubscribeMessage, getFieldExtractorForReadMessage, addSubscription,
    updateAndReturnChangedSubscriptionIds, updateComputedGraph_. keeps_tac.
Qed.

Lemma counters_assign_message n l json obj :
  keeps (counters n l) (handleAssignMessage class_member assign_member guid json obj).
Proof. unfold handleAssignMessage. keeps_tac. Qed.

Lemma counters_flush_message n l json :
  keeps (counters n l) (handleFlushObjectIds (App:=App) json).
Proof. unfold handleFlushObjectIds. keeps_tac. Qed.

(** *** Execute *)

(** The queue of late answers grew by answers to message [id]. *)
Definition queued (id : pyval) (p p' : processor) (late : list pending) : Prop :=
  expectedMessageId (App:=App) p' = expectedMessageId (App:=App) p ∧
  pendingObjectQueue p' = pendingObjectQueue p ++ late ∧ Forall (λ x, pending_id x = id) late.

Lemma queued_counters id p p1 p' late :
  counters (expectedMessageId p) (pendingObjectQueue p) p1 → queued id p1 p' late →
  queued id p p' late.
Proof. intros [He Hq] (He' & Hq' & Hf). unfold queued. split_ands; [congruence|by rewrite Hq', Hq|done]. Qed.

(** The answer that waits for what a function hands to its callback. *)
Definition waiting (id : pyval) (result : pyval + exn) : pending :=
  match result with inl v => PendingResult id v | inr e => PendingException id e end.

Lemma callback_queued id v p :
  ∃ p', callback (App:=App) id v p = (Ret tt, p') ∧ queued id p p' [waiting id v] ∧ app p' = app p.
Proof. destruct v; eexists _; (split; [reflexivity|]); repeat split; by constructor. Qed.

Lemma callbacks_queued id vs : ∀ p,
  ∃ p', forM_ (callback (App:=App) id) vs p = (Ret tt, p') ∧ queued id p p' (waiting id <$> vs) ∧
    app p' = app p.
Proof.
  induction vs as [|v vs IH]; intros p.
  - exists p. repeat split; [by rewrite app_nil_r|constructor].
  - destruct (callback_queued id v p) as (p1 & H1 & (He1 & Hq1 & Hf1) & Ha1).
    destruct (IH p1) as (p2 & H2 & (He2 & Hq2 & Hf2) & Ha2). exists p2. split; [rewrite forM__cons; by step H1|].
    repeat split; [congruence|by rewrite Hq2, Hq1, <- app_assoc| |congruence].
    cbn. apply Forall_cons. split; [by inversion Hf1|done].
Qed.

(** The answers of a function that takes a callback: as many as it hands over, in that
    order, and [n] more, which is one for an exception that it raises after them. *)
Definition hands_over (id obj : pyval) (field : string) (p p' : processor) (n : nat)
    (late : list pending) : Prop :=
  ∃ args results e, call_with_callback obj field args (app p) = (results, e, app (App:=App) p') ∧
    late = waiting id <$> results ∧ n = match e with Some _ => 1 | None => 0 end.

Lemma call_queued c id obj args p :
  ∃ r p' late, call (App:=App) call_member call_with_callback c id obj args p = (r, p') ∧
    queued id p p' late ∧
    match r with
    | Ret _ => length late = 1 ∨ wantsCallback c = true ∧ hands_over id obj (called c) p p' 0 late
    | Raise _ => late = [] ∨ wantsCallback c = true ∧ hands_over id obj (called c) p p' 1 late
    end.
Proof.
  unfold call. destruct (wantsCallback c) eqn:Hwants.
  - destruct (passed c args) as [a|e].
    2: { exists (Raise e), p, []. split; [done|]. split; [|by left].
         repeat split; [by rewrite app_nil_r|constructor]. }
    erewrite (bind_step (lift _)) by reflexivity.
    destruct (call_with_callback obj (called c) a (app p)) as [[rs e] app'] eqn:Hcall.
    erewrite (bind_step (in_app _)); [|unfold in_app; rewrite Hcall; reflexivity]. cbn [fst snd].
    destruct (callbacks_queued id rs (set_app app' p)) as (p' & Hr & Hq & Happ). step Hr.
    destruct e as [e|]; eexists _, p', _; (split; [reflexivity|]); (split; [by eapply queued_counters|]);
      right; (split; [done|]); exists a, rs; eexists; (split; [rewrite Happ; exact Hcall|done]).
  - match goal with |- ∃ _ _ _, mbind _ ?m p = _ ∧ _ =>
      assert (∃ v p1, m p = (Ret v, p1) ∧ counters (expectedMessageId p) (pendingObjectQueue p) p1)
        as (v & p1 & Hm & Hc) end.
    { unfold catch, mbind, M_bind, lift. destruct (passed c args) as [a|e]; [|by eexists _, p].
      unfold in_app. destruct (call_member obj (called c) a (app p)) as [[v|e] app'];
        by eexists _, (set_app app' p). }
    step Hm. destruct (callback_queued id v p1) as (p2 & H2 & Hq & _). rewrite H2.
    exists (Ret tt), p2, [waiting id v]. split_ands; [done| |by left]. by eapply queued_counters.
Qed.

(** The message calls a function that answers through a callback, with these answers. *)
Definition calls_back (json id : pyval) (p p' : processor) (n : nat) (late : list pending) : Prop :=
  ∃ cls obj field m, message_field json = Ret field ∧ class_member cls field = Some m ∧
    isFunctionToExpose m = true ∧ functionExpectsCallback m = true ∧ hands_over id obj field p p' n late.

Lemma function_keeps n l json obj :
  keeps (counters n l) (getFunctionForExecuteMessage (App:=App) class_member json obj).
Proof. unfold getFunctionForExecuteMessage. keeps_tac. Qed.

Lemma nothing_queued id p p' :
  counters (expectedMessageId p) (pendingObjectQueue p) p' → queued id p p' [].
Proof. intros [He Hq]. unfold queued. by rewrite app_nil_r. Qed.

Lemma execute_try_queued c json obj id p :
  getitem "messageId" json = Ret id →
  ∃ r p' late,
    (args ← lift (getitem "args" json);
     objectArgs ← in_cache (convertObjectArgs classMap args);
     i ← lift (getitem "messageId" json);
     call call_member call_with_callback c i obj objectArgs ;;
     mret ([] : list response)) p = (r, p') ∧ queued id p p' late ∧
    match r with
    | Ret rs => rs = [] ∧ (length late = 1 ∨ wantsCallback c = true ∧ hands_over id obj (called c) p p' 0 late)
    | Raise _ => late = [] ∨ wantsCallback c = true ∧ hands_over id obj (called c) p p' 1 late
    end.
Proof.
  intros Hid. destruct (getitem "args" json) as [args|e].
  2: { exists (Raise e), p, []. split_ands; [done|by apply nothing_queued|by left]. }
  erewrite (bind_step (lift _)) by reflexivity.
  pose proof (counters_in_cache _ _ (convertObjectArgs classMap args) p (conj eq_refl eq_refl)) as Hk.
  destruct (in_cache (convertObjectArgs classMap args) p) as [[a|e] p1] eqn:Ha; cbn in Hk.
  2: { exists (Raise e), p1, []. split_ands; [|by apply nothing_queued|by left].
       unfold mbind, M_bind. by rewrite Ha. }
  assert (Happ : app p1 = app p).
  { unfold in_cache in Ha. destruct (convertObjectArgs classMap args (cache p)). by injection Ha as _ <-. }
  step Ha. rewrite Hid. erewrite (bind_step (lift _)) by reflexivity.
  destruct (call_queued c id obj a p1) as (r & p2 & late & Hr & Hq & Hw). unfold hands_over in Hw.
  rewrite Happ in Hw. pose proof (queued_counters _ _ _ _ _ Hk Hq) as Hq'.
  destruct r as [[]|e].
  - exists (Ret []), p2, late. split_ands; [by step Hr|done|done|done].
  - exists (Raise e), p2, late. split_ands; [unfold mbind, M_bind; by rewrite Hr|done|done].
Qed.

Lemma execute_queued json obj id p :
  getitem "messageId" json = Ret id →
  ∃ r p' late, handleExecuteMessage classMap class_member call_member call_with_callback guid json
      obj p = (r, p') ∧ queued id p p' late ∧
    match r with
    | Ret rs => Forall (λ r, response_id r = Some id) rs ∧ length rs ≤ 1 ∧
        (length rs + length late = 1 ∨ calls_back json id p p' (length rs) late)
    | Raise _ => late = []
    end.
Proof.
  intros Hid. unfold handleExecuteMessage.
  pose proof (function_keeps _ _ json obj p (conj eq_refl eq_refl)) as Hk.
  destruct (getFunctionForExecuteMessage class_member json obj p) as [[c|e] p1] eqn:Hc; cbn in Hk.
  2: { exists (Raise e), p1, []. split_ands; [|by apply nothing_queued|done].
       unfold mbind, M_bind. by rewrite Hc. }
  step Hc. assert (Hwants : p1 = p ∧ ∀ p' n late, wantsCallback c = true ∧ hands_over id obj (called c) p p' n late →
    calls_back json id p p' n late).
  { unfold getFunctionForExecuteMessage in Hc. inv_bind. unfold lift, object_member in *. simplify_eq.
    destruct (class_member (getObjectClass st0 obj) v) as [m|] eqn:Hm; simplify_eq.
    cbn in *. destruct (isFunctionToExpose v0) eqn:Hx; [|discriminate].
    unfold mret, M_ret in Hk1. simplify_eq. split; [done|]. cbn. intros p' n late [Hw Hh]. by eexists _, obj, _, _. }
  destruct Hwants as [-> Hwants].
  destruct (execute_try_queued c json obj id p Hid) as (r & p2 & late & Hr & Hq & Hcase).
  unfold MessageProcessor.or_exception, catch. rewrite Hr. destruct r as [rs|e].
  - destruct Hcase as [-> Hl]. eexists _, p2, late. split; [done|]. split; [done|].
    split_ands; [constructor|cbn; lia|]. destruct Hl; [by left|right; auto].
  - eexists _, p2, late. split; [unfold unexpectedExceptionJson; by rewrite Hid|].
    split; [done|]. cbn. split_ands; [by repeat constructor|lia|].
    destruct Hcase as [->|]; [by left|right; auto].
Qed.

(** *** The other handlers *)

Lemma or_exception_single json id m p rs p' :
  getitem "messageId" json = Ret id →
  (∀ rs p1, m p = (Ret rs, p1) → ∃ r, rs = [r] ∧ response_id r = Some id) →
  or_exception json m p = (Ret rs, p') → ∃ r, rs = [r] ∧ response_id r = Some id.
Proof.
  intros Hid Hm. unfold MessageProcessor.or_exception, catch.
  destruct (m p) as [[rs1|e] p1] eqn:Hr; intros H; [simplify_eq; by eapply Hm|].
  unfold unexpectedExceptionJson in H. rewrite Hid in H. inv_bind. by eexists.
Qed.

Lemma read_single json obj id p rs p' :
  getitem "messageId" json = Ret id →
  handleReadMessage classMap class_member read_member guid json obj p = (Ret rs, p') →
  ∃ r, rs = [r] ∧ response_id r = Some id.
Proof.
  intros Hid H. unfold handleReadMessage in H. inv_bind. revert Hk. apply or_exception_single; [done|].
  intros rs1 p1 Hr1. rewrite Hid in Hr1. inv_bind. by eexists.
Qed.

Lemma assign_single json obj id p o p' :
  getitem "messageId" json = Ret id →
  handleAssignMessage class_member assign_member guid json obj p = (Ret (Some o), p') →
  ∃ r, o = [r] ∧ response_id r = Some id.
Proof.
  intros Hid H. unfold handleAssignMessage in H. inv_bind.
  destruct (isPropertyToExpose _); cbn [negb] in *; try discriminate.
  destruct (propertyHasSetter _); cbn [negb] in *; inv_bind; try discriminate.
  match goal with H : MessageProcessor.or_exception _ _ _ _ = _ |- _ => revert H end.
  apply or_exception_single; [done|]. intros rs1 p1 Hr1. rewrite Hid in Hr1. inv_bind. by eexists.
Qed.

Lemma flush_single json id p rs p' :
  getitem "messageId" json = Ret id →
  handleFlushObjectIds (App:=App) json p = (Ret rs, p') → ∃ r, rs = [r] ∧ response_id r = Some id.
Proof.
  intros Hid H. unfold handleFlushObjectIds in H. rewrite Hid in H. inv_bind. by eexists.
Qed.

Lemma subscribe_first u json obj id p rs p' :
  getitem "messageId" json = Ret id →
  handleSubscribeMessage classMap class_member read_member exception_identity guid u json obj p =
    (Ret rs, p') → ∃ r rest, rs = r :: rest ∧ response_id r = Some id.
Proof.
  intros Hid H. unfold handleSubscribeMessage in H. rewrite Hid in H. inv_bind.
  eexists _, _. split; [done|]. match goal with
    H : (match ?x.1 with Value _ => _ | Failure _ _ => _ end) _ = _ |- _ =>
      destruct x as [[?|? ?] ?] end; cbn in *; inv_bind; done.
Qed.

(** What the responses to message [id] are: at most one of its own, followed by
    reports of changes only when it subscribes; when there is none, its one answer
    waits in the queue, except that a function with a callback has as many answers as
    it hands over. *)
Definition answered (t : string) (json id : pyval) (p p' : processor) (rs : list response)
    (late : list pending) : Prop :=
  ∃ own rest, rs = own ++ rest ∧ Forall (λ r, response_id r = Some id) own ∧ length own ≤ 1 ∧
    (rest = [] ∨ t = "Subscribe") ∧
    (length own + length late = 1 ∨ t = "Execute" ∧ calls_back json id p p' (length own) late).

(** The message assigns to a member that is exposed and has no setter. *)
Definition assigns_read_only (json obj : pyval) (p : processor) : Prop :=
  ∃ field m, message_field json = Ret field ∧ class_member (getObjectClass (App:=App) p obj) field = Some m ∧
    isPropertyToExpose m = true ∧ propertyHasSetter m = false.

Lemma assign_nothing json obj p p' :
  handleAssignMessage class_member assign_member guid json obj p = (Ret None, p') →
  assigns_read_only json obj p ∧ p' = p.
Proof.
  intros H. unfold handleAssignMessage in H. inv_bind. unfold lift, object_member in *. simplify_eq.
  destruct (class_member (getObjectClass st4 obj) v3) as [m|] eqn:Hm; [|done].
  match goal with H : of_option _ _ = Ret _ |- _ => injection H as <- end.
  destruct (isPropertyToExpose m) eqn:Hexposed; cbn [negb] in *; try discriminate.
  destruct (propertyHasSetter m) eqn:Hsetter; cbn [negb] in *; inv_bind; [].
  split; [by eexists _, _|done].
Qed.

Lemma answered_single t json id p p' r :
  response_id r = Some id → answered t json id p p' [r] [].
Proof.
  intros Hr. exists [r], []. split_ands; [done|by repeat constructor|cbn; lia|by left|by left].
Qed.

Lemma handle_answers u t json obj id p :
  getitem "messageId" json = Ret id → t ∈ messageTypes →
  ∃ r p' late, handle u t json obj p = (r, p') ∧ queued id p p' late ∧
    match r with
    | Raise _ => late = []
    | Ret None => t = "Assign" ∧ assigns_read_only json obj p ∧ late = []
    | Ret (Some rs) => answered t json id p p' rs late
    end.
Proof.
  intros Hid Ht. unfold MessageProcessor.handle.
  pose (n := expectedMessageId p). pose (l := pendingObjectQueue p).
  assert (Hp : counters n l p) by done.
  destruct (String.eqb_spec t "Read") as [->|H1].
  { pose proof (counters_read_message n l json obj p Hp) as Hk.
    destruct (handleReadMessage _ _ _ _ json obj p) as [[rs|e] p'] eqn:Hr; cbn in Hk.
    - step Hr. eexists _, p', []. split; [done|]. split; [by apply nothing_queued|]. cbn.
      destruct (read_single _ _ _ _ _ _ Hid Hr) as (r & -> & ?). by apply answered_single.
    - eexists _, p', []. split; [unfold mbind, M_bind; by rewrite Hr|]. split; [|done].
      by apply nothing_queued. }
  destruct (String.eqb_spec t "Assign") as [->|H2].
  { pose proof (counters_assign_message n l json obj p Hp) as Hk.
    destruct (handleAssignMessage _ _ _ json obj p) as [[[rs|]|e] p'] eqn:Hr; cbn in Hk;
      eexists _, p', []; (split; [done|]); (split; [by apply nothing_queued|]); try done.
    2: { by destruct (assign_nothing _ _ _ _ Hr). }
    destruct (assign_single _ _ _ _ _ _ Hid Hr) as (r & -> & ?). by apply answered_single. }
  destruct (String.eqb_spec t "Subscribe") as [->|H3].
  { pose proof (counters_subscribe_message n l u json obj p Hp) as Hk.
    destruct (handleSubscribeMessage _ _ _ _ _ u json obj p) as [[rs|e] p'] eqn:Hr; cbn in Hk.
    - step Hr. eexists _, p', []. split; [done|]. split; [by apply nothing_queued|]. cbn.
      destruct (subscribe_first _ _ _ _ _ _ _ Hid Hr) as (r & rest & -> & ?). exists [r], rest.
      split_ands; [done|by repeat constructor|cbn; lia|by right|by left].
    - eexists _, p', []. split; [unfold mbind, M_bind; by rewrite Hr|]. split; [|done].
      by apply nothing_queued. }
  destruct (String.eqb_spec t "Execute") as [->|H4].
  { destruct (execute_queued json obj id p Hid) as (r & p' & late & Hr & Hq & Hcase).
    destruct r as [rs|e]; eexists _, p', late; (split; [unfold mbind, M_bind; by rewrite Hr|]);
      (split; [done|]); [|done].
    destruct Hcase as (Hf & Hl & Hone). exists rs, []. rewrite app_nil_r.
    split_ands; [done|done|done|by left|]. destruct Hone; [by left|by right]. }
  pose proof (counters_flush_message n l json p Hp) as Hk.
  destruct (handleFlushObjectIds json p) as [[rs|e] p'] eqn:Hr; cbn in Hk.
  - step Hr. eexists _, p', []. split; [done|]. split; [by apply nothing_queued|]. cbn.
    destruct (flush_single _ _ _ _ _ Hid Hr) as (r & -> & ?). by apply answered_single.
  - eexists _, p', []. split; [unfold mbind, M_bind; by rewrite Hr|]. split; [|done].
    by apply nothing_queued.
Qed.

#[local] Abbreviation dispatch :=
  (MessageProcessor.dispatch classMap class_member read_member exception_identity assign_member
     call_member call_with_callback guid).

(** The processor when the message is dispatched. *)
Definition counted (p : processor) : processor :=
  set_expected (expectedMessageId (App:=App) p + 1) p.

(** The object that a message is about. *)
Definition find_object (t : string) (json : pyval) : M processor pyval :=
  if String.eqb t "ServerFlushObjectIdsBelow" then mret PNone
  else d ← lift (getitem "objectDefinition" json);
       in_cache (App:=App) (extractObjectDefinition classMap d).

(** A message with a type and an object definition is handled with its object;
    any other is refused before the state changes. *)
Lemma dispatch_cases u json p :
  (∃ e, dispatch u json p = (Raise e, counted p)) ∨
  (∃ t, t ∈ messageTypes ∧ getitem "messageType" json = Ret (PStr t) ∧
    dispatch u json p = (obj ← find_object t json; handle u t json obj) (counted p)).
Proof.
  unfold MessageProcessor.dispatch. erewrite (bind_step (modify _)) by reflexivity.
  fold (counted p).
  destruct (getitem "messageType" json) as [v|e]; [|left; by eexists].
  erewrite (bind_step (lift _)) by reflexivity.
  destruct v as [|b|z|t|l|d|cls args|n|n]; try (left; by eexists).
  erewrite (bind_step (lift _)) by reflexivity.
  destruct (decide (t ∈ messageTypes)) as [Ht|Ht].
  2: { left. rewrite bool_decide_eq_false_2 by done. by eexists. }
  rewrite bool_decide_eq_true_2 by done. erewrite (bind_step (lift _)) by reflexivity.
  destruct (py_in "objectDefinition" json) as [[|]|e]; [|left; by eexists|left; by eexists].
  do 2 erewrite (bind_step (lift _)) by reflexivity. right. exists t. done.
Qed.

Lemma dispatch_found u json p t :
  getitem "messageType" json = Ret (PStr t) → t ∈ messageTypes →
  py_in "objectDefinition" json = Ret true →
  dispatch u json p = (obj ← find_object t json; handle u t json obj) (counted p).
Proof.
  intros Hty Ht Hdef. unfold MessageProcessor.dispatch.
  erewrite (bind_step (modify _)) by reflexivity. fold (counted p). rewrite Hty, Hdef.
  do 2 erewrite (bind_step (lift _)) by reflexivity. cbv iota beta.
  rewrite bool_decide_eq_true_2 by done. by do 3 erewrite (bind_step (lift _)) by reflexivity.
Qed.

Lemma find_object_same t json p : ∃ r p', find_object t json p = (r, p') ∧
  app p' = app p ∧ subs p' = subs p ∧ pendingObjectQueue p' = pendingObjectQueue p.
Proof.
  unfold find_object. destruct (String.eqb t _); [by eexists _, p|].
  destruct (getitem "objectDefinition" json) as [d|e]; [|by eexists _, p].
  erewrite (bind_step (lift _)) by reflexivity. unfold in_cache.
  destruct (extractObjectDefinition classMap d (cache p)) as [r c]. by eexists _, _.
Qed.

(** The message is an assignment to a member of its object that has no setter. *)
Definition unassigned (json : pyval) (p : processor) : Prop :=
  getitem "messageType" json = Ret (PStr "Assign") ∧
  ∃ obj, (find_object "Assign" json (counted p)).1 = Ret obj ∧
    assigns_read_only json obj (find_object "Assign" json (counted p)).2.

Lemma dispatch_answers u json id p :
  getitem "messageId" json = Ret id →
  ∃ r p' late, dispatch u json p = (r, p') ∧ queued id (counted p) p' late ∧
    match r with
    | Raise _ => late = []
    | Ret None => unassigned json p ∧ late = []
    | Ret (Some rs) => ∃ t, getitem "messageType" json = Ret (PStr t) ∧ answered t json id p p' rs late
    end.
Proof.
  intros Hid. destruct (dispatch_cases u json p) as [[e He]|(t & Ht & Hty & Heq)].
  { eexists _, _, []. split; [done|]. split; [|done]. by apply nothing_queued. }
  rewrite Heq.
  assert (Hk : keeps (counters (expectedMessageId (counted p)) (pendingObjectQueue p))
    (find_object t json)) by (unfold find_object; keeps_tac).
  specialize (Hk (counted p) (conj eq_refl eq_refl)).
  destruct (find_object t json (counted p)) as [[obj|e] p1] eqn:Hobj; cbn in Hk.
  2: { eexists _, p1, []. split; [unfold mbind, M_bind; by rewrite Hobj|]. split; [|done].
       by apply nothing_queued. }
  step Hobj. destruct (handle_answers u t json obj id p1 Hid Ht) as (r & p' & late & Hr & Hq & Hc).
  exists r, p', late. split; [done|]. split; [by eapply queued_counters|].
  destruct r as [[rs|]|e]; [| |done].
  - exists t. split; [done|]. destruct (find_object_same t json (counted p)) as (r' & p1' & Hobj' & Happ & _).
    rewrite Hobj in Hobj'. injection Hobj' as <- <-. unfold answered, calls_back, hands_over in *.
    rewrite Happ in Hc. exact Hc.
  - destruct Hc as (-> & Hread & ->). split; [|done]. split; [done|]. exists obj. by rewrite Hobj.
Qed.

(** C30. How every message of a session is answered. A value that is not a
    message with the next id is refused as malformed and changes nothing. A
    message with the next id advances the expected id by one, whatever happens,
    and then: only the two kinds of malformed message raise; otherwise there is one
    answer with the message's id, either at once (followed by reports of other
    changes for a subscription) or later through the queue (for a call), in all but
    two cases. A call of a function that takes a callback is answered with what the
    function hands to its callback while it runs, each once and in that order, be it
    nothing, and an exception if it raises after that; what it hands over later, from
    other threads, comes with later messages. An assignment to a member that is exposed and has
    no setter hands back no list of answers at all, which ends the connection (see
    [assign_without_setter_ends_connection]); no other message does. *)
Theorem messages_are_answered u json p :
  ((∀ id, ¬ accepted p json id) → handleJsonMessage u json p = (Raise MalformedMessage, p)) ∧
  (∀ id, accepted p json id →
    ∃ r p' late, handleJsonMessage u json p = (r, p') ∧
      expectedMessageId p' = (expectedMessageId p + 1)%Z ∧
      pendingObjectQueue p' = pendingObjectQueue p ++ late ∧
      Forall (λ x, pending_id x = id) late ∧
      match r with
      | Raise e => is_malformed e = true ∧ late = []
      | Ret None => unassigned json p ∧ late = []
      | Ret (Some rs) =>
          (∃ t, getitem "messageType" json = Ret (PStr t) ∧ answered t json id p p' rs late) ∨
          (∃ what, rs = [ExceptionResponse id what] ∧ late = [])
      end).
Proof.
  split.
  - intros Hn. destruct json as [| | | | |d| | |]; try done. cbn.
    destruct (assoc (KStr "messageId") d) as [id|] eqn:Hid; [|done].
    destruct (py_eq id (PInt (expectedMessageId p))) eqn:Heq; [|done].
    destruct (Hn id). unfold accepted. split_ands; [by eexists|cbn; by rewrite Hid|done].
  - intros id ([d ->] & Hid & Heq).
    destruct (dispatch_answers u (PDict d) id p Hid) as (r & p' & late & Hr & (He & Hq & Hf) & Hc).
    unfold MessageProcessor.handleJsonMessage. cbn in Hid.
    destruct (assoc (KStr "messageId") d) as [i|]; [|done]. cbn in Hid. injection Hid as ->.
    rewrite Heq. cbn [negb]. unfold catch. rewrite Hr. destruct r as [r|e].
    + exists (Ret r), p', late. split_ands; [done|done|done|done|].
      destruct r as [rs|]; [by left|done].
    + subst late. destruct (is_malformed e) eqn:Hm; eexists _, p', []; split_ands; try done.
      right. by eexists.
Qed.

(** *** Members that are not exposed *)

(** A message of type [t] may use the member. *)
Definition usable (t : string) (m : member) : bool :=
  if String.eqb t "Execute" then isFunctionToExpose m else isPropertyToExpose m.

Definition member_messages : list string := ["Read"; "Assign"; "Subscribe"; "Execute"].

Lemma message_field_has json field :
  message_field json = Ret field →
  py_in "field" json = Ret true ∧ getitem "field" json = Ret (PStr field).
Proof.
  unfold message_field. destruct (py_in "field" json) as [[|]|]; [|done|done]. cbn.
  destruct (getitem "field" json) as [[]|]; cbn; try done. by intros [= ->].
Qed.

Lemma unusable_refused u t json obj field p :
  t ∈ member_messages → message_field json = Ret field →
  (t = "Assign" → py_in "value" json = Ret true) →
  (∀ m, class_member (getObjectClass p obj) field = Some m → usable t m = false) →
  ∃ what, (what = "Invalid field." ∨ what = "Invalid function.") ∧
    handle u t json obj p = (Raise (SubscribableWebObjects what), p).
Proof.
  intros Ht Hf Hv Hm. destruct (message_field_has _ _ Hf) as [Hf1 Hf2].
  unfold member_messages in Ht. rewrite !elem_of_cons in Ht.
  destruct Ht as [->|[->|[->|[->|Ht]]]]; [| | | |by apply not_elem_of_nil in Ht].
  all: try specialize (Hv eq_refl).
  all: unfold MessageProcessor.handle, handleReadMessage, handleAssignMessage, handleSubscribeMessage,
    handleExecuteMessage, getFieldExtractorForReadMessage, getFunctionForExecuteMessage,
    object_member, mbind, M_bind, lift, raise.
  all: cbn; rewrite ?Hf1, ?Hv; cbn; rewrite ?Hf; cbn.
  all: destruct (class_member _ field) as [m|] eqn:Hm1; cbn;
    [pose proof (Hm m eq_refl) as Hx; cbn in Hx; rewrite Hx; cbn|];
    eexists; (split; [|reflexivity]); auto.
Qed.

(** Only exposed members are reached: a message that reads, assigns,
    subscribes to or executes a member which the object's class does not expose for
    it (or does not have) is answered with "Invalid field." or "Invalid function.",
    and neither the application's state, nor the subscriptions, nor the queue of
    late answers is touched. *)
Theorem unexposed_members_are_refused u json id t obj field p p1 :
  accepted p json id → getitem "messageType" json = Ret (PStr t) → t ∈ member_messages →
  py_in "objectDefinition" json = Ret true →
  find_object t json (counted p) = (Ret obj, p1) →
  message_field json = Ret field → (t = "Assign" → py_in "value" json = Ret true) →
  (∀ m, class_member (getObjectClass p1 obj) field = Some m → usable t m = false) →
  ∃ what, (what = "Invalid field." ∨ what = "Invalid function.") ∧
    handleJsonMessage u json p = (Ret (Some [ExceptionResponse id what]), p1) ∧
    app p1 = app p ∧ subs p1 = subs p ∧ pendingObjectQueue p1 = pendingObjectQueue p.
Proof.
  intros ([d ->] & Hid & Heq) Hty Ht Hdef Hobj Hf Hv Hm.
  destruct (unusable_refused u t (PDict d) obj field p1 Ht Hf Hv Hm) as (what & Hwhat & Hr).
  exists what. split; [done|]. split.
  - unfold MessageProcessor.handleJsonMessage. cbn in Hid.
    destruct (assoc (KStr "messageId") d) as [i|]; [|done]. cbn in Hid. injection Hid as ->.
    rewrite Heq. cbn [negb]. unfold catch. rewrite (dispatch_found u _ p t Hty); [|set_solver|done].
    step Hobj. by rewrite Hr.
  - destruct (find_object_same t (PDict d) (counted p)) as (r & p' & Hr' & ? & ? & ?).
    rewrite Hobj in Hr'. by simplify_eq.
Qed.
End session.

(** ** A sample application: a counter *)

Module Counter.

Definition classMap (t : string) : option (pyval → res made) :=
  if String.eqb t "Counter" then Some (λ args, Ret (MadeLocation args)) else None.
Definition class_member (c : pyclass) (field : string) : option member :=
  match c with
  | LocationClass "Counter" =>
      if String.eqb field "value" then Some (Mutable true)
      else if String.eqb field "secret" then Some (Mutable false)
      else if String.eqb field "report" then Some (FieldImpl false)
      else if String.eqb field "bump" then Some (Function true false false)
      else None
  | _ => None
  end.
Definition read_member (a : Z) (o : pyval) (field : string) : res pyval :=
  if String.eqb field "report" then Ret (PList [o; POther 0]) else Ret (PInt a).
Definition exception_identity (a : Z) (o : pyval) (field : string) : nat := 0.
Definition assign_member (o : pyval) (field : string) (v : pyval) (a : Z) : res unit * Z :=
  match v with PInt z => (Ret tt, z) | _ => (Raise TypeError, a) end.
Definition call_member (o : pyval) (field : string) (args : call_args) (a : Z) : res pyval * Z :=
  (Ret (PInt (a + 1)), (a + 1)%Z).
Definition call_with_callback (o : pyval) (field : string) (args : call_args) (a : Z)
    : list (pyval + exn) * option exn * Z := ([], None, a).

Definition counter : pyval :=
  PDict [(KStr "type", PStr "Counter"); (KStr "args", PDict [(KStr "id", PInt 1)])].

(** The message [id], of type [t], about the counter. *)
Definition msg (id : Z) (t field : string) (more : list (key * pyval)) : pyval :=
  PDict ([(KStr "messageId", PInt id); (KStr "messageType", PStr t);
          (KStr "objectDefinition", counter); (KStr "field", PStr field)] ++ more).

Definition quiet : update (App:=Z) := Update id None [].
Definition bump (ks : list key) : update (App:=Z) := Update (λ a, a + 1)%Z None ks.

Definition handleIncoming (u : update (App:=Z)) (m : incoming_message) : M (processor (App:=Z)) (list response) :=
  handleIncomingMessage classMap class_member read_member exception_identity assign_member
    call_member call_with_callback "guid" u m.

Definition subscribed : processor :=
  (handleIncoming (Update id None [KInt 0]) (Json (msg 0 "Subscribe" "value" [])) (init 5%Z)).2.
End Counter.

Lemma update_reports_changes_witness :
  let p := Counter.subscribed in
  let u := Counter.bump [KInt 0] in
  let a := changes u (app p) in
  let now := MessageProcessor.now Counter.read_member Counter.exception_identity "guid" in
  ∃ ks rs p',
    updateGraphAndReturnMessages Counter.classMap Counter.read_member Counter.exception_identity
      "guid" u p = (Ret rs, p') ∧
    NoDup ks ∧ StronglySorted key_le ks ∧ (∀ k, k ∈ ks ↔ stale (now a) (subs p) k) ∧
    Forall2 (λ k r, ∃ getter, subscriptionGetters (subs p) !! k = Some getter ∧
      reports Counter.classMap "guid" (instances (cache p)) k (now a getter) r) ks rs ∧
    (∀ k, subscriptionGetters (subs p') !! k =
       (if decide (k ∈ ks) then None else subscriptionGetters (subs p) !! k)) ∧
    (∀ k, subscriptionValues (subs p') !! k =
       (if decide (k ∈ ks) then None else subscriptionValues (subs p) !! k)) ∧
    settled (subs p') ∧ same_but_subs (set_app a p) p'.
Proof.
  apply (update_reports_changes Counter.classMap Counter.read_member Counter.exception_identity
    "guid" (Counter.bump [KInt 0]) Counter.subscribed).
  - split; [|reflexivity]. vm_compute. reflexivity.
  - reflexivity.
  - intros k (getter & v & Hg & _).
    assert (Hs : subscriptionGetters (subs Counter.subscribed) =
      {[KInt 0 := (PLoc "Counter" (PDict [(KStr "id", PInt 1)]), "value")]}) by (vm_compute; reflexivity).
    rewrite Hs in Hg. apply lookup_singleton_Some in Hg as [<- _]. left.
Defined.

Lemma messages_are_answered_witness :
  let p := init 5%Z in
  let json := Counter.msg 0 "Execute" "bump" [(KStr "args", PNone)] in
  ∃ r p' late, handleJsonMessage Counter.classMap Counter.class_member Counter.read_member
      Counter.exception_identity Counter.assign_member Counter.call_member
      Counter.call_with_callback "guid" Counter.quiet json p = (r, p') ∧
    expectedMessageId p' = (expectedMessageId p + 1)%Z ∧
    pendingObjectQueue p' = pendingObjectQueue p ++ late ∧
    Forall (λ x, pending_id x = PInt 0) late ∧
    match r with
    | Raise e => is_malformed e = true ∧ late = []
    | Ret None => unassigned Counter.classMap Counter.class_member json p ∧ late = []
    | Ret (Some rs) =>
        (∃ t, getitem "messageType" json = Ret (PStr t) ∧
          answered Counter.class_member Counter.call_with_callback t json (PInt 0) p p' rs late) ∨
        (∃ what, rs = [ExceptionResponse (PInt 0) what] ∧ late = [])
    end.
Proof.
  apply (messages_are_answered Counter.classMap Counter.class_member Counter.read_member
    Counter.exception_identity Counter.assign_member Counter.call_member
    Counter.call_with_callback "guid" Counter.quiet
    (Counter.msg 0 "Execute" "bump" [(KStr "args", PNone)]) (init 5%Z)).
  split; [by eexists|]. split; reflexivity.
Defined.

Lemma unexposed_members_are_refused_witness :
  let json := Counter.msg 0 "Read" "secret" [] in
  let p1 := (find_object Counter.classMap "Read" json (counted (init 5%Z))).2 in
  ∃ what, (what = "Invalid field." ∨ what = "Invalid function.") ∧
    handleJsonMessage Counter.classMap Counter.class_member Counter.read_member
      Counter.exception_identity Counter.assign_member Counter.call_member
      Counter.call_with_callback "guid" Counter.quiet json (init 5%Z) =
      (Ret (Some [ExceptionResponse (PInt 0) what]), p1) ∧
    app p1 = 5%Z ∧ subs p1 = init_subscriptions ∧ pendingObjectQueue p1 = [].
Proof.
  intros json p1.
  apply (unexposed_members_are_refused Counter.classMap Counter.class_member Counter.read_member
    Counter.exception_identity Counter.assign_member Counter.call_member
    Counter.call_with_callback "guid" Counter.quiet json (PInt 0) "Read"
    (PLoc "Counter" (PDict [(KStr "id", PInt 1)])) "secret" (init 5%Z) p1).
  - split; [by eexists|]. split; reflexivity.
  - reflexivity.
  - vm_compute. left.
  - reflexivity.
  - vm_compute. reflexivity.
  - reflexivity.
  - done.
  - intros m. cbn. by intros [= <-].
Defined.

(** An assignment to an exposed field without a setter hands an exception object
    to code that adds a list to it: the exception leaves [handleIncomingMessage],
    and the connection ends without an answer. *)
Lemma assign_without_setter_ends_connection :
  (Counter.handleIncoming Counter.quiet
     (Json (Counter.msg 0 "Assign" "report" [(KStr "value", PInt 1)])) (init 5%Z)).1 =
    Raise TypeError.
Proof. vm_compute. reflexivity. Qed.

(** A subscription to a field whose value is not JSON is answered with an
    exception, and the change of another subscription that came out in the same
    update is lost: it is not reported then, and not by later updates. *)
Lemma failed_subscription_loses_changes :
  let u := Counter.bump [KInt 0; KInt 1] in
  let (r1, p1) := Counter.handleIncoming u (Json (Counter.msg 1 "Subscribe" "report" []))
                    Counter.subscribed in
  let (r2, p2) := Counter.handleIncoming (Update id None [KInt 0; KInt 1]) NoMessage p1 in
  r1 = Ret [ExceptionResponse (PInt 1) "result was not valid json"] ∧ r2 = Ret [] ∧
  is_Some (subscriptionGetters (subs p2) !! KInt 0).
Proof. vm_compute. repeat split. eexists. reflexivity. Qed.
