(* ===== verification/SharedStateSynchronizer.v ===== *)
(** * Synchronizing with the shared state
    ([ufora/distributed/SharedState/ComputedGraph/SharedStateSynchronizer.py])

    A client's window on a key-value store: listeners are told what is loaded
    under the prefixes they subscribed to, and writes wait until their prefix is
    loaded. *)
From Stdlib Require Import Lia.
From stdpp Require Import base gmap sets list strings fin_maps.
From S2P Require Import Prelude.

(** ** Keys

    Keyspaces are named by JSON values, here strings; the names of keys and the
    prefixes are JSON arrays. The empty text stands for the prefix of a range
    without a left end. *)
Abbreviation keyname := (list string).
Abbreviation prefix := (option keyname).
Abbreviation lookupId := ((string * prefix)%type).
Abbreviation write := (((string * keyname) * string)%type).
Abbreviation listener := (nat).

(** [keyName.arrayStartswith(prefix)]. *)
Fixpoint arrayStartswith (name start : keyname) : bool :=
  match start, name with
  | [], _ => true
  | x :: start, y :: name => String.eqb x y && arrayStartswith name start
  | _, [] => false
  end.

(** ** The view and its listener (native code)

    [contents] is what the view reads; [available] are the batches of updates that
    [getNonblock] returns next and [future] those that a [wait] brings; [aborts] are
    the results of the aborts that it takes to thaw the view; [disconnects_after] is
    the number of transactions that go through before the channel disconnects, if it
    does. *)
Inductive update :=
| KeyUpdates (keys : list (string * keyname))
| SubscriptionStart (keyspace : string) (leftKey : prefix).

Record view := View {
  contents : gmap (string * keyname) string;
  available : list (list update);
  future : list (list (list update));
  aborts : list Z;
  disconnects_after : option nat;
  subscribed : list (string * keyname * bool);
  committed : list write;
  flushed : bool }.

(** ** The synchronizer; [calls] records the calls of [keysLoaded]. *)
Record synchronizer := Synchronizer {
  view_ : option view;
  keyspaceListenersByKeyspaceAndPrefix_ : gmap lookupId (gset listener);
  keyspaceListenersHaveHadFirstLoad_ : gset lookupId;
  loadedKeyspacesAndPrefixes_ : gset lookupId;
  valuesByKeyspaceAndPrefix_ : gmap lookupId (gmap keyname string);
  unwrittenValuesByKeyspaceAndPrefix_ : gmap lookupId (list write);
  keyspaceNameToPrefixes_ : gmap string (gset keyname);
  pendingWrites_ : list write;
  calls : list (listener * gmap keyname string * bool) }.

Definition init : synchronizer := Synchronizer None ∅ ∅ ∅ ∅ ∅ ∅ [] [].

Definition attachView (v : view) : M synchronizer unit := modify (λ s,
  Synchronizer (Some v) (keyspaceListenersByKeyspaceAndPrefix_ s)
    (keyspaceListenersHaveHadFirstLoad_ s) (loadedKeyspacesAndPrefixes_ s)
    (valuesByKeyspaceAndPrefix_ s) (unwrittenValuesByKeyspaceAndPrefix_ s)
    (keyspaceNameToPrefixes_ s) (pendingWrites_ s) (calls s)).

Definition set_view (v : view) (s : synchronizer) : synchronizer := (attachView v s).2.
Definition set_listeners (m : gmap lookupId (gset listener)) (s : synchronizer) : synchronizer :=
  Synchronizer (view_ s) m (keyspaceListenersHaveHadFirstLoad_ s) (loadedKeyspacesAndPrefixes_ s)
    (valuesByKeyspaceAndPrefix_ s) (unwrittenValuesByKeyspaceAndPrefix_ s)
    (keyspaceNameToPrefixes_ s) (pendingWrites_ s) (calls s).
Definition add_first_load (id : lookupId) (s : synchronizer) : synchronizer :=
  Synchronizer (view_ s) (keyspaceListenersByKeyspaceAndPrefix_ s)
    ({[id]} ∪ keyspaceListenersHaveHadFirstLoad_ s) (loadedKeyspacesAndPrefixes_ s)
    (valuesByKeyspaceAndPrefix_ s) (unwrittenValuesByKeyspaceAndPrefix_ s)
    (keyspaceNameToPrefixes_ s) (pendingWrites_ s) (calls s).
Definition add_loaded (id : lookupId) (s : synchronizer) : synchronizer :=
  Synchronizer (view_ s) (keyspaceListenersByKeyspaceAndPrefix_ s)
    (keyspaceListenersHaveHadFirstLoad_ s) ({[id]} ∪ loadedKeyspacesAndPrefixes_ s)
    (valuesByKeyspaceAndPrefix_ s) (unwrittenValuesByKeyspaceAndPrefix_ s)
    (keyspaceNameToPrefixes_ s) (pendingWrites_ s) (calls s).
Definition set_values (m : gmap lookupId (gmap keyname string)) (s : synchronizer) : synchronizer :=
  Synchronizer (view_ s) (keyspaceListenersByKeyspaceAndPrefix_ s)
    (keyspaceListenersHaveHadFirstLoad_ s) (loadedKeyspacesAndPrefixes_ s) m
    (unwrittenValuesByKeyspaceAndPrefix_ s) (keyspaceNameToPrefixes_ s) (pendingWrites_ s) (calls s).
Definition set_unwritten (m : gmap lookupId (list write)) (s : synchronizer) : synchronizer :=
  Synchronizer (view_ s) (keyspaceListenersByKeyspaceAndPrefix_ s)
    (keyspaceListenersHaveHadFirstLoad_ s) (loadedKeyspacesAndPrefixes_ s)
    (valuesByKeyspaceAndPrefix_ s) m (keyspaceNameToPrefixes_ s) (pendingWrites_ s) (calls s).
Definition set_prefixes (m : gmap string (gset keyname)) (s : synchronizer) : synchronizer :=
  Synchronizer (view_ s) (keyspaceListenersByKeyspaceAndPrefix_ s)
    (keyspaceListenersHaveHadFirstLoad_ s) (loadedKeyspacesAndPrefixes_ s)
    (valuesByKeyspaceAndPrefix_ s) (unwrittenValuesByKeyspaceAndPrefix_ s) m
    (pendingWrites_ s) (calls s).
Definition set_pending (l : list write) (s : synchronizer) : synchronizer :=
  Synchronizer (view_ s) (keyspaceListenersByKeyspaceAndPrefix_ s)
    (keyspaceListenersHaveHadFirstLoad_ s) (loadedKeyspacesAndPrefixes_ s)
    (valuesByKeyspaceAndPrefix_ s) (unwrittenValuesByKeyspaceAndPrefix_ s)
    (keyspaceNameToPrefixes_ s) l (calls s).

(** [listener.keysLoaded(keyValueDict, isInitialLoad)]. *)
Definition keysLoaded (l : listener) (keyValueDict : gmap keyname string) (isInitialLoad : bool)
    : M synchronizer unit := modify (λ s,
  Synchronizer (view_ s) (keyspaceListenersByKeyspaceAndPrefix_ s)
    (keyspaceListenersHaveHadFirstLoad_ s) (loadedKeyspacesAndPrefixes_ s)
    (valuesByKeyspaceAndPrefix_ s) (unwrittenValuesByKeyspaceAndPrefix_ s)
    (keyspaceNameToPrefixes_ s) (pendingWrites_ s) (calls s ++ [(l, keyValueDict, isInitialLoad)])).

(** The attributes of [None] raise. *)
Definition the_view : M synchronizer view := λ s, (of_option AttributeError (view_ s), s).
Definition update_view (f : view → view) : M synchronizer unit :=
  v ← the_view; modify (set_view (f v)).

(** *** Writes *)

(** A set's iteration order: any order, here that of [elements]. *)
Definition prefixFor_ (keyspaceName : string) (keyName : keyname) : M synchronizer keyname := λ s,
  (match keyspaceNameToPrefixes_ s !! keyspaceName with
   | None => Raise AssertionError
   | Some prefixes =>
       match list_find (λ p, arrayStartswith keyName p = true) (elements prefixes) with
       | Some (_, p) => Ret p
       | None => Raise AssertionError
       end
   end, s).

Definition writeValue (keyspaceName : string) (keyName : keyname) (value : string)
    : M synchronizer unit :=
  keyPrefix ← prefixFor_ keyspaceName keyName;
  let id := (keyspaceName, Some keyPrefix) in
  s ← get;
  lift (py_assert (bool_decide (is_Some (keyspaceListenersByKeyspaceAndPrefix_ s !! id)))) ;;
  if bool_decide (id ∈ loadedKeyspacesAndPrefixes_ s) then
    modify (set_pending (pendingWrites_ s ++ [((keyspaceName, keyName), value)]))
  else
    modify (set_unwritten (<[id := default [] (unwrittenValuesByKeyspaceAndPrefix_ s !! id) ++
                                   [((keyspaceName, keyName), value)]]>
                             (unwrittenValuesByKeyspaceAndPrefix_ s))).

(** [with self.createTransaction(): self.writeValue_(...)]. *)
Definition writeValue_ (w : write) : M synchronizer unit :=
  v ← the_view;
  match disconnects_after v with
  | Some O => raise UserWarning
  | n =>
      modify (set_view (View (<[w.1 := w.2]> (contents v)) (available v) (future v) (aborts v)
                          (pred <$> n) (subscribed v) (committed v ++ [w]) (flushed v)))
  end.

(** The only [UserWarning] is that of a disconnected channel, which is logged. *)
Definition commitPendingWrites : M synchronizer unit :=
  catch
    (s ← get;
     match pendingWrites_ s with
     | [] => mret tt
     | ws => forM_ writeValue_ ws ;; modify (set_pending [])
     end)
    (λ e, if bool_decide (e = UserWarning) then mret tt else raise e).

(** *** Updates *)

Abbreviation valueDict := (gmap lookupId (gmap keyname string)).

(** One changed key. *)
Definition key_changed (d : valueDict) (key : string * keyname) : M synchronizer valueDict :=
  prefix ← prefixFor_ key.1 key.2;
  let id := (key.1, Some prefix) in
  let node := default ∅ (d !! id) in
  v ← the_view;
  mret (<[id := match contents v !! key with
                | Some value => <[key.2 := value]> node
                | None => node
                end]> d).

(** [SubscriptionStart]: the test is of [keyspaceName], which is never a key of
    [valueDict]. *)
Definition subscription_started (d : valueDict) (keyspaceName : string) (keyPrefix : prefix)
    : M synchronizer valueDict :=
  let id := (keyspaceName, keyPrefix) in
  modify (add_loaded id) ;;
  s ← get;
  match unwrittenValuesByKeyspaceAndPrefix_ s !! id with
  | Some ws =>
      modify (set_pending (pendingWrites_ s ++ ws)) ;;
      modify (set_unwritten (delete id (unwrittenValuesByKeyspaceAndPrefix_ s)))
  | None => mret tt
  end ;;
  mret (<[id := ∅]> d).

(** [for x in l: acc = f(acc, x)]. *)
Definition foldM {A B} (f : B → A → M synchronizer B) : list A → B → M synchronizer B :=
  fix go l b := match l with [] => mret b | x :: l => b ← f b x; go l b end.

Definition one_update (d : valueDict) (u : update) : M synchronizer valueDict :=
  match u with
  | KeyUpdates changedKeys => foldM key_changed changedKeys d
  | SubscriptionStart keyspaceName leftKey => subscription_started d keyspaceName leftKey
  end.

(** [done] after a batch. *)
Definition batch_done (updates : list update) : bool :=
  forallb (λ u, match u with KeyUpdates (_ :: _) => false | _ => true end) updates.

(** [self.listener_.getNonblock()]. *)
Definition getNonblock : M synchronizer (list update) :=
  v ← the_view;
  match available v with
  | [] => mret []
  | b :: bs =>
      modify (set_view (View (contents v) bs (future v) (aborts v) (disconnects_after v)
                          (subscribed v) (committed v) (flushed v))) ;;
      mret b
  end.

(** The loop reads a batch per turn, so the batches that are there bound it. *)
Fixpoint read_updates (fuel : nat) (d : valueDict) : M synchronizer valueDict :=
  match fuel with
  | O => raise RecursionLimit
  | S fuel =>
      updates ← getNonblock;
      d ← foldM one_update updates d;
      if batch_done updates then mret d else read_updates fuel d
  end.

(** The last loop of [updateKeysAndKeyspaces_], for one key of [valueDict]. *)
Definition deliver (x : lookupId * gmap keyname string) : M synchronizer unit :=
  s ← get;
  match keyspaceListenersByKeyspaceAndPrefix_ s !! x.1 with
  | None => mret tt
  | Some listeners =>
      let isFirstLoad := bool_decide (x.1 ∉ keyspaceListenersHaveHadFirstLoad_ s) in
      when isFirstLoad (modify (add_first_load x.1)) ;;
      forM_ (λ l, keysLoaded l x.2 isFirstLoad) (elements listeners) ;;
      s ← get;
      match valuesByKeyspaceAndPrefix_ s !! x.1 with
      | None => raise KeyError
      | Some old => modify (set_values (<[x.1 := x.2 ∪ old]> (valuesByKeyspaceAndPrefix_ s)))
      end
  end.

Definition updateKeysAndKeyspaces_ : M synchronizer unit :=
  commitPendingWrites ;;
  v ← the_view;
  d ← read_updates (S (length (available v))) ∅;
  forM_ deliver (map_to_list d).

Definition isAttachedToView (s : synchronizer) : bool := bool_decide (is_Some (view_ s)).

(** [while self.view_.isFrozen: assert self.view_.abort() == 0]. *)
Fixpoint thaw (codes : list Z) : M synchronizer unit :=
  match codes with
  | [] => mret tt
  | c :: codes =>
      update_view (λ v, View (contents v) (available v) (future v) codes (disconnects_after v)
                          (subscribed v) (committed v) (flushed v)) ;;
      lift (py_assert (bool_decide (c = 0%Z))) ;;
      thaw codes
  end.

Definition update_all : M synchronizer unit :=
  s ← get;
  match view_ s with
  | None => mret tt
  | Some v => thaw (aborts v) ;; updateKeysAndKeyspaces_
  end.

(** *** Listeners *)

Definition ensureMarkedLoaded (lookupKey : lookupId) : M synchronizer unit :=
  s ← get;
  when (bool_decide (lookupKey ∉ keyspaceListenersHaveHadFirstLoad_ s))
    (modify (add_first_load lookupKey) ;;
     match keyspaceListenersByKeyspaceAndPrefix_ s !! lookupKey with
     | None => raise KeyError
     | Some listeners => forM_ (λ l, keysLoaded l ∅ true) (elements listeners)
     end).

Definition addKeyspaceListener (keyspaceName : string) (keyspaceListener : listener)
    (keyPrefix : keyname) (blockUntilLoaded assertAlreadyLoaded : bool) : M synchronizer unit :=
  let lookupKey := (keyspaceName, Some keyPrefix) in
  modify (λ s, set_prefixes
    (<[keyspaceName := default ∅ (keyspaceNameToPrefixes_ s !! keyspaceName)]>
       (keyspaceNameToPrefixes_ s)) s) ;;
  s ← get;
  let prefixes := default ∅ (keyspaceNameToPrefixes_ s !! keyspaceName) in
  lift (py_assert (forallb (λ otherPrefix,
    negb (arrayStartswith otherPrefix keyPrefix && bool_decide (otherPrefix ≠ keyPrefix)))
    (elements prefixes))) ;;
  modify (set_prefixes (<[keyspaceName := {[keyPrefix]} ∪ prefixes]> (keyspaceNameToPrefixes_ s))) ;;
  match keyspaceListenersByKeyspaceAndPrefix_ s !! lookupKey with
  | None =>
      lift (py_assert (negb assertAlreadyLoaded)) ;;
      modify (λ s, set_listeners (<[lookupKey := {[keyspaceListener]}]>
                                    (keyspaceListenersByKeyspaceAndPrefix_ s)) s) ;;
      modify (λ s, set_values (<[lookupKey := ∅]> (valuesByKeyspaceAndPrefix_ s)) s) ;;
      update_view (λ v, View (contents v) (available v) (future v) (aborts v) (disconnects_after v)
                          (subscribed v ++ [(keyspaceName, keyPrefix, blockUntilLoaded)])
                          (committed v) (flushed v)) ;;
      when blockUntilLoaded (update_all ;; ensureMarkedLoaded lookupKey)
  | Some listeners =>
      modify (λ s, set_listeners (<[lookupKey := {[keyspaceListener]} ∪ listeners]>
                                    (keyspaceListenersByKeyspaceAndPrefix_ s)) s) ;;
      s ← get;
      values ← lift (of_option KeyError (valuesByKeyspaceAndPrefix_ s !! lookupKey));
      keysLoaded keyspaceListener values true
  end.

(** *** Waiting *)

(** [self.listener_.wait()] brings the next batches; when nothing comes any more it
    does not return. *)
Definition wait : M synchronizer unit :=
  v ← the_view;
  match future v with
  | [] => raise RecursionLimit
  | bs :: fs =>
      modify (set_view (View (contents v) (available v ++ bs) fs (aborts v) (disconnects_after v)
                          (subscribed v) (committed v) (flushed v)))
  end.

Fixpoint wait_loop (fuel : nat) (id : lookupId) : M synchronizer unit :=
  match fuel with
  | O => raise RecursionLimit
  | S fuel =>
      s ← get;
      if bool_decide (id ∈ loadedKeyspacesAndPrefixes_ s) then mret tt
      else wait ;; update_all ;; wait_loop fuel id
  end.

Definition waitForKeyspaceAndPrefix (id : lookupId) : M synchronizer unit :=
  update_all ;;
  v ← the_view;
  wait_loop (S (length (future v))) id.

(** Each turn of the loop of [flush] waits for one of the ids, any. *)
Fixpoint flush_loop (fuel : nat) : M synchronizer unit :=
  match fuel with
  | O => raise RecursionLimit
  | S fuel =>
      s ← get;
      match map_to_list (unwrittenValuesByKeyspaceAndPrefix_ s) with
      | [] => mret tt
      | (id, _) :: _ => waitForKeyspaceAndPrefix id ;; flush_loop fuel
      end
  end.

Definition flush : M synchronizer unit :=
  s ← get;
  flush_loop (S (size (unwrittenValuesByKeyspaceAndPrefix_ s))) ;;
  commitPendingWrites ;;
  update_view (λ v, View (contents v) (available v) (future v) (aborts v) (disconnects_after v)
                      (subscribed v) (committed v) true).

(** ** What listeners are told *)

(** The prefix under which a key is found. *)
Definition prefix_of (prefixes : gmap string (gset keyname)) (keyspaceName : string)
    (keyName : keyname) : option keyname :=
  ps ← prefixes !! keyspaceName;
  snd <$> list_find (λ p, arrayStartswith keyName p = true) (elements ps).

Definition covered (prefixes : gmap string (gset keyname)) (id : lookupId) (key : string * keyname)
    : bool :=
  bool_decide (id.1 = key.1 ∧ id.2 = prefix_of prefixes key.1 key.2 ∧ is_Some id.2).

Section told.
Context (prefixes : gmap string (gset keyname)) (id : lookupId).

(** The keys of [id] that were updated since its subscription last started. *)
Definition updated_since (ks : list keyname) (u : update) : list keyname :=
  match u with
  | KeyUpdates keys => ks ++ (filter (λ k, covered prefixes id k = true) keys).*2
  | SubscriptionStart keyspaceName leftKey =>
      if decide ((keyspaceName, leftKey) = id) then [] else ks
  end.

Definition mentions (u : update) : bool :=
  match u with
  | KeyUpdates keys => existsb (covered prefixes id) keys
  | SubscriptionStart keyspaceName leftKey => bool_decide ((keyspaceName, leftKey) = id)
  end.

(** The dict of [id] after the updates [us], starting with those of [d]. *)
Definition tells (c : gmap (string * keyname) string) (us : list update)
    (d : option (gmap keyname string)) : Prop :=
  match d with
  | None => existsb mentions us = false
  | Some m => existsb mentions us = true ∧
      ∀ k x, m !! k = Some x ↔ c !! (id.1, k) = Some x ∧ k ∈ foldl updated_since [] us
  end.
End told.

Lemma prefixFor_ok keyspaceName keyName s :
  prefixFor_ keyspaceName keyName s =
    (of_option AssertionError (prefix_of (keyspaceNameToPrefixes_ s) keyspaceName keyName), s).
Proof.
  unfold prefixFor_, prefix_of. destruct (keyspaceNameToPrefixes_ s !! _) as [ps|]; [|done]. cbn.
  by destruct (list_find _ _) as [[i q]|].
Qed.

Lemma the_view_ok s v : view_ s = Some v → the_view s = (Ret v, s).
Proof. unfold the_view. by intros ->. Qed.

(** *** One key *)

Lemma key_changed_ok (d : valueDict) key s v p :
  view_ s = Some v → prefix_of (keyspaceNameToPrefixes_ s) key.1 key.2 = Some p →
  key_changed d key s =
    (Ret (<[(key.1, Some p) := match contents v !! key with
             | Some value => <[key.2 := value]> (default ∅ (d !! (key.1, Some p)))
             | None => default ∅ (d !! (key.1, Some p))
             end]> d), s).
Proof.
  intros Hv Hp. unfold key_changed.
  erewrite (bind_step (prefixFor_ _ _)); [|rewrite prefixFor_ok, Hp; reflexivity].
  by step (the_view_ok _ _ Hv).
Qed.

Lemma unmentioned prefixes id us ks :
  existsb (mentions prefixes id) us = false → foldl (updated_since prefixes id) ks us = ks.
Proof.
  revert ks. induction us as [|u us IH]; intros ks H; [done|]. cbn in *.
  apply orb_false_iff in H as [Hu Hus]. rewrite IH by done. destruct u as [keys|n l]; cbn in *.
  - replace (filter (λ k, covered prefixes id k = true) keys) with (@nil (string * keyname));
      [apply app_nil_r|]. symmetry. clear -Hu. induction keys as [|k keys IH]; [done|].
    cbn in Hu. apply orb_false_iff in Hu as [Hk Hks]. rewrite filter_cons_False by by rewrite Hk.
    by apply IH.
  - by rewrite decide_False by by apply bool_decide_eq_false in Hu.
Qed.

Lemma tells_key (prefixes : gmap string (gset keyname)) (c : gmap (string * keyname) string) (us : list update) (d : valueDict)
    (key : string * keyname) (p : keyname) :
  prefix_of prefixes key.1 key.2 = Some p →
  ∀ keys,
  (∀ id, tells prefixes id c (us ++ [KeyUpdates keys]) (d !! id)) →
  ∀ id, tells prefixes id c (us ++ [KeyUpdates (keys ++ [key])])
    (<[(key.1, Some p) := match c !! key with
         | Some value => <[key.2 := value]> (default ∅ (d !! (key.1, Some p)))
         | None => default ∅ (d !! (key.1, Some p))
         end]> d !! id).
Proof.
  intros Hp keys Hd id. specialize (Hd id).
  assert (Hcov : covered prefixes id key = true ↔ (key.1, Some p) = id).
  { unfold covered. rewrite bool_decide_eq_true, Hp. destruct id as [i j]. cbn.
    split; [intros (-> & -> & _); done|intros [= <- <-]; eauto]. }
  assert (Hupd : foldl (updated_since prefixes id) [] (us ++ [KeyUpdates (keys ++ [key])]) =
    foldl (updated_since prefixes id) [] (us ++ [KeyUpdates keys]) ++
    (if decide ((key.1, Some p) = id) then [key.2] else [])).
  { rewrite !foldl_snoc. cbn. rewrite filter_app, fmap_app, <- app_assoc. do 2 f_equal.
    rewrite filter_cons. destruct (decide (covered prefixes id key = true)) as [Hc|Hc];
      [rewrite decide_True by by apply Hcov|rewrite decide_False by by rewrite <- Hcov]; done. }
  assert (Hmen : existsb (mentions prefixes id) (us ++ [KeyUpdates (keys ++ [key])]) =
    existsb (mentions prefixes id) (us ++ [KeyUpdates keys]) ||
    bool_decide ((key.1, Some p) = id)).
  { rewrite !existsb_app. cbn. rewrite existsb_app. cbn. rewrite !orb_false_r, orb_assoc.
    f_equal. apply eq_true_iff_eq. by rewrite bool_decide_eq_true. }
  rewrite lookup_insert. destruct (decide ((key.1, Some p) = id)) as [He|He].
  - unfold tells. rewrite Hmen, Hupd. subst id. rewrite bool_decide_eq_true_2, orb_true_r by done.
    split; [done|]. cbn [fst snd] in *. intros k x. rewrite elem_of_app, list_elem_of_singleton.
    assert (Hold : ∀ k x, default ∅ (d !! (key.1, Some p)) !! k = Some x ↔
      c !! (key.1, k) = Some x ∧ k ∈ foldl (updated_since prefixes (key.1, Some p)) [] (us ++ [KeyUpdates keys])).
    { intros k' x'. unfold tells in Hd. destruct (d !! (key.1, Some p)) as [m|]; cbn.
      - by apply Hd.
      - rewrite lookup_empty, unmentioned by done. split; [done|]. by intros [_ ?%not_elem_of_nil]. }
    destruct (c !! key) as [value|] eqn:Hc.
    + rewrite lookup_insert. destruct (decide (key.2 = k)) as [<-|Hk].
      * destruct key as [n k']. cbn in *. split; [intros [= <-]; auto|].
        intros [Hx _]. cbn in *. congruence.
      * rewrite Hold. naive_solver.
    + rewrite Hold. split; [naive_solver|]. intros [Hx [?| ->]]; [done|].
      destruct key as [n k']. cbn in *. congruence.
  - unfold tells in *. rewrite Hmen, Hupd. rewrite bool_decide_eq_false_2, orb_false_r, app_nil_r by done.
    done.
Qed.

(** *** Lists of updates *)

Definition keys_covered (prefixes : gmap string (gset keyname)) (u : update) : Prop :=
  match u with
  | KeyUpdates keys => ∀ k, k ∈ keys → is_Some (prefix_of prefixes k.1 k.2)
  | SubscriptionStart _ _ => True
  end.

Lemma fold_keys_ok (s : synchronizer) (v : view) (us : list update) keys : view_ s = Some v → ∀ before (d : valueDict),
  (∀ k, k ∈ keys → is_Some (prefix_of (keyspaceNameToPrefixes_ s) k.1 k.2)) →
  (∀ id, tells (keyspaceNameToPrefixes_ s) id (contents v) (us ++ [KeyUpdates before]) (d !! id)) →
  ∃ d', foldM key_changed keys d s = (Ret d', s) ∧
    ∀ id, tells (keyspaceNameToPrefixes_ s) id (contents v) (us ++ [KeyUpdates (before ++ keys)])
      (d' !! id).
Proof.
  intros Hv. induction keys as [|key keys IH]; intros before d Hk Hd.
  - exists d. split; [done|]. by rewrite app_nil_r.
  - destruct (Hk key) as [p Hp]; [left|].
    edestruct (IH (before ++ [key])) as (d' & Hd' & Ht).
    { intros k Hin. apply Hk. by right. }
    { by apply tells_key. }
    exists d'. rewrite <- app_assoc in Ht. split; [|exact Ht].
    cbn [foldM]. by step (key_changed_ok d key s v p Hv Hp).
Qed.

(** What reading updates leaves alone. *)
Definition reads (s s' : synchronizer) : Prop :=
  keyspaceListenersByKeyspaceAndPrefix_ s' = keyspaceListenersByKeyspaceAndPrefix_ s ∧
  keyspaceListenersHaveHadFirstLoad_ s' = keyspaceListenersHaveHadFirstLoad_ s ∧
  valuesByKeyspaceAndPrefix_ s' = valuesByKeyspaceAndPrefix_ s ∧
  keyspaceNameToPrefixes_ s' = keyspaceNameToPrefixes_ s ∧ calls s' = calls s.

Lemma reads_trans s1 s2 s3 : reads s1 s2 → reads s2 s3 → reads s1 s3.
Proof. unfold reads. intuition congruence. Qed.

Lemma one_update_ok (s : synchronizer) (v : view) (us : list update) (u : update) (d : valueDict) :
  view_ s = Some v → keys_covered (keyspaceNameToPrefixes_ s) u →
  (∀ id, tells (keyspaceNameToPrefixes_ s) id (contents v) us (d !! id)) →
  ∃ d' s', one_update d u s = (Ret d', s') ∧ view_ s' = Some v ∧ reads s s' ∧
    ∀ id, tells (keyspaceNameToPrefixes_ s) id (contents v) (us ++ [u]) (d' !! id).
Proof.
  intros Hv Hu Hd. destruct u as [keys|n l].
  - destruct (fold_keys_ok s v us keys Hv [] d Hu) as (d' & Hd' & Ht).
    { intros id. specialize (Hd id). unfold tells in *. rewrite existsb_app, foldl_snoc. cbn.
      by rewrite orb_false_r, app_nil_r. }
    exists d', s. split_ands; [exact Hd'|done|by repeat split|exact Ht].
  - assert (∃ s', one_update d (SubscriptionStart n l) s = (Ret (<[(n, l):=∅]> d), s') ∧
      view_ s' = Some v ∧ reads s s') as (s' & H1 & H2 & H3).
    { cbn. unfold subscription_started, mbind, M_bind, modify, get. cbn.
      destruct (unwrittenValuesByKeyspaceAndPrefix_ s !! (n, l)) as [ws|]; cbn;
        eexists; (split; [reflexivity|]); (split; [done|by repeat split]). }
    exists (<[(n, l):=∅]> d), s'. split_ands; [done|done|done|]. intros id. specialize (Hd id).
    rewrite lookup_insert. unfold tells in *. rewrite existsb_app, foldl_snoc. cbn.
    destruct (decide ((n, l) = id)) as [->|Hne].
    + rewrite bool_decide_eq_true_2, orb_true_r by done. split; [done|]. intros k x.
      rewrite lookup_empty. split; [done|]. by intros [_ ?%not_elem_of_nil].
    + rewrite bool_decide_eq_false_2 by done. by rewrite !orb_false_r.
Qed.

Lemma fold_updates_ok (b : list update) : ∀ (s : synchronizer) (v : view) (us : list update) (d : valueDict),
  view_ s = Some v → Forall (keys_covered (keyspaceNameToPrefixes_ s)) b →
  (∀ id, tells (keyspaceNameToPrefixes_ s) id (contents v) us (d !! id)) →
  ∃ d' s', foldM one_update b d s = (Ret d', s') ∧ view_ s' = Some v ∧ reads s s' ∧
    ∀ id, tells (keyspaceNameToPrefixes_ s) id (contents v) (us ++ b) (d' !! id).
Proof.
  induction b as [|u b IH]; intros s v us d Hv Hb Hd.
  - exists d, s. rewrite app_nil_r. split_ands; [done|done|by repeat split|done].
  - apply Forall_cons in Hb as [Hu Hb].
    destruct (one_update_ok s v us u d Hv Hu Hd) as (d1 & s1 & H1 & Hv1 & Hr1 & Ht1).
    assert (Hp : keyspaceNameToPrefixes_ s1 = keyspaceNameToPrefixes_ s) by apply Hr1.
    rewrite <- Hp in Hb, Ht1.
    destruct (IH s1 v (us ++ [u]) d1 Hv1 Hb Ht1) as (d2 & s2 & H2 & Hv2 & Hr2 & Ht2).
    exists d2, s2. rewrite Hp, <- app_assoc in Ht2. split_ands; [|done|by eapply reads_trans|done].
    cbn [foldM]. by step H1.
Qed.

(** The batches that one update reads, and those that it leaves. *)
Fixpoint consumed (bs : list (list update)) : list update * list (list update) :=
  match bs with
  | [] => ([], [])
  | b :: bs =>
      if batch_done b then (b, bs)
      else let (us, rest) := consumed bs in (b ++ us, rest)
  end.

Definition with_available (bs : list (list update)) (v : view) : view :=
  View (contents v) bs (future v) (aborts v) (disconnects_after v) (subscribed v) (committed v)
    (flushed v).

Lemma read_updates_ok fuel : ∀ (s : synchronizer) (v : view) (us : list update) (d : valueDict),
  view_ s = Some v → length (available v) < fuel →
  Forall (keys_covered (keyspaceNameToPrefixes_ s)) (consumed (available v)).1 →
  (∀ id, tells (keyspaceNameToPrefixes_ s) id (contents v) us (d !! id)) →
  ∃ d' s', read_updates fuel d s = (Ret d', s') ∧
    view_ s' = Some (with_available (consumed (available v)).2 v) ∧ reads s s' ∧
    ∀ id, tells (keyspaceNameToPrefixes_ s) id (contents v) (us ++ (consumed (available v)).1) (d' !! id).
Proof.
  induction fuel as [|fuel IH]; intros s v us d Hv Hf Hc Hd; [lia|]. cbn [read_updates].
  unfold getNonblock. rewrite bind_assoc. step (the_view_ok _ _ Hv).
  destruct (available v) as [|b bs] eqn:Hav; cbn [consumed] in *.
  - rewrite bind_ret_l. exists d, s. rewrite app_nil_r. split_ands; [done| |by repeat split|done].
    rewrite Hv. f_equal. unfold with_available. cbn [snd]. rewrite <- Hav. by destruct v.
  - rewrite bind_assoc. erewrite bind_step by reflexivity. rewrite bind_ret_l.
    set (v1 := View _ _ _ _ _ _ _ _). set (s1 := set_view v1 s).
    assert (Hcov : Forall (keys_covered (keyspaceNameToPrefixes_ s1)) b).
    { destruct (batch_done b); [exact Hc|]. destruct (consumed bs) as [us' r].
      by apply Forall_app in Hc as [? _]. }
    destruct (fold_updates_ok b s1 v1 us d eq_refl Hcov Hd) as (d1 & s2 & H1 & Hv1 & Hr1 & Ht1).
    step H1. destruct (batch_done b) eqn:Hdone.
    + exists d1, s2. split_ands; [done|done| |done]. eapply reads_trans; [|exact Hr1].
      by repeat split.
    + destruct (consumed bs) as [us' rest] eqn:Hcb. cbn [fst snd] in *.
      assert (Hp : keyspaceNameToPrefixes_ s2 = keyspaceNameToPrefixes_ s) by apply Hr1.
      destruct (IH s2 v1 (us ++ b) d1) as (d2 & s3 & H2 & Hv2 & Hr2 & Ht2).
      { done. } { cbn in *. lia. }
      { cbn. rewrite Hcb, Hp. cbn. by apply Forall_app in Hc as [_ ?]. }
      { by rewrite Hp. }
      cbn in Hv2, Ht2. rewrite Hcb in Hv2, Ht2. cbn in Hv2, Ht2. rewrite Hp, <- app_assoc in Ht2.
      exists d2, s3. split_ands; [done|done| |done].
      eapply reads_trans; [|eapply reads_trans; [exact Hr1|exact Hr2]]. by repeat split.
Qed.

(** *** Delivery *)

(** The calls for one entry of [valueDict]. *)
Definition told (s : synchronizer) (x : lookupId * gmap keyname string)
    : list (listener * gmap keyname string * bool) :=
  match keyspaceListenersByKeyspaceAndPrefix_ s !! x.1 with
  | None => []
  | Some listeners =>
      (λ l, (l, x.2, bool_decide (x.1 ∉ keyspaceListenersHaveHadFirstLoad_ s))) <$>
        elements listeners
  end.

Record delivered (s s' : synchronizer) (l : list (lookupId * gmap keyname string)) : Prop := {
  del_view : view_ s' = view_ s;
  del_listeners : keyspaceListenersByKeyspaceAndPrefix_ s' = keyspaceListenersByKeyspaceAndPrefix_ s;
  del_dom : dom (valuesByKeyspaceAndPrefix_ s') = dom (valuesByKeyspaceAndPrefix_ s);
  del_first : ∀ id, id ∈ keyspaceListenersHaveHadFirstLoad_ s' ↔
    id ∈ keyspaceListenersHaveHadFirstLoad_ s ∨
    (id ∈ l.*1 ∧ is_Some (keyspaceListenersByKeyspaceAndPrefix_ s !! id));
  del_calls : calls s' = calls s ++ concat (told s <$> l);
  del_told : ∀ id m, (id, m) ∈ l → is_Some (keyspaceListenersByKeyspaceAndPrefix_ s !! id) →
    valuesByKeyspaceAndPrefix_ s' !! id = (λ old, m ∪ old) <$> valuesByKeyspaceAndPrefix_ s !! id;
  del_others : ∀ id, id ∉ l.*1 → valuesByKeyspaceAndPrefix_ s' !! id = valuesByKeyspaceAndPrefix_ s !! id }.

Lemma keysLoaded_all (m : gmap keyname string) f ls : ∀ s,
  ∃ s', forM_ (λ l, keysLoaded l m f) ls s = (Ret tt, s') ∧ view_ s' = view_ s ∧
    keyspaceListenersByKeyspaceAndPrefix_ s' = keyspaceListenersByKeyspaceAndPrefix_ s ∧
    keyspaceListenersHaveHadFirstLoad_ s' = keyspaceListenersHaveHadFirstLoad_ s ∧
    valuesByKeyspaceAndPrefix_ s' = valuesByKeyspaceAndPrefix_ s ∧
    calls s' = calls s ++ ((λ l, (l, m, f)) <$> ls).
Proof.
  induction ls as [|l ls IH]; intros s.
  - exists s. rewrite app_nil_r. by split_ands.
  - rewrite forM__cons. erewrite bind_step by reflexivity.
    destruct (IH (keysLoaded l m f s).2) as (s' & H & Hv & Hl & Hf & Hval & Hc).
    exists s'. split_ands; [exact H|done|done|done|done|]. rewrite Hc. cbn. by rewrite <- app_assoc.
Qed.

Lemma deliver_ok (s : synchronizer) (id : lookupId) (m : gmap keyname string) :
  dom (keyspaceListenersByKeyspaceAndPrefix_ s) ⊆ dom (valuesByKeyspaceAndPrefix_ s) →
  ∃ s', deliver (id, m) s = (Ret tt, s') ∧ delivered s s' [(id, m)].
Proof.
  intros Hdom. unfold deliver. erewrite bind_step by reflexivity. cbn [fst snd].
  destruct (keyspaceListenersByKeyspaceAndPrefix_ s !! id) as [ls|] eqn:Hls.
  2: { exists s. split; [done|]. split; try done; cbn.
       - intros i. split; [by left|]. intros [?|[Hi [? Hi']]]; [done|].
         apply list_elem_of_singleton in Hi as ->. congruence.
       - unfold told. cbn. by rewrite Hls, !app_nil_r.
       - intros i m' Hi [x Hx]. apply list_elem_of_singleton in Hi. by simplify_eq. }
  set (isf := bool_decide _).
  assert (∃ s1, when isf (modify (add_first_load id)) s = (Ret tt, s1) ∧
    s1 = (if isf then add_first_load id s else s)) as (s1 & Hw & Hs1).
  { destruct isf; by eexists. }
  step Hw. destruct (keysLoaded_all m isf (elements ls) s1) as (s2 & H2 & Hv & Hl & Hf & Hval & Hc).
  step H2. erewrite bind_step by reflexivity.
  assert (is_Some (valuesByKeyspaceAndPrefix_ s !! id)) as [old Hold].
  { apply elem_of_dom, Hdom, elem_of_dom. eauto. }
  assert (Hval' : valuesByKeyspaceAndPrefix_ s2 = valuesByKeyspaceAndPrefix_ s)
    by (rewrite Hval, Hs1; by destruct isf).
  rewrite Hval', Hold. eexists. split; [reflexivity|].
  split; cbn [view_ keyspaceListenersByKeyspaceAndPrefix_ valuesByKeyspaceAndPrefix_ calls
    keyspaceListenersHaveHadFirstLoad_ set_values].
  - rewrite Hv, Hs1. by destruct isf.
  - rewrite Hl, Hs1. by destruct isf.
  - rewrite dom_insert_L. apply subseteq_union_1_L. intros i ->%elem_of_singleton.
    apply elem_of_dom. eauto.
  - intros i. rewrite Hf, Hs1. unfold isf. cbn. rewrite list_elem_of_singleton.
    destruct (decide (id ∈ keyspaceListenersHaveHadFirstLoad_ s)) as [Hin|Hin].
    + rewrite bool_decide_eq_false_2 by auto. split; [by left|]. intros [?|[-> _]]; done.
    + rewrite bool_decide_eq_true_2 by done. cbn. rewrite elem_of_union, elem_of_singleton.
      split; [intros [->|?]; [right|by left]|intros [?|[-> _]]; auto]. eauto.
  - rewrite Hc. assert (calls s1 = calls s) as -> by (rewrite Hs1; by destruct isf).
    unfold told. cbn. by rewrite Hls, app_nil_r.
  - intros i m' Hi _. apply list_elem_of_singleton in Hi. simplify_eq.
    by rewrite lookup_insert_eq, Hold.
  - intros i Hi. cbn in Hi. rewrite list_elem_of_singleton in Hi. by rewrite lookup_insert_ne by auto.
Qed.

Lemma deliver_all_ok l : ∀ s,
  NoDup l.*1 → dom (keyspaceListenersByKeyspaceAndPrefix_ s) ⊆ dom (valuesByKeyspaceAndPrefix_ s) →
  ∃ s', forM_ deliver l s = (Ret tt, s') ∧ delivered s s' l.
Proof.
  induction l as [|[id m] l IH]; intros s Hnd Hdom.
  - exists s. split; [done|]. split; try done; cbn; intros.
    + split; [by left|]. by intros [?|[?%not_elem_of_nil _]].
    + by rewrite app_nil_r.
    + by apply not_elem_of_nil in H.
  - cbn in Hnd. apply NoDup_cons in Hnd as [Hid Hnd].
    destruct (deliver_ok s id m Hdom) as (s1 & H1 & D1).
    destruct (IH s1) as (s2 & H2 & D2); [done|by rewrite (del_listeners _ _ _ D1), (del_dom _ _ _ D1)|].
    exists s2. split; [rewrite forM__cons; by step H1|].
    assert (Htold : ∀ x, x ∈ l → told s1 x = told s x).
    { intros [i m'] Hx. unfold told. rewrite (del_listeners _ _ _ D1). cbn [fst snd].
      destruct (keyspaceListenersByKeyspaceAndPrefix_ s !! i); [|done]. apply list_fmap_ext.
      intros _ l' _. f_equal. apply bool_decide_ext. rewrite (del_first _ _ _ D1). cbn.
      rewrite list_elem_of_singleton. split; [intros Hn ?; apply Hn; by left|].
      intros Hn [?|[-> _]]; [done|]. apply Hid. apply (list_elem_of_fmap_2 fst _ _ Hx). }
    split.
    + by rewrite (del_view _ _ _ D2), (del_view _ _ _ D1).
    + by rewrite (del_listeners _ _ _ D2), (del_listeners _ _ _ D1).
    + by rewrite (del_dom _ _ _ D2), (del_dom _ _ _ D1).
    + intros i. rewrite (del_first _ _ _ D2), (del_first _ _ _ D1), (del_listeners _ _ _ D1).
      cbn. set_solver.
    + rewrite (del_calls _ _ _ D2), (del_calls _ _ _ D1). cbn. rewrite app_nil_r, <- app_assoc.
      do 3 f_equal. apply list_fmap_ext. intros i x Hx. apply Htold. by eapply list_elem_of_lookup_2.
    + intros i m' [[= -> ->]|Hi]%elem_of_cons Hls.
      * rewrite (del_others _ _ _ D2) by done. apply (del_told _ _ _ D1); [left|done].
      * rewrite (del_told _ _ _ D2 i m') by (by rewrite ?(del_listeners _ _ _ D1)).
        rewrite (del_others _ _ _ D1); [done|]. cbn. rewrite list_elem_of_singleton. intros ->.
        apply Hid. apply (list_elem_of_fmap_2 fst _ _ Hi).
    + intros i Hi. cbn in Hi. apply not_elem_of_cons in Hi as [Hne Hi].
      rewrite (del_others _ _ _ D2) by done. apply (del_others _ _ _ D1).
      cbn. by rewrite list_elem_of_singleton.
Qed.

(** *** Commits never raise *)

Lemma writeValue_ok w s v :
  view_ s = Some v →
  (disconnects_after v = Some O ∧ writeValue_ w s = (Raise UserWarning, s)) ∨
  (∃ v', writeValue_ w s = (Ret tt, set_view v' s) ∧ available v' = available v ∧
     committed v' = committed v ++ [w] ∧ disconnects_after v' = pred <$> disconnects_after v).
Proof.
  intros Hv. unfold writeValue_. destruct (disconnects_after v) as [[|n]|] eqn:Hd.
  - left. split; [done|]. step (the_view_ok _ _ Hv). by rewrite Hd.
  - right. eexists. split; [step (the_view_ok _ _ Hv); rewrite Hd; reflexivity|]. by cbn.
  - right. eexists. split; [step (the_view_ok _ _ Hv); rewrite Hd; reflexivity|]. by cbn.
Qed.

(** A step that changes the view and the pending writes at most. *)
Definition writes_only (s s' : synchronizer) : Prop :=
  ∃ v ws, s' = set_pending ws (set_view v s).

(** The channel takes the first writes; it disconnects before the others. *)
Definition taken (v v' : view) (ws : list write) (k : nat) : Prop :=
  available v' = available v ∧ committed v' = committed v ++ take k ws ∧
  (disconnects_after v = None → disconnects_after v' = None) ∧
  (disconnects_after v = Some 0 → k = 0).

Lemma writes_ok ws : ∀ s v, view_ s = Some v →
  ∃ v' e k, forM_ writeValue_ ws s = (e, set_view v' s) ∧ taken v v' ws k ∧
    (e = Ret tt ∧ k = length ws ∨
     e = Raise UserWarning ∧ k < length ws ∧ disconnects_after v' = Some 0).
Proof.
  induction ws as [|w ws IH]; intros s v Hv.
  - exists v, (Ret tt), 0. split_ands; [|unfold taken; split_ands; try done; cbn; by rewrite app_nil_r|by left].
    unfold set_view. cbn. rewrite <- Hv. by destruct s.
  - rewrite forM__cons. destruct (writeValue_ok w s v Hv) as [[Hd Hw]|(v1 & Hw & Ha & Hc & Hd)].
    + exists v, (Raise UserWarning), 0. split_ands.
      * unfold mbind, M_bind. rewrite Hw. f_equal. unfold set_view. cbn. rewrite <- Hv. by destruct s.
      * unfold taken. split_ands; try done. cbn. by rewrite app_nil_r.
      * right. split_ands; [done|cbn; lia|done].
    + assert (Hne : disconnects_after v ≠ Some 0).
      { intros Hz. unfold writeValue_ in Hw. rewrite (bind_step _ _ _ _ _ (the_view_ok _ _ Hv)), Hz in Hw. done. }
      step Hw. destruct (IH (set_view v1 s) v1 eq_refl) as (v2 & e & k & H2 & (Ha2 & Hc2 & Hn2 & _) & Hcase).
      exists v2, e, (S k). split_ands; [exact H2| |].
      * unfold taken. split_ands; [congruence| |intros Hn; apply Hn2; by rewrite Hd, Hn|done].
        rewrite Hc2, Hc, <- app_assoc. done.
      * destruct Hcase as [[-> ->]|(-> & Hk & Hz)]; [by left|right]. split_ands; [done|cbn; lia|done].
Qed.

Lemma commit_ok s v : view_ s = Some v →
  ∃ v' ws k, commitPendingWrites s = (Ret tt, set_pending ws (set_view v' s)) ∧
    available v' = available v ∧ taken v v' (pendingWrites_ s) k ∧
    (ws = [] ∧ k = length (pendingWrites_ s) ∨
     ws = pendingWrites_ s ∧ k < length (pendingWrites_ s) ∧ disconnects_after v' = Some 0).
Proof.
  intros Hv. unfold commitPendingWrites, catch. rewrite (bind_step _ _ _ _ _ (eq_refl : get s = (Ret s, s))).
  destruct (pendingWrites_ s) as [|w ws] eqn:Hp.
  - exists v, [], 0. split_ands; [|done|unfold taken; split_ands; try done; cbn; by rewrite app_nil_r|by left].
    unfold mret, M_ret. f_equal. unfold set_pending, set_view. cbn. rewrite <- Hv, <- Hp. by destruct s.
  - destruct (writes_ok (w :: ws) s v Hv) as (v' & e & k & He & Ht & Hcase). pose proof Ht as (Ha & _).
    destruct Hcase as [[-> Hk]|(-> & Hk & Hz)].
    + exists v', [], k. split_ands; [|done|done|by left]. rewrite (bind_step _ _ _ _ _ He). reflexivity.
    + exists v', (pendingWrites_ s), k. split_ands; [|done|done|rewrite Hp; by right].
      unfold mbind, M_bind. rewrite He. by rewrite bool_decide_eq_true_2 by done.
Qed.

(** C14. What listeners are told: an update of a synchronizer that has a view, when
    every updated key lies under a subscribed prefix, never raises (also when the
    channel disconnects during its writes). It reads the batches up to the first
    one without updates of keys, and every listener of a prefix that these mention
    is called once, with exactly the values that the view then has for the keys
    updated since the last start of that subscription, and with the flag of an
    initial load if and only if no call was made for the prefix before; the values
    kept for the prefix are extended by the same dict. Prefixes that are not
    mentioned are left alone. *)
Theorem listeners_are_told s v :
  view_ s = Some v →
  dom (keyspaceListenersByKeyspaceAndPrefix_ s) ⊆ dom (valuesByKeyspaceAndPrefix_ s) →
  Forall (keys_covered (keyspaceNameToPrefixes_ s)) (consumed (available v)).1 →
  ∃ s' v' (d : valueDict), updateKeysAndKeyspaces_ s = (Ret tt, s') ∧ view_ s' = Some v' ∧
    available v' = (consumed (available v)).2 ∧
    (∀ id, tells (keyspaceNameToPrefixes_ s) id (contents v') (consumed (available v)).1 (d !! id)) ∧
    calls s' = calls s ++ concat (told s <$> map_to_list d) ∧
    (∀ id, id ∈ keyspaceListenersHaveHadFirstLoad_ s' ↔
       id ∈ keyspaceListenersHaveHadFirstLoad_ s ∨
       (is_Some (d !! id) ∧ is_Some (keyspaceListenersByKeyspaceAndPrefix_ s !! id))) ∧
    (∀ id m, d !! id = Some m → is_Some (keyspaceListenersByKeyspaceAndPrefix_ s !! id) →
       valuesByKeyspaceAndPrefix_ s' !! id = (λ old, m ∪ old) <$> valuesByKeyspaceAndPrefix_ s !! id) ∧
    (∀ id, d !! id = None → valuesByKeyspaceAndPrefix_ s' !! id = valuesByKeyspaceAndPrefix_ s !! id).
Proof.
  intros Hv Hdom Hcov. destruct (commit_ok s v Hv) as (v1 & ws & k & Hcommit & Hav & _).
  set (s1 := set_pending ws (set_view v1 s)) in *.
  assert (Hd0 : ∀ id, tells (keyspaceNameToPrefixes_ s1) id (contents v1) [] ((∅ : valueDict) !! id)).
  { intros id. by rewrite lookup_empty. }
  destruct (read_updates_ok (S (length (available v1))) s1 v1 [] ∅) as (d & s2 & Hread & Hv2 & Hr & Ht);
    [done|lia|by rewrite Hav|done|].
  destruct Hr as (Hl & Hf & Hval & Hp & Hc).
  destruct (deliver_all_ok (map_to_list d) s2) as (s3 & Hdel & D).
  { apply NoDup_fst_map_to_list. }
  { by rewrite Hl, Hval. }
  assert (Hids : ∀ id, id ∈ (map_to_list d).*1 ↔ is_Some (d !! id)).
  { intros id. rewrite list_elem_of_fmap. split.
    - intros ([i m] & -> & Hi%elem_of_map_to_list). eauto.
    - intros [m Hm]. exists (id, m). split; [done|by apply elem_of_map_to_list]. }
  exists s3, (with_available (consumed (available v1)).2 v1), d. rewrite Hav in *.
  split_ands.
  - unfold updateKeysAndKeyspaces_. step Hcommit. step (the_view_ok s1 v1 eq_refl).
    rewrite Hav. by step Hread.
  - by rewrite (del_view _ _ _ D).
  - done.
  - exact Ht.
  - rewrite (del_calls _ _ _ D), Hc. f_equal. f_equal. apply list_fmap_ext. intros i x _.
    unfold told. by rewrite Hl, Hf.
  - intros id. by rewrite (del_first _ _ _ D), Hids, Hl, Hf.
  - intros id m Hm Hls. rewrite (del_told _ _ _ D id m); [by rewrite Hval| |by rewrite Hl].
    by apply elem_of_map_to_list.
  - intros id Hn. rewrite (del_others _ _ _ D); [by rewrite Hval|]. rewrite Hids, Hn. by intros [].
Qed.

(** ** Writes *)

(** What a client asks of the synchronizer. *)
Inductive request :=
| Write (keyspaceName : string) (keyName : keyname) (value : string)
| AddListener (keyspaceName : string) (l : listener) (keyPrefix : keyname)
    (blockUntilLoaded assertAlreadyLoaded : bool)
| Update
| Commit
| Wait (id : lookupId)
| Flush.

Definition serve (r : request) : M synchronizer unit :=
  match r with
  | Write n k v => writeValue n k v
  | AddListener n l p b a => addKeyspaceListener n l p b a
  | Update => update_all
  | Commit => commitPendingWrites
  | Wait id => waitForKeyspaceAndPrefix id
  | Flush => flush
  end.

(** The writes that were accepted; a client goes on after an exception. *)
Fixpoint serve_all (rs : list request) (s : synchronizer) : list write * synchronizer :=
  match rs with
  | [] => ([], s)
  | r :: rs =>
      let (e, s) := serve r s in
      let (ws, s) := serve_all rs s in
      (match r, e with Write n k v, Ret _ => [((n, k), v)] | _, _ => [] end ++ ws, s)
  end.

Definition waiting (s : synchronizer) : list write :=
  mjoin (map_to_list (unwrittenValuesByKeyspaceAndPrefix_ s)).*2.

(** The writes [ws] were accepted, and each is committed, pending or waiting for its
    prefix, exactly one of these; but for the first [k] pending ones, which were
    committed before the channel disconnected. *)
Definition accounted (ws : list write) (s : synchronizer) : Prop :=
  ∃ v k, view_ s = Some v ∧ k ≤ length (pendingWrites_ s) ∧
    (k ≠ 0 → disconnects_after v = Some 0) ∧
    take k (pendingWrites_ s) `suffix_of` committed v ∧
    ws ≡ₚ committed v ++ drop k (pendingWrites_ s) ++ waiting s.

(** All waiting writes but those of [id]. *)
Definition other_waiting (m : gmap lookupId (list write)) (id : lookupId) : list write :=
  mjoin (map_to_list (delete id m)).*2.

Lemma waiting_split (m : gmap lookupId (list write)) (id : lookupId) :
  mjoin (map_to_list m).*2 ≡ₚ default [] (m !! id) ++ other_waiting m id.
Proof.
  unfold other_waiting. destruct (m !! id) as [ws|] eqn:Hid; cbn [default].
  - by rewrite <- (map_to_list_delete m id ws Hid).
  - by rewrite delete_id.
Qed.

Lemma waiting_insert (m : gmap lookupId (list write)) (id : lookupId) (ws : list write) :
  mjoin (map_to_list (<[id := ws]> m)).*2 ≡ₚ ws ++ other_waiting m id.
Proof.
  rewrite (waiting_split _ id), lookup_insert_eq. cbn. unfold other_waiting. by rewrite delete_insert_eq.
Qed.

(** Every computation keeps the account. *)
Section accounts.
Context (ws : list write).

Lemma accounted_frame s s' :
  view_ s' = view_ s → pendingWrites_ s' = pendingWrites_ s →
  unwrittenValuesByKeyspaceAndPrefix_ s' = unwrittenValuesByKeyspaceAndPrefix_ s →
  accounted ws s → accounted ws s'.
Proof.
  intros Hv Hp Hu (v & k & H1 & Hk & H2 & Hs & H3). exists v, k. unfold waiting in *. rewrite Hv, Hp, Hu.
  by split_ands.
Qed.

Lemma accounted_modify f :
  (∀ s, view_ (f s) = view_ s ∧ pendingWrites_ (f s) = pendingWrites_ s ∧
    unwrittenValuesByKeyspaceAndPrefix_ (f s) = unwrittenValuesByKeyspaceAndPrefix_ s) →
  keeps (accounted ws) (modify f).
Proof. intros Hf. apply keeps_modify. intros s. destruct (Hf s) as (?&?&?). by apply accounted_frame. Qed.

Lemma accounted_the_view : keeps (accounted ws) the_view.
Proof. by intros s Hs. Qed.
Lemma accounted_prefixFor n k : keeps (accounted ws) (prefixFor_ n k).
Proof. by intros s Hs. Qed.

(** The view may change, but for what was committed and the connection. *)
Lemma accounted_update_view f :
  (∀ v, committed (f v) = committed v ∧ disconnects_after (f v) = disconnects_after v) →
  keeps (accounted ws) (update_view f).
Proof.
  intros Hf s (v & k & Hv & Hp). unfold update_view. step (the_view_ok _ _ Hv). cbn.
  destruct (Hf v) as [Hc Hd']. exists (f v), k. by rewrite Hc, Hd'.
Qed.

Lemma accounted_set_view v0 f :
  (∀ v, committed (f v) = committed v ∧ disconnects_after (f v) = disconnects_after v) →
  ∀ s, view_ s = Some v0 → accounted ws s → accounted ws (set_view (f v0) s).
Proof.
  intros Hf s Hv (v & k & Hv' & Hp). assert (v = v0) as -> by congruence.
  destruct (Hf v0) as [Hc Hd']. exists (f v0), k. by rewrite Hc, Hd'.
Qed.

Lemma accounted_commit : keeps (accounted ws) commitPendingWrites.
Proof.
  intros s (v & k & Hv & Hk & Hd & Hsuf & Hp).
  destruct (commit_ok s v Hv) as (v' & ps & j & Hc & _ & (_ & Hcv & _ & Hz) & Hcase).
  rewrite Hc. cbn [snd]. destruct (decide (k = 0)) as [->|Hk0].
  - destruct Hcase as [[-> ->]|(-> & Hj & Hd')].
    + exists v', 0. split_ands; [done|done|done|by apply suffix_nil|]. cbn.
      by rewrite Hcv, firstn_all, <- app_assoc.
    + exists v', j. split_ands; [done|cbn; lia|done|by exists (committed v)|]. cbn.
      by rewrite Hcv, <- app_assoc, (app_assoc (take _ _)), take_drop.
  - rewrite (Hz (Hd Hk0)) in *. rewrite take_0, app_nil_r in Hcv.
    destruct Hcase as [[_ H0]|(-> & _ & Hd')]; [lia|]. exists v', k. rewrite Hcv. by split_ands.
Qed.

Lemma accounted_started d n l : keeps (accounted ws) (subscription_started d n l).
Proof.
  intros s Hs. unfold subscription_started, modify, mbind, M_bind, get, mret, M_ret.
  cbn -[waiting mjoin].
  destruct (unwrittenValuesByKeyspaceAndPrefix_ s !! (n, l)) as [us|] eqn:Hu; cbn -[waiting mjoin];
    [|by eapply accounted_frame].
  destruct Hs as (v & k & Hv & Hk & Hd & Hsuf & Hp). exists v, k. cbn.
  rewrite length_app, take_app_le, drop_app_le by done. split_ands; [done|lia|done|done|]. rewrite Hp.
  unfold waiting at 1. rewrite (waiting_split _ (n, l)), Hu. cbn -[mjoin].
  by rewrite <- !app_assoc.
Qed.

Lemma accounted_getNonblock : keeps (accounted ws) getNonblock.
Proof.
  intros s Hs. pose proof Hs as (v & ? & Hv & _). unfold getNonblock. step (the_view_ok _ _ Hv).
  destruct (available v) as [|b bs]; [done|]. erewrite bind_step by reflexivity. cbn [snd].
  by apply (accounted_set_view v (λ v, View (contents v) bs (future v) (aborts v)
    (disconnects_after v) (subscribed v) (committed v) (flushed v))).
Qed.

Lemma accounted_foldM {A B} (f : B → A → M synchronizer B) l :
  (∀ b x, keeps (accounted ws) (f b x)) → ∀ b, keeps (accounted ws) (foldM f l b).
Proof.
  intros Hf. induction l as [|x l IH]; intros b; cbn [foldM]; [apply keeps_ret|].
  apply keeps_bind; [apply Hf|apply IH].
Qed.

Lemma accounted_wait : keeps (accounted ws) wait.
Proof.
  intros s Hs. pose proof Hs as (v & ? & Hv & _). unfold wait. step (the_view_ok _ _ Hv).
  destruct (future v) as [|b bs]; [done|]. cbn [snd].
  by apply (accounted_set_view v (λ v, View (contents v) (available v ++ b) bs (aborts v)
    (disconnects_after v) (subscribed v) (committed v) (flushed v))).
Qed.

#[local] Hint Resolve accounted_the_view accounted_prefixFor accounted_commit accounted_started
  accounted_getNonblock accounted_wait : keeps_db.

Ltac accounted_tac := repeat first
  [ solve [auto with keeps_db]
  | apply accounted_modify; intros ?; done
  | apply accounted_update_view; intros ?; done
  | apply accounted_foldM | apply keeps_forM_ | apply keeps_bind
  | match goal with
    | |- ∀ _, _ => intros ?
    | |- keeps _ (match ?x with _ => _ end) => destruct x
    | |- keeps _ (if ?x then _ else _) => destruct x
    end ].

Lemma accounted_one_update d u : keeps (accounted ws) (one_update d u).
Proof. unfold one_update, key_changed. accounted_tac. Qed.
#[local] Hint Resolve accounted_one_update : keeps_db.

Lemma accounted_read_updates fuel : ∀ d, keeps (accounted ws) (read_updates fuel d).
Proof. induction fuel as [|fuel IH]; intros d; cbn [read_updates]; accounted_tac. Qed.

Lemma accounted_deliver x : keeps (accounted ws) (deliver x).
Proof. unfold deliver, keysLoaded. accounted_tac. Qed.
#[local] Hint Resolve accounted_read_updates accounted_deliver : keeps_db.

Lemma accounted_thaw codes : keeps (accounted ws) (thaw codes).
Proof. induction codes as [|c codes IH]; cbn [thaw]; accounted_tac. Qed.
#[local] Hint Resolve accounted_thaw : keeps_db.

Lemma accounted_update : keeps (accounted ws) update_all.
Proof. unfold update_all, updateKeysAndKeyspaces_. accounted_tac. Qed.
#[local] Hint Resolve accounted_update : keeps_db.

Lemma accounted_wait_loop fuel id : keeps (accounted ws) (wait_loop fuel id).
Proof. induction fuel as [|fuel IH]; cbn [wait_loop]; accounted_tac. Qed.
#[local] Hint Resolve accounted_wait_loop : keeps_db.

Lemma accounted_waitFor id : keeps (accounted ws) (waitForKeyspaceAndPrefix id).
Proof. unfold waitForKeyspaceAndPrefix. accounted_tac. Qed.
#[local] Hint Resolve accounted_waitFor : keeps_db.

Lemma accounted_flush_loop fuel : keeps (accounted ws) (flush_loop fuel).
Proof. induction fuel as [|fuel IH]; cbn [flush_loop]; accounted_tac. Qed.
#[local] Hint Resolve accounted_flush_loop : keeps_db.

Lemma accounted_serve r :
  match r with Write _ _ _ => True | _ => keeps (accounted ws) (serve r) end.
Proof.
  destruct r; cbn [serve]; [done|..]; auto with keeps_db.
  - unfold addKeyspaceListener, ensureMarkedLoaded, keysLoaded, when. accounted_tac.
  - unfold flush. accounted_tac.
Qed.
End accounts.

Lemma accounted_write ws n k x s r s' :
  accounted ws s → writeValue n k x s = (r, s') →
  accounted (match r with Ret _ => ws ++ [((n, k), x)] | Raise _ => ws end) s'.
Proof.
  intros Hs H. unfold writeValue in H. pose proof (prefixFor_ok n k s) as Hp.
  destruct (prefix_of (keyspaceNameToPrefixes_ s) n k) as [p|]; cbn in Hp.
  2: { unfold mbind, M_bind in H. rewrite Hp in H. by simplify_eq. }
  rewrite (bind_step _ _ _ _ _ Hp) in H.
  set (id := (n, Some p)) in *. rewrite (bind_step _ _ _ _ _ (eq_refl : get s = (Ret s, s))) in H.
  destruct (bool_decide (is_Some (keyspaceListenersByKeyspaceAndPrefix_ s !! id)));
    [|unfold mbind, M_bind, lift in H; cbn in H; by simplify_eq].
  erewrite bind_step in H by reflexivity. destruct Hs as (v & j & Hv & Hj & Hd & Hsuf & Hperm).
  case_bool_decide; unfold modify in H; simplify_eq; exists v, j.
  - unfold waiting in *. cbn -[mjoin]. rewrite length_app, take_app_le, drop_app_le by done.
    split_ands; [done|lia|done|done|]. rewrite Hperm, <- !app_assoc. do 2 f_equiv.
    apply Permutation_app_comm.
  - split_ands; [done|done|done|done|]. unfold waiting in *. cbn -[mjoin]. rewrite waiting_insert, Hperm, (waiting_split _ id).
    rewrite <- !app_assoc. do 3 f_equiv. apply Permutation_app_comm.
Qed.

Lemma serve_all_accounted rs : ∀ ws s, accounted ws s →
  accounted (ws ++ (serve_all rs s).1) (serve_all rs s).2.
Proof.
  induction rs as [|r rs IH]; intros ws s Hs; cbn [serve_all]; [by rewrite app_nil_r|].
  destruct (serve r s) as [e s1] eqn:Hr.
  assert (Hs1 : accounted (ws ++ match r, e with Write n k v, Ret _ => [((n, k), v)] | _, _ => [] end) s1).
  { pose proof (accounted_serve ws r) as Hk. destruct r; try (specialize (Hk s Hs);
      rewrite Hr in Hk; by rewrite app_nil_r).
    pose proof (accounted_write _ _ _ _ _ _ _ Hs Hr) as Hw. destruct e; [done|by rewrite app_nil_r]. }
  specialize (IH _ _ Hs1). destruct (serve_all rs s1) as [ws2 s2]. cbn [fst snd] in *.
  by rewrite app_assoc.
Qed.

Lemma flush_loop_empties fuel : ∀ s s',
  flush_loop fuel s = (Ret tt, s') → unwrittenValuesByKeyspaceAndPrefix_ s' = ∅.
Proof.
  induction fuel as [|fuel IH]; intros s s' H; [done|]. cbn [flush_loop] in H.
  rewrite (bind_step _ _ _ _ _ (eq_refl : get s = (Ret s, s))) in H.
  destruct (map_to_list (unwrittenValuesByKeyspaceAndPrefix_ s)) as [|[id ws] l] eqn:Hl.
  - unfold mret, M_ret in H. simplify_eq. by apply map_to_list_empty_iff.
  - apply bind_inv in H as ([] & s1 & _ & H). by eapply IH.
Qed.

(** C13. No write is lost: after any requests in any order, some of which may have
    raised, the writes that [writeValue] accepted are those that the view committed,
    those that are pending and those that wait for their prefix to load, each in one of
    these places only, but for pending ones that were committed before the channel
    disconnected; and once a [flush] returns, none waits, and all are committed, unless
    the channel disconnected, when [flush] leaves the others pending without a word. *)
Theorem no_write_is_lost rs v :
  committed v = [] →
  let '(ws, s) := serve_all rs (attachView v init).2 in
  accounted ws s ∧
  ∀ s', flush s = (Ret tt, s') → accounted ws s' ∧ waiting s' = [] ∧
    ∃ v', view_ s' = Some v' ∧
      (pendingWrites_ s' = [] ∧ ws ≡ₚ committed v' ∨
       pendingWrites_ s' ≠ [] ∧ disconnects_after v' = Some 0).
Proof.
  intros Hc.
  assert (H0 : accounted [] (attachView v init).2).
  { exists v, 0. split_ands; [done|done|done|by apply suffix_nil|]. by rewrite Hc. }
  pose proof (serve_all_accounted rs [] _ H0) as H.
  destruct (serve_all rs _) as [ws s]. cbn [app fst snd] in H. split; [done|].
  intros s' Hf. pose proof (accounted_serve ws Flush s H) as Hacc. cbn [serve] in Hacc.
  rewrite Hf in Hacc. cbn [snd] in Hacc.
  split; [exact Hacc|]. unfold flush in Hf. rewrite (bind_step _ _ _ _ _ (eq_refl : get s = (Ret s, s))) in Hf.
  apply bind_inv in Hf as ([] & s1 & H1 & Hf). pose proof (flush_loop_empties _ _ _ H1) as He.
  pose proof (accounted_flush_loop ws (S (size (unwrittenValuesByKeyspaceAndPrefix_ s))) s H) as Ha.
  rewrite H1 in Ha. destruct Ha as (v1 & k1 & Hv1 & _). cbn [snd] in Hv1.
  destruct (commit_ok s1 v1 Hv1) as (v2 & ps & k & Hcommit & _ & _ & Hcase).
  rewrite (bind_step _ _ _ _ _ Hcommit) in Hf.
  unfold update_view in Hf. erewrite bind_step in Hf by reflexivity. unfold modify in Hf.
  injection Hf as <-.
  match goal with |- waiting ?s2 = [] ∧ _ => assert (Hw : waiting s2 = []) end.
  { unfold waiting. cbn -[mjoin]. by rewrite He. }
  split; [exact Hw|]. eexists. split; [reflexivity|]. cbn. destruct Hcase as [[-> _]|(-> & Hk & Hd)].
  - left. split; [done|]. destruct Hacc as (v' & j & Hv' & _ & _ & _ & Hp). rewrite Hw in Hp.
    cbn in Hv', Hp. injection Hv' as <-. by rewrite drop_nil, app_nil_r in Hp.
  - right. split; [|done]. intros Hn. rewrite Hn in Hk. cbn in Hk. lia.
Qed.

(** ** A sample: a prefix with two listeners *)

Module Sample.

Definition store : view :=
  View {[("users", ["public"; "a"]) := "1"; ("users", ["public"; "b"]) := "2"]}
    [[SubscriptionStart "users" (Some ["public"]);
      KeyUpdates [("users", ["public"; "a"]); ("users", ["public"; "b"])]]]
    [] [] None [] [] false.

Definition listening : synchronizer :=
  (forM_ serve [AddListener "users" 0 ["public"] false false;
                AddListener "users" 1 ["public"] false false] (attachView store init).2).2.
End Sample.

Lemma listeners_are_told_witness :
  let s := Sample.listening in
  let v := default Sample.store (view_ s) in
  ∃ s' v' (d : valueDict), updateKeysAndKeyspaces_ s = (Ret tt, s') ∧ view_ s' = Some v' ∧
    available v' = (consumed (available v)).2 ∧
    (∀ id, tells (keyspaceNameToPrefixes_ s) id (contents v') (consumed (available v)).1 (d !! id)) ∧
    calls s' = calls s ++ concat (told s <$> map_to_list d) ∧
    (∀ id, id ∈ keyspaceListenersHaveHadFirstLoad_ s' ↔
       id ∈ keyspaceListenersHaveHadFirstLoad_ s ∨
       (is_Some (d !! id) ∧ is_Some (keyspaceListenersByKeyspaceAndPrefix_ s !! id))) ∧
    (∀ id m, d !! id = Some m → is_Some (keyspaceListenersByKeyspaceAndPrefix_ s !! id) →
       valuesByKeyspaceAndPrefix_ s' !! id = (λ old, m ∪ old) <$> valuesByKeyspaceAndPrefix_ s !! id) ∧
    (∀ id, d !! id = None → valuesByKeyspaceAndPrefix_ s' !! id = valuesByKeyspaceAndPrefix_ s !! id).
Proof.
  intros s v. apply (listeners_are_told s v).
  - reflexivity.
  - assert (keyspaceListenersByKeyspaceAndPrefix_ s = {[("users", Some ["public"]) := {[1; 0]}]})
      as -> by reflexivity.
    assert (valuesByKeyspaceAndPrefix_ s = {[("users", Some ["public"]) := ∅]})
      as -> by reflexivity.
    by rewrite !dom_singleton_L.
  - assert ((consumed (available v)).1 =
      [SubscriptionStart "users" (Some ["public"]);
       KeyUpdates [("users", ["public"; "a"]); ("users", ["public"; "b"])]]) as ->
      by reflexivity.
    constructor; [exact I|]. constructor; [|constructor]. cbn [keys_covered].
    intros k [->|[->|Hk%not_elem_of_nil]%elem_of_cons]%elem_of_cons; [| |done];
      exists ["public"]; reflexivity.
Defined.

Lemma no_write_is_lost_witness :
  let rs := [AddListener "users" 0 ["public"] false false; Write "users" ["public"; "a"] "3";
             Update; Write "users" ["public"; "b"] "4"] in
  let '(ws, s) := serve_all rs (attachView Sample.store init).2 in
  accounted ws s ∧
  ∀ s', flush s = (Ret tt, s') → accounted ws s' ∧ waiting s' = [] ∧
    ∃ v', view_ s' = Some v' ∧
      (pendingWrites_ s' = [] ∧ ws ≡ₚ committed v' ∨
       pendingWrites_ s' ≠ [] ∧ disconnects_after v' = Some 0).
Proof.
  apply (no_write_is_lost [AddListener "users" 0 ["public"] false false;
    Write "users" ["public"; "a"] "3"; Update; Write "users" ["public"; "b"] "4"] Sample.store);
    reflexivity.
Defined.

(** A channel that disconnects after one write: the first of two writes is committed
    and stays pending with the second, and [flush] returns. *)
Lemma flush_hides_a_disconnection :
  let v := View ∅ [[SubscriptionStart "users" (Some ["public"])]] [] [] (Some 1) [] [] false in
  let '(_, s) := serve_all [AddListener "users" 0 ["public"] false false; Update;
    Write "users" ["public"; "a"] "3"; Write "users" ["public"; "b"] "4"] (attachView v init).2 in
  let '(r, s') := flush s in
  r = Ret tt ∧ committed <$> view_ s' = Some [(("users", ["public"; "a"]), "3")] ∧
  pendingWrites_ s' = [(("users", ["public"; "a"]), "3"); (("users", ["public"; "b"]), "4")].
Proof. vm_compute. repeat split. Qed.

(** Keys that are updated before the start of their subscription, in the same
    round, are not reported: the dict is emptied when the subscription starts. *)
Lemma start_discards_updates :
  let v := View {[("users", ["public"; "a"]) := "1"]}
    [[KeyUpdates [("users", ["public"; "a"])]; SubscriptionStart "users" (Some ["public"])]]
    [] [] None [] [] false in
  calls (forM_ serve [AddListener "users" 0 ["public"] false false; Update] (attachView v init).2).2 =
    [(0, ∅, true)].
Proof. vm_compute. reflexivity. Qed.

(** A prefix may be subscribed to below one that is subscribed already, although
    not the other way round; the keys under both then go to one of them only. *)
Lemma nested_prefixes_are_accepted :
  let v := View {[("users", ["a"; "b"; "c"]) := "1"]}
    [[SubscriptionStart "users" (Some ["a"]); SubscriptionStart "users" (Some ["a"; "b"])];
     [KeyUpdates [("users", ["a"; "b"; "c"])]]]
    [] [] None [] [] false in
  let add p l := AddListener "users" l p false false in
  is_ret (forM_ serve [add ["a"] 0; add ["a"; "b"] 1] (attachView v init).2).1 = true ∧
  is_ret (forM_ serve [add ["a"; "b"] 1; add ["a"] 0] (attachView v init).2).1 = false ∧
  length (filter (λ c, c.1.2 ≠ ∅) (calls
    (forM_ serve [add ["a"] 0; add ["a"; "b"] 1; Update; Update] (attachView v init).2).2)) = 1.
Proof. vm_compute. repeat split. Qed.
