(* ===== verification/PureBuiltins.v ===== *)
(** * Builtins in pure Python ([pyfora/pure_modules/pure___builtin__.py])

    The implementations that take the place of Python's builtins when a program
    runs in the cluster: the searches over sequences, [xrange] with its generators,
    and [reduce], which splits a generator in two and works on both halves. *)
From Stdlib Require Import Lia ZArith.
From stdpp Require Import base list.
From S2P Require Import Prelude.

(** ** Searches and copies of sequences *)

Section sequences.
Context {A : Type}.
(** The truth value of an element. *)
Context (truth : A → bool).

(** [for i in iterable: if not i: return False]. *)
Fixpoint all_loop (l : list A) : bool :=
  match l with [] => true | x :: l => if negb (truth x) then false else all_loop l end.
Definition All (iterable : list A) : bool :=
  if bool_decide (length iterable = 0) then true else all_loop iterable.

Fixpoint any_loop (l : list A) : bool :=
  match l with [] => false | x :: l => if truth x then true else any_loop l end.
Definition Any (iterable : list A) : bool :=
  if bool_decide (length iterable = 0) then false else any_loop iterable.

Fixpoint enumerate_loop (count : Z) (l : list A) : list (Z * A) :=
  match l with [] => [] | x :: l => (count, x) :: enumerate_loop (count + 1) l end.
Definition Enumerate (iterable : list A) : list (Z * A) := enumerate_loop 0 iterable.

(** Python's [<] and [>] on the elements. *)
Context (lt gt : A → A → bool).

(** The loop of [Max], with its index. *)
Fixpoint best_loop (better : A → A → bool) (fuel : nat) (a : list A) (ix : nat) (tr : A) : A :=
  match fuel with
  | O => tr
  | S fuel =>
      match a !! ix with
      | Some val => best_loop better fuel a (S ix) (if better val tr then val else tr)
      | None => tr
      end
  end.

(** [Max()(a, b)] and [Max()(a)], [b] being [None] in the second. *)
Definition Max2 (a b : A) : A := if lt a b then b else a.

Definition Max (a : list A) : res A :=
  match a with
  | [] => Raise ValueError
  | tr :: _ => Ret (best_loop gt (length a) a 1 tr)
  end.

Definition Min2 (a b : A) : A := if lt a b then a else b.

Definition Min (a : list A) : res A :=
  match a with
  | [] => Raise ValueError
  | tr :: _ => Ret (best_loop lt (length a) a 1 tr)
  end.

(** [Map]: [None] stands for the identity. *)
Definition Map (f : option (A → res A)) (iterable : list A) : res (list A) :=
  mapR (default Ret f) iterable.

(** [arr[l - idx - 1]]; a negative index counts from the end. *)
Definition py_index (arr : list A) (i : Z) : res A :=
  let n := Z.of_nat (length arr) in
  of_option IndexError
    (if (0 <=? i)%Z then arr !! Z.to_nat i
     else if (- n <=? i)%Z then arr !! Z.to_nat (n + i) else None).

Definition Reversed (arr : list A) : res (list A) :=
  let l := Z.of_nat (length arr) in
  mapR (λ idx, py_index arr (l - Z.of_nat idx - 1)) (seq 0 (length arr)).
End sequences.

(** ** Generators *)

(** What [reduce] asks of a generator. *)
Class Generator (G A : Type) := {
  iter : G → list A;
  canSplit : G → bool;
  split : G → option (G * G);
  isNestedGenerator : G → bool;
  childGenerators : G → list G }.

(** What a generator promises: its halves make it up, in order, and so do its
    children, which nest less deeply. *)
Class GeneratorLaws (G A : Type) `{Generator G A} := {
  nesting : G → nat;
  split_some g : canSplit g = true → is_Some (split g);
  split_iter g l r : split g = Some (l, r) → iter g = iter l ++ iter r;
  split_nesting g l r : split g = Some (l, r) → nesting l ≤ nesting g ∧ nesting r ≤ nesting g;
  nested_iter g : isNestedGenerator g = true → iter g = childGenerators g ≫= iter;
  nested_nesting g c : isNestedGenerator g = true → c ∈ childGenerators g → nesting c < nesting g }.

(** *** reduce

    [Empty], the marker of no value, is [None]. *)

Section reduce.
Context {G A : Type} `{Generator G A}.
Context (f : A → A → res A).

(** [if result is Empty: result = v else: result = f(result, v)]. *)
Definition accumulate (result : option A) (val : A) : res (option A) :=
  match result with
  | None => Ret (Some val)
  | Some r => r ← f r val; Ret (Some r)
  end.

Fixpoint accumulate_all (result : option A) (vals : list A) : res (option A) :=
  match vals with
  | [] => Ret result
  | val :: vals => result ← accumulate result val; accumulate_all result vals
  end.

(** [f(left, right)], unless one of them is [Empty]. *)
Definition combine_ (left_ right_ : option A) : res (option A) :=
  match left_, right_ with
  | None, _ => Ret right_
  | _, None => Ret left_
  | Some l, Some r => v ← f l r; Ret (Some v)
  end.

(** The loop over the children of a nested generator. The source passes the
    result of [sum_] to [f] also when it is [Empty]; [applied] is what [f] makes
    of that class. *)
Context (applied : A → res A).

Definition sum_children (sum : G → res (option A)) : option A → list G → res (option A) :=
  fix go (result : option A) (cs : list G) {struct cs} : res (option A) :=
    match cs with
    | [] => Ret result
    | c :: cs =>
        s ← sum c;
        result ← match result, s with
                 | None, _ => Ret s
                 | Some r, Some v => v ← f r v; Ret (Some v)
                 | Some r, None => v ← applied r; Ret (Some v)
                 end;
        go result cs
    end.

Fixpoint sum_ (fuel : nat) (g : G) (depth : nat) : res (option A) :=
  match fuel with
  | O => Raise RecursionLimit
  | S fuel =>
      if bool_decide (9 < depth) || negb (canSplit g) then
        if isNestedGenerator g then
          sum_children (λ c, sum_ fuel c (S depth)) None (childGenerators g)
        else accumulate_all None (iter g)
      else
        match split g with
        | Some (l, r) =>
            left_ ← sum_ fuel l (S depth);
            right_ ← sum_ fuel r (S depth);
            combine_ left_ right_
        | None => Raise TypeError
        end
  end.

Definition Reduce (fuel : nat) (generator : G) (start : option A) : res (option A) :=
  if negb (canSplit generator) then accumulate_all start (iter generator)
  else
    result ← sum_ fuel generator 0;
    match result, start with
    | None, None => Raise TypeError
    | None, Some _ => Ret start
    | Some _, None => Ret result
    | Some r, Some s => v ← f s r; Ret (Some v)
    end.
End reduce.

(** [sum(sequence, start)]. *)
Definition Sum {G A} `{Generator G A} (add : A → A → res A) (applied : A → res A) (fuel : nat)
    (sequence : G) (start : A) : res (option A) :=
  Reduce add applied fuel sequence (Some start).

(** ** xrange *)

Record XRangeInstance := XRangeI { start : Z; count : Z; increment : Z }.

(** [__iter__]: the loop, which makes at most [count] turns. *)
Fixpoint xrange_loop (fuel : nat) (x : XRangeInstance) (ix currentVal : Z) : list Z :=
  match fuel with
  | O => []
  | S fuel =>
      if bool_decide (ix < count x)%Z
      then currentVal :: xrange_loop fuel x (ix + 1) (currentVal + increment x)
      else []
  end.

Definition xrange_iter (x : XRangeInstance) : list Z :=
  xrange_loop (S (Z.to_nat (count x))) x 0 (start x).

Definition xrange_canSplit (x : XRangeInstance) : bool := bool_decide (1 < count x)%Z.

Definition xrange_split (x : XRangeInstance) : option (XRangeInstance * XRangeInstance) :=
  if bool_decide (count x ≤ 1)%Z then None
  else
    let lowCount := (count x / 2)%Z in
    let highCount := (count x - lowCount)%Z in
    Some (XRangeI (start x) lowCount (increment x),
          XRangeI (start x + increment x * lowCount) highCount (increment x)).

#[export] Instance xrange_generator : Generator XRangeInstance Z := {
  iter := xrange_iter;
  canSplit := xrange_canSplit;
  split := xrange_split;
  isNestedGenerator := λ _, false;
  childGenerators := λ _, [] }.

(** An argument: an [int], [None], or something else. *)
Inductive arg := AInt (z : Z) | ANone | AOther.

Definition XRange (first second increment : arg) : res XRangeInstance :=
  match first with
  | AInt first =>
      x ← match second with
          | ANone => Ret (0%Z, first)
          | AInt second => Ret (first, second)
          | AOther => Raise TypeError
          end;
      increment ← match increment with
                  | ANone => Ret 1%Z
                  | AInt i => Ret i
                  | AOther => Raise TypeError
                  end;
      if bool_decide (increment = 0%Z) then Raise ValueError
      else
        let '(start, stop) := x : Z * Z in
        let count :=
          if bool_decide (0 < increment)%Z
          then Z.max 0 ((stop - start - 1) / increment + 1)
          else Z.max 0 ((start - stop - 1) / (- increment) + 1) in
        Ret (XRangeI start count increment)
  | _ => Raise TypeError
  end.

Definition Range (first second increment : arg) : res (list Z) :=
  x ← XRange first second increment; Ret (xrange_iter x).

(** ** Searches *)

Section search_facts.
Context {A : Type} (lt gt : A → A → bool).

(** Python's order on the elements is a strict weak order, and [>] is its
    converse. *)
Context (Hgt : ∀ a b, gt a b = lt b a).
Context (Hasym : ∀ a b, lt a b = true → lt b a = false).
Context (Hneg : ∀ a b c, lt a b = false → lt b c = false → lt a c = false).

(** The best element among the first [n], the first of its like. *)
Definition best (better : A → A → bool) (l : list A) (n : nat) (x : A) : Prop :=
  ∃ i, i < n ∧ l !! i = Some x ∧
    (∀ j y, j < n → l !! j = Some y → better y x = false) ∧
    (∀ j y, j < i → l !! j = Some y → better x y = true).

Lemma best_loop_ok (better : A → A → bool) (a : list A) :
  (∀ x y, better x y = true → better y x = false) →
  (∀ x y z, better x y = false → better y z = false → better x z = false) →
  ∀ fuel ix tr, length a ≤ ix + fuel → ix ≤ length a → best better a ix tr →
  best better a (length a) (best_loop better fuel a ix tr).
Proof.
  intros Ha Ht.
  assert (Hr : ∀ x, better x x = false).
  { intros x. destruct (better x x) eqn:E; [|done]. by rewrite (Ha _ _ E) in E. }
  induction fuel as [|fuel IH]; intros ix tr Hf Hix Hb.
  { assert (ix = length a) as -> by lia. done. }
  cbn [best_loop]. destruct (a !! ix) as [val|] eqn:Hv.
  2: { apply lookup_ge_None in Hv. assert (ix = length a) as -> by lia. done. }
  pose proof (lookup_lt_Some _ _ _ Hv). apply IH; [lia|lia|].
  destruct Hb as (i & Hi & Htr & Hall & Hfirst). destruct (better val tr) eqn:Hc.
  - exists ix. split_ands; [lia|done| |].
    + intros j y Hj Hy. destruct (decide (j = ix)) as [->|]; [simplify_eq; apply Hr|].
      apply (Ht y tr); [apply (Hall j); [lia|done]|by apply Ha].
    + intros j y Hj Hy. destruct (better val y) eqn:Hvy; [done|].
      rewrite (Ht val y tr Hvy) in Hc; [done|]. apply (Hall j); [lia|done].
  - exists i. split_ands; [lia|done| |done].
    intros j y Hj Hy. destruct (decide (j = ix)) as [->|]; [simplify_eq; done|].
    apply (Hall j); [lia|done].
Qed.

Lemma best_start (better : A → A → bool) x l :
  better x x = false → best better (x :: l) 1 x.
Proof.
  intros Hr. exists 0. split_ands; [lia|done| |intros; lia].
  intros j y Hj Hy. assert (j = 0) as -> by lia. by simplify_eq/=.
Qed.

(** [max] and [min] of a sequence: they raise [ValueError] on the empty one, and
    otherwise return an element of the sequence than which no other is greater
    (less), and of those the one that comes first. *)
Theorem Max_and_Min_find_the_first (a : list A) :
  match a with
  | [] => Max gt a = Raise ValueError ∧ Min lt a = Raise ValueError
  | _ => ∃ x y, Max gt a = Ret x ∧ best gt a (length a) x ∧ Min lt a = Ret y ∧ best lt a (length a) y
  end.
Proof.
  destruct a as [|v a]; [done|]. eexists _, _.
  assert (Hirr : ∀ x, lt x x = false).
  { intros x. destruct (lt x x) eqn:E; [|done]. by rewrite (Hasym _ _ E) in E. }
  split_ands; [reflexivity| |reflexivity|].
  - apply best_loop_ok; [|..|apply best_start; by rewrite Hgt]; cbn; try lia.
    + intros x y. rewrite !Hgt. apply Hasym.
    + intros x y z. rewrite !Hgt. intros. by apply (Hneg z y x).
  - apply best_loop_ok; [done|done| | |by apply best_start]; cbn; lia.
Qed.
End search_facts.

Lemma Max_and_Min_find_the_first_witness :
  ∃ x y, Max Z.gtb [3; 5; 1; 5]%Z = Ret x ∧ best Z.gtb [3; 5; 1; 5]%Z 4 x ∧
    Min Z.ltb [3; 5; 1; 5]%Z = Ret y ∧ best Z.ltb [3; 5; 1; 5]%Z 4 y.
Proof.
  refine (Max_and_Min_find_the_first Z.ltb Z.gtb _ _ _ [3; 5; 1; 5]%Z).
  - intros a b. apply Z.gtb_ltb.
  - intros a b ?%Z.ltb_lt. apply Z.ltb_ge. lia.
  - intros a b c ?%Z.ltb_ge ?%Z.ltb_ge. apply Z.ltb_ge. lia.
Defined.

Lemma mapR_Forall2 {A B} (f : A → res B) l k :
  Forall2 (λ a b, f a = Ret b) l k → mapR f l = Ret k.
Proof. induction 1 as [|a b l k Hab _ IH]; [done|]. cbn. by rewrite Hab, IH. Qed.

(** [all], [any], [enumerate] and [reversed] of a list: the loops agree with
    the quantifiers, the numbering and the reversal of the list, and the negative
    or too large indices of [reversed] never occur. *)
Theorem loops_over_lists {A} (truth : A → bool) (l : list A) :
  (All truth l = true ↔ Forall (λ x, truth x = true) l) ∧
  (Any truth l = true ↔ Exists (λ x, truth x = true) l) ∧
  (∀ i, Enumerate l !! i = (λ x, (Z.of_nat i, x)) <$> l !! i) ∧
  Reversed l = Ret (reverse l).
Proof.
  split_ands.
  - unfold All. destruct l as [|x l]; [done|]. generalize (x :: l). clear. intros l. 
    case_bool_decide as Hl.
    { apply nil_length_inv in Hl as ->. done. }
    clear Hl. induction l as [|x l IH]; [done|]. cbn. rewrite Forall_cons.
    destruct (truth x); cbn; [rewrite IH|]; naive_solver.
  - unfold Any. case_bool_decide as Hl.
    { apply nil_length_inv in Hl as ->. split; [done|by intros ?%Exists_nil]. }
    clear Hl. induction l as [|x l IH]; [split; [done|by intros ?%Exists_nil]|]. cbn.
    rewrite Exists_cons. destruct (truth x); cbn; [|rewrite IH]; naive_solver.
  - unfold Enumerate. assert (∀ c i, enumerate_loop c l !! i =
      (λ x, ((c + Z.of_nat i)%Z, x)) <$> l !! i) as H; [|intros i; apply (H 0%Z i)].
    induction l as [|x l IH]; intros c [|i]; cbn; [done|done|by rewrite Z.add_0_r|].
    change (enumerate_loop (c + 1) l !! i = (λ x, ((c + Z.of_nat (S i))%Z, x)) <$> l !! i).
    rewrite IH. destruct (l !! i); cbn; [|done]. do 2 f_equal. lia.
  - apply mapR_Forall2. apply Forall2_same_length_lookup_2.
    { by rewrite length_seq, length_reverse. }
    intros i j x Hi Hx. apply lookup_seq in Hi as [-> Hi].
    rewrite reverse_lookup in Hx by done. unfold py_index. cbn [plus].
    rewrite (proj2 (Z.leb_le 0 _)) by lia.
    replace (Z.to_nat _) with (length l - S i) by lia. by rewrite Hx.
Qed.

(** ** reduce over any generator *)

Section reduce_facts.
Context {G A : Type} `{GeneratorLaws G A}.
Context (op : A → A → A) (Hassoc : ∀ x y z, op (op x y) z = op x (op y z)).
Context (f : A → A → res A) (Hf : ∀ x y, f x y = Ret (op x y)) (applied : A → res A).

(** The fold of a sequence, [None] of the empty one. *)
Definition fold_op (r : option A) (l : list A) : option A :=
  foldl (λ r v, Some (match r with Some r => op r v | None => v end)) r l.

Lemma accumulate_all_ok l : ∀ r, accumulate_all f r l = Ret (fold_op r l).
Proof.
  induction l as [|v l IH]; intros r; [done|]. cbn [accumulate_all fold_op foldl].
  destruct r as [r|]; cbn [accumulate]; [rewrite Hf|]; cbn; apply IH.
Qed.

(** What two partial results make. *)
Definition join (a b : option A) : option A :=
  match a, b with
  | None, _ => b
  | _, None => a
  | Some x, Some y => Some (op x y)
  end.

Lemma fold_op_cons r v l :
  fold_op r (v :: l) = fold_op (Some (match r with Some r => op r v | None => v end)) l.
Proof. done. Qed.

Lemma fold_op_join l : ∀ r, fold_op r l = join r (fold_op None l).
Proof.
  induction l as [|v l IH]; intros r; [by destruct r|]. rewrite !fold_op_cons.
  rewrite (IH (Some _)), (IH (Some v)). destruct r as [r|]; [|done].
  destruct (fold_op None l); cbn; [|done]. by rewrite Hassoc.
Qed.

Lemma fold_op_app l1 l2 : fold_op None (l1 ++ l2) = join (fold_op None l1) (fold_op None l2).
Proof. unfold fold_op at 1. rewrite foldl_app. apply (fold_op_join l2). Qed.

Lemma combine_ok a b : combine_ f a b = Ret (join a b).
Proof. destruct a, b; cbn; [rewrite Hf|..]; done. Qed.

Lemma fold_op_None l : fold_op None l = None ↔ l = [].
Proof.
  destruct l as [|v l]; [done|]. rewrite fold_op_cons, fold_op_join.
  by destruct (fold_op None l).
Qed.

(** An empty generator that comes after elements among the children of a nested one: [f] is
    applied to the class [Empty] for it. *)
Definition late_empty (cs : list G) : Prop :=
  ∃ cs1 c cs2, cs = cs1 ++ c :: cs2 ∧ iter c = [] ∧ cs1 ≫= iter ≠ [].

(** The generators that [reduce] may meet in a generator. *)
Inductive part_of : G → G → Prop :=
| part_self g : part_of g g
| part_left g l r p : split g = Some (l, r) → part_of p l → part_of p g
| part_right g l r p : split g = Some (l, r) → part_of p r → part_of p g
| part_child g c p : isNestedGenerator g = true → c ∈ childGenerators g → part_of p c → part_of p g.

Definition no_late_empty (g : G) : Prop :=
  ∀ p, part_of p g → isNestedGenerator p = true → ¬ late_empty (childGenerators p).

Lemma full_no_late_empty g :
  (∀ p c : G, isNestedGenerator p = true → c ∈ childGenerators p → iter c ≠ []) → no_late_empty g.
Proof.
  intros Hfull p _ Hp (cs1 & c & cs2 & Hcs & Hc & _). apply (Hfull p c Hp); [|done].
  rewrite Hcs. apply elem_of_app. right. left.
Qed.

Lemma sum_children_ok (sum : G → res (option A)) cs : ∀ r,
  (∀ c, c ∈ cs → sum c = Ret (fold_op None (iter c))) →
  ¬ late_empty cs → (is_Some r → ∀ c, c ∈ cs → iter c ≠ []) →
  sum_children f applied sum r cs = Ret (join r (fold_op None (cs ≫= iter))).
Proof.
  induction cs as [|c cs IH]; intros r Hsum Hlate Hr; [by destruct r|].
  change ((c :: cs) ≫= iter) with (iter c ++ (cs ≫= iter)). rewrite fold_op_app.
  assert (Hcs : ∀ r, (is_Some r → ∀ c, c ∈ cs → iter c ≠ []) →
    sum_children f applied sum r cs = Ret (join r (fold_op None (cs ≫= iter)))).
  { intros r'. apply IH; [intros; apply Hsum; by right|].
    intros (cs1 & c' & cs2 & -> & Hc' & Hne). apply Hlate. exists (c :: cs1), c', cs2.
    split_ands; [done|done|]. rewrite bind_cons. by intros [_ ?]%app_eq_nil. }
  cbn [sum_children]. rewrite (Hsum c) by left. destruct (fold_op None (iter c)) as [v|] eqn:Hv.
  - assert (Hlater : ∀ c', c' ∈ cs → iter c' ≠ []).
    { intros c' (l1 & l2 & ->)%list_elem_of_split Hc'. apply Hlate. exists (c :: l1), c', l2.
      split_ands; [done|done|]. rewrite bind_cons. intros [Hc _]%app_eq_nil. by rewrite Hc in Hv. }
    destruct r as [r|]; cbn [mbind res_bind]; [rewrite Hf; cbn [mbind res_bind]|]; rewrite Hcs by done; [|done].
    destruct (fold_op None (cs ≫= iter)); cbn; [|done]. by rewrite Hassoc.
  - apply fold_op_None in Hv. destruct r as [r|]; [by destruct (Hr ltac:(by eexists) c ltac:(left))|].
    cbn [mbind res_bind]. rewrite Hcs; [|by intros []]. by destruct (fold_op None (cs ≫= iter)).
Qed.

Lemma sum_ok fuel : ∀ g depth,
  (10 - depth) + nesting g < fuel → no_late_empty g →
  sum_ f applied fuel g depth = Ret (fold_op None (iter g)).
Proof.
  induction fuel as [|fuel IH]; intros g depth Hfuel Hg; [lia|]. cbn [sum_].
  destruct (bool_decide (9 < depth) || negb (canSplit g)) eqn:Hc.
  - destruct (isNestedGenerator g) eqn:Hn; [|apply accumulate_all_ok].
    rewrite sum_children_ok; [by rewrite (nested_iter g Hn)| |apply Hg; [apply part_self|done]|by intros []].
    intros c Hin. pose proof (nested_nesting g c Hn Hin). apply IH; [lia|].
    intros p Hp. apply Hg. by eapply part_child.
  - apply orb_false_iff in Hc as [Hd%bool_decide_eq_false Hs%negb_false_iff].
    destruct (split_some g Hs) as [[l r] Hlr]. rewrite Hlr.
    pose proof (split_nesting g l r Hlr) as [? ?].
    rewrite (IH l), (IH r); try lia;
      [|intros p Hp; apply Hg; by eapply part_right|intros p Hp; apply Hg; by eapply part_left].
    cbn [mbind res_bind]. by rewrite combine_ok, (split_iter g l r Hlr), fold_op_app.
Qed.

(** What [reduce] promises: the fold of the sequence from its start, or from its
    first element. *)
Definition reduce_spec (g : G) (start : option A) : res (option A) :=
  match fold_op start (iter g) with
  | None => if canSplit g then Raise TypeError else Ret None
  | v => Ret v
  end.

(** C35. [reduce] with an associative function that does not raise is the fold of the
    sequence from left to right, although it splits the generator in two, ten times over,
    and works through nested generators: for every generator whose halves and children make
    it up, of which no nested part has an empty child after elements (for such a child the
    function is applied to the class [Empty], see [reduce_applies_to_empty]), and for every
    start value. It always ends: ten levels of splitting and the nesting of the generator
    bound the recursion. Only the empty sequence without a start is special: it raises
    [TypeError] if the generator can be split, and otherwise gives the marker class
    [Empty]. *)
Theorem Reduce_is_fold fuel g start :
  no_late_empty g → 10 + nesting g < fuel → Reduce f applied fuel g start = reduce_spec g start.
Proof.
  intros Hg Hfuel. unfold Reduce, reduce_spec. destruct (canSplit g) eqn:Hs; cbn [negb].
  - rewrite sum_ok by (done || lia). cbn [mbind res_bind]. rewrite (fold_op_join _ start).
    destruct (fold_op None (iter g)), start; cbn; rewrite ?Hf; done.
  - rewrite accumulate_all_ok. by destruct (fold_op start (iter g)).
Qed.
End reduce_facts.

(** ** xrange *)

Lemma xrange_loop_lookup x fuel : ∀ ix cur (i : nat),
  (count x - ix < Z.of_nat fuel)%Z → (0 ≤ ix)%Z →
  xrange_loop fuel x ix cur !! i =
    if bool_decide (Z.of_nat i < count x - ix)%Z then Some (cur + Z.of_nat i * increment x)%Z else None.
Proof.
  induction fuel as [|fuel IH]; intros ix cur i Hf Hix; cbn [xrange_loop].
  { rewrite bool_decide_eq_false_2; [done|]. lia. }
  case_bool_decide as Hc.
  - destruct i as [|i]; cbn.
    + rewrite bool_decide_eq_true_2 by lia. f_equal. lia.
    + change (xrange_loop fuel x (ix + 1) (cur + increment x) !! i =
        if bool_decide (Z.of_nat (S i) < count x - ix)%Z
        then Some (cur + Z.of_nat (S i) * increment x)%Z else None).
      rewrite IH by lia. do 2 case_bool_decide; try lia; [f_equal; lia|done].
  - rewrite bool_decide_eq_false_2; [by destruct i|]. lia.
Qed.

Lemma xrange_lookup x (i : nat) :
  xrange_iter x !! i =
    if bool_decide (Z.of_nat i < count x)%Z then Some (start x + Z.of_nat i * increment x)%Z else None.
Proof. unfold xrange_iter. rewrite xrange_loop_lookup by lia. by rewrite Z.sub_0_r. Qed.

Lemma xrange_length x : length (xrange_iter x) = Z.to_nat (count x).
Proof.
  apply Nat.le_antisymm.
  - apply lookup_ge_None. rewrite xrange_lookup, bool_decide_eq_false_2; [done|lia].
  - destruct (decide (count x ≤ 0)%Z); [lia|].
    assert (Hl : is_Some (xrange_iter x !! (Z.to_nat (count x) - 1))).
    { rewrite xrange_lookup, bool_decide_eq_true_2 by lia. eauto. }
    apply lookup_lt_is_Some in Hl. lia.
Qed.

#[export] Program Instance xrange_laws : GeneratorLaws XRangeInstance Z := {
  nesting := λ _, 0 }.
Next Obligation.
  intros x. cbn. unfold xrange_canSplit, xrange_split. intros H%bool_decide_eq_true.
  rewrite bool_decide_eq_false_2 by lia. eauto.
Qed.
Next Obligation.
  intros x l r Hs. change (xrange_split x = Some (l, r)) in Hs.
  change (xrange_iter x = xrange_iter l ++ xrange_iter r). unfold xrange_split in Hs.
  case_bool_decide; [done|]. injection Hs as <- <-.
  assert (0 ≤ count x / 2 ≤ count x)%Z.
  { split; [apply Z.div_pos; lia|apply Z.div_le_upper_bound; lia]. }
  revert H0. generalize (count x / 2)%Z. intros q Hq.
  apply list_eq. intros i. rewrite lookup_app, !xrange_lookup, xrange_length.
  cbn [start count increment].
  case_bool_decide as H1; case_bool_decide as H2; try lia; [done| |].

  - rewrite bool_decide_eq_true_2 by lia. f_equal.
    replace (Z.of_nat (i - Z.to_nat q)) with (Z.of_nat i - q)%Z by lia. ring.
  - by rewrite bool_decide_eq_false_2 by lia.
Qed.
Next Obligation. done. Qed.
Next Obligation. done. Qed.
Next Obligation. done. Qed.

(** [xrange] and [range] are Python's: arguments that are not integers raise
    [TypeError] and a zero increment raises [ValueError]; otherwise the elements
    are [start + i * increment] in order of [i], exactly those that lie before
    [stop] in the direction of the increment. *)
Theorem XRange_is_arithmetic (a b c : Z) :
  XRange AOther (AInt b) (AInt c) = Raise TypeError ∧
  XRange (AInt a) AOther (AInt c) = Raise TypeError ∧
  XRange (AInt a) (AInt b) AOther = Raise TypeError ∧
  XRange (AInt a) (AInt b) (AInt 0) = Raise ValueError ∧
  XRange (AInt b) ANone ANone = XRange (AInt 0) (AInt b) (AInt 1) ∧
  (c ≠ 0%Z → ∃ l, Range (AInt a) (AInt b) (AInt c) = Ret l ∧
    ∀ (i : nat) z, l !! i = Some z ↔
      z = (a + Z.of_nat i * c)%Z ∧ (if bool_decide (0 < c)%Z then z < b else b < z)%Z).
Proof.
  split_ands; [done|done|done|done|done|]. intros Hc.
  unfold Range, XRange. cbn [mbind res_bind]. rewrite bool_decide_eq_false_2 by done.
  cbn [mbind res_bind]. eexists. split; [reflexivity|]. intros i z. rewrite xrange_lookup. cbn.
  destruct (decide (0 < c)%Z) as [Hp|Hp].
  - rewrite !(bool_decide_eq_true_2 (0 < c)%Z) by done.
    pose proof (Z.div_mod (b - a - 1) c) as Hdm. pose proof (Z.mod_pos_bound (b - a - 1) c Hp) as Hm.
    case_bool_decide as Hi; split; [intros [= <-]|intros [-> Hz]|done|intros [-> Hz]].
    + split; [done|]. nia.
    + done.
    + exfalso. apply Hi. assert (Z.of_nat i ≤ (b - a - 1) / c)%Z by (apply Z.div_le_lower_bound; lia). lia.
  - rewrite !(bool_decide_eq_false_2 (0 < c)%Z) by done.
    pose proof (Z.div_mod (a - b - 1) (- c)) as Hdm.
    pose proof (Z.mod_pos_bound (a - b - 1) (- c)) as Hm.
    case_bool_decide as Hi; split; [intros [= <-]|intros [-> Hz]|done|intros [-> Hz]].
    + split; [done|]. nia.
    + done.
    + exfalso. apply Hi. assert (Z.of_nat i ≤ (a - b - 1) / - c)%Z by (apply Z.div_le_lower_bound; lia). lia.
Qed.

(** The elements of [range(10, 0, -3)]. *)
Lemma XRange_is_arithmetic_witness :
  ∃ l, Range (AInt 10) (AInt 0) (AInt (-3)) = Ret l ∧
    ∀ (i : nat) z, l !! i = Some z ↔ z = (10 + Z.of_nat i * (-3))%Z ∧ (0 < z)%Z.
Proof. exact (proj2 (proj2 (proj2 (proj2 (proj2 (XRange_is_arithmetic 10 0 (-3)))))) ltac:(done)). Defined.

Lemma Reduce_is_fold_witness :
  Reduce (λ x y, Ret (x + y)%Z) (λ _, Raise TypeError) 11 (XRangeI 0 3000 1) (Some 7%Z)
    = Ret (Some 4498507%Z).
Proof.
  etransitivity.
  - refine (Reduce_is_fold Z.add _ (λ x y, Ret (x + y)%Z) _ (λ _, Raise TypeError) 11
      (XRangeI 0 3000 1) (Some 7%Z) _ _); [intros; lia|done|by intros p _|cbn; lia].
  - vm_compute. reflexivity.
Defined.

(** ** What does not agree with Python's [reduce] *)

(** An empty sequence that cannot be split gives the marker, not [TypeError]. *)
Lemma reduce_of_empty (f : Z → Z → res Z) applied :
  Reduce f applied 11 (XRangeI 0 0 1) None = Ret None.
Proof. reflexivity. Qed.

(** A function that is not associative: [reduce(lambda x,y: x-y, xrange(4))] is
    [-6] in Python. *)
Lemma reduce_of_difference :
  Reduce (λ x y, Ret (x - y)%Z) (λ _, Raise TypeError) 11 (XRangeI 0 4 1) None = Ret (Some 0%Z) ∧
  accumulate_all (λ x y, Ret (x - y)%Z) None (xrange_iter (XRangeI 0 4 1)) = Ret (Some (-6)%Z).
Proof. split; vm_compute; reflexivity. Qed.

(** A nested generator whose children are the ranges of its elements; one that is
    empty, after another that is not, is handed to the function. *)
Inductive nested := Leaf (x : XRangeInstance) | Node (l : list nested).
Fixpoint nested_elements (g : nested) : list Z :=
  match g with Leaf x => xrange_iter x | Node l => l ≫= nested_elements end.
#[local] Instance nested_generator : Generator nested Z := {
  iter := nested_elements;
  canSplit g := match g with Leaf x => xrange_canSplit x | Node l => bool_decide (1 < length l) end;
  split g := match g with
             | Leaf x => prod_map Leaf Leaf <$> xrange_split x
             | Node l => let n := length l / 2 in Some (Node (take n l), Node (drop n l))
             end;
  isNestedGenerator g := match g with Leaf _ => false | Node _ => true end;
  childGenerators g := match g with Leaf _ => [] | Node l => l end }.

Lemma reduce_applies_to_empty :
  sum_ (λ x y, Ret (x + y)%Z) (λ _, Raise TypeError) 12
    (Node [Leaf (XRangeI 0 2 1); Leaf (XRangeI 0 0 1)]) 10 = Raise TypeError ∧
  accumulate_all (λ x y, Ret (x + y)%Z) None
    (iter (Node [Leaf (XRangeI 0 2 1); Leaf (XRangeI 0 0 1)])) = Ret (Some 1%Z).
Proof. split; reflexivity. Qed.
