(* ===== verification/PureNumpy.v ===== *)
(** * Numpy's arrays in pure Python ([pyfora/pure_modules/pure_numpy.py])

    The class that takes the place of [numpy.ndarray] when a program runs in the
    cluster: a shape and the values in row-major order. Indexing, slices,
    transposition, conversion to nested lists and back, elementwise operators,
    products, and the constructors [eye], [zeros], [array] and [arange]. The values are of
    any type; arithmetic is the interface [Number]. The products of two matrices
    and of the linear algebra module, which FORA code computes, are parameters. *)
From Stdlib Require Import Lia ZArith.
From stdpp Require Import base list numbers strings.
From S2P Require Import Prelude PureBuiltins.

(** [xrange(n)] and [xrange(first, last)]. *)
Definition xrange (n : Z) : list Z := seqZ 0 n.
Definition xrange2 (first last : Z) : list Z := seqZ first (last - first).

(** ** Slices of lists *)

Record slice := Slice { slice_start : option Z; slice_stop : option Z; slice_step : option Z }.

(** One end of a slice of a list of [n] elements, with its default. *)
Definition slice_end (n step : Z) (v : option Z) (default_ : Z) : Z :=
  match v with
  | None => default_
  | Some v =>
      if (v <? 0)%Z then
        if (v + n <? 0)%Z then (if (step <? 0)%Z then -1 else 0)%Z else (v + n)%Z
      else if (n <=? v)%Z then (if (step <? 0)%Z then n - 1 else n)%Z else v
  end.

(** The indices [slice.indices] makes. *)
Definition slice_indices (n : Z) (s : slice) : res (list Z) :=
  let step := default 1%Z (slice_step s) in
  if (step =? 0)%Z then Raise ValueError
  else
    let start := slice_end n step (slice_start s) (if (step <? 0)%Z then n - 1 else 0)%Z in
    let stop := slice_end n step (slice_stop s) (if (step <? 0)%Z then -1 else n)%Z in
    let count :=
      if (0 <? step)%Z then (if (start <? stop)%Z then (stop - start - 1) / step + 1 else 0)%Z
      else (if (stop <? start)%Z then (start - stop - 1) / (- step) + 1 else 0)%Z in
    Ret ((λ k, start + k * step)%Z <$> xrange count).

Definition py_slice {A} (l : list A) (s : slice) : res (list A) :=
  ixs ← slice_indices (Z.of_nat (length l)) s; mapR (py_index l) ixs.

(** ** Arrays *)

Record array (A : Type) := Array { shape : list Z; values : list A }.
Arguments Array {A} shape values.
Arguments shape {A} _.
Arguments values {A} _.

(** What an index is, and what indexing gives: a value, or an array. *)
Inductive index := Ix (i : Z) | Sl (s : slice).
Inductive item (A : Type) := Scalar (a : A) | Sub (a : array A).
Arguments Scalar {A} a.
Arguments Sub {A} a.

(** Python's lists of lists. *)
Inductive nested (A : Type) := Leaf (a : A) | Lst (l : list (nested A)).
Arguments Leaf {A} a.
Arguments Lst {A} l.

(** What pure Python asks of the values: [+], [*], [-], which return, [/] and [**],
    which can raise, the literals, and the comparisons. *)
Class Number (A : Type) := {
  of_int : Z → A;
  float0 : A;
  float1 : A;
  add : A → A → A;
  mul : A → A → A;
  sub : A → A → A;
  neg : A → A;
  div : A → A → res A;
  pow : A → A → res A;
  lt : A → A → bool;
  eqv : A → A → bool }.

Section class.
Context {A : Type}.
Implicit Types a : array A.

Definition size a : Z := Z.of_nat (length (values a)).
Definition ndim a : Z := Z.of_nat (length (shape a)).
Definition len a : res Z := py_index (shape a) 0.

(** The loop that multiplies the dimensions after the first. *)
Definition stride a : Z := foldl Z.mul 1%Z (drop 1 (shape a)).

Definition getitem a (ix : index) : res (item A) :=
  if bool_decide (length (shape a) = 1) then
    match ix with
    | Sl s => vals ← py_slice (values a) s; Ret (Sub (Array [Z.of_nat (length vals)] vals))
    | Ix i => v ← py_index (values a) i; Ret (Scalar v)
    end
  else
    match ix with
    | Sl _ => Raise TypeError
    | Ix i =>
        let newShape := drop 1 (shape a) in
        let startIdx := (i * stride a)%Z in
        toReturn ← mapR (py_index (values a)) (xrange2 startIdx (startIdx + stride a));
        Ret (Sub (Array newShape toReturn))
    end.

(** [x[i][j]…]: a value has no items. *)
Definition getitem_of (x : item A) (i : Z) : res (item A) :=
  match x with Scalar _ => Raise TypeError | Sub a => getitem a (Ix i) end.
Fixpoint subscripts (x : item A) (ixs : list Z) : res (item A) :=
  match ixs with
  | [] => Ret x
  | i :: ixs => y ← getitem_of x i; subscripts y ixs
  end.

(** An element of a new list of values; only values are kept in it. *)
Definition scalar (x : item A) : res A :=
  match x with Scalar v => Ret v | Sub _ => Raise InternalError end.
Definition value_at a (ixs : list Z) : res A := x ← subscripts (Sub a) ixs; scalar x.

(** [for iy in xrange(dy) for ix in xrange(dx)]. *)
Definition pairs (dx dy : Z) : list (list Z) :=
  xrange dy ≫= λ iy, (λ ix, [ix; iy]) <$> xrange dx.
Definition triples (dx dy dz : Z) : list (list Z) :=
  xrange dz ≫= λ iz, xrange dy ≫= λ iy, (λ ix, [ix; iy; iz]) <$> xrange dx.

Definition transpose a : res (array A) :=
  match shape a with
  | [_] => Ret a
  | [d1; d2] => vals ← mapR (value_at a) (pairs d1 d2); Ret (Array [d2; d1] vals)
  | [d1; d2; d3] => vals ← mapR (value_at a) (triples d1 d2 d3); Ret (Array [d3; d2; d1] vals)
  | _ => Raise (OtherException "NotImplementedError")
  end.

Definition flatten a : array A := Array [size a] (values a).

(** [reduce(lambda x, y: x * y, newShape)]. *)
Definition product (dims : list Z) : res Z :=
  match dims with [] => Raise TypeError | d :: dims => Ret (foldl Z.mul d dims) end.

Definition reshape a (newShape : list Z) : res (array A) :=
  impliedElementCount ← product newShape;
  if bool_decide (size a ≠ impliedElementCount) then Raise ValueError
  else Ret (Array newShape (values a)).

(** [_zipArraysWithOp] and [_applyOperatorToAllElements]. *)
Definition zipArraysWithOp {B} (op : A → A → res B) a (v : array A) : res (array B) :=
  if bool_decide (shape a ≠ shape v) then Raise ValueError
  else
    vals ← mapR (λ ix, x ← py_index (values a) ix; y ← py_index (values v) ix; op x y)
                (xrange (size a));
    Ret (Array (shape a) vals).

Definition applyOperatorToAllElements (op : A → A → res A) a (v : A) : res (array A) :=
  vals ← mapR (λ ix, x ← py_index (values a) ix; op x v) (xrange (size a));
  Ret (Array (shape a) vals).
End class.

(** [tolist], at most [fuel] levels deep; [leaf] is what a value is in a list. *)
Section tolist.
Context {E A : Type} (leaf : E → nested A).
Fixpoint walk (fuel : nat) (x : item E) : res (nested A) :=
  match fuel with
  | O => Raise RecursionLimit
  | S fuel =>
      match x with
      | Scalar v => Ret (leaf v)
      | Sub a =>
          n ← len a;
          l ← mapR (λ idx, val ← getitem a (Ix idx); walk fuel val) (xrange n);
          Ret (Lst l)
      end
  end.
Definition tolist (fuel : nat) (a : array E) : res (nested A) := walk fuel (Sub a).
End tolist.

(** ** Operators *)

Section operators.
Context {A : Type} `{Number A}.
Implicit Types a : array A.

Definition array_eq a (y : array A) : res (array bool) := zipArraysWithOp (λ x y, Ret (eqv x y)) a y.
Definition array_neg a : array A := Array (shape a) (neg <$> values a).

(** The operand of an operator: another array, or a value. *)
Definition operator (op : A → A → res A) a (v : item A) : res (array A) :=
  match v with
  | Sub v => zipArraysWithOp op a v
  | Scalar v => applyOperatorToAllElements op a v
  end.
Definition array_mul := operator (λ x y, Ret (mul x y)).
Definition array_add := operator (λ x y, Ret (add x y)).
Definition array_sub := operator (λ x y, Ret (sub x y)).
Definition array_pow := operator pow.
Definition array_div := operator div.

(** ** Constructors *)

Definition NpEye (N : Z) (M : option Z) : array A :=
  let M := default N M in
  let vals := (λ '(rowIx, colIx), if bool_decide (colIx = rowIx) then float1 else float0) <$>
                (xrange N ≫= λ rowIx, (λ colIx, (rowIx, colIx)) <$> xrange M) in
  Array [N; M] vals.

Definition zerosFromCountAndShape (count : Z) (shape : list Z) : array A :=
  Array shape ((λ _, float0) <$> xrange count).
(** The argument is the shape, or the length. *)
Definition NpZeros (length : list Z + Z) : res (array A) :=
  match length with
  | inl dims => count ← product dims; Ret (zerosFromCountAndShape count dims)
  | inr n => Ret (zerosFromCountAndShape n [n])
  end.

(** The loop of [arange], [None] when [fuel] steps do not end it. *)
Fixpoint arange_loop (fuel : nat) (stop step currentVal : A) (toReturn : list A) : option (list A) :=
  match fuel with
  | O => None
  | S fuel =>
      if lt currentVal stop then
        arange_loop fuel stop step (add currentVal step) (toReturn ++ [currentVal])
      else Some toReturn
  end.

Definition Sign (x : A) : A :=
  if lt x float0 then neg float1 else if eqv x float0 then float0 else float1.
End operators.

(** *** Arrays of nested lists *)

Section np_array.
Context {A : Type}.

Definition isinstance_list (x : nested A) : bool :=
  match x with Leaf _ => false | Lst _ => true end.
Definition list_of (x : nested A) : res (list (nested A)) :=
  match x with Leaf _ => Raise TypeError | Lst l => Ret l end.
(** [x[0]] and [len(x)]. *)
Definition item0 (x : nested A) : res (nested A) := l ← list_of x; py_index l 0.
Definition nested_len (x : nested A) : res Z := l ← list_of x; Ret (Z.of_nat (length l)).

(** [sum(l, [])], whatever the order of the additions: every element must be a list. *)
Definition sum_lists (l : list (nested A)) : res (list (nested A)) :=
  ls ← mapR list_of l; Ret (concat ls).

Definition NpArray (x : nested A) : res (array (nested A)) :=
  l ← list_of x;
  let n := Z.of_nat (length l) in
  if bool_decide (length l = 0) then Ret (Array [0%Z] [])
  else
    x0 ← py_index l 0;
    if negb (isinstance_list x0) then Ret (Array [n] l)
    else
      x00 ← item0 x0; n0 ← nested_len x0;
      if negb (isinstance_list x00) then vals ← sum_lists l; Ret (Array [n; n0] vals)
      else
        x000 ← item0 x00; n00 ← nested_len x00;
        if negb (isinstance_list x000) then
          l1 ← sum_lists l; vals ← sum_lists l1; Ret (Array [n; n0; n00] vals)
        else
          x0000 ← item0 x000; n000 ← nested_len x000;
          if negb (isinstance_list x0000) then
            l1 ← sum_lists l; l2 ← sum_lists l1; vals ← sum_lists l2;
            Ret (Array [n; n0; n00; n000] vals)
          else Raise (OtherException "NotImplementedError").
End np_array.

(** *** arange *)

Definition NpArange {A} `{Number A} (fuel : nat) (start : A) (isinstance_int : A → bool)
    (stop : option A) (step : A) : option (res (array (nested A))) :=
  let '(start, stop) :=
    match stop with
    | None => (if isinstance_int start then of_int 0 else float0, start)
    | Some stop => (start, stop)
    end in
  toReturn ← arange_loop fuel stop step start [];
  Some (NpArray (Lst (Leaf <$> toReturn))).

(** ** Products *)

Section dot.
Context {A : Type} `{Number A}.

(** The inner loop of the product of a matrix and a vector: the indices into both,
    and the sum. [None]: [fuel] steps do not end it. *)
Fixpoint row_loop (fuel : nat) (arr1_flat arr2_flat : list A) (ix1 ix2 : Z) (dot : A)
    : option (res (A * Z)) :=
  match fuel with
  | O => None
  | S fuel =>
      if bool_decide (ix2 < Z.of_nat (length arr2_flat))%Z then
        match py_index arr1_flat ix1, py_index arr2_flat ix2 with
        | Ret x, Ret y => row_loop fuel arr1_flat arr2_flat (ix1 + 1) (ix2 + 1) (add dot (mul x y))
        | Raise e, _ | _, Raise e => Some (Raise e)
        end
      else Some (Ret (dot, ix1))
  end.

Fixpoint rows_loop (fuel : nat) (arr1_flat arr2_flat : list A) (ix1 : Z) (res_ : list A)
    : option (res (list A)) :=
  match fuel with
  | O => None
  | S fuel =>
      if bool_decide (ix1 < Z.of_nat (length arr1_flat))%Z then
        match row_loop (S (length arr2_flat)) arr1_flat arr2_flat ix1 0 float0 with
        | None => None
        | Some (Raise e) => Some (Raise e)
        | Some (Ret (dot, ix1)) => rows_loop fuel arr1_flat arr2_flat ix1 (res_ ++ [dot])
        end
      else Some (Ret res_)
  end.

(** The generator the compiler makes of a generator expression, and the product of
    two matrices by the linear algebra module. *)
Context {G : Type} `{Generator G A} (expression : list A → G).
Context (applied : A → res A).
Context (matrixMult : list A → list Z → list A → list Z → res (list A * list Z)).

Definition dotProduct (fuel : nat) (arr1 arr2 : array A) : res A :=
  len1 ← len arr1; len2 ← len arr2;
  if bool_decide (len1 ≠ len2) then Raise ValueError
  else
    products ← mapR (λ ix, x ← getitem arr1 (Ix ix); x ← scalar x;
                           y ← getitem arr2 (Ix ix); y ← scalar y; Ret (mul x y)) (xrange len1);
    v ← Sum (λ x y, Ret (add x y)) applied fuel (expression products) (of_int 0);
    of_option InternalError v.

(** [len(arr.shape)]. *)
Notation rank arr := (length (shape arr)).

(** The branches for arguments of as many dimensions. *)
Definition dot_same (fuel : nat) (arr1 arr2 : array A) : res (item A) :=
  if bool_decide (rank arr1 ≠ rank arr2) then Raise ValueError
  else if bool_decide (rank arr1 = 1) then v ← dotProduct fuel arr1 arr2; Ret (Scalar v)
  else if bool_decide (rank arr1 = 2) then
    columns ← py_index (shape arr1) 1; rows ← py_index (shape arr2) 0;
    if bool_decide (columns ≠ rows) then Raise ValueError
    else
      '(flattenedValues, newShape) ← matrixMult (values arr1) (shape arr1) (values arr2) (shape arr2);
      Ret (Sub (Array newShape flattenedValues))
  else Raise (OtherException "Exception").

(** [_dot] of two arrays. The call of [_dot] on the reshaped vector has two arguments
    of two dimensions. *)
Definition dot (fuel : nat) (arr1 arr2 : array A) : option (res (item A)) :=
  if bool_decide (rank arr1 = 1 ∧ rank arr2 = 2) then
    Some (n ← py_index (shape arr1) 0;
          arr1 ← reshape arr1 [1%Z; n];
          product ← dot_same fuel arr1 arr2;
          getitem_of product 0)
  else if bool_decide (rank arr1 = 2 ∧ rank arr2 = 1) then
    match rows_loop fuel (values arr1) (values arr2) 0 [] with
    | None => None
    | Some (Raise e) => Some (Raise e)
    | Some (Ret l) => Some (Ret (Sub (Array [Z.of_nat (length l)] l)))
    end
  else Some (dot_same fuel arr1 arr2).
End dot.

(** ** Well-formed arrays *)

Definition prod (dims : list Z) : Z := foldr Z.mul 1%Z dims.

(** No dimension is negative and there are as many values as the shape says. *)
Definition wf {A} (a : array A) : Prop := Forall (λ d, 0 ≤ d)%Z (shape a) ∧ size a = prod (shape a).

Lemma foldl_prod l : ∀ z, foldl Z.mul z l = (z * prod l)%Z.
Proof. unfold prod. induction l as [|d l IH]; intros z; cbn; [lia|]. rewrite IH. ring. Qed.

Lemma prod_nonneg l : Forall (λ d, 0 ≤ d)%Z l → (0 ≤ prod l)%Z.
Proof. induction 1; cbn; [lia|]. unfold prod in *. nia. Qed.

(** *** Reading blocks of a list *)

Lemma py_index_nonneg {A} (l : list A) i :
  (0 ≤ i)%Z → py_index l i = of_option IndexError (l !! Z.to_nat i).
Proof. intros Hi. unfold py_index. by rewrite (proj2 (Z.leb_le 0 i) Hi). Qed.

Lemma py_index_negative {A} (l : list A) i :
  (- Z.of_nat (length l) ≤ i < 0)%Z → py_index l i = py_index l (Z.of_nat (length l) + i).
Proof.
  intros Hi. unfold py_index. rewrite (proj2 (Z.leb_gt 0 i)), (proj2 (Z.leb_le _ i)) by lia.
  by rewrite (proj2 (Z.leb_le 0 (_ + i))) by lia.
Qed.

Lemma read_block {A} (l : list A) s n :
  (0 ≤ s)%Z → (0 ≤ n)%Z → (s + n ≤ Z.of_nat (length l))%Z →
  mapR (py_index l) (xrange2 s (s + n)) = Ret (take (Z.to_nat n) (drop (Z.to_nat s) l)).
Proof.
  intros Hs Hn Hlen. apply mapR_Forall2, Forall2_same_length_lookup.
  unfold xrange2. split; [rewrite length_seqZ, length_take, length_drop; lia|].
  intros k i v Hk Hv. apply lookup_seqZ in Hk as [-> Hk].
  rewrite lookup_take in Hv. case_decide; [|done]. rewrite lookup_drop in Hv.
  rewrite py_index_nonneg by lia. replace (Z.to_nat (s + Z.of_nat k)) with (Z.to_nat s + k) by lia.
  by rewrite Hv.
Qed.

Lemma mapR_ext_seqZ {Y} (f g : Z → res Y) m m' n :
  (∀ k, (0 ≤ k < n)%Z → f (m + k)%Z = g (m' + k)%Z) → mapR f (seqZ m n) = mapR g (seqZ m' n).
Proof.
  unfold seqZ. intros Hfg. assert (Hin : ∀ k, k ∈ seq 0 (Z.to_nat n) → (0 ≤ Z.of_nat k < n)%Z).
  { intros k [_ Hk]%elem_of_seq. lia. }
  induction (seq 0 (Z.to_nat n)) as [|k l IH]; [done|]. cbn.
  rewrite (Z.add_comm _ m), (Z.add_comm _ m'), Hfg by (apply Hin; left).
  destruct (g _); [|done]. cbn. rewrite IH; [done|]. intros; apply Hin; by right.
Qed.

(** The row an index names: a negative one counts from the end. *)
Definition norm (d i : Z) : Z := if (0 <=? i)%Z then i else (d + i)%Z.

Lemma norm_range d i : (- d ≤ i < d)%Z → (0 ≤ norm d i < d)%Z.
Proof. intros. unfold norm. case (Z.leb_spec 0 i); lia. Qed.

Definition row {A} (a : array A) (i : Z) : array A :=
  let s := drop 1 (shape a) in
  Array s (take (Z.to_nat (prod s)) (drop (Z.to_nat (i * prod s)) (values a))).

Section indexing.
Context {A : Type}.
Implicit Types a : array A.

Lemma wf_row a d s i : wf a → shape a = d :: s → (0 ≤ i < d)%Z → wf (row a i).
Proof.
  intros [Hs Hn] Hsh Hi. unfold wf, size, row in *. rewrite Hsh in *. cbn [drop shape values].
  rewrite drop_0. inversion Hs; subst. split; [done|]. cbn in Hn. pose proof (prod_nonneg s ltac:(done)).
  fold (prod s) in Hn. set (p := prod s) in *.
  assert (0 ≤ i * p)%Z by nia. assert (i * p + p ≤ d * p)%Z by nia.
  rewrite length_take, length_drop. lia.
Qed.

(** Indexing an array of two or more dimensions gives a row; the negative indices
    count from the end. *)
Lemma getitem_row a d s i :
  wf a → shape a = d :: s → s ≠ [] → (- d ≤ i < d)%Z →
  getitem a (Ix i) = Ret (Sub (row a (norm d i))).
Proof.
  intros [Hs Hn] Hsh Hne Hi. unfold getitem, stride, row, size in *. rewrite Hsh in *.
  rewrite bool_decide_false by (destruct s; [done|]; cbn; lia). cbn [drop]. rewrite drop_0.
  inversion Hs; subst. rewrite foldl_prod, Z.mul_1_l.
  pose proof (prod_nonneg s ltac:(done)) as Hp. cbn in Hn. fold (prod s) in Hn.
  pose proof (norm_range d i Hi). set (p := prod s) in *.
  assert (Hb : mapR (py_index (values a)) (xrange2 (i * p) (i * p + p)) =
               mapR (py_index (values a)) (xrange2 (norm d i * p) (norm d i * p + p))).
  { unfold xrange2. replace (i * p + p - i * p)%Z with p by lia.
    replace (norm d i * p + p - norm d i * p)%Z with p by lia.
    apply mapR_ext_seqZ. intros k Hk. unfold norm. case (Z.leb_spec 0 i); intros Hsg; [done|].
    rewrite py_index_negative by nia. f_equal. nia. }
  assert (0 ≤ norm d i * p)%Z by nia. assert (norm d i * p + p ≤ d * p)%Z by nia.
  rewrite Hb, read_block by lia. done.
Qed.

Lemma getitem_vector a d i :
  wf a → shape a = [d] → (- d ≤ i < d)%Z →
  getitem a (Ix i) = v ← of_option IndexError (values a !! Z.to_nat (norm d i)); Ret (Scalar v).
Proof.
  intros [_ Hn] Hsh Hi. unfold getitem, size in *. rewrite Hsh in *. cbn in Hn.
  rewrite bool_decide_true by done. unfold norm. case (Z.leb_spec 0 i); intros.
  - by rewrite py_index_nonneg.
  - rewrite py_index_negative, py_index_nonneg by lia. by rewrite Hn, Z.mul_1_r.
Qed.

(** *** The position of an element *)

Fixpoint offset (dims ixs : list Z) : Z :=
  match dims, ixs with
  | _ :: dims, i :: ixs => i * prod dims + offset dims ixs
  | _, _ => 0
  end%Z.

Definition within (dims ixs : list Z) : Prop := Forall2 (λ d i, 0 ≤ i < d)%Z dims ixs.

Lemma offset_range dims ixs : within dims ixs → (0 ≤ offset dims ixs < prod dims)%Z.
Proof. induction 1 as [|d i dims ixs Hi _ IH]; cbn; [lia|]. fold (prod dims). nia. Qed.

Lemma value_at_ok a ixs :
  wf a → shape a ≠ [] → within (shape a) ixs →
  value_at a ixs = of_option IndexError (values a !! Z.to_nat (offset (shape a) ixs)).
Proof.
  intros Hwf Hne Hin. remember (shape a) as dims eqn:Hsh.
  revert a ixs Hwf Hsh Hin. induction dims as [|d dims IH]; intros a ixs Hwf Hsh Hin; [done|].
  inversion Hin as [|? i ? ixs' Hi Hin']; subst. unfold value_at. cbn [subscripts getitem_of].
  assert (Hni : norm d i = i) by (unfold norm; case (Z.leb_spec 0 i); lia).
  destruct dims as [|d' dims].
  - inversion Hin'; subst. rewrite (getitem_vector a d) by (done || lia). rewrite Hni. cbn.
    replace (i * 1 + 0)%Z with i by lia. by destruct (values a !! Z.to_nat i).
  - rewrite (getitem_row a d (d' :: dims)) by (done || lia). rewrite Hni. cbn [mbind res_bind].
    change (value_at (row a i) ixs' = of_option IndexError
      (values a !! Z.to_nat (offset (d :: d' :: dims) (i :: ixs')))).
    assert (Hrow : shape (row a i) = d' :: dims) by (cbn; by rewrite <- Hsh).
    rewrite (IH ltac:(done) (row a i) ixs') by (try done; by eapply wf_row).
    unfold row. cbn [values]. rewrite <- Hsh. cbn [drop]. rewrite ?drop_0.
    pose proof (offset_range _ _ Hin') as Ho. cbn [offset].
    fold (prod (d' :: dims)). set (p := prod (d' :: dims)) in *. fold (offset (d' :: dims) ixs').
    change (match ixs' with [] => 0 | i0 :: ixs => i0 * prod dims + offset dims ixs end)%Z
      with (offset (d' :: dims) ixs').
    set (o := offset (d' :: dims) ixs') in *. rewrite lookup_take, decide_True by lia.
    rewrite lookup_drop. do 2 f_equal. nia.
Qed.
End indexing.

(** ** Transposition *)

Lemma bind_blocks {X Y} (g : X → list Y) n (l : list X) :
  (∀ x, length (g x) = n) →
  length (l ≫= g) = length l * n ∧
  ∀ j i, i < n → (l ≫= g) !! (j * n + i) = x ← l !! j; g x !! i.
Proof.
  intros Hg. induction l as [|x l [IHl IH]]; [by split|].
  rewrite bind_cons. split.
  { rewrite length_app, Hg, IHl. cbn. lia. }
  intros [|j] i Hi; cbn [Nat.mul Nat.add lookup list_lookup].
  - by rewrite lookup_app_l by (by rewrite Hg).
  - rewrite lookup_app_r by (rewrite Hg; lia).
    replace (n + j * n + i - length (g x)) with (j * n + i) by (rewrite Hg; lia). by apply IH.
Qed.

Lemma offset_onto dims : ∀ k, (0 ≤ k < prod dims)%Z → Forall (λ d, 0 ≤ d)%Z dims →
  ∃ ixs, within dims ixs ∧ offset dims ixs = k.
Proof.
  induction dims as [|d dims IH]; intros k Hk Hd.
  { exists []. split; [constructor|]. cbn in Hk. cbn. lia. }
  inversion Hd; subst. cbn in Hk. fold (prod dims) in Hk. pose proof (prod_nonneg dims ltac:(done)).
  assert (Hp : (0 < prod dims)%Z) by nia.
  destruct (IH (k mod prod dims)%Z) as (ixs & Hin & Ho); [by apply Z.mod_pos_bound|done|].
  exists (k / prod dims :: ixs)%Z. split.
  - constructor; [|done]. split; [apply Z.div_pos; lia|apply Z.div_lt_upper_bound; lia].
  - cbn. rewrite Ho. rewrite (Z.div_mod k (prod dims)) at 3 by lia. ring.
Qed.

Lemma mapR_total {X Y} (f : X → res Y) l :
  (∀ x, x ∈ l → ∃ y, f x = Ret y) → ∃ r, mapR f l = Ret r.
Proof.
  induction l as [|x l IH]; intros Hf; [by exists []|].
  destruct (Hf x) as [y Hy]; [left|]. destruct IH as [r Hr]; [intros; apply Hf; by right|].
  exists (y :: r). cbn. rewrite Hy. cbn. by rewrite Hr.
Qed.

(** The indices a comprehension runs through enumerate an array of the reversed shape. *)
Definition enumerates (dims : list Z) (I : list (list Z)) : Prop :=
  Z.of_nat (length I) = prod (reverse dims) ∧
  (∀ ixs, ixs ∈ I → within dims ixs) ∧
  ∀ ixs, within dims ixs → I !! Z.to_nat (offset (reverse dims) (reverse ixs)) = Some ixs.

Lemma elem_of_xrange i d : i ∈ xrange d ↔ (0 ≤ i < d)%Z.
Proof. unfold xrange. rewrite elem_of_seqZ. lia. Qed.

Lemma arange_lookup i d : (0 ≤ i < d)%Z → xrange d !! Z.to_nat i = Some i.
Proof. intros. apply lookup_seqZ. lia. Qed.

Lemma length_xrange d : length (xrange d) = Z.to_nat d.
Proof. apply length_seqZ. Qed.

Lemma pairs_enumerate d1 d2 :
  (0 ≤ d1)%Z → (0 ≤ d2)%Z → enumerates [d1; d2] (pairs d1 d2).
Proof.
  intros H1 H2. unfold pairs.
  destruct (bind_blocks (λ iy, (λ ix, [ix; iy]) <$> xrange d1) (Z.to_nat d1) (xrange d2)) as [Hl Hlk].
  { intros. by rewrite length_fmap, length_xrange. }
  split; [|split].
  - rewrite Hl, length_xrange. cbn. lia.
  - intros ixs (iy & (ix & -> & Hx)%list_elem_of_fmap & Hy)%list_elem_of_bind.
    apply elem_of_xrange in Hx, Hy. unfold within. rewrite !Forall2_cons. split_and!; (constructor || lia).
  - intros ixs Hin. inversion Hin as [|? ix ? ? Hx Hin2]; subst.
    inversion Hin2 as [|? iy ? ? Hy Hin3]; subst. inversion Hin3; subst. cbn.
    replace (Z.to_nat _) with (Z.to_nat iy * Z.to_nat d1 + Z.to_nat ix) by nia.
    rewrite Hlk, arange_lookup by lia. cbn. by rewrite list_lookup_fmap, arange_lookup.
Qed.

Lemma triples_enumerate d1 d2 d3 :
  (0 ≤ d1)%Z → (0 ≤ d2)%Z → (0 ≤ d3)%Z → enumerates [d1; d2; d3] (triples d1 d2 d3).
Proof.
  intros H1 H2 H3. unfold triples.
  set (plane iz := xrange d2 ≫= λ iy, (λ ix, [ix; iy; iz]) <$> xrange d1).
  assert (Hpl : ∀ iz, length (plane iz) = Z.to_nat d2 * Z.to_nat d1 ∧
    ∀ j i, i < Z.to_nat d1 →
      plane iz !! (j * Z.to_nat d1 + i) = iy ← xrange d2 !! j; ((λ ix, [ix; iy; iz]) <$> xrange d1) !! i).
  { intros iz. rewrite <- (length_xrange d2). apply bind_blocks. intros.
    by rewrite length_fmap, length_xrange. }
  destruct (bind_blocks plane (Z.to_nat d2 * Z.to_nat d1) (xrange d3)) as [Hl Hlk].
  { apply Hpl. }
  split; [|split].
  - rewrite Hl, length_xrange. cbn. lia.
  - intros ixs (iz & (iy & (ix & -> & Hx)%list_elem_of_fmap & Hy)%list_elem_of_bind & Hz)%list_elem_of_bind.
    apply elem_of_xrange in Hx, Hy, Hz. unfold within. rewrite !Forall2_cons. split_and!; (constructor || lia).
  - intros ixs Hin. inversion Hin as [|? ix ? ? Hx Hin2]; subst.
    inversion Hin2 as [|? iy ? ? Hy Hin3]; subst. inversion Hin3 as [|? iz ? ? Hz Hin4]; subst.
    inversion Hin4; subst. cbn.
    replace (Z.to_nat _) with
      (Z.to_nat iz * (Z.to_nat d2 * Z.to_nat d1) + (Z.to_nat iy * Z.to_nat d1 + Z.to_nat ix)) by nia.
    rewrite Hlk, arange_lookup by nia. cbn. rewrite (proj2 (Hpl iz)), arange_lookup by lia. cbn.
    by rewrite list_lookup_fmap, arange_lookup.
Qed.

Lemma prod_reverse dims : prod (reverse dims) = prod dims.
Proof. unfold prod. apply (foldr_permutation_proper eq); [solve_proper|intros; lia|apply reverse_Permutation]. Qed.

Section transposition.
Context {A : Type}.
Implicit Types a b : array A.

Lemma value_at_some a ixs :
  wf a → shape a ≠ [] → within (shape a) ixs →
  ∃ v, value_at a ixs = Ret v ∧ values a !! Z.to_nat (offset (shape a) ixs) = Some v.
Proof.
  intros Hwf Hne Hin. rewrite value_at_ok by done.
  destruct (values a !! _) as [v|] eqn:Hv; [by exists v|]. apply lookup_ge_None in Hv.
  pose proof (offset_range _ _ Hin). destruct Hwf as [_ Hn]. unfold size in Hn. lia.
Qed.

(** Arrays of one shape with the same elements are the same. *)
Lemma array_ext a b :
  wf a → wf b → shape a ≠ [] → shape b = shape a →
  (∀ ixs, within (shape a) ixs → value_at a ixs = value_at b ixs) → a = b.
Proof.
  intros Ha Hb Hne Hs Heq. destruct a as [dims va], b as [dims' vb]. cbn in Hs, Hne, Heq. subst dims'. f_equal.
  assert (Hlen : length va = length vb).
  { destruct Ha as [_ Ha], Hb as [_ Hb]. unfold size in *. cbn [shape values] in *. lia. }
  apply list_eq_same_length with (length vb); [done|done|]. intros k x y Hk Hx Hy.
  destruct (offset_onto dims (Z.of_nat k)) as (ixs & Hin & Ho).
  { destruct Hb as [_ Hb]. unfold size in Hb. cbn [shape values] in Hb. lia. }
  { apply Ha. }
  specialize (Heq ixs Hin). rewrite !value_at_ok in Heq by done. cbn in Heq.
  rewrite Ho, Nat2Z.id, Hx, Hy in Heq. by injection Heq.
Qed.

(** What [transpose] gives. *)
Definition transposes a b : Prop :=
  wf b ∧ shape b = reverse (shape a) ∧
  ∀ ixs, within (shape a) ixs → value_at b (reverse ixs) = value_at a ixs.

Lemma enumerated a I :
  wf a → shape a ≠ [] → enumerates (shape a) I →
  ∃ vals, mapR (value_at a) I = Ret vals ∧ transposes a (Array (reverse (shape a)) vals).
Proof.
  intros Hwf Hne (Hlen & Hall & Hlk).
  destruct (mapR_total (value_at a) I) as [vals Hvals].
  { intros ixs Hin. destruct (value_at_some a ixs) as (v & Hv & _); [auto..|by exists v]. }
  exists vals. split; [done|]. apply mapR_Ret in Hvals.
  assert (Hb : wf (Array (reverse (shape a)) vals)).
  { split; [apply Forall_reverse, Hwf|]. unfold size. cbn [values shape].
    by rewrite <- (Forall2_length _ _ _ Hvals). }
  split; [done|]. split; [done|]. intros ixs Hin.
  destruct (value_at_some (Array (reverse (shape a)) vals) (reverse ixs)) as (v & -> & Hv).
  { done. } { cbn. intros H. apply Hne. by rewrite <- (reverse_involutive (shape a)), H. }
  { cbn. by apply Forall2_reverse. }
  destruct (Forall2_lookup_r _ _ _ _ _ Hvals Hv) as (ixs' & Hx & Hx').
  cbn [shape] in Hx. rewrite (Hlk _ Hin) in Hx. by injection Hx as <-.
Qed.

Lemma transpose_transposes a :
  wf a → 1 ≤ length (shape a) ≤ 3 → ∃ b, transpose a = Ret b ∧ transposes a b.
Proof.
  intros Hwf Hdim. unfold transpose.
  assert (Hne : shape a ≠ []) by (intros H; rewrite H in Hdim; cbn in Hdim; lia).
  pose proof (proj1 Hwf) as Hd. destruct (shape a) as [|d1 [|d2 [|d3 [|]]]] eqn:Hs; cbn in Hdim; try lia.
  - exists a. split; [done|]. split; [done|]. rewrite Hs. split; [done|].
    intros ixs Hin. inversion Hin as [|? i ? ? ? Hin']; subst. by inversion Hin'.
  - rewrite !Forall_cons in Hd. destruct (enumerated a (pairs d1 d2)) as (vals & -> & Ht).
    { done. } { by rewrite Hs. } { rewrite Hs. by apply pairs_enumerate; apply Hd. }
    rewrite Hs in Ht. by eexists.
  - rewrite !Forall_cons in Hd. destruct (enumerated a (triples d1 d2 d3)) as (vals & -> & Ht).
    { done. } { by rewrite Hs. } { rewrite Hs. by apply triples_enumerate; apply Hd. }
    rewrite Hs in Ht. by eexists.
Qed.

(** [transpose] of a well-formed array of one, two or three dimensions returns
    a well-formed array with the dimensions reversed, in which the element the
    source reads as [b[k][j][i]] is [a[i][j][k]], for all indices in range and
    also when a dimension is 0; and transposing it again gives the array back. *)
Theorem transpose_reverses_the_axes a :
  wf a → 1 ≤ length (shape a) ≤ 3 →
  ∃ b, transpose a = Ret b ∧ wf b ∧ shape b = reverse (shape a) ∧
    (∀ ixs, within (shape a) ixs → value_at b (reverse ixs) = value_at a ixs) ∧
    transpose b = Ret a.
Proof.
  intros Hwf Hdim. destruct (transpose_transposes a Hwf Hdim) as (b & Hb & Hwb & Hsb & Hvb).
  exists b. split_and!; try done.
  destruct (transpose_transposes b Hwb) as (c & -> & Hwc & Hsc & Hvc).
  { by rewrite Hsb, length_reverse. }
  rewrite Hsb, reverse_involutive in Hsc. f_equal.
  assert (Hne : shape c ≠ []) by (rewrite Hsc; intros H; rewrite H in Hdim; cbn in Hdim; lia).
  apply array_ext; [done..|]. rewrite Hsc. intros ixs Hin.
  rewrite <- (Hvb ixs Hin), <- (Hvc (reverse ixs)); [by rewrite reverse_involutive|].
  rewrite Hsb. by apply Forall2_reverse.
Qed.
End transposition.

Lemma transpose_reverses_the_axes_witness :
  transpose (Array [2; 3]%Z [1; 2; 3; 4; 5; 6]%Z) = Ret (Array [3; 2]%Z [1; 4; 2; 5; 3; 6]%Z) ∧
  ∃ b, transpose (Array [2; 3]%Z [1; 2; 3; 4; 5; 6]%Z) = Ret b ∧
    transpose b = Ret (Array [2; 3]%Z [1; 2; 3; 4; 5; 6]%Z).
Proof.
  split; [reflexivity|].
  destruct (transpose_reverses_the_axes (Array [2; 3]%Z [1; 2; 3; 4; 5; 6]%Z)) as (b & Hb & _ & _ & _ & Hc).
  - split; [repeat constructor; lia|reflexivity].
  - cbn. lia.
  - by exists b.
Defined.

(** ** Nested lists *)

Section nesting.
Context {A : Type}.
Implicit Types x y : nested A.

(** A list of lists without jags, with its dimensions, and its values in order. *)
Fixpoint rect (dims : list Z) x : Prop :=
  match dims, x with
  | [], Leaf _ => True
  | d :: dims, Lst l => Z.of_nat (length l) = d ∧ Forall (rect dims) l
  | _, _ => False
  end.
Fixpoint flat x : list A := match x with Leaf a => [a] | Lst l => l ≫= flat end.

Lemma flat_length dims : ∀ x, rect dims x → Z.of_nat (length (flat x)) = prod dims.
Proof.
  induction dims as [|d dims IH]; intros [a|l]; cbn [rect]; try done. intros [<- Hl].
  cbn [flat prod foldr]. fold (prod dims). induction Hl as [|x l Hx _ IHl]; [done|].
  rewrite bind_cons. cbn [length].
  rewrite length_app, Nat2Z.inj_add, IHl, (IH x Hx). lia.
Qed.

(** The dimensions and the values determine the list. *)
Lemma flat_inj dims : ∀ x y, rect dims x → rect dims y → flat x = flat y → x = y.
Proof.
  induction dims as [|d dims IH]; intros [a|l] [b|k]; cbn [rect flat]; try done.
  { intros _ _ [=->]. done. }
  intros [<- Hl] [Hk' Hk] Heq. f_equal. revert k Hk Hk' Heq.
  induction Hl as [|x l Hx _ IHl]; intros [|y k] Hk Hlen Heq; cbn in Hlen; try lia; [done|].
  apply Forall_cons in Hk as [Hy Hk].
  rewrite !bind_cons in Heq. apply app_inj_1 in Heq as [H1 H2].
  - f_equal; [by apply IH|]. apply IHl; [done|lia|done].
  - pose proof (flat_length _ _ Hx). pose proof (flat_length _ _ Hy). lia.
Qed.

(** *** tolist *)

Lemma blocks_make_it_up {E} (f : E → list A) (vs : list E) p (l : list (nested A)) : ∀ n k,
  Forall2 (λ i x, flat x = take p (drop (i * p) vs) ≫= f) (seq k n) l →
  l ≫= flat = take (n * p) (drop (k * p) vs) ≫= f.
Proof.
  intros n. revert l. induction n as [|n IH]; intros l k Hl; cbn [seq] in Hl.
  { by inversion Hl. }
  inversion Hl as [|? x ? l' Hx Hl']; subst.
  rewrite bind_cons, Hx, (IH l' (S k) Hl').
  rewrite <- bind_app. f_equal. replace (S k * p) with (k * p + p) by lia.
  rewrite <- drop_drop. set (r := drop (k * p) vs).
  change (S n * p) with (p + n * p). by rewrite take_take_drop.
Qed.
End nesting.

Section tolist_facts.
Context {E A : Type} (leaf : E → nested A).
Implicit Types a : array E.

(** Every value is a leaf. *)
Definition leaves (vs : list E) : Prop := Forall (λ e, rect [] (leaf e)) vs.

Lemma mapR_seqZ {Y} (f : Z → res Y) d l :
  mapR f (xrange d) = Ret l → Forall2 (λ i y, f (Z.of_nat i) = Ret y) (seq 0 (Z.to_nat d)) l.
Proof.
  intros Hl%mapR_Ret. unfold xrange, seqZ in Hl. apply Forall2_fmap_l in Hl.
  eapply Forall2_impl; [exact Hl|]. intros i y. cbn. by rewrite Z.add_0_r.
Qed.

(** One row, read and walked. *)
Definition walk_item (fuel : nat) a (idx : Z) : res (nested A) :=
  val ← getitem a (Ix idx); walk leaf fuel val.

Definition walked (dims : list Z) (vs : list E) (r : res (nested A)) : Prop :=
  ∃ x, r = Ret x ∧ rect dims x ∧ flat x = vs ≫= (λ e, flat (leaf e)).

Lemma size_rows a d dims :
  wf a → shape a = d :: dims →
  (0 ≤ d)%Z ∧ (0 ≤ prod dims)%Z ∧ length (values a) = Z.to_nat d * Z.to_nat (prod dims).
Proof.
  intros [Hn Hlen] Hs. unfold size in Hlen. rewrite Hs in Hlen, Hn. cbn in Hlen.
  fold (prod dims) in Hlen. inversion Hn. pose proof (prod_nonneg dims ltac:(done)). lia.
Qed.

Lemma walk_item_ok a d dims fuel i :
  wf a → shape a = d :: dims → leaves (values a) → 0 < fuel → (0 ≤ i < d)%Z →
  (dims ≠ [] → ∀ b, wf b → shape b = dims → leaves (values b) →
    walked dims (values b) (walk leaf fuel (Sub b))) →
  walked dims (take (Z.to_nat (prod dims)) (drop (Z.to_nat i * Z.to_nat (prod dims)) (values a)))
    (walk_item fuel a i).
Proof.
  intros Hwf Hs Hlv Hfuel Hi Hrec. destruct (size_rows a d dims Hwf Hs) as (Hd & Hp & Hlen).
  assert (Hni : norm d i = i) by (unfold norm; case (Z.leb_spec 0 i); lia).
  unfold walk_item. destruct dims as [|d' dims].
  - rewrite (getitem_vector a d), Hni by (done || lia). cbn in Hlen.
    destruct (values a !! Z.to_nat i) as [v|] eqn:Hv; [|apply lookup_ge_None in Hv; lia].
    exists (leaf v). destruct fuel as [|fuel]; [lia|]. split; [done|].
    split; [by apply (Forall_lookup_1 _ _ _ _ Hlv Hv)|].
    cbn [prod foldr]. change (Z.to_nat 1) with 1. rewrite Nat.mul_1_r, (drop_S _ v) by done.
    cbn. by rewrite app_nil_r.
  - rewrite (getitem_row a d (d' :: dims)), Hni by (done || lia). cbn [mbind res_bind].
    destruct (Hrec ltac:(done) (row a i)) as (x & Hx & Hr & Hf).
    { by eapply wf_row. } { cbn. by rewrite Hs. } { by apply Forall_take, Forall_drop. }
    exists x. split; [done|]. split; [done|]. rewrite Hf. unfold row. cbn [values]. rewrite Hs.
    cbn [drop]. by rewrite Z2Nat.inj_mul by lia.
Qed.

Lemma walk_ok (dims : list Z) : ∀ a fuel,
  wf a → shape a = dims → dims ≠ [] → leaves (values a) → length dims < fuel →
  walked dims (values a) (walk leaf fuel (Sub a)).
Proof.
  induction dims as [|d dims IH]; intros a [|fuel] Hwf Hs Hne Hlv Hfuel; try done; [cbn in *; lia|].
  destruct (size_rows a d dims Hwf Hs) as (Hd & Hp & Hlen). cbn in Hfuel.
  assert (Hitem : ∀ i, (0 ≤ i < d)%Z → walked dims
    (take (Z.to_nat (prod dims)) (drop (Z.to_nat i * Z.to_nat (prod dims)) (values a)))
    (walk_item fuel a i)).
  { intros i Hi. eapply walk_item_ok; eauto; [lia|]. intros. apply IH; auto. lia. }
  destruct (mapR_total (walk_item fuel a) (xrange d)) as [l Hl].
  { intros i Hi%elem_of_xrange. destruct (Hitem i Hi) as (x & Hx & _). by exists x. }
  exists (Lst l). assert (Hlen1 : len a = Ret d) by (unfold len; by rewrite Hs).
  split; [cbn [walk]; rewrite Hlen1; cbn [mbind res_bind]; unfold walk_item in Hl; by rewrite Hl|].
  apply mapR_seqZ in Hl.
  assert (Hx : ∀ k x, l !! k = Some x → rect dims x ∧
    flat x = take (Z.to_nat (prod dims)) (drop (k * Z.to_nat (prod dims)) (values a)) ≫= (λ e, flat (leaf e))).
  { intros k x Hk. destruct (Forall2_lookup_r _ _ _ _ _ Hl Hk) as (i & Hi & Hx).
    apply lookup_seq in Hi as [-> Hi]. destruct (Hitem (Z.of_nat k)) as (x' & Hx' & Hr & Hf); [lia|].
    cbn in Hx. rewrite Hx in Hx'. injection Hx' as ->. by rewrite Nat2Z.id in Hf. }
  split.
  - split; [rewrite <- (Forall2_length _ _ _ Hl), length_seq; lia|].
    apply Forall_lookup_2. intros k x Hk. by apply (Hx k x).
  - cbn [flat]. rewrite (blocks_make_it_up (λ e, flat (leaf e)) (values a) (Z.to_nat (prod dims)) l (Z.to_nat d) 0).
    + cbn [Nat.mul]. by rewrite drop_0, take_ge by lia.
    + apply Forall2_same_length_lookup. split; [by eapply Forall2_length|]. intros k i x Hk Hxk.
      apply lookup_seq in Hk as [-> Hk]. by apply Hx.
Qed.
End tolist_facts.

(** *** array *)

Section np_array_facts.
Context {A : Type}.
Implicit Types (x : nested A) (l : list (nested A)).

Lemma rect_head d dims l :
  rect (d :: dims) (Lst l) → (0 < d)%Z → ∃ x, py_index l 0 = Ret x ∧ rect dims x.
Proof. intros [<- Hl] Hd. destruct Hl as [|x l Hx Hl]; [cbn in Hd; lia|]. by exists x. Qed.

Lemma rect_list d dims x : rect (d :: dims) x → ∃ l, x = Lst l.
Proof. destruct x as [|l]; [done|]. by exists l. Qed.

Lemma sum_lists_ok d dims l :
  Forall (rect (d :: dims)) l →
  ∃ l', sum_lists l = Ret l' ∧ Forall (rect dims) l' ∧ l' ≫= flat = l ≫= flat.
Proof.
  intros Hl. unfold sum_lists.
  assert (∃ ls, mapR list_of l = Ret ls ∧ Forall (rect dims) (concat ls) ∧
    concat ls ≫= flat = l ≫= flat) as (ls & -> & Hr & Hf).
  { induction Hl as [|[|k] l Hx _ (ls & Hls & Hr & Hf)]; [by exists []|done|].
    destruct Hx as [_ Hk]. exists (k :: ls). cbn [mapR list_of mbind res_bind]. rewrite Hls. split; [done|].
    cbn [concat]. split; [by apply Forall_app|]. by rewrite bind_app, bind_cons, Hf. }
  by exists (concat ls).
Qed.

Lemma rect_leaves l : Forall (rect []) l → l = Leaf <$> (l ≫= flat).
Proof. induction 1 as [|[a|] l Hx _ IH]; [done| |done]. rewrite bind_cons. cbn. by f_equal. Qed.

Lemma NpArray_rect dims x :
  rect dims x → 1 ≤ length dims ≤ 4 → Forall (λ d, 0 < d)%Z dims →
  NpArray x = Ret (Array dims (Leaf <$> flat x)).
Proof.
  intros Hx Hdim Hpos. destruct dims as [|d dims]; [cbn in Hdim; lia|].
  destruct (rect_list _ _ _ Hx) as [l ->]. unfold NpArray. cbn [list_of mbind res_bind].
  apply Forall_cons in Hpos as [Hd Hpos]. destruct Hx as [Hlen Hl].
  rewrite bool_decide_false by (destruct l; cbn in *; lia). rewrite Hlen.
  destruct (rect_head d dims l (conj Hlen Hl) Hd) as (x0 & -> & H0). cbn [mbind res_bind flat].
  destruct dims as [|d0 dims].
  { destruct x0; [|done]. cbn [isinstance_list negb]. by rewrite <- rect_leaves. }
  destruct (rect_list _ _ _ H0) as [l0 ->]. cbn [isinstance_list negb].
  apply Forall_cons in Hpos as [Hd0 Hpos]. unfold item0, nested_len. cbn [list_of mbind res_bind].
  destruct (rect_head d0 dims l0 H0 Hd0) as (x00 & -> & H00). cbn [mbind res_bind].
  destruct H0 as [-> _]. destruct (sum_lists_ok d0 dims l Hl) as (l1 & -> & Hl1 & <-). cbn [mbind res_bind].
  destruct dims as [|d00 dims].
  { destruct x00; [|done]. cbn [isinstance_list negb]. by rewrite <- rect_leaves. }
  destruct (rect_list _ _ _ H00) as [l00 ->]. cbn [isinstance_list negb list_of mbind res_bind].
  apply Forall_cons in Hpos as [Hd00 Hpos].
  destruct (rect_head d00 dims l00 H00 Hd00) as (x000 & -> & H000). cbn [mbind res_bind].
  destruct H00 as [-> _]. destruct (sum_lists_ok d00 dims l1 Hl1) as (l2 & -> & Hl2 & <-). cbn [mbind res_bind].
  destruct dims as [|d000 [|]]; [| |cbn in Hdim; lia].
  { destruct x000; [|done]. cbn [isinstance_list negb]. by rewrite <- rect_leaves. }
  destruct (rect_list _ _ _ H000) as [l000 ->]. cbn [isinstance_list negb list_of mbind res_bind].
  apply Forall_cons in Hpos as [Hd000 _].
  destruct (rect_head d000 [] l000 H000 Hd000) as (x0000 & -> & H0000). cbn [mbind res_bind].
  destruct H000 as [-> _]. destruct (sum_lists_ok d000 [] l2 Hl2) as (l3 & -> & Hl3 & <-). cbn [mbind res_bind].
  destruct x0000; [|done]. cbn [isinstance_list negb]. by rewrite <- rect_leaves.
Qed.

(** Arrays of one to four dimensions, none of them 0, and nested lists without
    jags correspond, both ways: [tolist] of a well-formed array ends within as many
    levels as it has dimensions and gives a list of its shape, of which [np.array]
    makes the same shape and values; and [np.array] of a list without jags gives a
    well-formed array that [tolist] turns back into that list. *)
Theorem nested_lists_roundtrip (dims : list Z) (fuel : nat) :
  1 ≤ length dims ≤ 4 → Forall (λ d, 0 < d)%Z dims → length dims < fuel →
  (∀ a : array A, wf a → shape a = dims →
     ∃ x, tolist Leaf fuel a = Ret x ∧ rect dims x ∧
       NpArray x = Ret (Array dims (Leaf <$> values a))) ∧
  (∀ x, rect dims x →
     ∃ b, NpArray x = Ret b ∧ wf b ∧ shape b = dims ∧ tolist id fuel b = Ret x).
Proof.
  intros Hdim Hpos Hfuel. assert (Hne : dims ≠ []) by (destruct dims; [cbn in *; lia|done]). split.
  - intros a Hwf Hs. destruct (walk_ok Leaf dims a fuel) as (x & Hx & Hr & Hf); [done..| |done|].
    { apply Forall_true. done. }
    exists x. split; [done|]. split; [done|]. rewrite (NpArray_rect dims) by done. rewrite Hf.
    do 3 f_equal. clear. induction (values a) as [|v vs IH]; [done|]. by rewrite bind_cons, IH.
  - intros x Hx. set (b := Array dims (Leaf <$> flat x) : array (nested A)).
    assert (Hb : wf b).
    { split; [by eapply Forall_impl; [exact Hpos|]; cbn; lia|]. unfold size, b. cbn [values shape].
      rewrite length_fmap. by apply flat_length. }
    exists b. split; [by apply NpArray_rect|]. split; [done|]. split; [done|].
    destruct (walk_ok (@id (nested A)) dims b fuel) as (y & Hy & Hr & Hf); [done..| |done|].
    { apply Forall_fmap, Forall_true. done. }
    unfold tolist. rewrite Hy. f_equal. apply (flat_inj dims); [done..|]. rewrite Hf. cbn [values b].
    clear. induction (flat x) as [|v vs IH]; [done|]. rewrite fmap_cons, bind_cons, IH. done.
Qed.
End np_array_facts.

Lemma nested_lists_roundtrip_witness :
  ∃ b : array (nested Z),
    NpArray (Lst [Lst [Leaf 1; Leaf 2]; Lst [Leaf 3; Leaf 4]; Lst [Leaf 5; Leaf 6]]%Z) = Ret b ∧
    shape b = [3; 2]%Z ∧
    tolist id 3 b = Ret (Lst [Lst [Leaf 1; Leaf 2]; Lst [Leaf 3; Leaf 4]; Lst [Leaf 5; Leaf 6]]%Z).
Proof.
  destruct (nested_lists_roundtrip (A := Z) [3; 2]%Z 3) as [_ H]; [cbn; lia|repeat constructor|cbn; lia|].
  destruct (H (Lst [Lst [Leaf 1; Leaf 2]; Lst [Leaf 3; Leaf 4]; Lst [Leaf 5; Leaf 6]]%Z)) as (b & Hb & _ & Hs & Ht).
  - by repeat constructor.
  - by exists b.
Defined.

(** Numpy makes an array of shape (1, 0) of a list of one empty list; here it
    raises, so [tolist] of an array without columns cannot be read back. *)
Lemma empty_rows_raise :
  NpArray (Lst [Lst []] : nested Z) = Raise IndexError ∧
  tolist Leaf 3 (Array [1; 0]%Z ([] : list Z)) = Ret (Lst [Lst []]).
Proof. split; reflexivity. Qed.

(** ** The product of a matrix and a vector *)

Section matrix_vector.
Context {A : Type} `{Number A} {G : Type} `{Generator G A} (expression : list A → G).
Context (applied : A → res A).
Context (matrixMult : list A → list Z → list A → list Z → res (list A * list Z)).

(** The sum of the products, from the left. *)
Definition dot_from (z : A) (xs ys : list A) : A :=
  foldl (λ d xy, add d (mul xy.1 xy.2)) z (zip xs ys).

Lemma py_index_nat {X} (l : list X) (i : nat) : py_index l (Z.of_nat i) = of_option IndexError (l !! i).
Proof. rewrite py_index_nonneg by lia. by rewrite Nat2Z.id. Qed.

Lemma row_loop_S fuel xs ys i j z :
  row_loop (S fuel) xs ys i j z =
    if bool_decide (j < Z.of_nat (length ys))%Z then
      match py_index xs i, py_index ys j with
      | Ret x, Ret y => row_loop fuel xs ys (i + 1) (j + 1) (add z (mul x y))
      | Raise e, _ | _, Raise e => Some (Raise e)
      end
    else Some (Ret (z, i)).
Proof. done. Qed.

Lemma row_loop_ok (xs ys : list A) : ∀ k i j z,
  j + k = length ys →
  row_loop (S k) xs ys (Z.of_nat i) (Z.of_nat j) z =
    Some (if bool_decide (k = 0 ∨ i + k ≤ length xs) then
            Ret (dot_from z (take k (drop i xs)) (drop j ys), Z.of_nat (i + k))
          else Raise IndexError).
Proof.
  induction k as [|k IH]; intros i j z Hj.
  { cbn [row_loop]. rewrite bool_decide_false by lia. rewrite bool_decide_true by lia.
    cbn [take dot_from zip]. by rewrite Nat.add_0_r. }
  rewrite row_loop_S, bool_decide_true by lia. rewrite !py_index_nat.
  destruct (ys !! j) as [y|] eqn:Hy; [|apply lookup_ge_None in Hy; lia].
  destruct (xs !! i) as [x|] eqn:Hx; cbn [of_option].
  - apply lookup_lt_Some in Hx as Hi.
    replace (Z.of_nat i + 1)%Z with (Z.of_nat (S i)) by lia.
    replace (Z.of_nat j + 1)%Z with (Z.of_nat (S j)) by lia.
    rewrite (IH (S i) (S j)) by lia. f_equal.
    case_bool_decide as Hk; case_bool_decide; try lia; [|done].
    rewrite (drop_S xs x i), (drop_S ys y j) by done. unfold dot_from. cbn [take zip zip_with foldl fst snd].
    by replace (S i + k) with (i + S k) by lia.
  - apply lookup_ge_None in Hx. by rewrite bool_decide_false by lia.
Qed.

Lemma rows_loop_ok (xs ys : list A) m r : ∀ n i fuel,
  length ys = S m → i + n * S m + r = length xs → r ≤ m → n < fuel →
  (r ≠ 0 → S n < fuel) →
  ∀ acc, rows_loop fuel xs ys (Z.of_nat i) acc =
    Some (if bool_decide (r = 0) then
            Ret (acc ++ ((λ k, dot_from float0 (take (S m) (drop (i + k * S m) xs)) ys) <$> seq 0 n))
          else Raise IndexError).
Proof.
  intros n. induction n as [|n IH]; intros i [|fuel] Hys Hxs Hr Hfuel Hfuel' acc; try lia.
  - cbn [rows_loop]. case_bool_decide as Hz.
    + rewrite bool_decide_false by lia. rewrite Hys.
      change 0%Z with (Z.of_nat 0) at 1. rewrite row_loop_ok, bool_decide_false by lia. done.
    + rewrite bool_decide_true by lia. by rewrite app_nil_r.
  - cbn [rows_loop]. rewrite bool_decide_true by lia. rewrite Hys.
    change 0%Z with (Z.of_nat 0) at 1. rewrite row_loop_ok, bool_decide_true by lia.
    rewrite IH by lia. f_equal. case_bool_decide; [|done]. f_equal.
    rewrite <- app_assoc. f_equal. cbn [seq fmap list_fmap app]. f_equal.
    { by rewrite Nat.mul_0_l, Nat.add_0_r, drop_0. }
    rewrite <- fmap_S_seq, <- list_fmap_compose. apply list_fmap_ext. intros ? k _. cbn [compose].
    do 3 f_equal. lia.
Qed.

Lemma rows_loop_empty (xs : list A) : ∀ fuel i acc,
  i < length xs → rows_loop fuel xs [] (Z.of_nat i) acc = None.
Proof.
  induction fuel as [|fuel IH]; intros i acc Hi; [done|]. cbn [rows_loop length].
  rewrite bool_decide_true by lia. rewrite row_loop_S, bool_decide_false by done. by apply IH.
Qed.

(** What the product gives, from the numbers of values alone. *)
Definition matrix_vector_spec (xs ys : list A) : option (res (item A)) :=
  let n := length xs in
  let m := length ys in
  if bool_decide (n = 0) then Some (Ret (Sub (Array [0%Z] [])))
  else if bool_decide (m = 0) then None
  else if bool_decide (n mod m = 0) then
    let rows := (λ k, dot_from float0 (take m (drop (k * m) xs)) ys) <$> seq 0 (n / m) in
    Some (Ret (Sub (Array [Z.of_nat (n / m)] rows)))
  else Some (Raise IndexError).

Lemma dot_spec (a v : array A) (fuel : nat) :
  length (shape a) = 2 → length (shape v) = 1 → S (length (values a)) < fuel →
  dot expression applied matrixMult fuel a v = matrix_vector_spec (values a) (values v).
Proof.
  intros Ha Hv Hfuel. unfold dot, matrix_vector_spec. rewrite bool_decide_false by lia. rewrite bool_decide_true by lia.
  destruct (values v) as [|y ys] eqn:Hy.
  - destruct (values a) as [|x xs] eqn:Hx.
    + destruct fuel; [lia|]. done.
    + change 0%Z with (Z.of_nat 0). rewrite rows_loop_empty by (cbn; lia). done.
  - rewrite <- Hy. assert (Hm : length (values v) = S (length ys)) by (by rewrite Hy).
    set (n := length (values a)) in *. set (m := length ys) in *.
    pose proof (Nat.div_mod_eq n (S m)) as Hdiv. pose proof (Nat.mod_upper_bound n (S m) ltac:(lia)) as Hmod.
    change 0%Z with (Z.of_nat 0) at 1.
    rewrite (rows_loop_ok (values a) (values v) m (n mod S m) (n / S m) 0) by (lia || nia).
    rewrite Hm. case_bool_decide as Hz; case_bool_decide as Hn; try done.
    + rewrite Hn. cbn. done.
    + cbn [Nat.add app]. by rewrite length_fmap, length_seq.
    + exfalso. rewrite Hn in Hz. by rewrite Nat.Div0.mod_0_l in Hz.
Qed.

Lemma matrix_vector_rows (a v : array A) r c :
  wf a → wf v → shape a = [r; c] → shape v = [c] → (0 < c)%Z →
  matrix_vector_spec (values a) (values v) =
    Some (Ret (Sub (Array [r] ((λ i, dot_from float0 (values (row a i)) (values v)) <$> xrange r)))).
Proof.
  intros [Ha Hna] [_ Hnv] Hsa Hsv Hc. unfold size in *. rewrite Hsa in *. rewrite Hsv in *.
  inversion Ha as [|? ? Hr _]; subst. cbn in Hna, Hnv. unfold matrix_vector_spec, row, xrange, seqZ.
  rewrite Hsa. cbn [drop values prod foldr]. rewrite Z.mul_1_r in *.
  assert (Hn : length (values a) = Z.to_nat r * Z.to_nat c) by lia.
  assert (Hm : length (values v) = Z.to_nat c) by lia. rewrite Hn, Hm.
  case_bool_decide as Hz.
  { assert (r = 0%Z) as -> by nia. done. }
  rewrite bool_decide_false by lia. rewrite bool_decide_true by (apply Nat.Div0.mod_mul).
  rewrite Nat.div_mul by lia. rewrite Z2Nat.id by done. do 4 f_equal.
  rewrite <- list_fmap_compose. apply list_fmap_ext. intros ? k _. cbn [compose].
  by rewrite Z.add_0_r, Z2Nat.inj_mul, Nat2Z.id by lia.
Qed.

(** The product of an array of two dimensions and one of one dimension is a
    function of the numbers [n] and [m] of their values: when [m] divides [n], the
    array of the [n / m] sums of products of [m] values of the first and the second,
    from 0.0 and from left to right, within one step for every value; when it does
    not, [IndexError]; and when [m] is 0 and [n] is not, the loop never ends. For
    well-formed arrays of shapes [[r; c]] and [[c]], [0 < c], these are the [r]
    products of the rows. *)
Theorem matrix_vector_product (a v : array A) (fuel : nat) :
  length (shape a) = 2 → length (shape v) = 1 → S (length (values a)) < fuel →
  dot expression applied matrixMult fuel a v = matrix_vector_spec (values a) (values v) ∧
  ∀ r c, wf a → wf v → shape a = [r; c] → shape v = [c] → (0 < c)%Z →
    dot expression applied matrixMult fuel a v =
      Some (Ret (Sub (Array [r] ((λ i, dot_from float0 (values (row a i)) (values v)) <$> xrange r)))).
Proof.
  intros Ha Hv Hfuel. rewrite dot_spec by done. split; [done|]. intros r c. apply matrix_vector_rows.
Qed.
End matrix_vector.

#[export] Instance Z_number : Number Z := {
  of_int := id; float0 := 0%Z; float1 := 1%Z; add := Z.add; mul := Z.mul; sub := Z.sub; neg := Z.opp;
  div x y := if (y =? 0)%Z then Raise ZeroDivisionError else Ret (x / y)%Z;
  pow x y := if (y <? 0)%Z then Raise ZeroDivisionError else Ret (x ^ y)%Z;
  lt := Z.ltb; eqv := Z.eqb }.

(** The product of arrays of integers. *)
Definition product_Z :=
  dot (A := Z) (λ l, XRangeI 0 (Z.of_nat (length l)) 1) Ret (λ _ _ _ _, Raise ValueError).

Lemma matrix_vector_product_witness :
  product_Z 6 (Array [2; 2]%Z [1; 2; 3; 4]%Z) (Array [2]%Z [5; 6]%Z) =
    Some (Ret (Sub (Array [2]%Z [17; 39]%Z))).
Proof.
  unfold product_Z.
  destruct (matrix_vector_product (λ l, XRangeI 0 (Z.of_nat (length l)) 1) Ret
    (λ _ _ _ _, Raise ValueError) (Array [2; 2]%Z [1; 2; 3; 4]%Z) (Array [2]%Z [5; 6]%Z) 6) as [_ H].
  - done.
  - done.
  - cbn. lia.
  - rewrite (H 2%Z 2%Z); [reflexivity| | |done..].
    + split; [repeat constructor; lia|reflexivity].
    + split; [repeat constructor; lia|reflexivity].
Defined.

(** A matrix whose rows are longer than the vector: numpy refuses the shapes, the
    source multiplies the values through; and an empty vector
    makes the loop endless. *)
Lemma unaligned_shapes_are_multiplied :
  product_Z 6 (Array [2; 2]%Z [1; 2; 3; 4]%Z) (Array [4]%Z [1; 1; 1; 1]%Z) =
    Some (Ret (Sub (Array [1]%Z [10]%Z))) ∧
  ∀ fuel, product_Z fuel (Array [2; 2]%Z [1; 2; 3; 4]%Z) (Array [0]%Z []) = None.
Proof.
  split; [reflexivity|]. intros fuel. unfold product_Z, dot. cbn [shape length values].
  rewrite bool_decide_false by lia. rewrite bool_decide_true by lia.
  change 0%Z with (Z.of_nat 0). by rewrite rows_loop_empty by (cbn; lia).
Qed.
