(* ===== verification/MersenneTwister.v ===== *)
(** * Random numbers in pure Python ([RandomState] of [pyfora/pure_modules/pure_numpy.py])

    The generator that takes the place of [numpy.random.RandomState]: a Mersenne
    twister on mutable vectors of 32-bit integers, written as inline FORA code, with
    uniform and normal deviates drawn from it. An operation on 32-bit integers is
    taken modulo 2^32. *)
From Stdlib Require Import Lia ZArith QArith Lqa.
From stdpp Require Import base list numbers.
From S2P Require Import Prelude PureBuiltins PureNumpy.

Definition u32 (z : Z) : Z := (z mod 2 ^ 32)%Z.

(** ** The state *)

Record RandomState (A : Type) := {
  indexPtr : Z;
  stateVector : list Z;
  hasSavedNormalPtr : bool;
  savedNormalPtr : A }.
Arguments indexPtr {A} _.
Arguments stateVector {A} _.
Arguments hasSavedNormalPtr {A} _.
Arguments savedNormalPtr {A} _.

(** An element of a vector of 624 integers; the indices the code makes are in range. *)
Definition vget (v : list Z) (ix : nat) : Z := default 0%Z (v !! ix).

(** The integer that follows [x], the [ix]th, in the state made of a seed. *)
Definition next_seed (x : Z) (ix : nat) : Z :=
  u32 (1812433253 * Z.lxor x (Z.shiftr x 30) + Z.of_nat ix + 1).

(** [while (ix < 623u32)]. *)
Fixpoint seed_loop (fuel ix : nat) (v : list Z) : list Z :=
  match fuel with
  | O => v
  | S fuel =>
      if bool_decide (ix < 623) then
        seed_loop fuel (S ix) (<[S ix := next_seed (vget v ix) ix]> v)
      else v
  end.

(** [RandomState(seed)]. [seed] has become an unsigned integer when its sign is tested. *)
Definition make {A} (zero : A) (seed : option Z) : res (RandomState A) :=
  match seed with
  | None => Raise AssertionError
  | Some seed =>
      let seed := u32 seed in
      if (seed <? 0)%Z then Raise ValueError
      else
        let v := <[0 := seed]> (replicate 624 0%Z) in
        Ret {| indexPtr := 624; stateVector := seed_loop 624 0 v;
               hasSavedNormalPtr := false; savedNormalPtr := zero |}
  end.

(** ** The generator *)

(** The vector, read as if it went on with its beginning. *)
Definition lookup_wrapped (v : list Z) (ix : nat) : Z :=
  if bool_decide (ix < 624) then vget v ix else vget v (ix - 624).

(** What two neighbours make of an element. *)
Definition twisted (upper lower : Z) : Z :=
  let xL := Z.land lower 2147483647 in
  let xU := Z.land upper 2147483648 in
  let y := Z.lor xL xU in
  if (y mod 2 =? 1)%Z then Z.lxor (Z.shiftr y 1) 2567483615 else Z.shiftr y 1.

Fixpoint twist_loop (fuel ix : nat) (v : list Z) : list Z :=
  match fuel with
  | O => v
  | S fuel =>
      if bool_decide (ix < 624) then
        let y := twisted (vget v ix) (lookup_wrapped v (ix + 1)) in
        twist_loop fuel (S ix) (<[ix := Z.lxor (lookup_wrapped v (ix + 397)) y]> v)
      else v
  end.
Definition twist (v : list Z) : list Z := twist_loop 624 0 v.

(** What is given out for an element. *)
Definition temper (y : Z) : Z :=
  let y := Z.lxor y (Z.shiftr y 11) in
  let y := Z.lxor y (Z.land (u32 (Z.shiftl y 7)) 2636928640) in
  let y := Z.lxor y (Z.land (u32 (Z.shiftl y 15)) 4022730752) in
  Z.lxor y (Z.shiftr y 18).

Section pulls.
Context {A : Type}.
Implicit Types st : RandomState A.

Definition with_generator (index : Z) (v : list Z) st : RandomState A :=
  {| indexPtr := index; stateVector := v;
     hasSavedNormalPtr := hasSavedNormalPtr st; savedNormalPtr := savedNormalPtr st |}.

Definition pull_int_ : M (RandomState A) Z :=
  st ← get;
  let '(index, v) :=
    if (624 <=? indexPtr st)%Z then (0%Z, twist (stateVector st))
    else (indexPtr st, stateVector st) in
  _ ← put (with_generator (index + 1) v st);
  mret (temper (vget v (Z.to_nat index))).

(** *** Uniform and normal deviates

    [flt] makes the literals, integers written as floating point numbers. *)
Context `{Number A} (flt : Z → A) (half : A) (log : A → res A).

Definition numerator : M (RandomState A) (Z * Z) :=
  i0 ← pull_int_; i1 ← pull_int_;
  mret (Z.shiftr i0 5, Z.shiftr i1 6).

Definition pull_uniform_ (low high : A) : M (RandomState A) A :=
  '(a, b) ← numerator;
  q ← lift (div (mul (sub high low) (add (mul (of_int a) (flt 67108864)) (of_int b)))
                (flt 9007199254740992));
  mret (add low q).

(** The tries of [pull_two_normals_]. *)
Fixpoint two_normals_loop (tries : nat) : M (RandomState A) (A * A) :=
  match tries with
  | O => raise AssertionError
  | S tries =>
      u ← pull_uniform_ (flt (-1)) (flt 1);
      v ← pull_uniform_ (flt (-1)) (flt 1);
      let s := add (mul u u) (mul v v) in
      if (lt s (flt 1) || eqv s (flt 1)) && negb (eqv s (flt 0)) then
        l ← lift (log s);
        q ← lift (div (mul (flt (-2)) l) s);
        f ← lift (pow q half);
        mret (mul u f, mul v f)
      else two_normals_loop tries
  end.
Definition pull_two_normals_ : M (RandomState A) (A * A) := two_normals_loop (Z.to_nat 1000000).

Definition set_saved (has : bool) (normal : A) st : RandomState A :=
  {| indexPtr := indexPtr st; stateVector := stateVector st;
     hasSavedNormalPtr := has; savedNormalPtr := normal |}.

Definition pull_normal_ : M (RandomState A) A :=
  st ← get;
  if hasSavedNormalPtr st then
    _ ← modify (λ st, set_saved false (savedNormalPtr st) st);
    mret (savedNormalPtr st)
  else
    '(normal0, normal1) ← pull_two_normals_;
    _ ← modify (λ st, set_saved (hasSavedNormalPtr st) normal0 st);
    _ ← modify (λ st, set_saved true (savedNormalPtr st) st);
    mret normal1.

(** A number, or an array of [size] numbers. *)
Definition draws (pull : M (RandomState A) A) (size : option Z)
    : M (RandomState A) (A + array (nested A)) :=
  match size with
  | None => x ← pull; mret (inl x)
  | Some size =>
      tr ← mapM (λ _, pull) (xrange size);
      a ← lift (NpArray (Lst (Leaf <$> tr)));
      mret (inr a)
  end.
Definition rand := draws (pull_uniform_ (flt 0) (flt 1)).
Definition randn := draws pull_normal_.
Definition uniform (low high : A) := draws (pull_uniform_ low high).
End pulls.

(** ** The reference: MT19937

    The published generator with its parameters (w, n, m, r) = (32, 624, 397, 31), a =
    9908b0df, (u, s, b, t, c, l) = (11, 7, 9d2c5680, 15, efc60000, 18), and the
    initialization of 2002 with f = 1812433253. Written on numbers, with none of the
    definitions above. *)
Module MT19937.

(** [(x^u | x^l) A]: the highest bit of one word over the other 31 bits of another, halved,
    and the last bit that falls out puts the polynomial in. *)
Definition times_A (upper lower : Z) : Z :=
  let y := (2 ^ 31 * (upper / 2 ^ 31) + lower mod 2 ^ 31)%Z in
  Z.lxor (y / 2) (if Z.odd y then 0x9908b0df else 0).

(** The words of the state. *)
Record generates (seed : Z) (x : nat → Z) : Prop := {
  first_word : x 0 = (seed mod 2 ^ 32)%Z;
  seeding : ∀ i, 0 < i < 624 →
    x i = ((1812433253 * Z.lxor (x (i - 1)%nat) (x (i - 1)%nat / 2 ^ 30) + Z.of_nat i) mod 2 ^ 32)%Z;
  recurrence : ∀ n, x (n + 624) = Z.lxor (x (n + 397)) (times_A (x n) (x (n + 1))) }.

(** What is given out for a word. *)
Definition tempered (y0 : Z) : Z :=
  let y1 := Z.lxor y0 (y0 / 2 ^ 11) in
  let y2 := Z.lxor y1 (Z.land (y1 * 2 ^ 7) 0x9d2c5680) in
  let y3 := Z.lxor y2 (Z.land (y2 * 2 ^ 15) 0xefc60000) in
  Z.lxor y3 (y3 / 2 ^ 18).
End MT19937.

(** ** The words that the code makes

    The state a seed makes: every element from the one before it. *)
Fixpoint seeded (seed : Z) (i : nat) : Z :=
  match i with O => u32 seed | S i => next_seed (seeded seed i) i end.

(** The first [624 + n] words, as the code's steps make them one by one. *)
Fixpoint sequence (seed : Z) (n : nat) : list Z :=
  match n with
  | O => seeded seed <$> seq 0 624
  | S n =>
      let x := sequence seed n in
      x ++ [Z.lxor (vget x (n + 397)) (twisted (vget x n) (vget x (n + 1)))]
  end.
Definition mt (seed : Z) (k : nat) : Z := vget (sequence seed k) k.

(** *** Its elements *)

Lemma sequence_length seed n : length (sequence seed n) = 624 + n.
Proof.
  induction n as [|n IH]; cbn [sequence]; [by rewrite length_fmap, length_seq|].
  rewrite length_app, IH. cbn. lia.
Qed.

Lemma sequence_stable seed n m k :
  n ≤ m → k < 624 + n → sequence seed m !! k = sequence seed n !! k.
Proof.
  intros Hnm Hk. induction Hnm as [|m Hnm IH]; [done|]. cbn [sequence].
  by rewrite lookup_app_l by (rewrite sequence_length; lia).
Qed.

Lemma vget_sequence seed n k : k < 624 + n → vget (sequence seed n) k = mt seed k.
Proof.
  intros Hk. unfold mt, vget. f_equal. destruct (decide (n ≤ k)).
  - by rewrite (sequence_stable seed n k).
  - rewrite (sequence_stable seed k n); [done|lia..].
Qed.

Lemma mt_seeded seed k : k < 624 → mt seed k = seeded seed k.
Proof.
  intros Hk. rewrite <- (vget_sequence seed 0) by lia. unfold vget. cbn [sequence].
  by rewrite list_lookup_fmap, lookup_seq_lt by done.
Qed.

(** The recurrence of the generator. *)
Lemma mt_recurrence seed n :
  mt seed (624 + n) = Z.lxor (mt seed (n + 397)) (twisted (mt seed n) (mt seed (n + 1))).
Proof.
  rewrite <- (vget_sequence seed (S n) (624 + n)) by lia. unfold vget at 1. cbn [sequence].
  rewrite lookup_app_r by (rewrite sequence_length; lia).
  rewrite sequence_length, Nat.sub_diag. cbn. by rewrite !vget_sequence by lia.
Qed.

(** *** Their range *)

Definition fits (n z : Z) : Prop := (0 ≤ z < 2 ^ n)%Z.

Lemma fits_shiftr n z : (0 ≤ n)%Z → fits n z ↔ Z.shiftr z n = 0%Z.
Proof.
  intros Hn. unfold fits. rewrite Z.shiftr_div_pow2 by done.
  rewrite Z.div_small_iff by (pose proof (Z.pow_pos_nonneg 2 n); lia).
  pose proof (Z.pow_pos_nonneg 2 n). lia.
Qed.

Lemma fits_lxor n x y : (0 ≤ n)%Z → fits n x → fits n y → fits n (Z.lxor x y).
Proof. intros Hn. rewrite !fits_shiftr, Z.shiftr_lxor by done. by intros -> ->. Qed.

Lemma fits_lor n x y : (0 ≤ n)%Z → fits n x → fits n y → fits n (Z.lor x y).
Proof. intros Hn. rewrite !fits_shiftr, Z.shiftr_lor by done. by intros -> ->. Qed.

Lemma fits_land n x y : (0 ≤ n)%Z → fits n x → fits n (Z.land x y).
Proof. intros Hn. rewrite !fits_shiftr, Z.shiftr_land by done. by intros ->. Qed.

Lemma fits_shift n k x : (0 ≤ k)%Z → (0 ≤ n)%Z → fits (n + k) x → fits n (Z.shiftr x k).
Proof. intros Hk Hn. rewrite !fits_shiftr, Z.shiftr_shiftr by lia. by rewrite Z.add_comm. Qed.

Lemma fits_more n k x : (0 ≤ k)%Z → (0 ≤ n)%Z → fits n x → fits (n + k) x.
Proof.
  intros Hk Hn [H1 H2]. split; [done|]. rewrite Z.pow_add_r by done.
  pose proof (Z.pow_pos_nonneg 2 k). pose proof (Z.pow_pos_nonneg 2 n). nia.
Qed.

Lemma fits_u32 z : fits 32 (u32 z).
Proof. apply Z.mod_pos_bound. lia. Qed.

Lemma fits_twisted x y : fits 32 x → fits 32 y → fits 32 (twisted x y).
Proof.
  intros Hx Hy. unfold twisted.
  assert (Hs : fits 32 (Z.shiftr (Z.lor (Z.land y 2147483647) (Z.land x 2147483648)) 1)).
  { apply fits_shift; [lia..|]. apply (fits_more 32 1); [lia..|].
    apply fits_lor; [lia| |]; apply fits_land; done || lia. }
  destruct (_ =? _)%Z; [|done]. apply fits_lxor; [lia|done|]. split; [lia|reflexivity].
Qed.

Lemma fits_temper y : fits 32 y → fits 32 (temper y).
Proof.
  intros Hy. unfold temper.
  repeat (apply fits_lxor; [lia| |]); try done;
    first [apply fits_land; [lia|apply fits_u32] | apply fits_shift; [lia..|]; apply (fits_more 32); [lia..|]];
    repeat (apply fits_lxor; [lia| |]); try done;
    first [apply fits_land; [lia|apply fits_u32] | apply fits_shift; [lia..|]; apply (fits_more 32); [lia..|]; done].
Qed.

Lemma fits_mt seed k : fits 32 (mt seed k).
Proof.
  induction k as [k IH] using lt_wf_ind. destruct (decide (k < 624)) as [Hk|Hk].
  - rewrite mt_seeded by done. destruct k; apply fits_u32.
  - replace k with (624 + (k - 624)) by lia. rewrite mt_recurrence.
    apply fits_lxor; [lia| |apply fits_twisted]; apply IH; lia.
Qed.

(** *** They are the words of MT19937 *)

Lemma land_u32 x m : fits 32 m → Z.land (u32 x) m = Z.land x m.
Proof.
  intros Hm. unfold u32. rewrite <- Z.land_ones, <- Z.land_assoc, (Z.land_comm (Z.ones 32)) by lia.
  rewrite (Z.land_ones m) by lia. f_equal. by apply Z.mod_small.
Qed.

Lemma temper_tempered y : temper y = MT19937.tempered y.
Proof.
  unfold temper, MT19937.tempered. cbv zeta.
  rewrite !Z.shiftr_div_pow2, !Z.shiftl_mul_pow2, !land_u32 by (done || lia). reflexivity.
Qed.

Lemma joined_halves x y : fits 32 x →
  Z.lor (Z.land y 2147483647) (Z.land x 2147483648) = (2 ^ 31 * (x / 2 ^ 31) + y mod 2 ^ 31)%Z.
Proof.
  intros Hx. change 2147483647%Z with (Z.ones 31). rewrite Z.land_ones by lia.
  assert (Hhigh : Z.land x 2147483648 = Z.shiftl (Z.shiftr x 31) 31).
  { rewrite <- Z.ldiff_ones_r by lia. apply Z.bits_inj'. intros n Hn. rewrite Z.land_spec, Z.ldiff_spec.
    destruct (decide (n < 32)%Z) as [Hlt|Hge].
    - destruct (decide (n = 31)%Z) as [->|]; [done|]. change 2147483648%Z with (2 ^ 31)%Z.
      by rewrite Z.pow2_bits_false, Z.ones_spec_low, !andb_false_r by lia.
    - destruct Hx as [Hx0 Hx1]. replace (Z.testbit x n) with false; [done|]. symmetry.
      rewrite <- (Z.mod_small x (2 ^ 32)) by done. apply Z.mod_pow2_bits_high. lia. }
  rewrite Hhigh, Z.lor_comm.
  assert (Hdisjoint : Z.land (Z.shiftl (Z.shiftr x 31) 31) (y mod 2 ^ 31) = 0%Z).
  { apply Z.bits_inj'. intros n Hn. rewrite Z.land_spec, Z.bits_0. destruct (decide (n < 31)%Z).
    - by rewrite Z.shiftl_spec_low.
    - by rewrite Z.mod_pow2_bits_high, andb_false_r by lia. }
  pose proof (Z.add_lor_land (Z.shiftl (Z.shiftr x 31) 31) (y mod 2 ^ 31)) as Hsum.
  rewrite Hdisjoint, Z.add_0_r in Hsum. rewrite Hsum, Z.shiftl_mul_pow2, Z.shiftr_div_pow2 by lia. lia.
Qed.

Lemma twisted_times_A x y : fits 32 x → twisted x y = MT19937.times_A x y.
Proof.
  intros Hx. unfold twisted, MT19937.times_A. cbv zeta. rewrite joined_halves by done.
  rewrite Zmod_odd, <- Z.div2_spec, Z.div2_div. destruct (Z.odd _); [done|]. by rewrite Z.lxor_0_r.
Qed.

Lemma next_seed_formula x i :
  next_seed x i = ((1812433253 * Z.lxor x (x / 2 ^ 30) + Z.of_nat (S i)) mod 2 ^ 32)%Z.
Proof. unfold next_seed, u32. rewrite Z.shiftr_div_pow2 by lia. f_equal. lia. Qed.

Lemma mt_generates seed : MT19937.generates seed (mt seed).
Proof.
  split.
  - by rewrite mt_seeded by lia.
  - intros i Hi. rewrite !mt_seeded by lia. destruct i as [|i]; [lia|]. cbn [seeded].
    rewrite next_seed_formula. by replace (S i - 1) with i by lia.
  - intros n. rewrite Nat.add_comm, mt_recurrence, twisted_times_A by apply fits_mt. done.
Qed.

#[local] Arguments mt : simpl never.
#[local] Arguments temper : simpl never.
#[local] Arguments twist : simpl never.

(** ** The vector is a window on the sequence *)

Section window.
Context (seed : Z).

(** From [lo] on the vector holds the elements from [b] on, before it the next ones. *)
Definition partial (b lo : nat) (v : list Z) : Prop :=
  length v = 624 ∧
  ∀ i, i < 624 → vget v i = mt seed (if bool_decide (i < lo) then 624 + b + i else b + i).
Definition window (b : nat) : list Z → Prop := partial b 0.

Lemma vget_insert (v : list Z) i j x :
  i < length v → vget (<[i := x]> v) j = if bool_decide (i = j) then x else vget v j.
Proof.
  intros Hi. unfold vget. case_bool_decide as H; [subst; by rewrite list_lookup_insert_eq|].
  by rewrite list_lookup_insert_ne.
Qed.

Lemma seed_loop_ok : ∀ fuel ix v,
  length v = 624 → ix + fuel = 624 → 0 < fuel →
  (∀ j, j ≤ ix → vget v j = seeded seed j) →
  length (seed_loop fuel ix v) = 624 ∧
  ∀ j, j < 624 → vget (seed_loop fuel ix v) j = seeded seed j.
Proof.
  induction fuel as [|fuel IH]; intros ix v Hlen Hix Hf Hv; [lia|]. cbn [seed_loop].
  case_bool_decide; [|split; [done|]; intros; apply Hv; lia].
  apply IH; [by rewrite length_insert|lia|lia|]. intros j Hj. rewrite vget_insert by lia.
  case_bool_decide as He; [subst j|apply Hv; lia]. cbn [seeded]. by rewrite Hv.
Qed.

Lemma twist_step b ix v :
  partial b ix v → ix < 624 →
  partial b (S ix)
    (<[ix := Z.lxor (lookup_wrapped v (ix + 397)) (twisted (vget v ix) (lookup_wrapped v (ix + 1)))]> v).
Proof.
  intros [Hlen Hv] Hix. split; [by rewrite length_insert|]. intros i Hi. rewrite vget_insert by lia.
  assert (Hw : ∀ k, 0 < k → k < 624 → lookup_wrapped v (ix + k) = mt seed (b + ix + k)).
  { intros k Hk Hk'. unfold lookup_wrapped. case_bool_decide; rewrite Hv by lia;
      case_bool_decide; try lia; f_equal; lia. }
  case_bool_decide as He.
  - subst i. rewrite bool_decide_true by lia. replace (624 + b + ix) with (624 + (b + ix)) by lia.
    rewrite mt_recurrence, !Hw, Hv, bool_decide_false by lia. done.
  - rewrite Hv by done. case_bool_decide; case_bool_decide; done || lia.
Qed.

Lemma twist_loop_ok b : ∀ fuel ix v,
  partial b ix v → ix + fuel = 624 → partial b 624 (twist_loop fuel ix v).
Proof.
  induction fuel as [|fuel IH]; intros ix v Hv Hix; cbn [twist_loop].
  { by replace 624 with ix by lia. }
  rewrite bool_decide_true by lia. apply IH; [|lia]. by apply twist_step; [|lia].
Qed.

Lemma twist_moves_on b v : window b v → window (624 + b) (twist v).
Proof.
  intros Hv. destruct (twist_loop_ok b 624 0 v Hv) as [Hlen Hl]; [done|]. split; [done|].
  intros i Hi. unfold twist. by rewrite Hl, bool_decide_true by done.
Qed.

(** *** The states of the generator *)

Context {A : Type}.
Implicit Types st : RandomState A.

(** [n] integers have been pulled. *)
Definition pulled (n : nat) st : Prop :=
  ∃ (b i : nat), window b (stateVector st) ∧ indexPtr st = Z.of_nat i ∧ i ≤ 624 ∧ b + i = 624 + n.

Lemma make_ok (zero : A) :
  ∃ st, make zero (Some seed) = Ret st ∧ pulled 0 st ∧ hasSavedNormalPtr st = false.
Proof.
  unfold make. pose proof (fits_u32 seed) as [Hs _]. rewrite (proj2 (Z.ltb_ge _ _) Hs).
  eexists. split; [done|]. split; [|done]. exists 0, 624. cbn [stateVector indexPtr].
  destruct (seed_loop_ok 624 0 (<[0 := u32 seed]> (replicate 624 0%Z))) as [Hlen Hv].
  { by rewrite length_insert, length_replicate. } { done. } { lia. }
  { intros j Hj. replace j with 0 by lia. rewrite vget_insert by (rewrite length_replicate; lia). done. }
  split; [|split; [done|lia]]. split; [done|]. intros i Hi. rewrite Hv by done.
  cbn. by rewrite mt_seeded.
Qed.

Lemma pull_int_ok n st :
  pulled n st →
  ∃ st', pull_int_ st = (Ret (temper (mt seed (624 + n))), st') ∧ pulled (S n) st' ∧
    hasSavedNormalPtr st' = hasSavedNormalPtr st ∧ savedNormalPtr st' = savedNormalPtr st.
Proof.
  intros (b & i & Hw & Hi & Hle & Hn). unfold pull_int_. cbn [mbind get].
  assert (∃ b' i', i' < 624 ∧ b' + i' = 624 + n ∧ ∃ v', window b' v' ∧
    (if (624 <=? indexPtr st)%Z then (0%Z, twist (stateVector st)) else (indexPtr st, stateVector st))
      = (Z.of_nat i', v')) as (b' & i' & Hi' & Hn' & v' & Hw' & Heq).
  { rewrite Hi. case (Z.leb_spec 624 (Z.of_nat i)); intros H.
    - exists (624 + b), 0. split; [lia|]. split; [lia|]. eexists. split; [by apply twist_moves_on|done].
    - exists b, i. split; [lia|]. split; [done|]. by eexists. }
  assert (Hv : vget v' (Z.to_nat (Z.of_nat i')) = mt seed (624 + n)).
  { destruct Hw' as [_ Hv]. rewrite Nat2Z.id, Hv, bool_decide_false by lia. by rewrite Hn'. }
  exists (with_generator (Z.of_nat i' + 1) v' st).
  unfold mbind, M_bind at 1. unfold get at 1. rewrite Heq. unfold put, M_bind. rewrite Hv.
  split; [done|]. split; [|done]. exists b', (S i'). cbn [stateVector indexPtr with_generator]. split; [done|]. lia.
Qed.

Lemma pull_ints_ok {X} (l : list X) : ∀ n st,
  pulled n st →
  ∃ st', mapM (λ _, pull_int_) l st =
      (Ret ((λ i, temper (mt seed (624 + i))) <$> seq n (length l)), st') ∧
    pulled (n + length l) st'.
Proof.
  induction l as [|x l IH]; intros n st Hn.
  { exists st. split; [done|]. by rewrite Nat.add_0_r. }
  destruct (pull_int_ok n st Hn) as (st1 & H1 & Hn1 & _). destruct (IH (S n) st1 Hn1) as (st2 & H2 & Hn2).
  exists st2. split; [|cbn; by rewrite Nat.add_succ_r].
  rewrite mapM_cons, (bind_step _ _ _ _ _ H1), (bind_step _ _ _ _ _ H2). done.
Qed.
End window.

(** C28. [RandomState(seed)] never raises, and the integers its [pull_int_] gives one
    after another are, for every seed and as many as are pulled, those of the
    Mersenne twister MT19937 as it is published: the words from the 624th on of the
    sequence that the seed (modulo 2^32) generates, each of them tempered and
    between 0 and 2^32. The code updates the state in place, a block at a time, with
    operations on words of 32 bits; the reference is a recurrence on numbers. *)
Theorem pulls_are_mt19937 {A} (zero : A) (seed : Z) (k : nat) :
  ∃ st x, make zero (Some seed) = Ret st ∧ MT19937.generates seed x ∧
    (mapM (λ _, pull_int_) (seq 0 k) st).1 = Ret ((λ i, MT19937.tempered (x (624 + i))) <$> seq 0 k) ∧
    ∀ i, (0 ≤ MT19937.tempered (x (624 + i)%nat) < 2 ^ 32)%Z.
Proof.
  destruct (make_ok seed zero) as (st & Hst & H0 & _). exists st, (mt seed). split; [done|].
  split; [apply mt_generates|]. destruct (pull_ints_ok seed (seq 0 k) 0 st H0) as (st' & -> & _).
  rewrite length_seq. split; [|intros i; rewrite <- temper_tempered; apply fits_temper, fits_mt].
  cbn. f_equal. apply list_fmap_ext. intros _ i _. apply temper_tempered.
Qed.

(** The first integer of [numpy.random.RandomState(0)]; and a negative seed, which the
    source means to refuse. *)
Lemma first_of_seed_0 :
  match make 0%Z (Some 0%Z) with Ret st => (pull_int_ st).1 = Ret 2357136044%Z | _ => False end ∧
  is_ret (make 0%Z (Some (-1)%Z)) = true.
Proof. split; vm_compute; reflexivity. Qed.

(** ** Uniform numbers *)

(** Exact arithmetic, in which no number is rounded. *)
#[export] Instance Q_number : Number Q := {
  of_int := inject_Z; float0 := 0%Q; float1 := 1%Q;
  add := Qplus; mul := Qmult; sub := Qminus; neg := Qopp;
  div x y := if Qeq_bool y 0 then Raise ZeroDivisionError else Ret (x / y)%Q;
  pow x y := if (Qden y =? 1)%positive then Ret (Qpower x (Qnum y)) else Raise ValueError;
  lt x y := negb (Qle_bool y x); eqv := Qeq_bool }.

Lemma numerator_ok {A} seed n (st : RandomState A) :
  pulled seed n st →
  ∃ a b st', numerator st = (Ret (a, b), st') ∧ pulled seed (S (S n)) st' ∧
    (0 ≤ a * 67108864 + b < 9007199254740992)%Z.
Proof.
  intros Hn. destruct (pull_int_ok seed n st Hn) as (st1 & H1 & Hn1 & _).
  destruct (pull_int_ok seed (S n) st1 Hn1) as (st2 & H2 & Hn2 & _).
  exists (Z.shiftr (temper (mt seed (624 + n))) 5), (Z.shiftr (temper (mt seed (624 + S n))) 6), st2.
  split; [|split; [done|]].
  { unfold numerator. by rewrite (bind_step _ _ _ _ _ H1), (bind_step _ _ _ _ _ H2). }
  assert (Ha : fits 27 (Z.shiftr (temper (mt seed (624 + n))) 5)).
  { apply fits_shift; [lia..|]. apply fits_temper, fits_mt. }
  assert (Hb : fits 26 (Z.shiftr (temper (mt seed (624 + S n))) 6)).
  { apply fits_shift; [lia..|]. apply fits_temper, fits_mt. }
  unfold fits in *. lia.
Qed.

(** C39. In exact arithmetic a uniform number is at least [low] and less than [high],
    in every state the generator reaches: the 27 and 26 bits taken of two integers
    make a numerator below 2^53, whatever they are, and no call raises. *)
Theorem uniform_is_between (seed : Z) (n : nat) (st : RandomState Q) (low high : Q) :
  pulled seed n st → (low < high)%Q →
  ∃ x st', pull_uniform_ inject_Z low high st = (Ret x, st') ∧
    (low <= x)%Q ∧ (x < high)%Q ∧ pulled seed (S (S n)) st'.
Proof.
  intros Hn Hlh. destruct (numerator_ok seed n st Hn) as (a & b & st' & Hnum & Hn' & Hab).
  unfold pull_uniform_. rewrite (bind_step _ _ _ _ _ Hnum).
  set (q := ((high - low) * (inject_Z a * inject_Z 67108864 + inject_Z b) / inject_Z 9007199254740992)%Q).
  exists (low + q)%Q, st'. split; [done|].
  assert (Hk : (0 <= q)%Q ∧ (q < high - low)%Q); [|split_and!; [lra..|done]].
  unfold q. rewrite <- inject_Z_mult, <- inject_Z_plus.
  assert (Hk1 : (0 <= inject_Z (a * 67108864 + b))%Q) by (change 0%Q with (inject_Z 0); rewrite <- Zle_Qle; lia).
  assert (Hk2 : (inject_Z (a * 67108864 + b) < inject_Z 9007199254740992)%Q) by (rewrite <- Zlt_Qlt; lia).
  set (k := inject_Z (a * 67108864 + b)) in *. set (m := inject_Z 9007199254740992) in *.
  split; [apply Qle_shift_div_l|apply Qlt_shift_div_r]; [done|nra|done|nra].
Qed.

Lemma uniform_is_between_witness :
  ∃ x st', pull_uniform_ inject_Z 0%Q 1%Q
      match make 0%Q (Some 5%Z) with Ret st => st | Raise _ => Build_RandomState Q 0 [] false 0%Q end
      = (Ret x, st') ∧ (0 <= x)%Q ∧ (x < 1)%Q.
Proof.
  destruct (make_ok 5%Z 0%Q) as (st & Hst & Hp & _).
  destruct (uniform_is_between 5%Z 0 st 0%Q 1%Q Hp) as (x & st' & Hx & H0 & H1 & _); [reflexivity|].
  exists x, st'. rewrite Hst. done.
Defined.

(** ** Normal numbers come in pairs *)

(** The second number of a pair is given first, and the first is kept for the next call. *)
Lemma normals_come_in_pairs {A} `{Number A} (flt : Z → A) (half : A) (log : A → res A)
    (st st1 : RandomState A) (normal0 normal1 : A) :
  hasSavedNormalPtr st = false →
  pull_two_normals_ flt half log st = (Ret (normal0, normal1), st1) →
  pull_normal_ flt half log st = (Ret normal1, set_saved true normal0 st1) ∧
  pull_normal_ flt half log (set_saved true normal0 st1) = (Ret normal0, set_saved false normal0 st1).
Proof.
  intros Hs Hp. split; [|done]. unfold pull_normal_. cbn [mbind M_bind get]. rewrite (bind_step _ _ _ _ st) by done.
  rewrite Hs. by rewrite (bind_step _ _ _ _ _ Hp).
Qed.
