(* ===== verification/PurePandas.v ===== *)
(** * Data frames in pure Python ([pyfora/pure_modules/pure_pandas.py], [pyfora/unique.py])

    The classes that take the place of [pandas.DataFrame] and [pandas.Series] when a
    program runs in the cluster. A data frame is a list of named columns; its rows are
    views. Values are of any type, with the arithmetic of [PureNumpy.Number]; an array
    that is made of a frame is an array of [PureNumpy]. *)
From Stdlib Require Import Lia ZArith Sorting.Sorted.
From stdpp Require Import base list numbers strings.
From S2P Require Import Prelude PyStrings PureBuiltins PureNumpy.
Set Default Proof Using "Type".

(** ** Elements of a sorted sequence ([unique.py]) *)

Section unique.
Context {A : Type}.

(** [None] stands for the default argument; at most [fuel] calls deep. *)
Fixpoint filterWithIndex (fuel : nat) (vec : list A) (f : list A → Z → res bool) (lowIndex : Z) (highIndex : option Z)
    (depth : Z) : res (list A) :=
  match fuel with
  | O => Raise RecursionLimit
  | S fuel =>
      let n := Z.of_nat (length vec) in
      let highIndex := default n highIndex in
      let highIndex := if (highIndex <? 0)%Z then (highIndex + n)%Z else highIndex in
      let lowIndex := if (lowIndex <? 0)%Z then (lowIndex + n)%Z else lowIndex in
      if (lowIndex =? highIndex)%Z then Ret []
      else if ((lowIndex + 1 =? highIndex) || (10 <? depth))%Z then
        l ← mapR (λ ix,
          b ← f vec ix;
          if (b : bool) then x ← py_index vec ix; Ret [x] else Ret []) (xrange2 lowIndex highIndex);
        Ret (concat l)
      else
        let mid := ((lowIndex + highIndex) / 2)%Z in
        left_ ← filterWithIndex fuel vec f lowIndex (Some mid) (depth + 1);
        right_ ← filterWithIndex fuel vec f mid (Some highIndex) (depth + 1);
        Ret (left_ ++ right_)
  end.

(** [<] of the values, and [sorted] of the language, which pure Python's builtins
    leave to FORA code. *)
Context (lt : A → A → bool) (sorted : list A → list A).

Definition is_new (sortedVec : list A) (ix : Z) : res bool :=
  if (ix <? 1)%Z then Ret true
  else x ← py_index sortedVec (ix - 1); y ← py_index sortedVec ix; Ret (lt x y).

(** Twelve calls deep: the depth is counted, and ends the recursion. *)
Definition unique (vec : list A) (isSorted : bool) : res (list A) :=
  let sortedVec := if isSorted then vec else sorted vec in
  filterWithIndex 12 sortedVec is_new 0 None 0.
End unique.

(** ** Frames *)

Section frames.
Context {A : Type}.

(** What an index into a frame, a series or a row is. *)
Inductive key := KInt (i : Z) | KSlice (s : slice) | KTuple (l : list key).

Definition all_rows : key := KSlice (Slice None None None).

Record DataFrame := { columnNames : list string; columns : list (list A) }.

(** [PurePythonDataFrame(data, columns)] for a list of columns. *)
Definition defaultNames (numNames : nat) : list string :=
  (λ ix, ("C" ++ PyStr.str (Z.of_nat ix))%string) <$> seq 0 numNames.
Definition make_frame (data : list (list A)) (names : option (list string)) : res DataFrame :=
  let names := default (defaultNames (length data)) names in
  (* [self._numRows = len(self._columns[0])] *)
  _ ← py_index data 0;
  Ret {| columnNames := names; columns := data |}.
(** For a dict, which is the list of its items. *)
Definition frame_of_dict (data : list (string * list A)) : res DataFrame :=
  _ ← py_index data.*2 0;
  Ret {| columnNames := data.*1; columns := data.*2 |}.
Definition from_items (items : list (string * list A)) : res DataFrame := make_frame items.*2 (Some items.*1).

Implicit Types df : DataFrame.

Definition numColumns df : Z := Z.of_nat (length (columns df)).
Definition numRows df : Z := match columns df with col :: _ => Z.of_nat (length col) | [] => 0%Z end.

(** The loop of [_columnIndex]. *)
Fixpoint columnIndex_loop (k : string) (names : list string) (ixs : list nat) : res nat :=
  match ixs with
  | [] => Raise ValueError
  | ix :: ixs =>
      name ← of_option IndexError (names !! ix);
      if String.eqb k name then Ret ix else columnIndex_loop k names ixs
  end.
Definition columnIndex df (k : string) : res nat := columnIndex_loop k (columnNames df) (seq 0 (length (columns df))).
Definition frame_getitem df (k : string) : res (list A) :=
  colIx ← columnIndex df k; of_option IndexError (columns df !! colIx).

Definition pyfora_addColumn df (columnName : string) (column : list A) : res DataFrame :=
  _ ← py_assert (negb (existsb (String.eqb columnName) (columnNames df)));
  make_frame (columns df ++ [column]) (Some (columnNames df ++ [columnName])).

(** *** Rows *)

Record DataFrameRow := {
  row_df : DataFrame; rowIx : Z; startColumnIx : Z; row_size : Z; row_stride : Z }.

Definition make_row df (ix : Z) : DataFrameRow :=
  {| row_df := df; rowIx := ix; startColumnIx := 0; row_size := numColumns df; row_stride := 1 |}.

(** *** Indexing *)

(** What indexing gives. *)
Inductive selection :=
| Cell (a : A)
| Column (l : list A)
| Frame (df : DataFrame)
| Row (r : DataFrameRow).

Definition series_getitem (values : list A) (k : key) : res selection :=
  match k with
  | KSlice s => Column <$> py_slice values s
  | KInt i => Cell <$> py_index values i
  | KTuple _ => Raise TypeError
  end.

Definition getitem_tuple df (tup : list key) : res selection :=
  let tup := match tup with [k] => [k; all_rows] | _ => tup end in
  match tup with
  | (KInt _ | KSlice _) as rows :: KInt column :: _ =>
      col ← py_index (columns df) column; series_getitem col rows
  | KSlice rows :: KSlice cols :: _ =>
      selected ← py_slice (columns df) cols;
      selected ← mapR (λ col, py_slice col rows) selected;
      names ← py_slice (columnNames df) cols;
      Frame <$> make_frame selected (Some names)
  | _ => Raise IndexError
  end.

Definition iloc df (k : key) : res selection :=
  match k with
  | KTuple tup => getitem_tuple df tup
  | KSlice _ => getitem_tuple df [k; all_rows]
  | KInt ix => Ret (Row (make_row df ix))
  end.

(** The one value that a selection is. *)
Definition cell (s : selection) : res A := match s with Cell a => Ret a | _ => Raise InternalError end.

Definition get_int_ix (r : DataFrameRow) (ix : Z) : res A :=
  columnIx ←
    (if (0 <=? ix)%Z then
       _ ← py_assert (ix <? row_size r)%Z; Ret (startColumnIx r + ix * row_stride r)%Z
     else
       _ ← py_assert (- row_size r <? ix)%Z; Ret (startColumnIx r + (row_size r + ix) * row_stride r)%Z);
  s ← iloc (row_df r) (KTuple [KInt (rowIx r); KInt columnIx]);
  cell s.

Definition row_getitem (r : DataFrameRow) (k : key) : res A :=
  match k with
  | KInt ix => get_int_ix r ix
  | KSlice _ => Raise (OtherException "NotImplementedError")
  | KTuple _ => Raise TypeError
  end.

(** [__iter__] of a row, which [list] and [tolist] go through. *)
Definition row_list (r : DataFrameRow) : res (list A) := mapR (get_int_ix r) (xrange (row_size r)).

(** *** Functions of rows *)

Definition apply {B} (func : DataFrameRow → res B) df (axis : Z) : res (list B) :=
  if (axis =? 0)%Z then Raise (OtherException "NotImplementedError")
  else if (axis =? 1)%Z then
    mapR (λ ix, s ← iloc df (KInt ix); match s with Row r => func r | _ => Raise InternalError end)
      (xrange (numRows df))
  else Raise TypeError.

Definition as_matrix df : res (array A) :=
  let columnMajorData := foldl (λ data col, data ++ col) [] (columns df) in
  let tr := Array [Z.of_nat (length columnMajorData)] columnMajorData in
  tr ← reshape tr [numColumns df; numRows df];
  transpose tr.

(** *** Series *)

Definition series_apply {B} (func : A → res B) (values : list A) : res (list B) := mapR func values.
Definition series_as_matrix (values : list A) : array A := Array [Z.of_nat (length values)] values.
Definition sort_values (sorted : list A → list A) (values : list A) : list A := sorted values.
Definition series_unique (lt : A → A → bool) (sorted : list A → list A) (values : list A) : res (list A) :=
  unique lt sorted (sort_values sorted values) true.

Context `{Number A}.

(** The sum with another series, or with a value. *)
Definition series_add (values : list A) (other : list A + A) : res (list A) :=
  match other with
  | inl other =>
      _ ← py_assert (length values =? length other);
      mapR (λ ix, x ← py_index values ix; y ← py_index other ix; Ret (add x y))
        (xrange (Z.of_nat (length values)))
  | inr other => Ret ((λ elt, add elt other) <$> values)
  end.

(** *** The product with a vector *)

Definition scaleVecOnRange (vec : list A) (multiplier : A) (lowIx highIx : Z) : res (list A) :=
  mapR (λ ix, x ← py_index vec ix; Ret (mul multiplier x)) (xrange2 lowIx highIx).

Definition addVecsOnRange (vec1 vec2 : list A) (vec2Multiplier : A) (lowIx highIx : Z) : res (list A) :=
  mapR (λ ix,
    x ← py_index vec1 (ix - lowIx); y ← py_index vec2 ix;
    Ret (add x (mul vec2Multiplier y))) (xrange2 lowIx highIx).

(** The columns after the first. *)
Fixpoint columns_loop (df : DataFrame) (other : list A) (low high : Z) (colIxs : list Z) (tr : list A) : res (list A) :=
  match colIxs with
  | [] => Ret tr
  | colIx :: colIxs =>
      col ← py_index (columns df) colIx;
      x ← py_index other colIx;
      tr ← addVecsOnRange tr col x low high;
      columns_loop df other low high colIxs tr
  end.
Definition dot_on_chunk df (other : list A) (low high : Z) : res (list A) :=
  col ← py_index (columns df) 0;
  x ← py_index other 0;
  tr ← scaleVecOnRange col x low high;
  columns_loop df other low high (xrange2 1 (numColumns df)) tr.

(** At most [fuel] calls deep. *)
Fixpoint dot_range (fuel : nat) (df : DataFrame) (other : list A) (splitLimit low high : Z) : res (list A) :=
  match fuel with
  | O => Raise RecursionLimit
  | S fuel =>
      if (high - low <=? splitLimit)%Z then dot_on_chunk df other low high
      else
        let mid := ((high + low) / 2)%Z in
        left_ ← dot_range fuel df other splitLimit low mid;
        right_ ← dot_range fuel df other splitLimit mid high;
        Ret (left_ ++ right_)
  end.
Definition frame_dot (fuel : nat) df (other : list A) (splitLimit : Z) : res (list A) :=
  _ ← py_assert (numColumns df =? Z.of_nat (length other))%Z;
  dot_range fuel df other splitLimit 0 (numRows df).
End frames.
Arguments DataFrame : clear implicits.
Arguments DataFrameRow : clear implicits.
Arguments selection : clear implicits.

(** ** The elements of a sorted sequence *)

Lemma xrange2_split low mid high :
  (low ≤ mid)%Z → (mid ≤ high)%Z → xrange2 low high = xrange2 low mid ++ xrange2 mid high.
Proof.
  intros H1 H2. unfold xrange2. replace (high - low)%Z with ((mid - low) + (high - mid))%Z by lia.
  rewrite seqZ_app by lia. by replace (low + (mid - low))%Z with mid by lia.
Qed.

Lemma mapR_append {X Y} (f : X → res Y) l1 l2 :
  mapR f (l1 ++ l2) = (x ← mapR f l1; y ← mapR f l2; Ret (x ++ y)).
Proof.
  induction l1 as [|x l1 IH]; cbn [app mapR]; [cbn; by destruct (mapR f l2)|].
  destruct (f x); cbn; [|done]. rewrite IH. destruct (mapR f l1); cbn; [|done]. by destruct (mapR f l2).
Qed.

(** Halving the range does not change what is selected, nor what is raised. *)
Lemma filterWithIndex_is_filter {A} (vec : list A) f : ∀ fuel low high depth,
  (0 ≤ low ≤ high)%Z → (0 ≤ depth)%Z → (12 - depth ≤ Z.of_nat fuel)%Z → 0 < fuel →
  filterWithIndex fuel vec f low (Some high) depth =
    (l ← mapR (λ ix, b ← f vec ix; if (b : bool) then x ← py_index vec ix; Ret [x] else Ret [])
           (xrange2 low high);
     Ret (concat l)).
Proof.
  induction fuel as [|fuel IH]; intros low high depth Hr Hd Hf Hp; [lia|]. cbn [filterWithIndex from_option id].
  rewrite (proj2 (Z.ltb_ge high 0)), (proj2 (Z.ltb_ge low 0)) by lia.
  destruct (Z.eqb_spec low high) as [->|Hne].
  { unfold xrange2. rewrite Z.sub_diag. done. }
  destruct ((low + 1 =? high) || (10 <? depth))%Z eqn:Hb; [done|].
  set (mid := ((low + high) / 2)%Z). assert (low ≤ mid ≤ high)%Z by (subst mid; Z.to_euclidean_division_equations; lia).
  rewrite (xrange2_split low mid high), mapR_append by lia.
  rewrite !IH by lia. destruct (mapR _ (xrange2 low mid)); cbn; [|done].
  destruct (mapR _ (xrange2 mid high)); cbn; [|done]. by rewrite concat_app.
Qed.

Lemma filter_whole {A} (vec : list A) f fuel low depth :
  filterWithIndex (S fuel) vec f low None depth =
  filterWithIndex (S fuel) vec f low (Some (Z.of_nat (length vec))) depth.
Proof. reflexivity. Qed.

Section uniqueness.
Context {A : Type} (lt : A → A → bool).

(** [lt] is a strict order, in which not being less is transitive. *)
Record weak_order : Prop := {
  wo_irrefl x : lt x x = false;
  wo_trans x y z : lt x y = true → lt y z = true → lt x z = true;
  wo_incomp x y z : lt x y = false → lt y z = false → lt x z = false }.

(** What is kept of a sequence after [x]. *)
Fixpoint kept (x : A) (l : list A) : list A :=
  match l with [] => [] | y :: l => if lt x y then y :: kept y l else kept y l end.

Lemma keep_loop vec : ∀ l k,
  drop (S k) vec = l → ∀ x, vec !! k = Some x →
  (l0 ← mapR (λ ix, b ← is_new lt vec ix; if (b : bool) then x ← py_index vec ix; Ret [x] else Ret [])
        (seqZ (Z.of_nat (S k)) (Z.of_nat (length l)));
   Ret (concat l0)) = Ret (kept x l).
Proof.
  induction l as [|y l IH]; intros k Hd x Hx; [done|].
  assert (Hy : vec !! S k = Some y).
  { rewrite <- (Nat.add_0_r (S k)), <- lookup_drop, Hd. done. }
  assert (Hd' : drop (S (S k)) vec = l).
  { replace (S (S k)) with (S k + 1) by lia. rewrite <- drop_drop, Hd. done. }
  cbn [length]. rewrite seqZ_cons by lia. cbn [mapR].
  assert (Hnew : is_new lt vec (Z.of_nat (S k)) = Ret (lt x y)).
  { unfold is_new. rewrite (proj2 (Z.ltb_ge _ 1)) by lia. rewrite !py_index_nonneg by lia.
    replace (Z.to_nat (Z.of_nat (S k) - 1)) with k by lia. rewrite Nat2Z.id, Hx, Hy. done. }
  rewrite Hnew. cbn [mbind res_bind]. specialize (IH (S k) Hd' y Hy).
  replace (Z.succ (Z.of_nat (S k))) with (Z.of_nat (S (S k))) by lia.
  replace (Z.pred (Z.of_nat (S (length l)))) with (Z.of_nat (length l)) by lia.
  cbn [kept]. destruct (lt x y).
  - rewrite py_index_nonneg, Nat2Z.id, Hy by lia. cbn [of_option mbind res_bind].
    destruct (mapR _ _); cbn in IH |- *; [|done]. injection IH as IH. by rewrite IH.
  - destruct (mapR _ _); cbn in IH |- *; [|done]. injection IH as IH. by rewrite IH.
Qed.

Lemma unique_keeps (sorted : list A → list A) vec :
  unique lt sorted vec true = Ret (match vec with [] => [] | x :: l => x :: kept x l end).
Proof.
  unfold unique. destruct vec as [|x l]; [done|].
  rewrite filter_whole, filterWithIndex_is_filter; [|split; lia|lia|vm_compute; congruence|lia]. unfold xrange2. rewrite Z.sub_0_r. cbn [length].
  rewrite seqZ_cons by lia. cbn [mapR]. pose proof (keep_loop (x :: l) l 0 eq_refl x eq_refl) as Hk.
  replace (Z.succ 0) with (Z.of_nat 1) by lia. replace (Z.pred (Z.of_nat (S (length l)))) with (Z.of_nat (length l)) by lia.
  cbn [is_new Z.ltb Z.compare mbind res_bind]. cbn in Hk |- *. destruct (mapR _ _); cbn in Hk |- *; [|done].
  injection Hk as Hk. rewrite <- Hk. reflexivity.
Qed.

(** The values that a sorted sequence has, each once, in order. *)
Lemma kept_spec (Hlt : weak_order) l : ∀ x,
  StronglySorted (λ a b, lt b a = false) (x :: l) →
  StronglySorted (λ a b, lt a b = true) (x :: kept x l) ∧
  (∀ y, y ∈ kept x l → y ∈ l) ∧
  (∀ y, y ∈ l → ∃ z, z ∈ x :: kept x l ∧ lt y z = false ∧ lt z y = false).
Proof.
  induction l as [|y l IH]; intros x Hs.
  { split; [repeat constructor|]. split; [done|]. intros y Hy. by apply elem_of_nil in Hy. }
  apply StronglySorted_inv in Hs as [Hs Hx]. apply Forall_cons in Hx as [Hxy Hx].
  destruct (IH y Hs) as (IH1 & IH2 & IH3). cbn [kept]. destruct (lt x y) eqn:Hlxy.
  - split; [|split].
    + constructor; [done|]. apply Forall_forall. intros z [->|Hz]%elem_of_cons; [done|].
      apply (wo_trans Hlt x y z); [done|]. apply StronglySorted_inv in IH1 as [_ IH1].
      rewrite Forall_forall in IH1. by apply IH1.
    + intros z [->|Hz]%elem_of_cons; [left|right; by apply IH2].
    + intros z [->|Hz]%elem_of_cons.
      * exists y. split; [by right; left|]. by rewrite (wo_irrefl Hlt).
      * destruct (IH3 z Hz) as (w & Hw & ?). exists w. split; [by right|done].
  - (* [x] and [y] are equivalent. *)
    split; [|split].
    + apply StronglySorted_inv in IH1 as [IH1 Hy]. constructor; [done|].
      eapply Forall_impl; [exact Hy|]. intros z Hz. destruct (lt x z) eqn:Hxz; [done|].
      cbn in Hz. pose proof (wo_incomp Hlt y x z Hxy Hxz). congruence.
    + intros z Hz. right. by apply IH2.
    + intros z [->|Hz]%elem_of_cons.
      * exists x. split; [left|done].
      * destruct (IH3 z Hz) as (w & [->|Hw]%elem_of_cons & H1 & H2); [|exists w; split; [by right|done]].
        exists x. split; [left|]. split; [by apply (wo_incomp Hlt z y x)|by apply (wo_incomp Hlt x y z)].
Qed.

(** [unique] of a sequence that is sorted has its values in strictly increasing
    order, only those, and for each of them an equal one, although the range is
    halved ten times. *)
Theorem unique_is_exact (Hlt : weak_order) (sorted : list A → list A) vec :
  StronglySorted (λ a b, lt b a = false) vec →
  ∃ l, unique lt sorted vec true = Ret l ∧ StronglySorted (λ a b, lt a b = true) l ∧
    (∀ y, y ∈ l → y ∈ vec) ∧ (∀ y, y ∈ vec → ∃ z, z ∈ l ∧ lt y z = false ∧ lt z y = false).
Proof.
  intros Hs. rewrite unique_keeps. eexists. split; [done|]. destruct vec as [|x l].
  { split; [constructor|]. split; [done|]. intros y Hy. by apply elem_of_nil in Hy. }
  destruct (kept_spec Hlt l x Hs) as (H1 & H2 & H3). split; [done|]. split.
  - intros y [->|Hy]%elem_of_cons; [left|right; by apply H2].
  - intros y [->|Hy]%elem_of_cons; [|by apply H3]. exists x. split; [left|]. by rewrite (wo_irrefl Hlt).
Qed.
End uniqueness.

(** ** Frames with equal columns *)

Section products.
Context {A : Type}.
Implicit Types df : DataFrame A.

(** There is a column, and all have [n] values. *)
Definition rectangular df (n : nat) : Prop := columns df ≠ [] ∧ Forall (λ col, length col = n) (columns df).

Lemma numRows_ok df n : rectangular df n → numRows df = Z.of_nat n.
Proof. unfold rectangular, numRows. destruct (columns df) as [|col cols]; intros [? Hc]; [done|]. inversion Hc. lia. Qed.

(** The values of a row. *)
Definition row_of df (ix : nat) : list A := omap (λ col : list A, col !! ix) (columns df).

Lemma row_of_lookup df n ix c :
  rectangular df n → ix < n → row_of df ix !! c = columns df !! c ≫= λ col, col !! ix.
Proof.
  intros [_ Hc] Hix. unfold row_of. revert c. induction Hc as [|col cols Hcol _ IH]; intros c; [done|]. cbn.
  destruct (lookup_lt_is_Some_2 col ix) as [v Hv]; [lia|]. rewrite Hv. destruct c as [|c]; [done|]. apply IH.
Qed.

Lemma row_of_length df n ix : rectangular df n → ix < n → length (row_of df ix) = length (columns df).
Proof.
  intros [_ Hc] Hix. unfold row_of. induction Hc as [|col cols Hcol _ IH]; [done|]. cbn.
  destruct (lookup_lt_is_Some_2 col ix) as [v ->]; [lia|]. cbn. by rewrite IH.
Qed.

(** A cell through [iloc] is the cell of the column. *)
Lemma iloc_cell df r c :
  iloc df (KTuple [KInt r; KInt c]) = (col ← py_index (columns df) c; Cell <$> py_index col r).
Proof. reflexivity. Qed.

(** An index into a row names the column; a negative one counts from the end, but the
    first column can not be named so. *)
Lemma get_int_ix_ok df n (r : nat) c :
  rectangular df n → r < n → (- numColumns df < c < numColumns df)%Z →
  get_int_ix (make_row df (Z.of_nat r)) c = py_index (row_of df r) c.
Proof.
  intros Hw Hr Hc. pose proof (row_of_length df n r Hw Hr) as Hlen. unfold get_int_ix.
  unfold make_row, row_size, row_stride, startColumnIx, row_df, rowIx.
  assert (Hcell : ∀ k : nat, k < length (columns df) →
    (s ← iloc df (KTuple [KInt (Z.of_nat r); KInt (Z.of_nat k)]); cell s) = of_option IndexError (row_of df r !! k)).
  { intros k Hk. rewrite iloc_cell, (row_of_lookup df n) by done. rewrite py_index_nonneg, Nat2Z.id by lia.
    destruct (lookup_lt_is_Some_2 (columns df) k Hk) as [col Hcol]. rewrite Hcol. cbn [of_option mbind res_bind option_bind].
    rewrite py_index_nonneg, Nat2Z.id by lia. destruct Hw as [_ Hw]. rewrite Forall_lookup in Hw.
    destruct (lookup_lt_is_Some_2 col r) as [v Hv]; [rewrite (Hw k col); done|]. by rewrite Hv. }
  unfold numColumns in *. destruct (Z.leb_spec 0 c) as [H0|H0].
  - rewrite (proj2 (Z.ltb_lt c _)) by lia. cbn [py_assert mbind res_bind].
    replace (0 + c * 1)%Z with (Z.of_nat (Z.to_nat c)) by lia. rewrite Hcell by lia. by rewrite py_index_nonneg.
  - rewrite (proj2 (Z.ltb_lt _ c)) by lia. cbn [py_assert mbind res_bind].
    replace (0 + (Z.of_nat (length (columns df)) + c) * 1)%Z
      with (Z.of_nat (Z.to_nat (Z.of_nat (length (columns df)) + c))) by lia.
    rewrite Hcell by lia. rewrite py_index_negative, py_index_nonneg by (rewrite Hlen; lia). by rewrite Hlen.
Qed.

Lemma mapR_indices {Y} (f : Z → res Y) (l : list Y) n :
  length l = n → (∀ k : nat, k < n → f (Z.of_nat k) = of_option IndexError (l !! k)) →
  mapR f (xrange (Z.of_nat n)) = Ret l.
Proof.
  intros <- Hf. apply mapR_Forall2, Forall2_same_length_lookup. unfold xrange.
  split; [rewrite length_seqZ; lia|]. intros k z y Hz Hy. apply lookup_seqZ in Hz as [-> Hk].
  rewrite Z.add_0_l, Hf, Hy by (apply lookup_lt_Some in Hy; lia). done.
Qed.

Lemma row_list_ok df n (r : nat) : rectangular df n → r < n → row_list (make_row df (Z.of_nat r)) = Ret (row_of df r).
Proof.
  intros Hw Hr. unfold row_list. change (row_size _) with (Z.of_nat (length (columns df))).
  apply mapR_indices; [by apply (row_of_length df n)|]. intros k Hk.
  rewrite (get_int_ix_ok df n) by (unfold numColumns; done || lia). by rewrite py_index_nonneg, Nat2Z.id by lia.
Qed.

(** [apply] calls the function with the rows, in order. *)
Lemma apply_rows {B} df n (g : list A → res B) :
  rectangular df n →
  apply (λ r, l ← row_list r; g l) df 1 = mapR (λ ix, g (row_of df ix)) (seq 0 n).
Proof.
  intros Hw. unfold apply. change (1 =? 0)%Z with false. change (1 =? 1)%Z with true. cbn iota.
  rewrite (numRows_ok df n Hw). unfold xrange, seqZ. rewrite Nat2Z.id.
  match goal with |- mapR ?f _ = _ => assert (Hf : ∀ k, k < n → f (Z.of_nat k) = g (row_of df k)) end.
  { intros k Hk. cbn [iloc mbind res_bind]. by rewrite (row_list_ok df n). }
  assert (Hin : ∀ k, k ∈ seq 0 n → k < n) by (intros k [_ Hk]%elem_of_seq; done). clear Hw.
  induction (seq 0 n) as [|k l IH]; [done|]. rewrite fmap_cons. cbn [mapR]. rewrite Z.add_0_r, Hf by (apply Hin; left).
  destruct (g (row_of df k)); [|done]. cbn [mbind res_bind]. by rewrite IH by (intros; apply Hin; by right).
Qed.

(** *** The matrix of a frame *)

Lemma foldl_app_concat (cols : list (list A)) : ∀ acc, foldl (λ data col, data ++ col) acc cols = acc ++ concat cols.
Proof.
  induction cols as [|col cols IH]; intros acc; cbn; [by rewrite app_nil_r|]. by rewrite IH, <- app_assoc.
Qed.

Lemma concat_lookup (cols : list (list A)) n c r :
  Forall (λ col, length col = n) cols → r < n →
  concat cols !! (c * n + r) = cols !! c ≫= λ col, col !! r.
Proof.
  intros Hc Hr. revert c. induction Hc as [|col cols Hcol _ IH]; intros c; [by destruct c|]. cbn [concat].
  destruct c as [|c]; cbn.
  - rewrite lookup_app_l by lia. done.
  - rewrite lookup_app_r by lia. rewrite <- IH. f_equal. lia.
Qed.

Lemma concat_length (cols : list (list A)) n :
  Forall (λ col, length col = n) cols → length (concat cols) = length cols * n.
Proof. induction 1 as [|col cols Hcol _ IH]; [done|]. cbn. rewrite length_app. lia. Qed.

Lemma as_matrix_ok df n :
  rectangular df n →
  ∃ a, as_matrix df = Ret a ∧ wf a ∧ shape a = [Z.of_nat n; numColumns df] ∧
    ∀ r c, (0 ≤ r < Z.of_nat n)%Z → (0 ≤ c < numColumns df)%Z →
      value_at a [r; c] = py_index (row_of df (Z.to_nat r)) c.
Proof.
  intros Hw. unfold as_matrix. rewrite foldl_app_concat. cbn [app]. unfold reshape, product, size.
  cbn [values foldl mbind res_bind]. rewrite (numRows_ok df n Hw). unfold numColumns.
  rewrite (concat_length (columns df) n) by apply Hw. rewrite bool_decide_false by lia.
  set (m := Array [Z.of_nat (length (columns df)); Z.of_nat n] (concat (columns df))). cbn [mbind res_bind].
  assert (Hm : wf m).
  { split; [repeat constructor; lia|]. unfold size, m. cbn. rewrite (concat_length _ n) by apply Hw. lia. }
  destruct (transpose_transposes m Hm) as (b & Hb & Hwb & Hsb & Hvb); [cbn; lia|].
  exists b. split; [done|]. split; [done|]. split; [done|]. intros r c Hr Hc.
  rewrite <- (reverse_involutive [r; c]). change (reverse [r; c]) with [c; r]. assert (Hin : within (shape m) [c; r]).
  { constructor; [exact Hc|]. constructor; [exact Hr|constructor]. }
  rewrite Hvb, value_at_ok by done. cbn [shape values m offset prod foldr].
  rewrite py_index_nonneg, (row_of_lookup df n) by (done || lia).
  replace (Z.to_nat (c * (Z.of_nat n * 1) + (r * 1 + 0))) with (Z.to_nat c * n + Z.to_nat r) by lia.
  rewrite (concat_lookup _ n) by (apply Hw || lia). done.
Qed.

(** *** The product with a vector *)

Context `{Number A}.

(** The sum of the products of a row and the vector, from the left. *)
Definition row_product (row other : list A) : A :=
  match row, other with
  | x :: row, y :: other => foldl (λ acc p, add acc (mul p.2 p.1)) (mul y x) (zip row other)
  | _, _ => float0
  end.

Lemma row_product_snoc row other k x y :
  0 < k → row !! k = Some x → other !! k = Some y →
  row_product (take (S k) row) (take (S k) other) =
    add (row_product (take k row) (take k other)) (mul y x).
Proof.
  intros Hk Hx Hy. destruct k as [|k]; [lia|]. destruct row as [|x0 row]; [done|]. destruct other as [|y0 other]; [done|].
  cbn in Hx, Hy. cbn [take row_product]. rewrite (take_S_r row k x), (take_S_r other k y) by done.
  rewrite zip_with_app by (rewrite !length_take; apply lookup_lt_Some in Hx, Hy; lia).
  rewrite foldl_app. done.
Qed.

(** A function of an index, on a range. *)
Lemma mapR_range (f : Z → res A) (g : Z → A) low high :
  (∀ ix, (low ≤ ix < high)%Z → f ix = Ret (g ix)) → mapR f (xrange2 low high) = Ret (g <$> xrange2 low high).
Proof.
  intros Hf. apply mapR_Forall2. assert (Hin : ∀ ix, ix ∈ xrange2 low high → (low ≤ ix < high)%Z).
  { intros ix Hix. unfold xrange2 in Hix. apply elem_of_seqZ in Hix. lia. }
  induction (xrange2 low high) as [|ix l IH]; constructor; [apply Hf, Hin; left|]. apply IH. intros; apply Hin; by right.
Qed.

Lemma xrange2_lookup low high ix : (low ≤ ix < high)%Z → xrange2 low high !! Z.to_nat (ix - low) = Some ix.
Proof. intros Hix. unfold xrange2. apply lookup_seqZ. lia. Qed.

(** The products of the first [k] columns. *)
Definition partial df (other : list A) (k : nat) (ix : Z) : A :=
  row_product (take k (row_of df (Z.to_nat ix))) (take k other).

Lemma columns_loop_ok df n (other : list A) low high :
  rectangular df n → length other = length (columns df) → (0 ≤ low)%Z → (high ≤ Z.of_nat n)%Z →
  ∀ m k, k + m = length (columns df) → 0 < k →
  columns_loop df other low high (seqZ (Z.of_nat k) (Z.of_nat m)) (partial df other k <$> xrange2 low high) =
    Ret (partial df other (length (columns df)) <$> xrange2 low high).
Proof.
  intros Hw Hlen Hlow Hhigh. induction m as [|m IH]; intros k Hk Hk0.
  { cbn. by rewrite <- Hk, Nat.add_0_r. }
  rewrite seqZ_cons by lia. cbn [columns_loop].
  destruct (lookup_lt_is_Some_2 (columns df) k) as [col Hcol]; [lia|].
  destruct (lookup_lt_is_Some_2 other k) as [y Hy]; [lia|].
  rewrite !py_index_nonneg, Nat2Z.id, Hcol, Hy by lia. cbn [of_option mbind res_bind].
  assert (Hadd : addVecsOnRange (partial df other k <$> xrange2 low high) col y low high =
                 Ret (partial df other (S k) <$> xrange2 low high)).
  { apply mapR_range. intros ix Hix. rewrite !py_index_nonneg by lia.
    rewrite list_lookup_fmap, xrange2_lookup by done. cbn [fmap option_fmap option_map of_option mbind res_bind].
    destruct Hw as [Hne Hw]. pose proof Hw as Hw'. rewrite Forall_lookup in Hw'.
    destruct (lookup_lt_is_Some_2 col (Z.to_nat ix)) as [x Hx]; [rewrite (Hw' k col Hcol); lia|].
    rewrite Hx. cbn [of_option mbind res_bind]. f_equal. unfold partial. symmetry. apply row_product_snoc; [done| |done].
    rewrite (row_of_lookup df n) by (by split || lia). by rewrite Hcol. }
  rewrite Hadd. cbn [mbind res_bind]. replace (Z.succ (Z.of_nat k)) with (Z.of_nat (S k)) by lia.
  replace (Z.pred (Z.of_nat (S m))) with (Z.of_nat m) by lia. apply IH; lia.
Qed.

Lemma dot_on_chunk_ok df n (other : list A) low high :
  rectangular df n → length other = length (columns df) → (0 ≤ low)%Z → (high ≤ Z.of_nat n)%Z →
  dot_on_chunk df other low high = Ret ((λ ix, row_product (row_of df (Z.to_nat ix)) other) <$> xrange2 low high).
Proof.
  intros Hw Hlen Hlow Hhigh. unfold dot_on_chunk. pose proof Hw as [Hne Hcs].
  destruct (columns df) as [|col cols] eqn:Hc; [done|]. destruct other as [|y other]; [done|].
  assert (Hx0 : ∀ X (x : X) l, py_index (x :: l) 0 = Ret x) by done. rewrite !Hx0. cbn [mbind res_bind].
  assert (Hscale : scaleVecOnRange col y low high = Ret (partial df (y :: other) 1 <$> xrange2 low high)).
  { apply mapR_range. intros ix Hix. rewrite py_index_nonneg by lia.
    destruct (lookup_lt_is_Some_2 col (Z.to_nat ix)) as [x Hx]; [apply Forall_cons in Hcs as [-> _]; lia|].
    rewrite Hx. cbn [of_option mbind res_bind]. f_equal. unfold partial, row_of. rewrite Hc. cbn. rewrite Hx.
    destruct (omap _ cols), other; done. }
  rewrite Hscale. cbn [mbind res_bind]. assert (Hx1 : xrange2 1 (numColumns df) = seqZ (Z.of_nat 1) (Z.of_nat (length cols))).
  { unfold xrange2, numColumns. rewrite Hc. f_equal. cbn [length]. lia. }
  rewrite Hx1.
  rewrite (columns_loop_ok df n (y :: other) low high Hw) with (k := 1) (m := length cols);
    [|by rewrite Hc|done|done|by rewrite Hc|lia].
  f_equal. apply list_fmap_ext. intros i ix Hix. unfold partial.
  rewrite !take_ge; [done|by rewrite Hc, Hlen|]. rewrite (row_of_length df n); [done|done|].
  apply list_elem_of_lookup_2 in Hix. unfold xrange2 in Hix. apply elem_of_seqZ in Hix. lia.
Qed.

Lemma dot_range_ok df n (other : list A) splitLimit :
  rectangular df n → length other = length (columns df) → (1 ≤ splitLimit)%Z → ∀ fuel low high,
  (0 ≤ low ≤ high)%Z → (high ≤ Z.of_nat n)%Z → (high - low < Z.of_nat fuel)%Z →
  dot_range fuel df other splitLimit low high =
    Ret ((λ ix, row_product (row_of df (Z.to_nat ix)) other) <$> xrange2 low high).
Proof.
  intros Hw Hlen Hs. induction fuel as [|fuel IH]; intros low high Hl Hh Hf; [lia|]. cbn [dot_range].
  destruct (Z.leb_spec (high - low) splitLimit) as [Hle|Hgt]; [apply (dot_on_chunk_ok df n); done || lia|].
  set (mid := ((high + low) / 2)%Z). assert (low < mid < high)%Z by (subst mid; Z.to_euclidean_division_equations; lia).
  rewrite !IH by lia. cbn [mbind res_bind]. by rewrite (xrange2_split low mid high), fmap_app by lia.
Qed.

(** C34. A frame of [n] rows, times a vector with an entry for each column, is the column
    of the sums of products of its rows, added from the left: whatever the limit above
    which the rows are halved, if it is at least 1, and with a stack of one call more
    than there are rows. The rows are those that [iloc] gives: iterated, they are the
    entries of the columns, negative indices count from the end but for that of the
    first column, [apply] calls its function with them in order, and they are the rows
    of the matrix that is made of the frame. *)
Theorem frame_is_its_rows df n :
  rectangular df n →
  (∀ r : nat, r < n → row_list (make_row df (Z.of_nat r)) = Ret (row_of df r)) ∧
  (∀ (r : nat) c, r < n → (- numColumns df < c < numColumns df)%Z →
     get_int_ix (make_row df (Z.of_nat r)) c = py_index (row_of df r) c) ∧
  (∀ g : list A → res A, apply (λ r, l ← row_list r; g l) df 1 = mapR (λ ix, g (row_of df ix)) (seq 0 n)) ∧
  (∃ a, as_matrix df = Ret a ∧ shape a = [Z.of_nat n; numColumns df] ∧
     ∀ r c, (0 ≤ r < Z.of_nat n)%Z → (0 ≤ c < numColumns df)%Z →
       value_at a [r; c] = py_index (row_of df (Z.to_nat r)) c) ∧
  (∀ fuel splitLimit other, length other = length (columns df) → (1 ≤ splitLimit)%Z → n < fuel →
     frame_dot fuel df other splitLimit = Ret ((λ ix, row_product (row_of df ix) other) <$> seq 0 n)).
Proof.
  intros Hw. split; [|split; [|split; [|split]]].
  - intros r Hr. by apply (row_list_ok df n).
  - intros r c Hr Hc. by apply (get_int_ix_ok df n).
  - intros g. by apply apply_rows.
  - destruct (as_matrix_ok df n Hw) as (a & Ha & _ & Hs & Hv). by exists a.
  - intros fuel splitLimit other Hlen Hs Hf. unfold frame_dot, numColumns.
    rewrite Hlen, Z.eqb_refl. cbn [py_assert mbind res_bind]. rewrite (numRows_ok df n Hw).
    rewrite (dot_range_ok df n) by (done || lia). f_equal. unfold xrange2, seqZ.
    rewrite Z.sub_0_r, Nat2Z.id, <- list_fmap_compose. apply list_fmap_ext. intros i ix _. cbn. do 2 f_equal. lia.
Qed.

(** Series: the element-wise sum, and the same value added to all. *)
Lemma series_add_zips (l m : list A) :
  series_add l (inl m) = if length l =? length m then Ret (zip_with add l m) else Raise AssertionError.
Proof.
  unfold series_add. destruct (Nat.eqb_spec (length l) (length m)) as [Heq|]; [|done]. cbn [py_assert mbind res_bind].
  apply mapR_indices; [rewrite length_zip_with; lia|]. intros k Hk. rewrite !py_index_nonneg, Nat2Z.id by lia.
  rewrite lookup_zip_with. destruct (lookup_lt_is_Some_2 l k Hk) as [x ->].
  destruct (lookup_lt_is_Some_2 m k) as [y ->]; [lia|]. done.
Qed.
End products.

(** ** Samples *)
Module FrameSamples.

#[local] Instance integers : Number Z := {|
  of_int z := z; float0 := 0%Z; float1 := 1%Z; add := Z.add; mul := Z.mul; sub := Z.sub; neg := Z.opp;
  div a b := if (b =? 0)%Z then Raise ZeroDivisionError else Ret (a / b)%Z;
  pow a b := Ret (a ^ b)%Z; lt := Z.ltb; eqv := Z.eqb |}.

Definition frame : DataFrame Z :=
  {| columnNames := ["x"; "y"; "z"]%string; columns := [[1; 2; 3; 4]; [10; 20; 30; 40]; [5; 5; 6; 6]]%Z |}.

Lemma frame_is_its_rows_witness :
  rectangular frame 4 ∧ frame_dot 5 frame [1; 2; 3]%Z 1 = Ret [36; 57; 81; 102]%Z ∧
  frame_dot 5 frame [1; 2; 3]%Z 1 =
    Ret ((λ ix, row_product (row_of frame ix) [1; 2; 3]%Z) <$> seq 0 4).
Proof.
  assert (Hr : rectangular frame 4) by (split; [done|repeat constructor]).
  split; [exact Hr|]. split; [reflexivity|]. apply (frame_is_its_rows frame 4 Hr); cbn; lia.
Defined.

Lemma unique_is_exact_witness :
  unique Z.ltb (λ l, l) [1; 1; 2; 5; 5; 5; 7]%Z true = Ret [1; 2; 5; 7]%Z ∧
  ∃ l, unique Z.ltb (λ l, l) [1; 1; 2; 5; 5; 5; 7]%Z true = Ret l ∧ StronglySorted (λ a b, Z.ltb a b = true) l.
Proof.
  split; [vm_compute; reflexivity|].
  destruct (unique_is_exact Z.ltb) with (sorted := λ l : list Z, l) (vec := [1; 1; 2; 5; 5; 5; 7]%Z) as (l & Hl & Hs & _).
  - split; [intros x; apply Z.ltb_irrefl|intros x y z Hx Hy; lia|intros x y z Hx Hy; lia].
  - repeat constructor.
  - by exists l.
Defined.

(** The index that names the first column from the end. *)
Lemma first_from_the_end :
  get_int_ix (make_row frame 0) (-3) = Raise AssertionError ∧ py_index (row_of frame 0) (-3) = Ret 1%Z.
Proof. split; reflexivity. Qed.
End FrameSamples.
