(* ===== verification/RegressionTrees.v ===== *)
(** * Regression trees ([pyfora/algorithms/regressionTrees/Base.py], [RegressionTree.py],
    [AdditiveRegressionTree.py])

    A regression tree is a list of rules in which a split jumps forward to one of its two
    halves. The builder finds the best split of the rows of a data frame with a histogram
    of the column's values, and splits both halves again. Frames are those of
    [PurePandas], sums the builtin of [PureBuiltins], numbers those of [PureNumpy]. *)
From Stdlib Require Import Lia ZArith.
From stdpp Require Import base list numbers strings.
From S2P Require Import Prelude PureBuiltins PureNumpy PurePandas.
Set Default Proof Using "All".

(** ** Indices into lists *)

Lemma py_index_middle {X} (pre post : list X) x : py_index (pre ++ x :: post) (Z.of_nat (length pre)) = Ret x.
Proof. rewrite py_index_nonneg, Nat2Z.id by lia. by rewrite list_lookup_middle. Qed.

Lemma slice_all {X} (l : list X) : py_slice l (Slice None None None) = Ret l.
Proof.
  unfold py_slice, slice_indices. cbn [slice_step slice_start slice_stop from_option id slice_end].
  change (1 =? 0)%Z with false. change (1 <? 0)%Z with false. change (0 <? 1)%Z with true. cbn [slice_end mbind res_bind].
  set (n := Z.of_nat (length l)).
  replace (if (0 <? n)%Z then ((n - 0 - 1) / 1 + 1)%Z else 0%Z) with n
    by (subst n; rewrite Z.div_1_r; destruct (Z.ltb_spec 0 (Z.of_nat (length l))); lia).
  rewrite <- (mapR_indices (py_index l) l (length l)); [|done|].
  - fold n. f_equal. rewrite <- (list_fmap_id (xrange n)) at 2. apply list_fmap_ext. intros i z _. cbn. lia.
  - intros k Hk. rewrite py_index_nonneg by lia. by rewrite Nat2Z.id.
Qed.

Lemma slice_to {X} (l : list X) k :
  k ≤ length l → py_slice l (Slice None (Some (Z.of_nat k)) None) = Ret (take k l).
Proof.
  intros Hk. unfold py_slice, slice_indices. cbn [slice_step slice_start slice_stop from_option id slice_end].
  change (1 =? 0)%Z with false. change (1 <? 0)%Z with false. change (0 <? 1)%Z with true. cbn [mbind res_bind].
  rewrite (proj2 (Z.ltb_ge (Z.of_nat k) 0)) by lia.
  replace (if (Z.of_nat (length l) <=? Z.of_nat k)%Z then Z.of_nat (length l) else Z.of_nat k) with (Z.of_nat k)
    by (destruct (Z.leb_spec (Z.of_nat (length l)) (Z.of_nat k)); lia).
  replace (if (0 <? Z.of_nat k)%Z then ((Z.of_nat k - 0 - 1) / 1 + 1)%Z else 0%Z) with (Z.of_nat k)
    by (rewrite Z.div_1_r; destruct (Z.ltb_spec 0 (Z.of_nat k)); lia).
  rewrite <- (mapR_indices (py_index l) (take k l) k); [|rewrite length_take; lia|].
  - f_equal. rewrite <- (list_fmap_id (xrange _)) at 2. apply list_fmap_ext. intros i z _. cbn. lia.
  - intros i Hi. rewrite py_index_nonneg, Nat2Z.id by lia. by rewrite lookup_take_lt.
Qed.

Lemma slice_to_end {X} (l : list X) : py_slice l (Slice None (Some (Z.of_nat (length l))) None) = Ret l.
Proof. by rewrite slice_to, firstn_all. Qed.

Section trees.
Context {A : Type} `{Number A}.
(** The literals [float("inf")], [float("nan")], [0.5], [2.0] and [3.0]. *)
Context (inf nan half two three : A).
(** The index that FORA makes of a number. *)
Context (fora_index : A → Z).
(** The generator of a generator expression, and [+] of a value and the marker class
    [Empty] of [reduce]; sums nest at most [sum_fuel] calls deep. *)
Context {G : Type → Type} `{∀ B, Generator (G B) B} (expression : ∀ B, list B → G B)
  (applied : ∀ B, B → res B) (sum_fuel : nat).

(** [x >= y] and [x > y]. *)
Definition ge (x y : A) : bool := lt y x || eqv x y.
Definition gt (x y : A) : bool := lt y x.

Definition sum_of {B} (plus : B → B → B) (l : list B) (start : B) : res B :=
  v ← Sum (λ x y, Ret (plus x y)) (applied B) sum_fuel (expression B l) start; of_option InternalError v.

(** ** Base.py *)

Record SampleSummary := { xSum : A; weight : A; xxSum : A }.
Definition no_samples : SampleSummary := {| xSum := float0; weight := float0; xxSum := float0 |}.
Definition one_sample (x : A) : SampleSummary := {| xSum := x; weight := float1; xxSum := mul x x |}.
Definition summary_add (a b : SampleSummary) : SampleSummary :=
  {| xSum := add (xSum a) (xSum b); weight := add (weight a) (weight b); xxSum := add (xxSum a) (xxSum b) |}.
Definition summary_sub (a b : SampleSummary) : SampleSummary :=
  {| xSum := sub (xSum a) (xSum b); weight := sub (weight a) (weight b); xxSum := sub (xxSum a) (xxSum b) |}.

Definition mean (s : SampleSummary) : res A := div (xSum s) (weight s).
Definition variance (s : SampleSummary) : res A :=
  m ← mean s; x ← div (xxSum s) (weight s); Ret (sub x (mul m m)).
Definition stdev (s : SampleSummary) : res A := v ← variance s; pow v half.

Definition impurityImprovement_of (sampleSummary1 sampleSummary2 : SampleSummary) : res A :=
  if eqv (weight sampleSummary1) (of_int 0) || eqv (weight sampleSummary2) (of_int 0) then Ret (neg inf)
  else
    whole ← variance (summary_add sampleSummary1 sampleSummary2);
    v1 ← variance sampleSummary1;
    v2 ← variance sampleSummary2;
    parts ← div (add (mul v1 (weight sampleSummary1)) (mul v2 (weight sampleSummary2)))
                (add (weight sampleSummary1) (weight sampleSummary2));
    Ret (sub whole parts).

(** *** Histograms *)

(** The count is kept with the samples, a mutable vector or a list. *)
Record SampleSummaryHistogram := { x0 : A; x1 : A; count : Z; samples : list SampleSummary }.
Definition empty_histogram (a b : A) (n : Z) : SampleSummaryHistogram :=
  {| x0 := a; x1 := b; count := n; samples := replicate (Z.to_nat n) no_samples |}.
Definition histogram (a b : A) (l : list SampleSummary) : SampleSummaryHistogram :=
  {| x0 := a; x1 := b; count := Z.of_nat (length l); samples := l |}.

(** The bucket of a value, with the builtins [max] and [min]. *)
Definition bucket_of (h : SampleSummaryHistogram) (xValue : A) : res A :=
  b ← match div (sub xValue (x0 h)) (sub (x1 h) (x0 h)) with
      | Ret q => Ret (mul q (of_int (count h)))
      | Raise ZeroDivisionError => Ret (mul (mul (sub xValue (x0 h)) inf) (of_int (count h)))
      | Raise e => Raise e
      end;
  let b := Max2 lt b (of_int 0) in
  Ret (Min2 lt b (of_int (count h - 1))).

Definition augmentItem (l : list SampleSummary) (ix : Z) (val : SampleSummary) : res (list SampleSummary) :=
  if (ix <? 0)%Z then Raise IndexError
  else
    s ← of_option IndexError (l !! Z.to_nat ix);
    Ret (<[Z.to_nat ix := summary_add s val]> l).

Definition observe (h : SampleSummaryHistogram) (xValue : A) (sample : SampleSummary) : res SampleSummaryHistogram :=
  bucket ← bucket_of h xValue;
  l ← augmentItem (samples h) (fora_index bucket) sample;
  Ret {| x0 := x0 h; x1 := x1 h; count := count h; samples := l |}.

(** The loop over the split points after the first. *)
Fixpoint best_split_loop (rest : list SampleSummary) (curIx : Z) (above below : SampleSummary) (bestIx : Z)
    (bestImpurityImprovement : A) : res (Z * A) :=
  match rest with
  | [] | [_] => Ret (bestIx, bestImpurityImprovement)
  | s :: rest =>
      let above := summary_sub above s in
      let below := summary_add below s in
      i ← impurityImprovement_of above below;
      if gt i bestImpurityImprovement then best_split_loop rest (curIx + 1) above below curIx i
      else best_split_loop rest (curIx + 1) above below bestIx bestImpurityImprovement
  end.

Definition bestSplitPointAndImpurityImprovement (h : SampleSummaryHistogram) : res (A * A) :=
  let above := foldl summary_add no_samples (samples h) in
  match samples h with
  | [] => Raise IndexError
  | below :: rest =>
      let above := summary_sub above below in
      best ← impurityImprovement_of above below;
      '(bestIx, best) ← best_split_loop rest 1 above below 0 best;
      d ← div (mul (of_int (bestIx + 1)) (sub (x1 h) (x0 h))) (of_int (count h));
      Ret (add (x0 h) d, best)
  end.

Definition freeze (h : SampleSummaryHistogram) : SampleSummaryHistogram := histogram (x0 h) (x1 h) (samples h).

Definition histogram_add (a b : SampleSummaryHistogram) : res SampleSummaryHistogram :=
  _ ← py_assert (eqv (x0 a) (x0 b) && eqv (x1 a) (x1 b));
  newSamples ← mapR (λ ix, s ← of_option IndexError (samples a !! ix); t ← of_option IndexError (samples b !! ix);
                           Ret (summary_add s t)) (seq 0 (length (samples a)));
  Ret (histogram (x0 a) (x1 a) newSamples).

(** *** Rules *)

Record Rule := { dimension : Z; splitPoint : A; impurityImprovement : A; numSamples : Z }.

(** A row gives a value for each dimension. *)
Definition isLess (r : Rule) (row : Z → res A) : res bool := x ← row (dimension r); Ret (lt x (splitPoint r)).

(** [df.iloc[:, ix]]. *)
Definition column (df : DataFrame A) (ix : Z) : res (list A) :=
  s ← iloc df (KTuple [all_rows; KInt ix]);
  match s with Column l => Ret l | _ => Raise InternalError end.

(** [[ix for ix in activeIndices if f(xColumn[ix])]]. *)
Fixpoint select (f : A → bool) (xColumn : list A) (ixs : list Z) : res (list Z) :=
  match ixs with
  | [] => Ret []
  | ix :: ixs => x ← py_index xColumn ix; l ← select f xColumn ixs; Ret (if f x then ix :: l else l)
  end.

Definition splitDataframe (r : Rule) (df : DataFrame A) (activeIndices : list Z) : res (list Z * list Z) :=
  xColumn ← column df (dimension r);
  leftIndices ← select (λ x, lt x (splitPoint r)) xColumn activeIndices;
  rightIndices ← select (λ x, ge x (splitPoint r)) xColumn activeIndices;
  Ret (leftIndices, rightIndices).

(** A rule of a tree: [SplitRule], or [RegressionLeafRule]. *)
Inductive rule :=
| SplitRule (r : Rule) (jumpIfLess jumpIfHigher : Z) (leafValue : A)
| RegressionLeafRule (leafValue : A).
Definition leafValue (r : rule) : A := match r with SplitRule _ _ _ v | RegressionLeafRule v => v end.

(** ** RegressionTree *)

Record RegressionTree := { rules : list rule; numDimensions : option nat }.

(** The loop: the current depth is never counted. [None]: [fuel] steps do not end it. *)
Fixpoint prediction_loop (fuel : nat) (rs : list rule) (row : Z → res A) (depth currentDepth ix : Z) : option (res A) :=
  match fuel with
  | O => None
  | S fuel =>
      match py_index rs ix with
      | Raise e => Some (Raise e)
      | Ret (RegressionLeafRule v) => Some (Ret v)
      | Ret (SplitRule r jumpIfLess jumpIfHigher v) =>
          if (currentDepth =? depth)%Z then Some (Ret v)
          else
            match isLess r row with
            | Raise e => Some (Raise e)
            | Ret true => prediction_loop fuel rs row depth currentDepth (ix + jumpIfLess)
            | Ret false => prediction_loop fuel rs row depth currentDepth (ix + jumpIfHigher)
            end
      end
  end.
Definition predictionFunction (fuel : nat) (t : RegressionTree) (row : Z → res A) (depth : option Z) : option (res A) :=
  prediction_loop fuel (rules t) row (default 1000000%Z depth) 0 0.

(** Predictions of the rows of a frame; a loop that does not end does not return. *)
Definition predict (fuel : nat) (t : RegressionTree) (x : DataFrame A) (depth : option Z) : res (list A) :=
  apply (λ row, default (Raise RecursionLimit) (predictionFunction fuel t (λ d, row_getitem row (KInt d)) depth)) x 1.

(** The coefficient of determination: [yTrue] is a series. *)
Definition score_of (yTrue yPredicted : list A) (sz : Z) : res A :=
  squares ← mapR (λ ix, a ← py_index yTrue ix; b ← py_index yPredicted ix; pow (sub a b) two) (xrange sz);
  u ← sum_of add squares (of_int 0);
  total ← sum_of add yTrue (of_int 0);
  m ← div total (of_int sz);
  squares ← mapR (λ ix, a ← py_index yTrue ix; pow (sub a m) two) (xrange sz);
  v ← sum_of add squares (of_int 0);
  q ← div u v;
  Ret (sub float1 q).
Definition score (fuel : nat) (t : RegressionTree) (x : DataFrame A) (yTrue : DataFrame A + list A) : res A :=
  let sz := numRows x in
  _ ← py_assert (sz =? match yTrue with inl y => numRows y | inr y => Z.of_nat (length y) end)%Z;
  yTrue ← match yTrue with inl y => column y 0 | inr y => Ret y end;
  yPredicted ← predict fuel t x None;
  score_of yTrue yPredicted sz.

(** ** RegressionTreeBuilder *)

Record RegressionTreeBuilder := {
  builder_maxDepth : Z; minSamplesSplit : Z; numBuckets : Z; minSplitThresh : Z }.

(** [OnDemandSelectedVector]. *)
Record OnDemandSelectedVector := { vectorToSelectFrom : list A; selectingIndices : list Z }.
Definition selected (v : OnDemandSelectedVector) (ix : Z) : res A :=
  i ← py_index (selectingIndices v) ix; py_index (vectorToSelectFrom v) i.
Definition selected_len (v : OnDemandSelectedVector) : Z := Z.of_nat (length (selectingIndices v)).
Definition selected_iter (v : OnDemandSelectedVector) : res (list A) := mapR (selected v) (xrange (selected_len v)).

Fixpoint argmax_loop (vec : list A) (ix : nat) (curMax : A) (curMaxIx : nat) : nat :=
  match vec with
  | [] => curMaxIx
  | val :: vec => if gt val curMax then argmax_loop vec (S ix) val ix else argmax_loop vec (S ix) curMax curMaxIx
  end.
Definition argmax (vec : list A) : res nat :=
  match vec with [] => Raise IndexError | v :: _ => Ret (argmax_loop vec 0 v 0) end.

Definition sampleSummary (xVec : OnDemandSelectedVector) : res SampleSummary :=
  l ← mapR (λ ix, x ← selected xVec ix; Ret (one_sample x)) (xrange (selected_len xVec));
  sum_of summary_add l no_samples.

Implicit Types b : RegressionTreeBuilder.

(** The loop that observes a range of the rows. *)
Fixpoint observe_all (h : SampleSummaryHistogram) (xCol yCol : OnDemandSelectedVector) (ixs : list Z) : res SampleSummaryHistogram :=
  match ixs with
  | [] => Ret h
  | ix :: ixs =>
      x ← selected xCol ix;
      y ← selected yCol ix;
      h ← observe h x (one_sample y);
      observe_all h xCol yCol ixs
  end.

(** At most [fuel] calls deep; [None] stands for the default of [high]. *)
Fixpoint computeBucketedSampleSummaries (fuel : nat) b (xCol yCol : OnDemandSelectedVector) (a c : A) (n : Z)
    (low : Z) (high : option Z) : res SampleSummaryHistogram :=
  match fuel with
  | O => Raise RecursionLimit
  | S fuel =>
      let high := default (selected_len xCol) high in
      if (high - low <? minSplitThresh b)%Z then
        hist ← observe_all (empty_histogram a c n) xCol yCol (xrange2 low high);
        Ret (freeze hist)
      else
        let mid := ((low + high) / 2)%Z in
        left_ ← computeBucketedSampleSummaries fuel b xCol yCol a c n low (Some mid);
        right_ ← computeBucketedSampleSummaries fuel b xCol yCol a c n mid (Some high);
        histogram_add left_ right_
  end.

Context (chunk_fuel : nat).

Definition bestRuleForXDimension b (df : DataFrame A) (yDim xDim : Z) (activeIndices : list Z) : res Rule :=
  xs ← column df xDim;
  ys ← column df yDim;
  let xColumn := {| vectorToSelectFrom := xs; selectingIndices := activeIndices |} in
  let yColumn := {| vectorToSelectFrom := ys; selectingIndices := activeIndices |} in
  summary ← sampleSummary xColumn;
  m ← mean summary; s ← stdev summary; m' ← mean summary; s' ← stdev summary;
  hist ← computeBucketedSampleSummaries chunk_fuel b xColumn yColumn
           (sub m (mul s three)) (add m' (mul s' three)) (numBuckets b) 0 None;
  '(point, improvement) ← bestSplitPointAndImpurityImprovement hist;
  Ret {| dimension := xDim; splitPoint := point; impurityImprovement := improvement;
         numSamples := Z.of_nat (length activeIndices) |}.

Definition bestRule b (df : DataFrame A) (yDim : Z) (xDimensions activeIndices : list Z) : res Rule :=
  bestRuleByDimension ← mapR (λ ix, bestRuleForXDimension b df yDim ix activeIndices) xDimensions;
  bestRuleIx ← argmax (impurityImprovement <$> bestRuleByDimension);
  of_option IndexError (bestRuleByDimension !! bestRuleIx).

Definition defaultLeafValueFun (yDim : Z) (values : DataFrame A) (activeIndices : list Z) : res A :=
  ys ← column values yDim;
  let selectedValues := {| vectorToSelectFrom := ys; selectingIndices := activeIndices |} in
  let sz := selected_len selectedValues in
  if (sz =? 0)%Z then Ret nan
  else l ← selected_iter selectedValues; total ← sum_of add l (of_int 0); div total (of_int sz).

(** The leaf value of a split: the mean of those of the halves. *)
Definition split_value (leftIndices rightIndices : list Z) (treeLeft treeRight : list rule) : res A :=
  let l := Z.of_nat (length leftIndices) in
  let r := Z.of_nat (length rightIndices) in
  a ← py_index treeLeft 0;
  c ← py_index treeRight 0;
  div (add (mul (of_int l) (leafValue a)) (mul (of_int r) (leafValue c))) (of_int (l + r)).

(** [fit_] with all arguments given, at most [fuel] calls deep. *)
Fixpoint fit_rules (fuel : nat) b (df : DataFrame A) (yDim maxDepth : Z) (xDimensions : list Z)
    (leafValueFun : DataFrame A → list Z → res A) (activeIndices : list Z) : res (list rule) :=
  match fuel with
  | O => Raise RecursionLimit
  | S fuel =>
      if (Z.of_nat (length activeIndices) <? minSamplesSplit b)%Z || (maxDepth =? 0)%Z then
        v ← leafValueFun df activeIndices; Ret [RegressionLeafRule v]
      else
        r ← bestRule b df yDim xDimensions activeIndices;
        '(leftIndices, rightIndices) ← splitDataframe r df activeIndices;
        if (length leftIndices =? 0) || (length rightIndices =? 0) then
          v ← leafValueFun df activeIndices; Ret [RegressionLeafRule v]
        else
          let nextDepth := (maxDepth - 1)%Z in
          treeLeft ← fit_rules fuel b df yDim nextDepth xDimensions leafValueFun leftIndices;
          treeRight ← fit_rules fuel b df yDim nextDepth xDimensions leafValueFun rightIndices;
          v ← split_value leftIndices rightIndices treeLeft treeRight;
          Ret ([SplitRule r 1 (1 + Z.of_nat (length treeLeft)) v] ++ treeLeft ++ treeRight)
  end.

(** [fit_]: [None] stands for the defaults. *)
Definition fit_ (fuel : nat) b (df : DataFrame A) (yDim : Z) (maxDepth : option Z) (xDimensions : option (list Z))
    (leafValueFun : option (DataFrame A → list Z → res A)) (activeIndices : option (list Z)) : res RegressionTree :=
  let maxDepth := default (builder_maxDepth b) maxDepth in
  let xDimensions := default (filter (λ ix, ix ≠ yDim) (xrange (numColumns df))) xDimensions in
  let leafValueFun := default (defaultLeafValueFun yDim) leafValueFun in
  let activeIndices := default (xrange (numRows df)) activeIndices in
  rs ← fit_rules fuel b df yDim maxDepth xDimensions leafValueFun activeIndices;
  Ret {| rules := rs; numDimensions := Some (length xDimensions) |}.

Definition fit (fuel : nat) b (x : DataFrame A) (y : DataFrame A + list A) : res RegressionTree :=
  y ← match y with
      | inl y => _ ← py_assert (numColumns y =? 1)%Z; column y 0
      | inr y => Ret y
      end;
  df ← pyfora_addColumn x "__target" y;
  fit_ fuel b df (numColumns x) (Some (builder_maxDepth b)) (Some (xrange (numColumns x))) None None.

(** ** AdditiveRegressionTree *)

Definition AdditiveRegressionTree : Type := list RegressionTree.
Definition additive_add (ts : AdditiveRegressionTree) (t : RegressionTree) : AdditiveRegressionTree := ts ++ [t].
Definition additive_prediction (fuel : nat) (ts : AdditiveRegressionTree) (row : Z → res A) (nEstimators : option Z) : res A :=
  let nEstimators := default (Z.of_nat (length ts)) nEstimators in
  used ← py_slice ts (Slice None (Some nEstimators) None);
  l ← mapR (λ t, default (Raise RecursionLimit) (predictionFunction fuel t row None)) used;
  sum_of add l (of_int 0).
Definition additive_predict (fuel : nat) (ts : AdditiveRegressionTree) (x : DataFrame A) (nEstimators : option Z) : res (list A) :=
  apply (λ row, additive_prediction fuel ts (λ d, row_getitem row (KInt d)) nEstimators) x 1.

(** ** The tree that a list of rules stands for *)

Inductive tree :=
| Tip (group : list Z) (v : A)
| Fork (r : Rule) (v : A) (l r' : tree).

Fixpoint flatten_tree (t : tree) : list rule :=
  match t with
  | Tip _ v => [RegressionLeafRule v]
  | Fork r v a c =>
      [SplitRule r 1 (1 + Z.of_nat (length (flatten_tree a))) v] ++ flatten_tree a ++ flatten_tree c
  end.
Fixpoint tips (t : tree) : list (list Z * A) :=
  match t with Tip g v => [(g, v)] | Fork _ _ a c => tips a ++ tips c end.
Fixpoint height (t : tree) : nat :=
  match t with Tip _ _ => 0 | Fork _ _ a c => S (max (height a) (height c)) end.

(** The tip that a row falls to. *)
Fixpoint falls_to (t : tree) (row : Z → res A) : res (list Z * A) :=
  match t with
  | Tip g v => Ret (g, v)
  | Fork r _ a c => b ← isLess r row; if (b : bool) then falls_to a row else falls_to c row
  end.

Lemma flatten_nonempty t : 0 < length (flatten_tree t).
Proof. destruct t; cbn; lia. Qed.

(** The jumps follow the tree, wherever its rules stand in the list, and the loop ends
    within as many steps as there are rules. *)
Lemma prediction_loop_falls (row : Z → res A) depth t : depth ≠ 0%Z → ∀ fuel pre post,
  length (flatten_tree t) ≤ fuel →
  prediction_loop fuel (pre ++ flatten_tree t ++ post) row depth 0 (Z.of_nat (length pre)) =
    Some (snd <$> falls_to t row).
Proof.
  intros Hd. induction t as [g v|r v a IHa c IHc]; intros fuel pre post Hf.
  - destruct fuel as [|fuel]; [cbn in Hf; lia|]. cbn [prediction_loop flatten_tree app].
    by rewrite py_index_middle.
  - destruct fuel as [|fuel]; [cbn in Hf; lia|]. cbn [prediction_loop flatten_tree]. rewrite <- !app_assoc.
    cbn [app]. rewrite py_index_middle, (proj2 (Z.eqb_neq 0 depth)) by done. cbn [falls_to].
    cbn [flatten_tree app length] in Hf. rewrite length_app in Hf.
    destruct (isLess r row) as [[|]|e]; cbn [mbind res_bind]; [| |done].
    + replace (Z.of_nat (length pre) + 1)%Z
        with (Z.of_nat (length (pre ++ [SplitRule r 1 (1 + Z.of_nat (length (flatten_tree a))) v])))
        by (rewrite length_app; cbn; lia).
      rewrite <- (IHa fuel (pre ++ [SplitRule r 1 (1 + Z.of_nat (length (flatten_tree a))) v]) (flatten_tree c ++ post)) by lia.
      by rewrite <- app_assoc.
    + set (first := SplitRule r 1 (1 + Z.of_nat (length (flatten_tree a))) v).
      replace (Z.of_nat (length pre) + (1 + Z.of_nat (length (flatten_tree a))))%Z
        with (Z.of_nat (length (pre ++ first :: flatten_tree a))) by (rewrite length_app; cbn; lia).
      rewrite <- (IHc fuel (pre ++ first :: flatten_tree a) post) by lia.
      by rewrite <- app_assoc.
Qed.

Lemma prediction_falls t dims row depth fuel :
  depth ≠ Some 0%Z → length (flatten_tree t) ≤ fuel →
  predictionFunction fuel {| rules := flatten_tree t; numDimensions := dims |} row depth = Some (snd <$> falls_to t row).
Proof.
  intros Hd Hf. unfold predictionFunction. cbn [rules].
  assert (Hd' : default 1000000%Z depth ≠ 0%Z) by (destruct depth as [[]|]; cbn; congruence || lia).
  pose proof (prediction_loop_falls row _ t Hd' fuel [] [] Hf) as Hp. cbn [app] in Hp. by rewrite app_nil_r in Hp.
Qed.

(** ** Splitting rows *)

(** The values of a row, as a prediction reads them. *)
Definition row_values (df : DataFrame A) (ix : Z) : Z → res A := λ d, row_getitem (make_row df ix) (KInt d).

Lemma column_ok df d : column df d = py_index (columns df) d.
Proof.
  unfold column, iloc, getitem_tuple, all_rows. destruct (py_index (columns df) d) as [col|] eqn:Hc; cbn [mbind res_bind].
  - cbn [series_getitem]. by rewrite slice_all.
  - done.
Qed.

Lemma row_values_ok df d ix col x :
  (0 ≤ d)%Z → column df d = Ret col → py_index col ix = Ret x → row_values df ix d = Ret x.
Proof.
  intros Hd Hc Hx. rewrite column_ok in Hc. unfold row_values, row_getitem, get_int_ix, make_row, row_size, row_stride,
    startColumnIx, row_df, rowIx. rewrite (proj2 (Z.leb_le 0 d)) by done.
  assert (Hlt : (d < Z.of_nat (length (columns df)))%Z).
  { rewrite py_index_nonneg in Hc by done. destruct (columns df !! Z.to_nat d) eqn:Hl; [|done].
    apply lookup_lt_Some in Hl. lia. }
  unfold numColumns. rewrite (proj2 (Z.ltb_lt _ _)) by done. cbn [py_assert mbind res_bind].
  replace (0 + d * 1)%Z with d by lia. rewrite iloc_cell, Hc. cbn [mbind res_bind]. by rewrite Hx.
Qed.

Lemma select_ok (f : A → bool) xColumn ixs l :
  select f xColumn ixs = Ret l →
  (∀ ix, ix ∈ l ↔ ix ∈ ixs ∧ ∃ x, py_index xColumn ix = Ret x ∧ f x = true) ∧
  length l ≤ length ixs ∧ (∀ ix, ix ∈ ixs → ∃ x, py_index xColumn ix = Ret x).
Proof.
  revert l. induction ixs as [|ix ixs IH]; intros l; cbn [select].
  { intros [= <-]. split; [|split; [done|]].
    - intros ix. split; [by intros ?%elem_of_nil|]. by intros [?%elem_of_nil _].
    - by intros ix ?%elem_of_nil. }
  destruct (py_index xColumn ix) as [x|] eqn:Hx; cbn [mbind res_bind]; [|done].
  destruct (select f xColumn ixs) as [l'|]; cbn [mbind res_bind]; [|done]. intros [= <-].
  destruct (IH l' eq_refl) as (IH1 & IH2 & IH3). split; [|split].
  - intros i. destruct (f x) eqn:Hf; [rewrite elem_of_cons|]; rewrite IH1, elem_of_cons.
    + split; [intros [->|[? ?]]; eauto|]. intros [[->|?] ?]; auto.
    + split; [intros [? ?]; eauto|]. intros [[->|?] (y & Hy & Hfy)]; [|eauto]. congruence.
  - destruct (f x); cbn; lia.
  - intros i [->|Hi]%elem_of_cons; eauto.
Qed.

Lemma select_both (f g : A → bool) xColumn ixs l m :
  (∀ x, g x = negb (f x)) → select f xColumn ixs = Ret l → select g xColumn ixs = Ret m →
  l ++ m ≡ₚ ixs.
Proof.
  intros Hfg. revert l m. induction ixs as [|ix ixs IH]; intros l m; cbn [select]; [by intros [= <-] [= <-]|].
  destruct (py_index xColumn ix) as [x|]; cbn [mbind res_bind]; [|done].
  destruct (select f xColumn ixs) as [l'|]; cbn [mbind res_bind]; [|done].
  destruct (select g xColumn ixs) as [m'|]; cbn [mbind res_bind]; [|done].
  intros [= <-] [= <-]. specialize (IH l' m' eq_refl eq_refl). rewrite Hfg. destruct (f x); cbn.
  - by rewrite IH.
  - by rewrite <- Permutation_middle, IH.
Qed.

Lemma select_disjoint (f g : A → bool) xColumn ixs l m :
  (∀ x, f x = true → g x = false) → select f xColumn ixs = Ret l → select g xColumn ixs = Ret m →
  l ++ m ⊆+ ixs.
Proof.
  intros Hfg. revert l m. induction ixs as [|ix ixs IH]; intros l m; cbn [select]; [by intros [= <-] [= <-]|].
  destruct (py_index xColumn ix) as [x|]; cbn [mbind res_bind]; [|done].
  destruct (select f xColumn ixs) as [l'|]; cbn [mbind res_bind]; [|done].
  destruct (select g xColumn ixs) as [m'|]; cbn [mbind res_bind]; [|done].
  intros [= <-] [= <-]. specialize (IH l' m' eq_refl eq_refl). pose proof (Hfg x) as Hx.
  destruct (f x); [rewrite Hx by done; cbn; by apply submseteq_skip|].
  destruct (g x); [|by apply submseteq_cons]. rewrite <- Permutation_middle. by apply submseteq_skip.
Qed.

(** ** Fitting *)

(** Nothing is both less and not less: also true of floats, whose NaNs are neither. *)
Definition exclusive : Prop := ∀ x y : A, lt x y = true → ge x y = false.
Definition total : Prop := ∀ x y : A, ge x y = negb (lt x y).

Section fitting.
Context (b : RegressionTreeBuilder) (df : DataFrame A) (yDim : Z) (xDimensions : list Z)
  (leafValueFun : DataFrame A → list Z → res A) (Hexcl : exclusive) (Hdims : Forall (λ d, 0 ≤ d)%Z xDimensions).

(** The trees that can be grown of the active rows. *)
Inductive grown : list Z → tree → Prop :=
| grown_tip active v : leafValueFun df active = Ret v → grown active (Tip active v)
| grown_fork active r v l m a c :
    dimension r ∈ xDimensions → splitDataframe r df active = Ret (l, m) → l ≠ [] → m ≠ [] →
    split_value l m (flatten_tree a) (flatten_tree c) = Ret v →
    grown l a → grown m c → grown active (Fork r v a c).

(** What raises an exception while some rows are fitted: the search for the best rule,
    the leaf value, a missing column or row, or the division by the number of rows. *)
Definition fails (l : list Z) (e : exn) : Prop :=
  bestRule b df yDim xDimensions l = Raise e ∨
  leafValueFun df l = Raise e ∨
  (∃ r, bestRule b df yDim xDimensions l = Ret r ∧ splitDataframe r df l = Raise e) ∨
  (∃ x n, (0 < n)%Z ∧ div x (of_int n) = Raise e).

Lemma split_smaller r active l m :
  splitDataframe r df active = Ret (l, m) → l ++ m ⊆+ active.
Proof.
  unfold splitDataframe. destruct (column df (dimension r)) as [xs|]; cbn [mbind res_bind]; [|done].
  destruct (select (λ x, lt x (splitPoint r)) xs active) as [l'|] eqn:Hl; cbn [mbind res_bind]; [|done].
  destruct (select (λ x, ge x (splitPoint r)) xs active) as [m'|] eqn:Hm; cbn [mbind res_bind]; [|done].
  intros [= <- <-]. eapply select_disjoint; [|exact Hl|exact Hm]. intros x. apply Hexcl.
Qed.

Lemma bestRule_dimension active r : bestRule b df yDim xDimensions active = Ret r → dimension r ∈ xDimensions.
Proof.
  unfold bestRule. destruct (mapR _ xDimensions) as [rs|] eqn:Hrs; cbn [mbind res_bind]; [|done].
  destruct (argmax _) as [ix|]; cbn [mbind res_bind]; [|done].
  destruct (rs !! ix) as [r'|] eqn:Hr; cbn [of_option]; [|done]. intros [= <-]. apply mapR_Ret in Hrs.
  destruct (Forall2_lookup_r _ _ _ _ _ Hrs Hr) as (d & Hd & Hbest).
  assert (dimension r' = d) as ->; [|by apply list_elem_of_lookup_2 in Hd].
  unfold bestRuleForXDimension in Hbest.
  repeat match type of Hbest with
  | mbind _ ?m = Ret _ => destruct m as [?|]; cbn [mbind res_bind] in Hbest; [|done]
  end.
  by destruct_and?; repeat case_match; simplify_eq.
Qed.

Lemma fit_grows fuel : ∀ maxDepth active,
  length active < fuel →
  match fit_rules fuel b df yDim maxDepth xDimensions leafValueFun active with
  | Ret rs => ∃ t, rs = flatten_tree t ∧ grown active t ∧ (0 ≤ maxDepth → Z.of_nat (height t) ≤ maxDepth)%Z
  | Raise e => ∃ l, l ⊆+ active ∧ (active ≠ [] → l ≠ []) ∧ fails l e
  end.
Proof.
  induction fuel as [|fuel IH]; intros maxDepth active Hf; [lia|]. cbn [fit_rules].
  assert (Htip : match (v ← leafValueFun df active; Ret [RegressionLeafRule v]) with
    | Ret rs => ∃ t, rs = flatten_tree t ∧ grown active t ∧ (0 ≤ maxDepth → Z.of_nat (height t) ≤ maxDepth)%Z
    | Raise e => ∃ l, l ⊆+ active ∧ (active ≠ [] → l ≠ []) ∧ fails l e
    end).
  { destruct (leafValueFun df active) as [v|e] eqn:Hv; cbn [mbind res_bind].
    - exists (Tip active v). split; [done|]. split; [by constructor|done].
    - exists active. split; [done|]. split; [done|]. right. by left. }
  destruct (_ || (maxDepth =? 0)%Z) eqn:Hstop; [exact Htip|].
  apply orb_false_iff in Hstop as [_ Hdepth%Z.eqb_neq].
  destruct (bestRule b df yDim xDimensions active) as [r|e] eqn:Hr; cbn [mbind res_bind];
    [|exists active; split; [done|]; split; [done|by left]].
  destruct (splitDataframe r df active) as [[l m]|e] eqn:Hs; cbn [mbind res_bind];
    [|exists active; split; [done|]; split; [done|right; right; left; by exists r]].
  destruct ((length l =? 0) || (length m =? 0)) eqn:Hlm; [exact Htip|].
  apply orb_false_iff in Hlm as [Hl%Nat.eqb_neq Hm%Nat.eqb_neq].
  pose proof (split_smaller r active l m Hs) as Hsub. pose proof (submseteq_length _ _ Hsub) as Hlen.
  rewrite length_app in Hlen.
  pose proof (IH (maxDepth - 1)%Z l ltac:(lia)) as IHl. pose proof (IH (maxDepth - 1)%Z m ltac:(lia)) as IHm.
  destruct (fit_rules fuel b df yDim (maxDepth - 1) xDimensions leafValueFun l) as [rl|e]; cbn [mbind res_bind];
    [|destruct IHl as (l' & Hl' & Hne & He); exists l'; split; [etrans; [exact Hl'|]; etrans; [|exact Hsub]; by apply submseteq_inserts_r|];
      split; [intros _; apply Hne; by intros ->|done]].
  destruct (fit_rules fuel b df yDim (maxDepth - 1) xDimensions leafValueFun m) as [rm|e]; cbn [mbind res_bind];
    [|destruct IHm as (l' & Hl' & Hne & He); exists l'; split; [etrans; [exact Hl'|]; etrans; [|exact Hsub]; by apply submseteq_inserts_l|];
      split; [intros _; apply Hne; by intros ->|done]].
  destruct IHl as (a & -> & Ha & Hha). destruct IHm as (c & -> & Hc & Hhc).
  destruct (split_value l m (flatten_tree a) (flatten_tree c)) as [v|e] eqn:Hv; cbn [mbind res_bind].
  - exists (Fork r v a c). split; [done|]. split; [|cbn [height]; lia].
    apply (grown_fork active r v l m); try done; [by eapply bestRule_dimension|by intros ->..].
  - exists active. split; [done|]. split; [done|]. right. right. right. unfold split_value in Hv.
    assert (Hhead : ∀ t : tree, ∃ x, py_index (flatten_tree t) 0 = Ret x) by (intros []; by eexists).
    destruct (Hhead a) as [x Hx], (Hhead c) as [y Hy]. rewrite Hx, Hy in Hv. cbn [mbind res_bind] in Hv.
    eexists _, _. split; [|exact Hv]. lia.
Qed.

Lemma grown_within active t : grown active t → ∀ g v, (g, v) ∈ tips t → ∀ i, i ∈ g → i ∈ active.
Proof.
  induction 1 as [active v Hv|active r v l m a c _ Hs _ _ _ _ IHa _ IHc]; intros g w Hg i Hi; cbn in Hg.
  - apply list_elem_of_singleton in Hg. by injection Hg as -> ->.
  - apply split_smaller in Hs. eapply elem_of_submseteq; [|exact Hs]. apply elem_of_app.
    apply elem_of_app in Hg as [Hg|Hg]; [left; by eapply IHa|right; by eapply IHc].
Qed.

Lemma split_sides r active l m i :
  (0 ≤ dimension r)%Z → splitDataframe r df active = Ret (l, m) →
  (i ∈ l → isLess r (row_values df i) = Ret true) ∧ (i ∈ m → isLess r (row_values df i) = Ret false).
Proof.
  unfold splitDataframe, isLess. intros Hd. destruct (column df (dimension r)) as [xs|] eqn:Hxs; cbn [mbind res_bind]; [|done].
  destruct (select (λ x, lt x (splitPoint r)) xs active) as [l'|] eqn:Hl; cbn [mbind res_bind]; [|done].
  destruct (select (λ x, ge x (splitPoint r)) xs active) as [m'|] eqn:Hm; cbn [mbind res_bind]; [|done].
  intros [= <- <-]. apply select_ok in Hl as (Hl & _), Hm as (Hm & _). split.
  - intros [_ (x & Hx & Hf)]%Hl. rewrite (row_values_ok df _ i xs x) by done. cbn. by rewrite Hf.
  - intros [_ (x & Hx & Hf)]%Hm. rewrite (row_values_ok df _ i xs x) by done. cbn.
    destruct (lt x (splitPoint r)) eqn:Hlt; [|done]. apply Hexcl in Hlt. congruence.
Qed.

(** A row that was fitted falls to its own group, whose value is that of its tip. *)
Lemma grown_falls active t : grown active t → ∀ g v, (g, v) ∈ tips t →
  leafValueFun df g = Ret v ∧ ∀ i, i ∈ g → falls_to t (row_values df i) = Ret (g, v).
Proof.
  induction 1 as [active v Hv|active r v l m a c Hd Hs _ _ _ Ha IHa Hc IHc]; intros g w Hg; cbn in Hg.
  - apply list_elem_of_singleton in Hg. by injection Hg as -> ->.
  - apply elem_of_app in Hg as [Hg|Hg]; [destruct (IHa g w Hg) as [Hv Hi]|destruct (IHc g w Hg) as [Hv Hi]];
      (split; [done|]); intros i Hig; cbn [falls_to];
    destruct (split_sides r active l m i (proj1 (Forall_forall _ _) Hdims _ Hd) Hs) as [Hless Hmore].
    + rewrite Hless by by eapply grown_within. cbn. by apply Hi.
    + rewrite Hmore by by eapply grown_within. cbn. by apply Hi.
Qed.

Lemma grown_partitions active t : total → grown active t → concat (tips t).*1 ≡ₚ active.
Proof.
  intros Ht. induction 1 as [active v Hv|active r v l m a c _ Hs _ _ _ _ IHa _ IHc]; cbn [tips].
  - cbn. by rewrite app_nil_r.
  - rewrite fmap_app, concat_app, IHa, IHc. unfold splitDataframe in Hs.
    destruct (column df (dimension r)) as [xs|]; cbn [mbind res_bind] in Hs; [|done].
    destruct (select (λ x, lt x (splitPoint r)) xs active) as [l'|] eqn:Hl; cbn [mbind res_bind] in Hs; [|done].
    destruct (select (λ x, ge x (splitPoint r)) xs active) as [m'|] eqn:Hm; cbn [mbind res_bind] in Hs; [|done].
    injection Hs as <- <-. eapply select_both; [|exact Hl|exact Hm]. intros x. apply Ht.
Qed.

Lemma tips_bound t : length (tips t) ≤ 2 ^ height t.
Proof.
  induction t as [g v|r v a IHa c IHc]; cbn [tips height]; [cbn; lia|]. rewrite length_app.
  rewrite Nat.pow_succ_r'. pose proof (Nat.pow_le_mono_r 2 (height a) (max (height a) (height c)) ltac:(lia) ltac:(lia)).
  pose proof (Nat.pow_le_mono_r 2 (height c) (max (height a) (height c)) ltac:(lia) ltac:(lia)). lia.
Qed.

(** C15. Fitting ends, with at most one call nested per row. It raises only what the search
    for a rule, the leaf value, a missing cell or a division raises for some of the rows.
    Otherwise the tree divides the rows that were fitted into groups, at most
    [2 ^ maxDepth] of them: every row of a group is predicted the leaf value of its
    group, and if no value is a NaN, each row is in one group. The prediction of any
    row ends within as many steps as the tree has rules. *)
Theorem rows_get_their_groups_value fuel maxDepth active :
  length active < fuel →
  match fit_ fuel b df yDim (Some maxDepth) (Some xDimensions) (Some leafValueFun) (Some active) with
  | Ret t =>
      ∃ groups : list (list Z),
        (total → concat groups ≡ₚ active) ∧
        ((0 ≤ maxDepth)%Z → length groups ≤ 2 ^ Z.to_nat maxDepth) ∧
        (∀ g, g ∈ groups → ∃ v, leafValueFun df g = Ret v ∧ ∀ i, i ∈ g → i ∈ active ∧
           predictionFunction (length (rules t)) t (row_values df i) None = Some (Ret v)) ∧
        (∀ row depth, ∃ v, predictionFunction (length (rules t)) t row depth = Some v)
  | Raise e => ∃ l, (∀ i, i ∈ l → i ∈ active) ∧ fails l e
  end.
Proof.
  intros Hf. pose proof (fit_grows fuel maxDepth active Hf) as Hfit. unfold fit_. cbn [from_option id].
  destruct (fit_rules fuel b df yDim maxDepth xDimensions leafValueFun active) as [rs|e]; cbn [mbind res_bind];
    [|destruct Hfit as (l & Hl & _ & He); exists l; split; [|done]; intros i Hi; by eapply elem_of_submseteq].
  destruct Hfit as (t & -> & Hg & Hh). exists (tips t).*1. split; [intros Ht; by apply grown_partitions|]. split; [|split].
  - intros Hd. rewrite length_fmap. etrans; [apply tips_bound|]. apply Nat.pow_le_mono_r; lia.
  - intros g ([g' v] & -> & Hin)%list_elem_of_fmap. destruct (grown_falls active t Hg g' v Hin) as [Hv Hfalls].
    exists v. split; [done|]. intros i Hi. split; [by eapply grown_within|]. cbn [rules].
    rewrite prediction_falls by (done || lia). by rewrite Hfalls.
  - intros row depth. cbn [rules]. destruct (decide (depth = Some 0%Z)) as [->|Hd].
    + unfold predictionFunction. cbn [rules from_option id]. destruct t; cbn; eauto.
    + exists (snd <$> falls_to t row). by apply prediction_falls.
Qed.
End fitting.

(** The depth of a prediction is compared with a count that stays 0: any depth but 0 means
    the whole tree. *)
Lemma depth_is_ignored fuel t row d :
  d ≠ 0%Z → predictionFunction fuel t row (Some d) = predictionFunction fuel t row None.
Proof.
  intros Hd. unfold predictionFunction. cbn [from_option id]. generalize 0%Z at 2 4 as ix.
  induction fuel as [|fuel IH]; intros ix; [done|]. cbn [prediction_loop].
  destruct (py_index (rules t) ix) as [[r a c v|v]|e]; [|done..].
  rewrite (proj2 (Z.eqb_neq 0 d)) by done. change (0 =? 1000000)%Z with false. cbn iota.
  destruct (isLess r row) as [[|]|e]; [apply IH..|done].
Qed.

(** ** Histograms of chunks *)

(** What floating point numbers have only nearly. *)
Record exact : Prop := {
  ex_assoc x y z : add x (add y z) = add (add x y) z;
  ex_zero x : add x float0 = x;
  ex_eqv x : eqv x x = true }.

Section chunks.
Context (Hexact : exact) (b : RegressionTreeBuilder) (xCol yCol : OnDemandSelectedVector) (a c : A) (n : Z).

Lemma summary_assoc s t u : summary_add s (summary_add t u) = summary_add (summary_add s t) u.
Proof. unfold summary_add. cbn. by rewrite !(ex_assoc Hexact). Qed.
Lemma summary_zero s : summary_add s no_samples = s.
Proof. unfold summary_add, no_samples. destruct s. cbn. by rewrite !(ex_zero Hexact). Qed.

(** A histogram of the bounds and the count with given samples. *)
Definition with_samples (l : list SampleSummary) : SampleSummaryHistogram :=
  {| x0 := a; x1 := c; count := n; samples := l |}.

Lemma augment_zip s s0 ix v :
  length s = length s0 →
  augmentItem (zip_with summary_add s s0) ix v = zip_with summary_add s <$> augmentItem s0 ix v.
Proof.
  intros Hlen. unfold augmentItem. destruct (ix <? 0)%Z; [done|]. rewrite lookup_zip_with.
  destruct (s0 !! Z.to_nat ix) as [t|] eqn:Ht.
  - destruct (lookup_lt_is_Some_2 s (Z.to_nat ix)) as [u Hu]; [apply lookup_lt_Some in Ht; lia|]. rewrite Hu. cbn.
    f_equal. rewrite <- summary_assoc. apply list_eq. intros k. rewrite lookup_zip_with, !list_lookup_insert, lookup_zip_with.
    rewrite length_zip_with, Hlen, Nat.min_id. destruct (decide (Z.to_nat ix = k ∧ Z.to_nat ix < length s0)) as [[<- Hk]|Hk].
    + by rewrite Hu.
    + done.
  - destruct (s !! Z.to_nat ix); done.
Qed.

Lemma augment_length s ix v l : augmentItem s ix v = Ret l → length l = length s.
Proof.
  unfold augmentItem. destruct (ix <? 0)%Z; [done|]. destruct (s !! _); cbn; [|done].
  intros [= <-]. by rewrite length_insert.
Qed.

Lemma observe_zip ixs : ∀ s s0,
  length s = length s0 →
  observe_all (with_samples (zip_with summary_add s s0)) xCol yCol ixs =
    (h ← observe_all (with_samples s0) xCol yCol ixs; Ret (with_samples (zip_with summary_add s (samples h)))).
Proof.
  induction ixs as [|ix ixs IH]; intros s s0 Hlen; [done|]. cbn [observe_all].
  destruct (selected xCol ix) as [x|]; cbn [mbind res_bind]; [|done].
  destruct (selected yCol ix) as [y|]; cbn [mbind res_bind]; [|done].
  unfold observe. change (bucket_of (with_samples (zip_with summary_add s s0)) x) with (bucket_of (with_samples s0) x).
  destruct (bucket_of (with_samples s0) x) as [bucket|]; cbn [mbind res_bind]; [|done].
  cbn [samples with_samples]. rewrite augment_zip by done.
  destruct (augmentItem s0 (fora_index bucket) (one_sample y)) as [l|] eqn:Hl; cbn [mbind res_bind fmap res_fmap]; [|done].
  apply augment_length in Hl. cbn [x0 x1 count with_samples]. change ({| x0 := a; x1 := c; count := n; samples := ?l |}) with (with_samples l).
  apply IH. lia.
Qed.

Lemma observe_keeps ixs : ∀ s h,
  observe_all (with_samples s) xCol yCol ixs = Ret h → ∃ l, h = with_samples l ∧ length l = length s.
Proof.
  induction ixs as [|ix ixs IH]; intros s h; cbn [observe_all]; [intros [= <-]; by exists s|].
  destruct (selected xCol ix) as [x|]; cbn [mbind res_bind]; [|done].
  destruct (selected yCol ix) as [y|]; cbn [mbind res_bind]; [|done].
  unfold observe. destruct (bucket_of (with_samples s) x) as [bucket|]; cbn [mbind res_bind]; [|done].
  destruct (augmentItem _ _ _) as [l|] eqn:Hl; cbn [mbind res_bind]; [|done]. apply augment_length in Hl.
  intros Hh. destruct (IH l h Hh) as (l' & -> & Hl'). exists l'. split; [done|]. cbn in Hl. lia.
Qed.

Lemma observe_all_app ixs1 ixs2 : ∀ h,
  observe_all h xCol yCol (ixs1 ++ ixs2) = (h' ← observe_all h xCol yCol ixs1; observe_all h' xCol yCol ixs2).
Proof.
  induction ixs1 as [|ix ixs1 IH]; intros h; [done|]. cbn [app observe_all].
  destruct (selected xCol ix) as [x|]; cbn [mbind res_bind]; [|done].
  destruct (selected yCol ix) as [y|]; cbn [mbind res_bind]; [|done].
  destruct (observe h x (one_sample y)) as [h'|]; cbn [mbind res_bind]; [|done]. apply IH.
Qed.

Lemma mapR_positions {Y} (f : nat → res Y) (l : list Y) m :
  length l = m → (∀ k, k < m → f k = of_option IndexError (l !! k)) → mapR f (seq 0 m) = Ret l.
Proof.
  intros <- Hf. apply mapR_Forall2, Forall2_same_length_lookup. split; [apply length_seq|].
  intros k z y Hz Hy. apply lookup_seq in Hz as [-> Hk]. cbn. by rewrite Hf, Hy.
Qed.

Lemma zip_zeros s : zip_with summary_add s (replicate (length s) no_samples) = s.
Proof. induction s as [|x s IH]; [done|]. cbn. by rewrite summary_zero, IH. Qed.

Lemma add_frozen s t :
  length s = length t →
  histogram_add (freeze (with_samples s)) (freeze (with_samples t)) = Ret (freeze (with_samples (zip_with summary_add s t))).
Proof.
  intros Hlen. unfold histogram_add, freeze, histogram. cbn [x0 x1 samples with_samples].
  rewrite !(ex_eqv Hexact). cbn [andb py_assert mbind res_bind].
  assert (Hm : ∀ k, k < length s → (λ ix, u ← of_option IndexError (s !! ix); w ← of_option IndexError (t !! ix); Ret (summary_add u w)) k
    = of_option IndexError (zip_with summary_add s t !! k)).
  { intros k Hk. rewrite lookup_zip_with. destruct (lookup_lt_is_Some_2 s k Hk) as [u ->].
    destruct (lookup_lt_is_Some_2 t k) as [w ->]; [lia|]. done. }
  rewrite (mapR_positions _ (zip_with summary_add s t)); [done|by rewrite length_zip_with, Hlen, Nat.min_id|exact Hm].
Qed.

(** The histogram of a range of the rows. *)
Lemma chunk_of_range (Ht : (2 ≤ minSplitThresh b)%Z) : ∀ fuel low high, (0 ≤ low ≤ high)%Z → (high - low < Z.of_nat fuel)%Z →
  computeBucketedSampleSummaries fuel b xCol yCol a c n low (Some high) =
    (hist ← observe_all (empty_histogram a c n) xCol yCol (xrange2 low high); Ret (freeze hist)).
Proof.
  induction fuel as [|fuel IH]; intros low high Hl Hf; [lia|]. cbn [computeBucketedSampleSummaries from_option id].
  destruct (Z.ltb_spec (high - low) (minSplitThresh b)) as [Hlt|Hge]; [done|].
  set (mid := ((low + high) / 2)%Z). assert (low < mid < high)%Z by (subst mid; Z.to_euclidean_division_equations; lia).
  rewrite !IH, (xrange2_split low mid high), observe_all_app by lia.
  change (empty_histogram a c n) with (with_samples (replicate (Z.to_nat n) no_samples)).
  destruct (observe_all _ xCol yCol (xrange2 low mid)) as [h1|] eqn:Hh1; cbn [mbind res_bind]; [|done].
  destruct (observe_keeps _ _ _ Hh1) as (l1 & -> & Hl1). rewrite length_replicate in Hl1.
  assert (Hz : with_samples l1 = with_samples (zip_with summary_add l1 (replicate (Z.to_nat n) no_samples)))
    by (rewrite <- Hl1, zip_zeros; done).
  pose proof (observe_zip (xrange2 mid high) l1 (replicate (Z.to_nat n) no_samples)) as Hob.
  rewrite <- Hz in Hob. rewrite Hob by (rewrite length_replicate; done).
  destruct (observe_all (with_samples (replicate (Z.to_nat n) no_samples)) xCol yCol (xrange2 mid high)) as [h2|] eqn:Hh2;
    cbn [mbind res_bind]; [|done].
  destruct (observe_keeps _ _ _ Hh2) as (l2 & -> & Hl2). rewrite length_replicate in Hl2.
  rewrite add_frozen by lia. done.
Qed.

Lemma chunk_of_all fuel :
  0 < fuel →
  computeBucketedSampleSummaries fuel b xCol yCol a c n 0 None =
  computeBucketedSampleSummaries fuel b xCol yCol a c n 0 (Some (selected_len xCol)).
Proof. destruct fuel; [lia|done]. Qed.

(** In exact arithmetic the histogram of a column is that of all its rows observed one
    after the other, whatever the threshold above which the range is halved, if it is at
    least 2; what is raised is the same, too; the recursion nests at most one call per
    row. *)
Theorem chunks_add_up fuel :
  (2 ≤ minSplitThresh b)%Z → (selected_len xCol < Z.of_nat fuel)%Z →
  computeBucketedSampleSummaries fuel b xCol yCol a c n 0 None =
    (hist ← observe_all (empty_histogram a c n) xCol yCol (xrange (selected_len xCol)); Ret (freeze hist)).
Proof.
  intros Ht Hf. destruct fuel as [|fuel]; [unfold selected_len in Hf; lia|].
  rewrite chunk_of_all, chunk_of_range by (unfold selected_len in *; lia). unfold xrange2, xrange. by rewrite Z.sub_0_r.
Qed.
End chunks.

(** ** The best split *)

(** The first of the greatest values, against a value to begin with. *)
Fixpoint pick (vs : list A) (cur bestIx : nat) (best : A) : nat * A :=
  match vs with
  | [] => (bestIx, best)
  | v :: vs => if gt v best then pick vs (S cur) cur v else pick vs (S cur) bestIx best
  end.

Lemma argmax_picks vec : ∀ ix curMax curMaxIx, argmax_loop vec ix curMax curMaxIx = (pick vec ix curMaxIx curMax).1.
Proof.
  induction vec as [|v vec IH]; intros ix m mi; [done|]. cbn [argmax_loop pick]. by destruct (gt v m).
Qed.

(** The value [best] is at [ix], and those before it are less and none is greater. *)
Definition first_greatest (vs : list A) (ix : nat) (best : A) : Prop :=
  vs !! ix = Some best ∧ ∀ j v, vs !! j = Some v → gt v best = false ∧ (j < ix → gt best v = true).

Section best.
Context (Hlt : weak_order lt).

Lemma pick_first vs : ∀ seen ix best,
  first_greatest seen ix best →
  first_greatest (seen ++ vs) (pick vs (length seen) ix best).1 (pick vs (length seen) ix best).2.
Proof.
  induction vs as [|v vs IH]; intros seen ix best [Hix Hall]; [by rewrite app_nil_r|]. cbn [pick].
  rewrite (cons_middle v seen vs), app_assoc. replace (S (length seen)) with (length (seen ++ [v])) by (rewrite length_app; cbn; lia).
  assert (Hlast : ∀ j w, (seen ++ [v]) !! j = Some w → seen !! j = Some w ∨ j = length seen ∧ w = v).
  { intros j w [Hj|[Hj Hw]]%lookup_app_Some; [by left|]. right. apply list_lookup_singleton_Some in Hw as [? <-]. split; [lia|done]. }
  destruct (gt v best) eqn:Hv; apply IH; split.
  - by rewrite list_lookup_middle.
  - intros j w [Hj|[-> ->]]%Hlast; [|split; [by apply (wo_irrefl _ Hlt)|lia]].
    destruct (Hall j w Hj) as [Hw Hb]. unfold gt in *. split.
    + destruct (lt v w) eqn:Hvw; [|done]. by rewrite (wo_trans _ Hlt best v w Hv Hvw) in Hw.
    + intros _. destruct (lt w v) eqn:Hwv; [done|]. by rewrite (wo_incomp _ Hlt best w v Hw Hwv) in Hv.
  - by apply lookup_app_l_Some.
  - intros j w [Hj|[-> ->]]%Hlast; [by apply Hall|]. split; [done|]. intros Hlen. apply lookup_lt_Some in Hix. lia.
Qed.

(** The improvement of splitting after the first [k] samples of [rest]. *)
Definition improvement_at (first : SampleSummary) (rest : list SampleSummary) (k : nat) : res A :=
  impurityImprovement_of
    (foldl summary_sub (summary_sub (foldl summary_add no_samples (first :: rest)) first) (take k rest))
    (foldl summary_add first (take k rest)).

Lemma split_loop_picks rest : ∀ cur above below bi best out,
  best_split_loop rest (Z.of_nat cur) above below (Z.of_nat bi) best = Ret out →
  ∃ vs, length vs = pred (length rest) ∧
    (∀ k v, vs !! k = Some v → impurityImprovement_of (foldl summary_sub above (take (S k) rest))
                                 (foldl summary_add below (take (S k) rest)) = Ret v) ∧
    out = (Z.of_nat (pick vs cur bi best).1, (pick vs cur bi best).2).
Proof.
  induction rest as [|s rest IH]; intros cur above below bi best out; cbn [best_split_loop].
  { intros [= <-]. by exists []. }
  destruct rest as [|s' rest]; [intros [= <-]; by exists []|]. set (rest' := s' :: rest) in *.
  destruct (impurityImprovement_of (summary_sub above s) (summary_add below s)) as [i|] eqn:Hi; cbn [mbind res_bind]; [|done].
  replace (Z.of_nat cur + 1)%Z with (Z.of_nat (S cur)) by lia. intros Hrun.
  assert (Hnext : ∃ vs, length vs = pred (length rest') ∧
    (∀ k v, vs !! k = Some v → impurityImprovement_of (foldl summary_sub (summary_sub above s) (take (S k) rest'))
                                 (foldl summary_add (summary_add below s) (take (S k) rest')) = Ret v) ∧
    out = (Z.of_nat (pick (i :: vs) cur bi best).1, (pick (i :: vs) cur bi best).2)).
  { cbn [pick]. destruct (gt i best); by apply IH. }
  destruct Hnext as (vs & Hlen & Hvs & ->). exists (i :: vs). split; [unfold rest' in *; cbn in *; lia|]. split; [|done].
  intros [|k] v; cbn [lookup list_lookup]; [intros [= <-]; exact Hi|]. intros Hk. by apply Hvs.
Qed.

(** C18. The best split is the best: the split point of a histogram is that of the first of
    the greatest improvements over all ways to split its samples in two, and the rule for
    some rows that of the first dimension whose improvement no other exceeds. *)
Theorem best_splits_are_best :
  (∀ h first rest point best,
     samples h = first :: rest →
     bestSplitPointAndImpurityImprovement h = Ret (point, best) →
     ∃ vs k, length vs = max 1 (length rest) ∧ first_greatest vs k best ∧
       (∀ j v, vs !! j = Some v → improvement_at first rest j = Ret v) ∧
       ∃ d, div (mul (of_int (Z.of_nat k + 1)) (sub (x1 h) (x0 h))) (of_int (count h)) = Ret d ∧ point = add (x0 h) d) ∧
  (∀ b df yDim xDimensions active r,
     bestRule b df yDim xDimensions active = Ret r →
     ∃ rs k, Forall2 (λ d r, bestRuleForXDimension b df yDim d active = Ret r) xDimensions rs ∧
       rs !! k = Some r ∧ first_greatest (impurityImprovement <$> rs) k (impurityImprovement r)).
Proof.
  split.
  - intros h first rest point best Hs. unfold bestSplitPointAndImpurityImprovement. rewrite Hs.
    destruct (impurityImprovement_of _ first) as [i|] eqn:Hi; cbn [mbind res_bind]; [|done].
    destruct (best_split_loop rest 1 _ first 0 i) as [[bi b]|] eqn:Hloop; cbn [mbind res_bind]; [|done].
    destruct (div _ _) as [d|] eqn:Hd; cbn [mbind res_bind]; [|done]. intros [= <- <-].
    apply (split_loop_picks rest 1 _ _ 0) in Hloop as (vs & Hlen & Hvs & [= -> ->]).
    assert (Hone : first_greatest [i] 0 i).
    { split; [done|]. intros [|j] v; cbn; [intros [= <-]|done]. split; [apply (wo_irrefl _ Hlt)|lia]. }
    apply (pick_first vs [i]) in Hone. cbn [length app] in Hone.
    exists (i :: vs), (pick vs 1 0 i).1. split; [cbn; lia|]. split; [exact Hone|]. split; [|by exists d].
    intros [|j] v; cbn [lookup list_lookup]; [intros [= <-]; exact Hi|apply Hvs].
  - intros b df yDim xDimensions active r. unfold bestRule.
    destruct (mapR _ xDimensions) as [rs|] eqn:Hrs; cbn [mbind res_bind]; [|done]. apply mapR_Ret in Hrs.
    destruct rs as [|r0 rs]; [done|]. unfold argmax. rewrite fmap_cons. cbn [mbind res_bind argmax_loop].
    unfold gt at 1. rewrite (wo_irrefl _ Hlt), argmax_picks.
    assert (Hone : first_greatest [impurityImprovement r0] 0 (impurityImprovement r0)).
    { split; [done|]. intros [|j] v; cbn; [intros [= <-]|done]. split; [apply (wo_irrefl _ Hlt)|lia]. }
    apply (pick_first (impurityImprovement <$> rs) [impurityImprovement r0]) in Hone. cbn [length app] in Hone.
    destruct Hone as [Hk Hone]. change (impurityImprovement r0 :: (impurityImprovement <$> rs))
      with (impurityImprovement <$> (r0 :: rs)) in Hk, Hone.
    rewrite list_lookup_fmap in Hk. destruct ((r0 :: rs) !! _) as [r'|] eqn:Hr; [|done]. cbn in Hk. injection Hk as Hk.
    cbn [of_option]. intros [= <-]. eexists _, _. split; [exact Hrs|]. split; [exact Hr|].
    split; [by rewrite list_lookup_fmap, Hr|]. rewrite Hk. exact Hone.
Qed.
End best.
End trees.

(** ** Samples: numbers are thousandths, and sums are of lists that can not be split *)
Module TreeSamples.

#[local] Instance thousandths : Number Z := {|
  of_int z := (1000 * z)%Z; float0 := 0%Z; float1 := 1000%Z; add := Z.add; mul a b := (a * b / 1000)%Z;
  sub := Z.sub; neg := Z.opp;
  div a b := if (b =? 0)%Z then Raise ZeroDivisionError else Ret (a * 1000 / b)%Z;
  pow a b := if (b =? 500)%Z then (if (a <? 0)%Z then Raise ValueError else Ret (Z.sqrt (a * 1000)))
             else Ret (a * a / 1000)%Z;
  lt := Z.ltb; eqv := Z.eqb |}.
#[local] Instance lists (B : Type) : Generator (list B) B := {|
  iter l := l; canSplit _ := false; split _ := None; isNestedGenerator _ := false; childGenerators _ := [] |}.

Notation fit_sample := (fit_ (A := Z) 1000000000%Z 0%Z 500%Z 3000%Z (λ z, z / 1000)%Z (λ B l, l) (λ B x, Ret x) 5 100).
Notation leaves := (defaultLeafValueFun (A := Z) 0%Z (λ B l, l) (λ B x, Ret x) 5).

Definition builder : RegressionTreeBuilder :=
  {| builder_maxDepth := 2; minSamplesSplit := 2; numBuckets := 20; minSplitThresh := 2 |}.
Definition data : DataFrame Z :=
  {| columnNames := ["x"; "__target"]%string; columns := [Z.mul 1000 <$> [1; 2; 3; 30; 31; 32]%Z; Z.mul 1000 <$> [5; 5; 5; 70; 70; 73]%Z] |}.
Definition fitted : res RegressionTree := fit_sample 7 builder data 1 (Some 1%Z) (Some [0%Z]) (Some (leaves 1%Z)) (Some (xrange 6)).

Example the_tree :
  match fitted with
  | Ret t => (λ ix, predictionFunction 3 t (row_values data ix) None) <$> xrange 6
  | Raise _ => []
  end = [Some (Ret 5000); Some (Ret 5000); Some (Ret 5000); Some (Ret 71000); Some (Ret 71000); Some (Ret 71000)]%Z.
Proof. vm_compute. reflexivity. Qed.

(** The depth that was asked for, 1, is not that of the prediction. *)
Definition deep : RegressionTree :=
  let r d := {| dimension := 0; splitPoint := d; impurityImprovement := 0; numSamples := 4 |}%Z in
  {| rules := [SplitRule (r 10) 1 2 100; RegressionLeafRule 1; SplitRule (r 20) 1 2 200; RegressionLeafRule 2;
               RegressionLeafRule 3]%Z; numDimensions := Some 1 |}.
Lemma depth_1_is_all :
  predictionFunction 5 deep (λ _, Ret 15%Z) (Some 1%Z) = Some (Ret 2%Z) ∧
  predictionFunction 5 deep (λ _, Ret 15%Z) (Some 0%Z) = Some (Ret 100%Z).
Proof. split; vm_compute; reflexivity. Qed.

Lemma rows_get_their_groups_value_witness :
  is_ret fitted = true ∧
  match fitted with
  | Ret t =>
      ∃ groups : list (list Z),
        (total → concat groups ≡ₚ xrange 6) ∧
        ((0 ≤ 1)%Z → length groups ≤ 2 ^ Z.to_nat 1) ∧
        (∀ g, g ∈ groups → ∃ v, leaves 1%Z data g = Ret v ∧ ∀ i, i ∈ g → i ∈ xrange 6 ∧
           predictionFunction (length (rules t)) t (row_values data i) None = Some (Ret v)) ∧
        (∀ row depth, ∃ v, predictionFunction (length (rules t)) t row depth = Some v)
  | Raise e => ∃ l, (∀ i, i ∈ l → i ∈ xrange 6) ∧
      fails 1000000000%Z 500%Z 3000%Z (λ z, z / 1000)%Z (λ B l, l) (λ B x, Ret x) 5 100 builder data 1 [0%Z] (leaves 1%Z) l e
  end.
Proof.
  split; [vm_compute; reflexivity|].
  apply (rows_get_their_groups_value 1000000000%Z 0%Z 500%Z 2000%Z 3000%Z (λ z, z / 1000)%Z (λ B l, l) (λ B x, Ret x) 5 100
           builder data 1 [0%Z] (leaves 1%Z)).
  - intros x y Hx. unfold ge. cbn in *. lia.
  - constructor; [lia|constructor].
  - vm_compute. lia.
Defined.

Definition xs : OnDemandSelectedVector := {| vectorToSelectFrom := Z.mul 1000 <$> [1; 2; 3; 30; 31; 32]%Z; selectingIndices := xrange 6 |}.
Definition ys : OnDemandSelectedVector := {| vectorToSelectFrom := Z.mul 1000 <$> [5; 5; 5; 70; 70; 73]%Z; selectingIndices := xrange 6 |}.

Lemma chunks_add_up_witness :
  let chunked := computeBucketedSampleSummaries 1000000000%Z (λ z, z / 1000)%Z 7 builder xs ys 0%Z 40000%Z 4 0 None in
  is_ret chunked = true ∧
  chunked = (hist ← observe_all 1000000000%Z (λ z, z / 1000)%Z (empty_histogram 0%Z 40000%Z 4) xs ys (xrange 6); Ret (freeze hist)).
Proof.
  split; [vm_compute; reflexivity|].
  apply (chunks_add_up 1000000000%Z 0%Z 0%Z 0%Z 0%Z (λ z, z / 1000)%Z (λ B (l : list B), l) (λ B x, Ret x) 5 100).
  - split; intros; cbn; lia.
  - vm_compute. congruence.
  - vm_compute. reflexivity.
Defined.

Lemma best_splits_are_best_witness :
  let best := bestRule 1000000000%Z 500%Z 3000%Z (λ z, z / 1000)%Z (λ B l, l) (λ B x, Ret x) 5 100 builder data 1 [0%Z; 1%Z] (xrange 6) in
  is_ret best = true ∧
  ∀ r, best = Ret r →
    ∃ rs k, rs !! k = Some r ∧ first_greatest (impurityImprovement <$> rs) k (impurityImprovement r).
Proof.
  intros best. split; [vm_compute; reflexivity|]. intros r Hr. unfold best in Hr. clear best.
  destruct (best_splits_are_best 1000000000%Z 0%Z 500%Z 2000%Z 3000%Z (λ z, z / 1000)%Z (λ B (l : list B), l) (λ B x, Ret x) 5 100) as [_ Hbest].
  - clear Hr. split; [intros x; apply Z.ltb_irrefl|intros x y z; cbn; lia|intros x y z; cbn; lia].
  - destruct (Hbest builder data 1%Z [0%Z; 1%Z] (xrange 6) r Hr) as (rs & k & _ & Hk & Hg). exists rs, k. exact (conj Hk Hg).
Defined.
End TreeSamples.
