(* ===== verification/GradientBoosting.v ===== *)
(** * Gradient boosting ([pyfora/algorithms/regressionTrees/losses.py], [RegressionModel.py],
    [GradientBoostedRegressorBuilder.py], [BinaryClassificationModel.py],
    [GradientBoostedClassifierBuilder.py])

    A model is a sum of regression trees. A stage of boosting fits a tree to what the
    model's predictions leave of the responses, and the fitter carries the predictions
    from stage to stage. Trees are those of [RegressionTrees]; [math.log] and [math.exp]
    are parameters. *)
From Stdlib Require Import Lia ZArith QArith Qcanon.
From stdpp Require Import base list numbers strings sorting.
From S2P Require Import Prelude PureBuiltins PureNumpy PurePandas RegressionTrees.
Set Default Proof Using "Type".

Section boosting.
Context {A : Type} `{Number A}.
(** The literals of [RegressionTrees], and its index and generators. *)
Context (inf nan half two three : A) (fora_index : A → Z).
Context {G : Type → Type} `{∀ B, Generator (G B) B} (expression : ∀ B, list B → G B)
  (applied : ∀ B, B → res B) (sum_fuel chunk_fuel : nat).
(** [math.log] and [math.exp], and the language's [sorted]. *)
Context (log exp : A → res A) (sorted : list A → list A).

Notation sum_of := (sum_of expression applied sum_fuel).
Notation fit_ := (RegressionTrees.fit_ inf nan half three fora_index expression applied sum_fuel chunk_fuel).
Notation additive_predict := (additive_predict expression applied sum_fuel).
Notation additive_prediction := (additive_prediction expression applied sum_fuel).

(** ** What the losses use of numpy *)

Definition Mean (l : list A) : res A := total ← sum_of add l (of_int 0); div total (of_int (Z.of_nat (length l))).
Definition Mean_selected (v : OnDemandSelectedVector) : res A :=
  l ← selected_iter v; total ← sum_of add l (of_int 0); div total (of_int (selected_len v)).
Definition Median (l : list A) : res A := Raise (OtherException "NotImplementedError").
Definition abs (x : A) : A := if lt x (of_int 0) then neg x else x.

(** ** losses.py *)

Inductive loss := L2_loss | Absoluteloss.
Definition needsPredictedValues (l : loss) : bool := match l with L2_loss => false | Absoluteloss => true end.
Definition needsOriginalYValues (l : loss) : bool := match l with L2_loss => false | Absoluteloss => true end.

Definition one_leaf (v : A) : AdditiveRegressionTree := [{| rules := [RegressionLeafRule v]; numDimensions := None |}].
Definition L2_initialModel (y : list A) : res AdditiveRegressionTree := m ← Mean y; Ret (one_leaf m).
Definition Absolute_initialModel (y : list A) : res AdditiveRegressionTree :=
  predictionValue ← Median y; Ret (one_leaf predictionValue).
Definition initialModel (l : loss) : list A → res AdditiveRegressionTree :=
  match l with L2_loss => L2_initialModel | Absoluteloss => Absolute_initialModel end.

Definition L2_negativeGradient (y predicted_y : list A) : res (list A) :=
  _ ← py_assert (length y =? length predicted_y);
  mapR (λ ix, a ← py_index y ix; b ← py_index predicted_y ix; Ret (sub a b)) (xrange (Z.of_nat (length y))).
Definition Absolute_negativeGradient (y predicted_y : list A) : res (list A) :=
  _ ← py_assert (length y =? length predicted_y);
  mapR (λ ix,
    a ← py_index y ix; b ← py_index predicted_y ix;
    let tr := sub a b in
    Ret (sub (mul two (of_int (Z.b2z (gt tr float0)))) float1)) (xrange (Z.of_nat (length y))).
Definition negativeGradient (l : loss) : list A → list A → res (list A) :=
  match l with L2_loss => L2_negativeGradient | Absoluteloss => Absolute_negativeGradient end.

Definition L2_leafValue (learningRate : A) (leafValuesDf : DataFrame A) (activeIndices : list Z) : res A :=
  values ← column leafValuesDf (-1);
  m ← Mean_selected {| vectorToSelectFrom := values; selectingIndices := activeIndices |};
  Ret (mul learningRate m).
Definition Absolute_leafValue (learningRate : A) (yDim : Z) (leafValuesDf : DataFrame A) (activeIndices : list Z) : res A :=
  ys ← column leafValuesDf yDim;
  let originalYInRegion := {| vectorToSelectFrom := ys; selectingIndices := activeIndices |} in
  ps ← column leafValuesDf (-1);
  let predictedYInRegion := {| vectorToSelectFrom := ps; selectingIndices := activeIndices |} in
  l ← mapR (λ ix, a ← selected originalYInRegion ix; b ← selected predictedYInRegion ix; Ret (sub a b))
        (xrange (selected_len originalYInRegion));
  m ← Median l;
  Ret (mul learningRate m).
(** [loss.leafValueFun(learningRate)]: that of [Absoluteloss] takes two arguments. *)
Definition leafValueFun (l : loss) (learningRate : A) : res (DataFrame A → list Z → res A) :=
  match l with L2_loss => Ret (L2_leafValue learningRate) | Absoluteloss => Raise TypeError end.

(** *** BinomialLoss *)

Definition transformY (y classZero : A) : A := if eqv y classZero then neg float1 else float1.

Definition Binomial_initialModel (yAsSeries classes : list A) : res AdditiveRegressionTree :=
  classZero ← py_index classes 0;
  yBar ← sum_of add ((λ elt, transformY elt classZero) <$> yAsSeries) (of_int 0);
  q ← div (add float1 yBar) (sub float1 yBar);
  v ← log q;
  Ret (one_leaf (mul half v)).

Definition Binomial_negativeGradient (yAsSeries regressionTreeValues classes : list A) : res (list A) :=
  classZero ← py_index classes 0;
  mapR (λ ix,
    y ← py_index yAsSeries ix;
    let yTransformed := transformY y classZero in
    v ← py_index regressionTreeValues ix;
    e ← exp (mul (mul two yTransformed) v);
    div (mul two yTransformed) (add float1 e)) (xrange (Z.of_nat (length yAsSeries))).

(** [_BinomialLoss_NumeratorDenominatorPair]. *)
Record NumeratorDenominatorPair := { numerator : A; denominator : A }.
Definition pair_add (a b : NumeratorDenominatorPair) : NumeratorDenominatorPair :=
  {| numerator := add (numerator a) (numerator b); denominator := add (denominator a) (denominator b) |}.

Definition Binomial_leafValue (learningRate : A) (leafValues : DataFrame A) (activeIndices : list Z) : res A :=
  values ← column leafValues (-1);
  let residuals := {| vectorToSelectFrom := values; selectingIndices := activeIndices |} in
  l ← mapR (λ ix,
        residual ← selected residuals ix;
        let absResidual := abs residual in
        Ret {| numerator := residual; denominator := mul absResidual (sub two absResidual) |})
        (xrange (selected_len residuals));
  p ← sum_of pair_add l {| numerator := float0; denominator := float0 |};
  div (mul learningRate (numerator p)) (denominator p).

(** ** RegressionModel *)

(** Trees as stacks: a prediction takes at most [fuel] steps in a tree, a fit nests at most
    [fuel] calls. *)
Context (fuel : nat).

Record RegressionModel := {
  additiveRegressionTree : @AdditiveRegressionTree A; X : DataFrame A; XDimensions : list Z; yAsSeries : list A;
  model_loss : loss; regressionTreeBuilder : RegressionTreeBuilder; learningRate : A }.

(** [TreeBuilderArgs], and the builder that is made of it. *)
Record TreeBuilderArgs := { args_minSamplesSplit : Z; args_maxDepth : Z; args_numBuckets : Z }.
Definition baseModelBuilder (args : TreeBuilderArgs) : RegressionTreeBuilder :=
  {| builder_maxDepth := args_maxDepth args; minSamplesSplit := args_minSamplesSplit args;
     numBuckets := args_numBuckets args; minSplitThresh := 1000000 |}.

Definition getInitialModel (X : DataFrame A) (yAsSeries : list A) (l : loss) (learningRate : A) (args : TreeBuilderArgs) :
    res RegressionModel :=
  trees ← initialModel l yAsSeries;
  let XDimensions := xrange (numColumns X) in
  X ← (if needsOriginalYValues l then pyfora_addColumn X "__originalValues" yAsSeries else Ret X);
  Ret {| additiveRegressionTree := trees; X := X; XDimensions := XDimensions; yAsSeries := yAsSeries;
         model_loss := l; regressionTreeBuilder := baseModelBuilder args; learningRate := learningRate |}.

Definition model_predict (m : RegressionModel) (df : DataFrame A) (nEstimators : option Z) : res (list A) :=
  additive_predict fuel (additiveRegressionTree m) df nEstimators.

(** [AdditiveRegressionTree.score]. *)
Definition additive_score (ts : AdditiveRegressionTree) (x : DataFrame A) (yTrue : DataFrame A + list A) : res A :=
  let sz := numRows x in
  _ ← py_assert (sz =? match yTrue with inl y => numRows y | inr y => Z.of_nat (length y) end)%Z;
  yTrue ← match yTrue with inl y => column y 0 | inr y => Ret y end;
  yPredicted ← additive_predict fuel ts x None;
  score_of two expression applied sum_fuel yTrue yPredicted sz.
Definition model_score (m : RegressionModel) (x : DataFrame A) (yTrue : DataFrame A + list A) : res A :=
  additive_score (additiveRegressionTree m) x yTrue.

(** The predictions of the last tree, added to those before it. *)
Definition with_last_tree (ts : AdditiveRegressionTree) (previousPredictions : list A) (df : DataFrame A) : res (list A) :=
  t ← py_index ts (-1);
  l ← RegressionTrees.predict fuel t df None;
  series_add previousPredictions (inl l).
Definition predictWithPreviousResult (m : RegressionModel) (previousPredictions : list A) (df : DataFrame A) : res (list A) :=
  with_last_tree (additiveRegressionTree m) previousPredictions df.

Definition pseudoResidualsAndPredictions (m : RegressionModel) (previousPredictions : option (list A)) :
    res (list A * list A) :=
  predictions ← match previousPredictions with
                | None => model_predict m (X m) None
                | Some p => predictWithPreviousResult m p (X m)
                end;
  g ← negativeGradient (model_loss m) (yAsSeries m) predictions;
  Ret (g, predictions).

Definition boost (m : RegressionModel) (predictions pseudoResiduals : list A) : res RegressionModel :=
  let targetDim := numColumns (X m) in
  localX ← pyfora_addColumn (X m) "__pseudoResiduals" pseudoResiduals;
  localX ← (if needsPredictedValues (model_loss m) then pyfora_addColumn localX "__predictedValues" predictions
            else Ret localX);
  f ← leafValueFun (model_loss m) (learningRate m);
  nextRegressionTree ← fit_ fuel (regressionTreeBuilder m) localX targetDim None (Some (XDimensions m)) (Some f) None;
  Ret {| additiveRegressionTree := additive_add (additiveRegressionTree m) nextRegressionTree; X := X m;
         XDimensions := XDimensions m; yAsSeries := yAsSeries m; model_loss := model_loss m;
         regressionTreeBuilder := regressionTreeBuilder m; learningRate := learningRate m |}.

(** ** GradientBoostedRegressorBuilder *)

Record IterativeFitter := { model : RegressionModel; predictions : option (list A) }.

Definition next (f : IterativeFitter) : res IterativeFitter :=
  '(pseudoResiduals, newPredictions) ← pseudoResidualsAndPredictions (model f) (predictions f);
  newModel ← boost (model f) newPredictions pseudoResiduals;
  Ret {| model := newModel; predictions := Some newPredictions |}.
Definition predictionsAndPseudoresiduals (f : IterativeFitter) : res (list A * list A) :=
  pseudoResidualsAndPredictions (model f) (predictions f).

Record GradientBoostedRegressorBuilder := {
  gb_loss : loss; nBoostingIterations : Z; gb_learningRate : A; treeBuilderArgs : TreeBuilderArgs }.
Definition make_regressor (maxDepth nBoosts : Z) (learningRate : A) (minSamplesSplit numBuckets : Z) (loss : string) :
    res GradientBoostedRegressorBuilder :=
  l ← (if String.eqb loss "l2" then Ret L2_loss
       else if String.eqb loss "lad" then Ret Absoluteloss
       else Raise AssertionError);
  Ret {| gb_loss := l; nBoostingIterations := nBoosts; gb_learningRate := learningRate;
         treeBuilderArgs := {| args_minSamplesSplit := minSamplesSplit; args_maxDepth := maxDepth;
                               args_numBuckets := numBuckets |} |}.

Definition iterativeFitter (b : GradientBoostedRegressorBuilder) (X y : DataFrame A) : res IterativeFitter :=
  yAsSeries ← column y 0;
  m ← getInitialModel X yAsSeries (gb_loss b) (gb_learningRate b) (treeBuilderArgs b);
  Ret {| model := m; predictions := None |}.

(** The loop of [fit]. *)
Fixpoint boost_times (n : nat) (f : IterativeFitter) : res IterativeFitter :=
  match n with O => Ret f | S n => f ← next f; boost_times n f end.
Definition regressor_fit (b : GradientBoostedRegressorBuilder) (X y : DataFrame A) : res RegressionModel :=
  f ← iterativeFitter b X y;
  f ← boost_times (Z.to_nat (nBoostingIterations b)) f;
  Ret (model f).

(** ** BinaryClassificationModel *)

Record BinaryClassificationModel := {
  bc_trees : @AdditiveRegressionTree A; bc_X : DataFrame A; bc_classes : list A; bc_XDimensions : list Z;
  bc_yAsSeries : list A; bc_builder : RegressionTreeBuilder; bc_learningRate : A }.

(** The arguments of [loss.initialModel] change places. *)
Definition Binary_getInitialModel (X : DataFrame A) (yAsSeries classes : list A) (learningRate : A) (args : TreeBuilderArgs) :
    res BinaryClassificationModel :=
  trees ← Binomial_initialModel classes yAsSeries;
  Ret {| bc_trees := trees; bc_X := X; bc_classes := classes; bc_XDimensions := xrange (numColumns X);
         bc_yAsSeries := yAsSeries; bc_builder := baseModelBuilder args; bc_learningRate := learningRate |}.

Implicit Types m : BinaryClassificationModel.

Definition predictProbaFun_ m (row : DataFrameRow A) : res A :=
  v ← additive_prediction fuel (bc_trees m) (λ d, row_getitem row (KInt d)) None;
  e ← exp (mul two v);
  div float1 (add float1 e).
Definition predictionFunction_ m (row : DataFrameRow A) : res A :=
  p ← predictProbaFun_ m row;
  if ge p half then py_index (bc_classes m) 0 else py_index (bc_classes m) 1.
Definition predictProbability m (df : DataFrame A) : res (list A) := apply (predictProbaFun_ m) df 1.
Definition Binary_predict m (df : DataFrame A) : res (list A) := apply (predictionFunction_ m) df 1.

Definition pseudoResidualsAndRegressionValues m (previousRegressionValues : option (list A)) : res (list A * list A) :=
  regressionValues ← match previousRegressionValues with
                     | None => additive_predict fuel (bc_trees m) (bc_X m) None
                     | Some p => with_last_tree (bc_trees m) p (bc_X m)
                     end;
  g ← Binomial_negativeGradient (bc_yAsSeries m) regressionValues (bc_classes m);
  Ret (g, regressionValues).

Definition Binary_boost m (pseudoResiduals : list A) : res BinaryClassificationModel :=
  let yDim := numColumns (bc_X m) in
  localX ← pyfora_addColumn (bc_X m) "__pseudoResiduals" pseudoResiduals;
  nextRegressionTree ← fit_ fuel (bc_builder m) localX yDim None (Some (bc_XDimensions m))
                            (Some (Binomial_leafValue (bc_learningRate m))) None;
  Ret {| bc_trees := additive_add (bc_trees m) nextRegressionTree; bc_X := bc_X m; bc_classes := bc_classes m;
         bc_XDimensions := bc_XDimensions m; bc_yAsSeries := bc_yAsSeries m; bc_builder := bc_builder m;
         bc_learningRate := bc_learningRate m |}.

(** The responses as a series: [isinstance(yTrue, PurePythonDataFrame)]. *)
Definition responses (x : DataFrame A) (yTrue : DataFrame A + list A) : res (list A) :=
  _ ← py_assert (numRows x =? match yTrue with inl y => numRows y | inr y => Z.of_nat (length y) end)%Z;
  match yTrue with inl y => column y 0 | inr y => Ret y end.

Definition Binary_score m (x : DataFrame A) (yTrue : DataFrame A + list A) : res A :=
  yTrue ← responses x yTrue;
  l ← mapR (λ ix,
        r ← iloc x (KInt ix);
        prediction ← match r with Row r => predictionFunction_ m r | _ => Raise InternalError end;
        y ← py_index yTrue ix;
        Ret (if eqv prediction y then float1 else float0)) (xrange (numRows x));
  total ← sum_of add l (of_int 0);
  div total (of_int (numRows x)).

Definition deviance m (x : DataFrame A) (yTrue : DataFrame A + list A) : res A :=
  yTrue ← responses x yTrue;
  probabilities ← predictProbability m x;
  classZero ← py_index (bc_classes m) 0;
  l ← mapR (λ ix,
        p ← py_index probabilities ix;
        y ← py_index yTrue ix;
        if eqv y classZero then log p else log (sub float1 p)) (xrange (numRows x));
  total ← sum_of add l (of_int 0);
  div (neg total) (of_int (numRows x)).

(** ** GradientBoostedClassifierBuilder *)

Record Binary_IterativeFitter := { bc_model : BinaryClassificationModel; previousRegressionValues : option (list A) }.
Definition Binary_next (f : Binary_IterativeFitter) : res Binary_IterativeFitter :=
  '(pseudoResiduals, regressionValues) ← pseudoResidualsAndRegressionValues (bc_model f) (previousRegressionValues f);
  newModel ← Binary_boost (bc_model f) pseudoResiduals;
  Ret {| bc_model := newModel; previousRegressionValues := Some regressionValues |}.

Record GradientBoostedClassifierBuilder := {
  gc_nBoostingIterations : Z; gc_learningRate : A; gc_treeBuilderArgs : TreeBuilderArgs }.

Definition getInitialClassifier (b : GradientBoostedClassifierBuilder) (X : DataFrame A) (yAsSeries : list A) :
    res BinaryClassificationModel :=
  classes ← series_unique lt sorted yAsSeries;
  let nClasses := length classes in
  _ ← py_assert (1 <? nClasses);
  if nClasses =? 2 then Binary_getInitialModel X yAsSeries classes (gc_learningRate b) (gc_treeBuilderArgs b)
  else Raise (OtherException "NotImplementedError").
Definition Binary_iterativeFitter (b : GradientBoostedClassifierBuilder) (X y : DataFrame A) : res Binary_IterativeFitter :=
  yAsSeries ← column y 0;
  m ← getInitialClassifier b X yAsSeries;
  Ret {| bc_model := m; previousRegressionValues := None |}.
Fixpoint Binary_boost_times (n : nat) (f : Binary_IterativeFitter) : res Binary_IterativeFitter :=
  match n with O => Ret f | S n => f ← Binary_next f; Binary_boost_times n f end.
Definition classifier_fit (b : GradientBoostedClassifierBuilder) (X y : DataFrame A) : res BinaryClassificationModel :=
  f ← Binary_iterativeFitter b X y;
  f ← Binary_boost_times (Z.to_nat (gc_nBoostingIterations b)) f;
  Ret (bc_model f).

(** ** Stages *)

(** What the model relies on: a generator of a list gives the list, its fuel lasts, and
    numbers add exactly. *)
Context `{!∀ B, GeneratorLaws (G B) B}
  (Hiter : ∀ B (l : list B), iter (expression B l) = l)
  (Hnested : ∀ B (g c : G B), isNestedGenerator g = true → c ∈ childGenerators g → iter c ≠ [])
  (Hfuel : ∀ B (l : list B), 10 + nesting (expression B l) < sum_fuel)
  (Hassoc : ∀ x y z : A, add (add x y) z = add x (add y z)).

Lemma sum_is_fold {B} (plus : B → B → B) (l : list B) start :
  (∀ x y z, plus (plus x y) z = plus x (plus y z)) → sum_of plus l start = Ret (foldl plus start l).
Proof using All.
  intros Hplus. unfold RegressionTrees.sum_of, Sum, Reduce. set (f := λ x y, Ret (plus x y)).
  assert (Hfold : ∀ l s, fold_op plus (Some s) l = Some (foldl plus s l)).
  { clear. induction l as [|x l IH]; intros s; [done|]. cbn. apply IH. }
  destruct (canSplit (expression B l)); cbn [negb].
  - specialize (Hfuel B l). rewrite (sum_ok plus Hplus f) by (done || lia || apply full_no_late_empty, Hnested).
    rewrite Hiter. cbn [mbind res_bind].
    specialize (Hfold l start). rewrite (fold_op_join plus Hplus) in Hfold.
    destruct (fold_op plus None l) as [v|]; cbn in Hfold |- *; congruence.
  - rewrite (accumulate_all_ok plus f) by done. by rewrite Hiter, Hfold.
Qed.

(** ** A model's predictions, from those of all trees but the last *)

Lemma prediction_of_sum (ts : @AdditiveRegressionTree A) t row :
  additive_prediction fuel (ts ++ [t]) row None =
    (a ← additive_prediction fuel ts row None;
     b ← default (Raise RecursionLimit) (predictionFunction fuel t row None);
     Ret (add a b)).
Proof using All.
  unfold RegressionTrees.additive_prediction. cbn [from_option id]. rewrite !slice_to_end. cbn [mbind res_bind].
  rewrite mapR_append. destruct (mapR _ ts) as [l|e]; cbn [mbind res_bind]; [|done]. cbn [mapR].
  rewrite (sum_is_fold add l) by done. cbn [mbind res_bind].
  destruct (default _ _) as [v|e]; cbn [mbind res_bind]; [|done]. rewrite sum_is_fold by done. by rewrite foldl_app.
Qed.

Lemma mapR_add {Y} (f h : Y → res A) l ks :
  mapR f l = Ret ks →
  mapR (λ x, a ← f x; b ← h x; Ret (add a b)) l = (m ← mapR h l; Ret (zip_with add ks m)).
Proof.
  revert ks. induction l as [|x l IH]; intros ks; cbn [mapR]; [by intros [= <-]|].
  destruct (f x) as [a|]; cbn [mbind res_bind]; [|done]. destruct (mapR f l) as [ks'|]; cbn [mbind res_bind]; [|done].
  intros [= <-]. destruct (h x) as [b|]; cbn [mbind res_bind]; [|done]. rewrite (IH ks' eq_refl).
  by destruct (mapR h l).
Qed.

Lemma mapR_same {Y Z'} (f g : Y → res Z') l : (∀ x, f x = g x) → mapR f l = mapR g l.
Proof. intros Hfg. induction l as [|x l IH]; [done|]. cbn. by rewrite Hfg, IH. Qed.

Lemma mapR_len {Y Z'} (f : Y → res Z') l : ∀ k, mapR f l = Ret k → length k = length l.
Proof. intros k Hk. apply mapR_Ret in Hk. symmetry. by eapply Forall2_length. Qed.

(** Adding the last tree's predictions gives the predictions of the sum. *)
Lemma last_tree_adds (ts : @AdditiveRegressionTree A) t df l :
  additive_predict fuel ts df None = Ret l →
  with_last_tree (ts ++ [t]) l df = additive_predict fuel (ts ++ [t]) df None.
Proof using All.
  unfold with_last_tree, RegressionTrees.additive_predict, RegressionTrees.predict, apply.
  change (1 =? 0)%Z with false. change (1 =? 1)%Z with true. cbn iota. intros Hl.
  rewrite py_index_negative by (rewrite ?length_app; cbn; lia).
  replace (Z.of_nat (length (ts ++ [t])) + -1)%Z with (Z.of_nat (length ts)) by (rewrite length_app; cbn; lia).
  rewrite py_index_middle.
  cbn [mbind res_bind]. set (rows := xrange (numRows df)) in *.
  match type of Hl with mapR ?f _ = _ => set (f0 := f) in * end.
  match goal with |- (l0 ← mapR ?h _; _) = _ => set (h0 := h) end.
  match goal with |- _ = mapR ?g _ => rewrite (mapR_same g (λ x, a ← f0 x; b ← h0 x; Ret (add a b))) end.
  - rewrite (mapR_add f0 h0 rows l Hl). destruct (mapR h0 rows) as [m|] eqn:Hm; cbn [mbind res_bind]; [|done].
    rewrite series_add_zips. by rewrite (mapR_len _ _ _ Hl), (mapR_len _ _ _ Hm), Nat.eqb_refl.
  - intros ix. unfold f0, h0. cbn [iloc mbind res_bind]. apply prediction_of_sum.
Qed.

(** What a fitter carries: nothing, or the predictions of all trees but the last. *)
Definition carries (ts : @AdditiveRegressionTree A) (df : DataFrame A) (p : option (list A)) : Prop :=
  match p with
  | None => True
  | Some l => ∃ ts' t, ts = ts' ++ [t] ∧ additive_predict fuel ts' df None = Ret l
  end.

Lemma residuals_from_scratch (m : RegressionModel) p :
  carries (additiveRegressionTree m) (X m) p →
  pseudoResidualsAndPredictions m p = pseudoResidualsAndPredictions m None.
Proof using All.
  destruct p as [l|]; [|done]. intros (ts & t & Hts & Hl). unfold pseudoResidualsAndPredictions, predictWithPreviousResult, model_predict.
  by rewrite Hts, (last_tree_adds ts t (X m) l Hl).
Qed.

Lemma values_from_scratch m p :
  carries (bc_trees m) (bc_X m) p →
  pseudoResidualsAndRegressionValues m p = pseudoResidualsAndRegressionValues m None.
Proof using All.
  destruct p as [l|]; [|done]. intros (ts & t & Hts & Hl). unfold pseudoResidualsAndRegressionValues.
  by rewrite Hts, (last_tree_adds ts t (bc_X m) l Hl).
Qed.

(** A stage adds a tree, and carries the predictions of the trees before it. *)
Lemma next_carries f f' :
  carries (additiveRegressionTree (model f)) (X (model f)) (predictions f) → next f = Ret f' →
  (∃ t, additiveRegressionTree (model f') = additiveRegressionTree (model f) ++ [t]) ∧
  X (model f') = X (model f) ∧ yAsSeries (model f') = yAsSeries (model f) ∧ model_loss (model f') = model_loss (model f) ∧
  carries (additiveRegressionTree (model f')) (X (model f')) (predictions f').
Proof using All.
  intros Hc. unfold next. rewrite (residuals_from_scratch _ _ Hc). unfold pseudoResidualsAndPredictions at 1.
  destruct (model_predict (model f) (X (model f)) None) as [l|] eqn:Hl; cbn [mbind res_bind]; [|done].
  destruct (negativeGradient _ _ _) as [g|]; cbn [mbind res_bind]; [|done]. unfold boost.
  destruct (pyfora_addColumn _ _ _) as [x|]; cbn [mbind res_bind]; [|done].
  destruct (if needsPredictedValues _ then _ else _) as [x'|]; cbn [mbind res_bind]; [|done].
  destruct (leafValueFun _ _) as [v|]; cbn [mbind res_bind]; [|done].
  destruct (fit_ _ _ _ _ _ _ _ _) as [t|]; cbn [mbind res_bind]; [|done].
  intros [= <-]. split; [by exists t|]. do 3 (split; [done|]). by exists (additiveRegressionTree (model f)), t.
Qed.

Lemma Binary_next_carries f f' :
  carries (bc_trees (bc_model f)) (bc_X (bc_model f)) (previousRegressionValues f) → Binary_next f = Ret f' →
  (∃ t, bc_trees (bc_model f') = bc_trees (bc_model f) ++ [t]) ∧
  bc_X (bc_model f') = bc_X (bc_model f) ∧ bc_yAsSeries (bc_model f') = bc_yAsSeries (bc_model f) ∧
  carries (bc_trees (bc_model f')) (bc_X (bc_model f')) (previousRegressionValues f').
Proof using All.
  intros Hc. unfold Binary_next. rewrite (values_from_scratch _ _ Hc). unfold pseudoResidualsAndRegressionValues at 1.
  destruct (additive_predict _ _ _ _) as [l|] eqn:Hl; cbn [mbind res_bind]; [|done].
  destruct (Binomial_negativeGradient _ _ _) as [g|]; cbn [mbind res_bind]; [|done]. unfold Binary_boost.
  destruct (pyfora_addColumn _ _ _) as [x|]; cbn [mbind res_bind]; [|done].
  destruct (fit_ _ _ _ _ _ _ _ _) as [t|]; cbn [mbind res_bind]; [|done].
  intros [= <-]. split; [by exists t|]. do 2 (split; [done|]). by exists (bc_trees (bc_model f)), t.
Qed.

(** C17. After any number of stages, of a regressor or a classifier, the residuals and the
    values that the fitter reports are those of the model's own predictions of its rows,
    computed from all trees, although a stage adds only the last tree's predictions to
    what it carries; what is raised is the same. A stage adds one tree to the model, and
    leaves the rows and the responses as they are. Numbers are added exactly. *)
Theorem boosting_is_incremental k :
  (∀ (m : RegressionModel) f, boost_times k {| model := m; predictions := None |} = Ret f →
     length (additiveRegressionTree (model f)) = length (additiveRegressionTree m) + k ∧
     additiveRegressionTree m `prefix_of` additiveRegressionTree (model f) ∧
     X (model f) = X m ∧ yAsSeries (model f) = yAsSeries m ∧
     predictionsAndPseudoresiduals f =
       (p ← model_predict (model f) (X m) None; g ← negativeGradient (model_loss m) (yAsSeries m) p; Ret (g, p))) ∧
  (∀ m f, Binary_boost_times k {| bc_model := m; previousRegressionValues := None |} = Ret f →
     length (bc_trees (bc_model f)) = length (bc_trees m) + k ∧
     bc_trees m `prefix_of` bc_trees (bc_model f) ∧
     bc_X (bc_model f) = bc_X m ∧ bc_yAsSeries (bc_model f) = bc_yAsSeries m ∧
     pseudoResidualsAndRegressionValues (bc_model f) (previousRegressionValues f) =
       pseudoResidualsAndRegressionValues (bc_model f) None).
Proof using All.
  split.
  - assert (Hrun : ∀ f0 f, carries (additiveRegressionTree (model f0)) (X (model f0)) (predictions f0) →
      boost_times k f0 = Ret f →
      length (additiveRegressionTree (model f)) = length (additiveRegressionTree (model f0)) + k ∧
      additiveRegressionTree (model f0) `prefix_of` additiveRegressionTree (model f) ∧
      X (model f) = X (model f0) ∧ yAsSeries (model f) = yAsSeries (model f0) ∧ model_loss (model f) = model_loss (model f0) ∧
      carries (additiveRegressionTree (model f)) (X (model f)) (predictions f)).
    { induction k as [|n IH]; intros f0 f Hc; cbn [boost_times]; [intros [= <-]; split_and!; auto; lia|].
      destruct (next f0) as [f1|] eqn:Hn; cbn [mbind res_bind]; [|done]. intros Hf.
      destruct (next_carries f0 f1 Hc Hn) as ((t & Ht) & HX & Hy & Hl & Hc1).
      destruct (IH f1 f Hc1 Hf) as (E1 & E2 & E3 & E4 & E5 & E6). rewrite Ht, length_app in E1. rewrite Ht in E2.
      split; [cbn in E1; lia|]. split; [by eapply prefix_app_l|]. split_and!; congruence || done. }
    intros m f Hf. destruct (Hrun {| model := m; predictions := None |} f I Hf) as (E1 & E2 & E3 & E4 & E5 & E6). cbn [model] in *.
    do 4 (split; [done|]). unfold predictionsAndPseudoresiduals. rewrite (residuals_from_scratch _ _ E6).
    unfold pseudoResidualsAndPredictions. by rewrite E3, E4, E5.
  - assert (Hrun : ∀ f0 f, carries (bc_trees (bc_model f0)) (bc_X (bc_model f0)) (previousRegressionValues f0) →
      Binary_boost_times k f0 = Ret f →
      length (bc_trees (bc_model f)) = length (bc_trees (bc_model f0)) + k ∧
      bc_trees (bc_model f0) `prefix_of` bc_trees (bc_model f) ∧
      bc_X (bc_model f) = bc_X (bc_model f0) ∧ bc_yAsSeries (bc_model f) = bc_yAsSeries (bc_model f0) ∧
      carries (bc_trees (bc_model f)) (bc_X (bc_model f)) (previousRegressionValues f)).
    { induction k as [|n IH]; intros f0 f Hc; cbn [Binary_boost_times]; [intros [= <-]; split_and!; auto; lia|].
      destruct (Binary_next f0) as [f1|] eqn:Hn; cbn [mbind res_bind]; [|done]. intros Hf.
      destruct (Binary_next_carries f0 f1 Hc Hn) as ((t & Ht) & HX & Hy & Hc1).
      destruct (IH f1 f Hc1 Hf) as (E1 & E2 & E3 & E4 & E6). rewrite Ht, length_app in E1. rewrite Ht in E2.
      split; [cbn in E1; lia|]. split; [by eapply prefix_app_l|]. split_and!; congruence || done. }
    intros m f Hf. destruct (Hrun {| bc_model := m; previousRegressionValues := None |} f I Hf) as (E1 & E2 & E3 & E4 & E6). cbn [bc_model] in *.
    do 4 (split; [done|]). by apply values_from_scratch.
Qed.
End boosting.

(** ** Samples: numbers are thousandths, and sums are of lists that can not be split *)
Module BoostingSamples.

#[local] Instance thousandths : Number Z := {|
  of_int z := (1000 * z)%Z; float0 := 0%Z; float1 := 1000%Z; add := Z.add; mul a b := (a * b / 1000)%Z;
  sub := Z.sub; neg := Z.opp;
  div a b := if (b =? 0)%Z then Raise ZeroDivisionError else Ret (a * 1000 / b)%Z;
  pow a b := if (b =? 500)%Z then (if (a <? 0)%Z then Raise ValueError else Ret (Z.sqrt (a * 1000)))
             else Ret (a * a / 1000)%Z;
  lt := Z.ltb; eqv := Z.eqb |}.
#[local] Instance lists (B : Type) : Generator (list B) B := {|
  iter l := l; canSplit _ := false; split _ := None; isNestedGenerator _ := false; childGenerators _ := [] |}.
#[local] Instance lists_laws (B : Type) : GeneratorLaws (list B) B.
Proof. by exists (λ _, 0). Defined.

(** Close to 1, [exp x] is [1 + x] and [log x] is [x - 1]. *)
Definition exp1 (x : Z) : res Z := Ret (1000 + x)%Z.
Definition log1 (x : Z) : res Z := if (x <=? 0)%Z then Raise ValueError else Ret (x - 1000)%Z.

Notation floor := (λ z, z / 1000)%Z.
Notation times := (boost_times 1000000000%Z 0%Z 500%Z 2000%Z 3000%Z floor (G := list) (λ B l, l) (λ B x, Ret x) 12 100 9).
Notation Binary_times := (Binary_boost_times 1000000000%Z 0%Z 500%Z 2000%Z 3000%Z floor (G := list) (λ B l, l) (λ B x, Ret x) 12 100 exp1 9).
Notation reports := (predictionsAndPseudoresiduals 2000%Z (G := list) (λ B l, l) (λ B x, Ret x) 12 9).

Definition rows : DataFrame Z := {| columnNames := ["x"]%string; columns := [Z.mul 1000 <$> [1; 2; 3; 30; 31; 32]%Z] |}.
Definition ys : list Z := Z.mul 1000 <$> [5; 5; 6; 70; 70; 73]%Z.
Definition args : TreeBuilderArgs := {| args_minSamplesSplit := 2; args_maxDepth := 1; args_numBuckets := 20 |}.
Definition first_model : RegressionModel :=
  {| additiveRegressionTree := one_leaf 38166%Z; X := rows; XDimensions := [0%Z]; yAsSeries := ys; model_loss := L2_loss;
     regressionTreeBuilder := baseModelBuilder args; learningRate := 500%Z |}.
Definition first_fitter : IterativeFitter := {| model := first_model; predictions := None |}.
Definition first_classifier : BinaryClassificationModel :=
  {| bc_trees := one_leaf 0%Z; bc_X := rows; bc_classes := [0; 1000]%Z; bc_XDimensions := [0%Z];
     bc_yAsSeries := Z.mul 1000 <$> [0; 0; 0; 1; 1; 1]%Z; bc_builder := baseModelBuilder args; bc_learningRate := 500%Z |}.

Example the_initial_model :
  getInitialModel (G := list) (λ B l, l) (λ B x, Ret x) 12 rows ys L2_loss 500%Z args = Ret first_model.
Proof. vm_compute. reflexivity. Qed.
Example residuals_shrink :
  (f ← times 2 first_fitter; reports f) = Ret ([-8541; -8541; -7541; 7209; 7209; 10209], [13541; 13541; 13541; 62791; 62791; 62791])%Z.
Proof. vm_compute. reflexivity. Qed.

Lemma boosting_is_incremental_witness :
  (is_ret (times 3 first_fitter) = true ∧ is_ret (Binary_times 3 {| bc_model := first_classifier; previousRegressionValues := None |}) = true) ∧
  ∀ f, times 3 first_fitter = Ret f → length (additiveRegressionTree (model f)) = 4 ∧
    reports f = (p ← model_predict (G := list) (λ B l, l) (λ B x, Ret x) 12 9 (model f) rows None;
                 g ← negativeGradient 2000%Z L2_loss ys p; Ret (g, p)).
Proof.
  split; [split; vm_compute; reflexivity|]. intros f Hf.
  destruct (boosting_is_incremental (G := list) 1000000000%Z 0%Z 500%Z 2000%Z 3000%Z floor (λ B l, l) (λ B x, Ret x) 12 100
    log1 exp1 (merge_sort Z.le) 9) with (k := 3) as [Hreg _].
  - done.
  - intros B g c. discriminate.
  - intros B l. cbn. lia.
  - intros x y z. cbn. lia.
  - destruct (Hreg first_model f Hf) as (Hlen & _ & _ & _ & Hrep). exact (conj Hlen Hrep).
Defined.

(** With the loss ["lad"] nothing can be fitted: the median is not implemented, and the
    function of the leaf values wants an argument that it is not given. *)
Lemma lad_is_not_implemented X y lr (a : TreeBuilderArgs) :
  getInitialModel (G := list) (λ B l, l) (λ B x, Ret x) 12 X y Absoluteloss lr a = Raise (OtherException "NotImplementedError") ∧
  leafValueFun (G := list) (λ B l, l) (λ B x, Ret x) 12 Absoluteloss lr = Raise TypeError.
Proof. done. Qed.

(** The first model of a classifier is a tree that says 0, because the responses and
    the classes change places; in their places, the logarithm of a negative number is
    asked for. *)
Definition five_of_six : list Z := Z.mul 1000 <$> [0; 1; 1; 1; 1; 1]%Z.
Lemma classifiers_start_even :
  (bc_trees <$> getInitialClassifier 500%Z (G := list) (λ B l, l) (λ B x, Ret x) 12 log1 (merge_sort Z.le)
     {| gc_nBoostingIterations := 3; gc_learningRate := 1000%Z; gc_treeBuilderArgs := args |} rows five_of_six) = Ret (one_leaf 0%Z) ∧
  Binomial_initialModel 500%Z (G := list) (λ B l, l) (λ B x, Ret x) 12 log1 five_of_six [0; 1000]%Z = Raise ValueError.
Proof. split; vm_compute; reflexivity. Qed.
End BoostingSamples.
