(* ===== verification/BoostingError.v ===== *)
(** * The training error of boosting

    In exact arithmetic [GradientBoosting]'s regressor with least squares always returns a
    model, and no tree makes its error on the rows that were fitted greater, if the
    learning rate is between 0 and 2. Numbers are rationals in lowest terms; the square
    root, infinity, NaN and the index that is made of a number are parameters. *)
From Stdlib Require Import Lia ZArith QArith Qcanon Qround.
From stdpp Require Import base list numbers strings sorting.
From S2P Require Import Prelude PureBuiltins PureNumpy PurePandas RegressionTrees GradientBoosting.
Set Default Proof Using "Type".

(** ** Sums of rationals *)

#[local] Open Scope Qc_scope.

(** Numbers: [power] is [**]. *)
Definition rational (power : Qc → Qc → res Qc) : Number Qc := {|
  of_int z := Q2Qc (inject_Z z); float0 := 0; float1 := 1; add := Qcplus; mul := Qcmult; sub := Qcminus; neg := Qcopp;
  div a b := if bool_decide (b = 0) then Raise ZeroDivisionError else Ret (a / b);
  pow := power; lt a b := bool_decide (a < b); eqv a b := bool_decide (a = b) |}.

(** A natural number. *)
Definition nat_Qc (n : nat) : Qc := Q2Qc (inject_Z (Z.of_nat n)).

Lemma int_add a b : Q2Qc (inject_Z (a + b)) = Q2Qc (inject_Z a) + Q2Qc (inject_Z b).
Proof.
  apply Qc_is_canon. unfold Qcplus. cbn [this Q2Qc]. rewrite !Qred_correct, inject_Z_plus. reflexivity.
Qed.
Lemma int_le a b : (a ≤ b)%Z → Q2Qc (inject_Z a) ≤ Q2Qc (inject_Z b).
Proof. intros Hab. unfold Qcle. cbn [this Q2Qc]. rewrite !Qred_correct, <- Zle_Qle. exact Hab. Qed.
Lemma int_lt a b : (a < b)%Z → Q2Qc (inject_Z a) < Q2Qc (inject_Z b).
Proof. intros Hab. unfold Qclt. cbn [this Q2Qc]. rewrite !Qred_correct, <- Zlt_Qlt. exact Hab. Qed.

Lemma nat_S n : nat_Qc (S n) = nat_Qc n + 1.
Proof. unfold nat_Qc. rewrite Nat2Z.inj_succ. unfold Z.succ. by rewrite int_add. Qed.
Lemma nat_nonneg n : 0 ≤ nat_Qc n.
Proof. apply (int_le 0). lia. Qed.
Lemma nat_pos n : (0 < n)%nat → 0 < nat_Qc n.
Proof. intros Hn. apply (int_lt 0). lia. Qed.
Lemma nat_nonzero n : (0 < n)%nat → nat_Qc n ≠ 0.
Proof. intros Hn ?%eq_sym. by eapply Qclt_not_eq; [apply (nat_pos n)|]. Qed.

(** The sum of the values of a function. *)
Fixpoint total {B} (f : B → Qc) (l : list B) : Qc := match l with [] => 0 | x :: l => f x + total f l end.

Lemma total_foldl l : ∀ s, foldl Qcplus s l = s + total id l.
Proof. induction l as [|x l IH]; intros s; cbn [foldl total]; [ring|]. rewrite IH. unfold id. ring. Qed.
Lemma total_of_app {B} (f : B → Qc) l k : total f (l ++ k) = total f l + total f k.
Proof. induction l as [|x l IH]; cbn [app total]; [ring|]. rewrite IH. ring. Qed.
Lemma total_fmap {B C} (f : C → Qc) (g : B → C) l : total f (g <$> l) = total (λ x, f (g x)) l.
Proof. induction l as [|x l IH]; [done|]. rewrite fmap_cons. cbn [total]. by rewrite IH. Qed.
Lemma total_ext {B} (f g : B → Qc) l : (∀ x, x ∈ l → f x = g x) → total f l = total g l.
Proof.
  induction l as [|x l IH]; intros Hfg; [done|]. cbn [total]. rewrite Hfg by left. f_equal. apply IH. intros y Hy. apply Hfg. by right.
Qed.
#[global] Instance total_perm {B} (f : B → Qc) : Proper ((≡ₚ) ==> (=)) (total f).
Proof. induction 1; cbn [total]; [done|congruence|ring|congruence]. Qed.
Lemma total_of_nonneg {B} (f : B → Qc) l : (∀ x, 0 ≤ f x) → 0 ≤ total f l.
Proof. intros Hf. induction l as [|x l IH]; cbn [total]; [done|]. apply Qcplus_nonneg_nonneg; [apply Hf|exact IH]. Qed.

Lemma square_nonneg x : 0 ≤ x * x.
Proof.
  destruct (Qclt_le_dec x 0) as [Hx|Hx]; [|by apply Qcmult_nonneg_nonneg].
  replace (x * x) with ((- x) * (- x)) by ring. apply Qclt_le_weak, Qcopp_le_compat in Hx. change (- 0) with 0 in Hx.
  by apply Qcmult_nonneg_nonneg.
Qed.

(** The squared distance of some values from a number. *)
Lemma squares_around {B} (f : B → Qc) c l :
  total (λ x, (f x - c) * (f x - c)) l =
    total (λ x, f x * f x) l - (1 + 1) * c * total f l + nat_Qc (length l) * c * c.
Proof.
  induction l as [|x l IH]; cbn [total length]; [change (nat_Qc 0) with 0; ring|]. rewrite IH, nat_S. ring.
Qed.

(** The squares of what is left when [rate] times the mean is taken off. *)
Lemma squares_after_mean {B} (f : B → Qc) rate l :
  l ≠ [] →
  let m := total f l / nat_Qc (length l) in
  total (λ x, (f x - rate * m) * (f x - rate * m)) l =
    total (λ x, f x * f x) l - nat_Qc (length l) * (m * m) * (rate * ((1 + 1) - rate)).
Proof.
  intros Hl m. assert (Hn : nat_Qc (length l) ≠ 0) by (apply nat_nonzero; destruct l; cbn; [done|lia]).
  assert (Hm : total f l = nat_Qc (length l) * m) by (unfold m; by field). rewrite squares_around, Hm. ring.
Qed.

Lemma minus_nonneg x y : 0 ≤ y → x - y ≤ x.
Proof.
  intros Hy. replace x with (x + 0) at 2 by ring. unfold Qcminus. apply Qcplus_le_mono_l.
  apply Qcopp_le_compat in Hy. exact Hy.
Qed.

Lemma squares_shrink {B} (f : B → Qc) rate l :
  l ≠ [] → 0 ≤ rate → rate ≤ 1 + 1 →
  let v := rate * (total f l / nat_Qc (length l)) in
  total (λ x, (f x - v) * (f x - v)) l ≤ total (λ x, f x * f x) l.
Proof.
  intros Hl H0 H2 v. unfold v. rewrite squares_after_mean by done. apply minus_nonneg.
  apply Qcmult_nonneg_nonneg; [apply Qcmult_nonneg_nonneg; [apply nat_nonneg|apply square_nonneg]|].
  apply Qcmult_nonneg_nonneg; [done|]. by apply Qcle_minus_iff in H2.
Qed.

Lemma variance_nonneg {B} (f : B → Qc) l :
  l ≠ [] →
  0 ≤ total (λ x, f x * f x) l / nat_Qc (length l) -
      (total f l / nat_Qc (length l)) * (total f l / nat_Qc (length l)).
Proof.
  intros Hl. assert (Hlen : (0 < length l)%nat) by (destruct l; cbn; [done|lia]). pose proof (nat_pos _ Hlen) as Hn.
  pose proof (nat_nonzero _ Hlen) as Hne.
  pose proof (total_of_nonneg (λ x, (f x - 1 * (total f l / nat_Qc (length l))) * (f x - 1 * (total f l / nat_Qc (length l)))) l
    (λ x, square_nonneg _)) as Hsq.
  rewrite squares_after_mean in Hsq by done. set (m := total f l / nat_Qc (length l)) in *.
  apply (Qcmult_lt_0_le_reg_r _ _ _ Hn). replace (0 * nat_Qc (length l)) with 0 by ring.
  replace ((total (λ x, f x * f x) l / nat_Qc (length l) - m * m) * nat_Qc (length l))
    with (total (λ x, f x * f x) l - nat_Qc (length l) * (m * m) * (1 * (1 + 1 - 1))) by (field; done). done.
Qed.

(** ** Exact arithmetic *)

Section exact_boosting.
Context (power : Qc → Qc → res Qc) (inf nan : Qc) (fora_index : Qc → Z).
#[local] Instance numbers : Number Qc := rational power.
Notation half := (Q2Qc (1 # 2)).
Notation two := (Q2Qc (inject_Z 2)).
Notation three := (Q2Qc (inject_Z 3)).

(** Numbers from 0 have a square root, [x ** 2.0] is the square, and an index is made of a
    number between two integers that is between them. *)
Context (Hsqrt : ∀ x, 0 ≤ x → ∃ y, power x half = Ret y)
  (Hsquare : ∀ x, power x two = Ret (x * x))
  (Hindex : ∀ x n, 0 ≤ x → x ≤ Q2Qc (inject_Z n) → (0 ≤ fora_index x ≤ n)%Z).

(** Generators, as in [GradientBoosting]. *)
Context {G : Type → Type} `{∀ B, Generator (G B) B} `{!∀ B, GeneratorLaws (G B) B}
  (expression : ∀ B, list B → G B) (applied : ∀ B, B → res B) (sum_fuel chunk_fuel fuel : nat)
  (Hiter : ∀ B (l : list B), iter (expression B l) = l)
  (Hnested : ∀ B (g c : G B), isNestedGenerator g = true → c ∈ childGenerators g → iter c ≠ [])
  (Hfuel : ∀ B (l : list B), (10 + nesting (expression B l) < sum_fuel)%nat).

Notation sum_of := (sum_of expression applied sum_fuel).
Lemma Qcplus_assoc' (x y z : Qc) : x + y + z = x + (y + z).
Proof. ring. Qed.

(** The lemmas of [RegressionTrees] and [GradientBoosting] for these numbers. *)
Notation "'tree_lemma' L" := (L Qc numbers inf nan half two three fora_index G _ expression applied sum_fuel chunk_fuel)
  (at level 10, L at level 10, only parsing).
Notation "'boost_lemma' L" := (L Qc numbers inf nan half two three fora_index G _ expression applied sum_fuel chunk_fuel
  (λ x, Ret x) (λ x, Ret x) (λ l, l) fuel _ Hiter Hnested Hfuel Qcplus_assoc') (at level 10, L at level 10, only parsing).

Lemma rational_exact : exact (A := Qc).
Proof. split; cbn; intros; [ring|ring|by apply bool_decide_eq_true]. Qed.

Lemma sum_rationals (l : list Qc) s : sum_of Qcplus l s = Ret (s + total id l).
Proof using All.
  rewrite (boost_lemma @sum_is_fold) by apply Qcplus_assoc'. by rewrite total_foldl.
Qed.

(** The operations of the numbers by their names. *)
Ltac rational :=
  repeat progress (change (@add Qc numbers) with Qcplus in *; change (@mul Qc numbers) with Qcmult in *;
  change (@sub Qc numbers) with Qcminus in *; change (@neg Qc numbers) with Qcopp in *;
  change (@float0 Qc numbers) with 0 in *; change (@float1 Qc numbers) with 1 in *;
  change (@pow Qc numbers) with power in *).

Lemma div_rational (x y : Qc) : y ≠ 0 → div x y = Ret (x / y).
Proof. intros Hy. cbn. by rewrite bool_decide_false. Qed.
Lemma lt_rational (x y : Qc) : lt x y = bool_decide (x < y).
Proof. done. Qed.
Lemma int_nonzero z : (z ≠ 0)%Z → Q2Qc (inject_Z z) ≠ 0.
Proof.
  intros Hz Heq. destruct (Z.lt_total z 0) as [Hlt|[?|Hlt]]; [|done|]; apply int_lt in Hlt; rewrite Heq in Hlt;
    by eapply Qclt_not_eq.
Qed.

(** *** Summaries *)

Lemma summary_assoc' (s t u : SampleSummary) : summary_add (summary_add s t) u = summary_add s (summary_add t u).
Proof. unfold summary_add. cbn [xSum weight xxSum]. rational. f_equal; ring. Qed.

Lemma summary_of {B} (f : B → Qc) l : ∀ s : SampleSummary,
  foldl summary_add s ((λ x, one_sample (f x)) <$> l) =
    {| xSum := xSum s + total f l; weight := weight s + nat_Qc (length l); xxSum := xxSum s + total (λ x, f x * f x) l |}.
Proof.
  induction l as [|x l IH]; intros s.
  - destruct s as [a b c]. cbn [fmap list_fmap foldl total length xSum weight xxSum]. change (nat_Qc 0) with 0. f_equal; ring.
  - rewrite fmap_cons. cbn [foldl]. rewrite IH. cbn [total length]. unfold summary_add, one_sample. cbn [xSum weight xxSum].
    rational. rewrite nat_S. f_equal; ring.
Qed.

Lemma variance_returns (s : SampleSummary) : weight s ≠ 0 →
  variance s = Ret (xxSum s / weight s - (xSum s / weight s) * (xSum s / weight s)).
Proof. intros Hw. unfold variance, mean. by rewrite !div_rational. Qed.

(** The improvement of a split of samples whose weights are not 0 together. *)
Lemma improvement_returns (s t : SampleSummary) : weight s + weight t ≠ 0 → ∃ v, impurityImprovement_of inf s t = Ret v.
Proof.
  intros Hw. unfold impurityImprovement_of. destruct (_ || _) eqn:Hz; [by eexists|].
  apply orb_false_iff in Hz as [Hs%bool_decide_eq_false Ht%bool_decide_eq_false].
  rewrite !variance_returns by done. cbn [mbind res_bind]. rewrite div_rational by done. cbn [mbind res_bind]. by eexists.
Qed.

(** *** Histograms *)

Definition weights (l : list SampleSummary) : Qc := total weight l.

Lemma fold_weight l : ∀ s : SampleSummary, weight (foldl summary_add s l) = weight s + weights l.
Proof.
  unfold weights. induction l as [|x l IH]; intros s; cbn [foldl total]; [ring|]. rewrite IH. unfold summary_add.
  cbn [weight]. rational. ring.
Qed.

Lemma split_loop_returns rest : ∀ cur (above below : SampleSummary) bi best,
  weight above + weight below ≠ 0 → ∃ out, best_split_loop inf rest cur above below bi best = Ret out.
Proof.
  induction rest as [|s rest IH]; intros cur above below bi best Hw; cbn [best_split_loop]; [by eexists|].
  destruct rest as [|s' rest]; [by eexists|].
  assert (Hw' : weight (summary_sub above s) + weight (summary_add below s) ≠ 0).
  { unfold summary_sub, summary_add. cbn [weight]. rational. intros Heq. apply Hw. rewrite <- Heq. ring. }
  destruct (improvement_returns _ _ Hw') as [i ->]. cbn [mbind res_bind]. destruct (gt i best); by apply IH.
Qed.

Lemma best_split_returns (h : SampleSummaryHistogram) :
  samples h ≠ [] → (0 < count h)%Z → weights (samples h) ≠ 0 → ∃ out, bestSplitPointAndImpurityImprovement inf h = Ret out.
Proof.
  intros Hs Hc Hw. unfold bestSplitPointAndImpurityImprovement. destruct (samples h) as [|first rest]; [done|].
  assert (Hw' : weight (summary_sub (foldl summary_add no_samples (first :: rest)) first) + weight first ≠ 0).
  { unfold summary_sub. cbn [weight]. rewrite fold_weight. unfold no_samples. cbn [weight]. rational. intros Heq.
    apply Hw. rewrite <- Heq. ring. }
  destruct (improvement_returns _ _ Hw') as [i ->]. cbn [mbind res_bind].
  destruct (split_loop_returns rest 1 _ _ 0 i Hw') as [[bi best] ->]. cbn [mbind res_bind].
  rewrite div_rational by (apply (int_nonzero (count h)); lia). by eexists.
Qed.

Lemma observe_returns (h : SampleSummaryHistogram) x y :
  (0 < count h)%Z → Z.of_nat (length (samples h)) = count h →
  ∃ l, observe inf fora_index h x (one_sample y) =
    Ret {| x0 := x0 h; x1 := x1 h; count := count h; samples := l |} ∧
    length l = length (samples h) ∧ weights l = weights (samples h) + 1.
Proof using Hindex.
  intros Hc Hl. unfold observe. assert (Hb : ∃ q, bucket_of inf h x = Ret q ∧ (0 ≤ fora_index q ≤ count h - 1)%Z).
  { unfold bucket_of. set (d := match div _ _ with Ret _ => _ | Raise _ => _ end).
    assert (Hd : ∃ q, d = Ret q) by (subst d; cbn; case_bool_decide; by eexists). destruct Hd as [q ->]. cbn [mbind res_bind].
    eexists. split; [done|]. assert (Hpos : 0 ≤ Max2 lt q (of_int 0)).
    { unfold Max2. rewrite lt_rational. case_bool_decide as Hq; [by apply Qcle_refl|]. by apply Qcnot_lt_le in Hq. }
    set (p := Max2 lt q (of_int 0)) in *. clearbody p. unfold Min2. rewrite lt_rational.
    case_bool_decide as Hp; apply Hindex; [done|by apply Qclt_le_weak|apply (int_le 0); lia|apply Qcle_refl]. }
  destruct Hb as (q & -> & Hq). cbn [mbind res_bind]. unfold augmentItem. rewrite (proj2 (Z.ltb_ge _ 0)) by lia.
  destruct (lookup_lt_is_Some_2 (samples h) (Z.to_nat (fora_index q))) as [s Hs]; [lia|]. rewrite Hs. cbn [of_option mbind res_bind].
  eexists. split; [done|]. split; [by rewrite length_insert|].
  apply list_elem_of_split_length in Hs as (l1 & l2 & -> & Hi). rewrite insert_app_r_alt, Hi, Nat.sub_diag by lia. cbn [insert list_insert].
  unfold weights. rewrite !total_of_app. cbn [total]. unfold summary_add, one_sample. cbn [weight]. rational. ring.
Qed.

Lemma total_order : RegressionTrees.total (A := Qc).
Proof.
  intros x y. unfold ge. cbn [lt eqv numbers rational]. destruct (Qc_dec x y) as [[Hlt|Hlt]| ->].
  - rewrite (bool_decide_true (x < y)), (bool_decide_false (y < x)) by (done || by apply Qcle_not_lt, Qclt_le_weak).
    rewrite bool_decide_false; [done|]. intros ->. by eapply Qclt_not_eq.
  - by rewrite (bool_decide_true (y < x)), (bool_decide_false (x < y)) by (done || by apply Qcle_not_lt, Qclt_le_weak).
  - by rewrite (bool_decide_true (y = y)), (bool_decide_false (y < y)) by (done || by apply Qcle_not_lt, Qcle_refl).
Qed.
Lemma order_excludes : exclusive (A := Qc).
Proof. intros x y Hxy. by rewrite total_order, Hxy. Qed.

(** Rows of the frame. *)
Definition valid (n : nat) (active : list Z) : Prop := active ≠ [] ∧ Forall (λ i, 0 ≤ i < Z.of_nat n)%Z active.
Definition entry (col : list Qc) (i : Z) : Qc := default 0 (col !! Z.to_nat i).

Lemma column_valid (df : DataFrame Qc) n d : rectangular df n → (0 ≤ d < numColumns df)%Z → ∃ col, column df d = Ret col ∧ length col = n.
Proof using All.
  intros Hdf Hd. rewrite (tree_lemma @column_ok), py_index_nonneg by lia. unfold numColumns in Hd.
  destruct (lookup_lt_is_Some_2 (columns df) (Z.to_nat d)) as [col Hcol]; [lia|]. rewrite Hcol. exists col. split; [done|].
  destruct Hdf as [_ Hall]. rewrite Forall_lookup in Hall. by eapply Hall.
Qed.

Lemma entry_ok n col i : length col = n → (0 ≤ i < Z.of_nat n)%Z → py_index col i = Ret (entry col i).
Proof using All.
  intros Hl Hi. rewrite py_index_nonneg by lia. unfold entry.
  by destruct (lookup_lt_is_Some_2 col (Z.to_nat i)) as [x ->]; [lia|].
Qed.

Notation vector col active := {| vectorToSelectFrom := col; selectingIndices := active |}.

Lemma selected_entry n col active k i :
  length col = n → Forall (λ i, 0 ≤ i < Z.of_nat n)%Z active → active !! k = Some i →
  selected (vector col active) (Z.of_nat k) = Ret (entry col i).
Proof using All.
  intros Hl Ha Hk. unfold selected. cbn [selectingIndices vectorToSelectFrom]. rewrite py_index_nonneg, Nat2Z.id, Hk by lia.
  cbn [of_option mbind res_bind]. apply (entry_ok n); [done|]. rewrite Forall_lookup in Ha. by eapply Ha.
Qed.

Lemma selected_all {B} n (g : Qc → B) col active :
  length col = n → Forall (λ i, 0 ≤ i < Z.of_nat n)%Z active →
  mapR (λ ix, x ← selected (vector col active) ix; Ret (g x)) (xrange (selected_len (vector col active))) =
    Ret ((λ i, g (entry col i)) <$> active).
Proof using All.
  intros Hl Ha. apply mapR_indices; [by rewrite length_fmap|]. intros k Hk. rewrite list_lookup_fmap.
  destruct (lookup_lt_is_Some_2 active k Hk) as [i Hi]. by rewrite (selected_entry n col active k i), Hi.
Qed.

(** *** Fitting returns *)

Section fit_returns.
Set Default Proof Using "All".
Context (b : RegressionTreeBuilder) (df : DataFrame Qc) (n : nat) (yDim : Z) (xDimensions : list Z)
  (leafValue_ : DataFrame Qc → list Z → res Qc).
Context (Hdf : rectangular df n) (Hy : (0 ≤ yDim < numColumns df)%Z)
  (Hdims : Forall (λ d, 0 ≤ d < numColumns df)%Z xDimensions) (Hsome : xDimensions ≠ [])
  (Hthresh : (2 ≤ minSplitThresh b)%Z) (Hbuckets : (0 < numBuckets b)%Z) (Hchunk : (n < chunk_fuel)%nat).

Lemma observe_all_returns xs ys active (Ha : Forall (λ i, 0 ≤ i < Z.of_nat n)%Z active) :
  length xs = n → length ys = n → ∀ ixs (h : SampleSummaryHistogram),
  Forall (λ ix, 0 ≤ ix < Z.of_nat (length active))%Z ixs → (0 < count h)%Z → Z.of_nat (length (samples h)) = count h →
  ∃ l, observe_all inf fora_index h (vector xs active) (vector ys active) ixs =
    Ret {| x0 := x0 h; x1 := x1 h; count := count h; samples := l |} ∧
    length l = length (samples h) ∧ weights l = weights (samples h) + nat_Qc (length ixs).
Proof.
  intros Hxs Hys. induction ixs as [|ix ixs IH]; intros h Hixs Hc Hl; cbn [observe_all].
  { exists (samples h). split; [by destruct h|]. split; [done|]. cbn [length]. change (nat_Qc 0) with 0. ring. }
  apply Forall_cons in Hixs as [Hix Hixs].
  destruct (lookup_lt_is_Some_2 active (Z.to_nat ix)) as [i Hi]; [lia|].
  assert (Hsel : ∀ col, length col = n → selected (vector col active) ix = Ret (entry col i)).
  { intros col Hcol. rewrite <- (Z2Nat.id ix) by lia. by apply (selected_entry n). }
  rewrite !Hsel by done. cbn [mbind res_bind]. destruct (observe_returns h (entry xs i) (entry ys i) Hc Hl) as (l & -> & Hl' & Hw).
  cbn [mbind res_bind]. destruct (IH {| x0 := x0 h; x1 := x1 h; count := count h; samples := l |} Hixs) as (l' & -> & Hlen & Hw').
  - done.
  - cbn [samples count]. lia.
  - exists l'. split; [done|]. cbn [samples] in Hlen, Hw'. split; [lia|]. rewrite Hw', Hw. cbn [length]. rewrite nat_S. ring.
Qed.

Lemma weights_of_none k : weights (replicate k no_samples) = 0.
Proof. unfold weights. induction k as [|k IH]; [done|]. cbn [replicate total]. rewrite IH. unfold no_samples. cbn [weight]. rational. ring. Qed.

Lemma bestRuleForXDimension_returns d active :
  (0 ≤ d < numColumns df)%Z → valid n active → (length active ≤ n)%nat →
  ∃ r, bestRuleForXDimension inf half three fora_index expression applied sum_fuel chunk_fuel b df yDim d active = Ret r.
Proof.
  intros Hd [Hne Ha] Hlen. unfold bestRuleForXDimension. destruct (column_valid df n d Hdf Hd) as (xs & -> & Hxs).
  destruct (column_valid df n yDim Hdf Hy) as (ys & -> & Hys). cbn [mbind res_bind].
  assert (Hpos : (0 < length active)%nat) by (destruct active; cbn; [done|lia]). pose proof (nat_nonzero _ Hpos) as Hnz.
  unfold sampleSummary. rewrite selected_all with (n := n) by done. cbn [mbind res_bind].
  rewrite (boost_lemma @sum_is_fold) by apply summary_assoc'. rewrite summary_of. unfold no_samples at 1 2 3. cbn [xSum weight xxSum].
  rational. rewrite !Qcplus_0_l. set (s := {| xSum := _; weight := _; xxSum := _ |}). cbn [mbind res_bind].
  assert (Hmean : ∃ m, mean s = Ret m) by (unfold mean; rewrite div_rational by done; by eexists). destruct Hmean as [m Hm].
  assert (Hstdev : ∃ v, stdev half s = Ret v).
  { unfold stdev. rewrite variance_returns by done. cbn [mbind res_bind]. apply Hsqrt. unfold s. cbn [xSum weight xxSum].
    by apply variance_nonneg. }
  destruct Hstdev as [v Hv]. rewrite Hm, Hv. cbn [mbind res_bind].
  rewrite (tree_lemma @chunk_of_all) by (exact rational_exact || lia).
  rewrite (tree_lemma @chunk_of_range) by (exact rational_exact || done || unfold selected_len; cbn [selectingIndices]; lia).
  destruct (observe_all_returns xs ys active Ha Hxs Hys (xrange2 0 (selected_len (vector xs active)))
    (empty_histogram (m - v * three) (m + v * three) (numBuckets b))) as (l & -> & Hl & Hw).
  - apply Forall_forall. intros ix. unfold xrange2. rewrite elem_of_seqZ. unfold selected_len. cbn [selectingIndices]. lia.
  - done.
  - unfold empty_histogram. cbn [samples count]. rewrite length_replicate. lia.
  - cbn [mbind res_bind]. unfold freeze, histogram. cbn [x0 x1 samples].
    unfold empty_histogram in Hl, Hw. cbn [samples] in Hl, Hw. rewrite length_replicate in Hl.
    rewrite weights_of_none in Hw. unfold xrange2 in Hw. rewrite length_seqZ in Hw. unfold selected_len in Hw. cbn [selectingIndices] in Hw.
    match goal with |- context [bestSplitPointAndImpurityImprovement inf ?h] => destruct (best_split_returns h) as [[p i] ->] end.
    + cbn [samples]. intros ->. cbn in Hl. lia.
    + cbn [count]. lia.
    + cbn [samples]. rewrite Hw. replace (Z.to_nat _) with (length active) by lia. rewrite Qcplus_0_l. done.
    + cbn [mbind res_bind]. by eexists.
Qed.

Lemma argmax_index (vec : list Qc) : ∀ ix m mi k,
  (mi < k)%nat → (ix + length vec ≤ k)%nat → (argmax_loop vec ix m mi < k)%nat.
Proof.
  induction vec as [|v vec IH]; intros ix m mi k Hmi Hk; cbn [argmax_loop length] in *; [done|].
  destruct (gt v m); apply IH; lia.
Qed.

Lemma bestRule_returns active :
  valid n active → (length active ≤ n)%nat →
  ∃ r, bestRule inf half three fora_index expression applied sum_fuel chunk_fuel b df yDim xDimensions active = Ret r.
Proof.
  intros Ha Hlen. unfold bestRule.
  destruct (mapR_total (λ ix, bestRuleForXDimension inf half three fora_index expression applied sum_fuel chunk_fuel b df yDim ix active)
    xDimensions) as [rs Hrs].
  { intros d Hd. apply bestRuleForXDimension_returns; [|done|done]. by apply (proj1 (Forall_forall _ _) Hdims). }
  rewrite Hrs. cbn [mbind res_bind]. apply mapR_Ret, Forall2_length in Hrs. destruct rs as [|r rs].
  { destruct xDimensions; done. }
  rewrite fmap_cons. cbn [argmax mbind res_bind].
  destruct (lookup_lt_is_Some_2 (r :: rs) (argmax_loop (impurityImprovement r :: (impurityImprovement <$> rs)) 0 (impurityImprovement r) 0))
    as [r' ->]; [|by eexists].
  apply argmax_index; cbn [length]; [lia|]. rewrite length_fmap. lia.
Qed.

Lemma select_returns (f : Qc → bool) (col : list Qc) active :
  length col = n → Forall (λ i, 0 ≤ i < Z.of_nat n)%Z active → ∃ l, select f col active = Ret l.
Proof.
  intros Hl. induction 1 as [|i active Hi _ [l IH]]; [by eexists|]. cbn [select].
  rewrite (entry_ok n col i Hl Hi). cbn [mbind res_bind]. rewrite IH. by eexists.
Qed.

Lemma split_returns r active :
  dimension r ∈ xDimensions → valid n active → ∃ p, splitDataframe r df active = Ret p.
Proof.
  intros Hr [_ Ha]. unfold splitDataframe.
  destruct (column_valid df n (dimension r) Hdf (proj1 (Forall_forall _ _) Hdims _ Hr)) as (xs & -> & Hxs). cbn [mbind res_bind].
  destruct (select_returns (λ x, lt x (splitPoint r)) xs active Hxs Ha) as [l ->]. cbn [mbind res_bind].
  destruct (select_returns (λ x, ge x (splitPoint r)) xs active Hxs Ha) as [m ->]. by eexists.
Qed.

Context (Hleaf : ∀ l, valid n l → ∃ v, leafValue_ df l = Ret v).

(** Fitting returns a tree that was grown of the rows. *)
Lemma fit_returns fuel0 maxDepth active :
  valid n active → (length active ≤ n)%nat → (length active < fuel0)%nat →
  ∃ t, fit_rules inf half three fora_index expression applied sum_fuel chunk_fuel fuel0 b df yDim maxDepth xDimensions leafValue_ active
         = Ret (flatten_tree t) ∧ grown df xDimensions leafValue_ active t.
Proof.
  intros Ha Hlen Hf0.
  assert (Hdims0 : Forall (λ d, 0 ≤ d)%Z xDimensions) by (eapply Forall_impl; [exact Hdims|]; cbn; lia).
  pose proof ((tree_lemma @fit_grows) b df yDim xDimensions leafValue_ order_excludes Hdims0 fuel0 maxDepth active Hf0) as Hfit.
  destruct (fit_rules _ _ _ _ _ _ _ _ _ _ _ _ _ _ _ _) as [rs|e]; [destruct Hfit as (t & -> & Hg & _); by exists t|].
  destruct Hfit as (l & Hsub & Hne & Hfails). exfalso.
  assert (Hl : valid n l).
  { split; [by apply Hne, Ha|]. apply Forall_forall. intros i Hi. destruct Ha as [_ Ha]. rewrite Forall_forall in Ha.
    apply Ha. by eapply elem_of_submseteq. }
  apply submseteq_length in Hsub as Hll. assert (Hln : (length l ≤ n)%nat) by lia.
  destruct Hfails as [Hbad|[Hbad|[(r & Hr & Hbad)|(x & k & Hk & Hbad)]]].
  - destruct (bestRule_returns l Hl Hln) as [r Hr]. congruence.
  - destruct (Hleaf l Hl) as [v Hv]. congruence.
  - apply ((tree_lemma @bestRule_dimension) b df yDim xDimensions leafValue_ order_excludes Hdims0) in Hr.
    destruct (split_returns r l Hr Hl) as [p Hp]. congruence.
  - rewrite div_rational in Hbad; [done|]. apply int_nonzero. lia.
Qed.
End fit_returns.

(** ** Trees that were grown of some rows *)

Section grown_trees.
Set Default Proof Using "All".
Context (b : RegressionTreeBuilder) (df : DataFrame Qc) (xDimensions : list Z) (leafValue_ : DataFrame Qc → list Z → res Qc)
  (Hdims : Forall (λ d, 0 ≤ d)%Z xDimensions).

(** A tree has fewer than two rules for each row. *)
Lemma rules_bound active t :
  grown df xDimensions leafValue_ active t → active ≠ [] → (length (flatten_tree t) < 2 * length active)%nat.
Proof.
  induction 1 as [active v Hv|active r v l m a c Hd Hs Hl Hm _ Ha IHa Hc IHc]; intros Hne; cbn [flatten_tree].
  - destruct active; [done|]. cbn. lia.
  - apply ((tree_lemma @split_smaller) b df 0%Z xDimensions leafValue_ order_excludes Hdims), submseteq_length in Hs.
    rewrite length_app in Hs. specialize (IHa Hl). specialize (IHc Hm). rewrite !length_app. cbn [length]. lia.
Qed.

Lemma groups_nonempty active t :
  grown df xDimensions leafValue_ active t → active ≠ [] → ∀ g v, (g, v) ∈ tips t → g ≠ [].
Proof.
  induction 1 as [active w Hv|active r w l m a c Hd Hs Hl Hm _ Ha IHa Hc IHc]; intros Hne g v Hg; cbn [tips] in Hg.
  - apply list_elem_of_singleton in Hg. by injection Hg as -> ->.
  - apply elem_of_app in Hg as [Hg|Hg]; [by eapply IHa|by eapply IHc].
Qed.

(** Rows that agree on the dimensions fall to the same group. *)
Lemma falls_same active t row row' :
  grown df xDimensions leafValue_ active t → (∀ d, d ∈ xDimensions → row d = row' d) → falls_to t row = falls_to t row'.
Proof.
  intros Hg Hrow. induction Hg as [active w Hv|active r w l m a c Hd Hs Hl Hm _ Ha IHa Hc IHc]; [done|]. cbn [falls_to].
  unfold isLess. rewrite (Hrow _ Hd). destruct (row' (dimension r)) as [x|]; cbn [mbind res_bind]; [|done].
  by destruct (lt x (splitPoint r)).
Qed.
End grown_trees.

(** ** A stage *)

Definition squared_error (ys ps : list Qc) : Qc := total (λ p, (p.1 - p.2) * (p.1 - p.2)) (zip ys ps).

Lemma entry_zip (f : Qc → Qc → Qc) l k n i :
  length l = n → length k = n → (0 ≤ i < Z.of_nat n)%Z → entry (zip_with f l k) i = f (entry l i) (entry k i).
Proof.
  intros Hl Hk Hi. unfold entry. rewrite lookup_zip_with. destruct (lookup_lt_is_Some_2 l (Z.to_nat i)) as [x ->]; [lia|].
  by destruct (lookup_lt_is_Some_2 k (Z.to_nat i)) as [y ->]; [lia|].
Qed.

Lemma list_entries l n : length l = n → l = entry l <$> xrange (Z.of_nat n).
Proof.
  intros Hl. apply list_eq. intros k. rewrite list_lookup_fmap. destruct (decide (k < n)%nat) as [Hk|Hk].
  - pose proof (arange_lookup (Z.of_nat k) (Z.of_nat n) ltac:(lia)) as Hr. rewrite Nat2Z.id in Hr. rewrite Hr.
    cbn [fmap option_fmap option_map]. unfold entry. rewrite Nat2Z.id. by destruct (lookup_lt_is_Some_2 l k) as [x ->]; [lia|].
  - rewrite lookup_ge_None_2 by lia. rewrite lookup_ge_None_2; [done|]. rewrite length_xrange. lia.
Qed.

Lemma error_entries ys ps n :
  length ys = n → length ps = n →
  squared_error ys ps = total (λ i, (entry ys i - entry ps i) * (entry ys i - entry ps i)) (xrange (Z.of_nat n)).
Proof.
  intros Hy Hp. unfold squared_error. rewrite (list_entries ys n Hy) at 1. rewrite (list_entries ps n Hp) at 1.
  rewrite zip_with_fmap_l, zip_with_fmap_r. induction (xrange (Z.of_nat n)) as [|i l IH]; [done|]. cbn [zip_with total fst snd]. by rewrite IH.
Qed.

Lemma in_concat_of {B} (x : B) (ls : list (list B)) : x ∈ concat ls ↔ ∃ g, x ∈ g ∧ g ∈ ls.
Proof.
  induction ls as [|l ls IH]; cbn [concat].
  - split; [by intros ?%elem_of_nil|]. by intros (g & _ & ?%elem_of_nil).
  - rewrite elem_of_app, IH. split.
    + intros [Hx|(g & Hx & Hg)]; [exists l|exists g]; (split; [done|]); [left|by right].
    + intros (g & Hx & [->|Hg]%elem_of_cons); [by left|right; by exists g].
Qed.

Lemma total_concat_le {B} (f g : B → Qc) (ls : list (list B)) :
  (∀ l, l ∈ ls → total f l ≤ total g l) → total f (concat ls) ≤ total g (concat ls).
Proof.
  induction ls as [|l ls IH]; intros Hl; [apply Qcle_refl|]. cbn [concat]. rewrite !total_of_app.
  apply Qcplus_le_compat; [apply Hl; left|apply IH; intros k Hk; apply Hl; by right].
Qed.

Section stage.
Set Default Proof Using "All".
Context (rows : DataFrame Qc) (n : nat) (ys : list Qc) (rate : Qc) (b : RegressionTreeBuilder).
Context (Hrows : rectangular rows n) (Hn : (0 < n)%nat) (Hys : length ys = n)
  (Hname : existsb (String.eqb "__pseudoResiduals") (columnNames rows) = false)
  (Hrate0 : 0 ≤ rate) (Hrate2 : rate ≤ 1 + 1)
  (Hthresh : (2 ≤ minSplitThresh b)%Z) (Hbuckets : (0 < numBuckets b)%Z) (Hchunk : (n < chunk_fuel)%nat)
  (Hfuel2 : (2 * n ≤ fuel)%nat).

Definition with_residuals (R : list Qc) : DataFrame Qc :=
  {| columnNames := columnNames rows ++ ["__pseudoResiduals"%string]; columns := columns rows ++ [R] |}.

Lemma addColumn_ok R : pyfora_addColumn rows "__pseudoResiduals" R = Ret (with_residuals R).
Proof.
  unfold pyfora_addColumn. rewrite Hname. cbn [negb py_assert mbind res_bind]. unfold make_frame.
  rewrite py_index_nonneg by lia. destruct Hrows as [Hc _]. destruct (columns rows) as [|c l] eqn:Hcs; [done|].
  cbn [app Z.to_nat lookup list_lookup of_option mbind res_bind from_option id]. unfold with_residuals. by rewrite Hcs.
Qed.

Lemma with_residuals_rectangular R : length R = n → rectangular (with_residuals R) n.
Proof.
  intros HR. destruct Hrows as [Hc Hall]. split; cbn [columns with_residuals]; [by destruct (columns rows)|].
  apply Forall_app. by split; [|constructor].
Qed.

Notation dims := (xrange (numColumns rows)).

Lemma columns_of_rows R d : d ∈ dims → column (with_residuals R) d = column rows d.
Proof.
  intros Hd%elem_of_xrange. rewrite !(tree_lemma @column_ok), !py_index_nonneg by lia. cbn [columns with_residuals].
  unfold numColumns in Hd. by rewrite lookup_app_l by lia.
Qed.

Lemma last_column R : column (with_residuals R) (-1) = Ret R.
Proof.
  rewrite (tree_lemma @column_ok). cbn [columns with_residuals]. rewrite py_index_negative by (rewrite length_app; cbn; lia).
  replace (Z.of_nat (length (columns rows ++ [R])) + -1)%Z with (Z.of_nat (length (columns rows))) by (rewrite length_app; cbn; lia).
  by rewrite py_index_middle.
Qed.

Lemma leaf_returns R l :
  length R = n → valid n l →
  L2_leafValue expression applied sum_fuel rate (with_residuals R) l = Ret (rate * (total (entry R) l / nat_Qc (length l))).
Proof.
  intros HR [Hne Hl]. unfold L2_leafValue. rewrite last_column. cbn [mbind res_bind]. unfold Mean_selected, selected_iter.
  set (v := {| vectorToSelectFrom := R; selectingIndices := l |}).
  rewrite (mapR_same _ (λ ix, x ← selected v ix; Ret (id x))) by (intros ix; by destruct (selected v ix)).
  unfold v. rewrite (selected_all n id) by done. cbn [mbind res_bind]. rational. rewrite sum_rationals. cbn [mbind res_bind].
  change (of_int (selected_len _)) with (nat_Qc (length l)). rewrite div_rational by (apply nat_nonzero; destruct l; cbn; [done|lia]).
  cbn [mbind res_bind]. rewrite total_fmap. change (of_int 0) with 0. rewrite Qcplus_0_l. done.
Qed.

Lemma all_valid : valid n (xrange (Z.of_nat n)).
Proof.
  split; [intros Hx; apply (f_equal length) in Hx; rewrite length_xrange in Hx; cbn in Hx; lia|].
  apply Forall_forall. intros i. by rewrite elem_of_xrange.
Qed.

Notation leaf := (L2_leafValue expression applied sum_fuel rate).
Notation active := (xrange (Z.of_nat n)).
Notation regression_tree t dims_ := {| rules := flatten_tree t; numDimensions := dims_ |}.

Lemma dims_nonneg : Forall (λ d, 0 ≤ d)%Z dims.
Proof. apply Forall_forall. intros d Hd%elem_of_xrange. lia. Qed.

(** A tree that was grown of the rows with the residuals predicts for a row without them
    the value of its group. *)
Lemma row_gets_its_value R t dims_ i g v :
  grown (with_residuals R) dims leaf active t → (g, v) ∈ tips t → i ∈ g →
  predictionFunction fuel (regression_tree t dims_) (row_values rows i) None = Some (Ret v).
Proof.
  intros Hg Hgv Hi. pose proof all_valid as [Hne Hall]. pose proof dims_nonneg as Hd0.
  rewrite (tree_lemma @prediction_falls); [|done|].
  2: { pose proof (rules_bound b _ _ _ Hd0 _ _ Hg Hne) as Hb. rewrite length_xrange in Hb. lia. }
  pose proof ((tree_lemma @grown_within) b (with_residuals R) 0%Z dims leaf order_excludes Hd0 active t Hg g v Hgv i Hi) as Hia.
  pose proof (proj1 (Forall_forall _ _) Hall i Hia) as Hin. cbn beta in Hin.
  rewrite (falls_same b _ _ _ Hd0 active t _ (row_values (with_residuals R) i) Hg).
  - destruct ((tree_lemma @grown_falls) b (with_residuals R) 0%Z dims leaf order_excludes Hd0 active t Hg g v Hgv) as [_ Hf].
    by rewrite (Hf i Hi).
  - intros d Hd. pose proof Hd as Hd'%elem_of_xrange. destruct (column_valid rows n d Hrows Hd') as (col & Hcol & Hcl).
    rewrite ((tree_lemma @row_values_ok) rows d i col (entry col i)) by (lia || done || by apply (entry_ok n)).
    rewrite ((tree_lemma @row_values_ok) (with_residuals R) d i col (entry col i)); [done|lia| |by apply (entry_ok n)].
    by rewrite columns_of_rows.
Qed.

Lemma groups_partition R t : grown (with_residuals R) dims leaf active t → concat (tips t).*1 ≡ₚ active.
Proof.
  intros Hg. exact ((tree_lemma @grown_partitions) b (with_residuals R) 0%Z dims leaf order_excludes dims_nonneg active t total_order Hg).
Qed.

Lemma tree_predicts R t dims_ :
  grown (with_residuals R) dims leaf active t →
  ∃ ps, RegressionTrees.predict fuel (regression_tree t dims_) rows None = Ret ps ∧ length ps = n ∧
    ∀ i g v, (g, v) ∈ tips t → i ∈ g → entry ps i = v.
Proof.
  intros Hg. pose proof (groups_partition R t Hg) as Hperm.
  set (h := λ ix, default (Raise RecursionLimit) (predictionFunction fuel (regression_tree t dims_) (row_values rows ix) None)).
  assert (Hh : ∀ i g v, (g, v) ∈ tips t → i ∈ g → h i = Ret v)
    by (intros i g v Hgv Hi; unfold h; by rewrite (row_gets_its_value R t dims_ i g v Hg Hgv Hi)).
  assert (Htip : ∀ i, i ∈ active ↔ ∃ g v, (g, v) ∈ tips t ∧ i ∈ g).
  { intros i. rewrite <- Hperm, in_concat_of. split.
    - intros (g & Hig & ([g' v] & -> & Hgv)%list_elem_of_fmap). by exists g', v.
    - intros (g & v & Hgv & Hi). exists g. split; [done|]. apply list_elem_of_fmap. by exists (g, v). }
  destruct (mapR_total h active) as [ps Hps].
  { intros i (g & v & Hgv & Hi)%Htip. exists v. by eapply Hh. }
  pose proof (mapR_len _ _ _ Hps) as Hlps. rewrite length_xrange, Nat2Z.id in Hlps. exists ps. split; [|split; [done|]].
  - unfold RegressionTrees.predict, apply. change (1 =? 0)%Z with false. change (1 =? 1)%Z with true. cbn iota.
    rewrite (numRows_ok rows n Hrows). exact Hps.
  - intros i g v Hgv Hi. assert (Hia : i ∈ active) by (apply Htip; eauto). rewrite elem_of_xrange in Hia. apply mapR_Ret in Hps.
    destruct (Forall2_lookup_l _ _ _ _ _ Hps (arange_lookup i (Z.of_nat n) Hia)) as (p & Hp & Hpv).
    unfold entry. rewrite Hp. cbn. rewrite (Hh i g v Hgv Hi) in Hpv. congruence.
Qed.

(** What the tree of a stage predicts takes away some of the error. *)
Lemma stage_shrinks R t dims_ :
  length R = n → grown (with_residuals R) dims leaf active t →
  ∃ ps, RegressionTrees.predict fuel (regression_tree t dims_) rows None = Ret ps ∧ length ps = n ∧
    total (λ i, (entry R i - entry ps i) * (entry R i - entry ps i)) active ≤ total (λ i, entry R i * entry R i) active.
Proof.
  intros HR Hg. pose proof all_valid as [Hne Hall]. pose proof dims_nonneg as Hd0.
  destruct (tree_predicts R t dims_ Hg) as (ps & Hps & Hlps & Hentry). exists ps. split; [done|]. split; [done|].
  rewrite <- !(groups_partition R t Hg). apply total_concat_le. intros g ([g' v] & -> & Hgv)%list_elem_of_fmap. cbn [fst].
  pose proof (groups_nonempty b _ _ _ Hd0 _ _ Hg Hne g' v Hgv) as Hg'.
  destruct ((tree_lemma @grown_falls) b (with_residuals R) 0%Z dims leaf order_excludes Hd0 active t Hg g' v Hgv) as [Hv _].
  rewrite leaf_returns in Hv; [injection Hv as Hv|done|split; [done|]].
  - rewrite (total_ext _ (λ i, (entry R i - v) * (entry R i - v))) by (intros i Hi; by rewrite (Hentry i g' v Hgv Hi)).
    rewrite <- Hv. by apply squares_shrink.
  - apply Forall_forall. intros i Hi. rewrite Forall_forall in Hall. apply Hall.
    by eapply ((tree_lemma @grown_within) b (with_residuals R) 0%Z dims leaf order_excludes Hd0 active t Hg g' v Hgv i).
Qed.

(** The residuals, and the predictions with the last tree's. *)
Lemma residuals_ok F : length F = n → negativeGradient two L2_loss ys F = Ret (zip_with Qcminus ys F).
Proof.
  intros HF. unfold negativeGradient, L2_negativeGradient. rewrite HF, Hys, Nat.eqb_refl. cbn [py_assert mbind res_bind].
  apply mapR_indices; [rewrite length_zip_with; lia|]. intros k Hk. rewrite !py_index_nonneg, Nat2Z.id by lia.
  rewrite lookup_zip_with. destruct (lookup_lt_is_Some_2 ys k) as [x ->]; [lia|].
  by destruct (lookup_lt_is_Some_2 F k) as [y ->]; [lia|].
Qed.

Lemma error_after F ps :
  length F = n → length ps = n →
  (let R := zip_with Qcminus ys F in
   total (λ i, (entry R i - entry ps i) * (entry R i - entry ps i)) (xrange (Z.of_nat n)) ≤
   total (λ i, entry R i * entry R i) (xrange (Z.of_nat n))) →
  squared_error ys (zip_with Qcplus F ps) ≤ squared_error ys F.
Proof.
  intros HF Hps Hle. cbn zeta in Hle. rewrite !(error_entries _ _ n) by (rewrite ?length_zip_with; lia).
  rewrite (total_ext _ (λ i, (entry (zip_with Qcminus ys F) i - entry ps i) * (entry (zip_with Qcminus ys F) i - entry ps i))).
  - etrans; [exact Hle|]. rewrite (total_ext _ (λ i, (entry ys i - entry F i) * (entry ys i - entry F i))); [apply Qcle_refl|].
    intros i Hi%elem_of_xrange. by rewrite (entry_zip Qcminus ys F n).
  - intros i Hi%elem_of_xrange. rewrite (entry_zip Qcminus ys F n), (entry_zip Qcplus F ps n) by done. ring.
Qed.

(** One stage: the model is the fitted one, and its error is not greater. *)
Notation additive_predict := (additive_predict expression applied sum_fuel fuel).
Notation next := (next inf nan half two three fora_index expression applied sum_fuel chunk_fuel fuel).
Definition fitting (f : IterativeFitter) : Prop :=
  X (model f) = rows ∧ yAsSeries (model f) = ys ∧ XDimensions (model f) = dims ∧ model_loss (model f) = L2_loss ∧
  regressionTreeBuilder (model f) = b ∧ learningRate (model f) = rate ∧
  carries expression applied sum_fuel fuel (additiveRegressionTree (model f)) rows (predictions f).

Lemma stage_improves f F :
  (0 < numColumns rows)%Z → fitting f → additive_predict (additiveRegressionTree (model f)) rows None = Ret F → length F = n →
  ∃ f' t F', next f = Ret f' ∧ fitting f' ∧
    additiveRegressionTree (model f') = additiveRegressionTree (model f) ++ [t] ∧
    additive_predict (additiveRegressionTree (model f')) rows None = Ret F' ∧ length F' = n ∧
    squared_error ys F' ≤ squared_error ys F.
Proof.
  intros Hcols (HX & Hy & Hd & Hl & Hb & Hr & Hc) HF HlF. set (R := zip_with Qcminus ys F).
  assert (HR : length R = n) by (unfold R; rewrite length_zip_with; lia).
  pose proof (with_residuals_rectangular R HR) as Hrect.
  assert (Hnc : numColumns (with_residuals R) = (numColumns rows + 1)%Z)
    by (unfold numColumns; cbn [columns with_residuals]; rewrite length_app; cbn; lia).
  destruct (fit_returns b (with_residuals R) n (numColumns rows) dims (L2_leafValue expression applied sum_fuel rate))
    with (fuel0 := fuel) (maxDepth := builder_maxDepth b) (active := xrange (Z.of_nat n)) as (t & Hfit & Hg).
  all: try done; try lia.
  { apply Forall_forall. intros d Hd'%elem_of_xrange. lia. }
  { intros Hx. apply (f_equal length) in Hx. rewrite length_xrange in Hx. cbn in Hx. lia. }
  { intros l Hl'. eexists. by apply leaf_returns. }
  { apply all_valid. }
  { rewrite length_xrange. lia. }
  { rewrite length_xrange. lia. }
  destruct (stage_shrinks R t (Some (length dims)) HR Hg) as (ps & Hps & Hlps & Hle).
  set (nextTree := {| rules := flatten_tree t; numDimensions := Some (length dims) |}) in *.
  pose proof ((boost_lemma @residuals_from_scratch) (model f) (predictions f)) as Hscratch. rewrite HX in Hscratch. specialize (Hscratch Hc).
  unfold next. rewrite Hscratch. unfold pseudoResidualsAndPredictions, model_predict. rewrite HX, HF. cbn [mbind res_bind].
  rewrite Hl, Hy, (residuals_ok F HlF). cbn [mbind res_bind]. unfold boost. rewrite HX, addColumn_ok, Hl. cbn [needsPredictedValues mbind res_bind leafValueFun].
  unfold RegressionTrees.fit_. cbn [from_option id]. rewrite Hd, Hb, Hr. fold R. rewrite (numRows_ok (with_residuals R) n Hrect). rewrite Hfit.
  cbn [mbind res_bind]. eexists _, nextTree, (zip_with Qcplus F ps). split; [reflexivity|]. cbn [model predictions additiveRegressionTree].
  assert (HF' : additive_predict (additiveRegressionTree (model f) ++ [nextTree]) rows None = Ret (zip_with Qcplus F ps)).
  { rewrite <- ((boost_lemma @last_tree_adds) _ nextTree rows F HF). unfold with_last_tree.
    rewrite py_index_negative by (rewrite length_app; cbn; lia).
    replace (Z.of_nat (length (additiveRegressionTree (model f) ++ [nextTree])) + -1)%Z
      with (Z.of_nat (length (additiveRegressionTree (model f)))) by (rewrite length_app; cbn; lia).
    rewrite py_index_middle. cbn [mbind res_bind]. rewrite Hps. cbn [mbind res_bind]. rewrite series_add_zips.
    by rewrite HlF, Hlps, Nat.eqb_refl. }
  split; [|split; [done|]; split; [exact HF'|]; split; [rewrite length_zip_with; lia|by apply error_after]].
  unfold fitting. cbn [model X yAsSeries XDimensions model_loss regressionTreeBuilder learningRate predictions additiveRegressionTree].
  do 6 (split; [done|]). by exists (additiveRegressionTree (model f)), nextTree.
Qed.

(** The first trees' predictions, after each stage: errors do not increase. *)
Record history (f : IterativeFitter) (Fs : list (list Qc)) : Prop := {
  hi_fitting : fitting f;
  hi_length : length Fs = length (additiveRegressionTree (model f));
  hi_some : (0 < length Fs)%nat;
  hi_predicts j F : Fs !! j = Some F →
    additive_predict (take (S j) (additiveRegressionTree (model f))) rows None = Ret F ∧ length F = n;
  hi_falls j k F F' : (j ≤ k)%nat → Fs !! j = Some F → Fs !! k = Some F' → squared_error ys F' ≤ squared_error ys F }.

Lemma stages_improve k : ∀ f Fs,
  (0 < numColumns rows)%Z → history f Fs →
  ∃ f' Fs', boost_times inf nan half two three fora_index expression applied sum_fuel chunk_fuel fuel k f = Ret f' ∧
    history f' (Fs ++ Fs') ∧ length Fs' = k.
Proof.
  induction k as [|k IH]; intros f Fs Hcols Hh; cbn [boost_times].
  { exists f, []. split; [done|]. by rewrite app_nil_r. }
  destruct Hh as [Hf Hlen Hsome Hpred Hfalls]. destruct (lookup_lt_is_Some_2 Fs (pred (length Fs))) as [F HF]; [lia|].
  destruct (Hpred _ _ HF) as [HFp HFl]. rewrite take_ge in HFp by lia.
  destruct (stage_improves f F Hcols Hf HFp HFl) as (f' & t & F' & Hnext & Hf' & Ht & HF' & HFl' & Hle).
  assert (Hlast : ∀ j G', (Fs ++ [F']) !! j = Some G' → Fs !! j = Some G' ∨ j = length Fs ∧ G' = F').
  { intros j G' [Hj|[Hj HG]]%lookup_app_Some; [by left|]. apply list_lookup_singleton_Some in HG as [? <-]. right. split; [lia|done]. }
  destruct (IH f' (Fs ++ [F']) Hcols) as (f2 & Fs2 & Hrun & Hh2 & Hl2).
  - split; [done|rewrite Ht, !length_app; cbn; lia|rewrite length_app; lia| |].
    + intros j G' [Hj|[-> ->]]%Hlast.
      * rewrite Ht, take_app_le by (apply lookup_lt_Some in Hj; lia). by apply Hpred.
      * rewrite take_ge by (rewrite Ht, length_app; cbn; lia). done.
    + intros j i G1 G2 Hji [Hj|[-> ->]]%Hlast [Hi|[-> ->]]%Hlast.
      * by eapply Hfalls.
      * etrans; [exact Hle|]. eapply (Hfalls j (pred (length Fs))); [apply lookup_lt_Some in Hj; lia|done..].
      * apply lookup_lt_Some in Hi. lia.
      * apply Qcle_refl.
  - exists f2, (F' :: Fs2). rewrite Hnext. cbn [mbind res_bind]. split; [done|]. rewrite <- app_assoc in Hh2. cbn [app] in Hh2.
    split; [done|cbn; lia].
Qed.

Lemma mean_ok : Mean expression applied sum_fuel ys = Ret (total id ys / nat_Qc n).
Proof.
  unfold Mean. rational. rewrite sum_rationals. cbn [mbind res_bind]. rewrite Hys. change (of_int (Z.of_nat n)) with (nat_Qc n).
  rewrite div_rational by (by apply nat_nonzero). change (of_int 0) with 0. by rewrite Qcplus_0_l.
Qed.

Lemma one_leaf_predicts v : additive_predict (one_leaf v) rows None = Ret (replicate n v).
Proof.
  assert (Hfu : (0 < fuel)%nat) by lia. unfold RegressionTrees.additive_predict, apply. change (1 =? 0)%Z with false.
  change (1 =? 1)%Z with true. cbn iota. rewrite (numRows_ok rows n Hrows).
  apply mapR_indices; [by rewrite length_replicate|]. intros k Hk. rewrite lookup_replicate_2 by done. cbn [iloc mbind res_bind of_option].
  unfold RegressionTrees.additive_prediction. cbn [from_option id]. rewrite slice_to_end. cbn [mbind res_bind one_leaf mapR].
  assert (Hp : ∀ row, predictionFunction fuel {| rules := [RegressionLeafRule v]; numDimensions := None |} row None = Some (Ret v))
    by (intros row; by apply ((tree_lemma @prediction_falls) (Tip [] v))).
  rewrite Hp. cbn [from_option id mbind res_bind]. rational. rewrite sum_rationals. cbn [total]. unfold id. change (of_int 0) with 0. f_equal. ring.
Qed.

(** A share of errors, the first of which is not greater. *)
Lemma score_between F F0 :
  squared_error ys F ≤ squared_error ys F0 → squared_error ys F0 ≠ 0 →
  0 ≤ 1 - squared_error ys F / squared_error ys F0 ∧ 1 - squared_error ys F / squared_error ys F0 ≤ 1.
Proof.
  intros Hle Hv. set (v := squared_error ys F0) in *.
  assert (Hv0 : 0 ≤ v) by (apply total_of_nonneg; intros; apply square_nonneg).
  assert (He0 : 0 ≤ squared_error ys F) by (apply total_of_nonneg; intros; apply square_nonneg).
  apply Qcle_lt_or_eq in Hv0 as [Hv0|Hv0]; [|by symmetry in Hv0].
  assert (Heq : (1 - squared_error ys F / v) * v = v - squared_error ys F) by (field; done).
  split; apply (Qcmult_lt_0_le_reg_r _ _ _ Hv0); rewrite Heq.
  - replace (0 * v) with 0 by ring. by apply Qcle_minus_iff in Hle.
  - replace (1 * v) with v by ring. by apply minus_nonneg.
Qed.

(** The score of predictions that are not worse than the mean. *)
Lemma score_ok F :
  length F = n →
  let v := squared_error ys (replicate n (total id ys / nat_Qc n)) in
  score_of two expression applied sum_fuel ys F (Z.of_nat n) =
    if bool_decide (v = 0) then Raise ZeroDivisionError else Ret (1 - squared_error ys F / v).
Proof.
  intros HF v. assert (Hsq : ∀ P, length P = n →
    mapR (λ ix, a ← py_index ys ix; c ← py_index P ix; pow (sub a c) two) (xrange (Z.of_nat n)) =
      Ret ((λ i, (entry ys i - entry P i) * (entry ys i - entry P i)) <$> xrange (Z.of_nat n))).
  { intros P HP. apply mapR_Forall2, Forall2_fmap_r, Forall_Forall2_diag, Forall_forall. intros i Hi%elem_of_xrange.
    rewrite (entry_ok n ys), (entry_ok n P) by done. cbn [mbind res_bind]. rational. by rewrite Hsquare. }
  unfold score_of. rewrite (Hsq F HF). cbn [mbind res_bind]. rational. rewrite !sum_rationals. cbn [mbind res_bind].
  change (of_int (Z.of_nat n)) with (nat_Qc n). rewrite div_rational by (by apply nat_nonzero). cbn [mbind res_bind].
  change (of_int 0) with 0. rewrite !Qcplus_0_l. set (mn := total id ys / nat_Qc n) in *.
  assert (Hmean : mapR (λ ix, a ← py_index ys ix; power (a - mn) two) (xrange (Z.of_nat n)) =
    Ret ((λ i, (entry ys i - entry (replicate n mn) i) * (entry ys i - entry (replicate n mn) i)) <$> xrange (Z.of_nat n))).
  { apply mapR_Forall2, Forall2_fmap_r, Forall_Forall2_diag, Forall_forall. intros i Hi%elem_of_xrange.
    rewrite (entry_ok n ys) by done. cbn [mbind res_bind]. rewrite Hsquare. unfold compose. cbn beta.
    assert (entry (replicate n mn) i = mn) as -> by (unfold entry; by rewrite lookup_replicate_2 by lia). done. }
  rewrite Hmean. cbn [mbind res_bind]. rewrite sum_rationals. cbn [mbind res_bind]. rewrite !total_fmap, Qcplus_0_l. unfold id.
  rewrite <- (error_entries ys F n), <- (error_entries ys (replicate n mn) n) by (done || by rewrite length_replicate).
  fold v. cbn [div numbers rational]. by case_bool_decide.
Qed.
End stage.

(** C16. In exact arithmetic the regressor with least squares always returns a model: of a
    frame of [n > 0] rows without a column of the name of the residuals, for responses of
    as many values, every depth and number of stages, at least one bucket, and a learning
    rate between 0 and 2, with a stack of [2 * n] calls. The model has a tree more than
    there were stages. Its first tree predicts the mean of the responses, and no later tree
    makes the sum of the squared errors on the fitted rows greater. So the score on these
    rows is between 0 and 1, unless all responses are equal, when it raises
    [ZeroDivisionError]. *)
Theorem training_error_never_grows (bld : GradientBoostedRegressorBuilder) (rows y : DataFrame Qc) n ys :
  rectangular rows n → (0 < n)%nat → existsb (String.eqb "__pseudoResiduals") (columnNames rows) = false →
  column y 0 = Ret ys → length ys = n →
  gb_loss bld = L2_loss → 0 ≤ gb_learningRate bld → gb_learningRate bld ≤ 1 + 1 →
  (0 < args_numBuckets (treeBuilderArgs bld))%Z → (n < chunk_fuel)%nat → (2 * n ≤ fuel)%nat →
  let mean := total id ys / nat_Qc n in
  ∃ m Fs,
    regressor_fit inf nan half two three fora_index expression applied sum_fuel chunk_fuel fuel bld rows y = Ret m ∧
    length (additiveRegressionTree m) = S (Z.to_nat (nBoostingIterations bld)) ∧
    length Fs = S (Z.to_nat (nBoostingIterations bld)) ∧ Fs !! 0%nat = Some (replicate n mean) ∧
    (∀ k F, Fs !! k = Some F →
       model_predict expression applied sum_fuel fuel m rows (Some (Z.of_nat (S k))) = Ret F ∧ length F = n) ∧
    (∀ j k F F', (j ≤ k)%nat → Fs !! j = Some F → Fs !! k = Some F' → squared_error ys F' ≤ squared_error ys F) ∧
    match model_score two expression applied sum_fuel fuel m rows (inl y) with
    | Ret s => 0 ≤ s ∧ s ≤ 1 ∧ squared_error ys (replicate n mean) ≠ 0
    | Raise e => e = ZeroDivisionError ∧ squared_error ys (replicate n mean) = 0
    end.
Proof using All.
  intros Hrows Hn Hname Hy Hys Hloss Hr0 Hr2 Hbk Hchunk Hf2 mean.
  assert (Hcols : (0 < numColumns rows)%Z) by (destruct Hrows as [Hc _]; unfold numColumns; destruct (columns rows); cbn; [done|lia]).
  set (b := baseModelBuilder (treeBuilderArgs bld)).
  assert (Hth : (2 ≤ minSplitThresh b)%Z) by (cbn; lia).
  set (m0 := {| additiveRegressionTree := one_leaf mean; X := rows; XDimensions := xrange (numColumns rows); yAsSeries := ys;
                model_loss := L2_loss; regressionTreeBuilder := b; learningRate := gb_learningRate bld |}).
  pose proof (one_leaf_predicts rows n ys (gb_learningRate bld) b Hrows Hn Hys Hname Hr0 Hr2 Hth Hbk Hchunk Hf2 mean) as Hone.
  assert (Hh : history rows n ys (gb_learningRate bld) b {| model := m0; predictions := None |} [replicate n mean]).
  { split; [by unfold fitting|done|cbn; lia| |].
    - intros [|j] F; [|done]. intros [= <-]. cbn [model m0 additiveRegressionTree one_leaf take]. split; [exact Hone|apply length_replicate].
    - intros [|j] [|k] F F'; [|done..]. intros _ [= <-] [= <-]. apply Qcle_refl. }
  destruct (stages_improve rows n ys (gb_learningRate bld) b Hrows Hn Hys Hname Hr0 Hr2 Hth Hbk Hchunk Hf2
    (Z.to_nat (nBoostingIterations bld)) _ _ Hcols Hh) as (f & Fs & Hrun & [Hfit Hlen Hsome Hpred Hfalls] & HFs).
  cbn [app length] in *.
  exists (model f), (replicate n mean :: Fs). split; [|split; [by rewrite <- Hlen, HFs|split; [cbn; by rewrite HFs|split; [done|split; [|split; [exact Hfalls|]]]]]].
  - unfold regressor_fit, iterativeFitter. rewrite Hy. cbn [mbind res_bind]. unfold getInitialModel. rewrite Hloss. cbn [initialModel needsOriginalYValues]. unfold L2_initialModel.
    rewrite (mean_ok rows n ys (gb_learningRate bld) b Hrows Hn Hys Hname Hr0 Hr2 Hth Hbk Hchunk Hf2). cbn [mbind res_bind].
    fold mean b m0. by rewrite Hrun.
  - intros k F HF. destruct (Hpred k F HF) as [HFp HFl]. split; [|done].
    assert (Hk : (S k ≤ length (additiveRegressionTree (model f)))%nat) by (apply lookup_lt_Some in HF; cbn [length] in HF; lia).
    rewrite <- HFp. unfold model_predict, RegressionTrees.additive_predict, RegressionTrees.additive_prediction, apply.
    change (1 =? 0)%Z with false. change (1 =? 1)%Z with true. cbn iota. apply mapR_same. intros ix. cbn [iloc mbind res_bind from_option id].
    by rewrite slice_to, slice_to_end.
  - destruct (lookup_lt_is_Some_2 (replicate n mean :: Fs) (length Fs)) as [F HF]; [cbn; lia|].
    destruct (Hpred _ _ HF) as [HFp HFl]. rewrite take_ge in HFp by lia.
    pose proof (Hfalls 0%nat (length Fs) _ F ltac:(lia) eq_refl HF) as Hle.
    assert (Hyn : numRows y = Z.of_nat n).
    { rewrite (tree_lemma @column_ok), py_index_nonneg in Hy by lia. unfold numRows. destruct (columns y) as [|c l]; [done|].
      cbn in Hy. injection Hy as ->. by rewrite Hys. }
    unfold model_score, additive_score. rewrite Hyn, (numRows_ok rows n Hrows), Z.eqb_refl, Hy. cbn [py_assert mbind res_bind].
    rewrite HFp. cbn [mbind res_bind].
    rewrite (score_ok rows n ys (gb_learningRate bld) b Hrows Hn Hys Hname Hr0 Hr2 Hth Hbk Hchunk Hf2 F HFl). fold mean.
    case_bool_decide as Hv; [done|]. pose proof (score_between rows n ys (gb_learningRate bld) b Hrows Hn Hys Hname Hr0 Hr2 Hth Hbk Hchunk Hf2 F _ Hle Hv) as [? ?]. done.
Qed.
End exact_boosting.

(** ** A sample: the square root is rounded down *)

Module ErrorSamples.

Definition sqrt (x : Qc) : Qc := Q2Qc (Z.sqrt (Qnum x * 1000000 / QDen x) # 1000).
Definition power (x y : Qc) : res Qc := if bool_decide (y = Q2Qc (1 # 2)) then Ret (sqrt x) else Ret (x * x).
Definition floor (x : Qc) : Z := Qfloor x.

#[local] Instance lists (B : Type) : Generator (list B) B := {|
  iter l := l; canSplit _ := false; split _ := None; isNestedGenerator _ := false; childGenerators _ := [] |}.
#[local] Instance lists_laws (B : Type) : GeneratorLaws (list B) B.
Proof. by exists (λ _, 0%nat). Defined.

Definition ints (l : list Z) : list Qc := (λ z, Q2Qc (inject_Z z)) <$> l.
Definition rows : DataFrame Qc := {| columnNames := ["x"]%string; columns := [ints [1; 2; 3; 30; 31; 32]%Z] |}.
Definition y : DataFrame Qc := {| columnNames := ["y"]%string; columns := [ints [5; 5; 6; 70; 70; 73]%Z] |}.
Definition builder (rate : Qc) : GradientBoostedRegressorBuilder :=
  {| gb_loss := L2_loss; nBoostingIterations := 2; gb_learningRate := rate;
     treeBuilderArgs := {| args_minSamplesSplit := 2; args_maxDepth := 1; args_numBuckets := 20 |} |}.

Definition inf : Qc := Q2Qc (inject_Z 1000000000).
Notation fit rate :=
  (regressor_fit (H := rational power) inf 0 (Q2Qc (1 # 2)) (Q2Qc (inject_Z 2)) (Q2Qc (inject_Z 3)) floor (G := list)
     (λ B l, l) (λ B x, Ret x) 12 20 20 (builder rate) rows y).
Notation score m := (model_score (H := rational power) (Q2Qc (inject_Z 2)) (G := list) (λ B l, l) (λ B x, Ret x) 12 20 m rows (inl y)).

Lemma floor_between (x : Qc) n : 0 ≤ x → x ≤ Q2Qc (inject_Z n) → (0 ≤ floor x ≤ n)%Z.
Proof.
  intros H0 Hn. unfold floor. split.
  - change 0%Z with (Qfloor (inject_Z 0)). by apply Qfloor_resp_le.
  - rewrite <- (Qfloor_Z n). apply Qfloor_resp_le. unfold Qcle in Hn. cbn [this Q2Qc] in Hn. by rewrite Qred_correct in Hn.
Qed.

Lemma training_error_never_grows_witness :
  match m ← fit (Q2Qc (1 # 2)); score m with Ret s => this s = (582135 # 621584)%Q | Raise _ => False end ∧
  ∃ m, fit (Q2Qc (1 # 2)) = Ret m ∧ length (additiveRegressionTree m) = 3%nat.
Proof.
  split; [vm_compute; reflexivity|].
  destruct (training_error_never_grows power inf 0 floor) with (H := lists) (H0 := lists_laws) (expression := λ B (l : list B), l)
    (applied := λ B (x : B), Ret x) (sum_fuel := 12%nat) (chunk_fuel := 20%nat) (fuel := 20%nat) (bld := builder (Q2Qc (1 # 2)))
    (rows := rows) (y := y) (n := 6%nat) (ys := ints [5; 5; 6; 70; 70; 73]%Z) as (m & Fs & Hm & Hl & _).
  - intros x _. exists (sqrt x). reflexivity.
  - intros x. reflexivity.
  - apply floor_between.
  - reflexivity.
  - intros B g c. discriminate.
  - intros B l. cbn. lia.
  - split; [discriminate|]. repeat constructor.
  - lia.
  - reflexivity.
  - reflexivity.
  - reflexivity.
  - reflexivity.
  - discriminate.
  - discriminate.
  - reflexivity.
  - lia.
  - lia.
  - exists m. split; [exact Hm|exact Hl].
Defined.
End ErrorSamples.
Close Scope Qc_scope.
