(* ===== verification/ComputedValueGateway.v ===== *)
(** * The gateway between computed values and the cluster
      ([BackendGateway/ComputedValue/ComputedValueGateway.py],
      [cumulus/distributed/CumulusGateway.py], [ComputedGraph/BackgroundUpdateQueue.py])

    Computed values ask for their computations and slices of vectors for their
    data. The gateway counts the requests, sets the priorities of computations
    in the cluster, and queues the updates that put results into the computed
    values. The cluster's client and the vector data manager are native code: the
    calls of the client are recorded, and what the manager has loaded is an input.

    An operation that holds the gateway's lock is one step. [increaseVectorRequestCount]
    counts the pages of a slice after it let go of the lock: its steps, the flag and one
    for each page, are operations of a history too. That the count of one page is changed
    in one step is assumed. *)
From Stdlib Require Import Lia.
From stdpp Require Import base gmap sets list fin_maps.
From S2P Require Import Prelude.
Set Default Proof Using "Type".

Lemma bool_decide_cons {A} `{EqDecision A} (x y : A) l :
  bool_decide (x ∈ y :: l) = bool_decide (y = x) || bool_decide (x ∈ l).
Proof.
  rewrite <- bool_decide_or. apply bool_decide_ext. set_solver.
Qed.

Section gateway.
(** Definitions of computations, their ids, computed values, slices of vectors, ids of
    pages, results with their statistics, checkpoints, tasks and their callbacks. *)
Context {Defn CompId CV Slice VDID Guid : Type} {Result Stats Checkpoint Callback TaskResult : Type}.
Context `{Countable Defn, Countable CompId, Countable CV, Countable Slice, Countable VDID, Countable Guid}.

(** Native code: the id of a definition; whether the manager [V] has loaded a slice or a
    page, and the pages it has dropped since it was last asked; the pages of a slice. *)
Context {V : Type} (createComputation : Defn → CompId).
Context (vectorDataIsLoaded : V → Slice → bool) (vectorDataIdIsLoaded : V → VDID → bool).
Context (extractDropped : V → list VDID * V) (vectorDataIds : Slice → list VDID).
(** [computedValue.cumulusComputationDefinition]. *)
Context (cumulusComputationDefinition : CV → Defn).

(** ** Data *)

(** [ComputationPriority()] is [None]. *)
Definition priority : Type := option Z.

(** The calls of the cluster's client and of the graph of dependencies. *)
Inductive client_call :=
| CreateComputation (definition : Defn)
| SetComputationPriority (computation : CompId) (p : priority)
| MarkNonrootComputation (computation : CompId)
| MarkRootComputation (computation : CompId)
| ResetComputationState
| RequestVectorLoad (vdid : VDID).

Record Cpus := {
  computation : CompId;
  cpusAssignedDirectly : Z;
  cpusAssignedToChildren : Z;
  cacheloadsAssignedDirectly : Z;
  cacheloadsAssignedToChildren : Z;
  checkpoint : Checkpoint;
  rootComputationDependencies : list CompId }.

(** The functions in the queue. *)
Inductive update :=
| SetValue (cv : CV) (result : option (Result * Stats))
| SetCpuCounts (cv : CV) (cpus : Cpus) (rootComputedValueDependencies : list CV)
| SetLoaded (s : Slice) (newIsLoadedVal : bool)
| RunCallback (callback : Callback) (result : TaskResult).

(** What a computed value shows. *)
Record view := {
  result : option (Result * Stats);
  workerCount : Z;
  workerCountForDependentComputations : Z;
  cacheloadCount : Z;
  cacheloadCountForDependentComputations : Z;
  checkpointStatus : option Checkpoint;
  rootComputedValueDependencies : list CV }.
Definition blank : view :=
  {| result := None; workerCount := 0; workerCountForDependentComputations := 0;
     cacheloadCount := 0; cacheloadCountForDependentComputations := 0;
     checkpointStatus := None; rootComputedValueDependencies := [] |}.

Record state := {
  definitionToIdMap_ : gmap Defn CompId;
  idToDefinitionMap_ : gmap CompId Defn;
  calls : list client_call;
  vdm : V;
  refcountsForCompIds_ : gmap CompId Z;
  computedValuesForComputations : gmap CompId (gset CV);
  finishedResultsForComputations : gmap CompId (Result * Stats);
  curPriorityIndex : Z;
  vectorDataIDRequestCount_ : gmap VDID Z;
  vectorDataIDToVectorSlices_ : gmap VDID (gset Slice);
  externalIoTaskCallbacks_ : gmap Guid Callback;
  queue : list update;
  (** What the rest of the program sees. *)
  views : gmap CV view;
  isLoaded : gmap Slice bool;
  callbacksRun : list (Callback * TaskResult) }.

Definition init (v : V) : state :=
  {| definitionToIdMap_ := ∅; idToDefinitionMap_ := ∅; calls := []; vdm := v;
     refcountsForCompIds_ := ∅; computedValuesForComputations := ∅;
     finishedResultsForComputations := ∅; curPriorityIndex := 0;
     vectorDataIDRequestCount_ := ∅; vectorDataIDToVectorSlices_ := ∅;
     externalIoTaskCallbacks_ := ∅; queue := []; views := ∅; isLoaded := ∅; callbacksRun := [] |}.

(** One setter per group of fields. *)
Definition with_definitions d i s :=
  {| definitionToIdMap_ := d; idToDefinitionMap_ := i; calls := calls s; vdm := vdm s;
     refcountsForCompIds_ := refcountsForCompIds_ s;
     computedValuesForComputations := computedValuesForComputations s;
     finishedResultsForComputations := finishedResultsForComputations s;
     curPriorityIndex := curPriorityIndex s;
     vectorDataIDRequestCount_ := vectorDataIDRequestCount_ s;
     vectorDataIDToVectorSlices_ := vectorDataIDToVectorSlices_ s;
     externalIoTaskCallbacks_ := externalIoTaskCallbacks_ s; queue := queue s;
     views := views s; isLoaded := isLoaded s; callbacksRun := callbacksRun s |}.
Definition with_client cs v s :=
  {| definitionToIdMap_ := definitionToIdMap_ s; idToDefinitionMap_ := idToDefinitionMap_ s;
     calls := cs; vdm := v;
     refcountsForCompIds_ := refcountsForCompIds_ s;
     computedValuesForComputations := computedValuesForComputations s;
     finishedResultsForComputations := finishedResultsForComputations s;
     curPriorityIndex := curPriorityIndex s;
     vectorDataIDRequestCount_ := vectorDataIDRequestCount_ s;
     vectorDataIDToVectorSlices_ := vectorDataIDToVectorSlices_ s;
     externalIoTaskCallbacks_ := externalIoTaskCallbacks_ s; queue := queue s;
     views := views s; isLoaded := isLoaded s; callbacksRun := callbacksRun s |}.
Definition with_computations r c f p s :=
  {| definitionToIdMap_ := definitionToIdMap_ s; idToDefinitionMap_ := idToDefinitionMap_ s;
     calls := calls s; vdm := vdm s;
     refcountsForCompIds_ := r; computedValuesForComputations := c;
     finishedResultsForComputations := f; curPriorityIndex := p;
     vectorDataIDRequestCount_ := vectorDataIDRequestCount_ s;
     vectorDataIDToVectorSlices_ := vectorDataIDToVectorSlices_ s;
     externalIoTaskCallbacks_ := externalIoTaskCallbacks_ s; queue := queue s;
     views := views s; isLoaded := isLoaded s; callbacksRun := callbacksRun s |}.
Definition with_vectors c l s :=
  {| definitionToIdMap_ := definitionToIdMap_ s; idToDefinitionMap_ := idToDefinitionMap_ s;
     calls := calls s; vdm := vdm s;
     refcountsForCompIds_ := refcountsForCompIds_ s;
     computedValuesForComputations := computedValuesForComputations s;
     finishedResultsForComputations := finishedResultsForComputations s;
     curPriorityIndex := curPriorityIndex s;
     vectorDataIDRequestCount_ := c; vectorDataIDToVectorSlices_ := l;
     externalIoTaskCallbacks_ := externalIoTaskCallbacks_ s; queue := queue s;
     views := views s; isLoaded := isLoaded s; callbacksRun := callbacksRun s |}.
Definition with_tasks t s :=
  {| definitionToIdMap_ := definitionToIdMap_ s; idToDefinitionMap_ := idToDefinitionMap_ s;
     calls := calls s; vdm := vdm s;
     refcountsForCompIds_ := refcountsForCompIds_ s;
     computedValuesForComputations := computedValuesForComputations s;
     finishedResultsForComputations := finishedResultsForComputations s;
     curPriorityIndex := curPriorityIndex s;
     vectorDataIDRequestCount_ := vectorDataIDRequestCount_ s;
     vectorDataIDToVectorSlices_ := vectorDataIDToVectorSlices_ s;
     externalIoTaskCallbacks_ := t; queue := queue s;
     views := views s; isLoaded := isLoaded s; callbacksRun := callbacksRun s |}.
Definition with_updates q vs l c s :=
  {| definitionToIdMap_ := definitionToIdMap_ s; idToDefinitionMap_ := idToDefinitionMap_ s;
     calls := calls s; vdm := vdm s;
     refcountsForCompIds_ := refcountsForCompIds_ s;
     computedValuesForComputations := computedValuesForComputations s;
     finishedResultsForComputations := finishedResultsForComputations s;
     curPriorityIndex := curPriorityIndex s;
     vectorDataIDRequestCount_ := vectorDataIDRequestCount_ s;
     vectorDataIDToVectorSlices_ := vectorDataIDToVectorSlices_ s;
     externalIoTaskCallbacks_ := externalIoTaskCallbacks_ s; queue := q;
     views := vs; isLoaded := l; callbacksRun := c |}.

Notation GM := (M state).

(** ** The queue of updates *)

Definition push (u : update) : GM unit :=
  modify (λ s, with_updates (queue s ++ [u]) (views s) (isLoaded s) (callbacksRun s) s).

Definition view_of (s : state) (cv : CV) : view := default blank (views s !! cv).

(** What running one of them does. *)
Definition run_update (u : update) (s : state) : state :=
  match u with
  | SetValue cv r =>
      let w := view_of s cv in
      let w := {| result := r; workerCount := 0; workerCountForDependentComputations := 0;
                  cacheloadCount := 0; cacheloadCountForDependentComputations := 0;
                  checkpointStatus := checkpointStatus w;
                  rootComputedValueDependencies := rootComputedValueDependencies w |} in
      with_updates (queue s) (<[cv := w]> (views s)) (isLoaded s) (callbacksRun s) s
  | SetCpuCounts cv cpus deps =>
      let w := {| result := result (view_of s cv);
                  workerCount := cpusAssignedDirectly cpus;
                  workerCountForDependentComputations := cpusAssignedToChildren cpus;
                  cacheloadCount := cacheloadsAssignedDirectly cpus;
                  cacheloadCountForDependentComputations := cacheloadsAssignedToChildren cpus;
                  checkpointStatus := Some (checkpoint cpus);
                  rootComputedValueDependencies := deps |} in
      with_updates (queue s) (<[cv := w]> (views s)) (isLoaded s) (callbacksRun s) s
  | SetLoaded x b =>
      with_updates (queue s) (views s) (<[x := b]> (isLoaded s)) (callbacksRun s) s
  | RunCallback c r =>
      with_updates (queue s) (views s) (isLoaded s) (callbacksRun s ++ [(c, r)]) s
  end.

(** [pullAll], and [pullOne] when there is an update. *)
Definition dequeue (s : state) : state :=
  with_updates (tail (queue s)) (views s) (isLoaded s) (callbacksRun s) s.
Definition pullOne : GM bool :=
  s ← get;
  match queue s with
  | [] => mret false
  | u :: _ => modify dequeue ;; modify (run_update u) ;; mret true
  end.
Definition pullAll : GM unit :=
  s ← get;
  forM_ (λ u, modify dequeue ;; modify (run_update u)) (queue s).

(** ** CumulusGateway *)

Definition call_client (c : client_call) : GM unit :=
  modify (λ s, with_client (calls s ++ [c]) (vdm s) s).

Definition requestCacheItem (vdid : VDID) : GM unit := call_client (RequestVectorLoad vdid).
Definition resetStateCompletely : GM unit := call_client ResetComputationState.

Definition setComputationPriority (id : CompId) (p : priority) : GM unit :=
  call_client (SetComputationPriority id p) ;;
  if bool_decide (p = None) then call_client (MarkNonrootComputation id)
  else call_client (MarkRootComputation id).
Definition deprioritizeComputation (id : CompId) : GM unit := setComputationPriority id None.

Definition remember (definition : Defn) (compId : CompId) : GM unit :=
  modify (λ s, with_definitions (<[definition := compId]> (definitionToIdMap_ s))
                                (<[compId := definition]> (idToDefinitionMap_ s)) s).

Definition getNewComputationIdForDefinition (definition : Defn) : GM (option CompId * CompId) :=
  s ← get;
  let oldId := definitionToIdMap_ s !! definition in
  call_client (CreateComputation definition) ;;
  let compId := createComputation definition in
  remember definition compId ;;
  mret (oldId, compId).

Definition getComputationIdForDefinition (definition : Defn) : GM CompId :=
  s ← get;
  match definitionToIdMap_ s !! definition with
  | Some compId => mret compId
  | None =>
      call_client (CreateComputation definition) ;;
      remember definition (createComputation definition) ;;
      mret (createComputation definition)
  end.

Definition requestComputation (definition : Defn) : GM CompId :=
  '(_, id) ← getNewComputationIdForDefinition definition;
  setComputationPriority id (Some 1%Z) ;;
  mret id.

(** ** CacheLoader *)

Definition markLoaded (x : Slice) (b : bool) : GM unit :=
  modify (λ s, with_updates (queue s) (views s) (<[x := b]> (isLoaded s)) (callbacksRun s) s).

Definition setVectorLoadFlag_ (x : Slice) : GM unit :=
  s ← get; markLoaded x (vectorDataIsLoaded (vdm s) x).

Definition collectOffloadedVectors_ : GM unit :=
  s ← get;
  let '(offloaded, v) := extractDropped (vdm s) in
  modify (λ s, with_client (calls s) v s) ;;
  forM_ (λ vdid,
    match vectorDataIDToVectorSlices_ s !! vdid with
    | Some cgLocations => forM_ (λ x, push (SetLoaded x false)) (base.elements cgLocations)
    | None => mret tt
    end) offloaded.

Definition onCacheLoad (vdid : VDID) : GM unit :=
  s ← get;
  let cgLocations := default ∅ (vectorDataIDToVectorSlices_ s !! vdid) in
  collectOffloadedVectors_ ;;
  forM_ (λ x, s ← get; push (SetLoaded x (vectorDataIsLoaded (vdm s) x))) (base.elements cgLocations).

Definition increaseVectorDataIdRequestCount_ (x : Slice) (vdid : VDID) : GM unit :=
  modify (λ s, with_vectors (vectorDataIDRequestCount_ s)
    (<[vdid := {[ x ]} ∪ default ∅ (vectorDataIDToVectorSlices_ s !! vdid)]>
       (vectorDataIDToVectorSlices_ s)) s) ;;
  s ← get;
  match vectorDataIDRequestCount_ s !! vdid with
  | Some n =>
      modify (λ s, with_vectors (<[vdid := (n + 1)%Z]> (vectorDataIDRequestCount_ s))
                                (vectorDataIDToVectorSlices_ s) s)
  | None =>
      modify (λ s, with_vectors (<[vdid := 1%Z]> (vectorDataIDRequestCount_ s))
                                (vectorDataIDToVectorSlices_ s) s) ;;
      when (negb (vectorDataIdIsLoaded (vdm s) vdid)) (requestCacheItem vdid)
  end.

(** [reloadVector] and [increaseVectorRequestCount] differ in how long they hold the lock: the
    second lets go of it before the pages, so the histories below have its steps as well. *)
Definition increaseVectorRequestCount (x : Slice) : GM unit :=
  setVectorLoadFlag_ x ;;
  forM_ (increaseVectorDataIdRequestCount_ x) (vectorDataIds x).
Definition reloadVector (x : Slice) : GM unit := increaseVectorRequestCount x.

Definition decreaseVectorDataIdRequestCount_ (x : Slice) (vdid : VDID) : GM unit :=
  s ← get;
  match vectorDataIDRequestCount_ s !! vdid with
  | None => raise AssertionError
  | Some n =>
      if bool_decide (n - 1 = 0)%Z then
        modify (λ s, with_vectors (delete vdid (vectorDataIDRequestCount_ s))
                                  (vectorDataIDToVectorSlices_ s) s) ;;
        match vectorDataIDToVectorSlices_ s !! vdid with
        | None => raise KeyError
        | Some xs =>
            let xs := xs ∖ {[ x ]} in
            modify (λ s, with_vectors (vectorDataIDRequestCount_ s)
              (if bool_decide (xs = ∅) then delete vdid (vectorDataIDToVectorSlices_ s)
               else <[vdid := xs]> (vectorDataIDToVectorSlices_ s)) s)
        end
      else
        modify (λ s, with_vectors (<[vdid := (n - 1)%Z]> (vectorDataIDRequestCount_ s))
                                  (vectorDataIDToVectorSlices_ s) s)
  end.

Definition decreaseVectorRequestCount (x : Slice) : GM unit :=
  setVectorLoadFlag_ x ;;
  forM_ (decreaseVectorDataIdRequestCount_ x) (vectorDataIds x).

(** ** CumulusComputedValueGateway *)

Definition valueUpdater (cv : CV) (r : option (Result * Stats)) : update := SetValue cv r.

(** [self.refcountsForCompIds_[id]], a dict with the default 0. *)
Definition refcount (s : state) (id : CompId) : Z := default 0%Z (refcountsForCompIds_ s !! id).
Definition set_refcount (id : CompId) (n : Z) (s : state) : state :=
  with_computations (<[id := n]> (refcountsForCompIds_ s)) (computedValuesForComputations s)
    (finishedResultsForComputations s) (curPriorityIndex s) s.

Definition allocNewPriority_ : GM Z :=
  s ← get;
  modify (with_computations (refcountsForCompIds_ s) (computedValuesForComputations s)
            (finishedResultsForComputations s) (curPriorityIndex s + 1)%Z) ;;
  mret (curPriorityIndex s + 1)%Z.

(** [computedValuesForComputations[id].add(cv)]. *)
Definition add_interest (id : CompId) (cv : CV) (s : state) : state :=
  with_computations (refcountsForCompIds_ s)
    (<[id := {[ cv ]} ∪ default ∅ (computedValuesForComputations s !! id)]>
       (computedValuesForComputations s))
    (finishedResultsForComputations s) (curPriorityIndex s) s.

Definition increaseRequestCount (cv : CV) : GM unit :=
  id ← getComputationIdForDefinition (cumulusComputationDefinition cv);
  modify (add_interest id cv) ;;
  modify (λ s, set_refcount id (refcount s id + 1)%Z s) ;;
  s ← get;
  when (bool_decide (refcount s id = 1%Z))
    (p ← allocNewPriority_; setComputationPriority id (Some p)) ;;
  match finishedResultsForComputations s !! id with
  | Some r => push (valueUpdater cv (Some r))
  | None => mret tt
  end.

Definition decreaseRequestCount (cv : CV) : GM unit :=
  id ← getComputationIdForDefinition (cumulusComputationDefinition cv);
  s ← get;
  when (bool_decide (0 < refcount s id)%Z)
    (modify (set_refcount id (refcount s id - 1)%Z) ;;
     when (bool_decide (refcount s id - 1 = 0)%Z) (setComputationPriority id None)).

Definition cancelComputation (cv : CV) : GM unit :=
  id ← getComputationIdForDefinition (cumulusComputationDefinition cv);
  s ← get;
  when (bool_decide (0 < refcount s id)%Z)
    (modify (set_refcount id 0%Z) ;; setComputationPriority id None).

Definition cancelAllComputations (resetCompletely : bool) : GM unit :=
  s ← get;
  forM_ (λ '(id, n),
    when (bool_decide (0 < n)%Z) (setComputationPriority id None ;; modify (set_refcount id 0%Z)))
    (map_to_list (refcountsForCompIds_ s)) ;;
  when resetCompletely resetStateCompletely.

Definition forget_result (id : CompId) (s : state) : state :=
  with_computations (refcountsForCompIds_ s) (computedValuesForComputations s)
    (delete id (finishedResultsForComputations s)) (curPriorityIndex s) s.

Definition resetStateEntirely : GM unit :=
  cancelAllComputations true ;;
  s ← get;
  forM_ (λ id,
    modify (forget_result id) ;;
    cvs ← lift (of_option KeyError (computedValuesForComputations s !! id));
    forM_ (λ cv, push (valueUpdater cv None)) (base.elements cvs))
    ((map_to_list (refcountsForCompIds_ s)).*1) ;;
  forM_ (λ xs : VDID * gset Slice,
    forM_ (λ x, push (SetLoaded x false)) (base.elements xs.2))
    (map_to_list (vectorDataIDToVectorSlices_ s)) ;;
  modify (with_vectors ∅ ∅).

(** *** Messages of the cluster *)

Definition add_result (id : CompId) (r : Result * Stats) (s : state) : state :=
  with_computations (refcountsForCompIds_ s) (computedValuesForComputations s)
    (<[id := r]> (finishedResultsForComputations s)) (curPriorityIndex s) s.

Definition onComputationResult (id : CompId) (r : Result) (st : Stats) : GM unit :=
  modify (add_result id (r, st)) ;;
  s ← get;
  match computedValuesForComputations s !! id with
  | Some cvs => forM_ (λ cv, push (valueUpdater cv (Some (r, st)))) (base.elements cvs)
  | None => mret tt
  end.

Definition cpuCountSetter_ (s : state) (cv : CV) (cpus : Cpus) : update :=
  let deps := rootComputationDependencies cpus ≫= λ compId,
                base.elements (default ∅ (computedValuesForComputations s !! compId)) in
  SetCpuCounts cv cpus deps.

Definition onCPUCountChanged (cpus : Cpus) : GM unit :=
  s ← get;
  match computedValuesForComputations s !! computation cpus with
  | Some cvs => forM_ (λ cv, push (cpuCountSetter_ s cv cpus)) (base.elements cvs)
  | None => mret tt
  end.

Definition createExternalIoTask (taskIdGuid : Guid) (callback : Callback) : GM unit :=
  modify (λ s, with_tasks (<[taskIdGuid := callback]> (externalIoTaskCallbacks_ s)) s).

Definition onExternalIoTaskCompleted (taskGuid : Guid) (r : TaskResult) : GM unit :=
  s ← get;
  match externalIoTaskCallbacks_ s !! taskGuid with
  | None => mret tt
  | Some callback =>
      modify (λ s, with_tasks (delete taskGuid (externalIoTaskCallbacks_ s)) s) ;;
      push (RunCallback callback r)
  end.

(** ** Histories *)

Inductive operation :=
| Increase (cv : CV)
| Decrease (cv : CV)
| Cancel (cv : CV)
| CancelAll (resetCompletely : bool)
| ResetEntirely
| ComputationResult (id : CompId) (r : Result) (st : Stats)
| CPUCountChanged (cpus : Cpus)
| IncreaseVector (x : Slice)
| DecreaseVector (x : Slice)
| ReloadVector (x : Slice)
| CacheLoad (vdid : VDID)
| ManagerChanges (v : V)
| CreateTask (taskIdGuid : Guid) (callback : Callback)
| TaskCompleted (taskGuid : Guid) (r : TaskResult)
| PullOne
| PullAll
(* the steps of [increaseVectorRequestCount], which lets go of the lock before the pages *)
| FlagVector (x : Slice)
| CountPage (x : Slice) (vdid : VDID).

Definition perform (o : operation) : GM unit :=
  match o with
  | Increase cv => increaseRequestCount cv
  | Decrease cv => decreaseRequestCount cv
  | Cancel cv => cancelComputation cv
  | CancelAll b => cancelAllComputations b
  | ResetEntirely => resetStateEntirely
  | ComputationResult id r st => onComputationResult id r st
  | CPUCountChanged cpus => onCPUCountChanged cpus
  | IncreaseVector x => increaseVectorRequestCount x
  | DecreaseVector x => decreaseVectorRequestCount x
  | ReloadVector x => reloadVector x
  | CacheLoad vdid => onCacheLoad vdid
  | ManagerChanges v => modify (λ s, with_client (calls s) v s)
  | CreateTask g c => createExternalIoTask g c
  | TaskCompleted g r => onExternalIoTaskCompleted g r
  | PullOne => _ ← pullOne; mret tt
  | PullAll => pullAll
  | FlagVector x => setVectorLoadFlag_ x
  | CountPage x vdid => increaseVectorDataIdRequestCount_ x vdid
  end.

(** Every operation runs, also after one that raised. *)
Definition run (ops : list operation) (s : state) : state := foldl (λ s o, (perform o s).2) s ops.

(** ** Running the operations *)

Lemma set_priority_ok id p s :
  setComputationPriority id p s =
    (Ret tt, with_client (calls s ++ [SetComputationPriority id p;
               if bool_decide (p = None) then MarkNonrootComputation id else MarkRootComputation id])
             (vdm s) s).
Proof.
  unfold setComputationPriority, call_client, modify, mbind, M_bind.
  case_bool_decide; unfold with_client; cbn; by rewrite <- app_assoc.
Qed.

(** The state after an id was asked for: a new definition is told to the client. *)
Definition identified (d : Defn) (s : state) : state :=
  match definitionToIdMap_ s !! d with
  | Some _ => s
  | None =>
      with_definitions (<[d := createComputation d]> (definitionToIdMap_ s))
        (<[createComputation d := d]> (idToDefinitionMap_ s))
        (with_client (calls s ++ [CreateComputation d]) (vdm s) s)
  end.

(** Every id the gateway knows is that of its definition. *)
Definition ids_known (s : state) : Prop :=
  ∀ d i, definitionToIdMap_ s !! d = Some i → i = createComputation d.

Lemma get_id_ok d s :
  ids_known s → getComputationIdForDefinition d s = (Ret (createComputation d), identified d s).
Proof.
  intros Hk. unfold getComputationIdForDefinition, identified. cbn [mbind M_bind get].
  unfold mbind, M_bind at 1. unfold get at 1. destruct (definitionToIdMap_ s !! d) as [i|] eqn:Hd; [|done].
  by rewrite (Hk _ _ Hd).
Qed.

Lemma identified_known d s : ids_known s → ids_known (identified d s).
Proof.
  intros Hk d' i. unfold identified. destruct (definitionToIdMap_ s !! d) eqn:Hd; [apply Hk|].
  cbn. rewrite lookup_insert. case_decide as He; [|apply Hk]. subst. by intros [= <-].
Qed.

Lemma identified_index d s : curPriorityIndex (identified d s) = curPriorityIndex s.
Proof. unfold identified. by case_match. Qed.

Lemma forM_push {X} (f : X → update) l : ∀ s,
  forM_ (λ x, push (f x)) l s =
    (Ret tt, with_updates (queue s ++ (f <$> l)) (views s) (isLoaded s) (callbacksRun s) s).
Proof.
  induction l as [|x l IH]; intros s.
  { cbn. rewrite app_nil_r. by destruct s. }
  rewrite forM__cons. unfold mbind, M_bind. cbn [push modify]. rewrite IH.
  unfold with_updates. cbn. by rewrite <- app_assoc.
Qed.

(** Show that a computation keeps what [q] says of every change it makes. *)
Ltac quiet q :=
  repeat first
    [ apply keeps_get | apply keeps_ret | apply keeps_raise
    | apply keeps_bind; [|intros ?] | apply keeps_when | apply keeps_forM_; intros ? ?
    | apply keeps_modify; intros ? ?; solve [assumption | q]
    | progress unfold push, call_client, markLoaded, requestCacheItem
    | case_match ].

(** ** Priorities *)

(** The id of a computed value's computation. *)
Definition id_of (cv : CV) : CompId := createComputation (cumulusComputationDefinition cv).

(** The priority a computation has in the cluster after some calls, and whether it is
    marked as a root. The client forgets the priority of a computation it creates,
    and all of them when it is reset. *)
Definition tell (id : CompId) (p : priority) (c : client_call) : priority :=
  match c with
  | CreateComputation d => if bool_decide (createComputation d = id) then None else p
  | SetComputationPriority i q => if bool_decide (i = id) then q else p
  | ResetComputationState => None
  | _ => p
  end.
Definition told (cs : list client_call) (id : CompId) : priority := foldl (tell id) None cs.

Definition mark (id : CompId) (b : bool) (c : client_call) : bool :=
  match c with
  | MarkRootComputation i => if bool_decide (i = id) then true else b
  | MarkNonrootComputation i => if bool_decide (i = id) then false else b
  | _ => b
  end.
Definition is_root (cs : list client_call) (id : CompId) : bool := foldl (mark id) false cs.

#[local] Arguments told : simpl never.
#[local] Arguments is_root : simpl never.

(** The requests for a computation that are outstanding. *)
Definition step_requests (id : CompId) (n : nat) (o : operation) : nat :=
  match o with
  | Increase cv => if bool_decide (id_of cv = id) then S n else n
  | Decrease cv => if bool_decide (id_of cv = id) then pred n else n
  | Cancel cv => if bool_decide (id_of cv = id) then 0 else n
  | CancelAll _ | ResetEntirely => 0
  | _ => n
  end.
Definition requests (ops : list operation) (id : CompId) : nat := foldl (step_requests id) 0 ops.

(** The gateway counts the requests [n], and the cluster knows those that count. *)
Record prioritised (n : CompId → nat) (s : state) : Prop := {
  pri_count id : refcount s id = Z.of_nat (n id);
  pri_known : ids_known s;
  pri_defined id : 0 < n id → ∃ d, definitionToIdMap_ s !! d = Some id;
  pri_none id : n id = 0 → told (calls s) id = None;
  pri_told id : 0 < n id → ∃ p, told (calls s) id = Some p ∧ (0 < p ≤ curPriorityIndex s)%Z;
  pri_index : (0 ≤ curPriorityIndex s)%Z;
  pri_root id : is_root (calls s) id = bool_decide (0 < n id);
  pri_distinct i j p : told (calls s) i = Some p → told (calls s) j = Some p → i = j }.

(** What priorities depend on. *)
Definition same_priorities (s s' : state) : Prop :=
  refcountsForCompIds_ s' = refcountsForCompIds_ s ∧
  definitionToIdMap_ s' = definitionToIdMap_ s ∧
  curPriorityIndex s' = curPriorityIndex s ∧
  ∀ id, told (calls s') id = told (calls s) id ∧ is_root (calls s') id = is_root (calls s) id.

Lemma prioritised_same n s s' : same_priorities s s' → prioritised n s → prioritised n s'.
Proof.
  intros (Hr & Hd & Hp & Hc) [Hcnt Hknown Hdef Hnone Htold Hidx Hroot Hdist].
  split; unfold refcount, ids_known in *; rewrite ?Hr, ?Hd, ?Hp; try done.
  - intros id. rewrite (proj1 (Hc id)). apply Hnone.
  - intros id. rewrite (proj1 (Hc id)). apply Htold.
  - intros id. by rewrite (proj2 (Hc id)).
  - intros i j p. rewrite !(proj1 (Hc _)). apply Hdist.
Qed.

Lemma told_app cs c id : told (cs ++ [c]) id = tell id (told cs id) c.
Proof. unfold told. by rewrite foldl_app. Qed.
Lemma is_root_app cs c id : is_root (cs ++ [c]) id = mark id (is_root cs id) c.
Proof. unfold is_root. by rewrite foldl_app. Qed.

Lemma told_app2 cs c d id : told (cs ++ [c; d]) id = tell id (tell id (told cs id) c) d.
Proof. unfold told. by rewrite foldl_app. Qed.
Lemma is_root_app2 cs c d id : is_root (cs ++ [c; d]) id = mark id (mark id (is_root cs id) c) d.
Proof. unfold is_root. by rewrite foldl_app. Qed.

Context `{!Inj (=) (=) createComputation}.

Lemma prioritised_identified n d s :
  prioritised n s →
  prioritised n (identified d s) ∧
  definitionToIdMap_ (identified d s) !! d = Some (createComputation d) ∧
  ∀ id, told (calls (identified d s)) id = told (calls s) id.
Proof using Inj0.
  intros [Hcnt Hknown Hdef Hnone Htold Hidx Hroot Hdist]. pose proof (identified_known d s Hknown) as Hk.
  unfold identified in *. destruct (definitionToIdMap_ s !! d) as [i|] eqn:Hd.
  { split; [by split|]. split; [|done]. by rewrite (Hknown _ _ Hd) in Hd. }
  assert (Hz : n (createComputation d) = 0).
  { destruct (decide (n (createComputation d) = 0)) as [|Hn]; [done|].
    destruct (Hdef (createComputation d)) as (d' & Hd'); [lia|].
    pose proof (Hknown _ _ Hd') as ->%(inj createComputation). congruence. }
  assert (Ht : ∀ id, told (calls s ++ [CreateComputation d]) id = told (calls s) id).
  { intros id. rewrite told_app. cbn. case_bool_decide as He; [|done]. subst id.
    symmetry. by apply Hnone. }
  cbn. split; [|split; [by rewrite lookup_insert_eq|exact Ht]]. split; cbn; try done.
  - intros id Hn. destruct (Hdef id Hn) as (d' & Hd'). exists d'. rewrite lookup_insert_ne; [done|].
    intros ->. congruence.
  - intros id. rewrite Ht. apply Hnone.
  - intros id. rewrite Ht. apply Htold.
  - intros id. rewrite is_root_app. apply Hroot.
  - intros i j p. rewrite !Ht. apply Hdist.
Qed.

Definition upd (n : CompId → nat) (id : CompId) (k : nat) : CompId → nat :=
  λ i, if bool_decide (id = i) then k else n i.

Lemma upd_eq n id k : upd n id k id = k.
Proof. unfold upd. by rewrite bool_decide_true. Qed.
Lemma upd_ne n id k i : i ≠ id → upd n id k i = n i.
Proof. intros. unfold upd. by rewrite bool_decide_false. Qed.

Lemma prioritised_ext n n' s : (∀ id, n id = n' id) → prioritised n s → prioritised n' s.
Proof.
  intros He [Hcnt Hknown Hdef Hnone Htold Hidx Hroot Hdist].
  split; try done; intros *; rewrite <- ?He; auto.
Qed.

(** A count changes and stays positive: the client is not told. *)
Lemma prioritised_count n s id k :
  prioritised n s → 0 < k → 0 < n id → prioritised (upd n id k) (set_refcount id (Z.of_nat k) s).
Proof.
  intros [Hcnt Hknown Hdef Hnone Htold Hidx Hroot Hdist] Hk Hn. unfold upd.
  assert (He : ∀ i, n i = 0 ↔ (if bool_decide (id = i) then k else n i) = 0).
  { intros i. case_bool_decide; [subst; lia|done]. }
  split; cbn; try done.
  - intros i. unfold refcount. cbn. rewrite lookup_insert. case_decide; case_bool_decide; try done. apply Hcnt.
  - intros i Hi. apply Hdef. pose proof (He i). lia.
  - intros i Hi. apply Hnone, He, Hi.
  - intros i Hi. apply Htold. pose proof (He i). lia.
  - intros i. rewrite Hroot. apply bool_decide_ext. pose proof (He i). lia.
Qed.

(** A request begins or ends: the client is told. *)
Lemma prioritised_tell n s s' id k p :
  prioritised n s →
  refcountsForCompIds_ s' = <[id := Z.of_nat k]> (refcountsForCompIds_ s) →
  definitionToIdMap_ s' = definitionToIdMap_ s →
  calls s' = calls s ++ [SetComputationPriority id p;
     if bool_decide (p = None) then MarkNonrootComputation id else MarkRootComputation id] →
  (∃ d, definitionToIdMap_ s !! d = Some id) →
  (k = 0 ∧ p = None ∧ curPriorityIndex s' = curPriorityIndex s) ∨
  (0 < k ∧ p = Some (curPriorityIndex s') ∧ curPriorityIndex s' = (curPriorityIndex s + 1)%Z) →
  prioritised (upd n id k) s'.
Proof using Type.
  intros [Hcnt Hknown Hdef Hnone Htold Hidx Hroot Hdist] Hr Hd Hcalls Hid Hp.
  assert (Hte : told (calls s') id = p).
  { rewrite Hcalls, told_app2. cbn. rewrite bool_decide_true by done. by case_bool_decide. }
  assert (Htn : ∀ i, i ≠ id → told (calls s') i = told (calls s) i).
  { intros i Hi. rewrite Hcalls, told_app2. cbn. rewrite bool_decide_false by done. by case_bool_decide. }
  assert (Hre : is_root (calls s') id = bool_decide (0 < k)).
  { rewrite Hcalls, is_root_app2. cbn.
    destruct Hp as [(-> & -> & _)|(Hk & -> & _)]; cbn; rewrite (bool_decide_true (id = id)) by done; [done|].
    by rewrite bool_decide_true. }
  assert (Hrn : ∀ i, i ≠ id → is_root (calls s') i = is_root (calls s) i).
  { intros i Hi. rewrite Hcalls, is_root_app2. cbn.
    destruct (bool_decide (p = None)); cbn; by rewrite bool_decide_false by done. }
  assert (Hbound : ∀ i q, told (calls s) i = Some q → (q ≤ curPriorityIndex s)%Z).
  { intros i q Hq. destruct (decide (n i = 0)) as [Hz|Hz]; [by rewrite Hnone in Hq|].
    destruct (Htold i) as (q' & Hq' & ?); [lia|]. replace q with q' by congruence. lia. }
  assert (Hcur : (curPriorityIndex s ≤ curPriorityIndex s')%Z).
  { destruct Hp as [(_ & _ & ->)|(_ & _ & ->)]; lia. }
  clear Hcalls. split.
  - intros i. unfold refcount. rewrite Hr. destruct (decide (i = id)) as [->|Hne].
    + by rewrite lookup_insert_eq, upd_eq.
    + rewrite lookup_insert_ne, upd_ne by done. apply Hcnt.
  - intros d i. rewrite Hd. apply Hknown.
  - intros i Hi. rewrite Hd. destruct (decide (i = id)) as [->|Hne]; [done|].
    rewrite upd_ne in Hi by done. by apply Hdef.
  - intros i Hi. destruct (decide (i = id)) as [->|Hne].
    + rewrite upd_eq in Hi. rewrite Hte. destruct Hp as [(_ & -> & _)|(Hk & _)]; [done|lia].
    + rewrite upd_ne in Hi by done. rewrite Htn by done. by apply Hnone.
  - intros i Hi. destruct (decide (i = id)) as [->|Hne].
    + rewrite upd_eq in Hi. rewrite Hte. destruct Hp as [(-> & _)|(_ & -> & Hq)]; [lia|].
      eexists. split; [done|]. lia.
    + rewrite upd_ne in Hi by done. rewrite Htn by done. destruct (Htold i Hi) as (q & Hq & ?).
      exists q. split; [done|]. lia.
  - lia.
  - intros i. destruct (decide (i = id)) as [->|Hne]; [by rewrite upd_eq|].
    rewrite upd_ne, Hrn by done. apply Hroot.
  - assert (Hnew : ∀ j q, j ≠ id → told (calls s) j = Some q → p ≠ Some q).
    { intros j q Hj Hq ->. specialize (Hbound j q Hq). destruct Hp as [(_ & [=] & _)|(_ & [=] & ?)]. lia. }
    intros i j q. destruct (decide (i = id)) as [->|Hi], (decide (j = id)) as [->|Hj];
      rewrite ?Hte, ?Htn by done; [done| | |apply Hdist]; intros H5 H6; exfalso; by eapply Hnew.
Qed.

(** *** Each operation *)

Lemma same_priorities_refl s : same_priorities s s.
Proof. by split_and!. Qed.

Lemma requesting_is_quiet s0 s vdid :
  same_priorities s0 s → same_priorities s0 (with_client (calls s ++ [RequestVectorLoad vdid]) (vdm s) s).
Proof.
  intros (Hr & Hd & Hp & Hc). split_and!; try done. intros id. cbn.
  rewrite told_app, is_root_app. apply Hc.
Qed.

Lemma running_is_quiet s0 s u : same_priorities s0 s → same_priorities s0 (run_update u s).
Proof. by destruct u. Qed.

(** The operations that have to do with vectors, tasks and the queue. *)
Definition about_computations (o : operation) : Prop :=
  match o with
  | Increase _ | Decrease _ | Cancel _ | CancelAll _ | ResetEntirely => True
  | _ => False
  end.

Lemma same_priorities_keep s0 o :
  ¬ about_computations o → keeps (same_priorities s0) (perform o).
Proof.
  destruct o; cbn [about_computations]; try tauto; intros _; cbn [perform];
    unfold onComputationResult, onCPUCountChanged, reloadVector, increaseVectorRequestCount,
      decreaseVectorRequestCount, increaseVectorDataIdRequestCount_, decreaseVectorDataIdRequestCount_,
      setVectorLoadFlag_, onCacheLoad, collectOffloadedVectors_, createExternalIoTask,
      onExternalIoTaskCompleted, pullOne, pullAll;
    quiet ltac:(by (apply requesting_is_quiet || apply running_is_quiet)).
Qed.

(** [increaseRequestCount] up to the delivery of a result that is known. *)
Lemma increase_counts n cv s :
  prioritised n s →
  prioritised (upd n (id_of cv) (S (n (id_of cv)))) (increaseRequestCount cv s).2 ∧
  (n (id_of cv) = 0 → ∀ id, told (calls (increaseRequestCount cv s).2) id =
     if bool_decide (id = id_of cv) then Some (curPriorityIndex s + 1)%Z else told (calls s) id).
Proof using Inj0.
  intros Hn. unfold increaseRequestCount. set (d := cumulusComputationDefinition cv).
  destruct (prioritised_identified n d s Hn) as (Hn1 & Hd & Ht).
  rewrite (bind_step _ _ _ _ _ (get_id_ok d s (pri_known _ _ Hn))).
  set (s1 := identified d s) in *. set (id := createComputation d) in *.
  change (createComputation d) with id. change (id_of cv) with id.
  assert (Hr : refcount (add_interest id cv s1) id = Z.of_nat (n id)) by (apply (pri_count _ _ Hn1)).
  unfold mbind, M_bind, modify, get. cbn beta iota. rewrite Hr.
  set (s2 := set_refcount id (Z.of_nat (n id) + 1) (add_interest id cv s1)).
  assert (Hr2 : refcount s2 id = Z.of_nat (S (n id))).
  { unfold refcount, s2. cbn. rewrite lookup_insert_eq. cbn. lia. }
  rewrite Hr2. case_bool_decide as H1'; cbn [when].
  - assert (Hz : n id = 0) by lia. unfold allocNewPriority_, mbind, M_bind, get, modify, mret, M_ret. cbn beta iota.
    rewrite set_priority_ok.
    set (s3 := with_client _ _ _).
    assert (Hn3 : prioritised (upd n id (S (n id))) s3).
    { eapply (prioritised_tell n (add_interest id cv s1) s3 id (S (n id)) (Some (curPriorityIndex s1 + 1)%Z)).
      - by eapply prioritised_same; [|exact Hn1].
      - unfold s3, s2. cbn. do 2 f_equal. lia.
      - done.
      - done.
      - by exists d.
      - right. cbn. split; [lia|done]. }
    assert (Ht3 : ∀ i, told (calls s3) i = if bool_decide (i = id) then Some (curPriorityIndex s + 1)%Z else told (calls s) i).
    { intros i. unfold s3. cbn. rewrite told_app2. cbn. unfold s1. rewrite Ht, identified_index.
      destruct (decide (i = id)) as [->|]; by rewrite ?bool_decide_true, ?bool_decide_false by done. }
    destruct (finishedResultsForComputations s2 !! id); (split; [|intros _; exact Ht3]);
      [by eapply prioritised_same; [|exact Hn3]|exact Hn3].
  - assert (Hn2 : prioritised (upd n id (S (n id))) s2).
    { unfold s2. replace (Z.of_nat (n id) + 1)%Z with (Z.of_nat (S (n id))) by lia.
      apply prioritised_count; [by eapply prioritised_same; [|exact Hn1]|lia..]. }
    split; [|lia]. unfold mret, M_ret. destruct (finishedResultsForComputations s2 !! id); [|exact Hn2].
    by eapply prioritised_same; [|exact Hn2].
Qed.

Lemma prioritised_end n s id :
  prioritised n s → 0 < n id →
  prioritised (upd n id 0)
    (setComputationPriority id None (set_refcount id 0%Z s)).2.
Proof.
  intros Hn Hid. rewrite set_priority_ok. apply (prioritised_tell n s _ id 0 None); try done.
  - by apply (pri_defined _ _ Hn).
  - by left.
Qed.

Lemma decrease_counts n cv s :
  prioritised n s →
  prioritised (upd n (id_of cv) (pred (n (id_of cv)))) (decreaseRequestCount cv s).2.
Proof using Inj0.
  intros Hn. unfold decreaseRequestCount. set (d := cumulusComputationDefinition cv).
  destruct (prioritised_identified n d s Hn) as (Hn1 & _ & _).
  rewrite (bind_step _ _ _ _ _ (get_id_ok d s (pri_known _ _ Hn))).
  set (s1 := identified d s) in *. set (id := createComputation d) in *. change (id_of cv) with id.
  unfold mbind at 1, M_bind at 1, get at 1. cbn beta iota. rewrite (pri_count _ _ Hn1).
  destruct (decide (n id = 0)) as [Hz|Hz].
  { rewrite bool_decide_false by lia. cbn. eapply prioritised_ext; [|exact Hn1]. intros i.
    destruct (decide (i = id)) as [->|]; [by rewrite upd_eq, Hz|by rewrite upd_ne]. }
  rewrite bool_decide_true by lia. cbn [when]. unfold mbind, M_bind, modify. cbn beta iota.
  replace (Z.of_nat (n id) - 1)%Z with (Z.of_nat (pred (n id))) by lia.
  destruct (decide (pred (n id) = 0)) as [Hp|Hp].
  - rewrite bool_decide_true by lia. cbn [when]. rewrite Hp. apply prioritised_end; [done|lia].
  - rewrite bool_decide_false by lia. cbn. apply prioritised_count; [done|lia..].
Qed.

Lemma cancel_counts n cv s :
  prioritised n s → prioritised (upd n (id_of cv) 0) (cancelComputation cv s).2.
Proof using Inj0.
  intros Hn. unfold cancelComputation. set (d := cumulusComputationDefinition cv).
  destruct (prioritised_identified n d s Hn) as (Hn1 & _ & _).
  rewrite (bind_step _ _ _ _ _ (get_id_ok d s (pri_known _ _ Hn))).
  set (s1 := identified d s) in *. set (id := createComputation d) in *. change (id_of cv) with id.
  unfold mbind at 1, M_bind at 1, get at 1. cbn beta iota. rewrite (pri_count _ _ Hn1).
  destruct (decide (n id = 0)) as [Hz|Hz].
  { rewrite bool_decide_false by lia. cbn. eapply prioritised_ext; [|exact Hn1]. intros i.
    destruct (decide (i = id)) as [->|]; [by rewrite upd_eq, Hz|by rewrite upd_ne]. }
  rewrite bool_decide_true by lia. cbn [when]. unfold mbind, M_bind, modify. cbn beta iota.
  apply prioritised_end; [done|lia].
Qed.

(** What the loop over all computations does. *)
Definition cancel_one (x : CompId * Z) : GM unit :=
  let '(id, m) := x in
  when (bool_decide (0 < m)%Z) (setComputationPriority id None ;; modify (set_refcount id 0%Z)).

Lemma cancel_one_ok n s id m :
  prioritised n s → refcount s id = m →
  ∃ s', cancel_one (id, m) s = (Ret tt, s') ∧ prioritised (upd n id 0) s' ∧
    ∀ j, j ≠ id → refcount s' j = refcount s j.
Proof.
  intros Hn Hm. cbn [cancel_one]. rewrite (pri_count _ _ Hn) in Hm. case_bool_decide as Hpos; cbn [when].
  - unfold mbind, M_bind. rewrite set_priority_ok. eexists. split; [done|]. split.
    + apply (prioritised_tell n s _ id 0 None); try done; [|by left]. apply (pri_defined _ _ Hn). lia.
    + intros j Hj. unfold refcount. cbn. by rewrite lookup_insert_ne.
  - exists s. split; [done|]. split; [|done]. eapply prioritised_ext; [|exact Hn]. intros i.
    destruct (decide (i = id)) as [->|]; [rewrite upd_eq; lia|by rewrite upd_ne].
Qed.

Lemma cancel_loop_ok (l : list (CompId * Z)) : ∀ n s,
  NoDup l.*1 → (∀ id m, (id, m) ∈ l → refcount s id = m) → prioritised n s →
  ∃ s', forM_ cancel_one l s = (Ret tt, s') ∧
    prioritised (λ i, if bool_decide (i ∈ l.*1) then 0 else n i) s'.
Proof using Inj0.
  induction l as [|[id m] l IH]; intros n s Hnd Hl Hn.
  { exists s. split; [done|]. eapply prioritised_ext; [|exact Hn]. intros i. by rewrite bool_decide_false by set_solver. }
  cbn in Hnd. apply NoDup_cons in Hnd as [Hid Hnd].
  destruct (cancel_one_ok n s id m Hn) as (s1 & H1' & Hn1 & Hr); [apply Hl; left|].
  destruct (IH (upd n id 0) s1 Hnd) as (s2 & H2' & Hn2); [|done|].
  { intros j k Hj. rewrite Hr; [apply Hl; by right|]. intros ->. apply Hid.
    apply list_elem_of_fmap. by exists (id, k). }
  exists s2. split; [by rewrite forM__cons, (bind_step _ _ _ _ _ H1')|].
  eapply prioritised_ext; [|exact Hn2]. intros i. cbn. destruct (decide (i = id)) as [->|Hne].
  - rewrite upd_eq, (bool_decide_true (_ ∈ _ :: _)) by set_solver. by case_bool_decide.
  - rewrite upd_ne by done. by rewrite (bool_decide_ext (i ∈ id :: l.*1) (i ∈ l.*1)) by set_solver.
Qed.

Lemma cancel_all_counts n b s :
  prioritised n s →
  ∃ s', cancelAllComputations b s = (Ret tt, s') ∧ prioritised (λ _, 0) s'.
Proof using Inj0.
  intros Hn. destruct (cancel_loop_ok (map_to_list (refcountsForCompIds_ s)) n s) as (s1 & H1' & Hn1).
  { apply NoDup_fst_map_to_list. }
  { intros id m Hm%elem_of_map_to_list. unfold refcount. by rewrite Hm. }
  { done. }
  assert (Hz : prioritised (λ _, 0) s1).
  { eapply prioritised_ext; [|exact Hn1]. intros i. cbn. case_bool_decide as Hi; [done|].
    pose proof (pri_count _ _ Hn i) as Hc. unfold refcount in Hc.
    destruct (refcountsForCompIds_ s !! i) as [m|] eqn:Hm; [|cbn in Hc; lia].
    exfalso. apply Hi, list_elem_of_fmap. exists (i, m). split; [done|]. by apply elem_of_map_to_list. }
  unfold cancelAllComputations. unfold mbind at 1, M_bind at 1, get at 1. cbn beta iota.
  change (λ '(id, n0), _) with cancel_one. rewrite (bind_step _ _ _ _ _ H1').
  destruct b; cbn [when]; [|by exists s1]. eexists. split; [done|].
  eapply prioritised_same; [|exact Hz]. split_and!; try done. intros id. cbn.
  rewrite told_app, is_root_app. cbn. split; [|done]. symmetry. by apply (pri_none _ _ Hz).
Qed.

Lemma reset_counts n s : prioritised n s → prioritised (λ _, 0) (resetStateEntirely s).2.
Proof using Inj0.
  intros Hn. destruct (cancel_all_counts n true s Hn) as (s1 & H1' & Hn1).
  unfold resetStateEntirely. rewrite (bind_step _ _ _ _ _ H1').
  eapply prioritised_same; [|exact Hn1].
  match goal with |- same_priorities _ (snd (?m s1)) => assert (Hk : keeps (same_priorities s1) m) end.
  { quiet fail. }
  apply Hk, same_priorities_refl.
Qed.

Lemma perform_counts n o s :
  prioritised n s → prioritised (λ id, step_requests id (n id) o) (perform o s).2.
Proof using Inj0.
  intros Hn. assert (Hother : ¬ about_computations o → prioritised n (perform o s).2).
  { intros Ho. eapply prioritised_same; [|exact Hn]. apply same_priorities_keep; [done|apply same_priorities_refl]. }
  destruct o as [cv|cv|cv|b| | | | | | | | | | | | | |]; cbn [step_requests]; try (apply Hother; cbn; tauto).
  - eapply prioritised_ext; [|apply (increase_counts n cv s Hn)]. intros i. unfold upd. by case_bool_decide; subst.
  - eapply prioritised_ext; [|apply (decrease_counts n cv s Hn)]. intros i. unfold upd. by case_bool_decide; subst.
  - eapply prioritised_ext; [|apply (cancel_counts n cv s Hn)]. intros i. unfold upd. by case_bool_decide; subst.
  - destruct (cancel_all_counts n b s Hn) as (s' & Hs & Hn'). cbn [perform]. by rewrite Hs.
  - by apply reset_counts with n.
Qed.

Lemma run_snoc ops o s : run (ops ++ [o]) s = (perform o (run ops s)).2.
Proof. unfold run. by rewrite foldl_app. Qed.

Lemma run_counts v ops : prioritised (requests ops) (run ops (init v)).
Proof using Inj0.
  induction ops as [|o ops IH] using rev_ind.
  { split; try done; unfold requests, told; cbn; intros; lia || done. }
  rewrite run_snoc. eapply prioritised_ext; [|apply perform_counts, IH].
  intros id. unfold requests. by rewrite foldl_app.
Qed.

(** C37. The cluster works on what is asked for: after every sequence of requests,
    cancellations, resets, messages of the cluster and updates, the count of a
    computation is the number of its requests that are outstanding (a cancellation or a reset
    forgets them, and one more withdrawal than requests does nothing); the last
    priority the cluster was told is not null, and the computation is marked as a root,
    exactly when that number is positive; no two computations have the same
    priority; and a computation that is requested anew gets a greater one than
    every other has, none of which changes. *)
Theorem priorities_follow_requests (v : V) (ops : list operation) :
  let s := run ops (init v) in
  (∀ id, refcount s id = Z.of_nat (requests ops id) ∧
         is_root (calls s) id = bool_decide (0 < requests ops id) ∧
         (is_Some (told (calls s) id) ↔ 0 < requests ops id)) ∧
  (∀ i j p, told (calls s) i = Some p → told (calls s) j = Some p → i = j) ∧
  ∀ cv, requests ops (id_of cv) = 0 →
    let s' := run (ops ++ [Increase cv]) (init v) in
    ∃ q, told (calls s') (id_of cv) = Some q ∧
      ∀ id, id ≠ id_of cv → told (calls s') id = told (calls s) id ∧
        ∀ p, told (calls s) id = Some p → (p < q)%Z.
Proof using Inj0.
  intros s. pose proof (run_counts v ops) as Hn. fold s in Hn.
  assert (Htold : ∀ id p, told (calls s) id = Some p → (p ≤ curPriorityIndex s)%Z ∧ 0 < requests ops id).
  { intros id p Hp. destruct (decide (requests ops id = 0)) as [Hz|Hz].
    - by rewrite (pri_none _ _ Hn) in Hp.
    - destruct (pri_told _ _ Hn id) as (q & Hq & ?); [lia|]. rewrite Hp in Hq. injection Hq as ->. lia. }
  split; [|split; [apply (pri_distinct _ _ Hn)|]].
  - intros id. split; [apply (pri_count _ _ Hn)|]. split; [apply (pri_root _ _ Hn)|]. split.
    + intros [p Hp]. by eapply Htold.
    + intros Hp. destruct (pri_told _ _ Hn id Hp) as (q & Hq & _). by exists q.
  - intros cv Hz. cbv zeta. rewrite run_snoc. destruct (increase_counts _ cv _ Hn) as [_ Ht].
    specialize (Ht Hz). exists (curPriorityIndex s + 1)%Z. cbn [perform]. split.
    + rewrite Ht. by rewrite bool_decide_true.
    + intros id Hid. rewrite Ht, bool_decide_false by done. split; [done|].
      intros p Hp. destruct (Htold id p Hp). lia.
Qed.

(** ** Results *)

(** The result a computed value shows when the queue has been run. *)
Definition take_value (cv : CV) (r : option (Result * Stats)) (u : update) : option (Result * Stats) :=
  match u with SetValue cv' r' => if bool_decide (cv' = cv) then r' else r | _ => r end.
Definition shown (s : state) (cv : CV) : option (Result * Stats) :=
  foldl (take_value cv) (result (view_of s cv)) (queue s).

(** Whether a value, or a value of a computation, was ever asked for, and the result
    the gateway has of a computation: the last one the cluster sent, unless
    everything was reset after some value had asked for it. *)
Definition step_asked (cv : CV) (b : bool) (o : operation) : bool :=
  match o with Increase cv' => bool_decide (cv' = cv) || b | _ => b end.
Definition asked (ops : list operation) (cv : CV) : bool := foldl (step_asked cv) false ops.

Definition step_result (id : CompId) (x : bool * option (Result * Stats)) (o : operation)
    : bool * option (Result * Stats) :=
  let '(b, r) := x in
  match o with
  | Increase cv => (bool_decide (id_of cv = id) || b, r)
  | ComputationResult i y st => (b, if bool_decide (i = id) then Some (y, st) else r)
  | ResetEntirely => (b, if b then None else r)
  | _ => (b, r)
  end.
Definition latest (ops : list operation) (id : CompId) : bool * option (Result * Stats) :=
  foldl (step_result id) (false, None) ops.

#[local] Arguments shown : simpl never.

Record delivered (a : CV → bool) (x : CompId → bool * option (Result * Stats)) (s : state) : Prop := {
  dl_known : ids_known s;
  dl_member id cv :
    cv ∈ default ∅ (computedValuesForComputations s !! id) ↔ id = id_of cv ∧ a cv = true;
  dl_counted id : is_Some (refcountsForCompIds_ s !! id) ↔ (x id).1 = true;
  dl_listed id : is_Some (computedValuesForComputations s !! id) ↔ (x id).1 = true;
  dl_finished id : finishedResultsForComputations s !! id = (x id).2;
  dl_shown cv : shown s cv = if a cv then (x (id_of cv)).2 else None }.

(** What results depend on. *)
Definition same_results (s s' : state) : Prop :=
  (ids_known s → ids_known s') ∧
  (∀ id, is_Some (refcountsForCompIds_ s' !! id) ↔ is_Some (refcountsForCompIds_ s !! id)) ∧
  computedValuesForComputations s' = computedValuesForComputations s ∧
  finishedResultsForComputations s' = finishedResultsForComputations s ∧
  ∀ cv, shown s' cv = shown s cv.

Lemma delivered_same a x s s' : same_results s s' → delivered a x s → delivered a x s'.
Proof.
  intros (Hk & Hr & Hc & Hf & Hs) [Dk Dm Dc Dl Df Ds].
  split; [by apply Hk|..]; intros *; rewrite ?Hr, ?Hc, ?Hf, ?Hs; auto.
Qed.

Lemma same_results_refl s : same_results s s.
Proof. by split_and!. Qed.

Lemma shown_snoc s u cv :
  shown (with_updates (queue s ++ [u]) (views s) (isLoaded s) (callbacksRun s) s) cv = take_value cv (shown s cv) u.
Proof. unfold shown, view_of. cbn. by rewrite foldl_app. Qed.

(** Updates that put no result into a computed value. *)
Lemma pushing_is_quiet s0 s u :
  (∀ cv r, take_value cv r u = r) → same_results s0 s →
  same_results s0 (with_updates (queue s ++ [u]) (views s) (isLoaded s) (callbacksRun s) s).
Proof.
  intros Hu (Hk & Hr & Hc & Hf & Hs). split_and!; try done.
  intros cv. by rewrite shown_snoc, Hu, Hs.
Qed.

Lemma pull_step s u q :
  queue s = u :: q →
  same_results s (run_update u (dequeue s)) ∧ queue (run_update u (dequeue s)) = q.
Proof.
  intros Hq. assert (Hqueue : queue (run_update u (dequeue s)) = q) by (destruct u; cbn; by rewrite Hq).
  split; [|done].
  assert (Hshown : ∀ cv, shown (run_update u (dequeue s)) cv = shown s cv).
  { intros cv. unfold shown. rewrite Hqueue, Hq. cbn [foldl]. f_equal.
    destruct u as [cv' r|cv' cpus deps|x b|c r]; cbn [take_value run_update]; try done;
      unfold view_of; cbn; destruct (decide (cv' = cv)) as [->|Hne];
      rewrite ?lookup_insert_eq, ?lookup_insert_ne, ?bool_decide_true, ?bool_decide_false by done; done. }
  split_and!; try done; by destruct u.
Qed.

Lemma same_results_trans s1 s2 s3 : same_results s1 s2 → same_results s2 s3 → same_results s1 s3.
Proof.
  intros (Hk & Hr & Hc & Hf & Hs) (Hk' & Hr' & Hc' & Hf' & Hs'). split_and!; try congruence; auto.
  intros id. by rewrite Hr', Hr.
Qed.

Lemma pullAll_ok s : ∃ s', pullAll s = (Ret tt, s') ∧ same_results s s' ∧ queue s' = [].
Proof.
  unfold pullAll. unfold mbind at 1, M_bind at 1, get at 1. cbn beta iota.
  remember (queue s) as q eqn:Hq. symmetry in Hq. revert s Hq. induction q as [|u q IH]; intros s Hq.
  { exists s. by split_and!. }
  rewrite forM__cons. destruct (pull_step s u q Hq) as [Hs Hq'].
  destruct (IH _ Hq') as (s' & Hrun & Hs' & Hq''). exists s'. split; [|split; [|done]].
  - unfold mbind at 1, M_bind at 1. unfold mbind at 1, M_bind at 1. unfold modify at 1 2. cbn beta iota. exact Hrun.
  - by eapply same_results_trans.
Qed.

(** The operations that deliver no results and forget none. *)
Definition about_results (o : operation) : Prop :=
  match o with
  | Increase _ | ResetEntirely | ComputationResult _ _ _ | PullOne | PullAll
  | Decrease _ | Cancel _ | CancelAll _ => True
  | _ => False
  end.

Lemma same_results_keep s0 o : ¬ about_results o → keeps (same_results s0) (perform o).
Proof.
  destruct o; cbn [about_results]; try tauto; intros _; cbn [perform];
    unfold onCPUCountChanged, reloadVector, increaseVectorRequestCount,
      decreaseVectorRequestCount, increaseVectorDataIdRequestCount_, decreaseVectorDataIdRequestCount_,
      setVectorLoadFlag_, onCacheLoad, collectOffloadedVectors_, createExternalIoTask,
      onExternalIoTaskCompleted;
    quiet ltac:(by apply pushing_is_quiet).
Qed.

(** A count of a computation that has one changes. *)
Lemma counting_is_quiet s0 s id k :
  is_Some (refcountsForCompIds_ s !! id) → same_results s0 s → same_results s0 (set_refcount id k s).
Proof.
  intros Hid (Hk & Hr & Hc & Hf & Hs). split_and!; try done. intros i. cbn. rewrite <- Hr.
  rewrite lookup_insert. case_decide; [subst; split; eauto|done].
Qed.

Lemma positive_is_counted s id : (0 < refcount s id)%Z → is_Some (refcountsForCompIds_ s !! id).
Proof. unfold refcount. destruct (_ !! id); [eauto|cbn; lia]. Qed.

Lemma identifying_is_quiet s d : same_results s (identified d s).
Proof.
  split_and!; [by apply identified_known|..]; unfold identified; by case_match.
Qed.

Lemma set_priority_quiet s0 s id p :
  same_results s0 s → same_results s0 (setComputationPriority id p s).2.
Proof. by rewrite set_priority_ok. Qed.

Lemma decrease_quiet cv s : ids_known s → same_results s (decreaseRequestCount cv s).2.
Proof.
  intros Hk. unfold decreaseRequestCount. rewrite (bind_step _ _ _ _ _ (get_id_ok _ s Hk)).
  set (s1 := identified _ s). pose proof (identifying_is_quiet s (cumulusComputationDefinition cv)) as H1'. fold s1 in H1'.
  unfold mbind at 1, M_bind at 1, get at 1. cbn beta iota.
  case_bool_decide as Hpos; [|done]. apply positive_is_counted in Hpos. cbn [when].
  unfold mbind, M_bind, modify. cbn beta iota. set (id := createComputation _).
  destruct (bool_decide _); cbn [when]; [apply set_priority_quiet|]; by apply counting_is_quiet.
Qed.

Lemma cancel_quiet cv s : ids_known s → same_results s (cancelComputation cv s).2.
Proof.
  intros Hk. unfold cancelComputation. rewrite (bind_step _ _ _ _ _ (get_id_ok _ s Hk)).
  set (s1 := identified _ s). pose proof (identifying_is_quiet s (cumulusComputationDefinition cv)) as H1'. fold s1 in H1'.
  unfold mbind at 1, M_bind at 1, get at 1. cbn beta iota.
  case_bool_decide as Hpos; [|done]. apply positive_is_counted in Hpos. cbn [when].
  unfold mbind, M_bind, modify. cbn beta iota.
  apply set_priority_quiet. by apply counting_is_quiet.
Qed.

Lemma cancel_all_quiet b s : same_results s (cancelAllComputations b s).2.
Proof.
  unfold cancelAllComputations. unfold mbind at 1, M_bind at 1, get at 1. cbn beta iota.
  match goal with |- same_results _ (snd (?m _)) => assert (Hk : keeps (same_results s) m) end.
  { apply keeps_bind; [|intros _; quiet fail]. apply keeps_forM_. intros [id m] Hin%elem_of_map_to_list.
    apply keeps_when, keeps_bind; [intros s' Hs'; by apply set_priority_quiet|]. intros _. apply keeps_modify.
    intros s' Hs'. apply counting_is_quiet; [|done]. apply Hs'. by rewrite Hin. }
  apply Hk, same_results_refl.
Qed.

(** *** The operations that deliver or forget results *)

Lemma shown_values s r l cv :
  shown (with_updates (queue s ++ ((λ cv, SetValue cv r) <$> l)) (views s) (isLoaded s) (callbacksRun s) s) cv =
    if bool_decide (cv ∈ l) then r else shown s cv.
Proof.
  unfold shown, view_of. cbn. rewrite foldl_app.
  generalize (foldl (take_value cv) (result (default blank (views s !! cv))) (queue s)).
  induction l as [|c l IH]; intros x; [done|]. cbn. rewrite IH, bool_decide_cons.
  by destruct (bool_decide (c = cv)), (bool_decide (cv ∈ l)).
Qed.

(** A computed value joins those of its computation. *)
Lemma delivered_add a x cv s s' :
  delivered a x s →
  ids_known s' →
  computedValuesForComputations s' =
    <[id_of cv := {[ cv ]} ∪ default ∅ (computedValuesForComputations s !! id_of cv)]>
      (computedValuesForComputations s) →
  (∀ i, is_Some (refcountsForCompIds_ s' !! i) ↔ i = id_of cv ∨ is_Some (refcountsForCompIds_ s !! i)) →
  finishedResultsForComputations s' = finishedResultsForComputations s →
  (∀ c, shown s' c = if bool_decide (cv = c) then (x (id_of cv)).2 else shown s c) →
  delivered (λ c, bool_decide (cv = c) || a c)
    (λ i, (bool_decide (id_of cv = i) || (x i).1, (x i).2)) s'.
Proof.
  intros [Dk Dm Dc Dl Df Ds] Hk Hc Hr Hf Hs. split; [done|..].
  - intros i c. rewrite Hc, lookup_insert. destruct (decide (id_of cv = i)) as [<-|Hne].
    + cbn. rewrite elem_of_union, elem_of_singleton, Dm.
      rewrite orb_true_iff, bool_decide_eq_true. split; [intros [->|[? ?]]; auto|].
      intros [He [->|Ha]]; auto.
    + rewrite Dm, orb_true_iff, bool_decide_eq_true. split; [tauto|]. intros [-> [->|?]]; done.
  - intros i. rewrite Hr, Dc. cbn. rewrite orb_true_iff, bool_decide_eq_true. split; intros [->|?]; auto.
  - intros i. rewrite Hc, lookup_insert. cbn. rewrite orb_true_iff, bool_decide_eq_true, <- Dl.
    case_decide; [|tauto]. split; [auto|eauto].
  - intros i. by rewrite Hf, Df.
  - intros c. rewrite Hs, Ds. case_bool_decide as He; [by subst|done].
Qed.

Lemma increase_delivers a x cv s :
  delivered a x s →
  delivered (λ c, bool_decide (cv = c) || a c) (λ i, (bool_decide (id_of cv = i) || (x i).1, (x i).2))
    (increaseRequestCount cv s).2.
Proof.
  intros Hd. pose proof Hd as [Dk Dm Dc Dl Df Ds]. unfold increaseRequestCount.
  rewrite (bind_step _ _ _ _ _ (get_id_ok _ s Dk)).
  pose proof (identifying_is_quiet s (cumulusComputationDefinition cv)) as (Qk & Qr & Qc & Qf & Qs).
  set (s1 := identified _ s) in *. change (createComputation (cumulusComputationDefinition cv)) with (id_of cv).
  set (id := id_of cv) in *.
  set (s2 := set_refcount id (refcount s1 id + 1) (add_interest id cv s1)).
  unfold mbind, M_bind, modify, get. cbn beta iota. change (refcount (add_interest id cv s1) id) with (refcount s1 id).
  fold s2.
  match goal with |- context [when ?b ?m s2] => assert (Hp : ∃ s3, when b m s2 = (Ret tt, s3) ∧ same_results s2 s3) end.
  { case_bool_decide; cbn [when]; [|exists s2; split; [done|apply same_results_refl]].
    unfold allocNewPriority_, mbind, M_bind, get, modify, mret, M_ret. cbn beta iota. rewrite set_priority_ok.
    eexists. split; [done|]. by split_and!. }
  destruct Hp as (s3 & -> & Pk & Pr & Pc & Pf & Ps).
  assert (Hr2 : ∀ i, is_Some (refcountsForCompIds_ s3 !! i) ↔ i = id ∨ is_Some (refcountsForCompIds_ s !! i)).
  { intros i. rewrite Pr, <- Qr. unfold s2. cbn. rewrite lookup_insert. case_decide; [split; eauto|].
    split; [by right|]. by intros [->|]. }
  assert (Hc3 : computedValuesForComputations s3 =
    <[id := {[ cv ]} ∪ default ∅ (computedValuesForComputations s !! id)]> (computedValuesForComputations s)).
  { rewrite Pc. cbn. by rewrite Qc. }
  assert (Hf3 : finishedResultsForComputations s3 = finishedResultsForComputations s) by (by rewrite Pf).
  assert (Hs3 : ∀ c, shown s3 c = shown s c) by (intros c; by rewrite Ps, <- Qs).
  change (finishedResultsForComputations s2) with (finishedResultsForComputations s1). rewrite Qf, Df.
  apply (delivered_add a x cv s); try done; destruct (x id).2 as [r|] eqn:Hx; try done; try (by apply Pk, Qk).
  - intros c. cbn. fold id. rewrite shown_snoc, Hs3. cbn. by rewrite Hx.
  - intros c. cbn. fold id. rewrite Hs3, Ds. case_bool_decide; [|done]. subst c. fold id. rewrite Hx. by destruct (a cv).
Qed.

Lemma result_delivers a x id r st s :
  delivered a x s →
  delivered a (λ i, ((x i).1, if bool_decide (id = i) then Some (r, st) else (x i).2))
    (onComputationResult id r st s).2.
Proof.
  intros [Dk Dm Dc Dl Df Ds]. unfold onComputationResult, mbind, M_bind, modify, get. cbn beta iota.
  set (s1 := add_result id (r, st) s).
  set (cvs := default ∅ (computedValuesForComputations s !! id)).
  assert (Hrun : ∃ s', (match computedValuesForComputations s1 !! id with
      | Some cvs => forM_ (λ cv, push (valueUpdater cv (Some (r, st)))) (base.elements cvs)
      | None => mret tt end) s1 = (Ret tt, s') ∧
      (∀ cv, shown s' cv = if bool_decide (cv ∈ base.elements cvs) then Some (r, st) else shown s cv) ∧
      refcountsForCompIds_ s' = refcountsForCompIds_ s ∧
      computedValuesForComputations s' = computedValuesForComputations s ∧
      finishedResultsForComputations s' = <[id := (r, st)]> (finishedResultsForComputations s) ∧
      definitionToIdMap_ s' = definitionToIdMap_ s).
  { change (computedValuesForComputations s1) with (computedValuesForComputations s). unfold cvs.
    destruct (computedValuesForComputations s !! id) as [xs|]; cbn [default from_option].
    - rewrite (forM_push (λ cv, valueUpdater cv (Some (r, st)))). eexists. split; [done|]. split; [|done].
      intros cv. apply (shown_values s1).
    - exists s1. split; [done|]. split; [|done]. intros cv. by rewrite elements_empty. }
  destruct Hrun as (s' & -> & Hs & Hr & Hc & Hf & Hd). cbn [snd].
  split; unfold ids_known; cbn [fst snd]; rewrite ?Hr, ?Hc, ?Hd; try done.
  - intros i. rewrite Hf, lookup_insert. cbn. rewrite Df. by case_decide; case_bool_decide.
  - intros cv. rewrite Hs, Ds. cbn.
    assert (Hm : cv ∈ base.elements cvs ↔ id = id_of cv ∧ a cv = true) by (unfold cvs; rewrite elem_of_elements; apply Dm).
    rewrite (bool_decide_ext _ _ Hm), bool_decide_and.
    by destruct (a cv), (bool_decide (id = id_of cv)).
Qed.

(** The loop of a reset: the results of the computations are forgotten, and their
    values blanked. *)
Definition forget_one (s0 : state) (id : CompId) : GM unit :=
  modify (forget_result id) ;;
  cvs ← lift (of_option KeyError (computedValuesForComputations s0 !! id));
  forM_ (λ cv, push (valueUpdater cv None)) (base.elements cvs).

Definition interest (s : state) (id : CompId) : gset CV := default ∅ (computedValuesForComputations s !! id).

Lemma forget_loop_ok s0 l : ∀ s,
  (∀ id, id ∈ l → is_Some (computedValuesForComputations s0 !! id)) →
  ∃ s', forM_ (forget_one s0) l s = (Ret tt, s') ∧
    definitionToIdMap_ s' = definitionToIdMap_ s ∧
    refcountsForCompIds_ s' = refcountsForCompIds_ s ∧
    computedValuesForComputations s' = computedValuesForComputations s ∧
    (∀ id, finishedResultsForComputations s' !! id =
       if bool_decide (id ∈ l) then None else finishedResultsForComputations s !! id) ∧
    ∀ cv, shown s' cv = if bool_decide (Exists (λ id, cv ∈ interest s0 id) l) then None else shown s cv.
Proof.
  induction l as [|id l IH]; intros s Hl.
  { exists s. split_and!; try done. }
  destruct (Hl id) as [cvs Hcvs]; [left|].
  set (s1 := forget_result id s).
  set (s2 := with_updates (queue s1 ++ ((λ cv, SetValue cv None) <$> base.elements cvs)) (views s1) (isLoaded s1) (callbacksRun s1) s1).
  assert (Hone : forget_one s0 id s = (Ret tt, s2)).
  { unfold forget_one, mbind, M_bind, modify, lift. cbn beta iota. rewrite Hcvs. cbn [of_option].
    apply (forM_push (λ cv, valueUpdater cv None)). }
  destruct (IH s2) as (s' & Hrun & Hd & Hr & Hc & Hf & Hs).
  { intros i Hi. apply Hl. by right. }
  exists s'. split; [by rewrite forM__cons, (bind_step _ _ _ _ _ Hone)|].
  split; [by rewrite Hd|]. split; [by rewrite Hr|]. split; [by rewrite Hc|]. split.
  - intros i. rewrite Hf, bool_decide_cons. cbn. rewrite lookup_delete. destruct (decide (id = i)) as [->|Hne].
    + rewrite ?(bool_decide_true (i = i)) by done. by destruct (bool_decide (i ∈ l)).
    + rewrite ?(bool_decide_false (id = i)) by done. by destruct (bool_decide (i ∈ l)).
  - intros cv. rewrite Hs. unfold s2. rewrite (shown_values s1 None (base.elements cvs) cv).
    assert (Hm : cv ∈ base.elements cvs ↔ cv ∈ interest s0 id) by (unfold interest; by rewrite Hcvs, elem_of_elements).
    rewrite (bool_decide_ext _ _ (Exists_cons _ _ _)), bool_decide_or, <- (bool_decide_ext _ _ Hm).
    by destruct (bool_decide (cv ∈ base.elements cvs)), (bool_decide (Exists _ l)).
Qed.

Lemma delivered_dom a x s : delivered a x s → ∀ id, id ∈ (map_to_list (refcountsForCompIds_ s)).*1 ↔ (x id).1 = true.
Proof.
  intros Hd id. rewrite <- (dl_counted _ _ _ Hd). rewrite list_elem_of_fmap. split.
  - intros ([i m] & -> & Hin%elem_of_map_to_list). by exists m.
  - intros [m Hm]. exists (id, m). split; [done|]. by apply elem_of_map_to_list.
Qed.

Lemma cancel_all_returns b s : ∃ s', cancelAllComputations b s = (Ret tt, s').
Proof.
  unfold cancelAllComputations. unfold mbind at 1, M_bind at 1, get at 1. cbn beta iota.
  change (λ '(id, n), _) with cancel_one.
  assert (Hl : ∀ l s, ∃ s', forM_ cancel_one l s = (Ret tt, s')).
  { induction l as [|[id m] l IH]; intros s'; [by exists s'|]. rewrite forM__cons.
    assert (∃ s1, cancel_one (id, m) s' = (Ret tt, s1)) as [s1 Hs1].
    { cbn [cancel_one]. case_bool_decide; cbn [when]; [|by exists s'].
      unfold mbind, M_bind. rewrite set_priority_ok. by eexists. }
    destruct (IH s1) as [s2 Hs2]. exists s2. by rewrite (bind_step _ _ _ _ _ Hs1). }
  destruct (Hl (map_to_list (refcountsForCompIds_ s)) s) as [s1 Hs1].
  rewrite (bind_step _ _ _ _ _ Hs1). destruct b; by eexists.
Qed.

Lemma reset_ok a x s :
  delivered a x s →
  ∃ s', resetStateEntirely s = (Ret tt, s') ∧
    delivered a (λ i, ((x i).1, if (x i).1 then None else (x i).2)) s'.
Proof.
  intros Hd. destruct (cancel_all_returns true s) as [s1 Hs1].
  assert (Hd1 : delivered a x s1).
  { eapply delivered_same; [|exact Hd]. pose proof (cancel_all_quiet true s) as Hq. by rewrite Hs1 in Hq. }
  set (ids := (map_to_list (refcountsForCompIds_ s1)).*1).
  assert (Hids : ∀ id, id ∈ ids ↔ (x id).1 = true) by (by apply (delivered_dom a x)).
  destruct (forget_loop_ok s1 ids s1) as (s2 & Hs2 & Hdf & Hr & Hc & Hf & Hs).
  { intros id Hid%Hids. by apply (dl_listed _ _ _ Hd1). }
  assert (Hd2 : delivered a (λ i, ((x i).1, if (x i).1 then None else (x i).2)) s2).
  { destruct Hd1 as [Dk Dm Dc Dl Df Ds]. split; unfold ids_known; cbn [fst snd]; rewrite ?Hdf, ?Hr, ?Hc; try done.
    - intros i. rewrite Hf, Df. destruct (x i).1 eqn:Hx.
      + by rewrite bool_decide_true by (by apply Hids).
      + by rewrite bool_decide_false by (by rewrite Hids, Hx).
    - intros cv. rewrite Hs, Ds.
      assert (He : Exists (λ id, cv ∈ interest s1 id) ids ↔ a cv = true).
      { rewrite Exists_exists. unfold interest. split.
        - intros (i & _ & [_ Ha]%Dm). done.
        - intros Ha. assert (Hcv : cv ∈ interest s1 (id_of cv)) by (by apply Dm).
          exists (id_of cv). split; [|done]. apply Hids, Dl. unfold interest in Hcv.
          destruct (computedValuesForComputations s1 !! id_of cv); [eauto|done]. }
      destruct (a cv) eqn:Ha.
      + rewrite bool_decide_true by (by apply He). destruct (proj1 (Exists_exists _ _) (proj2 He eq_refl)) as (i & Hi & Hin).
        apply Dm in Hin as [-> _]. apply Hids in Hi. by rewrite Hi.
      + by rewrite bool_decide_false by (rewrite He; done). }
  unfold resetStateEntirely. rewrite (bind_step _ _ _ _ _ Hs1). unfold mbind at 1, M_bind at 1, get at 1. cbn beta iota.
  erewrite (bind_step _ _ s1 tt s2); [|exact Hs2].
  match goal with |- ∃ _, ?m s2 = _ ∧ _ => assert (Hq : keeps (same_results s2) m) end.
  { quiet ltac:(by apply pushing_is_quiet). }
  specialize (Hq s2 (same_results_refl s2)).
  assert (Hl : ∀ (l : list (VDID * gset Slice)) s, ∃ s',
    forM_ (λ xs, forM_ (λ x, push (SetLoaded x false)) (base.elements xs.2)) l s = (Ret tt, s')).
  { induction l as [|xs l IH]; intros s'; [by exists s'|]. rewrite forM__cons.
    rewrite (bind_step _ _ _ _ _ (forM_push (λ x, SetLoaded x false) _ s')). apply IH. }
  destruct (Hl (map_to_list (vectorDataIDToVectorSlices_ s1)) s2) as [s3 Hs3].
  rewrite (bind_step _ _ _ _ _ Hs3) in *. eexists. split; [done|]. eapply delivered_same; [exact Hq|done].
Qed.

Lemma delivered_ext a a' x x' s :
  (∀ cv, a cv = a' cv) → (∀ id, x id = x' id) → delivered a x s → delivered a' x' s.
Proof.
  intros Ha Hx [Dk Dm Dc Dl Df Ds]. split; try done; intros *; rewrite <- ?Ha, <- ?Hx; auto.
Qed.

Lemma perform_delivers a x o s :
  delivered a x s →
  delivered (λ cv, step_asked cv (a cv) o) (λ id, step_result id (x id) o) (perform o s).2.
Proof.
  intros Hd. pose proof (dl_known _ _ _ Hd) as Hk.
  assert (Hsame : ∀ s', (∀ cv, step_asked cv (a cv) o = a cv) → (∀ id, step_result id (x id) o = x id) →
    same_results s s' → delivered (λ cv, step_asked cv (a cv) o) (λ id, step_result id (x id) o) s').
  { intros s' Ha Hx Hs. eapply delivered_ext; [| |eapply delivered_same; [exact Hs|exact Hd]]; intros; [by rewrite Ha|by rewrite Hx]. }
  assert (Hquiet : ¬ about_results o → same_results s (perform o s).2).
  { intros Ho. by apply same_results_keep, same_results_refl. }
  assert (Hpair : ∀ id : CompId, (let '(b, r) := x id in (b, r)) = x id) by (intros id; by destruct (x id)).
  destruct o; cbn [step_asked step_result perform]; try (apply Hsame; [done|exact Hpair|]);
    try (apply Hquiet; cbn; tauto).
  - eapply delivered_ext; [| |apply (increase_delivers a x cv s Hd)]; [done|].
    intros id. cbn. by destruct (x id).
  - by apply decrease_quiet.
  - by apply cancel_quiet.
  - apply cancel_all_quiet.
  - destruct (reset_ok a x s Hd) as (s' & -> & Hd'). eapply delivered_ext; [| |exact Hd']; [done|].
    intros id. cbn. by destruct (x id).
  - eapply delivered_ext; [| |apply (result_delivers a x id r st s Hd)]; [done|].
    intros i. cbn. by destruct (x i).
  - unfold pullOne, mbind, M_bind, get. cbn beta iota. destruct (queue s) as [|u q] eqn:Hq; [apply same_results_refl|].
    by apply (pull_step s u q).
  - destruct (pullAll_ok s) as (s' & -> & Hs & _). exact Hs.
Qed.

Lemma run_delivers v ops : delivered (asked ops) (latest ops) (run ops (init v)).
Proof.
  induction ops as [|o ops IH] using rev_ind.
  { split; try done; cbn; intros; try (rewrite lookup_empty); cbn; try (by split; [intros [? [=]]|]).
    split; [by intros ?%elem_of_empty|by intros [_ ?]]. }
  rewrite run_snoc. eapply delivered_ext; [| |apply perform_delivers, IH]; intros.
  - unfold asked. by rewrite foldl_app.
  - unfold latest. by rewrite foldl_app.
Qed.

(** C29. Results reach everyone who asked: after every sequence of operations that ends by
    running the queue, a computed value that was ever asked for shows the last result
    the cluster sent for its computation, whether the result or the request came
    first and whatever was cancelled in between, or nothing when there is none or
    everything was reset since it came; a value never asked for shows nothing.
    A reset never raises. *)
Theorem results_reach_their_values (v : V) (ops : list operation) :
  (let s := run (ops ++ [PullAll]) (init v) in
   queue s = [] ∧
   ∀ cv, result (view_of s cv) = if asked ops cv then (latest ops (id_of cv)).2 else None) ∧
  (perform ResetEntirely (run ops (init v))).1 = Ret tt.
Proof.
  pose proof (run_delivers v ops) as Hd. split.
  - cbv zeta. rewrite run_snoc. cbn [perform]. destruct (pullAll_ok (run ops (init v))) as (s' & -> & Hs & Hq).
    cbn [snd]. split; [done|]. intros cv. rewrite <- (dl_shown _ _ _ Hd cv).
    destruct Hs as (_ & _ & _ & _ & Hs). rewrite <- Hs. unfold shown. by rewrite Hq.
  - cbn [perform]. by destruct (reset_ok _ _ _ Hd) as (s' & -> & _).
Qed.

(** ** Data of vectors *)

(** The pages asked for, with the slices that ask: once for every request. *)
Definition pages : Type := list (Slice * VDID).

Fixpoint count_page (l : pages) (vdid : VDID) : nat :=
  match l with
  | [] => 0
  | (_, v) :: l => (if bool_decide (v = vdid) then 1 else 0) + count_page l vdid
  end.

(** The gateway counts the requests for pages, and knows who asks. *)
Record counted (l : pages) (s : state) : Prop := {
  ct_count vdid :
    vectorDataIDRequestCount_ s !! vdid =
      if bool_decide (count_page l vdid = 0) then None else Some (Z.of_nat (count_page l vdid));
  ct_slices x vdid :
    (x, vdid) ∈ l → x ∈ default ∅ (vectorDataIDToVectorSlices_ s !! vdid) }.

Lemma count_page_cons x v l w :
  count_page ((x, v) :: l) w = (if bool_decide (v = w) then 1 else 0) + count_page l w.
Proof. done. Qed.

Lemma count_page_Permutation l l' v : l ≡ₚ l' → count_page l v = count_page l' v.
Proof. induction 1 as [|[x w] l l' _ IH|[x w] [y u] l|l1 l2 l3 _ IH1 _ IH2]; cbn; lia. Qed.

Lemma count_page_pos l x v : (x, v) ∈ l → count_page l v ≠ 0.
Proof.
  induction l as [|[y w] l IH]; [by intros ?%elem_of_nil|]. intros [[= -> ->]|Hin]%elem_of_cons; cbn.
  - by rewrite bool_decide_true.
  - specialize (IH Hin). lia.
Qed.

Lemma counted_increase l x v s :
  counted l s →
  ∃ s', increaseVectorDataIdRequestCount_ x v s = (Ret tt, s') ∧ counted ((x, v) :: l) s' ∧ vdm s' = vdm s ∧
    calls s' = calls s ++ (if bool_decide (count_page l v = 0) && negb (vectorDataIdIsLoaded (vdm s) v)
                           then [RequestVectorLoad v] else []).
Proof.
  intros [Cc Cs]. unfold increaseVectorDataIdRequestCount_, mbind, M_bind, modify, get. cbn beta iota.
  set (s1 := with_vectors _ _ s).
  change (vectorDataIDRequestCount_ s1) with (vectorDataIDRequestCount_ s). rewrite Cc.
  assert (Hsl : ∀ y w, (y, w) ∈ (x, v) :: l → y ∈ default ∅ (vectorDataIDToVectorSlices_ s1 !! w)).
  { intros y w Hin. cbn. rewrite lookup_insert. apply elem_of_cons in Hin as [[= -> ->]|Hin].
    - rewrite decide_True by done. cbn. apply elem_of_union_l. by apply elem_of_singleton.
    - case_decide; [subst; cbn; apply elem_of_union_r|]; by apply Cs. }
  assert (Hct : ∀ n s', Z.of_nat (S (count_page l v)) = n →
    vectorDataIDRequestCount_ s' = <[v := n]> (vectorDataIDRequestCount_ s) →
    vectorDataIDToVectorSlices_ s' = vectorDataIDToVectorSlices_ s1 → counted ((x, v) :: l) s').
  { intros n s' Hn Hc Hs. split; [|by rewrite Hs]. intros w. rewrite Hc, count_page_cons, lookup_insert.
    destruct (decide (v = w)) as [->|Hne].
    - rewrite (bool_decide_true (w = w)) by done. rewrite bool_decide_false by lia. by rewrite <- Hn.
    - rewrite (bool_decide_false (v = w)) by done. apply Cc. }
  case_bool_decide as Hz; cbn [andb].
  - change (vdm s1) with (vdm s). destruct (vectorDataIdIsLoaded (vdm s) v); cbn [negb when].
    + eexists. split; [done|]. split; [by eapply (Hct 1%Z); [lia|..]|]. split; [done|]. by rewrite app_nil_r.
    + eexists. split; [done|]. split; [by eapply (Hct 1%Z); [lia|..]|]. done.
  - eexists. split; [done|]. split; [eapply Hct; [|done..]; lia|]. split; [done|]. by rewrite app_nil_r.
Qed.

Lemma counted_decrease l l' x v s :
  counted l s → l ≡ₚ (x, v) :: l' →
  ∃ s', decreaseVectorDataIdRequestCount_ x v s = (Ret tt, s') ∧ counted l' s' ∧ vdm s' = vdm s ∧ calls s' = calls s.
Proof.
  intros [Cc Cs] Hl. assert (Hcnt : ∀ w, count_page l w = (if bool_decide (v = w) then 1 else 0) + count_page l' w).
  { intros w. by rewrite (count_page_Permutation _ _ w Hl), count_page_cons. }
  assert (Hin : ∀ y w, (y, w) ∈ l' → y ∈ default ∅ (vectorDataIDToVectorSlices_ s !! w)).
  { intros y w Hy. apply Cs. rewrite Hl. by right. }
  pose proof (Hcnt v) as Hv. rewrite bool_decide_true in Hv by done.
  unfold decreaseVectorDataIdRequestCount_, mbind, M_bind, modify, get. cbn beta iota.
  rewrite Cc, bool_decide_false by lia. rewrite Hv.
  destruct (decide (count_page l' v = 0)) as [Hz|Hz].
  - rewrite bool_decide_true by lia.
    assert (Hx : x ∈ default ∅ (vectorDataIDToVectorSlices_ s !! v)) by (apply Cs; rewrite Hl; left).
    destruct (vectorDataIDToVectorSlices_ s !! v) as [xs|] eqn:Hxs; [|by apply elem_of_empty in Hx].
    eexists. split; [done|]. split; [|done]. split.
    + intros w. cbn. rewrite lookup_delete. specialize (Hcnt w). case_decide as He.
      * subst w. by rewrite bool_decide_true.
      * rewrite bool_decide_false in Hcnt by done. rewrite Cc, Hcnt. done.
    + intros y w Hy. assert (Hw : v ≠ w).
      { intros <-. by apply (count_page_pos l' y v). }
      cbn. case_bool_decide; [rewrite lookup_delete_ne by done|rewrite lookup_insert_ne by done]; by apply Hin.
  - rewrite bool_decide_false by lia. eexists. split; [done|]. split; [|done]. split.
    + intros w. cbn. rewrite lookup_insert. specialize (Hcnt w). case_decide as He.
      * subst w. rewrite bool_decide_false by done. f_equal. lia.
      * rewrite bool_decide_false in Hcnt by done. rewrite Cc, Hcnt. done.
    + intros y w Hy. cbn. by apply Hin.
Qed.

(** *** Requests of pages *)

Definition page_request : Type := Slice * VDID.

Fixpoint remove_first (x : page_request) (l : pages) : pages :=
  match l with [] => [] | y :: l => if bool_decide (x = y) then l else y :: remove_first x l end.
Definition remove_all (xs l : pages) : pages := foldl (λ l x, remove_first x l) l xs.

Lemma remove_first_Permutation x l : x ∈ l → l ≡ₚ x :: remove_first x l.
Proof.
  induction l as [|y l IH]; [by intros ?%elem_of_nil|]. intros Hx%elem_of_cons. cbn.
  case_bool_decide as He; [by subst|]. destruct Hx as [|Hx]; [done|]. rewrite (IH Hx) at 1. constructor.
Qed.

Lemma remove_all_Permutation xs l : xs ⊆+ l → l ≡ₚ xs ++ remove_all xs l.
Proof.
  revert l. induction xs as [|x xs IH]; intros l Hl; [done|].
  apply submseteq_cons_l in Hl as (k & Hk & Hxs).
  pose proof (remove_first_Permutation x l ltac:(rewrite Hk; left)) as Hp.
  assert (Hkr : k ≡ₚ remove_first x l) by (apply (Permutation_cons_inv (a := x)); by rewrite <- Hk, <- Hp).
  rewrite Hp at 1. cbn. constructor. apply IH. by rewrite <- Hkr.
Qed.

(** The pages of a slice. *)
Definition pages_of (x : Slice) : pages := (x,.) <$> vectorDataIds x.

(** The requests of pages that are outstanding, each for its slice. A slice is released
    when each of its pages is requested for it; a reset ends all requests. *)
Definition step_pages (l : pages) (o : operation) : pages :=
  match o with
  | IncreaseVector x | ReloadVector x => pages_of x ++ l
  | CountPage x vdid => (x, vdid) :: l
  | DecreaseVector x => remove_all (pages_of x) l
  | ResetEntirely => []
  | _ => l
  end.
Definition outstanding (ops : list operation) : pages := foldl step_pages [] ops.

Definition allowed (l : pages) (o : operation) : Prop :=
  match o with DecreaseVector x => pages_of x ⊆+ l | _ => True end.
Fixpoint balanced (l : pages) (ops : list operation) : Prop :=
  match ops with [] => True | o :: ops => allowed l o ∧ balanced (step_pages l o) ops end.

(** The operations on vectors and the reset. *)
Definition about_vectors (o : operation) : Prop :=
  match o with
  | IncreaseVector _ | ReloadVector _ | DecreaseVector _ | ResetEntirely | FlagVector _ | CountPage _ _ => True
  | _ => False
  end.

Definition same_vectors (s s' : state) : Prop :=
  vectorDataIDRequestCount_ s' = vectorDataIDRequestCount_ s ∧
  vectorDataIDToVectorSlices_ s' = vectorDataIDToVectorSlices_ s.

Lemma counted_same l s s' : same_vectors s s' → counted l s → counted l s'.
Proof. intros [Hc Hs] [Cc Cs]. split; intros *; rewrite ?Hc, ?Hs; auto. Qed.

Lemma running_keeps_vectors s0 s u : same_vectors s0 s → same_vectors s0 (run_update u s).
Proof. by destruct u. Qed.

Lemma same_vectors_keep s0 o : ¬ about_vectors o → keeps (same_vectors s0) (perform o).
Proof.
  destruct o; cbn [about_vectors]; try tauto; intros _; cbn [perform];
    unfold increaseRequestCount, decreaseRequestCount, cancelComputation, cancelAllComputations,
      getComputationIdForDefinition, allocNewPriority_, setComputationPriority, resetStateCompletely, remember,
      onComputationResult, onCPUCountChanged, onCacheLoad, collectOffloadedVectors_, createExternalIoTask,
      onExternalIoTaskCompleted, pullOne, pullAll;
    quiet ltac:(by apply running_keeps_vectors).
Qed.

Lemma counted_Permutation l l' s : l ≡ₚ l' → counted l s → counted l' s.
Proof.
  intros Hl [Cc Cs]. split.
  - intros w. by rewrite <- (count_page_Permutation l l' w Hl).
  - intros y w Hin. apply Cs. by rewrite Hl.
Qed.

Lemma increase_pages x vs : ∀ l s,
  counted l s →
  ∃ s', forM_ (increaseVectorDataIdRequestCount_ x) vs s = (Ret tt, s') ∧
    counted (((x,.) <$> vs) ++ l) s'.
Proof.
  induction vs as [|v vs IH]; intros l s Hl; [by exists s|].
  destruct (counted_increase l x v s Hl) as (s1 & H1' & Hl1 & _). destruct (IH _ s1 Hl1) as (s2 & H2' & Hl2).
  exists s2. split; [by rewrite forM__cons, (bind_step _ _ _ _ _ H1')|].
  eapply counted_Permutation; [|exact Hl2]. symmetry. apply Permutation_middle.
Qed.

Lemma decrease_pages x vs : ∀ l s,
  counted (((x,.) <$> vs) ++ l) s →
  ∃ s', forM_ (decreaseVectorDataIdRequestCount_ x) vs s = (Ret tt, s') ∧ counted l s'.
Proof.
  induction vs as [|v vs IH]; intros l s Hl; [by exists s|].
  destruct (counted_decrease _ (((x,.) <$> vs) ++ l) x v s Hl) as (s1 & H1' & Hl1 & _); [done|].
  destruct (IH _ s1 Hl1) as (s2 & H2' & Hl2). exists s2.
  split; [by rewrite forM__cons, (bind_step _ _ _ _ _ H1')|done].
Qed.

Lemma flag_ok l x s :
  counted l s → ∃ s', setVectorLoadFlag_ x s = (Ret tt, s') ∧ counted l s'.
Proof. intros Hl. eexists. split; [done|]. by eapply counted_same; [|exact Hl]. Qed.

Lemma reset_vectors s :
  (resetStateEntirely s).1 = Ret tt → counted [] (resetStateEntirely s).2.
Proof.
  destruct (resetStateEntirely s) as [r s'] eqn:Hr. cbn [fst snd]. intros ->.
  unfold resetStateEntirely in Hr. inv_bind. by split; [|intros ? ? ?%elem_of_nil].
Qed.

Lemma perform_counted l o s :
  counted l s → (resetStateEntirely s).1 = Ret tt → allowed l o →
  counted (step_pages l o) (perform o s).2 ∧ (about_vectors o → (perform o s).1 = Ret tt).
Proof.
  intros Hl Hreset Ho. assert (Hother : ¬ about_vectors o → counted l (perform o s).2).
  { intros Hv. eapply counted_same; [|exact Hl]. by apply same_vectors_keep. }
  assert (Hinc : ∀ x, ∃ s', increaseVectorRequestCount x s = (Ret tt, s') ∧ counted (pages_of x ++ l) s').
  { intros x. destruct (flag_ok _ x s Hl) as (s1 & H1' & Hl1).
    destruct (increase_pages x (vectorDataIds x) _ s1 Hl1) as (s2 & H2' & Hl2).
    exists s2. unfold increaseVectorRequestCount. by rewrite (bind_step _ _ _ _ _ H1'). }
  destruct o as [| | | | | | |x|x|x| | | | | | |x|x vdid]; cbn [step_pages about_vectors];
    try (split; [apply Hother; cbn; tauto|tauto]).
  - split; [|done]. by apply reset_vectors.
  - cbn [perform]. by destruct (Hinc x) as (s' & -> & Hs').
  - cbn [perform]. cbn in Ho. unfold decreaseVectorRequestCount.
    pose proof (remove_all_Permutation _ _ Ho) as Hp.
    destruct (flag_ok _ x s (counted_Permutation _ _ s Hp Hl)) as (s1 & H1' & Hl1).
    destruct (decrease_pages x (vectorDataIds x) _ s1 Hl1) as (s2 & H2' & Hl2).
    by rewrite (bind_step _ _ _ _ _ H1'), H2'.
  - cbn [perform]. unfold reloadVector. by destruct (Hinc x) as (s' & -> & Hs').
  - cbn [perform]. by destruct (flag_ok _ x s Hl) as (s' & -> & Hs').
  - cbn [perform]. by destruct (counted_increase l x vdid s Hl) as (s' & -> & Hs' & _).
Qed.

Lemma run_counted v ops : balanced [] ops → counted (outstanding ops) (run ops (init v)).
Proof.
  intros Hb. assert (Hgen : ∀ ops l s a x, balanced l ops → counted l s → delivered a x s →
    counted (foldl step_pages l ops) (run ops s)).
  { clear. induction ops as [|o ops IH]; intros l s a x; [done|]. intros [Ho Hb] Hl Hd.
    destruct (reset_ok a x s Hd) as (sr & Hr & _).
    destruct (perform_counted l o s Hl) as [Hl' _]; [by rewrite Hr|done|].
    cbn [foldl]. change (run (o :: ops) s) with (run ops (perform o s).2).
    eapply IH; [done..|]. by apply perform_delivers. }
  eapply Hgen; [done| |apply (run_delivers v [])]. split; [done|]. by intros x vdid ?%elem_of_nil.
Qed.

Lemma increase_page_returns x vdid s :
  ∃ s', increaseVectorDataIdRequestCount_ x vdid s = (Ret tt, s').
Proof.
  unfold increaseVectorDataIdRequestCount_, mbind, M_bind, modify, get. cbn beta iota.
  destruct (vectorDataIDRequestCount_ _ !! vdid); [by eexists|].
  by destruct (vectorDataIdIsLoaded _ vdid); eexists.
Qed.

(** A request of a slice in one go is its steps. *)
Lemma increase_is_its_steps x s :
  run (FlagVector x :: (CountPage x <$> vectorDataIds x)) s = (increaseVectorRequestCount x s).2.
Proof.
  unfold increaseVectorRequestCount. set (s1 := (setVectorLoadFlag_ x s).2).
  rewrite (bind_step (setVectorLoadFlag_ x) _ s tt s1) by done.
  change (run (CountPage x <$> vectorDataIds x) s1 = (forM_ (increaseVectorDataIdRequestCount_ x) (vectorDataIds x) s1).2).
  generalize s1.
  induction (vectorDataIds x) as [|vdid vs IH]; intros s2; [done|]. rewrite forM__cons.
  destruct (increase_page_returns x vdid s2) as (s3 & Hs3). rewrite (bind_step _ _ _ _ _ Hs3), <- IH.
  rewrite fmap_cons. unfold run. cbn [foldl perform]. by rewrite Hs3.
Qed.

(** What the offloaded pages make of the state: updates are queued. *)
Lemma collect_ok s :
  ∃ s' q, collectOffloadedVectors_ s = (Ret tt, s') ∧ queue s' = queue s ++ q ∧
    vdm s' = (extractDropped (vdm s)).2.
Proof.
  unfold collectOffloadedVectors_. unfold mbind at 1, M_bind at 1, get at 1. cbn beta iota.
  destruct (extractDropped (vdm s)) as [offloaded w]. unfold mbind at 1, M_bind at 1, modify at 1. cbn beta iota.
  set (s1 := with_client (calls s) w s).
  assert (Hl : ∀ (l : list VDID) s1, ∃ s' q, forM_ (λ vdid,
      match vectorDataIDToVectorSlices_ s !! vdid with
      | Some cgLocations => forM_ (λ x, push (SetLoaded x false)) (base.elements cgLocations)
      | None => mret tt
      end) l s1 = (Ret tt, s') ∧ queue s' = queue s1 ++ q ∧ vdm s' = vdm s1).
  { induction l as [|vdid l IH]; intros s2; [exists s2, []; by rewrite app_nil_r|].
    rewrite forM__cons. destruct (vectorDataIDToVectorSlices_ s !! vdid) as [xs|].
    - rewrite (bind_step _ _ _ _ _ (forM_push (λ x, SetLoaded x false) _ s2)).
      destruct (IH (with_updates (queue s2 ++ ((λ x, SetLoaded x false) <$> base.elements xs)) (views s2) (isLoaded s2) (callbacksRun s2) s2))
        as (s' & q & Hrun & Hq & Hv). exists s', (((λ x, SetLoaded x false) <$> base.elements xs) ++ q).
      rewrite Hrun, Hq, Hv. cbn. by rewrite app_assoc.
    - rewrite (bind_step _ _ s2 tt s2) by done. apply IH. }
  destruct (Hl offloaded s1) as (s' & q & Hrun & Hq & Hv). exists s', q. by rewrite Hrun, Hq, Hv.
Qed.

Lemma onCacheLoad_ok vdid s :
  ∃ s' q, onCacheLoad vdid s = (Ret tt, s') ∧
    queue s' = q ++ ((λ x, SetLoaded x (vectorDataIsLoaded (extractDropped (vdm s)).2 x)) <$>
                       base.elements (default ∅ (vectorDataIDToVectorSlices_ s !! vdid))).
Proof.
  unfold onCacheLoad. unfold mbind at 1, M_bind at 1, get at 1. cbn beta iota.
  destruct (collect_ok s) as (s1 & q1 & Hrun & _ & Hv). rewrite (bind_step _ _ _ _ _ Hrun).
  set (cgs := base.elements _).
  assert (Hl : ∀ (l : list Slice) s2, vdm s2 = (extractDropped (vdm s)).2 → ∃ s',
    forM_ (λ x, s ← get; push (SetLoaded x (vectorDataIsLoaded (vdm s) x))) l s2 = (Ret tt, s') ∧
    queue s' = queue s2 ++ ((λ x, SetLoaded x (vectorDataIsLoaded (extractDropped (vdm s)).2 x)) <$> l)).
  { induction l as [|x l IH]; intros s2 Hv2; [exists s2; by rewrite app_nil_r|].
    rewrite forM__cons. unfold mbind at 1, M_bind at 1. unfold mbind at 1, M_bind at 1, get at 1, push, modify. cbn beta iota.
    edestruct IH as (s' & Hs' & Hq); [|exists s'; split; [exact Hs'|]]; [done|].
    rewrite Hq. cbn. rewrite Hv2. by rewrite <- app_assoc. }
  destruct (Hl cgs s1 Hv) as (s2 & H2' & Hq2). exists s2, (queue s1). by rewrite H2'.
Qed.

(** C38. Slices of vectors, in every history of operations in which no slice is released
    unless each of its pages is requested for it (so not across a reset, which forgets the
    requests: see [release_after_reset_raises]). The steps in which a slice is requested, its
    flag and then its pages one by one, may have any other operations between them. The
    count of a page is the number of outstanding requests of it; requesting, reloading,
    releasing and the reset never raise; and when a page is loaded, every slice for which
    the page is requested is told last in the queue whether it is loaded now. *)
Theorem requested_slices_are_told (v : V) (ops : list operation) :
  balanced [] ops →
  let s := run ops (init v) in
  (∀ vdid, default 0%Z (vectorDataIDRequestCount_ s !! vdid) = Z.of_nat (count_page (outstanding ops) vdid)) ∧
  (∀ o, allowed (outstanding ops) o → about_vectors o → (perform o s).1 = Ret tt) ∧
  ∀ vdid x, (x, vdid) ∈ outstanding ops →
    ∃ s' q told_, onCacheLoad vdid s = (Ret tt, s') ∧ x ∈ told_ ∧
      queue s' = q ++ ((λ y, SetLoaded y (vectorDataIsLoaded (extractDropped (vdm s)).2 y)) <$> told_).
Proof.
  intros Hb s. pose proof (run_counted v ops Hb) as Hl. fold s in Hl.
  destruct (reset_ok _ _ _ (run_delivers v ops)) as (sr & Hr & _). fold s in Hr. split; [|split].
  - intros vdid. rewrite (ct_count _ _ Hl). case_bool_decide as Hz; [by rewrite Hz|done].
  - intros o Ho Hv. eapply perform_counted; [exact Hl|by rewrite Hr|done..].
  - intros vdid x Hx. destruct (onCacheLoad_ok vdid s) as (s' & q & Hrun & Hq).
    eexists s', q, _. split; [exact Hrun|]. split; [|exact Hq]. by apply elem_of_elements, (ct_slices _ _ Hl).
Qed.
End gateway.

(** ** Samples *)

Module GatewaySamples.
(** Everything is a number; the manager is the list of the loaded pages; the slices
    1 and 2 are on page 7. *)
Notation op := (@operation nat nat nat nat nat nat nat nat nat nat (list nat)).
Definition pages_of_slice (x : nat) : list nat := if bool_decide (x < 3) then [7] else [x; x].
Definition loaded (v : list nat) (x : nat) : bool := forallb (λ p, bool_decide (p ∈ v)) (pages_of_slice x).
Definition page_loaded (v : list nat) (p : nat) : bool := bool_decide (p ∈ v).
Definition dropped (v : list nat) : list nat * list nat := ([], v).
Definition sample_run (ops : list op) :=
  run (Result := nat) (Stats := nat) (Checkpoint := nat) (Callback := nat) (TaskResult := nat) (Guid := nat)
    (id : nat → nat) loaded page_loaded dropped pages_of_slice (λ cv, cv / 10) ops (init []).

Lemma priorities_follow_requests_witness :
  told (id : nat → nat) (calls (sample_run [Increase 31; Increase 32; Increase 5; Decrease 31])) 3 = Some 1%Z ∧
  ∀ i j p,
    told (id : nat → nat) (calls (sample_run [Increase 31; Increase 5])) i = Some p →
    told (id : nat → nat) (calls (sample_run [Increase 31; Increase 5])) j = Some p → i = j.
Proof.
  split; [vm_compute; reflexivity|].
  refine (proj1 (proj2 (priorities_follow_requests (Result := nat) (Stats := nat) (Checkpoint := nat)
    (Callback := nat) (TaskResult := nat) (Guid := nat)
    (id : nat → nat) loaded page_loaded dropped pages_of_slice (λ cv, cv / 10) [] [Increase 31; Increase 5]))).
Defined.

(** Slice 4, of two parts of a page, is released by another thread between the pages of its
    second request. *)
Definition interleaved : list op :=
  [IncreaseVector 1; IncreaseVector 4; FlagVector 4; CountPage 4 4; CacheLoad 4; DecreaseVector 4;
   CountPage 4 4; DecreaseVector 1].

Lemma requested_slices_are_told_witness :
  default 0%Z (vectorDataIDRequestCount_ (sample_run interleaved) !! 4) = 2%Z.
Proof.
  destruct (requested_slices_are_told (Result := nat) (Stats := nat) (Checkpoint := nat)
    (Callback := nat) (TaskResult := nat) (Guid := nat)
    (id : nat → nat) loaded page_loaded dropped pages_of_slice (λ cv, cv / 10) [] interleaved) as [Hc _].
  - cbn [balanced interleaved]. split_ands; try done; unfold allowed;
      apply (bool_decide_eq_true_1 _); vm_compute; reflexivity.
  - exact (Hc 4).
Defined.

(** A slice that was released, but not last, is told about its page for ever. *)
Lemma released_slice_is_remembered :
  let s := sample_run [IncreaseVector 1; IncreaseVector 2; DecreaseVector 1; DecreaseVector 2] in
  vectorDataIDRequestCount_ s !! 7 = None ∧ vectorDataIDToVectorSlices_ s !! 7 = Some {[ 1 ]}.
Proof. split; vm_compute; reflexivity. Qed.

(** After a reset the slices that were requested cannot be released. *)
Lemma release_after_reset_raises :
  (decreaseVectorRequestCount (Defn := nat) (CompId := nat) (CV := nat) (Result := nat) (Stats := nat)
     (Checkpoint := nat) (Callback := nat) (TaskResult := nat) (Guid := nat) loaded pages_of_slice 1
     (sample_run [IncreaseVector 1; ResetEntirely])).1 = Raise AssertionError.
Proof. vm_compute. reflexivity. Qed.
End GatewaySamples.
