(* ===== verification/CumulusActiveMachines.v ===== *)
(** * The workers of a cluster ([cumulus/distributed/CumulusActiveMachines.py])

    Every worker writes its address into the shared state under the id of its client of
    the shared state; the clients that are connected are listed there too. From both
    the set of active machines is kept, and listeners are told, through a queue, which
    machines come and go. The shared state and the clock are inputs; connecting to
    the shared state and its threads are represented by the events they end with. *)
From Stdlib Require Import Lia.
From stdpp Require Import base gmap sets list fin_maps.
From S2P Require Import Prelude.
Set Default Proof Using "Type".

(** In microseconds. *)
Definition TIME_TO_SLEEP_AFTER_RECONNECT : Z := 5000000.

Section machines.
(** Client and machine ids are strings (which are not empty); addresses, and listeners. *)
Context {Id Addr Listener : Type} `{Countable Id, Countable Listener}.

(** [(ip, ports, machineIdAsString)]. *)
Notation info := (Addr * list Z * Id)%type.

(** What a listener is told. *)
Inductive note :=
| WorkerAdd (ip : Addr) (ports : list Z) (machineIdAsString : Id)
| WorkerDrop (machineIdAsString : Id)
| ReconnectedToSharedState.

Record state := {
  activeMachineIds : gset Id;
  outgoingNotifications : list (Listener * note);
  lastDisconnectTime : option Z;
  lastReconnectTime : option Z;
  registeredIpPortAndMachineId : option info;
  listeners_ : gset Listener;
  isConnected : bool;
  clientIdToIpPortAndMachineIdAsString : gmap Id info;
  machineIdToClientId : gmap Id Id;
  stopFlag : bool;
  (** The calls of listeners that were made. *)
  told : list (Listener * note) }.

Definition init (registered : option info) : state :=
  {| activeMachineIds := ∅; outgoingNotifications := []; lastDisconnectTime := None;
     lastReconnectTime := None; registeredIpPortAndMachineId := registered; listeners_ := ∅;
     isConnected := false; clientIdToIpPortAndMachineIdAsString := ∅; machineIdToClientId := ∅;
     stopFlag := false; told := [] |}.

Definition set_machines (a : gset Id) (c : gmap Id info) (m : gmap Id Id) (s : state) : state :=
  {| activeMachineIds := a; outgoingNotifications := outgoingNotifications s;
     lastDisconnectTime := lastDisconnectTime s; lastReconnectTime := lastReconnectTime s;
     registeredIpPortAndMachineId := registeredIpPortAndMachineId s; listeners_ := listeners_ s;
     isConnected := isConnected s; clientIdToIpPortAndMachineIdAsString := c; machineIdToClientId := m;
     stopFlag := stopFlag s; told := told s |}.
Definition set_listeners (l : gset Listener) (q t : list (Listener * note)) (stop : bool) (s : state) : state :=
  {| activeMachineIds := activeMachineIds s; outgoingNotifications := q;
     lastDisconnectTime := lastDisconnectTime s; lastReconnectTime := lastReconnectTime s;
     registeredIpPortAndMachineId := registeredIpPortAndMachineId s; listeners_ := l;
     isConnected := isConnected s;
     clientIdToIpPortAndMachineIdAsString := clientIdToIpPortAndMachineIdAsString s;
     machineIdToClientId := machineIdToClientId s; stopFlag := stop; told := t |}.
Definition set_connection (d r : option Z) (b : bool) (s : state) : state :=
  {| activeMachineIds := activeMachineIds s; outgoingNotifications := outgoingNotifications s;
     lastDisconnectTime := d; lastReconnectTime := r;
     registeredIpPortAndMachineId := registeredIpPortAndMachineId s; listeners_ := listeners_ s;
     isConnected := b;
     clientIdToIpPortAndMachineIdAsString := clientIdToIpPortAndMachineIdAsString s;
     machineIdToClientId := machineIdToClientId s; stopFlag := stopFlag s; told := told s |}.

Notation AM := (M state).

(** ** Notifications *)

(** [_outgoingNotifications.put] for every listener. *)
Definition notify (n : note) : AM unit :=
  modify (λ s, set_listeners (listeners_ s)
    (outgoingNotifications s ++ ((λ l, (l, n)) <$> base.elements (listeners_ s))) (told s) (stopFlag s) s).

Definition onWorkerAdd (x : info) : AM unit :=
  let '(ip, ports, machineId) := x in notify (WorkerAdd ip ports machineId).

Definition onWorkerDrop (x : info) : AM unit :=
  let '(_, _, machineId) := x in
  s ← get;
  match machineIdToClientId s !! machineId with
  | None => raise KeyError
  | Some _ =>
      put (set_machines (activeMachineIds s) (clientIdToIpPortAndMachineIdAsString s)
             (delete machineId (machineIdToClientId s)) s) ;;
      notify (WorkerDrop machineId)
  end.

(** One turn of [eventDispatchLoop]. *)
Definition dispatchOne : AM unit :=
  modify (λ s,
    match outgoingNotifications s with
    | n :: q => if stopFlag s then s else set_listeners (listeners_ s) q (told s ++ [n]) (stopFlag s) s
    | [] => s
    end).

(** ** The active machines *)

Definition ownMachineIdAsString (s : state) : option Id := snd <$> registeredIpPortAndMachineId s.

Definition clientIdToMachineIdAsString (s : state) (client : Id) : option Id :=
  match clientIdToIpPortAndMachineIdAsString s !! client with Some x => Some x.2 | None => None end.

(** A worker that is not connected any more. *)
Definition drop_worker (deadWorker : Id) : AM unit :=
  s ← get;
  when (negb (bool_decide (Some deadWorker = ownMachineIdAsString s)))
    (put (set_machines (activeMachineIds s ∖ {[ deadWorker ]}) (clientIdToIpPortAndMachineIdAsString s)
            (machineIdToClientId s) s) ;;
     match machineIdToClientId s !! deadWorker with
     | None => raise AssertionError
     | Some deadClientID =>
         x ← lift (of_option KeyError (clientIdToIpPortAndMachineIdAsString s !! deadClientID));
         onWorkerDrop x
     end).

(** A client that is connected: whether its machine is newly active. *)
Definition add_worker (client : Id) : AM (option Id) :=
  s ← get;
  match clientIdToMachineIdAsString s client with
  | Some m =>
      if bool_decide (m ∈ activeMachineIds s) then mret None
      else
        put (set_machines ({[ m ]} ∪ activeMachineIds s) (clientIdToIpPortAndMachineIdAsString s)
               (machineIdToClientId s) s) ;;
        mret (Some client)
  | None => mret None
  end.

(** Whether an update waits until the connection has been stable for a while. *)
Definition must_wait (now : Z) (s : state) : bool :=
  match lastDisconnectTime s with
  | None => false
  | Some _ =>
      match lastReconnectTime s with
      | None => true
      | Some r => bool_decide (now - r < TIME_TO_SLEEP_AFTER_RECONNECT)%Z
      end
  end.

(** [setDisconnected], up to the reconnection. *)
Definition setDisconnected (now : Z) : AM unit :=
  modify (λ s, set_connection (Some now) None false s).

(** The clients whose value is not ['disconnected']. *)
Definition connected_clients (clients : list (Id * bool)) : gset Id :=
  list_to_set (omap (λ c, if negb c.2 then Some c.1 else None) clients).

(** [introspection] is the list of the clients with whether they are disconnected, or
    [None] when reading it raises. *)
Definition updateActiveMachines (now : Z) (introspection : option (list (Id * bool))) : AM unit :=
  s ← get;
  if stopFlag s || must_wait now s then mret tt
  else
    match introspection with
    | None => setDisconnected now ;; raise UserWarning
    | Some clients =>
        let currentlyConnectedClientIds := connected_clients clients in
        let currentlyConnectedWorkers : gset Id :=
          list_to_set (omap (clientIdToMachineIdAsString s) (base.elements currentlyConnectedClientIds)) in
        forM_ drop_worker (base.elements (activeMachineIds s ∖ currentlyConnectedWorkers)) ;;
        newlyAliveClientIds ←
          mapM add_worker
            (base.elements (dom (clientIdToIpPortAndMachineIdAsString s) ∩ currentlyConnectedClientIds));
        forM_ (λ client,
          s ← get;
          x ← lift (of_option KeyError (clientIdToIpPortAndMachineIdAsString s !! client));
          onWorkerAdd x) (omap id newlyAliveClientIds)
    end.

(** [None] is an entry that does not have the three parts. *)
Definition onNewWorkerStatus (items : list (Id * option info)) (now : Z)
    (introspection : option (list (Id * bool))) : AM unit :=
  forM_ (λ '(clientId, value),
    match value with
    | Some x =>
        modify (λ s, set_machines (activeMachineIds s)
          (<[clientId := x]> (clientIdToIpPortAndMachineIdAsString s))
          (<[x.2 := clientId]> (machineIdToClientId s)) s)
    | None => mret tt
    end) items ;;
  updateActiveMachines now introspection.

Definition onNewClientInfo (now : Z) (introspection : option (list (Id * bool))) : AM unit :=
  updateActiveMachines now introspection.

(** ** Listeners *)

(** The active machines are looked up in the dict of clients. *)
Definition addListener (listener : Listener) : AM unit :=
  modify (λ s, set_listeners ({[ listener ]} ∪ listeners_ s) (outgoingNotifications s) (told s) (stopFlag s) s) ;;
  s ← get;
  forM_ (λ workerClientID,
    x ← lift (of_option KeyError (clientIdToIpPortAndMachineIdAsString s !! workerClientID));
    onWorkerAdd x) (base.elements (activeMachineIds s)).

Definition dropListener (listener : Listener) : AM unit :=
  modify (λ s,
    if bool_decide (listener ∈ listeners_ s) then
      let l := listeners_ s ∖ {[ listener ]} in
      set_listeners l (outgoingNotifications s) (told s) (stopFlag s || bool_decide (l = ∅)) s
    else s).

(** Writing the own address makes the own machine active. *)
Definition own_is_active : AM unit :=
  modify (λ s,
    let a := match ownMachineIdAsString s with
             | Some m => {[ m ]} ∪ activeMachineIds s
             | None => activeMachineIds s
             end in
    set_machines a (clientIdToIpPortAndMachineIdAsString s) (machineIdToClientId s) s).

(** The end of [connectView], when the connection was not lost meanwhile: the own address
    is written, and the listeners are told. *)
Definition reconnected (now : Z) : AM unit :=
  own_is_active ;;
  modify (λ s, set_connection (lastDisconnectTime s) (Some now) true s) ;;
  notify ReconnectedToSharedState.

(** ** Histories *)

Inductive event :=
| NewWorkerStatus (items : list (Id * option info)) (now : Z) (introspection : option (list (Id * bool)))
| NewClientInfo (now : Z) (introspection : option (list (Id * bool)))
| Disconnected (now : Z)
| Reconnected (now : Z)
| Dispatch
| AddListener (l : Listener)
| DropListener (l : Listener).

Definition handle (e : event) : AM unit :=
  match e with
  | NewWorkerStatus items now i => onNewWorkerStatus items now i
  | NewClientInfo now i => onNewClientInfo now i
  | Disconnected now => setDisconnected now
  | Reconnected now => reconnected now
  | Dispatch => dispatchOne
  | AddListener l => addListener l
  | DropListener l => dropListener l
  end.
Definition run (es : list event) (s : state) : state := foldl (λ s e, (handle e s).2) s es.

(** ** What a listener knows *)

Definition hear (a : gset Id) (n : note) : gset Id :=
  match n with
  | WorkerAdd _ _ m => {[ m ]} ∪ a
  | WorkerDrop m => a ∖ {[ m ]}
  | ReconnectedToSharedState => a
  end.

Definition for_listener (L : Listener) (n : Listener * note) : option note :=
  if bool_decide (n.1 = L) then Some n.2 else None.

(** The machines that are up, for one who was told all that is in the queue, too. *)
Definition heard (s : state) (L : Listener) : gset Id :=
  foldl hear ∅ (omap (for_listener L) (told s ++ outgoingNotifications s)).

Lemma notes_to_one (L : Listener) (n : note) (l : list Listener) :
  NoDup l → L ∈ l → omap (for_listener L) ((λ x, (x, n)) <$> l) = [n].
Proof.
  assert (Hnone : ∀ l, L ∉ l → omap (for_listener L) ((λ x, (x, n)) <$> l) = []).
  { clear l. induction l as [|x l IH]; intros Hl; [done|]. cbn. unfold for_listener at 1. cbn.
    rewrite bool_decide_false by (intros ->; apply Hl; left). apply IH. intros ?. apply Hl. by right. }
  induction l as [|x l IH]; intros Hnd Hin; [by apply elem_of_nil in Hin|].
  apply NoDup_cons in Hnd as [Hx Hnd]. cbn. unfold for_listener at 1. cbn.
  destruct (decide (x = L)) as [->|Hne].
  - rewrite bool_decide_true by done. by rewrite Hnone.
  - rewrite bool_decide_false by done. apply IH; [done|]. apply elem_of_cons in Hin as [->|]; done.
Qed.

Lemma notify_ok L n s :
  L ∈ listeners_ s →
  ∃ s', notify n s = (Ret tt, s') ∧ heard s' L = hear (heard s L) n ∧
    s' = set_listeners (listeners_ s) (outgoingNotifications s') (told s) (stopFlag s) s.
Proof.
  intros HL. eexists. split; [done|]. split; [|done]. unfold heard. cbn.
  rewrite app_assoc, omap_app, foldl_app, (notes_to_one L); [done|apply NoDup_elements|].
  by apply elem_of_elements.
Qed.

(** ** The invariant *)

(** The machine of a client, and which ids are those of clients. *)
Context (machine : Id → Id) (is_client : Id → bool).

(** [gone] are clients that were seen not to be connected, after they had written their
    address. *)
Record consistent (L : Listener) (gone : gset Id) (s : state) : Prop := {
  co_listens : L ∈ listeners_ s;
  co_client c x : clientIdToIpPortAndMachineIdAsString s !! c = Some x →
    x.2 = machine c ∧ is_client c = true ∧ is_client (machine c) = false;
  co_back m c : machineIdToClientId s !! m = Some c →
    is_Some (clientIdToIpPortAndMachineIdAsString s !! c) ∧ machine c = m;
  co_known m : m ∈ activeMachineIds s → Some m ≠ ownMachineIdAsString s → is_Some (machineIdToClientId s !! m);
  co_machines m : m ∈ activeMachineIds s → is_client m = false;
  co_own m : ownMachineIdAsString s = Some m → is_client m = false;
  co_gone c : c ∈ dom (clientIdToIpPortAndMachineIdAsString s) →
    machineIdToClientId s !! machine c = None → c ∈ gone;
  co_heard m : Some m ≠ ownMachineIdAsString s → m ∈ heard s L ↔ m ∈ activeMachineIds s }.

Lemma client_machine L gone s c x :
  consistent L gone s → clientIdToIpPortAndMachineIdAsString s !! c = Some x →
  clientIdToMachineIdAsString s c = Some (machine c).
Proof.
  intros Hs Hc. unfold clientIdToMachineIdAsString. rewrite Hc. f_equal. by apply (co_client _ _ _ Hs c x).
Qed.

(** What dropping one machine does; [gone] has its clients. *)
Lemma drop_worker_ok L gone s m :
  consistent L gone s → m ∈ activeMachineIds s →
  (∀ c, c ∈ dom (clientIdToIpPortAndMachineIdAsString s) → machine c = m → c ∈ gone) →
  ∃ s', drop_worker m s = (Ret tt, s') ∧ consistent L gone s' ∧
    clientIdToIpPortAndMachineIdAsString s' = clientIdToIpPortAndMachineIdAsString s ∧
    registeredIpPortAndMachineId s' = registeredIpPortAndMachineId s ∧
    activeMachineIds s' = (if bool_decide (Some m = ownMachineIdAsString s) then activeMachineIds s
                           else activeMachineIds s ∖ {[ m ]}).
Proof.
  intros Hs Hm Hgone. unfold drop_worker. unfold mbind at 1, M_bind at 1, get at 1. cbn beta iota.
  case_bool_decide as Hown; cbn [negb when]; [by exists s|].
  destruct (co_known _ _ _ Hs m Hm) as [c Hc]; [done|].
  destruct (co_back _ _ _ Hs m c Hc) as [[x Hx] Hmc].
  destruct (co_client _ _ _ Hs c x Hx) as (Hxm & _). rewrite Hmc in Hxm.
  set (s1 := set_machines (activeMachineIds s ∖ {[m]}) (clientIdToIpPortAndMachineIdAsString s) (delete m (machineIdToClientId s)) s).
  destruct (notify_ok L (WorkerDrop m) s1) as (s2 & Hn & Hh & Heq); [apply (co_listens _ _ _ Hs)|].
  exists s2. split.
  { unfold mbind, M_bind, put, lift. cbn beta iota. rewrite Hc. rewrite Hx. cbn [of_option].
    unfold onWorkerDrop. destruct x as [[ip ports] m']. cbn in Hxm. subst m'. unfold mbind, M_bind, get, put. cbn beta iota.
    cbn [machineIdToClientId set_machines]. rewrite Hc. exact Hn. }
  rewrite Heq in Hh |- *. cbn. split; [|done].
  destruct Hs as [Cl Cc Cb Ck Cm Co Cg Ch]. split; cbn; try done.
  - intros m' c'. rewrite lookup_delete_Some. intros [_ ?]. by apply Cb.
  - intros m' [Hin Hne]%elem_of_difference Ho. rewrite lookup_delete_ne by set_solver. by apply Ck.
  - intros m' [Hin _]%elem_of_difference. by apply Cm.
  - intros c' Hc'. rewrite lookup_delete_None. intros [Hmc'|Hn']; [by apply Hgone|by apply Cg].
  - intros m' Ho. unfold heard in Hh |- *. cbn in Hh |- *. rewrite Hh. fold (heard s L).
    rewrite !elem_of_difference, (Ch m' Ho). done.
Qed.

Lemma drop_loop_ok L gone l : ∀ s,
  consistent L gone s → NoDup l → (∀ m, m ∈ l → m ∈ activeMachineIds s) →
  (∀ m c, m ∈ l → c ∈ dom (clientIdToIpPortAndMachineIdAsString s) → machine c = m → c ∈ gone) →
  ∃ s', forM_ drop_worker l s = (Ret tt, s') ∧ consistent L gone s' ∧
    clientIdToIpPortAndMachineIdAsString s' = clientIdToIpPortAndMachineIdAsString s ∧
    registeredIpPortAndMachineId s' = registeredIpPortAndMachineId s ∧
    ∀ m, m ∈ activeMachineIds s' ↔ m ∈ activeMachineIds s ∧ (m ∉ l ∨ Some m = ownMachineIdAsString s).
Proof.
  induction l as [|m l IH]; intros s Hs Hnd Hin Hg.
  { exists s. split_and!; try done. intros m. split; [|by intros [? _]]. intros Hm.
    split; [done|]. left. by intros ?%elem_of_nil. }
  apply NoDup_cons in Hnd as [Hm Hnd].
  destruct (drop_worker_ok L gone s m Hs) as (s1 & Hrun & Hs1 & Hi1 & Hr1 & Ha1); [apply Hin; left|by intros; eapply Hg; [left|..]|].
  assert (Hown : ownMachineIdAsString s1 = ownMachineIdAsString s) by (unfold ownMachineIdAsString; by rewrite Hr1).
  destruct (IH s1 Hs1 Hnd) as (s2 & Hrun2 & Hs2 & Hi2 & Hr2 & Ha2).
  { intros k Hk. rewrite Ha1. assert (k ≠ m) by (by intros ->). assert (k ∈ activeMachineIds s) by (apply Hin; by right).
    destruct (bool_decide _); [done|]. apply elem_of_difference. by rewrite elem_of_singleton. }
  { intros k c Hk. rewrite Hi1. apply Hg. by right. }
  exists s2. split; [by rewrite forM__cons, (bind_step _ _ _ _ _ Hrun)|]. split; [done|].
  split; [congruence|]. split; [congruence|]. intros k. rewrite Ha2, Ha1, Hown, elem_of_cons.
  case_bool_decide as Ho; [|rewrite elem_of_difference, elem_of_singleton];
    destruct (decide (k = m)) as [->|Hk]; try tauto.
Qed.

Definition machines_of (l : list Id) : gset Id := list_to_set (machine <$> l).

Lemma add_worker_run s c m :
  clientIdToMachineIdAsString s c = Some m →
  add_worker c s =
    if bool_decide (m ∈ activeMachineIds s) then (Ret None, s)
    else (Ret (Some c), set_machines ({[ m ]} ∪ activeMachineIds s)
                          (clientIdToIpPortAndMachineIdAsString s) (machineIdToClientId s) s).
Proof.
  intros Hc. unfold add_worker, mbind, M_bind, get. cbn beta iota. rewrite Hc. by case_bool_decide.
Qed.

Lemma add_loop_ok cs : ∀ s,
  (∀ c, c ∈ cs → clientIdToMachineIdAsString s c = Some (machine c)) →
  ∃ r, mapM add_worker cs s =
      (Ret r, set_machines (machines_of cs ∪ activeMachineIds s)
                (clientIdToIpPortAndMachineIdAsString s) (machineIdToClientId s) s) ∧
    (∀ c, c ∈ omap id r → c ∈ cs) ∧
    machines_of (omap id r) ∪ activeMachineIds s = machines_of cs ∪ activeMachineIds s.
Proof using All.
  induction cs as [|c cs IH]; intros s Hin.
  { exists []. split; [|done]. unfold machines_of. cbn. rewrite union_empty_l_L. by destruct s. }
  rewrite mapM_cons. assert (Hc : clientIdToMachineIdAsString s c = Some (machine c)) by (apply Hin; left).
  pose proof (add_worker_run s c _ Hc) as Hadd. revert Hadd. case_bool_decide as Hm; intros Hadd;
    rewrite (bind_step _ _ _ _ _ Hadd).
  - destruct (IH s) as (r & Hrun & Hr & Ha); [intros; apply Hin; by right|]. exists (None :: r).
    unfold mbind, M_bind, mret, M_ret. rewrite Hrun.
    assert (He : machines_of (c :: cs) ∪ activeMachineIds s = machines_of cs ∪ activeMachineIds s).
    { unfold machines_of. cbn. set_solver. }
    rewrite He. split; [done|]. split; [intros d Hd; right; by apply Hr|done].
  - set (s1 := set_machines _ _ _ s).
    destruct (IH s1) as (r & Hrun & Hr & Ha); [intros; apply Hin; by right|]. exists (Some c :: r).
    unfold mbind, M_bind, mret, M_ret, put. cbn beta iota. rewrite Hrun.
    assert (He : machines_of cs ∪ activeMachineIds s1 = machines_of (c :: cs) ∪ activeMachineIds s).
    { unfold machines_of, s1. cbn. set_solver. }
    rewrite He. split; [done|]. split.
    + intros d [->|Hd]%elem_of_cons; [left|right; by apply Hr].
    + rewrite <- He, <- Ha. unfold machines_of, s1. cbn. set_solver.
Qed.

(** The listeners are told of the clients that are new. *)
Lemma tell_loop_ok L cs : ∀ s,
  L ∈ listeners_ s →
  (∀ c, c ∈ cs → ∃ x, clientIdToIpPortAndMachineIdAsString s !! c = Some x ∧ x.2 = machine c) →
  ∃ s', forM_ (λ client,
      s ← get;
      x ← lift (of_option KeyError (clientIdToIpPortAndMachineIdAsString s !! client));
      onWorkerAdd x) cs s = (Ret tt, s') ∧
    heard s' L = machines_of cs ∪ heard s L ∧
    s' = set_listeners (listeners_ s) (outgoingNotifications s') (told s) (stopFlag s) s.
Proof using All.
  induction cs as [|c cs IH]; intros s HL Hin.
  { exists s. split; [done|]. split; [unfold machines_of; cbn; by rewrite union_empty_l_L|by destruct s]. }
  destruct (Hin c) as (x & Hx & Hxm); [left|]. destruct x as [[ip ports] m]. cbn in Hxm. subst m.
  destruct (notify_ok L (WorkerAdd ip ports (machine c)) s HL) as (s1 & Hn & Hh & Heq).
  destruct (IH s1) as (s2 & Hrun & Hh2 & Heq2).
  { by rewrite Heq. } { intros d Hd. rewrite Heq. apply Hin. by right. }
  exists s2. split; [|split].
  - rewrite forM__cons. unfold mbind at 1, M_bind at 1. unfold mbind at 1, M_bind at 1, get at 1. cbn beta iota.
    unfold mbind at 1, M_bind at 1, lift at 1. rewrite Hx. cbn [of_option onWorkerAdd]. by rewrite Hn.
  - rewrite Hh2, Hh. unfold machines_of. cbn. set_solver.
  - rewrite Heq2 at 1. rewrite Heq. done.
Qed.

(** *** An update *)

Lemma consistent_more L gone gone' s : gone ⊆ gone' → consistent L gone s → consistent L gone' s.
Proof.
  intros Hg [Cl Cc Cb Ck Cm Co Cg Ch]. split; try done. intros c Hc Hn. by apply Hg, Cg.
Qed.

(** The machines of the clients that are connected and have written their address. *)
Definition up (clients : list (Id * bool)) (s : state) (m : Id) : Prop :=
  ∃ c, c ∈ connected_clients clients ∧ c ∈ dom (clientIdToIpPortAndMachineIdAsString s) ∧ machine c = m.

Lemma dropped_ok L gone s clients :
  consistent L gone s →
  let gone' := gone ∪ (dom (clientIdToIpPortAndMachineIdAsString s) ∖ connected_clients clients) in
  let workers : gset Id :=
    list_to_set (omap (clientIdToMachineIdAsString s) (base.elements (connected_clients clients))) in
  ∃ s', forM_ drop_worker (base.elements (activeMachineIds s ∖ workers)) s = (Ret tt, s') ∧
    consistent L gone' s' ∧
    clientIdToIpPortAndMachineIdAsString s' = clientIdToIpPortAndMachineIdAsString s ∧
    registeredIpPortAndMachineId s' = registeredIpPortAndMachineId s ∧
    ∀ m, m ∈ activeMachineIds s' → Some m ≠ ownMachineIdAsString s → up clients s m.
Proof.
  intros Hs gone' workers.
  assert (Hw : ∀ m, m ∈ workers ↔ up clients s m).
  { intros m. unfold workers, up. rewrite elem_of_list_to_set, list_elem_of_omap. split.
    - intros (c & Hc%elem_of_elements & Hm). unfold clientIdToMachineIdAsString in Hm.
      destruct (clientIdToIpPortAndMachineIdAsString s !! c) as [x|] eqn:Hx; [|done]. injection Hm as <-.
      exists c. split; [done|]. split; [by apply elem_of_dom|]. symmetry. by apply (co_client _ _ _ Hs c x).
    - intros (c & Hc & [x Hx]%elem_of_dom & <-). exists c. split; [by apply elem_of_elements|].
      by eapply client_machine. }
  destruct (drop_loop_ok L gone' (base.elements (activeMachineIds s ∖ workers)) s) as (s1 & Hrun & Hs1 & Hi1 & Hr1 & Ha1).
  - eapply consistent_more; [|exact Hs]. apply union_subseteq_l.
  - apply NoDup_elements.
  - by intros m [? _]%elem_of_elements%elem_of_difference.
  - intros m c [_ Hm]%elem_of_elements%elem_of_difference Hc Hmc. apply elem_of_union_r, elem_of_difference.
    split; [done|]. intros Hcc. apply Hm, Hw. by exists c.
  - exists s1. split_and!; try done. intros m [Hm Hl]%Ha1 Ho. destruct Hl as [Hl|]; [|done].
    apply Hw. destruct (decide (m ∈ workers)); [done|]. exfalso. apply Hl, elem_of_elements. by apply elem_of_difference.
Qed.

Lemma machines_update_ok L gone s now clients :
  consistent L gone s → (∀ c, c ∈ connected_clients clients → c ∉ gone) →
  let gone' := gone ∪ (dom (clientIdToIpPortAndMachineIdAsString s) ∖ connected_clients clients) in
  ∃ s', updateActiveMachines now (Some clients) s = (Ret tt, s') ∧ consistent L gone' s' ∧
    clientIdToIpPortAndMachineIdAsString s' = clientIdToIpPortAndMachineIdAsString s ∧
    registeredIpPortAndMachineId s' = registeredIpPortAndMachineId s ∧
    (stopFlag s || must_wait now s = false → ∀ m, Some m ≠ ownMachineIdAsString s →
       m ∈ activeMachineIds s' ↔ up clients s m).
Proof using All.
  intros Hs Hfair gone'. unfold updateActiveMachines. unfold mbind at 1, M_bind at 1, get at 1. cbn beta iota.
  destruct (stopFlag s || must_wait now s) eqn:Hwait.
  { exists s. split; [done|]. split; [|done]. eapply consistent_more; [|exact Hs]. apply union_subseteq_l. }
  destruct (dropped_ok L gone s clients Hs) as (s1 & H1' & Hs1 & Hi1 & Hr1 & Ha1). rewrite (bind_step _ _ _ _ _ H1').
  set (cs := base.elements (dom (clientIdToIpPortAndMachineIdAsString s) ∩ connected_clients clients)).
  assert (Hcs : ∀ c, c ∈ cs ↔ c ∈ connected_clients clients ∧ c ∈ dom (clientIdToIpPortAndMachineIdAsString s)).
  { intros c. unfold cs. rewrite elem_of_elements, elem_of_intersection. tauto. }
  assert (Hinfo : ∀ c, c ∈ cs → ∃ x, clientIdToIpPortAndMachineIdAsString s1 !! c = Some x ∧ x.2 = machine c).
  { intros c [_ [x Hx]%elem_of_dom]%Hcs. exists x. rewrite Hi1. split; [done|]. by apply (co_client _ _ _ Hs c x). }
  destruct (add_loop_ok cs s1) as (r & Hrun & Hr & Ha).
  { intros c Hc. destruct (Hinfo c Hc) as (x & Hx & _). by eapply client_machine. }
  rewrite (bind_step _ _ _ _ _ Hrun). set (s2 := set_machines _ _ _ s1).
  destruct (tell_loop_ok L (omap id r) s2) as (s3 & H3' & Hh3 & Heq).
  { apply (co_listens _ _ _ Hs1). } { intros c Hc. by apply Hinfo, Hr. }
  assert (Hmem : ∀ m, m ∈ machines_of cs ↔ up clients s m).
  { intros m. unfold machines_of, up. rewrite elem_of_list_to_set, list_elem_of_fmap. split.
    - intros (c & -> & [? ?]%Hcs). by exists c.
    - intros (c & ? & ? & <-). exists c. split; [done|]. by apply Hcs. }
  exists s3. split; [done|]. rewrite Heq in Hh3 |- *. unfold heard in Hh3. cbn in Hh3.
  split; [|split; [done|]; split; [done|]].
  - destruct Hs1 as [Cl Cc Cb Ck Cm Co Cg Ch]. split; cbn; try done.
    + intros m [Hm|Hm]%elem_of_union Ho; [|by apply Ck]. apply Hmem in Hm as (c & Hcc & Hc & <-).
      destruct (machineIdToClientId s1 !! machine c) eqn:Hn; [eauto|]. exfalso.
      apply Cg in Hn; [|by rewrite Hi1]. apply elem_of_union in Hn as [Hn|Hn%elem_of_difference]; [by eapply Hfair|tauto].
    + intros m [Hm|Hm]%elem_of_union; [|by apply Cm]. apply Hmem in Hm as (c & _ & [x Hx]%elem_of_dom & <-).
      by apply (co_client _ _ _ Hs c x).
    + intros m Ho. unfold heard. cbn. rewrite Hh3. fold (heard s1 L). rewrite <- Ha, !elem_of_union, (Ch m Ho). done.
  - intros _ m Ho. cbn. rewrite elem_of_union, Hmem. split; [intros [?|?]; [done|by apply Ha1]|by left].
Qed.

(** ** Histories

    The clients that have written their address, and those that were seen to be gone
    since. Fair histories: a client keeps its machine, ids of clients are not ids of
    machines, a client that is gone does not come back before it writes its
    address again, and the listener stays. *)
Definition ghost : Type := gset Id * gset Id.

Definition written (items : list (Id * option info)) : gset Id :=
  list_to_set (omap (λ x : Id * option info, match x.2 with Some _ => Some x.1 | None => None end) items).
Definition absent (introspection : option (list (Id * bool))) (known : gset Id) : gset Id :=
  match introspection with Some clients => known ∖ connected_clients clients | None => ∅ end.

Definition advance (g : ghost) (e : event) : ghost :=
  let '(known, gone) := g in
  match e with
  | NewWorkerStatus items _ i =>
      let known := known ∪ written items in (known, gone ∖ written items ∪ absent i known)
  | NewClientInfo _ i => (known, gone ∪ absent i known)
  | _ => (known, gone)
  end.

Definition none_returns (introspection : option (list (Id * bool))) (gone : gset Id) : Prop :=
  match introspection with
  | Some clients => ∀ c, c ∈ connected_clients clients → c ∉ gone
  | None => True
  end.

Definition proper_item (x : Id * option info) : Prop :=
  match x.2 with
  | Some y => y.2 = machine x.1 ∧ is_client x.1 = true ∧ is_client (machine x.1) = false
  | None => True
  end.

Definition fair (L : Listener) (g : ghost) (e : event) : Prop :=
  match e with
  | NewWorkerStatus items _ i => Forall proper_item items ∧ none_returns i (g.2 ∖ written items)
  | NewClientInfo _ i => none_returns i g.2
  | DropListener l => l ≠ L
  | _ => True
  end.
Fixpoint fair_run (L : Listener) (g : ghost) (es : list event) : Prop :=
  match es with [] => True | e :: es => fair L g e ∧ fair_run L (advance g e) es end.

Definition in_step (L : Listener) (g : ghost) (s : state) : Prop :=
  consistent L g.2 s ∧ dom (clientIdToIpPortAndMachineIdAsString s) = g.1.

Lemma status_item L gone s c x :
  consistent L gone s → proper_item (c, Some x) →
  consistent L (gone ∖ {[ c ]})
    (set_machines (activeMachineIds s) (<[c := x]> (clientIdToIpPortAndMachineIdAsString s))
       (<[x.2 := c]> (machineIdToClientId s)) s).
Proof using All.
  intros [Cl Cc Cb Ck Cm Co Cg Ch] (Hx & Hc & Hm). cbn in Hx. split; cbn; try done.
  - intros d y [[<- <-]|[_ Hd]]%lookup_insert_Some; [done|by apply Cc].
  - intros m d [[<- <-]|[_ Hd]]%lookup_insert_Some.
    + split; [rewrite lookup_insert_eq; eauto|done].
    + destruct (Cb m d Hd) as [[y Hy] ?]. split; [|done]. rewrite lookup_insert. case_decide; eauto.
  - intros m Hin Ho. rewrite lookup_insert. case_decide; [eauto|by apply Ck].
  - intros d Hd. rewrite lookup_insert_None. intros [Hn Hne]. apply elem_of_difference.
    rewrite dom_insert, elem_of_union, elem_of_singleton in Hd. destruct Hd as [->|Hd]; [by rewrite Hx in Hne|].
    split; [by apply Cg|]. rewrite elem_of_singleton. intros ->. by rewrite Hx in Hne.
Qed.

Definition write_item (y : Id * option info) : AM unit :=
  let '(clientId, value) := y in
  match value with
  | Some x =>
      modify (λ s, set_machines (activeMachineIds s)
        (<[clientId := x]> (clientIdToIpPortAndMachineIdAsString s))
        (<[x.2 := clientId]> (machineIdToClientId s)) s)
  | None => mret tt
  end.

Lemma status_loop L items : ∀ g s,
  in_step L g s → Forall proper_item items →
  ∃ s', forM_ write_item items s = (Ret tt, s') ∧ in_step L (g.1 ∪ written items, g.2 ∖ written items) s'.
Proof using All.
  induction items as [|[c [x|]] items IH]; intros g s [Hs Hd] Hf.
  - exists s. split; [done|]. unfold written. cbn. split; cbn; [by rewrite difference_empty_L|by rewrite union_empty_r_L].
  - apply Forall_cons in Hf as [Hc Hf].
    assert (Hin : in_step L (g.1 ∪ {[ c ]}, g.2 ∖ {[ c ]})
      (set_machines (activeMachineIds s) (<[c := x]> (clientIdToIpPortAndMachineIdAsString s))
         (<[x.2 := c]> (machineIdToClientId s)) s)).
    { split; [exact (status_item L g.2 s c x Hs Hc)|]. cbn. rewrite dom_insert_L, Hd. apply (union_comm_L _ _). }
    destruct (IH _ _ Hin Hf) as (s' & Hrun & Hs'). exists s'. split; [exact Hrun|]. cbn [fst snd] in Hs'.
    replace (g.1 ∪ written ((c, Some x) :: items)) with (g.1 ∪ {[ c ]} ∪ written items) by (unfold written; cbn; set_solver).
    by replace (g.2 ∖ written ((c, Some x) :: items)) with (g.2 ∖ {[ c ]} ∖ written items) by (unfold written; cbn; set_solver).
  - apply Forall_cons in Hf as [_ Hf]. destruct (IH g s (conj Hs Hd) Hf) as (s' & Hrun & Hs').
    exists s'. split; [exact Hrun|exact Hs'].
Qed.

(** How an event can end. *)
Definition ends (e : event) (r : res unit) : Prop :=
  r = Ret tt ∨
  match e with
  | AddListener _ => r = Raise KeyError
  | NewWorkerStatus _ _ None | NewClientInfo _ None => r = Raise UserWarning
  | _ => False
  end.

Lemma update_step L g s now i :
  in_step L g s → none_returns i g.2 →
  (((updateActiveMachines now i s).1 = Ret tt) ∨ (i = None ∧ (updateActiveMachines now i s).1 = Raise UserWarning)) ∧
  in_step L (g.1, g.2 ∪ absent i g.1) (updateActiveMachines now i s).2.
Proof using All.
  intros [Hs Hd] Hf. destruct i as [clients|]; cbn [absent].
  - destruct (machines_update_ok L g.2 s now clients Hs Hf) as (s' & -> & Hs' & Hi & _). split; [by left|].
    rewrite Hd in Hs'. split; [done|]. cbn. by rewrite Hi.
  - rewrite union_empty_r_L. unfold updateActiveMachines, mbind, M_bind, get, setDisconnected, modify, raise. cbn beta iota.
    destruct (stopFlag s || must_wait now s); cbn [fst snd]; (split; [auto|]); (split; [|done]); destruct Hs; by split.
Qed.

Lemma add_listener_step L g s l :
  in_step L g s →
  ((addListener l s).1 = Ret tt ∨ (addListener l s).1 = Raise KeyError) ∧ in_step L g (addListener l s).2.
Proof using All.
  intros [[Cl Cc Cb Ck Cm Co Cg Ch] Hd]. unfold addListener, mbind, M_bind, get, modify. cbn beta iota.
  set (s1 := set_listeners _ _ _ _ s).
  assert (Hs1 : in_step L g s1).
  { split; [|done]. split; cbn; try done. by apply elem_of_union_r. }
  destruct (base.elements (activeMachineIds s1)) as [|m ms] eqn:Hms.
  { cbn. auto. }
  rewrite forM__cons. unfold mbind, M_bind, lift.
  assert (Hm : m ∈ activeMachineIds s).
  { change (m ∈ activeMachineIds s1). apply elem_of_elements. rewrite Hms. left. }
  destruct (clientIdToIpPortAndMachineIdAsString s1 !! m) as [x|] eqn:Hx.
  { exfalso. apply Cc in Hx as (_ & Hx & _). by rewrite (Cm m Hm) in Hx. }
  cbn. auto.
Qed.

Lemma reconnected_step L g s now :
  in_step L g s → (reconnected now s).1 = Ret tt ∧ in_step L g (reconnected now s).2.
Proof using All.
  intros [[Cl Cc Cb Ck Cm Co Cg Ch] Hd]. unfold reconnected, own_is_active, mbind, M_bind, modify. cbn beta iota.
  set (s1 := set_connection _ _ _ _).
  destruct (notify_ok L ReconnectedToSharedState s1 Cl) as (s2 & -> & Hh & Heq).
  assert (Ha : ∀ m, m ∈ activeMachineIds s1 ↔ m ∈ activeMachineIds s ∨ Some m = ownMachineIdAsString s).
  { intros m. unfold s1. cbn. destruct (ownMachineIdAsString s) as [o|].
    - rewrite elem_of_union, elem_of_singleton. naive_solver.
    - naive_solver. }
  split; [done|]. rewrite Heq in Hh |- *. cbn [fst snd]. split; [|done].
  split; try done.
  - intros m Hm Ho. apply Ck; [|done]. by apply Ha in Hm as [?|?].
  - intros m Hm. apply Ha in Hm as [?|?]; [by apply Cm|by apply Co].
  - intros m Ho. rewrite Hh. change (m ∈ heard s L ↔ m ∈ activeMachineIds s1). rewrite Ch, Ha by done.
    split; [auto|by intros [?|?]].
Qed.

Lemma dispatch_step L g s : in_step L g s → in_step L g (dispatchOne s).2.
Proof using All.
  intros [[Cl Cc Cb Ck Cm Co Cg Ch] Hd]. unfold dispatchOne, modify. cbn [snd].
  destruct (outgoingNotifications s) as [|n q] eqn:Hq; [done|]. destruct (stopFlag s); [done|].
  split; [|done]. split; try done.
  intros m Ho. unfold heard. cbn. rewrite <- app_assoc. cbn.
  rewrite <- Hq. fold (heard s L). by apply Ch.
Qed.

Lemma drop_listener_step L g s l :
  l ≠ L → in_step L g s → in_step L g (dropListener l s).2.
Proof using All.
  intros Hl [[Cl Cc Cb Ck Cm Co Cg Ch] Hd]. unfold dropListener, modify. cbn [snd].
  destruct (decide (l ∈ listeners_ s)) as [Hin|Hin]; [rewrite bool_decide_true by done|by rewrite bool_decide_false by done].
  split; [|done]. split; try done. cbn. apply elem_of_difference. split; [done|].
  rewrite elem_of_singleton. congruence.
Qed.

(** Every event of a fair history ends as it should, and keeps the invariant. *)
Lemma handle_step L g s e :
  in_step L g s → fair L g e → ends e (handle e s).1 ∧ in_step L (advance g e) (handle e s).2.
Proof using All.
  intros Hs Hf. destruct g as [known gone]. destruct e as [items now i|now i|now|now| |l|l]; cbn [handle advance fair] in *.
  - destruct Hf as [Hit Hn]. unfold onNewWorkerStatus.
    destruct (status_loop L items _ s Hs Hit) as (s1 & Hrun & Hs1).
    rewrite (bind_step _ _ _ _ _ Hrun). cbn [fst snd] in Hs1.
    destruct (update_step L _ s1 now i Hs1 Hn) as [Hr Hs2]. split; [|exact Hs2].
    destruct Hr as [->|[-> ->]]; [by left|by right].
  - unfold onNewClientInfo. destruct (update_step L _ s now i Hs Hf) as [Hr Hs2]. split; [|exact Hs2].
    destruct Hr as [->|[-> ->]]; [by left|by right].
  - split; [by left|]. destruct Hs as [Hs Hd]. split; [|done]. destruct Hs; by split.
  - destruct (reconnected_step L _ s now Hs). split; [by left|done].
  - split; [by left|by apply dispatch_step].
  - destruct (add_listener_step L _ s l Hs). done.
  - split; [by left|by apply drop_listener_step].
Qed.

Definition ghost_after (es : list event) : ghost := foldl advance (∅, ∅) es.

Lemma run_step L es : ∀ g s,
  in_step L g s → fair_run L g es → in_step L (foldl advance g es) (run es s).
Proof using All.
  induction es as [|e es IH]; intros g s Hs; [done|]. intros [He Hes]. cbn.
  apply IH; [|done]. by apply handle_step.
Qed.

Lemma start_step L registered :
  (∀ x, registered = Some x → is_client x.2 = false) →
  in_step L (∅, ∅) (handle (AddListener L) (init registered)).2.
Proof using All.
  intros Hr. split; [|by apply dom_empty_L]. split; cbn; try done.
  - by apply elem_of_union_l, elem_of_singleton.
  - intros m. unfold ownMachineIdAsString. cbn. destruct registered as [x|]; [|done]. intros [= <-]. by apply Hr.
Qed.

(** C23. A listener that was there from the start of a fair history, once it has been told
    all that is in the queue, knows of the machines other than the own one precisely
    those that are active; the handler of every further fair event ends without an
    exception, but for [addListener], which may raise [KeyError], and a reading of the
    shared state that fails; and as soon as the connection is stable, reading the
    clients makes the active machines those of the clients that are connected and
    have written their address. *)
Theorem listeners_know_the_machines L registered es :
  (∀ x, registered = Some x → is_client x.2 = false) →
  fair_run L (∅, ∅) es →
  let s := run (AddListener L :: es) (init registered) in
  (∀ m, Some m ≠ ownMachineIdAsString s → m ∈ heard s L ↔ m ∈ activeMachineIds s) ∧
  (∀ e, fair L (ghost_after es) e → ends e (handle e s).1) ∧
  (∀ now clients, none_returns (Some clients) (ghost_after es).2 → stopFlag s || must_wait now s = false →
     ∀ m, Some m ≠ ownMachineIdAsString s →
       m ∈ activeMachineIds (handle (NewClientInfo now (Some clients)) s).2 ↔ up clients s m).
Proof using All.
  intros Hr Hf s. assert (Hs : in_step L (ghost_after es) s).
  { change s with (run es (handle (AddListener L) (init registered)).2).
    apply run_step; [by apply start_step|done]. }
  split_and!.
  - apply Hs.
  - intros e He. by apply (handle_step L (ghost_after es)).
  - intros now clients Hn Hw m Ho. cbn [handle]. unfold onNewClientInfo.
    destruct (machines_update_ok L _ s now clients (proj1 Hs) Hn) as (s' & -> & _ & _ & _ & Hup). by apply Hup.
Qed.
End machines.

(** ** Samples: clients [1], [2], ... with the machines [101], [102], ... *)
Module MachineSamples.

Definition machine (c : nat) : nat := 100 + c.
Definition is_client (c : nat) : bool := bool_decide (c < 100).
Definition address (c : nat) : Z * list Z * nat := ((167772160 + Z.of_nat c, [30009])%Z, machine c).

Definition history : list (@event nat Z nat) :=
  [ Reconnected 0;
    NewWorkerStatus [(1, Some (address 1)); (2, Some (address 2)); (9, None)] 10 (Some [(1, false); (2, false)]);
    Dispatch;
    NewClientInfo 20 (Some [(1, false); (2, true); (3, false)]);
    Disconnected 30;
    NewClientInfo 40 (Some [(1, false)]);
    Reconnected 50;
    NewWorkerStatus [(3, Some (address 3))] 6000000 (Some [(1, false); (2, true); (3, false)]);
    Dispatch ].

Definition registered : option (Z * list Z * nat) := Some (address 4).

Example the_fourth_of_four_machines :
  let s := run (AddListener 7 :: history) (init registered) in
  base.elements (activeMachineIds s) ≡ₚ [101; 103; 104] ∧ base.elements (heard s 7) ≡ₚ [101; 103].
Proof. vm_compute. split; repeat (solve_Permutation || apply perm_swap). Qed.

Lemma none_returns_decide (clients : list (nat * bool)) (gone : gset nat) :
  bool_decide (set_Forall (λ c, c ∉ gone) (connected_clients clients)) → none_returns (Some clients) gone.
Proof. intros H. exact (bool_decide_unpack _ H). Qed.

Lemma listeners_know_the_machines_witness :
  let s := run (AddListener 7 :: history) (init registered) in
  (∀ m, Some m ≠ ownMachineIdAsString s → m ∈ heard s 7 ↔ m ∈ activeMachineIds s) ∧
  (∀ e, fair machine is_client 7 (ghost_after history) e → ends e (handle e s).1) ∧
  (∀ now clients, none_returns (Some clients) (ghost_after history).2 → stopFlag s || must_wait now s = false →
     ∀ m, Some m ≠ ownMachineIdAsString s →
       m ∈ activeMachineIds (handle (NewClientInfo now (Some clients)) s).2 ↔ up machine clients s m).
Proof.
  apply (listeners_know_the_machines machine is_client 7 registered history).
  - intros x [= <-]. vm_compute. reflexivity.
  - repeat first [ exact I | apply conj | apply List.Forall_nil | apply List.Forall_cons
      | vm_compute; reflexivity | apply none_returns_decide; vm_compute; exact I ].
Defined.

(** A second listener that arrives while a machine is active: its id is looked up among
    the clients. *)
Lemma a_late_listener_raises :
  (handle (AddListener 8) (run (AddListener 7 :: history) (init registered))).1 = Raise KeyError.
Proof. vm_compute. reflexivity. Qed.

(** A client that is seen again after it was gone makes its machine active, but the
    machine can not be dropped a second time. *)
Lemma dropped_twice :
  let up_again := [ NewClientInfo 20 (Some [(1, true)]); NewClientInfo 30 (Some [(1, false)]) ] in
  let s := run (AddListener 7 :: NewWorkerStatus [(1, Some (address 1))] 10 (Some [(1, false)]) :: up_again)
             (init registered) in
  base.elements (activeMachineIds s) = [101] ∧
  (handle (NewClientInfo 40 (Some [(1, true)])) s).1 = Raise AssertionError.
Proof. vm_compute. split; reflexivity. Qed.
End MachineSamples.
