(* ===== verification/CumulusService.v ===== *)
(** * Connections between workers ([ufora/cumulus/distributed/CumulusService.py])

    A worker listens on two ports ([MultiChannelListener]) and hears of other workers
    ([CumulusActiveMachines]). Of two workers the one with the smaller id dials the other's
    two ports; a handshake on both sides gives each channel a group, and the channels of a
    group become a connection to the other worker. The scheduler, the ids and their
    serialisation are native: parameters. Threads are tasks whose steps interleave: what a
    handler does under the lock is one step. [dropMachine] is called after the lock was
    released, which is a step of its own; any call of the scheduler may raise. The two
    locked parts of [performConnect] are one step: what may come between them is a stop,
    which is as if it came after, or a drop, which is as if it came before. *)
From Stdlib Require Import Lia Ascii.
From stdpp Require Import base gmap sets list strings fin_maps.
From S2P Require Import Prelude MultiChannelListener.
Set Default Proof Using "Type".

(** What the handshake needs of the native ids and hashes. *)
Class Wire (MachineId ClientId Guid Hash : Type) := {
  machine_getstate : MachineId → string;
  machine_setstate : string → res MachineId;
  who_getstate : ClientId + MachineId → string;
  who_setstate : string → res (ClientId + MachineId);
  guid_getstate : Guid → string;
  guid_setstate : string → res Guid;
  hash_getstate : Hash → string;
  hash_setstate : string → res Hash }.

(** What is written is read back. *)
Class WireLaws (MachineId ClientId Guid Hash : Type) `{Wire MachineId ClientId Guid Hash} := {
  machine_wire m : machine_setstate (machine_getstate m) = Ret m;
  who_wire w : who_setstate (who_getstate w) = Ret w;
  guid_wire g : guid_setstate (guid_getstate g) = Ret g;
  hash_wire h : hash_setstate (hash_getstate h) = Ret h }.

Section service.
Context {MachineId ClientId Guid Hash Channel Address : Type}
  `{Countable MachineId, Countable ClientId, Countable Guid, Countable Channel, EqDecision Hash}
  `{!Wire MachineId ClientId Guid Hash}.
(** [<=] of machine ids; the version and the hash of the builtins of this process. *)
Context (le : MachineId → MachineId → bool) (version : string) (builtinHash : Hash).

(** A client ([inl]) or a machine ([inr]), with the guid of its connection. *)
Notation group := ((ClientId + MachineId) * Guid)%type.
Notation listening := (MultiChannelListener.state (Channel := Channel) (Group := group)).

(** Calls of the native scheduler. *)
Inductive worker_call :=
| AddMachine (m : MachineId) (channels : list Channel)
| DropMachine (m : MachineId)
| AddCumulusClient (c : ClientId) (channels : list Channel).

(** A thread that runs [onWorkerAdd2], and where it is in its loop. *)
Inductive position := Checking | Dialing | Registering.
Record connector := {
  cn_machine : MachineId; cn_ip : Address; cn_ports : list Z; cn_guid : Guid;
  cn_channels : list Channel; cn_at : position }.

Record state := {
  machineId : MachineId;
  channelListener : listening;
  connectedMachines : gset MachineId;
  connectingMachines : gset MachineId;
  droppedMachineIds : gset MachineId;
  stopping : bool;
  (** Threads that run [performConnect] and [onWorkerAdd2]. *)
  connects : list (list Channel * group);
  connectors : gmap nat connector;
  (** What was written to channels, closed, and told the scheduler; the calls that it
      answered with an exception. *)
  written : list (Channel * string);
  closed : list Channel;
  calls : list worker_call;
  failed : list worker_call;
  (** Threads in [onWorkerDrop] between the lock and [dropMachine]. *)
  dropping : list MachineId }.

Definition init (self : MachineId) : state :=
  {| machineId := self; channelListener := MultiChannelListener.init 2; connectedMachines := ∅;
     connectingMachines := ∅; droppedMachineIds := ∅; stopping := false; connects := []; connectors := ∅;
     written := []; closed := []; calls := []; failed := []; dropping := [] |}.

Definition set_machines (a b d : gset MachineId) (c : list worker_call) (s : state) : state :=
  {| machineId := machineId s; channelListener := channelListener s; connectedMachines := a;
     connectingMachines := b; droppedMachineIds := d; stopping := stopping s; connects := connects s;
     connectors := connectors s; written := written s; closed := closed s; calls := c; failed := failed s;
     dropping := dropping s |}.
Definition set_threads (l : list (list Channel * group)) (t : gmap nat connector) (b : bool) (s : state) : state :=
  {| machineId := machineId s; channelListener := channelListener s; connectedMachines := connectedMachines s;
     connectingMachines := connectingMachines s; droppedMachineIds := droppedMachineIds s; stopping := b;
     connects := l; connectors := t; written := written s; closed := closed s; calls := calls s; failed := failed s;
     dropping := dropping s |}.
Definition set_channels (l : listening) (w : list (Channel * string))
    (c : list Channel) (s : state) : state :=
  {| machineId := machineId s; channelListener := l; connectedMachines := connectedMachines s;
     connectingMachines := connectingMachines s; droppedMachineIds := droppedMachineIds s; stopping := stopping s;
     connects := connects s; connectors := connectors s; written := w; closed := c; calls := calls s; failed := failed s;
     dropping := dropping s |}.
Definition set_drops (f : list worker_call) (d : list MachineId) (s : state) : state :=
  {| machineId := machineId s; channelListener := channelListener s; connectedMachines := connectedMachines s;
     connectingMachines := connectingMachines s; droppedMachineIds := droppedMachineIds s; stopping := stopping s;
     connects := connects s; connectors := connectors s; written := written s; closed := closed s; calls := calls s;
     failed := f; dropping := d |}.

Notation SM := (M state).

Definition disconnect (c : Channel) : SM unit :=
  modify (λ s, set_channels (channelListener s) (written s) (closed s ++ [c]) s).
Definition write (c : Channel) (msg : string) : SM unit :=
  modify (λ s, set_channels (channelListener s) (written s ++ [(c, msg)]) (closed s) s).
(** A call of the scheduler, which may raise; then it has not done what it was asked. *)
Definition call (raises : bool) (c : worker_call) : SM unit :=
  if raises then modify (λ s, set_drops (failed s ++ [c]) (dropping s) s) ;; raise (OtherException "scheduler")
  else modify (λ s, set_machines (connectedMachines s) (connectingMachines s) (droppedMachineIds s) (calls s ++ [c]) s).

(** A call of the channel listener. Each of its calls of [onConnectionAvailable] starts a
    thread. *)
Definition in_listener {A} (m : M listening A) : SM A := λ s,
  let '(r, l) := m (channelListener s) in
  let started := drop (length (completed (channelListener s))) (completed l) in
  (r, set_threads (connects s ++ started) (connectors s) (stopping s) (set_channels l (written s) (closed s) s)).

(** ** The side that is dialed *)

Definition isOwnHashInHandshakeMessage (s : state) (message : option string) : bool :=
  match message with
  | None => false
  | Some msg => match machine_setstate msg with Ret m => bool_decide (m = machineId s) | Raise _ => false end
  end.

(** The four messages that are read from the channel, [None] after the timeout. *)
Definition doChannelHandshake (channel : Channel) (version_ own who guid : option string) (now : Z) : SM unit :=
  catch
    (if bool_decide (version_ ≠ Some version) then disconnect channel
     else
       s ← get;
       if negb (isOwnHashInHandshakeMessage s own) then disconnect channel
       else
         match who with
         | None => disconnect channel
         | Some msg =>
             clientOrMachine ← lift (who_setstate msg);
             match guid with
             | None => disconnect channel
             | Some msg =>
                 hashGuid ← lift (guid_setstate msg);
                 write channel (hash_getstate builtinHash) ;;
                 in_listener (setGroupIdForAcceptedChannel channel (clientOrMachine, hashGuid) now)
             end
         end)
    (λ _, disconnect channel).

(** A new channel; the handshake runs in a thread of its own. *)
Definition onChannelConnect (cumulusChannel : Channel) : SM unit :=
  s ← get;
  when (stopping s) (in_listener (rejectIncomingChannel cumulusChannel)).

(** A thread that [onConnectionAvailable] started. *)
Definition performConnect (raises : bool) (channels : list Channel) (clientOrMachineAndGuid : group) : SM unit :=
  s ← get;
  if stopping s then forM_ disconnect channels
  else
    match clientOrMachineAndGuid.1 with
    | inr m =>
        if bool_decide (m ∈ droppedMachineIds s) then mret tt
        else
          modify (λ s, set_machines ({[ m ]} ∪ connectedMachines s) (connectingMachines s) (droppedMachineIds s) (calls s) s) ;;
          call raises (AddMachine m channels)
    | inl c => call raises (AddCumulusClient c channels)
    end.

(** ** The side that dials *)

(** What [onWorkerDrop] does under the lock; its thread goes on to [dropMachine] if it had
    the machine. *)
Definition onWorkerDrop (m : MachineId) : SM unit :=
  s ← get;
  if bool_decide (m = machineId s) then mret tt
  else
    let hadMachine := bool_decide (m ∈ connectedMachines s) in
    put (set_machines (connectedMachines s ∖ {[ m ]}) (connectingMachines s ∖ {[ m ]})
           ({[ m ]} ∪ droppedMachineIds s) (calls s) s) ;;
    when hadMachine (modify (λ s, set_drops (failed s) (dropping s ++ [m]) s)).

(** The rest of it, outside the lock: an exception is logged and raised again. *)
Definition callDropMachine (raises : bool) (k : nat) : SM unit :=
  s ← get;
  match dropping s !! k with
  | None => mret tt
  | Some m => put (set_drops (failed s) (delete k (dropping s)) s) ;; call raises (DropMachine m)
  end.

(** The thread gets the id [tid]. *)
Definition onWorkerAdd (ip : Address) (ports : list Z) (m : MachineId) (guid : Guid) (tid : nat) : SM unit :=
  s ← get;
  if le m (machineId s) then mret tt
  else
    put (set_machines (connectedMachines s) ({[ m ]} ∪ connectingMachines s) (droppedMachineIds s) (calls s) s) ;;
    modify (λ s, set_threads (connects s)
      (<[tid := {| cn_machine := m; cn_ip := ip; cn_ports := ports; cn_guid := guid; cn_channels := [];
                   cn_at := Checking |}]> (connectors s)) (stopping s) s).

(** What a worker writes to a channel that it dialed. *)
Definition handshake_messages (self m : MachineId) (guid : Guid) : list string :=
  [version; machine_getstate m; who_getstate (inr self); guid_getstate guid].

(** An attempt to reach a port: the channel that was created, and the reply to the
    handshake, [None] after the timeout. *)
Notation attempt := (res Channel * option string)%type.

Definition connectToRemoteWorker (m : MachineId) (guid : Guid) (a : attempt) : SM (option Channel) :=
  stringChannel ← lift a.1;
  s ← get;
  forM_ (write stringChannel) (handshake_messages (machineId s) m guid) ;;
  match a.2 with
  | None => mret None
  | Some msg =>
      otherWorkersBuiltinHash ← lift (hash_setstate msg);
      if bool_decide (otherWorkersBuiltinHash = builtinHash) then mret (Some stringChannel)
      else disconnect stringChannel ;; mret None
  end.

(** The calls of it for a port, three at most. Attempts that are not listed had no reply. *)
Fixpoint dial_port (m : MachineId) (guid : Guid) (tries : nat) (attempts : list attempt) : SM (option Channel) :=
  match tries, attempts with
  | S tries, a :: attempts =>
      channel ← connectToRemoteWorker m guid a;
      match channel with Some c => mret (Some c) | None => dial_port m guid tries attempts end
  | _, _ => mret None
  end.

(** The loop over the ports: the channels, and whether it ended. A port that gave no
    channel is passed over. *)
Fixpoint dial_ports (m : MachineId) (guid : Guid) (dials : list (list attempt)) (channels : list Channel) :
    SM (list Channel * bool) :=
  match dials with
  | [] => mret (channels, true)
  | attempts :: dials =>
      tried ← catch (channel ← dial_port m guid 3 attempts; mret (Some channel)) (λ _, mret None);
      match tried with
      | Some (Some c) => dial_ports m guid dials (channels ++ [c])
      | Some None => dial_ports m guid dials channels
      | None => mret (channels, false)
      end
  end.

Definition shouldConnectToMachine (s : state) (m : MachineId) : bool :=
  bool_decide (m ∈ connectingMachines s) && negb (stopping s).

Definition set_connector (tid : nat) (c : option connector) : SM unit :=
  modify (λ s, set_threads (connects s) (partial_alter (λ _, c) tid (connectors s)) (stopping s) s).
Definition at_position (c : connector) (l : list Channel) (p : position) : connector :=
  {| cn_machine := cn_machine c; cn_ip := cn_ip c; cn_ports := cn_ports c; cn_guid := cn_guid c;
     cn_channels := l; cn_at := p |}.

(** One step of the thread [tid] in [onWorkerAdd2]; [dials] are the attempts to connect to
    each of the ports. An exception of the scheduler is logged, and the loop goes on. *)
Definition onWorkerAdd2 (raises : bool) (tid : nat) (dials : list (list attempt)) : SM unit :=
  s ← get;
  match connectors s !! tid with
  | None => mret tt
  | Some c =>
      match cn_at c with
      | Checking =>
          if negb (bool_decide (length (cn_ports c) = 2)) then set_connector tid None
          else if shouldConnectToMachine s (cn_machine c) then
            forM_ disconnect (cn_channels c) ;; set_connector tid (Some (at_position c [] Dialing))
          else set_connector tid None
      | Dialing =>
          dialed ← dial_ports (cn_machine c) (cn_guid c) (take (length (cn_ports c)) dials) [];
          set_connector tid (Some (at_position c dialed.1 (if dialed.2 : bool then Registering else Checking)))
      | Registering =>
          (* a machine that was dropped is only logged *)
          modify (λ s, set_machines ({[ cn_machine c ]} ∪ connectedMachines s)
            (connectingMachines s ∖ {[ cn_machine c ]}) (droppedMachineIds s) (calls s) s) ;;
          catch (call raises (AddMachine (cn_machine c) (cn_channels c)) ;; set_connector tid None)
            (λ _, set_connector tid (Some (at_position c (cn_channels c) Checking)))
      end
  end.

(** ** Histories *)

Inductive event :=
| Accepted (portIndex : nat) (c : Channel) (now later : Z)
| Handshake (c : Channel) (version_ own who guid : option string) (now : Z)
| Perform (k : nat)
| WorkerAdd (ip : Address) (ports : list Z) (m : MachineId) (guid : Guid) (tid : nat)
| WorkerDrop (m : MachineId)
| CallDropMachine (k : nat)
| Step (tid : nat) (dials : list (list attempt))
| Stop
(** A step in which the call of the scheduler raises. *)
| Failing (e : event).

Fixpoint handle_ (raises : bool) (e : event) : SM unit :=
  match e with
  | Accepted portIndex c now later =>
      in_listener (accept portIndex c now) ;;
      onChannelConnect c ;;
      in_listener (cleanupOrphanedChannels later)
  | Handshake c v own who guid now => doChannelHandshake c v own who guid now
  | Perform k =>
      s ← get;
      match connects s !! k with
      | None => mret tt
      | Some (channels, g) =>
          put (set_threads (delete k (connects s)) (connectors s) (stopping s) s) ;; performConnect raises channels g
      end
  | WorkerAdd ip ports m guid tid => onWorkerAdd ip ports m guid tid
  | WorkerDrop m => onWorkerDrop m
  | CallDropMachine k => callDropMachine raises k
  | Step tid dials => onWorkerAdd2 raises tid dials
  | Stop => modify (λ s, set_threads (connects s) (connectors s) true s)
  | Failing e => handle_ true e
  end.
Definition handle : event → SM unit := handle_ false.
Definition run (es : list event) (s : state) : state := foldl (λ s e, (handle e s).2) s es.

(** ** Machines that are connected *)

(** The machines the scheduler has after some calls. *)
Definition scheduled (cs : list worker_call) : gset MachineId :=
  foldl (λ a c, match c with AddMachine m _ => {[ m ]} ∪ a | DropMachine m => a ∖ {[ m ]} | AddCumulusClient _ _ => a end) ∅ cs.

Lemma scheduled_snoc cs c :
  scheduled (cs ++ [c]) =
    match c with
    | AddMachine m _ => {[ m ]} ∪ scheduled cs
    | DropMachine m => scheduled cs ∖ {[ m ]}
    | AddCumulusClient _ _ => scheduled cs
    end.
Proof. unfold scheduled. by rewrite foldl_app. Qed.

(** What the machines depend on. *)
Notation view :=
  (MachineId * gset MachineId * gset MachineId * gset MachineId * list worker_call * list worker_call * list MachineId)%type.
Definition machines_of (s : state) : view :=
  (machineId s, connectedMachines s, connectingMachines s, droppedMachineIds s, calls s, failed s, dropping s).

(** No thread is about to register a machine that was dropped meanwhile. *)
Fixpoint in_time (e : event) (s : state) : Prop :=
  match e with
  | Step tid _ => ∀ c, connectors s !! tid = Some c → cn_at c = Registering → cn_machine c ∉ droppedMachineIds s
  | Failing e => in_time e s
  | _ => True
  end.
Fixpoint timely (es : list event) (s : state) : Prop :=
  match es with [] => True | e :: es => in_time e s ∧ timely es (handle e s).2 end.

(** Of the machines that were never dropped, the scheduler has those that are connected,
    but for those that it refused. *)
Record connected_ok (self : MachineId) (s : state) : Prop := {
  ok_self : machineId s = self;
  ok_scheduled m : m ∉ droppedMachineIds s → m ∈ scheduled (calls s) → m ∈ connectedMachines s;
  ok_refused m : m ∉ droppedMachineIds s → m ∈ connectedMachines s →
    m ∈ scheduled (calls s) ∨ ∃ l, AddMachine m l ∈ failed s;
  ok_connecting m : m ∈ connectingMachines s → le m self = false;
  ok_dropping m : m ∈ dropping s → m ∈ droppedMachineIds s }.

(** A machine that was dropped is not connected, and the scheduler has it only until it
    is told, or if it refused to drop it. *)
Definition dropped_ok (s : state) : Prop :=
  connectedMachines s ## droppedMachineIds s ∧
  ∀ m, m ∈ droppedMachineIds s → m ∈ scheduled (calls s) → m ∈ dropping s ∨ DropMachine m ∈ failed s.

Lemma keeps_listener {A} (v : view) (m : M listening A) :
  keeps (λ s, machines_of s = v) (in_listener m).
Proof. intros s Hs. unfold in_listener. by destruct (m (channelListener s)). Qed.
Lemma keeps_disconnect (v : view) c : keeps (λ s, machines_of s = v) (disconnect c).
Proof. by intros s Hs. Qed.
Lemma keeps_write (v : view) c msg : keeps (λ s, machines_of s = v) (write c msg).
Proof. by intros s Hs. Qed.
Lemma keeps_connector (v : view) tid c : keeps (λ s, machines_of s = v) (set_connector tid c).
Proof. by intros s Hs. Qed.
Lemma keeps_disconnects (v : view) l : keeps (λ s, machines_of s = v) (forM_ disconnect l).
Proof. apply keeps_forM_. intros; apply keeps_disconnect. Qed.

Lemma keeps_handshake (v : view) c v_ own who guid now :
  keeps (λ s, machines_of s = v) (doChannelHandshake c v_ own who guid now).
Proof.
  unfold doChannelHandshake. apply keeps_catch; [|intros; apply keeps_disconnect].
  case_bool_decide; [apply keeps_disconnect|]. apply keeps_bind; [apply keeps_get|]. intros s.
  destruct (negb _); [apply keeps_disconnect|]. destruct who; [|apply keeps_disconnect].
  apply keeps_bind; [apply keeps_lift|]. intros w. destruct guid; [|apply keeps_disconnect].
  apply keeps_bind; [apply keeps_lift|]. intros g. apply keeps_bind; [apply keeps_write|]. intros _. apply keeps_listener.
Qed.

Lemma keeps_dials (v : view) m guid dials : ∀ channels,
  keeps (λ s, machines_of s = v) (dial_ports m guid dials channels).
Proof.
  assert (Hport : ∀ attempts tries, keeps (λ s, machines_of s = v) (dial_port m guid tries attempts)).
  { induction attempts as [|a attempts IH]; intros [|tries]; try apply keeps_ret. cbn [dial_port].
    apply keeps_bind; [|intros [c|]; [apply keeps_ret|apply IH]]. unfold connectToRemoteWorker.
    apply keeps_bind; [apply keeps_lift|]. intros c. apply keeps_bind; [apply keeps_get|]. intros s.
    apply keeps_bind; [apply keeps_forM_; intros; apply keeps_write|]. intros _. destruct a.2; [|apply keeps_ret].
    apply keeps_bind; [apply keeps_lift|]. intros h. case_bool_decide; [apply keeps_ret|].
    apply keeps_bind; [apply keeps_disconnect|]. intros _. apply keeps_ret. }
  induction dials as [|attempts dials IH]; intros channels; [apply keeps_ret|]. cbn [dial_ports]. apply keeps_bind.
  - apply keeps_catch; [|intros; apply keeps_ret]. apply keeps_bind; [apply Hport|]. intros c. apply keeps_ret.
  - intros [[c|]|]; [apply IH|apply IH|apply keeps_ret].
Qed.

(** What an event does to the machines. *)
Inductive effect (in_time : Prop) (s : state) : view → Prop :=
| No_effect : effect in_time s (machines_of s)
| Dropped m : m ≠ machineId s → effect in_time s
    (machineId s, connectedMachines s ∖ {[ m ]}, connectingMachines s ∖ {[ m ]}, {[ m ]} ∪ droppedMachineIds s,
     calls s, failed s, if bool_decide (m ∈ connectedMachines s) then dropping s ++ [m] else dropping s)
| Told k m : dropping s !! k = Some m → effect in_time s
    (machineId s, connectedMachines s, connectingMachines s, droppedMachineIds s,
     calls s ++ [DropMachine m], failed s, delete k (dropping s))
| Refused_drop k m : dropping s !! k = Some m → effect in_time s
    (machineId s, connectedMachines s, connectingMachines s, droppedMachineIds s,
     calls s, failed s ++ [DropMachine m], delete k (dropping s))
| Heard m : le m (machineId s) = false → effect in_time s
    (machineId s, connectedMachines s, {[ m ]} ∪ connectingMachines s, droppedMachineIds s,
     calls s, failed s, dropping s)
| Client c l : effect in_time s
    (machineId s, connectedMachines s, connectingMachines s, droppedMachineIds s,
     calls s ++ [AddCumulusClient c l], failed s, dropping s)
| Refused_client c l : effect in_time s
    (machineId s, connectedMachines s, connectingMachines s, droppedMachineIds s,
     calls s, failed s ++ [AddCumulusClient c l], dropping s)
| Added m l a : a ⊆ connectingMachines s → (in_time → m ∉ droppedMachineIds s) → effect in_time s
    (machineId s, {[ m ]} ∪ connectedMachines s, a, droppedMachineIds s,
     calls s ++ [AddMachine m l], failed s, dropping s)
| Refused_machine m l a : a ⊆ connectingMachines s → (in_time → m ∉ droppedMachineIds s) → effect in_time s
    (machineId s, {[ m ]} ∪ connectedMachines s, a, droppedMachineIds s,
     calls s, failed s ++ [AddMachine m l], dropping s).

Lemma no_effect T s v : v = machines_of s → effect T s v.
Proof. intros ->. constructor. Qed.

Lemma effect_keeps {A} T s (m : SM A) :
  keeps (λ s', machines_of s' = machines_of s) m → effect T s (machines_of (m s).2).
Proof. intros Hm. by apply no_effect, Hm. Qed.

Lemma effect_same T s s1 v : machines_of s1 = machines_of s → effect T s1 v → effect T s v.
Proof.
  intros Heq Hv. pose proof Heq as E. unfold machines_of in E. injection E as E1 E2 E3 E4 E5 E6 E7.
  destruct Hv; rewrite ?Heq, ?E1, ?E2, ?E3, ?E4, ?E5, ?E6, ?E7 in *.
  - constructor.
  - by constructor.
  - by eapply Told.
  - by eapply Refused_drop.
  - by constructor.
  - constructor.
  - constructor.
  - by constructor.
  - by constructor.
Qed.

Lemma performConnect_effect T raises channels g (s : state) :
  effect T s (machines_of (performConnect raises channels g s).2).
Proof.
  unfold performConnect, mbind, M_bind, get. cbn beta iota.
  destruct (stopping s); [apply effect_keeps, keeps_disconnects|]. destruct (g.1) as [c|m].
  - destruct raises; [by apply (Refused_client T s c channels)|by apply (Client T s c channels)].
  - case_bool_decide as Hd; [constructor|].
    destruct raises; [by apply (Refused_machine T s m channels)|by apply (Added T s m channels)].
Qed.

Lemma onWorkerAdd2_effect raises tid dials (s : state) :
  effect (in_time (Step tid dials) s) s (machines_of (onWorkerAdd2 raises tid dials s).2).
Proof.
  unfold onWorkerAdd2, mbind, M_bind, get. cbn beta iota. destruct (connectors s !! tid) as [c|] eqn:Hc; [|constructor].
  destruct (cn_at c) eqn:Hat.
  - apply no_effect. destruct (negb _); [done|]. destruct (shouldConnectToMachine s (cn_machine c)); [|done].
    pose proof (keeps_disconnects (machines_of s) (cn_channels c) s eq_refl) as Hk.
    destruct (forM_ disconnect (cn_channels c) s) as [[u|e] s1]; exact Hk.
  - apply no_effect.
    pose proof (keeps_dials (machines_of s) (cn_machine c) (cn_guid c) (take (length (cn_ports c)) dials) [] s eq_refl) as Hk.
    by destruct (dial_ports _ _ _ _ s) as [[d|e] s1].
  - assert (Hsub : connectingMachines s ∖ {[ cn_machine c ]} ⊆ connectingMachines s) by set_solver.
    assert (Ht : in_time (Step tid dials) s → cn_machine c ∉ droppedMachineIds s) by (intros Ht; by apply (Ht c)).
    destruct raises; [by apply (Refused_machine _ s _ (cn_channels c))|by apply (Added _ s _ (cn_channels c))].
Qed.

Lemma handle_effect e : ∀ raises s, effect (in_time e s) s (machines_of (handle_ raises e s).2).
Proof.
  induction e as [p c now later|c v own who guid now|k|ip ports m guid tid|m|k|tid dials| |e IH]; intros raises s; cbn [handle_].
  - apply effect_keeps. apply keeps_bind; [apply keeps_listener|]. intros _. apply keeps_bind; [|intros; apply keeps_listener].
    apply keeps_bind; [apply keeps_get|]. intros s'. apply keeps_when, keeps_listener.
  - apply effect_keeps, keeps_handshake.
  - unfold mbind, M_bind, get. cbn beta iota. destruct (connects s !! k) as [[channels g]|] eqn:Hk; [|by apply no_effect].
    unfold put. cbn beta iota. by eapply effect_same, performConnect_effect.
  - unfold onWorkerAdd, mbind, M_bind, get. cbn beta iota.
    destruct (le m (machineId s)) eqn:Hle; [by apply no_effect|by apply (Heard _ s)].
  - unfold onWorkerDrop, mbind, M_bind, get. cbn beta iota. case_bool_decide as Hself; [by apply no_effect|].
    unfold put. cbn beta iota. pose proof (Dropped (in_time (WorkerDrop m) s) s m Hself) as Hd.
    by destruct (bool_decide (m ∈ connectedMachines s)).
  - unfold callDropMachine, mbind, M_bind, get. cbn beta iota. destruct (dropping s !! k) as [m|] eqn:Hk; [|by apply no_effect].
    destruct raises; [by apply (Refused_drop _ s k m)|by apply (Told _ s k m)].
  - apply onWorkerAdd2_effect.
  - by apply no_effect.
  - apply IH.
Qed.

Lemma elem_of_delete_other (l : list MachineId) k m m' : l !! k = Some m → m' ∈ l → m' ≠ m → m' ∈ delete k l.
Proof.
  intros Hk Hm Hne. rewrite (delete_Permutation l k m Hk) in Hm. by apply elem_of_cons in Hm as [|].
Qed.

Lemma connected_step self e raises s :
  connected_ok self s → connected_ok self (handle_ raises e s).2.
Proof.
  intros Hok. pose proof (handle_effect e raises s) as Heff.
  set (s' := (handle_ raises e s).2) in *. clearbody s'. remember (machines_of s') as v eqn:Hv.
  destruct Hok as [Hself Hsch Href Hcon Hdrop].
  destruct Heff as [|m Hm|j m Hj|j m Hj|m Hm|c l|c l|m l a Ha _|m l a Ha _]; unfold machines_of in Hv;
    injection Hv as E1 E2 E3 E4 E5 E6 E7; split;
    rewrite <- ?E1, <- ?E2, <- ?E3, <- ?E4, <- ?E5, <- ?E6, <- ?E7; try done; try (intros k; rewrite scheduled_snoc).
  - intros k [Hkm Hk]%not_elem_of_union Hin. rewrite not_elem_of_singleton in Hkm.
    apply elem_of_difference. split; [by apply Hsch|by rewrite elem_of_singleton].
  - intros k [_ Hk]%not_elem_of_union [Hin _]%elem_of_difference. by apply Href.
  - intros k [Hin _]%elem_of_difference. by apply Hcon.
  - intros k Hk. apply elem_of_union. case_bool_decide; [|right; by apply Hdrop].
    apply elem_of_app in Hk as [Hk| ->%list_elem_of_singleton]; [right; by apply Hdrop|left; by apply elem_of_singleton].
  - intros Hk [Hin _]%elem_of_difference. by apply Hsch.
  - intros Hk Hin. destruct (Href k Hk Hin) as [Hs|]; [left|by right]. apply elem_of_difference. split; [done|].
    intros ->%elem_of_singleton. by apply Hk, Hdrop, (list_elem_of_lookup_2 _ j).
  - intros k Hk. apply Hdrop. eapply elem_of_submseteq; [exact Hk|apply sublist_submseteq, sublist_delete].
  - intros k Hk Hin. destruct (Href k Hk Hin) as [Hs|[l Hl]]; [by left|right]. exists l. apply elem_of_app. by left.
  - intros k Hk. apply Hdrop. eapply elem_of_submseteq; [exact Hk|apply sublist_submseteq, sublist_delete].
  - intros k [->%elem_of_singleton|Hk]%elem_of_union; [congruence|by apply Hcon].
  - apply Hsch.
  - apply Href.
  - intros k Hk Hin. destruct (Href k Hk Hin) as [Hs|[l' Hl]]; [by left|right]. exists l'. apply elem_of_app. by left.
  - intros Hk [Hin|Hin]%elem_of_union; apply elem_of_union; [by left|right; by apply Hsch].
  - intros Hk [Hin|Hin]%elem_of_union; [left; apply elem_of_union; by left|].
    destruct (Href k Hk Hin) as [Hs|]; [left; apply elem_of_union; by right|by right].
  - intros k Hk. by apply Hcon, Ha.
  - intros k Hk Hin. apply elem_of_union. right. by apply Hsch.
  - intros k Hk [->%elem_of_singleton|Hin]%elem_of_union.
    + right. exists l. apply elem_of_app. right. by apply list_elem_of_singleton.
    + destruct (Href k Hk Hin) as [Hs|[l' Hl]]; [by left|right]. exists l'. apply elem_of_app. by left.
  - intros k Hk. by apply Hcon, Ha.
Qed.

(** A machine that the scheduler is told to drop waits in [dropping] till then. *)
Lemma dropped_step self e raises s :
  connected_ok self s → in_time e s → dropped_ok s → dropped_ok (handle_ raises e s).2.
Proof.
  intros [_ Hsch _ _ Hdrop] Ht [Hdis Hgone]. pose proof (handle_effect e raises s) as Heff.
  set (s' := (handle_ raises e s).2) in *. clearbody s'. remember (machines_of s') as v eqn:Hv.
  assert (Hmore : ∀ f m, m ∈ dropping s ∨ DropMachine m ∈ failed s →
    m ∈ dropping s ∨ DropMachine m ∈ failed s ++ f).
  { intros f m [|Hf]; [by left|right; apply elem_of_app; by left]. }
  unfold dropped_ok. rewrite elem_of_disjoint in Hdis |- *.
  destruct Heff as [|m Hm|j m Hj|j m Hj|m Hm|c l|c l|m l a Ha Hd|m l a Ha Hd]; unfold machines_of in Hv;
    injection Hv as E1 E2 E3 E4 E5 E6 E7; rewrite <- ?E2, <- ?E4, <- ?E5, <- ?E6, <- ?E7;
    try (split; [done|]); try done.
  - split; [intros k [Hk Hkm]%elem_of_difference [Hk'|Hk']%elem_of_union; [done|by apply (Hdis k)]|].
    intros k Hk Hin. destruct (decide (k ∈ droppedMachineIds s)) as [Hold|Hnew].
    + destruct (Hgone k Hold Hin) as [Hq|]; [left|by right]. case_bool_decide; [apply elem_of_app; by left|done].
    + left. apply elem_of_union in Hk as [->%elem_of_singleton|]; [|done].
      rewrite bool_decide_true by (by apply Hsch). apply elem_of_app. right. by apply list_elem_of_singleton.
  - intros k Hk. rewrite scheduled_snoc. intros [Hin Hne]%elem_of_difference. rewrite elem_of_singleton in Hne.
    destruct (Hgone k Hk Hin) as [Hq|]; [left; by eapply elem_of_delete_other|by right].
  - intros k Hk Hin. destruct (decide (k = m)) as [->|Hne].
    + right. apply elem_of_app. right. by apply list_elem_of_singleton.
    + destruct (Hgone k Hk Hin) as [Hq|Hq]; [left; by eapply elem_of_delete_other|right; apply elem_of_app; by left].
  - intros k Hk. rewrite scheduled_snoc. by apply Hgone.
  - intros k Hk Hin. by apply Hmore, Hgone.
  - specialize (Hd Ht). split; [intros k [->%elem_of_singleton|Hk]%elem_of_union Hk'; [done|by apply (Hdis k)]|].
    intros k Hk. rewrite scheduled_snoc. intros [->%elem_of_singleton|Hin]%elem_of_union; [done|by apply Hgone].
  - specialize (Hd Ht). split; [intros k [->%elem_of_singleton|Hk]%elem_of_union Hk'; [done|by apply (Hdis k)]|].
    intros k Hk Hin. by apply Hmore, Hgone.
Qed.

(** C21. In every history of connections, handshakes, threads and news of workers, in which
    calls of the scheduler may raise and other threads may run between the two halves of
    [onWorkerDrop]: of the machines that were never dropped, the scheduler has those that
    the service counts as connected, but for those whose [addMachine] raised; the service
    dials only machines with greater ids; and as long as no thread registers a connection
    to a machine that was dropped while it was dialed, no dropped machine is connected, and
    the scheduler has one only until its [dropMachine] is called, or if that raised. *)
Theorem connections_are_the_schedulers self es :
  let s := run es (init self) in
  (∀ m, m ∉ droppedMachineIds s →
     (m ∈ scheduled (calls s) → m ∈ connectedMachines s) ∧
     (m ∈ connectedMachines s → m ∈ scheduled (calls s) ∨ ∃ l, AddMachine m l ∈ failed s)) ∧
  (∀ m, m ∈ connectingMachines s → le m self = false) ∧
  (timely es (init self) →
     connectedMachines s ## droppedMachineIds s ∧
     ∀ m, m ∈ droppedMachineIds s → m ∈ scheduled (calls s) → m ∈ dropping s ∨ DropMachine m ∈ failed s).
Proof.
  assert (Hrun : ∀ es s, connected_ok self s →
    connected_ok self (run es s) ∧ (timely es s → dropped_ok s → dropped_ok (run es s))).
  { clear es. induction es as [|e es IH]; intros s Hs; [done|].
    destruct (IH (handle e s).2) as [Hr Hd]; [by apply connected_step|]. split; [exact Hr|].
    intros [He Hes] Hdis. apply Hd; [done|]. by apply (dropped_step self). }
  destruct (Hrun es (init self)) as [[_ Hsch Href Hcon _] Hd].
  { split; try done; intros m Hm; by apply elem_of_nil in Hm. }
  split; [by intros m Hm; split; [apply Hsch|apply Href]|]. split; [done|]. intros Ht. apply Hd; [done|].
  split; [apply disjoint_empty_l|]. intros m Hm. by apply elem_of_empty in Hm.
Qed.

(** ** Two workers connect *)

Section meeting.
Context `{!WireLaws MachineId ClientId Guid Hash}.

(** Worker [b] reads what worker [a] writes to the channel [c]. *)
Definition meets (a b : MachineId) (guid : Guid) (c : Channel) (now : Z) : event :=
  match handshake_messages a b guid with
  | [v; own; who; g] => Handshake c (Some v) (Some own) (Some who) (Some g) now
  | _ => Stop
  end.

Lemma handshake_run a guid c now s l' :
  setGroupIdForAcceptedChannel c (inr a, guid) now (channelListener s) = (Ret tt, l') →
  handle (meets a (machineId s) guid c now) s =
    (Ret tt, set_threads (connects s ++ drop (length (completed (channelListener s))) (completed l')) (connectors s)
               (stopping s) (set_channels l' (written s ++ [(c, hash_getstate builtinHash)]) (closed s) s)).
Proof using All.
  intros Hrun. unfold meets, handshake_messages. unfold handle. cbn [handle_]. unfold doChannelHandshake, catch.
  rewrite bool_decide_false by (intros Hn; by apply Hn). unfold mbind, M_bind, get. cbn beta iota.
  unfold isOwnHashInHandshakeMessage. rewrite machine_wire, bool_decide_true by done. cbn [negb].
  unfold lift. rewrite who_wire, guid_wire. cbn beta iota. unfold write, modify, in_listener. cbn [channelListener set_channels].
  rewrite Hrun. done.
Qed.

(** The first channel of a group waits; the second one completes it. *)
Lemma first_waits (l : listening) c p e g now :
  acceptedChannels l !! c = Some (p, e) → pendingChannelGroups l !! g = None → ports l = 2 → p < 2 →
  setGroupIdForAcceptedChannel c g now l =
    (Ret tt, MultiChannelListener.set_pending
       (<[g := ((now + GROUP_COMPLETION_TIMEOUT)%Z, {[p := c]})]> (pendingChannelGroups l))
       (set_accepted (delete c (acceptedChannels l)) l)).
Proof.
  intros Hc Hg Hp Hlt. unfold setGroupIdForAcceptedChannel, mbind, M_bind, get, lift, del_accepted, modify, py_assert.
  cbn beta iota. rewrite Hc. cbn [of_option]. cbn beta iota. rewrite Hp, bool_decide_true by done. cbn beta iota.
  rewrite Hg. cbn [from_option id fst snd]. rewrite bool_decide_true by apply lookup_empty. cbn beta iota.
  rewrite insert_empty, map_size_singleton, bool_decide_false by done.
  unfold MultiChannelListener.set_pending, set_accepted. cbn. by rewrite insert_insert_eq.
Qed.

Lemma second_completes (l : listening) c p e d q exp g now :
  acceptedChannels l !! c = Some (p, e) → pendingChannelGroups l !! g = Some (exp, {[q := d]}) → ports l = 2 →
  (p = 0 ∧ q = 1) ∨ (p = 1 ∧ q = 0) →
  ∃ l', setGroupIdForAcceptedChannel c g now l = (Ret tt, l') ∧
    completed l' = completed l ++ [(if bool_decide (p = 0) then [c; d] else [d; c], g)].
Proof.
  intros Hc Hg Hp Hpq. unfold setGroupIdForAcceptedChannel, mbind, M_bind, get, lift, del_accepted, modify, py_assert.
  cbn beta iota. rewrite Hc. cbn [of_option]. cbn beta iota. rewrite Hp.
  rewrite bool_decide_true by lia. cbn beta iota. rewrite Hg. cbn [from_option id fst snd].
  assert (Hne : q ≠ p) by lia. rewrite bool_decide_true by (by apply lookup_singleton_ne). cbn beta iota.
  rewrite map_size_insert_None by (by apply lookup_singleton_ne).
  rewrite map_size_singleton, bool_decide_true by done.
  assert (Hargs : mapR (λ ix, of_option KeyError (<[p := c]> ({[q := d]} : gmap nat Channel) !! ix)) (seq 0 2) =
                  Ret (if bool_decide (p = 0) then [c; d] else [d; c])).
  { destruct Hpq as [[-> ->]|[-> ->]]; reflexivity. }
  rewrite Hargs. eexists. split; [reflexivity|]. done.
Qed.

Lemma connector_set tid c (s : state) b l :
  connectors (set_threads l (partial_alter (λ _, c) tid (connectors s)) b s) !! tid = c.
Proof. unfold set_threads. cbn [connectors]. by rewrite lookup_partial_alter_eq. Qed.

Lemma disconnects_run l (s : state) :
  forM_ disconnect l s = (Ret tt, set_channels (channelListener s) (written s) (closed s ++ l) s).
Proof.
  revert s. induction l as [|c l IH]; intros s.
  - destruct s. cbn. unfold set_channels. cbn. by rewrite app_nil_r.
  - rewrite forM__cons. unfold mbind, M_bind, disconnect at 1, modify. rewrite IH. unfold set_channels. cbn.
    by rewrite <- app_assoc.
Qed.

Lemma writes_run c l (s : state) :
  forM_ (write c) l s = (Ret tt, set_channels (channelListener s) (written s ++ ((λ m, (c, m)) <$> l)) (closed s) s).
Proof.
  revert s. induction l as [|m l IH]; intros s.
  - destruct s. cbn. unfold set_channels. cbn. by rewrite app_nil_r.
  - rewrite forM__cons. unfold mbind, M_bind, write at 1, modify. rewrite IH. unfold set_channels. cbn.
    by rewrite <- app_assoc.
Qed.

(** The messages of a handshake on a channel. *)
Definition asks (a b : MachineId) (guid : Guid) (c : Channel) : list (Channel * string) :=
  (λ m, (c, m)) <$> handshake_messages a b guid.
(** The attempt that gives a channel, and is answered with the hash of the same builtins. *)
Definition answered (d : Channel) : res Channel * option string := (Ret d, Some (hash_getstate builtinHash)).

Lemma connect_run m guid d (s : state) :
  connectToRemoteWorker m guid (answered d) s =
    (Ret (Some d), set_channels (channelListener s) (written s ++ asks (machineId s) m guid d) (closed s) s).
Proof using All.
  unfold connectToRemoteWorker, mbind, M_bind, get, lift, answered. cbn [fst snd]. rewrite writes_run, hash_wire.
  cbn beta iota. by rewrite bool_decide_true.
Qed.

Lemma dials_run m guid d0 d1 (s : state) :
  dial_ports m guid [[answered d0]; [answered d1]] [] s =
    (Ret ([d0; d1], true),
     set_channels (channelListener s) (written s ++ asks (machineId s) m guid d0 ++ asks (machineId s) m guid d1) (closed s) s).
Proof using All.
  assert (Hone : ∀ d s, dial_port m guid 3 [answered d] s =
    (Ret (Some d), set_channels (channelListener s) (written s ++ asks (machineId s) m guid d) (closed s) s)).
  { intros d s'. cbn [dial_port]. unfold mbind, M_bind. by rewrite connect_run. }
  assert (Hports : ∀ d dials l s, dial_ports m guid ([answered d] :: dials) l s = dial_ports m guid dials (l ++ [d])
    (set_channels (channelListener s) (written s ++ asks (machineId s) m guid d) (closed s) s)).
  { intros d dials l s'. cbn [dial_ports]. unfold mbind, M_bind, catch. by rewrite Hone. }
  rewrite !Hports. unfold set_channels. cbn. by rewrite <- app_assoc.
Qed.

(** The thread that dials, when both ports answer. *)
Lemma dialer_connects (t : state) tid (conn : connector) (d0 d1 : Channel) :
  connectors t !! tid = Some conn → cn_at conn = Checking → length (cn_ports conn) = 2 →
  cn_machine conn ∈ connectingMachines t → stopping t = false →
  let t' := run [Step tid []; Step tid [[answered d0]; [answered d1]]; Step tid []] t in
  written t' = written t ++ asks (machineId t) (cn_machine conn) (cn_guid conn) d0 ++ asks (machineId t) (cn_machine conn) (cn_guid conn) d1 ∧
  calls t' = calls t ++ [AddMachine (cn_machine conn) [d0; d1]] ∧ cn_machine conn ∈ connectedMachines t' ∧
  cn_machine conn ∉ connectingMachines t' ∧ connectors t' !! tid = None.
Proof using All.
  intros Hconn Hat Hports Hin Hst t'. unfold t', run. cbn [foldl]. set (t1 := (handle (Step tid []) t).2).
  assert (Ht1 : connectors t1 !! tid = Some (at_position conn [] Dialing) ∧ machines_of t1 = machines_of t ∧ written t1 = written t).
  { unfold t1. unfold handle. cbn [handle_]. unfold onWorkerAdd2, mbind, M_bind, get. cbn beta iota. rewrite Hconn, Hat, Hports.
    rewrite (bool_decide_true (2 = 2)) by done. cbn [negb]. unfold shouldConnectToMachine. rewrite bool_decide_true, Hst by done. cbn [negb andb].
    rewrite disconnects_run. unfold set_connector, modify. cbn [snd fst]. split; [apply connector_set|done]. }
  destruct Ht1 as (Hc1 & Hm1 & Hw1). set (t2 := (handle (Step tid [[answered d0]; [answered d1]]) t1).2).
  assert (Ht2 : connectors t2 !! tid = Some (at_position conn [d0; d1] Registering) ∧ machines_of t2 = machines_of t ∧
    written t2 = written t ++ asks (machineId t) (cn_machine conn) (cn_guid conn) d0 ++ asks (machineId t) (cn_machine conn) (cn_guid conn) d1).
  { unfold t2. unfold handle. cbn [handle_]. unfold onWorkerAdd2, mbind, M_bind, get. cbn beta iota. rewrite Hc1.
    cbn [cn_at at_position cn_ports cn_machine cn_guid]. rewrite Hports. cbn [take]. rewrite dials_run. unfold set_connector, modify. cbn [snd fst].
    split; [apply connector_set|]. split; [exact Hm1|]. cbn [written set_threads set_channels]. injection Hm1 as E _ _ _ _. by rewrite Hw1, E. }
  destruct Ht2 as (Hc2 & Hm2 & Hw2). unfold handle. cbn [handle_]. unfold onWorkerAdd2, mbind, M_bind, get. cbn beta iota. rewrite Hc2.
  cbn [cn_at at_position]. unfold modify, call, set_connector. cbn. injection Hm2 as E1 E2 E3 E4 E5. rewrite E5, Hw2.
  split; [done|]. split; [done|]. split; [set_solver|]. split; [set_solver|]. by rewrite lookup_partial_alter_eq.
Qed.

(** C20. A worker [a] dials the two ports of a worker [b] of the same version and builtins.
    In whichever order [b] works on the two channels: it accepts both, answers both
    with the hash of its builtins, and starts one thread, which gives the scheduler the
    machine [a], if it was not dropped, with the two channels in the order of the ports.
    The thread of [a] writes on both what [b] reads; with [b]'s answers it leaves its loop
    after one round and gives its scheduler the machine [b] with its two ends. *)
Theorem workers_connect a b guid (c0 c1 d0 d1 : Channel) e0 e1 now now' (s t : state) tid (conn : connector) order :
  machineId s = b → stopping s = false → a ∉ droppedMachineIds s →
  ports (channelListener s) = 2 → c0 ≠ c1 →
  acceptedChannels (channelListener s) !! c0 = Some (0, e0) →
  acceptedChannels (channelListener s) !! c1 = Some (1, e1) →
  pendingChannelGroups (channelListener s) !! (inr a, guid) = None →
  (order = [c0; c1] ∨ order = [c1; c0]) →
  machineId t = a → connectors t !! tid = Some conn → cn_machine conn = b → cn_guid conn = guid → cn_at conn = Checking → length (cn_ports conn) = 2 →
  b ∈ connectingMachines t → stopping t = false →
  let s1 := run [meets a b guid (default c0 (order !! 0)) now; meets a b guid (default c0 (order !! 1)) now'] s in
  let s2 := run [Perform (length (connects s))] s1 in
  let t' := run [Step tid []; Step tid [[answered d0]; [answered d1]]; Step tid []] t in
  written t' = written t ++ asks a b guid d0 ++ asks a b guid d1 ∧
  written s1 = written s ++ ((λ c, (c, hash_getstate builtinHash)) <$> order) ∧
  closed s1 = closed s ∧
  connects s1 = connects s ++ [([c0; c1], (inr a, guid))] ∧
  connects s2 = connects s ∧ calls s2 = calls s ++ [AddMachine a [c0; c1]] ∧ a ∈ connectedMachines s2 ∧
  calls t' = calls t ++ [AddMachine b [d0; d1]] ∧ b ∈ connectedMachines t' ∧ b ∉ connectingMachines t' ∧
  connectors t' !! tid = None.
Proof using All.
  intros <- Hstop Hdrop Hports Hne Hc0 Hc1 Hg Horder Hma Hconn Hcb Hcg Hcat Hcp Hbt Hstt s1 s2 t'.
  assert (Hs1 : written s1 = written s ++ ((λ c, (c, hash_getstate builtinHash)) <$> order) ∧ closed s1 = closed s ∧
    connects s1 = connects s ++ [([c0; c1], (inr a, guid))] ∧ stopping s1 = false ∧ droppedMachineIds s1 = droppedMachineIds s ∧
    calls s1 = calls s ∧ connectedMachines s1 = connectedMachines s).
  { assert (Hboth : ∃ c p e d q f, order = [c; d] ∧ ((p = 0 ∧ q = 1) ∨ (p = 1 ∧ q = 0)) ∧
      acceptedChannels (channelListener s) !! c = Some (p, e) ∧ acceptedChannels (channelListener s) !! d = Some (q, f) ∧
      c ≠ d ∧ (if bool_decide (q = 0) then [d; c] else [c; d]) = [c0; c1]).
    { destruct Horder as [->| ->]; [exists c0, 0, e0, c1, 1, e1|exists c1, 1, e1, c0, 0, e0]; split_and!; auto. }
    destruct Hboth as (c & p & e & d & q & f & -> & Hpq & Hc & Hd & Hcd & Hargs).
    unfold s1. cbn [run foldl lookup list_lookup from_option id].
    rewrite (handshake_run a guid c now s _ (first_waits (channelListener s) c p e (inr a, guid) now Hc Hg Hports ltac:(lia))).
    cbn [snd]. set (l1 := MultiChannelListener.set_pending _ _). set (u := set_threads _ _ _ _).
    assert (Hu : completed l1 = completed (channelListener s)) by done. cbn [snd].
    destruct (second_completes l1 d q f c p (now + GROUP_COMPLETION_TIMEOUT)%Z (inr a, guid) now') as (l2 & Hrun & Hl2).
    - unfold l1. cbn. by rewrite lookup_delete_ne.
    - unfold l1. cbn. by rewrite lookup_insert_eq.
    - done.
    - destruct Hpq as [[-> ->]|[-> ->]]; auto.
    - change (machineId s) with (machineId u). rewrite (handshake_run a guid d now' u l2 Hrun). cbn [snd].
      unfold u at 1 2 3 4 5 6 7. cbn. rewrite Hl2, Hu, drop_all, app_nil_r, drop_app_length, Hargs, <- app_assoc. split_and!; done. }
  destruct Hs1 as (Hw & Hcl & Hcs & Hst & Hdr & Hca & Hcm).
  assert (Hs2 : connects s2 = connects s ∧ calls s2 = calls s ++ [AddMachine a [c0; c1]] ∧ a ∈ connectedMachines s2).
  { unfold s2. unfold run, handle. cbn [foldl handle_]. unfold mbind, M_bind, get. cbn beta iota.
    rewrite Hcs, list_lookup_middle by done. cbn beta iota. unfold put, performConnect, mbind, M_bind, get. cbn beta iota.
    cbn [stopping set_threads droppedMachineIds fst snd]. rewrite Hst, Hdr, bool_decide_false by done.
    unfold call, modify. cbn [snd calls connects connectedMachines set_machines set_threads]. rewrite Hca, delete_middle, app_nil_r. split; [done|]. split; [done|]. set_solver. }
  rewrite <- Hcb in Hbt. destruct (dialer_connects t tid conn d0 d1 Hconn Hcat Hcp Hbt Hstt) as (Hwt & Ht).
  rewrite Hma, Hcb, Hcg in Hwt. rewrite Hcb in Ht. destruct Hs2 as (H1' & H2' & H3').
  split; [exact Hwt|]. split; [done|]. split; [done|]. split; [done|]. split; [done|]. split; [done|]. split; [done|]. exact Ht.
Qed.
End meeting.
End service.

(** ** Samples: ids are strings *)

Module Samples.
#[local] Open Scope string_scope.

Instance plain : Wire string string string string := {|
  machine_getstate := id; machine_setstate := Ret;
  who_getstate w := match w with inl c => "c" +:+ c | inr m => "m" +:+ m end;
  who_setstate s :=
    match s with
    | String "c"%char c => Ret (inl c)
    | String "m"%char m => Ret (inr m)
    | _ => Raise ValueError
    end;
  guid_getstate := id; guid_setstate := Ret; hash_getstate := id; hash_setstate := Ret |}.

Instance plain_laws : WireLaws string string string string.
Proof. split; [done| |done|done]. by intros [c|m]. Qed.

Notation event := (event (MachineId := string) (Guid := string) (Channel := nat) (Address := string)).
Notation state := (state (MachineId := string) (ClientId := string) (Guid := string) (Channel := nat) (Address := string)).
Notation run := (run String.leb "1.0" "h").

Definition accepting : list event := [Accepted 0 0 0 1; Accepted 1 1 2 3].
Definition worker_a : state := run [WorkerAdd "ip" [10; 11]%Z "b" "g" 7] (init "a").
Definition worker_b : state := run accepting (init "b").

Lemma workers_connect_witness :
  calls (run [Step 7 []; Step 7 [[answered "h" 5]; [answered "h" 6]]; Step 7 []] worker_a) = [AddMachine "b" [5; 6]].
Proof.
  exact (proj1 (proj2 (proj2 (proj2 (proj2 (proj2 (proj2 (proj2
    (workers_connect String.leb "1.0" "h" "a" "b" "g" 0 1 5 6 _ _ 4%Z 5%Z worker_b worker_a 7
       {| cn_machine := "b"; cn_ip := "ip"; cn_ports := [10; 11]%Z; cn_guid := "g"; cn_channels := []; cn_at := Checking |} [1; 0]
       eq_refl eq_refl ltac:(vm_compute; discriminate) eq_refl ltac:(discriminate) eq_refl eq_refl eq_refl (or_intror eq_refl)
       eq_refl eq_refl eq_refl eq_refl eq_refl eq_refl ltac:(apply (bool_decide_unpack _); by vm_compute) eq_refl))))))))).
Defined.

(** A worker hears of another, dials it, and hears that it is gone. *)
Definition met : list event :=
  [WorkerAdd "ip" [10; 11]%Z "b" "g" 7; Step 7 []; Step 7 [[(Ret 5, Some "h")]; [(Ret 6, None); (Ret 8, Some "h")]]; Step 7 [];
   WorkerDrop "b"; CallDropMachine 0].

Lemma connections_are_the_schedulers_witness :
  (let s := run met (init "a") in
   (∀ m, m ∉ droppedMachineIds s →
      (m ∈ scheduled (calls s) → m ∈ connectedMachines s) ∧
      (m ∈ connectedMachines s → m ∈ scheduled (calls s) ∨ ∃ l, AddMachine m l ∈ failed s)) ∧
   (∀ m, m ∈ connectingMachines s → String.leb m "a" = false) ∧
   (timely String.leb "1.0" "h" met (init "a") →
      connectedMachines s ## droppedMachineIds s ∧
      ∀ m, m ∈ droppedMachineIds s → m ∈ scheduled (calls s) → m ∈ dropping s ∨ DropMachine m ∈ failed s)) ∧
  calls (run met (init "a")) = [AddMachine "b" [5; 8]; DropMachine "b"].
Proof. split; [exact (connections_are_the_schedulers String.leb "1.0" "h" "a" met)|by vm_compute]. Defined.

(** Two threads dial the same machine. It is dropped after the first has added it; the
    second adds it between the two halves of [onWorkerDrop], and the scheduler is told to
    drop what the service counts as connected. *)
Lemma drop_after_a_registration :
  let s := run [WorkerAdd "ip" [10; 11]%Z "b" "g" 7; WorkerAdd "ip" [10; 11]%Z "b" "h" 8; Step 7 []; Step 8 [];
                Step 7 [[(Ret 1, Some "h")]; [(Ret 2, Some "h")]]; Step 8 [[(Ret 3, Some "h")]; [(Ret 4, Some "h")]];
                Step 7 []; WorkerDrop "b"; Step 8 []; CallDropMachine 0] (init "a") in
  calls s = [AddMachine "b" [1; 2]; AddMachine "b" [3; 4]; DropMachine "b"] ∧
  scheduled (calls s) = ∅ ∧ connectedMachines s = {["b"]}.
Proof. by vm_compute. Qed.

(** A scheduler that raises: a machine that it has not added stays connected, one that it
    has not dropped stays with it. *)
Lemma raising_scheduler :
  let s := run [WorkerAdd "ip" [10; 11]%Z "b" "g" 7; Step 7 [];
                Step 7 [[(Ret 1, Some "h")]; [(Ret 2, Some "h")]]; Failing (Step 7 []); Step 7 []] (init "a") in
  let t := run [WorkerDrop "b"; Failing (CallDropMachine 0)] (run (take 4 met) (init "a")) in
  connectedMachines s = {["b"]} ∧ calls s = [] ∧ connectors s = ∅ ∧
  connectedMachines t = ∅ ∧ scheduled (calls t) = {["b"]} ∧ dropping t = [].
Proof. by vm_compute. Qed.

(** A machine that is dropped while it is dialed is added all the same. *)
Lemma dropped_machine_is_added :
  let s := run [WorkerAdd "ip" [10; 11]%Z "b" "g" 7; Step 7 []; WorkerDrop "b";
                Step 7 [[(Ret 5, Some "h")]; [(Ret 6, Some "h")]]; Step 7 []] (init "a") in
  calls s = [AddMachine "b" [5; 6]] ∧ connectedMachines s = {["b"]} ∧ droppedMachineIds s = {["b"]}.
Proof. by vm_compute. Qed.

(** A machine whose ports do not answer is added without channels. *)
Lemma silent_machine_is_added :
  let s := run [WorkerAdd "ip" [10; 11]%Z "b" "g" 7; Step 7 [];
                Step 7 [[(Ret 1, None); (Ret 2, None); (Ret 3, None)]; [(Ret 4, None); (Ret 5, None); (Ret 6, None)]];
                Step 7 []] (init "a") in
  calls s = [AddMachine "b" []] ∧ connectedMachines s = {["b"]} ∧ closed s = [].
Proof. by vm_compute. Qed.

(** The channels of a machine that was dropped before its connection are left open. *)
Lemma dropped_connection_stays_open :
  let s := run (accepting ++ [WorkerDrop "a"; meets "1.0" "a" "b" "g" 0 4; meets "1.0" "a" "b" "g" 1 5; Perform 0]) (init "b") in
  calls s = [] ∧ connects s = [] ∧ closed s = [].
Proof. by vm_compute. Qed.
End Samples.
