(* ===== verification/JsonPickle.v ===== *)
(** * Pickling to simple values ([ufora/core/JsonPickle.py])

    Values of Python become tagged tuples of strings, floats, booleans and [None], which
    native JSON can hold, and are read back. Objects are written as their class's name,
    or a name that was registered for it, with the keywords that make them again. Simple
    forms are values of Python themselves, so reading is defined for all of them. *)
From Stdlib Require Import Lia Ascii.
From stdpp Require Import base gmap sets list strings fin_maps.
From S2P Require Import Prelude PyStrings.
Set Default Proof Using "Type".
Import PyStr.

(** ** UTF-8, as Python 2.7 has it

    A [unicode] is the list of its code points. The codec lets lone surrogates pass, and
    writes a pair of them as the point they stand for. *)
Module Utf8.
Local Open Scope Z_scope.

Definition high (c : Z) : bool := (55296 <=? c) && (c <? 56320).
Definition low (c : Z) : bool := (56320 <=? c) && (c <? 57344).

Definition encode_point (c : Z) : list Z :=
  if c <? 128 then [c]
  else if c <? 2048 then [192 + c `div` 64; 128 + c `mod` 64]
  else if c <? 65536 then [224 + c `div` 4096; 128 + (c `div` 64) `mod` 64; 128 + c `mod` 64]
  else [240 + c `div` 262144; 128 + (c `div` 4096) `mod` 64; 128 + (c `div` 64) `mod` 64; 128 + c `mod` 64].

Fixpoint encode_points (l : list Z) : list Z :=
  match l with
  | [] => []
  | c :: l' =>
      match l' with
      | d :: l'' =>
          if high c && low d then
            encode_point (65536 + (c - 55296) * 1024 + (d - 56320)) ++ encode_points l''
          else encode_point c ++ encode_points l'
      | [] => encode_point c
      end
  end.

Definition continues (b : Z) : bool := (128 <=? b) && (b <? 192).

Fixpoint decode_points (l : list Z) : option (list Z) :=
  match l with
  | [] => Some []
  | a :: l1 =>
      if a <? 128 then cons a <$> decode_points l1
      else
        match l1 with
        | b :: l2 =>
            if (194 <=? a) && (a <? 224) then
              if continues b then cons ((a - 192) * 64 + (b - 128)) <$> decode_points l2 else None
            else
              match l2 with
              | c :: l3 =>
                  if (224 <=? a) && (a <? 240) then
                    if continues b && continues c && ((224 <? a) || (160 <=? b)) then
                      cons ((a - 224) * 4096 + (b - 128) * 64 + (c - 128)) <$> decode_points l3
                    else None
                  else
                    match l3 with
                    | d :: l4 =>
                        if (240 <=? a) && (a <? 245) && continues b && continues c && continues d &&
                           ((240 <? a) || (144 <=? b)) && ((a <? 244) || (b <? 144)) then
                          cons ((a - 240) * 262144 + (b - 128) * 4096 + (c - 128) * 64 + (d - 128))
                            <$> decode_points l4
                        else None
                    | [] => None
                    end
              | [] => None
              end
        | [] => None
        end
  end.

Fixpoint of_bytes (l : list Z) : string :=
  match l with [] => EmptyString | b :: l => String (Base64.char_of b) (of_bytes l) end.
Fixpoint to_bytes (s : string) : list Z :=
  match s with EmptyString => [] | String c s => Base64.byte_of c :: to_bytes s end.

(** [u.encode('utf-8')] and [unicode(s, 'utf-8')]. *)
Definition encode (u : list Z) : string := of_bytes (encode_points u).
Definition decode (s : string) : res (list Z) :=
  of_option (OtherException "UnicodeDecodeError") (decode_points (to_bytes s)).

(** The code points of Unicode, with no pair of surrogates next to each other. *)
Definition is_point (c : Z) : bool := (0 <=? c) && (c <? 1114112).
Fixpoint proper (l : list Z) : bool :=
  match l with
  | [] => true
  | c :: l' => is_point c && negb (high c && match l' with d :: _ => low d | [] => false end) && proper l'
  end.

Lemma decode_point c l :
  is_point c = true → decode_points (encode_point c ++ l) = cons c <$> decode_points l.
Proof.
  unfold is_point. intros Hc. assert (0 ≤ c < 1114112) as Hr by lia. clear Hc. unfold encode_point.
  destruct (Z.ltb_spec c 128) as [H1|H1].
  { cbn -[Z.ltb]. by replace (c <? 128) with true by lia. }
  destruct (Z.ltb_spec c 2048) as [H2|H2].
  { set (a := 192 + _). set (b := 128 + _). assert (194 ≤ a < 224) by (subst a; Z.to_euclidean_division_equations; lia).
    assert (128 ≤ b < 192) by (subst b; Z.to_euclidean_division_equations; lia).
    assert (Hx : (a - 192) * 64 + (b - 128) = c) by (subst a b; Z.to_euclidean_division_equations; lia).
    cbn -[Z.ltb Z.leb Z.mul Z.sub Z.add]. replace (a <? 128) with false by lia.
    replace ((194 <=? a) && (a <? 224)) with true by lia. unfold continues.
    replace ((128 <=? b) && (b <? 192)) with true by lia. by rewrite Hx. }
  destruct (Z.ltb_spec c 65536) as [H3|H3].
  { set (a := 224 + _). set (b := 128 + _). set (d := 128 + c `mod` 64).
    assert (224 ≤ a < 240) by (subst a; Z.to_euclidean_division_equations; lia).
    assert (128 ≤ b < 192) by (subst b; Z.to_euclidean_division_equations; lia).
    assert (128 ≤ d < 192) by (subst d; Z.to_euclidean_division_equations; lia).
    assert (224 < a ∨ 160 ≤ b) by (subst a b; Z.to_euclidean_division_equations; lia).
    assert (Hx : (a - 224) * 4096 + (b - 128) * 64 + (d - 128) = c) by (subst a b d; Z.to_euclidean_division_equations; lia).
    cbn -[Z.ltb Z.leb Z.mul Z.sub Z.add]. replace (a <? 128) with false by lia.
    replace ((194 <=? a) && (a <? 224)) with false by lia. replace ((224 <=? a) && (a <? 240)) with true by lia.
    unfold continues. match goal with |- (if ?t then _ else _) = _ => replace t with true by lia end. by rewrite Hx. }
  set (a := 240 + _). set (b := 128 + _). set (d := 128 + (c `div` 64) `mod` 64). set (e := 128 + c `mod` 64).
  assert (240 ≤ a < 245) by (subst a; Z.to_euclidean_division_equations; lia).
  assert (128 ≤ b < 192) by (subst b; Z.to_euclidean_division_equations; lia).
  assert (128 ≤ d < 192) by (subst d; Z.to_euclidean_division_equations; lia).
  assert (128 ≤ e < 192) by (subst e; Z.to_euclidean_division_equations; lia).
  assert (240 < a ∨ 144 ≤ b) by (subst a b; Z.to_euclidean_division_equations; lia).
  assert (a < 244 ∨ b < 144) by (subst a b; Z.to_euclidean_division_equations; lia).
  assert (Hx : (a - 240) * 262144 + (b - 128) * 4096 + (d - 128) * 64 + (e - 128) = c)
    by (subst a b d e; Z.to_euclidean_division_equations; lia).
  cbn -[Z.ltb Z.leb Z.mul Z.sub Z.add]. replace (a <? 128) with false by lia.
  replace ((194 <=? a) && (a <? 224)) with false by lia. replace ((224 <=? a) && (a <? 240)) with false by lia.
  unfold continues. match goal with |- (if ?t then _ else _) = _ => replace t with true by lia end. by rewrite Hx.
Qed.

Lemma encode_point_bytes c b : is_point c = true → b ∈ encode_point c → 0 ≤ b < 256.
Proof.
  unfold is_point, encode_point. intros Hc. assert (0 ≤ c < 1114112) as Hr by lia. clear Hc.
  repeat case_match; rewrite ?elem_of_cons, ?elem_of_nil; intros Hb;
    Z.to_euclidean_division_equations; destruct_or?; lia.
Qed.

Lemma encode_points_cons c l :
  proper (c :: l) = true → encode_points (c :: l) = encode_point c ++ encode_points l.
Proof.
  intros Hp. cbn [proper] in Hp. cbn [encode_points]. destruct l as [|d l]; [by rewrite app_nil_r|].
  by replace (high c && low d) with false by (destruct (high c && low d); [rewrite andb_false_r in Hp|]; done).
Qed.

Lemma decode_encode_points l : proper l = true → decode_points (encode_points l) = Some l.
Proof.
  induction l as [|c l IH]; intros Hp; [done|]. rewrite encode_points_cons by done.
  cbn [proper] in Hp. apply andb_true_iff in Hp as [[Hc _]%andb_true_iff Hl].
  by rewrite decode_point, IH.
Qed.

Lemma encode_points_bytes l : proper l = true → Forall (λ b, 0 ≤ b < 256) (encode_points l).
Proof.
  induction l as [|c l IH]; intros Hp; [constructor|]. rewrite encode_points_cons by done.
  cbn [proper] in Hp. apply andb_true_iff in Hp as [[Hc _]%andb_true_iff Hl].
  apply Forall_app. split; [|by apply IH]. apply Forall_forall. intros b. by apply encode_point_bytes.
Qed.

Lemma to_of_bytes l : Forall (λ b, 0 ≤ b < 256) l → to_bytes (of_bytes l) = l.
Proof.
  induction 1 as [|b l Hb _ IH]; [done|]. cbn. rewrite IH. f_equal. unfold Base64.byte_of, Base64.char_of.
  rewrite nat_ascii_embedding by lia. lia.
Qed.

Lemma utf8_roundtrip u : proper u = true → decode (encode u) = Ret u.
Proof.
  intros Hu. unfold decode, encode. rewrite to_of_bytes by by apply encode_points_bytes.
  by rewrite decode_encode_points.
Qed.
End Utf8.

Lemma int_str_all z : int (str z) = Ret z.
Proof.
  destruct (Z.leb_spec 0 z) as [Hz|Hz]; [by apply int_str|]. unfold str.
  replace (z <? 0)%Z with true by lia. set (n := Z.to_N (- z)). unfold int. cbn [lstrip].
  replace (is_space "-"%char) with false by done. rewrite Ascii.eqb_refl. unfold str_N.
  destruct (digits_head (N.size_nat n) n EmptyString) as (c & s & Heq & Hc).
  rewrite Heq. destruct Hc as [Hc|(? & ? & [=] & _)]. cbn [parse_digits]. rewrite Hc.
  rewrite <- Heq, parse_go_digits by apply str_N_bound. cbn. f_equal. lia.
Qed.

(** ** Values *)

Section values.
Context {Float Class : Type}.

(** An object is what its [__reduce__] gives, a class and the first of its arguments;
    [POpaque] is one whose [__reduce__] raises. *)
Inductive pv :=
| PNone
| PBool (b : bool)
| PFloat (f : Float)
| PStr (s : string)
| PInt (n : Z)
| PLong (n : Z)
| PUnicode (u : list Z)
| PTuple (l : list pv)
| PList (l : list pv)
| PDict (items : list (pv * pv))
| PObject (cls : Class) (arg : pv)
| POpaque.

Section induction.
Context (P : pv → Prop) (Hnone : P PNone) (Hbool : ∀ b, P (PBool b)) (Hfloat : ∀ f, P (PFloat f))
  (Hstr : ∀ s, P (PStr s)) (Hinteger : ∀ n, P (PInt n)) (Hlong : ∀ n, P (PLong n)) (Huni : ∀ u, P (PUnicode u))
  (Htuple : ∀ l, Forall P l → P (PTuple l)) (Hlist : ∀ l, Forall P l → P (PList l))
  (Hdict : ∀ items, Forall (λ i, P i.1 ∧ P i.2) items → P (PDict items))
  (Hobject : ∀ c a, P a → P (PObject c a)) (Hopaque : P POpaque).

Fixpoint pv_rec' (v : pv) : P v.
Proof using All.
  destruct v as [|b|f|s|n|n|u|l|l|items|c a|].
  1: done. 1-6: clear pv_rec'; auto.
  - apply Htuple. induction l as [|x l IH]; constructor; [apply pv_rec'|exact IH].
  - apply Hlist. induction l as [|x l IH]; constructor; [apply pv_rec'|exact IH].
  - apply Hdict. induction items as [|x l IH]; constructor; [split; apply pv_rec'|exact IH].
  - apply Hobject, pv_rec'.
  - exact Hopaque.
Defined.
End induction.

(** Comparison of floats, and of a float with an integer; a NaN has none. *)
Context (float_compare : Float → Float → option comparison) (float_compare_int : Float → Z → option comparison).
(** [int(f)]. *)
Context (float_trunc : Float → res Z).

(** ** What the language does with values *)

Inductive number := NInt (n : Z) | NFloat (f : Float).
Definition number_of (v : pv) : option number :=
  match v with
  | PBool b => Some (NInt (if b then 1 else 0)%Z)
  | PInt n | PLong n => Some (NInt n)
  | PFloat f => Some (NFloat f)
  | _ => None
  end.
Definition number_compare (a b : number) : option comparison :=
  match a, b with
  | NInt a, NInt b => Some (Z.compare a b)
  | NFloat a, NFloat b => float_compare a b
  | NFloat a, NInt b => float_compare_int a b
  | NInt a, NFloat b => CompOpp <$> float_compare_int b a
  end.

Fixpoint Zs_compare (a b : list Z) : comparison :=
  match a, b with
  | [], [] => Eq
  | [], _ :: _ => Lt
  | _ :: _, [] => Gt
  | x :: a, y :: b => match Z.compare x y with Eq => Zs_compare a b | c => c end
  end.

(** The code points of a text; a [str] that is compared with a [unicode] has to be ASCII. *)
Definition ascii_points (s : string) : option (list Z) :=
  let l := Utf8.to_bytes s in if forallb (λ b, (b <? 128)%Z) l then Some l else None.

(** The order of values of different types: [None], numbers, then by the type's name. *)
Definition rank (v : pv) : nat :=
  match v with
  | PNone => 0 | PBool _ | PFloat _ | PInt _ | PLong _ => 1
  | PObject _ _ | POpaque => 2 | PDict _ => 3 | PList _ => 4 | PStr _ => 5 | PTuple _ => 6 | PUnicode _ => 7
  end.

(** [Some Eq] is [a == b], [Some Lt] is [a < b]; [None] is neither: NaNs, dicts and objects,
    which simple forms do not hold. *)
Fixpoint compare (a b : pv) {struct a} : option comparison :=
  let seq := (fix go l m :=
    match l, m with
    | [], [] => Some Eq
    | [], _ :: _ => Some Lt
    | _ :: _, [] => Some Gt
    | x :: l, y :: m => match compare x y with Some Eq => go l m | c => c end
    end) in
  match number_of a, number_of b with
  | Some m, Some n => number_compare m n
  | _, _ =>
      match a, b with
      | PNone, PNone => Some Eq
      | PStr s, PStr t => Some (String.compare s t)
      | PUnicode s, PUnicode t => Some (Zs_compare s t)
      | PStr s, PUnicode t => (λ s, Zs_compare s t) <$> ascii_points s
      | PUnicode s, PStr t => Zs_compare s <$> ascii_points t
      | PTuple l, PTuple m => seq l m
      | PList l, PList m => seq l m
      | _, _ => match Nat.compare (rank a) (rank b) with Eq => None | c => Some c end
      end
  end.
Definition py_eq (a b : pv) : bool := bool_decide (compare a b = Some Eq).
Definition py_lt (a b : pv) : bool := bool_decide (compare a b = Some Lt).

(** [sorted], which is stable. *)
Fixpoint insort (x : pv) (l : list pv) : list pv :=
  match l with
  | [] => [x]
  | y :: l' => if py_lt y x then y :: insort x l' else x :: l
  end.
Definition sorted (l : list pv) : list pv := foldr insort [] l.

Fixpoint hashable (v : pv) : bool :=
  match v with
  | PList _ | PDict _ => false
  | PTuple l => forallb hashable l
  | _ => true
  end.

(** [d[k] = x], in a dict that is the list of its items. *)
Fixpoint dict_set {A} (k : pv) (x : A) (d : list (pv * A)) : list (pv * A) :=
  match d with
  | [] => [(k, x)]
  | (k', y) :: d => if py_eq k' k then (k', x) :: d else (k', y) :: dict_set k x d
  end.
Fixpoint dict_get {A} (k : pv) (d : list (pv * A)) : option A :=
  match d with
  | [] => None
  | (k', y) :: d => if py_eq k' k then Some y else dict_get k d
  end.

(** [v[i]]. The keys of the dicts that JSON makes are strings. *)
Definition index (v : pv) (i : nat) : res pv :=
  match v with
  | PTuple l | PList l => of_option IndexError (l !! i)
  | PStr s => of_option IndexError ((λ c, PStr (String c EmptyString)) <$> String.get i s)
  | PUnicode u => of_option IndexError ((λ c, PUnicode [c]) <$> u !! i)
  | PDict _ => Raise KeyError
  | _ => Raise TypeError
  end.

(** [int(v)] is a [long] when it does not fit a machine word. *)
Definition fits (n : Z) : bool := ((- 2 ^ 63 <=? n) && (n <? 2 ^ 63))%Z.
Definition of_Z (n : Z) : pv := if fits n then PInt n else PLong n.

(** The integer of a number or a text; digits that are not ASCII's are left out. *)
Definition integer_of (v : pv) : res Z :=
  match v with
  | PBool b => Ret (if b then 1 else 0)%Z
  | PInt n | PLong n => Ret n
  | PFloat f => float_trunc f
  | PStr s => int s
  | PUnicode u => if forallb (λ c, (c <? 128)%Z) u then int (Utf8.of_bytes u) else Raise ValueError
  | _ => Raise TypeError
  end.
Definition to_unicode (v : pv) : res pv :=
  match v with PStr s => PUnicode <$> Utf8.decode s | _ => Raise TypeError end.

(** ** Simple forms *)

Definition ENCODING_OBJECT : string := "o".
Definition ENCODING_SIMPLE_PYTHON : string := "P".
Definition ENCODING_UNICODE : string := "u".
Definition ENCODING_INT : string := "i".
Definition ENCODING_LONG : string := "l".
Definition ENCODING_TUPLE : string := "()".
Definition ENCODING_LIST : string := "[]".
Definition ENCODING_DICT : string := "{}".

Definition encoded (encoding : string) (simpleForm : pv) : pv := PTuple [PStr encoding; simpleForm].
Definition is_pure (sub : pv) : bool :=
  match sub with PTuple (PStr e :: _) => String.eqb e ENCODING_SIMPLE_PYTHON | _ => false end.

(** A class's [__module__] and [__name__]. *)
Context (class_name : Class → string * string).
Context `{Countable Class}.

(** The module's state. *)
Record registry := {
  unpickleWhitelist_ : gset Class;
  locationTypes_ : list (pv * Class);
  locationTypeOverrides_ : gmap Class pv }.

Definition clsKey (r : registry) (c : Class) : pv :=
  match locationTypeOverrides_ r !! c with
  | Some override => override
  | None => PTuple [PStr (class_name c).1; PStr (class_name c).2]
  end.

Fixpoint toSimple (r : registry) (complexObject : pv) : res pv :=
  match complexObject with
  | PNone | PFloat _ | PStr _ | PBool _ => Ret (encoded ENCODING_SIMPLE_PYTHON complexObject)
  | PInt n => Ret (encoded ENCODING_INT (PStr (str n)))
  | PLong n => Ret (encoded ENCODING_LONG (PStr (str n)))
  | PUnicode u => Ret (encoded ENCODING_UNICODE (PStr (Utf8.encode u)))
  | PTuple l =>
      subs ← mapR (toSimple r) l;
      Ret (if forallb is_pure subs then encoded ENCODING_SIMPLE_PYTHON complexObject
           else encoded ENCODING_TUPLE (PTuple subs))
  | PList l =>
      subs ← mapR (toSimple r) l;
      Ret (encoded ENCODING_LIST (PTuple subs))
  | PDict items =>
      subs ← mapR (λ '(key, val),
        keyEncoded ← toSimple r key;
        valEncoded ← toSimple r val;
        Ret (PTuple [keyEncoded; valEncoded])) items;
      Ret (encoded ENCODING_DICT (PTuple (sorted subs)))
  | PObject cls arg =>
      a ← toSimple r arg;
      Ret (encoded ENCODING_OBJECT (PTuple [clsKey r cls; a]))
  | POpaque => Raise UserWarning
  end.

(** ** Classes *)

(** What a module has under a name. *)
Inductive member := IsClass (c : Class) | NotAClass.
(** Importing a module, which raises or gives what is in it, if anything is; whether a
    class descends from [Pickleable]; and a call of a class with keywords. *)
Context (import_module : string → res (option (string → option member))).
Context (is_pickleable : Class → bool).
Context (instantiate : Class → pv → res pv).

Notation JP := (M registry).

Definition set_types (t : list (pv * Class)) (r : registry) : registry :=
  {| unpickleWhitelist_ := unpickleWhitelist_ r; locationTypes_ := t;
     locationTypeOverrides_ := locationTypeOverrides_ r |}.

Definition addClassToPickleWhitelist (c : Class) : JP unit :=
  modify (λ r, {| unpickleWhitelist_ := {[ c ]} ∪ unpickleWhitelist_ r; locationTypes_ := locationTypes_ r;
                  locationTypeOverrides_ := locationTypeOverrides_ r |}).

Definition addClassAlias (c : Class) (override : pv) : JP unit :=
  if hashable override then modify (λ r, set_types (dict_set override c (locationTypes_ r)) r) else raise TypeError.

Definition addOverride (c : Class) (override : pv) : JP unit :=
  r ← get;
  lift (py_assert (bool_decide (locationTypeOverrides_ r !! c = None))) ;;
  lift (py_assert (match override with PTuple _ => false | _ => true end)) ;;
  modify (λ r, {| unpickleWhitelist_ := unpickleWhitelist_ r; locationTypes_ := locationTypes_ r;
                  locationTypeOverrides_ := <[c := override]> (locationTypeOverrides_ r) |}) ;;
  addClassAlias c override.

(** The text of a name of a module or of a member, which has to be ASCII. *)
Definition name_of (v : pv) : option string :=
  match v with
  | PStr s => Some s
  | PUnicode u => if forallb (λ c, (c <? 128)%Z) u then Some (Utf8.of_bytes u) else None
  | _ => None
  end.

(** The dict of overrides is asked, too, but its keys are classes, not names. *)
Definition classFromModuleAndName (clsModuleAndName : pv) : JP Class :=
  if negb (hashable clsModuleAndName) then raise TypeError
  else
    r ← get;
    match dict_get clsModuleAndName (locationTypes_ r) with
    | Some c => mret c
    | None =>
        m ← lift (index clsModuleAndName 0);
        m ← lift (of_option TypeError (name_of m));
        module ← lift (import_module m);
        module ← lift (of_option UserWarning module);
        n ← lift (index clsModuleAndName 1);
        if negb (hashable n) then raise TypeError
        else
          match name_of n ≫= module with
          | None => raise UserWarning
          | Some NotAClass => raise TypeError
          | Some (IsClass c) =>
              if negb (is_pickleable c) && negb (bool_decide (c ∈ unpickleWhitelist_ r)) then
                (* The message is formatted with a name, which is a pair. *)
                raise match clsModuleAndName with PTuple _ => TypeError | _ => UserWarning end
              else modify (λ r, set_types (dict_set clsModuleAndName c (locationTypes_ r)) r) ;; mret c
          end
    end.

(** ** Reading back *)

Inductive encoding := ESimple | EInt | EUnicode | ELong | ETuple | EList | EDict | EObject.
Definition encoding_of (v : pv) : option encoding :=
  s ← name_of v;
  if String.eqb s ENCODING_SIMPLE_PYTHON then Some ESimple
  else if String.eqb s ENCODING_INT then Some EInt
  else if String.eqb s ENCODING_UNICODE then Some EUnicode
  else if String.eqb s ENCODING_LONG then Some ELong
  else if String.eqb s ENCODING_TUPLE then Some ETuple
  else if String.eqb s ENCODING_LIST then Some EList
  else if String.eqb s ENCODING_DICT then Some EDict
  else if String.eqb s ENCODING_OBJECT then Some EObject
  else None.

Definition to_integer (x : pv) : res pv := n ← integer_of x; Ret (of_Z n).
Definition to_long (x : pv) : res pv := n ← integer_of x; Ret (PLong n).

(** [toComplex] of a text: its characters are the encoding and the simple form. *)
Definition complex_of_text (x : pv) : JP pv :=
  t ← lift (index x 0);
  match encoding_of t with
  | None => raise UserWarning
  | Some e =>
      y ← lift (index x 1);
      match e with
      | ESimple => mret y
      | EInt => lift (to_integer y)
      | EUnicode => lift (to_unicode y)
      | ELong => lift (to_long y)
      | _ => raise IndexError
      end
  end.

Definition characters (v : pv) : list pv :=
  match v with
  | PStr s => (λ c, PStr (String c EmptyString)) <$> String.list_ascii_of_string s
  | PUnicode u => (λ c, PUnicode [c]) <$> u
  | _ => []
  end.

(** A call of the class with the keywords; whatever it raises becomes a [UserWarning]. *)
Definition make (c : Class) (kwds : pv) : JP pv := catch (lift (instantiate c kwds)) (λ _, raise UserWarning).

(** Setting an item of the dict that is being made. *)
Definition put_item (k v : pv) (d : list (pv * pv)) : JP (list (pv * pv)) :=
  if hashable k then mret (dict_set k v d) else raise TypeError.

Definition foldM {S A B} (f : B → A → M S B) : list A → B → M S B :=
  fix go l b := match l with [] => mret b | x :: l => c ← f b x; go l c end.

Fixpoint toComplex (simpleObject : pv) : JP pv :=
  match simpleObject with
  | PTuple (t :: rest) | PList (t :: rest) =>
      match encoding_of t with
      | None => raise UserWarning
      | Some e =>
          match rest with
          | [] => raise IndexError
          | x :: _ =>
              let elements : JP (list pv) :=
                match x with
                | PTuple l | PList l => mapM toComplex l
                | PStr _ | PUnicode _ => mapM complex_of_text (characters x)
                | PDict items => mapM (λ '(k, _), toComplex k) items
                | _ => raise TypeError
                end in
              match e with
              | ESimple => mret x
              | EInt => lift (to_integer x)
              | EUnicode => lift (to_unicode x)
              | ELong => lift (to_long x)
              | ETuple => l ← elements; mret (PTuple l)
              | EList => l ← elements; mret (PList l)
              | EDict =>
                  let item (d : list (pv * pv)) (p : pv) : JP (list (pv * pv)) :=
                    match p with
                    | PTuple [k; v] | PList [k; v] => k ← toComplex k; v ← toComplex v; put_item k v d
                    | PStr _ | PUnicode _ =>
                        match characters p with
                        | [k; v] => k ← complex_of_text k; v ← complex_of_text v; put_item k v d
                        | _ => raise ValueError
                        end
                    | PDict [(k, _); (v, _)] => k ← toComplex k; v ← toComplex v; put_item k v d
                    | PTuple _ | PList _ | PDict _ => raise ValueError
                    | _ => raise TypeError
                    end in
                  d ← match x with
                      | PTuple l | PList l => foldM item l []
                      | PDict items => foldM (λ d '(k, _), item d k) items []
                      | PStr _ | PUnicode _ => match characters x with [] => mret [] | _ => raise ValueError end
                      | _ => raise TypeError
                      end;
                  mret (PDict d)
              | EObject =>
                  match x with
                  | PTuple (name :: args :: _) | PList (name :: args :: _) =>
                      c ← classFromModuleAndName name;
                      kwds ← toComplex args;
                      make c kwds
                  | PTuple _ | PList _ => raise IndexError
                  | PStr _ | PUnicode _ =>
                      name ← lift (index x 0);
                      args ← lift (index x 1);
                      c ← classFromModuleAndName name;
                      kwds ← complex_of_text args;
                      make c kwds
                  | PDict _ => raise KeyError
                  | _ => raise TypeError
                  end
              end
          end
      end
  | PTuple [] | PList [] => raise IndexError
  | PStr _ | PUnicode _ => complex_of_text simpleObject
  | PDict _ => raise KeyError
  | _ => raise TypeError
  end.

(** ** Writing and reading back *)

Lemma dict_equation : ∃ item : list (pv * pv) → pv → JP (list (pv * pv)),
  (∀ d k v, item d (PTuple [k; v]) = (k ← toComplex k; v ← toComplex v; put_item k v d)) ∧
  (∀ subs, toComplex (encoded ENCODING_DICT (PTuple subs)) = (d ← foldM item subs []; mret (PDict d))).
Proof. eexists. split; [|reflexivity]. reflexivity. Qed.

(** Values that are equal up to the order of the items of dicts, and the identity of
    objects. *)
Inductive same : pv → pv → Prop :=
| same_refl v : same v v
| same_tuple l l' : Forall2 same l l' → same (PTuple l) (PTuple l')
| same_list l l' : Forall2 same l l' → same (PList l) (PList l')
| same_dict items items' items'' :
    items ≡ₚ items' → Forall2 (λ i j, same i.1 j.1 ∧ same i.2 j.2) items' items'' → same (PDict items) (PDict items'')
| same_object c a a' : same a a' → same (PObject c a) (PObject c a').

(** Keys whose equality is not that of objects. *)
Fixpoint plain (v : pv) : bool :=
  match v with
  | PTuple l => forallb plain l
  | PList _ | PDict _ | PObject _ _ | POpaque => false
  | _ => true
  end.

Fixpoint keys_differ (items : list (pv * pv)) : Prop :=
  match items with
  | [] => True
  | (k, _) :: items => Forall (λ i, py_eq k i.1 = false ∧ py_eq i.1 k = false) items ∧ keys_differ items
  end.

Definition importable (r : registry) (m n : string) (c : Class) : Prop :=
  ∃ f, import_module m = Ret (Some f) ∧ f n = Some (IsClass c) ∧
    is_pickleable c || bool_decide (c ∈ unpickleWhitelist_ r) = true.

(** The name stands for the class. *)
Definition resolves (r : registry) (key : pv) (c : Class) : Prop :=
  hashable key = true ∧
  (dict_get key (locationTypes_ r) = Some c ∨
   dict_get key (locationTypes_ r) = None ∧ ∃ m n, key = PTuple [PStr m; PStr n] ∧ importable r m n c).

(** What the registry [w] writes the registry [r] can read: integers fit a machine word,
    the keys of dicts differ, and the classes of objects are known and make an object
    again of the keywords that [__reduce__] gives. *)
Fixpoint pickles (w r : registry) (v : pv) : Prop :=
  match v with
  | PInt n => fits n = true
  | PUnicode u => Utf8.proper u = true
  | PTuple l | PList l => foldr (λ x P, pickles w r x ∧ P) True l
  | PDict items =>
      foldr (λ i P, (pickles w r i.1 ∧ pickles w r i.2) ∧ P) True items ∧
      keys_differ items ∧ forallb (λ i, plain i.1) items = true
  | PObject c a =>
      resolves r (clsKey w c) c ∧ pickles w r a ∧
      ∀ a', same a a' → ∃ a'', instantiate c a' = Ret (PObject c a'') ∧ same a a''
  | POpaque => False
  | _ => True
  end.

Definition knows (r r' : registry) : Prop := ∀ key c, resolves r key c → resolves r' key c.

Lemma knows_refl r : knows r r.
Proof. by intros ? ?. Qed.
Lemma knows_trans r1 r2 r3 : knows r1 r2 → knows r2 r3 → knows r1 r3.
Proof. intros H1 H2 key c Hr. by apply H2, H1. Qed.

Lemma py_eq_names m n m' n' :
  py_eq (PTuple [PStr m; PStr n]) (PTuple [PStr m'; PStr n']) = true → m = m' ∧ n = n'.
Proof.
  unfold py_eq. rewrite bool_decide_eq_true. cbn.
  destruct (String.compare m m') eqn:Hm; try done. destruct (String.compare n n') eqn:Hn; try done.
  intros _. by apply String.compare_eq_iff in Hm, Hn.
Qed.

Lemma dict_set_new {A} k (x : A) d : dict_get k d = None → dict_set k x d = d ++ [(k, x)].
Proof.
  induction d as [|[k' y] d IH]; cbn; [done|]. destruct (py_eq k' k); [done|]. intros ?. by rewrite IH.
Qed.

Lemma dict_get_app {A} k (d e : list (pv * A)) :
  dict_get k (d ++ e) = match dict_get k d with Some x => Some x | None => dict_get k e end.
Proof. induction d as [|[k' y] d IH]; cbn; [done|]. by destruct (py_eq k' k). Qed.

Lemma class_found r key c :
  resolves r key c → ∃ r', classFromModuleAndName key r = (Ret c, r') ∧ knows r r'.
Proof.
  intros [Hh Hr]. unfold classFromModuleAndName. rewrite Hh. cbn [negb].
  unfold mbind at 1, M_bind at 1, get at 1. cbn beta iota.
  destruct Hr as [Hr|(Hr & m & n & -> & f & Hf & Hn & Hp)]; rewrite Hr.
  { exists r. split; [done|apply knows_refl]. }
  unfold mbind, M_bind, lift. cbn [index lookup list_lookup of_option name_of]. rewrite Hf. cbn [of_option].
  cbn [hashable negb option_bind]. rewrite Hn. rewrite <- negb_orb, Hp. cbn [negb].
  eexists. split; [reflexivity|]. intros key c' [Hh' Hr']. split; [done|].
  cbn [locationTypes_ set_types]. rewrite dict_set_new, dict_get_app by done.
  destruct Hr' as [->|(-> & m' & n' & -> & f' & Hf' & Hn' & Hp')]; [by left|].
  cbn [dict_get]. destruct (py_eq _ _) eqn:He.
  - apply py_eq_names in He as [<- <-]. left. congruence.
  - right. split; [done|]. exists m', n'. split; [done|]. by exists f'.
Qed.

(** A simple form that is read as the value, in every registry that knows the classes. *)
Definition reads (r0 : registry) (v s : pv) : Prop :=
  ∀ r, knows r0 r → ∃ v' r',
    toComplex s r = (Ret v', r') ∧ knows r r' ∧ same v v' ∧ (plain v = true → v' = v).

Lemma reads_all r0 l subs :
  Forall2 (reads r0) l subs → ∀ r, knows r0 r → ∃ l' r',
    mapM toComplex subs r = (Ret l', r') ∧ knows r r' ∧ Forall2 same l l' ∧ (forallb plain l = true → l' = l).
Proof.
  induction 1 as [|v s l subs Hv _ IH]; intros r Hr.
  { exists [], r. split; [done|]. split; [apply knows_refl|]. split; [constructor|done]. }
  destruct (Hv r Hr) as (v' & r1 & H1 & Hr1 & Hs1 & Hp1).
  destruct (IH r1) as (l' & r2 & H2 & Hr2 & Hs2 & Hp2); [by eapply knows_trans|].
  exists (v' :: l'), r2. split.
  { rewrite mapM_cons, (bind_step _ _ _ _ _ H1). by rewrite (bind_step _ _ _ _ _ H2). }
  split; [by eapply knows_trans|]. split; [by constructor|]. cbn.
  intros [Hpv Hpl]%andb_true_iff. by rewrite Hp1, Hp2.
Qed.

(** An item of a dict and its simple form. *)
Definition reads_item (r0 : registry) (i : pv * pv) (s : pv) : Prop :=
  ∃ ks vs, s = PTuple [ks; vs] ∧ reads r0 i.1 ks ∧ reads r0 i.2 vs.

Lemma plain_hashable v : plain v = true → hashable v = true.
Proof.
  induction v as [| | | | | | |l IH|l IH|items IH|c a IH|] using pv_rec'; cbn; try done.
  rewrite !forallb_forall. rewrite Forall_forall in IH. intros Hl x Hx.
  apply IH; [by apply list_elem_of_In|]. by apply Hl.
Qed.

Lemma reads_items r0 item items subs :
  (∀ d k v, item d (PTuple [k; v]) = (k ← toComplex k; v ← toComplex v; put_item k v d)) →
  Forall2 (reads_item r0) items subs → keys_differ items → forallb (λ i, plain i.1) items = true →
  ∀ r d, knows r0 r → Forall (λ x, Forall (λ i, py_eq x.1 i.1 = false) items) d → ∃ d' r',
    foldM item subs d r = (Ret (d ++ d'), r') ∧ knows r r' ∧
    Forall2 (λ i j, same i.1 j.1 ∧ same i.2 j.2) items d'.
Proof.
  intros Hitem. induction 1 as [|[k v] s items subs Hi _ IH]; intros Hd Hp r d Hr Hnew.
  { exists [], r. rewrite app_nil_r. split; [done|]. split; [apply knows_refl|constructor]. }
  destruct Hi as (ks & vs & -> & Hk & Hv). cbn in Hk, Hv. destruct Hd as [Hkd Hd].
  cbn in Hp. apply andb_true_iff in Hp as [Hpk Hp].
  destruct (Hk r Hr) as (k' & r1 & H1 & Hr1 & _ & Hk'). specialize (Hk' Hpk). subst k'.
  destruct (Hv r1) as (v' & r2 & H2 & Hr2 & Hsv & _); [by eapply knows_trans|].
  assert (Hset : dict_set k v' d = d ++ [(k, v')]).
  { apply dict_set_new. clear -Hnew. induction Hnew as [|[k' x] d Hx _ IH]; cbn; [done|].
    apply Forall_cons in Hx as [Hx _]. cbn in Hx. by rewrite Hx. }
  destruct (IH Hd Hp r2 (d ++ [(k, v')])) as (d' & r3 & H3 & Hr3 & Hs).
  { eapply knows_trans; [|exact Hr2]. by eapply knows_trans. }
  { apply Forall_app. split.
    - eapply Forall_impl; [exact Hnew|]. by intros x [_ Hx]%Forall_cons.
    - constructor; [|constructor]. eapply Forall_impl; [exact Hkd|]. by intros x [Hx _]. }
  exists ((k, v') :: d'), r3. split.
  { cbn [foldM]. rewrite Hitem. rewrite bind_assoc. rewrite (bind_step _ _ _ _ _ H1).
    rewrite bind_assoc, (bind_step _ _ _ _ _ H2). unfold put_item. rewrite plain_hashable by done.
    rewrite bind_ret_l, Hset. rewrite H3. by rewrite <- app_assoc. }
  split; [eapply knows_trans; [|exact Hr3]; by eapply knows_trans|]. constructor; [|done]. split; [apply same_refl|done].
Qed.

Lemma insort_perm x l : insort x l ≡ₚ x :: l.
Proof.
  induction l as [|y l IH]; cbn; [done|]. destruct (py_lt y x); [|done]. rewrite IH. apply perm_swap.
Qed.
Lemma sorted_perm l : sorted l ≡ₚ l.
Proof. induction l as [|x l IH]; cbn; [done|]. by rewrite insort_perm, IH. Qed.

Lemma keys_differ_perm items items' : items ≡ₚ items' → keys_differ items → keys_differ items'.
Proof.
  induction 1 as [|[k v] l l' Hp IH|[k v] [k' v'] l|l1 l2 l3 _ IH1 _ IH2]; [done| | |by intros ?%IH1%IH2].
  - intros [Hk Hd]. split; [by rewrite <- Hp|by apply IH].
  - intros [Hk [Hk' Hd]]. apply Forall_cons in Hk as [[? ?] Hk]. repeat split; try done.
    by constructor.
Qed.

Lemma reads_itself r0 v s : (∀ r, toComplex s r = (Ret v, r)) → reads r0 v s.
Proof. intros Hs r _. exists v, r. split; [apply Hs|]. split; [apply knows_refl|]. split; [apply same_refl|done]. Qed.

Lemma writes_all w r l :
  Forall (λ v, pickles w r v → ∃ s, toSimple w v = Ret s ∧ reads r v s) l →
  foldr (λ x P, pickles w r x ∧ P) True l →
  ∃ subs, mapR (toSimple w) l = Ret subs ∧ Forall2 (reads r) l subs.
Proof.
  induction 1 as [|v l Hv _ IH]; cbn; [by exists []; split; [|constructor]|]. intros [Hp Hl].
  destruct (Hv Hp) as (s & Hs & Hr). destruct (IH Hl) as (subs & Hss & Hrs). exists (s :: subs).
  rewrite Hs. cbn. rewrite Hss. split; [done|by constructor].
Qed.

Lemma writes_items w r items :
  Forall (λ i, (pickles w r i.1 → ∃ s, toSimple w i.1 = Ret s ∧ reads r i.1 s) ∧
               (pickles w r i.2 → ∃ s, toSimple w i.2 = Ret s ∧ reads r i.2 s)) items →
  foldr (λ i P, (pickles w r i.1 ∧ pickles w r i.2) ∧ P) True items →
  ∃ subs, mapR (λ '(key, val),
      keyEncoded ← toSimple w key; valEncoded ← toSimple w val;
      Ret (PTuple [keyEncoded; valEncoded])) items = Ret subs ∧ Forall2 (reads_item r) items subs.
Proof.
  induction 1 as [|[k v] items [Hk Hv] _ IH]; cbn; [by exists []; split; [|constructor]|]. intros [[Hpk Hpv] Hl].
  destruct (Hk Hpk) as (ks & Hks & Hrk). destruct (Hv Hpv) as (vs & Hvs & Hrv).
  destruct (IH Hl) as (subs & Hss & Hrs). exists (PTuple [ks; vs] :: subs).
  cbn in Hks, Hvs. rewrite Hks. cbn. rewrite Hvs. cbn. rewrite Hss. split; [done|]. constructor; [|done]. by exists ks, vs.
Qed.

Lemma dict_reads r0 items subs :
  Forall2 (reads_item r0) items subs → keys_differ items → forallb (λ i, plain i.1) items = true →
  reads r0 (PDict items) (encoded ENCODING_DICT (PTuple (sorted subs))).
Proof.
  intros Hi Hd Hp r Hr. destruct dict_equation as (item & Hitem & Heq). rewrite Heq.
  apply Forall2_flip in Hi.
  destruct (Permutation_Forall2 (symmetry (sorted_perm subs)) Hi) as (items' & Hperm & Hi'). apply Forall2_flip in Hi'.
  destruct (reads_items r0 item items' (sorted subs) Hitem Hi') with (r := r) (d := @nil (pv * pv))
    as (d' & r' & Hrun & Hr' & Hs); [by eapply keys_differ_perm| |done|constructor|].
  { rewrite forallb_forall in Hp |- *. intros x Hx. apply Hp. apply list_elem_of_In. rewrite Hperm. by apply list_elem_of_In. }
  exists (PDict d'), r'. split; [by rewrite (bind_step _ _ _ _ _ Hrun)|]. split; [done|]. split; [|done].
  by econstructor.
Qed.

Lemma object_reads r0 key c a s :
  resolves r0 key c → reads r0 a s →
  (∀ a', same a a' → ∃ a'', instantiate c a' = Ret (PObject c a'') ∧ same a a'') →
  reads r0 (PObject c a) (encoded ENCODING_OBJECT (PTuple [key; s])).
Proof.
  intros Hc Ha Hi r Hr. destruct (class_found r key c) as (r1 & H1 & Hr1); [by apply Hr|].
  destruct (Ha r1) as (a' & r2 & H2 & Hr2 & Hs & _); [by eapply knows_trans|].
  destruct (Hi a' Hs) as (a'' & Hn & Hs'). exists (PObject c a''), r2. split.
  { change (toComplex (encoded ENCODING_OBJECT (PTuple [key; s])))
      with (c ← classFromModuleAndName key; kwds ← toComplex s; make c kwds).
    rewrite (bind_step _ _ _ _ _ H1), (bind_step _ _ _ _ _ H2). unfold make, catch, lift. by rewrite Hn. }
  split; [by eapply knows_trans|]. split; [by constructor|done].
Qed.

Lemma written_is_read w r v : pickles w r v → ∃ s, toSimple w v = Ret s ∧ reads r v s.
Proof.
  induction v as [|b|f|s|n|n|u|l IH|l IH|items IH|c a IH|] using pv_rec'; cbn [pickles toSimple]; intros Hp;
    try (eexists; split; [reflexivity|]; apply reads_itself; intros r'; reflexivity).
  - eexists. split; [reflexivity|]. apply reads_itself. intros r'.
    change (lift (to_integer (PStr (str n))) r' = (Ret (PInt n), r')). unfold lift, to_integer, integer_of.
    rewrite int_str_all. cbn. unfold of_Z. by rewrite Hp.
  - eexists. split; [reflexivity|]. apply reads_itself. intros r'.
    change (lift (to_long (PStr (str n))) r' = (Ret (PLong n), r')). unfold lift, to_long, integer_of.
    by rewrite int_str_all.
  - eexists. split; [reflexivity|]. apply reads_itself. intros r'.
    change (lift (to_unicode (PStr (Utf8.encode u))) r' = (Ret (PUnicode u), r')). unfold lift, to_unicode.
    by rewrite Utf8.utf8_roundtrip.
  - destruct (writes_all w r l IH Hp) as (subs & -> & Hr). cbn. eexists. split; [reflexivity|].
    destruct (forallb is_pure subs); [apply reads_itself; intros r'; reflexivity|]. intros r' Hr'.
    destruct (reads_all r l subs Hr r' Hr') as (l' & r2 & Hrun & Hr2 & Hs & Hpl).
    exists (PTuple l'), r2. split.
    { change (toComplex (encoded ENCODING_TUPLE (PTuple subs))) with (l ← mapM toComplex subs; mret (PTuple l)).
      by rewrite (bind_step _ _ _ _ _ Hrun). }
    split; [done|]. split; [by constructor|]. cbn. intros ?. by rewrite Hpl.
  - destruct (writes_all w r l IH Hp) as (subs & -> & Hr). cbn. eexists. split; [reflexivity|]. intros r' Hr'.
    destruct (reads_all r l subs Hr r' Hr') as (l' & r2 & Hrun & Hr2 & Hs & _).
    exists (PList l'), r2. split.
    { change (toComplex (encoded ENCODING_LIST (PTuple subs))) with (l ← mapM toComplex subs; mret (PList l)).
      by rewrite (bind_step _ _ _ _ _ Hrun). }
    split; [done|]. split; [by constructor|done].
  - destruct Hp as (Hp & Hd & Hpl). destruct (writes_items w r items IH Hp) as (subs & -> & Hr). cbn.
    eexists. split; [reflexivity|]. by apply dict_reads.
  - destruct Hp as (Hc & Ha & Hi). destruct (IH Ha) as (s & -> & Hs). cbn. eexists. split; [reflexivity|].
    by apply object_reads.
  - done.
Qed.

(** C27. What one registry writes another one that knows the classes reads back: an equal
    value, up to the order of the items of dicts and the identity of objects, and the
    very value if it has neither; classes that were known stay known. *)
Theorem pickled_values_come_back w r v :
  pickles w r v →
  ∃ s v' r', toSimple w v = Ret s ∧ toComplex s r = (Ret v', r') ∧ same v v' ∧
    (plain v = true → v' = v) ∧ knows r r'.
Proof.
  intros Hv. destruct (written_is_read w r v Hv) as (s & Hs & Hr).
  destruct (Hr r (knows_refl r)) as (v' & r' & Hrun & Hk & Hsame & Hp). by exists s, v', r'.
Qed.

(** A class that is registered under a name of its own is found by that name. *)
Lemma override_is_known c override r r' :
  hashable override = true → py_eq override override = true →
  addOverride c override r = (Ret tt, r') → resolves r' (clsKey r' c) c.
Proof.
  intros Hh He. unfold addOverride, addClassAlias. rewrite Hh. intros Hrun. inv_bind.
  unfold get, lift in *. simplify_eq. unfold clsKey. cbn. rewrite lookup_insert_eq. split; [done|]. left.
  cbn. match goal with |- context [locationTypes_ ?x] => generalize (locationTypes_ x) end. clear -He.
  intros d. induction d as [|[k y] d IH]; cbn; [by rewrite He|].
  destruct (py_eq k override) eqn:Hk; cbn; by rewrite Hk.
Qed.
End values.

(** ** Samples: floats are whole numbers here, and classes numbers *)
Module PickleSamples.

Notation value := (@pv Z nat).
Definition names (c : nat) : string * string :=
  match c with 0 => ("graph", "Location") | 1 => ("graph", "Root") | _ => ("other", "Thing") end%string.
Definition modules (m : string) : res (option (string → option (@member nat))) :=
  if String.eqb m "graph" then
    Ret (Some (λ n, if String.eqb n "Location" then Some (IsClass 0)
                    else if String.eqb n "Root" then Some (IsClass 1)
                    else if String.eqb n "count" then Some NotAClass else None))
  else if String.eqb m "other" then Ret (Some (λ n, if String.eqb n "Thing" then Some (IsClass 2) else None))
  else Raise (OtherException "ImportError").
Definition pickleable (c : nat) : bool := bool_decide (c < 2).
Definition call (c : nat) (kwds : value) : res value :=
  match kwds with PDict _ => Ret (PObject c kwds) | _ => Raise TypeError end.
Definition compare_Z (a b : Z) : option comparison := Some (Z.compare a b).

Definition start : @registry Z nat _ _ := {| unpickleWhitelist_ := ∅; locationTypes_ := []; locationTypeOverrides_ := ∅ |}.
Definition short : @registry Z nat _ _ := (addOverride compare_Z compare_Z 1 (PStr "R") start).2.

Notation write := (toSimple compare_Z compare_Z names).
Notation read := (toComplex compare_Z compare_Z Ret modules pickleable call).

Definition location : value :=
  PObject 0%nat (PDict
    [(PStr "index", PInt 12); (PStr "name", PUnicode [955; 120; 128169]);
     (PStr "at", PTuple [PNone; PBool true; PFloat 3]);
     (PStr "parent", PObject 1%nat (PDict [(PTuple [PInt (-4); PStr "k"], PList [PLong (2 ^ 70)])]))])%Z%string.

Example its_simple_form :
  write short location = Ret (encoded "o" (PTuple
    [PTuple [PStr "graph"; PStr "Location"];
     encoded "{}" (PTuple
       [PTuple [encoded "P" (PStr "at"); encoded "P" (PTuple [PNone; PBool true; PFloat 3%Z])];
        PTuple [encoded "P" (PStr "index"); encoded "i" (PStr "12")];
        PTuple [encoded "P" (PStr "name"); encoded "u" (PStr (Utf8.encode [955; 120; 128169]%Z))];
        PTuple [encoded "P" (PStr "parent"); encoded "o" (PTuple [PStr "R";
          encoded "{}" (PTuple
            [PTuple [encoded "()" (PTuple [encoded "i" (PStr "-4"); encoded "P" (PStr "k")]);
                     encoded "[]" (PTuple [encoded "l" (PStr "1180591620717411303424")])]])])]])])).
Proof. vm_compute. reflexivity. Qed.

Lemma call_makes c items (a : value) :
  same (PDict items) a → ∃ a'', call c a = Ret (PObject c a'') ∧ same (PDict items) a''.
Proof. intros Hs. inversion Hs; subst; eexists; (split; [reflexivity|exact Hs]). Qed.

Lemma pickled_values_come_back_witness :
  pickles compare_Z compare_Z names modules pickleable call short short location ∧
  ∃ s v' r', write short location = Ret s ∧ read s short = (Ret v', r') ∧ same location v' ∧
    (plain location = true → v' = location) ∧
    knows compare_Z compare_Z modules pickleable short r'.
Proof.
  assert (Hp : pickles compare_Z compare_Z names modules pickleable call short short location).
  { repeat first [ reflexivity | exact I | apply conj | apply call_makes
      | apply List.Forall_nil | apply List.Forall_cons ].
    - right. split; [reflexivity|]. eexists _, _. split; [reflexivity|]. eexists. repeat split; reflexivity.
    - left. vm_compute. reflexivity. }
  split; [exact Hp|].
  apply (pickled_values_come_back compare_Z compare_Z Ret names modules pickleable call short short location Hp).
Defined.

(** A class that may not be read: its name is a pair, so that formatting the message
    raises another exception. *)
Lemma forbidden_class_raises :
  (classFromModuleAndName compare_Z compare_Z modules pickleable (PTuple [PStr "other"; PStr "Thing"]) start).1 =
    Raise TypeError.
Proof. vm_compute. reflexivity. Qed.

(** Two classes with the same override: the objects of the first are read as the second's. *)
Lemma overrides_may_collide :
  let both := (addOverride compare_Z compare_Z 0 (PStr "R") short).2 in
  ∃ s, write both (PObject 1 (PDict [])) = Ret s ∧ (read s both).1 = Ret (PObject 0 (PDict [])).
Proof.
  exists (encoded "o" (PTuple [PStr "R"; encoded "{}" (PTuple [])])). split; vm_compute; reflexivity.
Qed.

(** The order of dicts does not matter to what is written. *)
Example written_in_order :
  write start (PDict [(PStr "b", PInt 1); (PFloat 2%Z, PInt 2); (PStr "a", PInt 3)]) =
  write start (PDict [(PStr "a", PInt 3); (PStr "b", PInt 1); (PFloat 2%Z, PInt 2)]).
Proof. vm_compute. reflexivity. Qed.
End PickleSamples.
