(* ===== verification/PyHeap.v ===== *)
(** * Live Python objects

    The objects a conversion walks over: a heap from identities ([id(o)]) to what
    the converter reads of an object, and the interface of the mappings that
    replace an object by a pure Python one. *)
From stdpp Require Import base gmap sets list strings fin_maps.
From S2P Require Import Prelude PyAst TypeDescription.

(** Identities of objects. *)
Abbreviation oid := N.

(** A function, or the function of a method: its closure has a cell per free
    variable, empty ([None]) when the variable is not assigned yet. *)
Record function := Function {
  func_name : string;
  co_freevars : list string;
  func_closure : list (option oid);
  func_globals : gmap string oid }.

(** A class. [cls_functions] is what [inspect.getmembers] lists for its functions
    and methods; [isNewStyle] when it is an instance of [type]. *)
Record class := Class_ {
  cls_name : string;
  isNewStyle : bool;
  bases : list oid;
  cls_functions : list function }.

(** A [PyforaWithBlock]. *)
Record withBlock := WithBlock {
  lineNumber : Z;
  sourceText : string;
  boundVariables : gmap string oid;
  sourceFileName : string;
  unboundLocals : gset string }.

(** What an object is, for the type tests of the converter; no two of them hold of
    one object. *)
Inductive kind :=
| KRemotePythonObject (computedValueArg : pyval)
| KFuture (result : res oid)
| KFileDescription (fileName fileText : string)
| KException (args : oid)
| KWithBlock (b : withBlock)
| KUnconvertible
| KTuple (vals : list oid)
| KList (vals : list oid)
| KDict (items : list (oid * oid))
| KPrimitive (p : prim)
| KFunction (f : function)
| KClass (c : class)
| KBuiltinFunction
| KInstanceMethod (self : oid) (name : string)
| KModule (name : string)
| KOther.

(** An object: its kind, its [__class__], the keys of its [__dict__] if it has
    one, and its attributes. *)
Record pyobj := PyObj {
  kind_of : kind;
  class_of : option oid;
  dict_keys : option (list string);
  attributes : gmap string oid }.

(** The objects so far, and the identity of the next. *)
Record heap := Heap { objects : gmap oid pyobj; nextOid : oid }.

Definition heap_ok (h : heap) : Prop := ∀ o, o ∈ dom (objects h) → (o < nextOid h)%N.

Definition new_object (x : pyobj) : M heap oid := λ h,
  (Ret (nextOid h), Heap (<[nextOid h := x]> (objects h)) (N.succ (nextOid h))).

(** Objects stay as they are while the converter runs. *)
Definition heap_extends (h h' : heap) : Prop := objects h ⊆ objects h'.

#[export] Instance heap_extends_preorder : PreOrder heap_extends.
Proof. split; [intros h; unfold heap_extends; done|intros a b c; unfold heap_extends; by etrans]. Qed.

Lemma new_object_extends x h :
  heap_ok h → heap_extends h (snd (new_object x h)) ∧ heap_ok (snd (new_object x h)) ∧
  objects (snd (new_object x h)) !! nextOid h = Some x.
Proof.
  intros Hh. cbn. unfold heap_extends, heap_ok. cbn. split_ands.
  - apply insert_subseteq. destruct (objects h !! nextOid h) eqn:E; [|done].
    apply elem_of_dom_2 in E. apply Hh in E. lia.
  - intros o. rewrite dom_insert_L. intros [->%elem_of_singleton|Ho]%elem_of_union; [lia|].
    apply Hh in Ho. lia.
  - apply lookup_insert_eq.
Qed.

(** ** Mappings to pure Python *)

(** What the converter asks of [purePythonClassMapping]; [PS] is its state. *)
Class PureClassMapping (PS : Type) := {
  canMap : oid → M (PS * heap) bool;
  mappableInstanceToPure : oid → M (PS * heap) oid }.

(** A computation that only adds objects. *)
Definition only_adds {PS A} (m : M (PS * heap) A) : Prop := ∀ ps h,
  heap_ok h → heap_extends h (snd (snd (m (ps, h)))) ∧ heap_ok (snd (snd (m (ps, h)))).

(** A computation that only adds objects, and does not raise the errors [bad]. *)
Definition only_adds_without {PS A} (bad : exn → bool) (m : M (PS * heap) A) : Prop :=
  only_adds m ∧ ∀ s e, fst (m s) = Raise e → bad e = false.

(** What a mapping promises: it leaves the objects it is given alone, and does not
    look for source text. *)
Class PureClassMappingLaws (PS : Type) `{PureClassMapping PS} (bad : exn → bool) := {
  canMap_only_adds o : only_adds_without bad (canMap o);
  mappableInstanceToPure_only_adds o : only_adds_without bad (mappableInstanceToPure o) }.
