(* ===== verification/PyObjectWalker.v ===== *)
(** * The conversion of live Python objects ([pyfora/PyObjectWalker.py])

    [walkPyObject] traverses an object and registers a definition for it and for
    everything it refers to. *)
From Stdlib Require Import Lia.
From stdpp Require Import base gmap sets list strings fin_maps.
From S2P Require Import Prelude PyAst FreeVariableAnalyses AstUtil TypeDescription ObjectRegistry PyHeap.

Definition IOError : exn := OtherException "IOError".

(** ['.'.join(chain)]. *)
Definition join_chain (chain : list string) : string := String.concat "." chain.

Definition newline : string := String (Ascii.ascii_of_nat 10) EmptyString.

(** [getattr(o, name)] and [hasattr(o, name)]. *)
Definition getattr (x : pyobj) (name : string) : res oid :=
  of_option AttributeError (attributes x !! name).

(** The errors after which an object counts as unconvertible. *)
Definition is_source_error (e : exn) : bool :=
  bool_decide (e = CantGetSourceTextError) || bool_decide (e = PyforaInspectError).

Definition is_pureMapping_call (n : node) : bool :=
  match n with
  | Call _ (Name _ id _) _ _ _ _ => bool_decide (id = "pureMapping")
  | _ => false
  end.

(** [_freeMemberAccessChainsWithPositions]. *)
Definition freeMemberAccessChainsWithPositions (pyAst : node) : res (gset ChainWithPosition) :=
  getFreeVariableMemberAccessChainsWithPositions pyAst (Some false) (Some is_pureMapping_call).

(** [_getBaseClassChain]: [None] for other expressions, to which nothing can be
    added. *)
Fixpoint getBaseClassChain (baseAst : node) : res (option (list string)) :=
  match baseAst with
  | Name _ id _ => Ret (Some [id])
  | Attribute _ value attr _ =>
      c ← getBaseClassChain value;
      match c with Some c => Ret (Some (c ++ [attr])) | None => Raise TypeError end
  | _ => Ret None
  end.

(** [l.index(x)]. *)
Definition index_of {A} `{EqDecision A} (x : A) (l : list A) : res nat :=
  of_option ValueError (fst <$> list_find (x =.) l).

(** [node.bases] and [node.body]. *)
Definition class_bases (pyAst : node) : res (list node) :=
  match pyAst with ClassDef _ _ bases _ _ => Ret bases | _ => Raise AttributeError end.
Definition with_body (n : node) : res (list node) :=
  match n with With _ _ _ body => Ret body | _ => Raise AttributeError end.
Definition ast_lineno (n : node) : res Z :=
  of_option AttributeError (lineno <$> node_pos n).

(** [FunctionDef(name="", args=..., body=withBlockAst.body, ...)]. *)
Definition withBlockFun (lineNumber : Z) (body : list node) : node :=
  FunctionDef (Pos lineNumber 0) "" (arguments None [] None None []) body [].

(** ** What the walker asks of the interpreter

    [ast.parse], the functions of PyforaInspect that look for source files and
    lines, [textwrap.dedent], the module [__builtin__], the classes and functions
    with FORA implementations, [pyfora.connect], and [o[i]]. *)
Class Interpreter := {
  parse : string → res node;
  getsourcefile : oid → res (option string);
  getlines : option string → res (option (list string));
  getsourcelines : oid → res (list string * Z);
  dedent : string → string;
  builtins : gmap string oid;
  pythonSingletonToName : gmap oid string;
  connect : oid;
  getitem : oid → Z → res oid }.

(** ** State *)

Record walker (PS : Type) := Walker {
  convertedObjectCache : gmap oid oid;
  pyObjectIdToObjectId : gmap oid Z;
  objectRegistry : registry;
  fileTextCache : gmap string oid;
  sourceFileCache : gmap string string;
  the_heap : heap;
  the_mapping : PS }.
Arguments Walker {PS}.
Arguments convertedObjectCache {PS}.
Arguments pyObjectIdToObjectId {PS}.
Arguments objectRegistry {PS}.
Arguments fileTextCache {PS}.
Arguments sourceFileCache {PS}.
Arguments the_heap {PS}.
Arguments the_mapping {PS}.

(** The dict of resolutions, its items in an order fixed here. *)
Abbreviation resolutions_t := (gmap (list string) (oid * PositionInFile)).

Section walker.
Context {PS : Type} `{PureClassMapping PS} `{Interpreter}.
Abbreviation st := (walker PS).

(** *** The parts of the state *)

Definition on_registry {A} (m : M registry A) : M st A := λ s,
  let '(r, reg) := m (objectRegistry s) in
  (r, Walker (convertedObjectCache s) (pyObjectIdToObjectId s) reg (fileTextCache s)
        (sourceFileCache s) (the_heap s) (the_mapping s)).

Definition on_heap {A} (m : M heap A) : M st A := λ s,
  let '(r, h) := m (the_heap s) in
  (r, Walker (convertedObjectCache s) (pyObjectIdToObjectId s) (objectRegistry s)
        (fileTextCache s) (sourceFileCache s) h (the_mapping s)).

Definition on_mapping {A} (m : M (PS * heap) A) : M st A := λ s,
  let '(r, (ps, h)) := m (the_mapping s, the_heap s) in
  (r, Walker (convertedObjectCache s) (pyObjectIdToObjectId s) (objectRegistry s)
        (fileTextCache s) (sourceFileCache s) h ps).

Definition set_converted (o p : oid) : M st unit := modify (λ s,
  Walker (<[o := p]> (convertedObjectCache s)) (pyObjectIdToObjectId s) (objectRegistry s)
    (fileTextCache s) (sourceFileCache s) (the_heap s) (the_mapping s)).

Definition set_id (o : oid) (objectId : Z) : M st unit := modify (λ s,
  Walker (convertedObjectCache s) (<[o := objectId]> (pyObjectIdToObjectId s))
    (objectRegistry s) (fileTextCache s) (sourceFileCache s) (the_heap s) (the_mapping s)).

Definition set_file (fileName : string) (o : oid) : M st unit := modify (λ s,
  Walker (convertedObjectCache s) (pyObjectIdToObjectId s) (objectRegistry s)
    (<[fileName := o]> (fileTextCache s)) (sourceFileCache s) (the_heap s) (the_mapping s)).

Definition set_source (fileName text : string) : M st unit := modify (λ s,
  Walker (convertedObjectCache s) (pyObjectIdToObjectId s) (objectRegistry s)
    (fileTextCache s) (<[fileName := text]> (sourceFileCache s)) (the_heap s) (the_mapping s)).

(** The object at an identity; the last branch of [_walkPyObject] for none. *)
Definition object_at (o : oid) : M st pyobj :=
  s ← get; lift (of_option AssertionError (objects (the_heap s) !! o)).

(** [PyAstUtil.getSourceFilenameAndText]: a file without a name, like one without
    lines, is looked up by [getlines] first. *)
Definition getSourceFilenameAndText (o : oid) : M st (string * string) :=
  sourceFile ← lift match getsourcefile o with
                    | Raise TypeError => Raise CantGetSourceTextError
                    | r => r
                    end;
  linesOrNone ← lift (getlines sourceFile);
  match linesOrNone, sourceFile with
  | None, _ => raise CantGetSourceTextError
  | Some _, None => raise TypeError
  | Some lines, Some sourceFile =>
      s ← get;
      match sourceFileCache s !! sourceFile with
      | Some text => mret (text, sourceFile)
      | None =>
          set_source sourceFile (String.concat "" lines) ;;
          mret (String.concat "" lines, sourceFile)
      end
  end.

(** [PyAstUtil.getSourceLines]. *)
Definition getSourceLines (o : oid) : res (list string * Z) :=
  match getsourcelines o with
  | Raise e =>
      if bool_decide (e = TypeError) || bool_decide (e = IOError)
      then Raise CantGetSourceTextError else Raise e
  | r => r
  end.

(** [PyAstUtil.pyAstFor(pyObject)]: the lines before the source are blank. *)
Definition pyAstFor (o : oid) : res node :=
  x ← getSourceLines o;
  let '(source, line) := x : list string * Z in
  parse (dedent (String.concat "" (replicate (Z.to_nat (line - 1)) newline)
                 +:+ String.concat "" source)).

(** [_FileDescription.cachedFromArgs]. *)
Definition cachedFromArgs (fileName : string) (fileText : option string) : M st oid :=
  s ← get;
  match fileTextCache s !! fileName with
  | Some o => mret o
  | None =>
      fileText ← match fileText with
                 | Some t => mret t
                 | None =>
                     lines ← lift (getlines (Some fileName));
                     lift (of_option TypeError (String.concat "" <$> lines))
                 end;
      o ← on_heap (new_object (PyObj (KFileDescription fileName fileText) None None ∅));
      set_file fileName o ;; mret o
  end.

(** *** Resolution of free variables *)

(** [_computeSubchainAndTerminalValueAlongModules]: [rest] is [chain[ix:]]. *)
Fixpoint along_modules (terminalValue : oid) (subchain rest : list string) :
    M st (list string * oid) :=
  x ← object_at terminalValue;
  match kind_of x with
  | KModule _ =>
      match rest with
      | [] =>
          o ← on_heap (new_object (PyObj KUnconvertible None None ∅));
          mret (subchain, o)
      | name :: rest =>
          match attributes x !! name with
          | Some v => along_modules v (subchain ++ [name]) rest
          | None => raise PythonToForaConversionError
          end
      end
  | _ => mret (subchain, terminalValue)
  end.

Definition computeSubchainAndTerminalValueAlongModules (rootValue : oid)
    (chainWithPosition : ChainWithPosition) : M st (list string * oid * PositionInFile) :=
  '(subchain, terminalValue) ←
     along_modules rootValue (take 1 chainWithPosition.1) (drop 1 chainWithPosition.1);
  mret (subchain, terminalValue, chainWithPosition.2).

Definition unresolved {A} (c : ChainWithPosition) (context : option string) : M st A :=
  raise (UnresolvedFreeVariable c.1 (lineno c.2) context).

(** [chainWithPosition.var[0]]. *)
Definition freeVariable (c : ChainWithPosition) : res string :=
  of_option IndexError (head c.1).

(** [_resolveChainByDict]. *)
Definition resolveChainByDict (c : ChainWithPosition) (boundVariables : gmap string oid) :
    M st (list string * oid * PositionInFile) :=
  x ← lift (freeVariable c);
  match boundVariables !! x, builtins !! x with
  | Some rootValue, _ => computeSubchainAndTerminalValueAlongModules rootValue c
  | None, Some rootValue => computeSubchainAndTerminalValueAlongModules rootValue c
  | None, None => unresolved c None
  end.

(** [_lookupChainInFunction]. *)
Definition lookupChainInFunction (pyFunction : function) (c : ChainWithPosition) :
    M st (list string * oid * PositionInFile) :=
  x ← lift (freeVariable c);
  if bool_decide (x ∈ co_freevars pyFunction) then
    index ← lift (index_of x (co_freevars pyFunction));
    match func_closure pyFunction !! index with
    | Some (Some rootValue) => computeSubchainAndTerminalValueAlongModules rootValue c
    | _ => unresolved c (Some (func_name pyFunction))
    end
  else
    match func_globals pyFunction !! x, builtins !! x with
    | Some rootValue, _ => computeSubchainAndTerminalValueAlongModules rootValue c
    | None, Some rootValue => computeSubchainAndTerminalValueAlongModules rootValue c
    | None, None => unresolved c (Some (func_name pyFunction))
    end.

(** [_resolveChainByBaseClasses]. *)
Definition resolveChainByBaseClasses (pyClass : class) (pyAst : node) (c : ChainWithPosition) :
    res (option (list string * oid * PositionInFile)) :=
  baseAsts ← class_bases pyAst;
  baseClassChains ← mapR getBaseClassChain baseAsts;
  if bool_decide (Some c.1 ∈ baseClassChains) then
    index ← index_of (Some c.1) baseClassChains;
    resolution ← of_option IndexError (bases pyClass !! index);
    Ret (Some (c.1, resolution, c.2))
  else Ret None.

(** [for _, func in memberFunctions: try: return ... except: pass]. *)
Fixpoint lookup_in_members (memberFunctions : list function) (c : ChainWithPosition)
    (otherwise : M st (list string * oid * PositionInFile)) :
    M st (list string * oid * PositionInFile) :=
  match memberFunctions with
  | [] => otherwise
  | func :: memberFunctions =>
      catch (lookupChainInFunction func c)
        (λ e, match e with
              | UnresolvedFreeVariable _ _ _ => lookup_in_members memberFunctions c otherwise
              | e => raise e
              end)
  end.

(** [_lookupChainInClass]. *)
Definition lookupChainInClass (pyClass : class) (pyAst : node) (c : ChainWithPosition) :
    M st (list string * oid * PositionInFile) :=
  lookup_in_members (cls_functions pyClass) c
    (baseClassResolutionOrNone ← lift (resolveChainByBaseClasses pyClass pyAst c);
     match baseClassResolutionOrNone with
     | Some r => mret r
     | None => unresolved c None
     end).

(** [_subchainAndResolutionOrNone] and [_resolveChainInPyObject]. *)
Definition resolveChainInPyObject (c : ChainWithPosition) (x : pyobj) (pyAst : node) :
    M st (list string * oid * PositionInFile) :=
  '(subchain, terminalValue, location) ←
     match kind_of x with
     | KFunction f => lookupChainInFunction f c
     | KClass k => lookupChainInClass k pyAst c
     | _ => raise PythonToForaConversionError
     end;
  s ← get;
  mret (subchain, default terminalValue (convertedObjectCache s !! terminalValue), location).

Fixpoint resolve_all (resolve : ChainWithPosition → M st (list string * oid * PositionInFile))
    (chains : list ChainWithPosition) (resolutions : resolutions_t) : M st resolutions_t :=
  match chains with
  | [] => mret resolutions
  | c :: chains =>
      '(subchain, resolution, position) ← resolve c;
      resolve_all resolve chains (<[subchain := (resolution, position)]> resolutions)
  end.

(** [_computeAndResolveFreeVariableMemberAccessChainsInAst]. *)
Definition is_reserved (c : ChainWithPosition) : bool :=
  match head c.1 with
  | Some x => bool_decide (x ∈ ["staticmethod"; "property"; "__inline_fora"])
  | None => false
  end.

Definition computeAndResolveFreeVariableMemberAccessChainsInAst (x : pyobj) (pyAst : node) :
    M st resolutions_t :=
  chains ← lift (freeMemberAccessChainsWithPositions pyAst);
  resolve_all (λ c, resolveChainInPyObject c x pyAst)
    (filter (λ c, is_reserved c = false) (elements chains)) ∅.

(** [_resolveFreeVariableMemberAccessChains]: a converted resolution is indexed. *)
Definition resolveInDict (boundVariables : gmap string oid) (c : ChainWithPosition) :
    M st (list string * oid * PositionInFile) :=
  '(subchain, resolution, position) ← resolveChainByDict c boundVariables;
  s ← get;
  resolution ← lift match convertedObjectCache s !! resolution with
                    | Some p => getitem p 1
                    | None => Ret resolution
                    end;
  mret (subchain, resolution, position).

Definition resolveFreeVariableMemberAccessChains (chains : gset ChainWithPosition)
    (boundVariables : gmap string oid) : M st resolutions_t :=
  resolve_all (resolveInDict boundVariables) (elements chains) ∅.

(** [except UnresolvedFreeVariableException as e: ...]. *)
Definition convertUnresolvedFreeVariableExceptionAndRaise {A} (sourceFileName : string)
    (m : M st A) : M st A :=
  catch m (λ e, match e with
                | UnresolvedFreeVariable chain line _ =>
                    raise (UnresolvedFreeVariableWithTrace (default "" (head chain))
                             [(sourceFileName, line)])
                | e => raise e
                end).
(** *** Registration

    One definition per [_register...] method; [walkPyObject] is [self.walkPyObject]. *)
Section register.
Context (walkPyObject : oid → M st Z).

Definition registerUnconvertible (objectId : Z) : M st unit :=
  on_registry (defineUnconvertible objectId).

Definition registerRemotePythonObject (objectId : Z) (computedValueArg : pyval) : M st unit :=
  on_registry (defineRemotePythonObject objectId computedValueArg).

Definition registerFileDescription (objectId : Z) (fileName fileText : string) : M st unit :=
  on_registry (defineFile objectId fileText fileName).

Definition registerBuiltinExceptionInstance (objectId : Z) (args : oid) (name : string) :
    M st unit :=
  argsId ← walkPyObject args;
  on_registry (defineBuiltinExceptionInstance objectId name argsId).

Definition registerNamedSingleton (objectId : Z) (name : string) : M st unit :=
  on_registry (defineNamedSingleton objectId name).

Definition registerTuple (objectId : Z) (vals : list oid) : M st unit :=
  memberIds ← mapM walkPyObject vals;
  on_registry (defineTuple objectId memberIds).

Definition registerPrimitive (objectId : Z) (p : prim) : M st unit :=
  on_registry (definePrimitive objectId p).

(** [isPrimitive(val)], with its value. *)
Definition primitive_at (h : heap) (o : oid) : option prim :=
  match kind_of <$> objects h !! o with Some (KPrimitive p) => Some p | _ => None end.

Definition registerList (objectId : Z) (vals : list oid) : M st unit :=
  s ← get;
  if forallb (λ val, bool_decide (is_Some (primitive_at (the_heap s) val))) vals then
    on_registry (define objectId (PrimitiveList (Prim <$> omap (primitive_at (the_heap s)) vals)))
  else
    memberIds ← mapM walkPyObject vals;
    on_registry (defineList objectId memberIds).

Definition registerDict (objectId : Z) (items : list (oid * oid)) : M st unit :=
  ids ← mapM (λ kv : oid * oid, k ← walkPyObject kv.1; v ← walkPyObject kv.2; mret (k, v)) items;
  on_registry (defineDict objectId ids.*1 ids.*2).

Definition registerInstanceMethod (objectId : Z) (self : oid) (name : string) : M st unit :=
  instanceId ← walkPyObject self;
  on_registry (defineInstanceMethod objectId instanceId name).

(** [classInstance.__dict__.keys() if hasattr(classInstance, '__dict__') else ...]. *)
Definition dataMemberNames (x : pyobj) (classObject : oid) : res (list string) :=
  match dict_keys x with
  | Some ks => Ret ks
  | None => pyAst ← pyAstFor classObject; elements <$> collectDataMembersSetInInit pyAst
  end.

Definition registerClassInstance (objectId : Z) (x : pyobj) (classObject : oid) : M st unit :=
  classId ← walkPyObject classObject;
  names ← lift (dataMemberNames x classObject);
  members ← mapM (λ name, m ← lift (getattr x name);
                          memberId ← walkPyObject m; mret (name, memberId)) names;
  on_registry (defineClassInstance objectId classId members).

(** The loop over the resolutions; the names of variables hold no dot, so that the
    joined chains differ. *)
Definition walk_resolutions (path : string) (resolutions : resolutions_t) : M st scope :=
  mapM (λ r : list string * (oid * PositionInFile),
          id ← catch (walkPyObject r.2.1)
                 (λ e, match e with
                       | UnresolvedFreeVariableWithTrace x trace =>
                           raise (UnresolvedFreeVariableWithTrace x
                                    ((path, lineno r.2.2) :: trace))
                       | e => raise e
                       end);
          mret (join_chain r.1, id))
       (map_to_list resolutions).

(** [raise BadWithBlockError(... % locations[0])]. *)
Definition bad_with_block {A} (locations : res (list Z)) : M st A :=
  l ← lift locations;
  _ ← lift (of_option IndexError (head l));
  raise BadWithBlockError.

(** The free variables of a block and those it binds that are bound before it. *)
Definition withBlockChains (b : withBlock) (f : node) : res (gset ChainWithPosition) :=
  chains ← freeMemberAccessChainsWithPositions f;
  boundValues ← collectBoundValuesInScopeWithPositions f;
  Ret (chains ∪ set_map (D := gset ChainWithPosition) (λ v : VarWithPosition, ([v.1], v.2))
    (filter (λ v : VarWithPosition, v.1 ∉ unboundLocals b ∧ v.1 ∈ dom (boundVariables b)) boundValues)).

Definition registerWithBlock (objectId : Z) (b : withBlock) : M st unit :=
  sourceTree ← lift (parse (sourceText b));
  withBlockAst ← lift (withBlockAtLineNumber sourceTree (lineNumber b));
  body ← lift (with_body withBlockAst);
  let f := withBlockFun (lineNumber b) body in
  hasReturn ← lift (hasReturnInOuterScope f);
  when hasReturn (bad_with_block (getReturnLocationsInOuterScope f)) ;;
  hasYield ← lift (hasYieldInOuterScope f);
  when hasYield (bad_with_block (getYieldLocationsInOuterScope f)) ;;
  chains ← lift (withBlockChains b f);
  resolutions ← convertUnresolvedFreeVariableExceptionAndRaise (sourceFileName b)
                  (resolveFreeVariableMemberAccessChains chains (boundVariables b));
  processed ← walk_resolutions (sourceFileName b) resolutions;
  file ← cachedFromArgs (sourceFileName b) None;
  sourceFileId ← walkPyObject file;
  on_registry (defineWithBlock objectId processed sourceFileId (lineNumber b)).

(** [_classOrFunctionDefinition]: the source file, the line and the scope of a
    class or a function called [name]. *)
Definition classOrFunctionDefinition (o : oid) (x : pyobj) (name : string)
    (atLineNumber : node → Z → res node) : M st (Z * Z * scope) :=
  when (bool_decide (name = "__inline_fora")) (raise PythonToForaConversionError) ;;
  source ← getSourceFilenameAndText o;
  let '(sourceFileText, sourceFileName) := source : string * string in
  lines ← lift (getSourceLines o);
  let sourceLine := lines.2 in
  sourceAst ← lift (parse sourceFileText);
  pyAst ← lift (atLineNumber sourceAst sourceLine);
  line ← lift (ast_lineno pyAst);
  lift (py_assert (bool_decide (sourceLine = line))) ;;
  resolutions ← convertUnresolvedFreeVariableExceptionAndRaise sourceFileName
                  (computeAndResolveFreeVariableMemberAccessChainsInAst x pyAst);
  processed ← walk_resolutions sourceFileName resolutions;
  file ← cachedFromArgs sourceFileName (Some sourceFileText);
  sourceFileId ← walkPyObject file;
  mret (sourceFileId, sourceLine, processed).

Definition registerFunction (objectId : Z) (o : oid) (x : pyobj) (f : function) : M st unit :=
  '(sourceFileId, line, scopeIds) ←
     classOrFunctionDefinition o x (func_name f) functionDefOrLambdaAtLineNumber;
  on_registry (defineFunction objectId sourceFileId line scopeIds).

Definition registerClass (objectId : Z) (o : oid) (x : pyobj) (c : class) : M st unit :=
  '(sourceFileId, line, scopeIds) ←
     classOrFunctionDefinition o x (cls_name c) classDefAtLineNumber;
  s ← get;
  let ids := pyObjectIdToObjectId s in
  lift (py_assert (forallb (λ base, bool_decide (base ∈ dom ids)) (bases c))) ;;
  baseClassIds ← lift (mapR (λ base, of_option KeyError (ids !! base)) (bases c));
  on_registry (defineClass objectId sourceFileId line scopeIds baseClassIds).

(** The FORA name of a class or of a builtin function. *)
Definition singleton_name (o : oid) (x : pyobj) : option string :=
  match kind_of x with
  | KClass c => if isNewStyle c then pythonSingletonToName !! o else None
  | KBuiltinFunction => pythonSingletonToName !! o
  | _ => None
  end.

(** [_walkPyObject], the tests in the order of the source. It calls itself on the
    result of a future; [fuel] bounds a chain of futures. *)
Fixpoint walk_object (fuel : nat) (o : oid) (objectId : Z) : M st unit :=
  match fuel with
  | O => raise RecursionLimit
  | S fuel =>
      x ← object_at o;
      let instance := match class_of x with
                      | Some classObject => registerClassInstance objectId x classObject
                      | None => raise AssertionError
                      end in
      match kind_of x with
      | KRemotePythonObject a => registerRemotePythonObject objectId a
      | KFuture result => r ← lift result; walk_object fuel r objectId
      | KFileDescription name text => registerFileDescription objectId name text
      | KException args =>
          match class_of x ≫= (pythonSingletonToName !!.) with
          | Some name => registerBuiltinExceptionInstance objectId args name
          | None => instance
          end
      | k =>
          match singleton_name o x with
          | Some name => registerNamedSingleton objectId name
          | None =>
              match k with
              | KWithBlock b => registerWithBlock objectId b
              | KUnconvertible => registerUnconvertible objectId
              | KTuple vals => registerTuple objectId vals
              | KList vals => registerList objectId vals
              | KDict items => registerDict objectId items
              | KPrimitive p => registerPrimitive objectId p
              | KFunction f => registerFunction objectId o x f
              | KClass c => registerClass objectId o x c
              | KInstanceMethod self name => registerInstanceMethod objectId self name
              | _ => instance
              end
          end
      end
  end.
End register.

(** [_allocateId]. *)
Definition allocateId (o : oid) : M st Z :=
  objectId ← on_registry allocateObject; set_id o objectId ;; mret objectId.

(** What the object is replaced by. *)
Definition converted (o : oid) : M st oid :=
  s ← get;
  match convertedObjectCache s !! o with
  | Some p => mret p
  | None =>
      mappable ← on_mapping (canMap o);
      if mappable : bool then
        pureInstance ← on_mapping (mappableInstanceToPure o);
        set_converted o pureInstance ;; mret pureInstance
      else mret o
  end.

(** [walkPyObject]; [fuel] stands for Python's recursion limit. *)
Fixpoint walkPyObject (fuel : nat) (o : oid) : M st Z :=
  match fuel with
  | O => raise RecursionLimit
  | S fuel =>
      s ← get;
      match pyObjectIdToObjectId s !! o with
      | Some objectId => mret objectId
      | None =>
          o' ← converted o;
          objectId ← allocateId o';
          if bool_decide (o' = connect) then
            registerUnconvertible objectId ;; mret objectId
          else
            catch (walk_object (walkPyObject fuel) fuel o' objectId)
              (λ e, if is_source_error e then registerUnconvertible objectId else raise e) ;;
            mret objectId
      end
  end.

(** [__init__]: no object with a FORA implementation may be mapped. *)
Definition new_walker (reg : registry) (files : gmap string oid) (sources : gmap string string)
    (h : heap) (ps : PS) : res unit * st :=
  forM_ (λ x : oid * string,
           mappable ← on_mapping (canMap x.1);
           when mappable (raise UserWarning))
    (map_to_list pythonSingletonToName)
    (Walker ∅ ∅ reg files sources h ps).
End walker.
