(* ===== verification/PyObjectWalkerSpec.v ===== *)
(** * What a conversion registers

    The definitions that [walkPyObject] registers depict the live objects: a
    specification of each definition in terms of the object it stands for, and the
    proof that every walk that returns establishes it. *)
From Stdlib Require Import Lia.
From stdpp Require Import base gmap sets list strings fin_maps fin_map_dom.
From S2P Require Import Prelude PyAst FreeVariableAnalyses AstUtil TypeDescription ObjectRegistry PyHeap PyObjectWalker.

(** The object each id was allocated for: what happened so far. *)
Abbreviation history := (gmap Z oid).

Section depicts.
Context {PS : Type} `{Interpreter}.
Abbreviation st := (walker PS).
Abbreviation defs s := (objectIdToObjectDefinition (objectRegistry s)).

(** [o] is an object of kind [k]. *)
Definition is_a (s : st) (o : oid) (k : kind) : Prop :=
  ∃ x, objects (the_heap s) !! o = Some x ∧ kind_of x = k.

(** The id [i] stands for [o], or for what [o] is converted to. *)
Definition denotes (G : history) (s : st) (o : oid) (i : Z) : Prop :=
  G !! i = Some o ∨ ∃ p, convertedObjectCache s !! o = Some p ∧ G !! i = Some p.

(** ** Resolutions of free variables

    Members of modules are followed as far as they go; a chain that ends at a
    module gives an unconvertible object. *)
Inductive along (h : heap) : oid → list string → list string → list string → oid → Prop :=
| along_object v x sub rest :
    objects h !! v = Some x → (∀ n, kind_of x ≠ KModule n) → along h v sub rest sub v
| along_module v x n sub u xu :
    objects h !! v = Some x → kind_of x = KModule n →
    objects h !! u = Some xu → kind_of xu = KUnconvertible → along h v sub [] sub u
| along_member v x n sub a rest w sub' t :
    objects h !! v = Some x → kind_of x = KModule n → attributes x !! a = Some w →
    along h w (sub ++ [a]) rest sub' t → along h v sub (a :: rest) sub' t.

(** The value of a variable in a function: its closure, its globals, the builtins. *)
Definition function_root (f : function) (x : string) : option oid :=
  if bool_decide (x ∈ co_freevars f) then
    '(i, _) ← list_find (x =.) (co_freevars f); c ← func_closure f !! i; c
  else match func_globals f !! x with Some v => Some v | None => builtins !! x end.

Definition block_root (b : withBlock) (x : string) : option oid :=
  match boundVariables b !! x with Some v => Some v | None => builtins !! x end.

Definition resolves_from (s : st) (root : string → option oid) (c : ChainWithPosition)
    (sub : list string) (v : oid) : Prop :=
  ∃ x r, head c.1 = Some x ∧ root x = Some r ∧
    along (the_heap s) r (take 1 c.1) (drop 1 c.1) sub v.

(** A chain of a class is resolved by one of its functions, or is one of its bases. *)
Definition class_resolves (s : st) (k : class) (pyAst : node) (c : ChainWithPosition)
    (sub : list string) (v : oid) : Prop :=
  (∃ f, f ∈ cls_functions k ∧ resolves_from s (function_root f) c sub v) ∨
  (∃ bs chains i, class_bases pyAst = Ret bs ∧ mapR getBaseClassChain bs = Ret chains ∧
     chains !! i = Some (Some c.1) ∧ bases k !! i = Some v ∧ sub = c.1).

Definition object_resolves (x : pyobj) (pyAst : node) (s : st) (c : ChainWithPosition)
    (sub : list string) (v : oid) : Prop :=
  ∃ w, match kind_of x with
       | KFunction f => resolves_from s (function_root f) c sub w
       | KClass k => class_resolves s k pyAst c sub w
       | _ => False
       end ∧ (v = w ∨ convertedObjectCache s !! w = Some v).

Definition block_resolves (b : withBlock) (s : st) (c : ChainWithPosition)
    (sub : list string) (v : oid) : Prop :=
  ∃ w, resolves_from s (block_root b) c sub w ∧
    (v = w ∨ ∃ p, convertedObjectCache s !! w = Some p ∧ getitem p 1 = Ret v).

(** A scope holds the ids of the resolutions of some chains of [chains], and of
    every one of them. *)
Definition scope_ok (G : history) (s : st) (chains : gset ChainWithPosition)
    (resolves : st → ChainWithPosition → list string → oid → Prop) (sc : scope) : Prop :=
  (∀ name i, (name, i) ∈ sc → ∃ c sub v, c ∈ chains ∧ resolves s c sub v ∧
     name = join_chain sub ∧ denotes G s v i) ∧
  (∀ c, c ∈ chains → ∃ sub v i, resolves s c sub v ∧ (join_chain sub, i) ∈ sc).

(** ** Definitions *)

(** The source of a class or function: its file, its line, and the free chains of
    what [at_line] finds there. *)
Definition described_by (at_line : node → Z → res node) (G : history) (s : st) (o : oid)
    (x : pyobj) (fileId line : Z) (sc : scope) : Prop :=
  ∃ path text src tree pyAst chains file fileText,
    getsourcefile o = Ret (Some path) ∧ getSourceLines o = Ret (src, line) ∧
    parse text = Ret tree ∧ at_line tree line = Ret pyAst ∧
    freeMemberAccessChainsWithPositions pyAst = Ret chains ∧
    scope_ok G s (filter (λ c, is_reserved c = false) chains) (object_resolves x pyAst) sc ∧
    is_a s file (KFileDescription path fileText) ∧ denotes G s file fileId.

(** The objects that are converted by looking at their class. *)
Definition is_instance (o : oid) (x : pyobj) : bool :=
  match kind_of x with
  | KException _ => bool_decide ((class_of x ≫= (pythonSingletonToName !!.)) = None)
  | KBuiltinFunction => bool_decide (singleton_name o x = None)
  | KModule _ | KOther => true
  | _ => false
  end.

(** The objects whose source may be missing. *)
Definition needs_source (o : oid) (x : pyobj) : bool :=
  match kind_of x with
  | KFunction _ | KClass _ | KWithBlock _ | KFuture _ => true
  | _ => is_instance o x
  end.

(** Strings are registered in base 64. *)
Definition encoded (p : prim) : prim :=
  match p with PStr t => PStr (PyStrings.Base64.b64encode t) | p => p end.

Inductive depicts (G : history) (s : st) : oid → definition → Prop :=
| depicts_remote o a : is_a s o (KRemotePythonObject a) → depicts G s o (RemotePythonObject a)
| depicts_future o r d :
    is_a s o (KFuture (Ret r)) → depicts G s r d → depicts G s o d
| depicts_file o name text :
    is_a s o (KFileDescription name text) → depicts G s o (File name text)
| depicts_exception o x args name argsId :
    objects (the_heap s) !! o = Some x → kind_of x = KException args →
    (class_of x ≫= (pythonSingletonToName !!.)) = Some name → denotes G s args argsId →
    depicts G s o (BuiltinExceptionInstance name argsId)
| depicts_singleton o x name :
    objects (the_heap s) !! o = Some x → singleton_name o x = Some name →
    depicts G s o (NamedSingleton name)
| depicts_marker o : is_a s o KUnconvertible → depicts G s o Unconvertible
| depicts_connect o : o = connect → depicts G s o Unconvertible
| depicts_no_source o x :
    objects (the_heap s) !! o = Some x → needs_source o x = true → depicts G s o Unconvertible
| depicts_tuple o vals ids :
    is_a s o (KTuple vals) → Forall2 (denotes G s) vals ids → depicts G s o (Tuple ids)
| depicts_list o vals ids :
    is_a s o (KList vals) → Forall2 (denotes G s) vals ids → depicts G s o (List ids)
| depicts_primitives o vals ps :
    is_a s o (KList vals) → Forall2 (λ v p, is_a s v (KPrimitive p)) vals ps →
    depicts G s o (PrimitiveList (Prim <$> ps))
| depicts_dict o items ks vs :
    is_a s o (KDict items) → Forall2 (denotes G s) items.*1 ks →
    Forall2 (denotes G s) items.*2 vs → depicts G s o (Dict ks vs)
| depicts_primitive o p : is_a s o (KPrimitive p) → depicts G s o (Primitive (encoded p))
| depicts_method o self name i :
    is_a s o (KInstanceMethod self name) → denotes G s self i →
    depicts G s o (InstanceMethod i name)
| depicts_instance o x c names cid members :
    objects (the_heap s) !! o = Some x → is_instance o x = true → class_of x = Some c →
    denotes G s c cid → dataMemberNames x c = Ret names →
    Forall2 (λ name m, name = m.1 ∧ ∃ v, attributes x !! name = Some v ∧ denotes G s v m.2)
      names members →
    depicts G s o (ClassInstanceDescription cid members)
| depicts_block o b tree w body chains sc file fileText fileId :
    is_a s o (KWithBlock b) → parse (sourceText b) = Ret tree →
    withBlockAtLineNumber tree (lineNumber b) = Ret w → with_body w = Ret body →
    hasReturnInOuterScope (withBlockFun (lineNumber b) body) = Ret false →
    hasYieldInOuterScope (withBlockFun (lineNumber b) body) = Ret false →
    withBlockChains b (withBlockFun (lineNumber b) body) = Ret chains →
    scope_ok G s chains (block_resolves b) sc →
    is_a s file (KFileDescription (sourceFileName b) fileText) → denotes G s file fileId →
    depicts G s o (WithBlockDescription sc fileId (lineNumber b))
| depicts_function o x f fileId line sc :
    objects (the_heap s) !! o = Some x → kind_of x = KFunction f → func_name f ≠ "__inline_fora" →
    described_by functionDefOrLambdaAtLineNumber G s o x fileId line sc →
    depicts G s o (FunctionDefinition fileId line sc)
| depicts_class o x c fileId line sc baseIds :
    objects (the_heap s) !! o = Some x → kind_of x = KClass c → cls_name c ≠ "__inline_fora" →
    described_by classDefAtLineNumber G s o x fileId line sc →
    Forall2 (λ b i, G !! i = Some b) (bases c) baseIds →
    depicts G s o (ClassDefinition fileId line sc baseIds).
End depicts.

(** ** The invariant of a walk, and how a state grows *)

Section invariant.
Context {PS : Type} `{!PureClassMapping PS} `{!Interpreter}.
Abbreviation st := (walker PS).
Abbreviation defs s := (objectIdToObjectDefinition (objectRegistry s)).

Record inv (G : history) (s : st) : Prop := {
  inv_heap : heap_ok (the_heap s);
  inv_allocated i : i ∈ dom G → (i < nextObjectID (objectRegistry s))%Z;
  inv_defined i : i ∈ dom (defs s) → (i < nextObjectID (objectRegistry s))%Z;
  inv_ids o i : pyObjectIdToObjectId s !! o = Some i → G !! i = Some o;
  inv_files name o : fileTextCache s !! name = Some o →
    ∃ text, is_a s o (KFileDescription name text);
  inv_depicts i o d : G !! i = Some o → defs s !! i = Some d → depicts G s o d }.

Record ext (G : history) (s : st) (G' : history) (s' : st) : Prop := {
  ext_history : G ⊆ G';
  ext_heap : heap_extends (the_heap s) (the_heap s');
  ext_cache : convertedObjectCache s ⊆ convertedObjectCache s';
  ext_defs : defs s ⊆ defs s';
  ext_next : (nextObjectID (objectRegistry s) ≤ nextObjectID (objectRegistry s'))%Z;
  ext_new i : i ∈ dom G' → i ∈ dom G ∨ (nextObjectID (objectRegistry s) ≤ i)%Z }.

Lemma ext_refl G s : ext G s G s.
Proof. split; try done. eauto. Qed.

Lemma ext_trans G1 s1 G2 s2 G3 s3 : ext G1 s1 G2 s2 → ext G2 s2 G3 s3 → ext G1 s1 G3 s3.
Proof.
  intros [] []. split; try (by etrans). intros i Hi.
  destruct (ext_new1 i Hi) as [Hi'|?]; [|right; lia]. by apply ext_new0.
Qed.

Section monotone.
Context {G G' : history} {s s' : st} (E : ext G s G' s').

Lemma heap_mono o x : objects (the_heap s) !! o = Some x → objects (the_heap s') !! o = Some x.
Proof. intros. eapply lookup_weaken; [done|apply E]. Qed.

Lemma is_a_mono o k : is_a s o k → is_a s' o k.
Proof. intros (x & Hx & Hk). exists x. split; [by apply heap_mono|done]. Qed.

Lemma history_mono i o : G !! i = Some o → G' !! i = Some o.
Proof. intros. eapply lookup_weaken; [done|apply E]. Qed.

Lemma cache_mono o p : convertedObjectCache s !! o = Some p → convertedObjectCache s' !! o = Some p.
Proof. intros. eapply lookup_weaken; [done|apply E]. Qed.

Lemma denotes_mono o i : denotes G s o i → denotes G' s' o i.
Proof.
  intros [Hi|(p & Hp & Hi)]; [left; by apply history_mono|].
  right. exists p. split; [by apply cache_mono|by apply history_mono].
Qed.

Lemma denotes_all_mono l ids : Forall2 (denotes G s) l ids → Forall2 (denotes G' s') l ids.
Proof. intros Hl. eapply Forall2_impl; [done|apply denotes_mono]. Qed.

Lemma along_mono v sub rest sub' t :
  along (the_heap s) v sub rest sub' t → along (the_heap s') v sub rest sub' t.
Proof. induction 1; eauto using along, heap_mono. Qed.

Lemma resolves_from_mono root c sub v : resolves_from s root c sub v → resolves_from s' root c sub v.
Proof. intros (x & r & ? & ? & ?). exists x, r. eauto using along_mono. Qed.

Lemma class_resolves_mono k pyAst c sub v :
  class_resolves s k pyAst c sub v → class_resolves s' k pyAst c sub v.
Proof.
  intros [(f & ? & ?)|?]; [left|by right]. exists f. eauto using resolves_from_mono.
Qed.

Lemma object_resolves_mono x pyAst c sub v :
  object_resolves x pyAst s c sub v → object_resolves x pyAst s' c sub v.
Proof.
  intros (w & Hw & Hv). exists w. split; [|naive_solver eauto using cache_mono].
  destruct (kind_of x); eauto using resolves_from_mono, class_resolves_mono.
Qed.

Lemma block_resolves_mono b c sub v : block_resolves b s c sub v → block_resolves b s' c sub v.
Proof.
  intros (w & Hw & Hv). exists w. split; [by apply resolves_from_mono|].
  destruct Hv as [->|(p & ? & ?)]; [by left|]. right. exists p. eauto using cache_mono.
Qed.

Lemma scope_ok_mono chains R sc :
  (∀ c sub v, R s c sub v → R s' c sub v) → scope_ok G s chains R sc → scope_ok G' s' chains R sc.
Proof.
  intros HR [H1 H2]. split.
  - intros name i Hi. destruct (H1 name i Hi) as (c & sub & v & ? & ? & ? & ?).
    exists c, sub, v. split_ands; eauto using denotes_mono.
  - intros c Hc. destruct (H2 c Hc) as (sub & v & i & ? & ?). exists sub, v, i. eauto.
Qed.

Lemma described_by_mono at_line o x fileId line sc :
  described_by at_line G s o x fileId line sc → described_by at_line G' s' o x fileId line sc.
Proof.
  intros (path & text & src & tree & pyAst & chains & file & ft & ? & ? & ? & ? & ? & ? & ? & ?).
  exists path, text, src, tree, pyAst, chains, file, ft. split_ands; try done.
  - eapply scope_ok_mono; [|done]. intros *. apply object_resolves_mono.
  - by apply is_a_mono.
  - by apply denotes_mono.
Qed.

Lemma depicts_mono o d : depicts G s o d → depicts G' s' o d.
Proof.
  induction 1; try (by econstructor; eauto using is_a_mono, heap_mono, denotes_mono,
    denotes_all_mono, described_by_mono).
  - eapply depicts_primitives; [by apply is_a_mono|].
    eapply Forall2_impl; [done|]. intros ? ?. apply is_a_mono.
  - eapply depicts_instance; eauto using heap_mono, denotes_mono.
    eapply Forall2_impl; [done|]. intros name m [-> (v & ? & ?)]. eauto using denotes_mono.
  - eapply depicts_block; eauto using is_a_mono, denotes_mono.
    eapply scope_ok_mono; [|done]. intros *. apply block_resolves_mono.
  - eapply depicts_class; eauto using heap_mono, described_by_mono.
    eapply Forall2_impl; [done|]. intros ? ?. apply history_mono.
Qed.
End monotone.

(** The ids handed out that have no definition yet. *)
Definition pending (G : history) (s : st) : gset Z := dom G ∖ dom (defs s).

(** ** Outcomes of computations

    [ok E P G s m Q]: run in a state [s] of history [G] that satisfies the
    invariant, [m] ends in such a state again. If it returns, the pending ids are
    [P] and [Q] holds; if it raises, the error is one of [E], and the errors that
    are caught leave the pending ids as they were. *)
Definition ok {A} (E : exn → Prop) (P : gset Z) (G : history) (s : st) (m : M st A)
    (Q : A → history → st → Prop) : Prop :=
  match m s with
  | (Ret a, s') => ∃ G', inv G' s' ∧ ext G s G' s' ∧ pending G' s' = P ∧ Q a G' s'
  | (Raise e, s') => ∃ G', inv G' s' ∧ ext G s G' s' ∧ E e ∧
      (is_source_error e = true → pending G' s' = pending G s)
  end.

(** No error about source text; any error. *)
Definition quiet (e : exn) : Prop := is_source_error e = false.
Definition any (e : exn) : Prop := True.

Lemma ok_ret {A} E G s (a : A) (Q : A → history → st → Prop) :
  inv G s → Q a G s → ok E (pending G s) G s (mret a) Q.
Proof. intros. exists G. eauto using ext_refl. Qed.

Lemma ok_raise {A} (E : exn → Prop) P G s e (Q : A → history → st → Prop) :
  inv G s → E e → ok E P G s (raise e) Q.
Proof. intros. exists G. eauto using ext_refl. Qed.

Lemma ok_lift {A} (E : exn → Prop) G s (r : res A) (Q : A → history → st → Prop) :
  inv G s → (∀ e, r = Raise e → E e) → (∀ a, r = Ret a → Q a G s) →
  ok E (pending G s) G s (lift r) Q.
Proof. intros ? HE HQ. unfold ok, lift. destruct r as [a|e]; exists G; eauto 10 using ext_refl. Qed.

Lemma ok_get E G s (Q : st → history → st → Prop) :
  inv G s → Q s G s → ok E (pending G s) G s get Q.
Proof. intros. exists G. eauto using ext_refl. Qed.

Lemma ok_weaken {A} (E E' : exn → Prop) P G s (m : M st A) (Q Q' : A → history → st → Prop) :
  (∀ e, E e → E' e) → (∀ a G' s', inv G' s' → ext G s G' s' → Q a G' s' → Q' a G' s') →
  ok E P G s m Q → ok E' P G s m Q'.
Proof.
  unfold ok. intros HE HQ. destruct (m s) as [[a|e] s'].
  - intros (G' & ? & ? & ? & ?). exists G'. eauto.
  - intros (G' & ? & ? & ? & ?). exists G'. eauto.
Qed.

Lemma ok_bind {A B} E P G s (m : M st A) (f : A → M st B) (Q : A → history → st → Prop)
    (R : B → history → st → Prop) :
  ok E (pending G s) G s m Q →
  (∀ a G' s', inv G' s' → ext G s G' s' → pending G' s' = pending G s → Q a G' s' →
     ok E P G' s' (f a) R) →
  ok E P G s (mbind f m) R.
Proof.
  unfold ok, mbind, M_bind. intros Hm Hf. destruct (m s) as [[a|e] s1]; [|done].
  destruct Hm as (G1 & Hi1 & He1 & Hp1 & HQ). specialize (Hf a G1 s1 Hi1 He1 Hp1 HQ).
  destruct (f a s1) as [[b|e] s2].
  - destruct Hf as (G2 & ? & ? & ? & ?). exists G2. eauto using ext_trans.
  - destruct Hf as (G2 & ? & ? & ? & Hp2). exists G2. split_ands; eauto using ext_trans.
    intros He. by rewrite Hp2.
Qed.

(** An error that is not about source text, or that is passed on, may be caught. *)
Lemma ok_catch_quiet {A} P G s (m : M st A) (h : exn → M st A) (Q : A → history → st → Prop) :
  ok quiet P G s m Q →
  (∀ e G' s', inv G' s' → ext G s G' s' → quiet e → ok quiet P G' s' (h e) Q) →
  ok quiet P G s (catch m h) Q.
Proof.
  unfold ok, catch. intros Hm Hh. destruct (m s) as [[a|e] s1]; [done|].
  destruct Hm as (G1 & Hi1 & He1 & HE & _). specialize (Hh e G1 s1 Hi1 He1 HE).
  destruct (h e s1) as [[b|e'] s2].
  - destruct Hh as (G2 & ? & ? & ? & ?). exists G2. eauto using ext_trans.
  - destruct Hh as (G2 & ? & ? & Hq & _). exists G2. split_ands; eauto using ext_trans.
    unfold quiet in Hq. congruence.
Qed.

Lemma ok_mapM {A B} E G s (f : A → M st B) (R : A → B → history → st → Prop) l :
  (∀ x y G1 s1 G2 s2, ext G1 s1 G2 s2 → R x y G1 s1 → R x y G2 s2) →
  inv G s →
  (∀ x G' s', x ∈ l → inv G' s' → ext G s G' s' → ok E (pending G' s') G' s' (f x) (R x)) →
  ok E (pending G s) G s (mapM f l) (λ ys G' s', Forall2 (λ x y, R x y G' s') l ys).
Proof.
  intros Hmono. revert G s. induction l as [|x l IH]; intros G s Hi Hf.
  { by apply ok_ret. }
  change (mapM f (x :: l)) with (y ← f x; ys ← mapM f l; mret (y :: ys)).
  eapply ok_bind; [apply Hf; [by left|done|apply ext_refl]|]. intros y G1 s1 Hi1 He1 <- Hy.
  eapply ok_bind.
  { apply IH; [done|]. intros x' G2 s2 Hx' Hi2 He2. apply Hf; [by right|done|]. by eapply ext_trans. }
  intros ys G2 s2 Hi2 He2 <- Hys. apply ok_ret; [done|]. constructor; [|done].
  by eapply Hmono.
Qed.

(** ** Computations that leave the registry alone *)

Definition wf (s : st) : Prop :=
  heap_ok (the_heap s) ∧
  ∀ name o, fileTextCache s !! name = Some o → ∃ text, is_a s o (KFileDescription name text).

Record grows (s s' : st) : Prop := {
  grows_registry : objectRegistry s' = objectRegistry s;
  grows_ids : pyObjectIdToObjectId s' = pyObjectIdToObjectId s;
  grows_heap : heap_extends (the_heap s) (the_heap s');
  grows_cache : convertedObjectCache s ⊆ convertedObjectCache s' }.

Lemma grows_refl s : grows s s.
Proof. by split. Qed.

Lemma grows_trans s1 s2 s3 : grows s1 s2 → grows s2 s3 → grows s1 s3.
Proof. intros [] []. split; [congruence|congruence|by etrans|by etrans]. Qed.

Lemma grows_ext G s s' : grows s s' → ext G s G s'.
Proof. intros [Hr ? ? ?]. split; rewrite ?Hr; try done. eauto. Qed.

(** The errors of [m] are among [E], and a result satisfies [Q]. *)
Definition calm {A} (E : exn → Prop) (s : st) (m : M st A) (Q : A → st → Prop) : Prop :=
  match m s with
  | (r, s') => wf s' ∧ grows s s' ∧ match r with Ret a => Q a s' | Raise e => E e end
  end.

Lemma calm_ret {A} E s (a : A) (Q : A → st → Prop) : wf s → Q a s → calm E s (mret a) Q.
Proof. intros. split; [done|]. split; [apply grows_refl|done]. Qed.

Lemma calm_raise {A} (E : exn → Prop) s e (Q : A → st → Prop) :
  wf s → E e → calm E s (raise e) Q.
Proof. intros. split; [done|]. split; [apply grows_refl|done]. Qed.

Lemma calm_lift {A} (E : exn → Prop) s (r : res A) (Q : A → st → Prop) :
  wf s → (∀ e, r = Raise e → E e) → (∀ a, r = Ret a → Q a s) → calm E s (lift r) Q.
Proof.
  intros. unfold calm, lift. split; [done|]. split; [apply grows_refl|destruct r; auto].
Qed.

Lemma calm_get E s (Q : st → st → Prop) : wf s → Q s s → calm E s get Q.
Proof. intros. split; [done|]. split; [apply grows_refl|done]. Qed.

Lemma calm_bind {A B} E s (m : M st A) (f : A → M st B) (Q : A → st → Prop) (R : B → st → Prop) :
  calm E s m Q → (∀ a s', wf s' → grows s s' → Q a s' → calm E s' (f a) R) →
  calm E s (mbind f m) R.
Proof.
  unfold calm, mbind, M_bind. intros Hm Hf. destruct (m s) as [[a|e] s1].
  - destruct Hm as (Hw1 & Hg1 & HQ). specialize (Hf a s1 Hw1 Hg1 HQ).
    destruct (f a s1) as [r s2]. destruct Hf as (? & ? & ?). eauto using grows_trans.
  - done.
Qed.

Lemma calm_catch {A} (E E' : exn → Prop) s (m : M st A) (h : exn → M st A) (Q : A → st → Prop) :
  calm E s m Q → (∀ e s', wf s' → grows s s' → E e → calm E' s' (h e) Q) →
  calm E' s (catch m h) Q.
Proof.
  unfold calm, catch. intros Hm Hh. destruct (m s) as [[a|e] s1]; destruct Hm as (Hw1 & Hg1 & HQ);
    [done|]. specialize (Hh e s1 Hw1 Hg1 HQ). destruct (h e s1) as [r s2].
  destruct Hh as (? & ? & ?). eauto using grows_trans.
Qed.

Lemma calm_weaken {A} (E E' : exn → Prop) s (m : M st A) (Q Q' : A → st → Prop) :
  (∀ e, E e → E' e) → (∀ a s', wf s' → grows s s' → Q a s' → Q' a s') →
  calm E s m Q → calm E' s m Q'.
Proof. unfold calm. intros HE HQ. destruct (m s) as [[a|e] s1]; naive_solver. Qed.

Lemma inv_wf G s : inv G s → wf s.
Proof. by intros []. Qed.

Lemma calm_ok {A} E G s (m : M st A) (Q : A → st → Prop) :
  inv G s → calm E s m Q → ok E (pending G s) G s m (λ a _ s', Q a s').
Proof.
  intros Hi Hm. unfold ok, calm in *. destruct (m s) as [r s']. destruct Hm as ([Hh Hf] & Hg & HQ).
  pose proof (grows_ext G s s' Hg) as He. destruct Hg as [Hr Hids ? ?].
  assert (Hi' : inv G s').
  { destruct Hi. split; rewrite ?Hr, ?Hids; try done. intros i o d Hg Hd.
    eapply depicts_mono; eauto. }
  assert (Hp : pending G s' = pending G s) by (unfold pending; by rewrite Hr).
  destruct r; exists G; eauto.
Qed.
End invariant.

(** ** The handlers *)

Section handlers.
Context {PS : Type} `{!PureClassMapping PS} `{!Interpreter}.
Abbreviation st := (walker PS).
Abbreviation defs s := (objectIdToObjectDefinition (objectRegistry s)).
Implicit Types (G : history) (s : st) (o : oid) (i : Z).

(** The id [i] is to be defined as what depicts [o]. *)
Record task G s i o : Prop := {
  task_pending : i ∈ pending G s;
  task_owner : ∃ w, G !! i = Some w ∧
    ∀ G' s' d, ext G s G' s' → depicts G' s' o d → depicts G' s' w d }.

Lemma task_mono G s i o G' s' :
  ext G s G' s' → pending G' s' = pending G s → task G s i o → task G' s' i o.
Proof.
  intros He Hp [Hi (w & Hw & Hd)]. split; [by rewrite Hp|].
  exists w. split; [by eapply history_mono|]. intros G2 s2 d He2. apply Hd. by eapply ext_trans.
Qed.

Definition done_with {A} (a : A) G s : Prop := True.

Lemma ok_define E G s i o d :
  inv G s → task G s i o → depicts G s o d →
  ok E (pending G s ∖ {[i]}) G s (on_registry (define i d)) done_with.
Proof.
  intros Hi [Hp (w & Hw & Hown)] Hd.
  unfold pending in Hp. apply elem_of_difference in Hp as [HpG Hpd].
  set (s' := snd (on_registry (define i d) s)).
  assert (He : ext G s G s').
  { split; try done; cbn; [|by eauto]. apply insert_subseteq. by apply not_elem_of_dom. }
  exists G. split_ands; [|exact He| |done].
  - pose proof Hi as []. split; try done; cbn.
    + intros i'. rewrite dom_insert_L. intros [->%elem_of_singleton|?]%elem_of_union; auto.
    + intros i' o' d' Ho' Hd'. destruct (decide (i' = i)) as [->|].
      * rewrite lookup_insert_eq in Hd'. simplify_eq.
        apply (depicts_mono He). apply Hown; [apply ext_refl|done].
      * rewrite lookup_insert_ne in Hd' by done. apply (depicts_mono He). eauto.
  - unfold pending. cbn. rewrite dom_insert_L. set_solver.
Qed.

(** What the recursive calls of the handlers do. *)
Definition walks (walk : oid → M st Z) : Prop := ∀ G s o,
  inv G s → ok quiet (pending G s) G s (walk o) (λ i G' s', denotes G' s' o i).

Lemma ok_source {A} P G s (m : M st A) (Q : A → history → st → Prop) :
  ok quiet P G s m Q → ok any P G s m Q.
Proof. apply ok_weaken; [done|eauto]. Qed.

Lemma ok_walk_list walk G s vals :
  walks walk → inv G s →
  ok quiet (pending G s) G s (mapM walk vals) (λ ids G' s', Forall2 (denotes G' s') vals ids).
Proof.
  intros Hw Hi. apply (ok_mapM quiet G s walk (λ o i G' s', denotes G' s' o i)); eauto.
  intros ? ? * He. by apply denotes_mono.
Qed.

Section walk.
Context (walk : oid → M st Z) (Hwalk : walks walk).

(** Walk one object, then go on. *)
Lemma ok_then {A} (E : exn → Prop) P G s o (f : Z → M st A) (Q : A → history → st → Prop) :
  (∀ e, quiet e → E e) → inv G s →
  (∀ i G' s', inv G' s' → ext G s G' s' → pending G' s' = pending G s → denotes G' s' o i →
     ok E P G' s' (f i) Q) →
  ok E P G s (mbind f (walk o)) Q.
Proof.
  intros HE Hi Hf. eapply ok_bind; [|exact Hf].
  eapply ok_weaken; [exact HE| |by apply Hwalk]. by intros.
Qed.

Lemma ok_registerTuple G s i o vals :
  inv G s → task G s i o → is_a s o (KTuple vals) →
  ok quiet (pending G s ∖ {[i]}) G s (registerTuple walk i vals) done_with.
Proof.
  intros Hi Ht Ho. eapply ok_bind; [by apply ok_walk_list|].
  intros ids G1 s1 Hi1 He1 Hp Hids. rewrite <- Hp. eapply ok_define; [done|by eapply task_mono|].
  eapply depicts_tuple; [by eapply is_a_mono|done].
Qed.

Lemma primitives_ok s vals :
  forallb (λ val, bool_decide (is_Some (primitive_at (the_heap s) val))) vals = true →
  Forall2 (λ v p, is_a s v (KPrimitive p)) vals (omap (primitive_at (the_heap s)) vals).
Proof.
  intros Hall. induction vals as [|v vals IH]; [constructor|].
  cbn in Hall. apply andb_true_iff in Hall as [[p Hp]%bool_decide_eq_true Hall].
  cbn. rewrite Hp. constructor; [|by apply IH].
  unfold primitive_at in Hp. destruct (objects (the_heap s) !! v) as [x|] eqn:Hx; [|done].
  cbn in Hp. destruct (kind_of x) eqn:Hk; try done. exists x. naive_solver.
Qed.

Lemma ok_registerList G s i o vals :
  inv G s → task G s i o → is_a s o (KList vals) →
  ok quiet (pending G s ∖ {[i]}) G s (registerList walk i vals) done_with.
Proof.
  intros Hi Ht Ho. eapply (ok_bind _ _ _ _ _ _ (λ s' G1 s1, s' = s)); [by apply ok_get|].
  intros s' G1 s1 Hi1 He1 Hp ->. rewrite <- Hp.
  destruct (forallb _ vals) eqn:Hall.
  - eapply ok_define; [done|by eapply task_mono|]. eapply depicts_mono; [exact He1|].
    eapply depicts_primitives; [done|]. by apply primitives_ok.
  - eapply ok_bind; [by apply ok_walk_list|]. intros ids G2 s2 Hi2 He2 Hp2 Hids.
    rewrite <- Hp2. assert (ext G s G2 s2) by (by eapply ext_trans).
    eapply ok_define; [done|apply (task_mono G s); [done|congruence|done]|].
    eapply depicts_list; [by eapply is_a_mono|done].
Qed.

Lemma ok_registerDict G s i o items :
  inv G s → task G s i o → is_a s o (KDict items) →
  ok quiet (pending G s ∖ {[i]}) G s (registerDict walk i items) done_with.
Proof.
  intros Hi Ht Ho. eapply ok_bind.
  - apply (ok_mapM _ _ _ _ (λ kv ids G' s', denotes G' s' kv.1 ids.1 ∧ denotes G' s' kv.2 ids.2)).
    + intros kv ids G1 s1 G2 s2 He [? ?]. eauto using denotes_mono.
    + done.
    + intros kv G1 s1 _ Hi1 He1. apply ok_then; [done|done|]. intros k G2 s2 Hi2 He2 Hp2 Hk.
      rewrite <- Hp2. apply ok_then; [done|done|]. intros v G3 s3 Hi3 He3 <- Hv.
      apply ok_ret; [done|]. eauto using denotes_mono.
  - intros ids G1 s1 Hi1 He1 Hp Hids. rewrite <- Hp.
    eapply ok_define; [done|by eapply task_mono|].
    eapply depicts_dict; [by eapply is_a_mono| |]; apply Forall2_fmap;
      (eapply Forall2_impl; [exact Hids|]); by intros ? ? [? ?].
Qed.

Lemma ok_registerInstanceMethod G s i o self name :
  inv G s → task G s i o → is_a s o (KInstanceMethod self name) →
  ok quiet (pending G s ∖ {[i]}) G s (registerInstanceMethod walk i self name) done_with.
Proof.
  intros Hi Ht Ho. apply ok_then; [done|done|]. intros j G1 s1 Hi1 He1 Hp Hj. rewrite <- Hp.
  eapply ok_define; [done|by eapply task_mono|].
  eapply depicts_method; [by eapply is_a_mono|done].
Qed.

Lemma ok_registerBuiltinExceptionInstance G s i o x args name :
  inv G s → task G s i o → objects (the_heap s) !! o = Some x → kind_of x = KException args →
  (class_of x ≫= (pythonSingletonToName !!.)) = Some name →
  ok quiet (pending G s ∖ {[i]}) G s (registerBuiltinExceptionInstance walk i args name) done_with.
Proof.
  intros Hi Ht Ho Hk Hn. apply ok_then; [done|done|]. intros j G1 s1 Hi1 He1 Hp Hj. rewrite <- Hp.
  eapply ok_define; [done|by eapply task_mono|].
  eapply depicts_exception; eauto using heap_mono.
Qed.

Lemma ok_registerClassInstance G s i o x c :
  inv G s → task G s i o → objects (the_heap s) !! o = Some x → is_instance o x = true →
  class_of x = Some c →
  ok any (pending G s ∖ {[i]}) G s (registerClassInstance walk i x c) done_with.
Proof.
  intros Hi Ht Ho Hins Hc. apply ok_then; [done|done|]. intros cid G1 s1 Hi1 He1 Hp1 Hcid.
  eapply ok_bind; [by apply (ok_lift _ _ _ _ (λ names G' s', dataMemberNames x c = Ret names))|].
  intros names G2 s2 Hi2 He2 Hp2 Hnames. eapply ok_bind.
  - apply (ok_mapM _ _ _ _ (λ name m G' s', name = m.1 ∧
      ∃ v, attributes x !! name = Some v ∧ denotes G' s' v m.2)).
    + intros name m G3 s3 G4 s4 He (-> & v & ? & ?). eauto using denotes_mono.
    + done.
    + intros name G3 s3 _ Hi3 He3.
      eapply ok_bind; [by apply (ok_lift _ _ _ _ (λ v G' s', getattr x name = Ret v))|].
      intros v G4 s4 Hi4 He4 <- Hv. apply ok_then; [done|done|].
      intros mi G5 s5 Hi5 He5 <- Hmi. apply ok_ret; [done|]. cbn. split; [done|]. exists v.
      unfold getattr in Hv. destruct (attributes x !! name); naive_solver.
  - intros members G3 s3 Hi3 He3 Hp3 Hm.
    assert (E3 : ext G s G3 s3) by (eapply ext_trans; [exact He1|by eapply ext_trans]).
    assert (Hp : pending G3 s3 = pending G s) by congruence. rewrite <- Hp.
    eapply ok_define; [done|by eapply task_mono|].
    eapply depicts_instance; [by eapply heap_mono|done|done| |exact Hnames|exact Hm].
    eapply denotes_mono; [|exact Hcid]. by eapply ext_trans.
Qed.
End walk.

(** *** Resolution *)

Lemma grows_heap_at s s' o x :
  grows s s' → objects (the_heap s) !! o = Some x → objects (the_heap s') !! o = Some x.
Proof. intros Hg. by apply (heap_mono (grows_ext ∅ s s' Hg)). Qed.

Lemma calm_object_at (E : exn → Prop) s o :
  E AssertionError → wf s → calm E s (object_at o) (λ x s', objects (the_heap s') !! o = Some x).
Proof.
  intros HE Hw. eapply calm_bind; [by apply (calm_get _ _ (λ s' s1, s' = s1))|].
  intros s' s1 Hw1 _ ->. apply calm_lift; [done| |]; intros ?; unfold of_option;
    destruct (objects (the_heap s1) !! o); naive_solver.
Qed.

Lemma calm_new_object E s x :
  wf s → calm E s (on_heap (new_object x)) (λ o s', objects (the_heap s') !! o = Some x).
Proof.
  intros [Hh Hf]. destruct (new_object_extends x (the_heap s) Hh) as (He & Hok & Hx).
  unfold calm. cbn in *. split; [split; [done|]|split; [by split|done]].
  intros name o Ho. destruct (Hf _ _ Ho) as (text & y & Hy & Hk).
  exists text, y. split; [|done]. eapply lookup_weaken; [exact Hy|exact He].
Qed.

Lemma calm_along rest : ∀ s v sub,
  wf s → calm quiet s (along_modules v sub rest) (λ r s', along (the_heap s') v sub rest r.1 r.2).
Proof.
  induction rest as [|a rest IH]; intros s v sub Hi; cbn [along_modules];
    (eapply calm_bind; [by apply calm_object_at|]);
    intros x s1 Hi1 He1 Hx; cbn beta in Hx;
    (destruct (kind_of x) eqn:Hk; try (apply calm_ret; [done|];
       eapply along_object; [exact Hx|]; intros ?; by rewrite Hk)).
  - eapply calm_bind; [by apply calm_new_object|]. intros u s2 Hi2 He2 Hu.
    cbn beta in Hu. apply calm_ret; [done|]. eapply along_module; eauto using grows_heap_at.
  - destruct (attributes x !! a) as [w|] eqn:Ha; [|by apply calm_raise].
    eapply calm_weaken; [|..|by apply IH]; [done|].
    intros [sub' t] s2 Hi2 He2 Ht. eapply along_member; eauto using grows_heap_at.
Qed.

(** A resolved chain, with its position. *)
Abbreviation resolved := (list string * oid * PositionInFile)%type.

Lemma calm_root s (root : string → option oid) c x r :
  wf s → head c.1 = Some x → root x = Some r →
  calm quiet s (computeSubchainAndTerminalValueAlongModules r c)
    (λ (q : resolved) s', resolves_from s' root c q.1.1 q.1.2).
Proof.
  intros Hw Hx Hr. eapply calm_bind; [by apply calm_along|].
  intros [sub t] s1 Hw1 Hg1 Ha. apply calm_ret; [done|]. exists x, r. done.
Qed.

Lemma calm_freeVariable s c :
  wf s → calm quiet s (lift (freeVariable c)) (λ x _, head c.1 = Some x).
Proof.
  intros Hw. apply calm_lift; [done| |]; unfold freeVariable; destruct (head c.1); naive_solver.
Qed.

Lemma calm_lookupChainInFunction s f c :
  wf s → calm quiet s (lookupChainInFunction f c)
    (λ (q : resolved) s', resolves_from s' (function_root f) c q.1.1 q.1.2).
Proof.
  intros Hw. eapply calm_bind; [by apply calm_freeVariable|]. intros x s1 Hw1 _ Hx. cbn beta in Hx.
  assert (Hroot : ∀ r, function_root f x = Some r →
    calm quiet s1 (computeSubchainAndTerminalValueAlongModules r c)
    (λ (q : resolved) s', resolves_from s' (function_root f) c q.1.1 q.1.2)).
  { intros r Hr. by eapply calm_root. }
  unfold function_root in Hroot at 1. case_bool_decide.
  - unfold index_of. destruct (list_find (x =.) (co_freevars f)) as [[i y]|]; cbn;
      [|by apply calm_raise].
    change (calm quiet s1 match func_closure f !! i with
      | Some (Some rootValue) => computeSubchainAndTerminalValueAlongModules rootValue c
      | _ => unresolved c (Some (func_name f)) end
      (λ (q : resolved) s', resolves_from s' (function_root f) c q.1.1 q.1.2)).
    cbn in Hroot. destruct (func_closure f !! i) as [[r|]|]; [|by apply calm_raise..]. by apply Hroot.
  - destruct (func_globals f !! x); [by apply Hroot|].
    destruct (builtins !! x); [by apply Hroot|by apply calm_raise].
Qed.

Lemma calm_resolveChainByDict s b c :
  wf s → calm quiet s (resolveChainByDict c (boundVariables b))
    (λ (q : resolved) s', resolves_from s' (block_root b) c q.1.1 q.1.2).
Proof.
  intros Hw. eapply calm_bind; [by apply calm_freeVariable|]. intros x s1 Hw1 _ Hx. cbn beta in Hx.
  assert (Hroot : ∀ r, block_root b x = Some r →
    calm quiet s1 (computeSubchainAndTerminalValueAlongModules r c)
    (λ (q : resolved) s', resolves_from s' (block_root b) c q.1.1 q.1.2)).
  { intros r Hr. by eapply calm_root. }
  unfold block_root in Hroot at 1.
  destruct (boundVariables b !! x); [by apply Hroot|].
  destruct (builtins !! x); [by apply Hroot|by apply calm_raise].
Qed.

(** An error that looking at syntax trees can raise. *)
Lemma getBaseClassChain_quiet n e : getBaseClassChain n = Raise e → quiet e.
Proof.
  induction n; intros Hn; cbn in Hn; try done.
  destruct (getBaseClassChain n) as [[ch|]|e'] eqn:E; cbn in Hn; simplify_eq; [done|by apply IHn].
Qed.

Lemma mapR_error {A B} (f : A → res B) l e :
  mapR f l = Raise e → ∃ x, f x = Raise e.
Proof.
  induction l as [|x l IH]; intros He; [done|]. cbn in He.
  destruct (f x) eqn:Hx; cbn in He; [|naive_solver].
  destruct (mapR f l) eqn:Hl; cbn in He; naive_solver.
Qed.

Lemma list_find_lookup {A} `{EqDecision A} (x : A) l (n : nat) y :
  list_find (x =.) l = Some (n, y) → l !! n = Some x.
Proof. by intros (? & <- & _)%list_find_Some. Qed.

Lemma calm_resolveChainByBaseClasses s k pyAst c :
  wf s → calm quiet s (lift (resolveChainByBaseClasses k pyAst c))
    (λ (o : option resolved) s', ∀ q, o = Some q → class_resolves s' k pyAst c q.1.1 q.1.2).
Proof.
  intros Hw. apply calm_lift; [done| |]; unfold resolveChainByBaseClasses.
  - intros e He. destruct (class_bases pyAst) as [bs|] eqn:Hb; cbn in He;
      [|destruct pyAst; cbn in Hb; simplify_eq; done].
    destruct (mapR getBaseClassChain bs) as [chs|] eqn:Hm; cbn in He.
    + case_bool_decide; [|done]. unfold index_of, of_option in He.
      destruct (list_find _ chs) as [[i y]|]; cbn in He; [|by simplify_eq].
      destruct (bases k !! i); cbn in He; by simplify_eq.
    + simplify_eq. apply mapR_error in Hm as [n Hn]. by eapply getBaseClassChain_quiet.
  - intros a Ha q ->. destruct (class_bases pyAst) as [bs|] eqn:Hb; cbn in Ha; [|done].
    destruct (mapR getBaseClassChain bs) as [chs|] eqn:Hm; cbn in Ha; [|done].
    case_bool_decide; [|done]. unfold index_of, of_option in Ha.
    destruct (list_find _ chs) as [[i y]|] eqn:Hf; cbn in Ha; [|done].
    destruct (bases k !! i) eqn:Hk; cbn in Ha; [|done]. simplify_eq. right.
    exists bs, chs, i. split_ands; try done. by eapply list_find_lookup.
Qed.

Lemma calm_lookupChainInClass s k pyAst c :
  wf s → calm quiet s (lookupChainInClass k pyAst c)
    (λ (q : resolved) s', class_resolves s' k pyAst c q.1.1 q.1.2).
Proof.
  unfold lookupChainInClass. set (P := λ (q : resolved) s', class_resolves s' k pyAst c q.1.1 q.1.2).
  intros Hw. assert (Hsub : cls_functions k ⊆ cls_functions k) by done. revert Hsub s Hw.
  generalize (cls_functions k) at 1 3. intros fs. induction fs as [|f fs IH]; intros Hsub s Hw.
  - eapply calm_bind; [by apply calm_resolveChainByBaseClasses|].
    intros [q|] s1 Hw1 Hg1 Hq; [|by apply calm_raise]. apply calm_ret; [done|]. by apply Hq.
  - cbn [lookup_in_members]. eapply (calm_catch quiet).
    + eapply calm_weaken; [done| |by apply calm_lookupChainInFunction].
      intros q s1 Hw1 _ Hq. left. exists f. split; [|done]. apply Hsub. by left.
    + intros e s1 Hw1 _ He. destruct e; try by apply calm_raise.
      apply IH; [|done]. intros g Hg. apply Hsub. by right.
Qed.

Lemma calm_resolveChainInPyObject s c x pyAst :
  wf s → calm quiet s (resolveChainInPyObject c x pyAst)
    (λ (q : resolved) s', object_resolves x pyAst s' c q.1.1 q.1.2).
Proof.
  intros Hw. eapply (calm_bind _ _ _ _ (λ (q : resolved) s', match kind_of x with
       | KFunction f => resolves_from s' (function_root f) c q.1.1 q.1.2
       | KClass k => class_resolves s' k pyAst c q.1.1 q.1.2
       | _ => False
       end)).
  - destruct (kind_of x); try by apply calm_raise.
    + by apply calm_lookupChainInFunction.
    + by apply calm_lookupChainInClass.
  - intros [[sub t] pos] s1 Hw1 Hg1 Hq. eapply calm_bind; [by apply (calm_get _ _ (λ s' s1, s' = s1))|].
    intros s2 s3 Hw3 Hg3 ->. apply calm_ret; [done|]. exists t.
    assert (E : ext ∅ s1 ∅ s3) by by apply grows_ext. split.
    + destruct (kind_of x); eauto using resolves_from_mono, class_resolves_mono.
    + cbn. destruct (convertedObjectCache s3 !! t); naive_solver.
Qed.

Lemma calm_resolveInDict s b c :
  (∀ p e, getitem p 1 = Raise e → quiet e) →
  wf s → calm quiet s (resolveInDict (boundVariables b) c)
    (λ (q : resolved) s', block_resolves b s' c q.1.1 q.1.2).
Proof.
  intros Hget Hw. eapply calm_bind; [by apply calm_resolveChainByDict|].
  intros [[sub t] pos] s1 Hw1 Hg1 Hq. cbn in Hq.
  eapply calm_bind; [by apply (calm_get _ _ (λ s' s1, s' = s1 ∧ resolves_from s' (block_root b) c sub t))|].
  intros s2 s3 Hw3 Hg3 [-> Hq3].
  eapply calm_bind; [apply (calm_lift _ _ _ (λ v s', block_resolves b s' c sub v)); [done|..]|].
  - intros e. destruct (convertedObjectCache s3 !! t); [apply Hget|done].
  - intros v. destruct (convertedObjectCache s3 !! t) as [p|] eqn:Hp; intros Hv; exists t; split;
      try done; [right; eauto|left; congruence].
  - intros v s4 Hw4 Hg4 Hv. by apply calm_ret.
Qed.

(** The dict of resolutions of a list of chains. *)
Definition resolved_all (R : st → ChainWithPosition → list string → oid → Prop)
    (chains : list ChainWithPosition) (rs : resolutions_t) (s : st) : Prop :=
  (∀ sub v pos, rs !! sub = Some (v, pos) → ∃ c, c ∈ chains ∧ R s c sub v) ∧
  (∀ c, c ∈ chains → ∃ sub v, R s c sub v ∧ sub ∈ dom rs).

Lemma calm_resolve_all (R : st → ChainWithPosition → list string → oid → Prop) E
    (resolve : ChainWithPosition → M st resolved) :
  (∀ s s' c sub v, grows s s' → R s c sub v → R s' c sub v) →
  (∀ s c, wf s → calm E s (resolve c) (λ q s', R s' c q.1.1 q.1.2)) →
  ∀ chains before rs s, wf s → resolved_all R before rs s →
  calm E s (resolve_all resolve chains rs) (λ rs' s', resolved_all R (before ++ chains) rs' s').
Proof.
  intros HR Hres chains. induction chains as [|c chains IH]; intros before rs s Hw Hbefore.
  { apply calm_ret; [done|]. by rewrite app_nil_r. }
  cbn [resolve_all]. eapply calm_bind; [by apply Hres|].
  intros [[sub v] pos] s1 Hw1 Hg1 Hv. cbn in Hv. rewrite (cons_middle c), app_assoc.
  apply IH; [done|]. destruct Hbefore as [H1 H2]. split.
  - intros sub' v' pos' Hl. destruct (decide (sub' = sub)) as [->|].
    + rewrite lookup_insert_eq in Hl. simplify_eq. exists c. split; [set_solver|done].
    + rewrite lookup_insert_ne in Hl by done. destruct (H1 _ _ _ Hl) as (c' & ? & ?).
      exists c'. split; [set_solver|by eapply HR].
  - intros c' [Hc'| ->%list_elem_of_singleton]%elem_of_app.
    + destruct (H2 c' Hc') as (sub' & v' & ? & ?). exists sub', v'. split; [by eapply HR|set_solver].
    + exists sub, v. split; [done|set_solver].
Qed.

Lemma resolved_all_nil R s : resolved_all R [] ∅ s.
Proof. split; [intros *; by rewrite lookup_empty|intros c Hc; by apply elem_of_nil in Hc]. Qed.

(** *** Scopes and files *)

Lemma resolved_all_mono R chains rs s s' :
  (∀ c sub v, R s c sub v → R s' c sub v) →
  resolved_all R chains rs s → resolved_all R chains rs s'.
Proof.
  intros HR [H1 H2]. split.
  - intros sub v pos Hl. destruct (H1 _ _ _ Hl) as (c & ? & ?). eauto.
  - intros c Hc. destruct (H2 c Hc) as (sub & v & ? & ?). eauto.
Qed.

Lemma scope_ok_intro G s (R : st → ChainWithPosition → list string → oid → Prop)
    (cs : gset ChainWithPosition) chains rs sc :
  (∀ c, c ∈ chains ↔ c ∈ cs) → resolved_all R chains rs s →
  Forall2 (λ (r : list string * (oid * PositionInFile)) m,
    m.1 = join_chain r.1 ∧ denotes G s r.2.1 m.2) (map_to_list rs) sc →
  scope_ok G s cs R sc.
Proof.
  intros Hcs [H1 H2] Hsc. split.
  - intros name i Hin. apply list_elem_of_lookup in Hin as [k Hk].
    destruct (Forall2_lookup_r _ _ _ _ _ Hsc Hk) as ([sub [v pos]] & Hr & Hn & Hd).
    apply list_elem_of_lookup_2, elem_of_map_to_list in Hr.
    destruct (H1 _ _ _ Hr) as (c & Hc & HR). exists c, sub, v. rewrite <- Hcs. done.
  - intros c Hc. apply Hcs in Hc. destruct (H2 c Hc) as (sub & v & HR & Hd).
    apply elem_of_dom in Hd as [[v' pos] Hd]. apply elem_of_map_to_list, list_elem_of_lookup in Hd as [k Hk].
    destruct (Forall2_lookup_l _ _ _ _ _ Hsc Hk) as ([name i] & Hs & Hn & _). cbn in Hn. subst.
    exists sub, v, i. split; [done|]. by eapply list_elem_of_lookup_2.
Qed.

Lemma ok_walk_resolutions walk G s path rs :
  walks walk → inv G s →
  ok quiet (pending G s) G s (walk_resolutions walk path rs)
    (λ sc G' s', Forall2 (λ (r : list string * (oid * PositionInFile)) m,
       m.1 = join_chain r.1 ∧ denotes G' s' r.2.1 m.2) (map_to_list rs) sc).
Proof.
  intros Hw Hi. apply (ok_mapM _ _ _ _ (λ (r : list string * (oid * PositionInFile)) m G' s',
    m.1 = join_chain r.1 ∧ denotes G' s' r.2.1 m.2)); [|done|].
  - intros r m G1 s1 G2 s2 He [? ?]. eauto using denotes_mono.
  - intros r G1 s1 _ Hi1 He1. eapply ok_bind.
    + apply ok_catch_quiet; [by apply Hw|]. intros e G2 s2 Hi2 He2 Hq.
      destruct e; by apply ok_raise.
    + intros i G2 s2 Hi2 He2 <- Hd. by apply ok_ret.
Qed.

Lemma any_ok e : any e.
Proof. exact I. Qed.

Lemma calm_any {A} E s (m : M st A) (Q : A → st → Prop) : calm E s m Q → calm any s m Q.
Proof. by apply calm_weaken. Qed.

Lemma calm_convert E s {A} path (m : M st A) (Q : A → st → Prop) :
  calm E s m Q → calm any s (convertUnresolvedFreeVariableExceptionAndRaise path m) Q.
Proof.
  intros Hm. eapply calm_catch; [exact Hm|]. intros e s1 Hw1 Hg1 _.
  destruct e; by apply calm_raise.
Qed.

Lemma calm_pure {A} s (r : res A) : wf s → calm any s (lift r) (λ a _, r = Ret a).
Proof. intros. apply calm_lift; done. Qed.

Lemma calm_set_file s name text o :
  wf s → is_a s o (KFileDescription name text) →
  calm any s (set_file name o) (λ _ s', is_a s' o (KFileDescription name text)).
Proof.
  intros [Hh Hf] Ho. split; [split; [done|]|split; [by split|done]].
  cbn. intros name' o' Ho'. destruct (decide (name' = name)) as [->|].
  - rewrite lookup_insert_eq in Ho'. simplify_eq. by exists text.
  - rewrite lookup_insert_ne in Ho' by done. by apply Hf.
Qed.

Lemma calm_cachedFromArgs s name text :
  wf s → calm any s (cachedFromArgs name text)
    (λ o s', ∃ t, is_a s' o (KFileDescription name t)).
Proof.
  intros Hw. eapply calm_bind; [by apply (calm_get _ _ (λ s' s1, s' = s1))|].
  intros s' s1 Hw1 Hg1 ->. destruct (fileTextCache s1 !! name) as [o|] eqn:Ho.
  { apply calm_ret; [done|]. by apply Hw1. }
  eapply (calm_bind _ _ _ _ (λ _ _, True)).
  { destruct text; [by apply calm_ret|].
    eapply calm_bind; [by apply calm_pure|]. intros lines s2 Hw2 _ _.
    eapply calm_weaken; [done| |by apply calm_pure]. done. }
  intros t s2 Hw2 _ _. eapply calm_bind; [by apply calm_new_object|].
  intros o s3 Hw3 _ Hx. eapply calm_bind; [apply (calm_set_file _ _ t); [done|]|].
  { eexists. split; [exact Hx|done]. }
  intros [] s4 Hw4 _ Ho4. apply calm_ret; [done|]. by exists t.
Qed.

Lemma calm_getSourceFilenameAndText s o :
  wf s → calm any s (getSourceFilenameAndText o)
    (λ q _, getsourcefile o = Ret (Some q.2)).
Proof.
  intros Hw. eapply calm_bind; [by apply calm_pure|]. intros f s1 Hw1 _ Hf.
  assert (Hf' : getsourcefile o = Ret f) by (destruct (getsourcefile o) as [|[]]; naive_solver).
  eapply calm_bind; [by apply calm_pure|]. intros lines s2 Hw2 _ _.
  destruct lines as [lines|]; [|by apply calm_raise].
  destruct f as [f|]; [|by apply calm_raise].
  eapply calm_bind; [by apply (calm_get _ _ (λ s' s1, s' = s1))|]. intros s' s3 Hw3 _ ->.
  destruct (sourceFileCache s3 !! f); [by apply calm_ret|].
  eapply (calm_bind _ _ _ _ (λ _ _, True)).
  - split; [exact Hw3|]. split; [by split|done].
  - intros [] s4 Hw4 _ _. by apply calm_ret.
Qed.

(** *** Functions, classes and blocks *)

(** A calm computation, then go on. *)
Lemma ok_calm {A B} (E : exn → Prop) P G s (m : M st A) (f : A → M st B) (Q : A → st → Prop)
    (R : B → history → st → Prop) :
  inv G s → calm E s m Q →
  (∀ a s', inv G s' → ext G s G s' → pending G s' = pending G s → Q a s' →
     ok E P G s' (f a) R) →
  ok E P G s (mbind f m) R.
Proof.
  intros Hi Hm Hf. unfold mbind, M_bind.
  pose proof (calm_ok E G s m (λ a s', Q a s' ∧ grows s s') Hi) as Hok.
  assert (Hm' : calm E s m (λ a s', Q a s' ∧ grows s s')) by by eapply calm_weaken; [..|exact Hm].
  specialize (Hok Hm'). unfold calm in Hm'. unfold ok in *.
  destruct (m s) as [[a|e] s1]; [|exact Hok].
  destruct Hm' as (Hw & Hg & HQ & _).
  assert (Hi1 : inv G s1).
  { pose proof (grows_ext G s s1 Hg) as He. destruct Hg as [Hr Hids ? ?]. destruct Hw.
    destruct Hi. split; rewrite ?Hr, ?Hids; try done. intros i o d Hgi Hd. eapply depicts_mono; eauto. }
  assert (Hp : pending G s1 = pending G s) by (unfold pending; by rewrite (grows_registry _ _ Hg)).
  pose proof (grows_ext G s s1 Hg) as He1. specialize (Hf a s1 Hi1 He1 Hp HQ).
  destruct (f a s1) as [[b|e] s2]; destruct Hf as (G2 & ? & ? & ? & Hlast); exists G2;
    split_ands; eauto using ext_trans. intros ?. rewrite <- Hp. by apply Hlast.
Qed.

Lemma pending_grows G s s' : grows s s' → pending G s' = pending G s.
Proof. intros Hg. unfold pending. by rewrite (grows_registry _ _ Hg). Qed.

Lemma is_reserved_chains (chains : gset ChainWithPosition) c :
  c ∈ filter (λ c, is_reserved c = false) (elements chains) ↔
  c ∈ (filter (λ c, is_reserved c = false) chains : gset ChainWithPosition).
Proof. rewrite list_elem_of_filter, elem_of_filter, elem_of_elements. done. Qed.

Lemma calm_when s (b : bool) (m : M st unit) :
  wf s → (∀ Q, calm any s m Q) → calm any s (when b m) (λ _ _, b = false).
Proof. intros Hw Hm. destruct b; [apply Hm|by apply calm_ret]. Qed.

Lemma calm_chains s x pyAst chains :
  wf s → freeMemberAccessChainsWithPositions pyAst = Ret chains →
  calm any s (computeAndResolveFreeVariableMemberAccessChainsInAst x pyAst)
    (λ rs s', resolved_all (object_resolves x pyAst)
       (filter (λ c, is_reserved c = false) (elements chains)) rs s').
Proof.
  intros Hw Hc. unfold computeAndResolveFreeVariableMemberAccessChainsInAst. rewrite Hc.
  eapply calm_any, (calm_resolve_all (object_resolves x pyAst) quiet
    (λ c, resolveChainInPyObject c x pyAst)) with (before := []) (rs := ∅); [| |done|].
  - intros s1 s2 c sub v Hg. apply (object_resolves_mono (grows_ext ∅ s1 s2 Hg)).
  - intros s1 c Hw1. by apply calm_resolveChainInPyObject.
  - apply resolved_all_nil.
Qed.

Lemma ok_classOrFunctionDefinition walk at_line G s o x name :
  walks walk → inv G s →
  ok any (pending G s) G s (classOrFunctionDefinition walk o x name at_line)
    (λ r G' s', name ≠ "__inline_fora" ∧ described_by at_line G' s' o x r.1.1 r.1.2 r.2).
Proof.
  intros Hw Hi. unfold classOrFunctionDefinition.
  eapply ok_calm; [done|apply calm_when; [by eapply inv_wf|];
    intros; apply calm_raise; [by eapply inv_wf|done]|].
  intros [] s1 Hi1 He1 Hp1 Hname. apply bool_decide_eq_false in Hname. rewrite <- Hp1.
  eapply ok_calm; [done|apply calm_getSourceFilenameAndText; by eapply inv_wf|].
  intros [text path] s2 Hi2 He2 <- Hpath. cbn in Hpath.
  eapply ok_calm; [done|apply calm_pure; by eapply inv_wf|].
  intros [src line] s3 Hi3 He3 <- Hsrc. cbn [snd].
  eapply ok_calm; [done|apply calm_pure; by eapply inv_wf|]. intros tree s4 Hi4 He4 <- Htree.
  eapply ok_calm; [done|apply calm_pure; by eapply inv_wf|]. intros pyAst s5 Hi5 He5 <- Hast.
  eapply ok_calm; [done|apply calm_pure; by eapply inv_wf|]. intros l s6 Hi6 He6 <- _.
  eapply ok_calm; [done|apply calm_pure; by eapply inv_wf|]. intros u s7 Hi7 He7 <- _.
  destruct (freeMemberAccessChainsWithPositions pyAst) as [chains|e] eqn:Hc.
  2: { unfold computeAndResolveFreeVariableMemberAccessChainsInAst. rewrite Hc.
    destruct e; exists G; eauto using ext_refl, any_ok. }
  eapply ok_calm; [done|eapply calm_convert, calm_chains; [by eapply inv_wf|exact Hc]|].
  intros rs s8 Hi8 He8 <- Hrs. cbn beta in Hrs.
  eapply ok_bind; [by eapply ok_source, ok_walk_resolutions|].
  intros sc G9 s9 Hi9 He9 <- Hsc.
  eapply ok_calm; [done|apply calm_cachedFromArgs; by eapply inv_wf|].
  intros file s10 Hi10 He10 <- [ft Hft]. apply ok_then; [done|done|done|].
  intros fid G11 s11 Hi11 He11 <- Hfid. apply ok_ret; [done|]. split; [done|].
  exists path, text, src, tree, pyAst, chains, file, ft. split_ands; try done.
  - assert (E : ext G9 s9 G11 s11) by by eapply ext_trans.
    eapply (scope_ok_mono E); [intros *; apply (object_resolves_mono E)|].
    eapply scope_ok_intro; [apply is_reserved_chains| |exact Hsc].
    eapply resolved_all_mono; [|exact Hrs]. intros *. apply (object_resolves_mono He9).
  - by eapply is_a_mono.
Qed.

Lemma ok_registerFunction walk G s i o x f :
  walks walk → inv G s → task G s i o → objects (the_heap s) !! o = Some x → kind_of x = KFunction f →
  ok any (pending G s ∖ {[i]}) G s (registerFunction walk i o x f) done_with.
Proof.
  intros Hw Hi Ht Hx Hk. eapply ok_bind; [by apply ok_classOrFunctionDefinition|].
  intros [[fid line] sc] G1 s1 Hi1 He1 Hp [Hn Hd]. rewrite <- Hp.
  unfold defineFunction, processFreeVariableMemberAccessChainResolution.
  rewrite (list_fmap_ext _ id), list_fmap_id by (by intros ? []).
  eapply ok_define; [done|by eapply task_mono|]. eapply depicts_function; eauto using heap_mono.
Qed.

Lemma base_ids_ok G s bs ids :
  inv G s → mapR (λ b, of_option KeyError (pyObjectIdToObjectId s !! b)) bs = Ret ids →
  Forall2 (λ b i, G !! i = Some b) bs ids.
Proof.
  intros Hi. revert ids. induction bs as [|b bs IH]; intros ids Hb; cbn in Hb; [by simplify_eq|].
  unfold of_option in Hb at 1. destruct (pyObjectIdToObjectId s !! b) eqn:E; cbn in Hb; [|done].
  destruct (mapR _ bs) as [ids'|] eqn:Er; cbn in Hb; [|done]. simplify_eq.
  constructor; [by eapply inv_ids|by apply IH].
Qed.

Lemma ok_registerClass walk G s i o x c :
  walks walk → inv G s → task G s i o → objects (the_heap s) !! o = Some x → kind_of x = KClass c →
  ok any (pending G s ∖ {[i]}) G s (registerClass walk i o x c) done_with.
Proof.
  intros Hw Hi Ht Hx Hk. eapply ok_bind; [by apply ok_classOrFunctionDefinition|].
  intros [[fid line] sc] G1 s1 Hi1 He1 Hp [Hn Hd]. rewrite <- Hp.
  eapply ok_calm; [done|apply (calm_get _ _ (λ s' s1, s' = s1)); [by eapply inv_wf|done]|].
  intros s' s2 Hi2 He2 Hp2 ->.
  eapply ok_calm; [done|apply calm_pure; by eapply inv_wf|]. intros u s3 Hi3 He3 Hp3 _.
  eapply ok_calm; [done|apply calm_pure; by eapply inv_wf|]. intros ids s4 Hi4 He4 Hp4 Hids.
  unfold defineClass, processFreeVariableMemberAccessChainResolution.
  rewrite (list_fmap_ext _ id), list_fmap_id by (by intros ? []).
  assert (E : ext G1 s1 G1 s4) by (eapply ext_trans; [exact He2|by eapply ext_trans]).
  assert (Hpend : pending G1 s4 = pending G1 s1) by congruence. rewrite <- Hpend.
  eapply ok_define; [done|apply (task_mono G s); [by eapply ext_trans|congruence|done]|].
  eapply (depicts_mono E), depicts_class; eauto using heap_mono. eapply base_ids_ok; [exact Hi2|exact Hids].
Qed.

Lemma calm_bad_with_block s l (Q : unit → st → Prop) : wf s → calm any s (bad_with_block l) Q.
Proof.
  intros Hw. eapply calm_bind; [by apply calm_pure|]. intros l' s1 Hw1 _ _.
  eapply calm_bind; [by apply calm_pure|]. intros. by apply calm_raise.
Qed.

Lemma calm_block_chains s (b : withBlock) (chains : gset ChainWithPosition) :
  wf s → (∀ p e, getitem p 1 = Raise e → quiet e) →
  calm any s (resolveFreeVariableMemberAccessChains chains (boundVariables b))
    (λ rs s', resolved_all (block_resolves b) (elements chains) rs s').
Proof.
  intros Hw Hget. unfold resolveFreeVariableMemberAccessChains.
  eapply calm_any, (calm_resolve_all (block_resolves b) quiet (resolveInDict (boundVariables b)))
    with (before := []) (rs := ∅); [| |done|].
  - intros s1 s2 c sub v Hg. apply (block_resolves_mono (grows_ext ∅ s1 s2 Hg)).
  - intros s1 c Hw1. by apply calm_resolveInDict.
  - apply resolved_all_nil.
Qed.

Lemma ok_registerWithBlock walk G s i o (b : withBlock) :
  walks walk → (∀ p e, getitem p 1 = Raise e → quiet e) →
  inv G s → task G s i o → is_a s o (KWithBlock b) →
  ok any (pending G s ∖ {[i]}) G s (registerWithBlock walk i b) done_with.
Proof.
  intros Hw Hget Hi Ht Ho. unfold registerWithBlock.
  eapply ok_calm; [done|apply calm_pure; by eapply inv_wf|]. intros tree s1 Hi1 He1 Hp1 Htree.
  eapply ok_calm; [done|apply calm_pure; by eapply inv_wf|]. intros w s2 Hi2 He2 Hp2 Hwith.
  eapply ok_calm; [done|apply calm_pure; by eapply inv_wf|]. intros body s3 Hi3 He3 Hp3 Hbody.
  cbv zeta. set (f := withBlockFun (lineNumber b) body) in *.
  eapply ok_calm; [done|apply calm_pure; by eapply inv_wf|]. intros hasReturn s4 Hi4 He4 Hp4 Hr.
  eapply ok_calm; [done|apply calm_when; [by eapply inv_wf|]; intros;
    apply calm_bad_with_block; by eapply inv_wf|]. intros [] s5 Hi5 He5 Hp5 ->.
  eapply ok_calm; [done|apply calm_pure; by eapply inv_wf|]. intros hasYield s6 Hi6 He6 Hp6 Hy.
  eapply ok_calm; [done|apply calm_when; [by eapply inv_wf|]; intros;
    apply calm_bad_with_block; by eapply inv_wf|]. intros [] s7 Hi7 He7 Hp7 ->.
  eapply ok_calm; [done|apply calm_pure; by eapply inv_wf|]. intros chains s8 Hi8 He8 Hp8 Hc.
  eapply ok_calm; [done|eapply calm_convert, calm_block_chains; [by eapply inv_wf|exact Hget]|].
  intros rs s9 Hi9 He9 Hp9 Hrs. cbn beta in Hrs.
  assert (E9 : ext G s G s9) by (repeat (eapply ext_trans; [eassumption|]); apply ext_refl).
  assert (Hp : pending G s9 = pending G s) by congruence.
  clear He1 He2 He3 He4 He5 He6 He7 He8 Hp1 Hp2 Hp3 Hp4 Hp5 Hp6 Hp7 Hp8 Hi1 Hi2 Hi3 Hi4 Hi5 Hi6 Hi7 Hi8.
  rewrite <- Hp. apply (task_mono _ _ _ _ _ _ E9 Hp) in Ht. apply (is_a_mono E9) in Ho.
  eapply ok_bind; [by eapply ok_source, ok_walk_resolutions|].
  intros sc Ga sa Hia Hea Hpa Hsc.
  eapply ok_calm; [done|apply calm_cachedFromArgs; by eapply inv_wf|].
  intros file sb Hib Heb Hpb [ft Hft]. apply ok_then; [done|done|done|].
  intros fid Gc s_c Hic Hec Hpc Hfid.
  assert (E : ext Ga sa Gc s_c) by by eapply ext_trans.
  assert (Ec : ext G s9 Gc s_c) by by eapply ext_trans.
  assert (Hpd : pending Gc s_c = pending G s9) by congruence. rewrite <- Hpd.
  eapply ok_define; [done|by apply (task_mono G s9)|].
  apply (depicts_block _ _ _ b tree w body chains sc file ft fid); try done;
    [by apply (is_a_mono Ec)| |by apply (is_a_mono Hec)].
  eapply (scope_ok_mono E); [intros *; apply (block_resolves_mono E)|].
  eapply scope_ok_intro; [intros c; apply elem_of_elements| |exact Hsc].
  eapply resolved_all_mono; [|exact Hrs]. intros *. apply (block_resolves_mono Hea).
Qed.

(** *** All the kinds *)

(** What the registration of [o] may raise. *)
Definition may_raise (s : st) o (e : exn) : Prop :=
  is_source_error e = true →
  ∃ x, objects (the_heap s) !! o = Some x ∧ needs_source o x = true.

Context (Hgetitem : ∀ p e, getitem p 1 = Raise e → quiet e).

Lemma may_raise_quiet s o e : quiet e → may_raise s o e.
Proof. unfold quiet, may_raise. congruence. Qed.

Lemma may_raise_needs s o x e :
  objects (the_heap s) !! o = Some x → needs_source o x = true → may_raise s o e.
Proof. intros. exists x. done. Qed.

Lemma instance_needs_source o x : is_instance o x = true → needs_source o x = true.
Proof. unfold needs_source, is_instance. by destruct (kind_of x). Qed.

Lemma ok_instance walk G s i o x :
  walks walk → inv G s → task G s i o → objects (the_heap s) !! o = Some x → is_instance o x = true →
  ok (may_raise s o) (pending G s ∖ {[i]}) G s
    (match class_of x with
     | Some c => registerClassInstance walk i x c
     | None => raise AssertionError
     end) done_with.
Proof.
  intros Hw Hi Ht Hx Hins. destruct (class_of x) eqn:Hc; [|by apply ok_raise].
  eapply ok_weaken; [| |by eapply ok_registerClassInstance]; [|done].
  intros e _. eapply may_raise_needs; [done|by apply instance_needs_source].
Qed.

Lemma ok_step {A B} (E : exn → Prop) P G s (m : M st A) a (f : A → M st B)
    (Q : B → history → st → Prop) :
  m s = (Ret a, s) → ok E P G s (f a) Q → ok E P G s (mbind f m) Q.
Proof. unfold ok. intros Hm. by step Hm. Qed.

Lemma object_at_some s o x : objects (the_heap s) !! o = Some x → object_at o s = (Ret x, s).
Proof. unfold object_at, mbind, M_bind, get, lift. by intros ->. Qed.

Lemma quiet_weaken {A} P G s o (m : M st A) (Q : A → history → st → Prop) :
  ok quiet P G s m Q → ok (may_raise s o) P G s m Q.
Proof. apply ok_weaken; [apply may_raise_quiet|eauto]. Qed.

Lemma any_weaken {A} P G s o x (m : M st A) (Q : A → history → st → Prop) :
  objects (the_heap s) !! o = Some x → needs_source o x = true →
  ok any P G s m Q → ok (may_raise s o) P G s m Q.
Proof. intros ? ?. apply ok_weaken; [|eauto]. intros e _. by eapply may_raise_needs. Qed.

Lemma ok_walk_object walk fuel : walks walk → ∀ G s i o,
  inv G s → task G s i o →
  ok (may_raise s o) (pending G s ∖ {[i]}) G s (walk_object walk fuel o i) done_with.
Proof.
  intros Hw. induction fuel as [|fuel IH]; intros G s i o Hi Ht; [by apply ok_raise|].
  cbn [walk_object]. destruct (objects (the_heap s) !! o) as [x|] eqn:Hx.
  2: { unfold ok, object_at, mbind, M_bind, get, lift. rewrite Hx. cbn.
       exists G. split_ands; eauto using ext_refl. done. }
  eapply ok_step; [by apply object_at_some|]. cbv beta zeta.
  assert (Hka : ∀ k, kind_of x = k → is_a s o k) by (intros; by exists x).
  assert (Hins : is_instance o x = true → ok (may_raise s o) (pending G s ∖ {[i]}) G s
    (match class_of x with
     | Some c => registerClassInstance walk i x c
     | None => raise AssertionError
     end) done_with) by by apply ok_instance.
  assert (Hneeds : ∀ m : M st unit, needs_source o x = true →
    ok any (pending G s ∖ {[i]}) G s m done_with →
    ok (may_raise s o) (pending G s ∖ {[i]}) G s m done_with) by (intros; by eapply any_weaken).
  destruct (kind_of x) eqn:Hk; specialize (Hka _ eq_refl);
    try (destruct (singleton_name o x) as [name'|] eqn:Hs;
         [by eapply ok_define, depicts_singleton|]).
  - by eapply ok_define, depicts_remote.
  - destruct result as [r|e].
    + eapply ok_step; [done|]. eapply ok_weaken; [..|apply IH; [done|]]; [|done|].
      * intros e _. eapply may_raise_needs; [done|]. unfold needs_source. by rewrite Hk.
      * destruct Ht as [? (w & ? & Hd)]. split; [done|]. exists w. split; [done|].
        intros G' s' d He Hr. apply Hd; [done|]. eapply depicts_future; [by eapply is_a_mono|done].
    + apply ok_raise; [done|]. eapply may_raise_needs; [done|]. unfold needs_source. by rewrite Hk.
  - by eapply ok_define, depicts_file.
  - destruct (class_of x ≫= _) as [name|] eqn:Hc.
    + apply quiet_weaken. by eapply ok_registerBuiltinExceptionInstance.
    + apply Hins. unfold is_instance. rewrite Hk. by apply bool_decide_eq_true_2.
  - apply Hneeds; [unfold needs_source; by rewrite Hk|by eapply ok_registerWithBlock].
  - by eapply ok_define, depicts_marker.
  - apply quiet_weaken. by eapply ok_registerTuple.
  - apply quiet_weaken. by eapply ok_registerList.
  - apply quiet_weaken. by eapply ok_registerDict.
  - eapply ok_define; [done|done|]. by apply (depicts_primitive _ _ _ p).
  - apply Hneeds; [unfold needs_source; by rewrite Hk|by eapply ok_registerFunction].
  - apply Hneeds; [unfold needs_source; by rewrite Hk|by eapply ok_registerClass].
  - apply Hins. unfold is_instance. rewrite Hk, Hs. done.
  - apply quiet_weaken. by eapply ok_registerInstanceMethod.
  - apply Hins. unfold is_instance. by rewrite Hk.
  - apply Hins. unfold is_instance. by rewrite Hk.
Qed.

(** ** The walk *)

Context `{!PureClassMappingLaws PS is_source_error}.

Lemma ok_seq_ret {A B} E P G s (m : M st A) (b : B) (Q : A → history → st → Prop)
    (R : B → history → st → Prop) :
  ok E P G s m Q → (∀ a G' s', inv G' s' → ext G s G' s' → Q a G' s' → R b G' s') →
  ok E P G s (m ;; mret b) R.
Proof.
  unfold ok, mbind, M_bind. intros Hm HR. destruct (m s) as [[a|e] s1]; [|done].
  destruct Hm as (G1 & ? & ? & ? & ?). exists G1. eauto.
Qed.

Lemma ok_catch {A} (E : exn → Prop) P G s (m : M st A) (h : exn → M st A)
    (Q : A → history → st → Prop) :
  ok E P G s m Q →
  (∀ e G' s', inv G' s' → ext G s G' s' → E e →
     (is_source_error e = true → pending G' s' = pending G s) → ok quiet P G' s' (h e) Q) →
  ok quiet P G s (catch m h) Q.
Proof.
  unfold ok, catch. intros Hm Hh. destruct (m s) as [[a|e] s1]; [done|].
  destruct Hm as (G1 & Hi1 & He1 & HE & Hp). specialize (Hh e G1 s1 Hi1 He1 HE Hp).
  destruct (h e s1) as [[b|e'] s2].
  - destruct Hh as (G2 & ? & ? & ? & ?). exists G2. eauto using ext_trans.
  - destruct Hh as (G2 & ? & ? & Hq & _). exists G2. split_ands; eauto using ext_trans.
    unfold quiet in Hq. congruence.
Qed.

Lemma ok_allocateId {A} G s o (f : Z → M st A) (Q : A → history → st → Prop) :
  inv G s →
  (∀ i G' s', inv G' s' → ext G s G' s' → task G' s' i o → pending G' s' ∖ {[i]} = pending G s →
     G' !! i = Some o → convertedObjectCache s' = convertedObjectCache s →
     ok quiet (pending G s) G' s' (f i) Q) →
  ok quiet (pending G s) G s (mbind f (allocateId o)) Q.
Proof.
  intros Hi Hf. set (i := nextObjectID (objectRegistry s)).
  set (s1 := Walker (convertedObjectCache s) (<[o := i]> (pyObjectIdToObjectId s))
    (Registry (i + 1) (defs s)) (fileTextCache s) (sourceFileCache s) (the_heap s) (the_mapping s)).
  set (G1 := <[i := o]> G).
  assert (HiG : i ∉ dom G) by (intros Hd; apply (inv_allocated _ _ Hi) in Hd; unfold i in Hd; lia).
  assert (Hid : i ∉ dom (defs s)) by (intros Hd; apply (inv_defined _ _ Hi) in Hd; unfold i in Hd; lia).
  assert (E1 : ext G s G1 s1).
  { split; try done.
    - apply insert_subseteq. by apply not_elem_of_dom.
    - cbn. lia.
    - intros j. unfold G1. rewrite dom_insert_L, elem_of_union, elem_of_singleton.
      intros [->|?]; [right; unfold i; lia|by left]. }
  assert (Hi1 : inv G1 s1).
  { pose proof Hi as []. split; try done.
    - intros j. unfold G1. cbn. rewrite dom_insert_L, elem_of_union, elem_of_singleton.
      intros [->|Hj]; [unfold i; lia|]. specialize (inv_allocated0 j Hj). lia.
    - intros j Hj. cbn in *. specialize (inv_defined0 j Hj). lia.
    - intros o' j Hj. cbn in Hj. unfold G1. destruct (decide (o' = o)) as [->|].
      + rewrite lookup_insert_eq in Hj. simplify_eq. apply lookup_insert_eq.
      + rewrite lookup_insert_ne in Hj by done. rewrite lookup_insert_ne; [by apply inv_ids0|].
        intros <-. apply inv_ids0 in Hj. apply HiG. by eapply elem_of_dom_2.
    - intros j o' d Hj Hd. cbn in Hd. apply (depicts_mono E1).
      destruct (decide (j = i)) as [->|]; [by apply elem_of_dom_2 in Hd|].
      unfold G1 in Hj. rewrite lookup_insert_ne in Hj by done. eauto. }
  assert (Ht : task G1 s1 i o).
  { split; [unfold pending, G1; cbn; rewrite dom_insert_L; set_solver|].
    exists o. unfold G1. rewrite lookup_insert_eq. done. }
  assert (Hp : pending G1 s1 ∖ {[i]} = pending G s).
  { unfold pending, G1. cbn. rewrite dom_insert_L. set_solver. }
  assert (Ha : allocateId o s = (Ret i, s1)) by done.
  specialize (Hf i G1 s1 Hi1 E1 Ht Hp ltac:(apply lookup_insert_eq) eq_refl).
  unfold ok. rewrite (bind_step _ _ _ _ _ Ha). unfold ok in Hf.
  destruct (f i s1) as [[b|e] s2]; destruct Hf as (G2 & ? & ? & Hq & Hlast); exists G2;
    split_ands; eauto using ext_trans. unfold quiet in Hq. congruence.
Qed.

Lemma calm_on_mapping {A} s (m : M (PS * heap) A) :
  wf s → only_adds_without is_source_error m → calm quiet s (on_mapping m) (λ _ s', convertedObjectCache s' = convertedObjectCache s).
Proof.
  intros [Hh Hf] [Hadds Herr]. unfold calm, on_mapping.
  specialize (Hadds (the_mapping s) (the_heap s) Hh). specialize (Herr (the_mapping s, the_heap s)).
  destruct (m (the_mapping s, the_heap s)) as [r [ps h]]. cbn in *. destruct Hadds as [He Hh'].
  split; [split; [done|]|split; [by split|destruct r; [done|by apply Herr]]].
  cbn. intros name o Ho. destruct (Hf _ _ Ho) as (text & y & Hy & Hk).
  exists text, y. split; [|done]. eapply lookup_weaken; [exact Hy|exact He].
Qed.

Lemma calm_converted s o :
  wf s → calm quiet s (converted o)
    (λ o' s', o' = o ∨ convertedObjectCache s' !! o = Some o').
Proof.
  intros Hw. eapply calm_bind; [by apply (calm_get _ _ (λ s' s1, s' = s1))|].
  intros s' s1 Hw1 _ ->. destruct (convertedObjectCache s1 !! o) as [p|] eqn:Hc.
  { apply calm_ret; [done|by right]. }
  eapply calm_bind; [apply calm_on_mapping; [done|apply canMap_only_adds]|].
  intros mappable s2 Hw2 _ H2. cbn beta in H2. destruct mappable; [|apply calm_ret; [done|by left]].
  eapply calm_bind; [apply calm_on_mapping; [done|apply mappableInstanceToPure_only_adds]|].
  intros p s3 Hw3 _ H3. cbn beta in H3.
  eapply (calm_bind _ _ _ _ (λ _ s', convertedObjectCache s' !! o = Some p)).
  - split; [exact Hw3|]. split; [|apply lookup_insert_eq]. split; try done.
    apply insert_subseteq. congruence.
  - intros [] s4 Hw4 _ H4. apply calm_ret; [done|by right].
Qed.

Lemma ok_walkPyObject fuel : walks (walkPyObject fuel).
Proof.
  induction fuel as [|fuel IH]; intros G s o Hi; [by apply ok_raise|].
  cbn [walkPyObject].
  eapply ok_calm; [done|apply (calm_get _ _ (λ s' s1, s' = s1)); [by eapply inv_wf|done]|].
  intros s' s1 Hi1 He1 <- ->. destruct (pyObjectIdToObjectId s1 !! o) as [i|] eqn:Ho.
  { apply ok_ret; [done|]. left. by eapply inv_ids. }
  eapply ok_calm; [done|apply calm_converted; by eapply inv_wf|].
  intros o' s2 Hi2 He2 <- Ho'. apply ok_allocateId; [done|].
  intros i G3 s3 Hi3 He3 Ht Hp HG Hc.
  assert (Hden : ∀ G' s', ext G3 s3 G' s' → denotes G' s' o i).
  { intros G' s' He. apply (denotes_mono He). destruct Ho' as [->|Ho']; [by left|].
    right. exists o'. by rewrite Hc. }
  rewrite <- Hp. case_bool_decide as Hcon.
  - eapply ok_seq_ret; [by eapply ok_define, depicts_connect|]. eauto.
  - eapply ok_seq_ret; [|by eauto].
    eapply ok_catch; [by apply ok_walk_object|].
    intros e G4 s4 Hi4 He4 Hmay Hpend. destruct (is_source_error e) eqn:Hse; [|by apply ok_raise].
    destruct (Hmay Hse) as (x & Hx & Hneeds). specialize (Hpend eq_refl). rewrite <- Hpend.
    eapply ok_define; [done|exact (task_mono _ _ _ _ _ _ He4 Hpend Ht)|].
    eapply depicts_no_source; [by eapply heap_mono|done].
Qed.
End handlers.

(** ** What a conversion yields *)

Section theorems.
Context {PS : Type} `{!PureClassMapping PS} `{!Interpreter}.
Context `{!PureClassMappingLaws PS is_source_error}.
Context (Hgetitem : ∀ p e, getitem p 1 = Raise e → is_source_error e = false).
Abbreviation defs s := (objectIdToObjectDefinition (objectRegistry s)).

(** A walker as the executor makes it: no ids yet, a registry whose ids were all
    allocated, and a cache of file descriptions. *)
Record fresh_walker (s : walker PS) : Prop := {
  fresh_ids : pyObjectIdToObjectId s = ∅;
  fresh_registry i : i ∈ dom (defs s) → (i < nextObjectID (objectRegistry s))%Z;
  fresh_wf : wf s }.

Lemma fresh_inv s : fresh_walker s → inv ∅ s.
Proof.
  intros [Hids Hreg [Hh Hf]]. split; rewrite ?Hids; try done.
Qed.

(** The ids that a definition holds. *)
Definition refers_to (d : definition) : list Z :=
  match d with
  | Tuple ids | List ids => ids
  | Dict ks vs => ks ++ vs
  | BuiltinExceptionInstance _ i | InstanceMethod i _ => [i]
  | FunctionDefinition f _ sc | WithBlockDescription sc f _ => f :: sc.*2
  | ClassDefinition f _ sc bs => f :: sc.*2 ++ bs
  | ClassInstanceDescription c ms => c :: ms.*2
  | _ => []
  end.

Lemma denotes_dom (G : history) (s : walker PS) o i : denotes G s o i → i ∈ dom G.
Proof. intros [Hi|(p & _ & Hi)]; by eapply elem_of_dom_2. Qed.

Lemma denotes_all_dom (G : history) (s : walker PS) l ids :
  Forall2 (denotes G s) l ids → Forall (λ i, i ∈ dom G) ids.
Proof. induction 1; eauto using denotes_dom. Qed.

Lemma scope_dom (G : history) (s : walker PS) chains R sc :
  scope_ok G s chains R sc → Forall (λ i, i ∈ dom G) sc.*2.
Proof.
  intros [Hin _]. apply Forall_fmap, Forall_forall. intros [name i] Hi.
  destruct (Hin name i Hi) as (? & ? & ? & ? & ? & ? & ?). by eapply denotes_dom.
Qed.

Lemma described_dom at_line (G : history) (s : walker PS) o x f line sc :
  described_by at_line G s o x f line sc → Forall (λ i, i ∈ dom G) (f :: sc.*2).
Proof.
  intros (? & ? & ? & ? & ? & ? & ? & ? & ? & ? & ? & ? & ? & Hs & ? & Hf).
  constructor; [by eapply denotes_dom|by eapply scope_dom].
Qed.

Lemma depicts_refers (G : history) (s : walker PS) o d :
  depicts G s o d → Forall (λ i, i ∈ dom G) (refers_to d).
Proof.
  induction 1 as [| | | | | | | | | | | | | |? ? ? ? ? ? ? ? ? ? ? Hms|
    |? ? ? ? ? ? ? ? ? Hdb|? ? ? ? ? ? ? ? ? ? Hdb Hbs];
    cbn; eauto using denotes_dom, denotes_all_dom, described_dom.
  - apply Forall_app. eauto using denotes_all_dom.
  - constructor; [by eapply denotes_dom|]. apply Forall_fmap.
    eapply Forall2_Forall_r; [exact Hms|]. apply Forall_true. intros n m [_ (v & _ & Hd)].
    by eapply denotes_dom.
  - constructor; [by eapply denotes_dom|by eapply scope_dom].
  - apply described_dom, Forall_cons in Hdb as [? ?]. constructor; [done|]. apply Forall_app.
    split; [done|]. eapply Forall2_Forall_r; [exact Hbs|]. apply Forall_true.
    intros b i Hb. by eapply elem_of_dom_2.
Qed.

Lemma walkPyObject_image fuel o s i s' :
  fresh_walker s → walkPyObject fuel o s = (Ret i, s') →
  ∃ G : history, denotes G s' o i ∧ defs s ⊆ defs s' ∧
    ∀ j w, G !! j = Some w →
      (nextObjectID (objectRegistry s) ≤ j < nextObjectID (objectRegistry s'))%Z ∧
      ∃ d, defs s' !! j = Some d ∧ depicts G s' w d.
Proof.
  intros Hf Hw. apply fresh_inv in Hf as Hi.
  pose proof (ok_walkPyObject Hgetitem fuel ∅ s o Hi) as Hok. unfold ok in Hok. rewrite Hw in Hok.
  destruct Hok as (G & Hi' & He & Hp & Hd). exists G. split_ands; [done|apply He|].
  intros j w Hj. assert (HjG : j ∈ dom G) by by eapply elem_of_dom_2. split.
  - split; [|by apply Hi']. destruct (ext_new _ _ _ _ He j HjG); [set_solver|done].
  - assert (Hdef : j ∈ dom (defs s')).
    { destruct (decide (j ∈ dom (defs s'))) as [|Hn]; [done|].
      assert (j ∈ pending G s') by (unfold pending; set_solver). rewrite Hp in *.
      unfold pending in *. set_solver. }
    apply elem_of_dom in Hdef as [d Hdj]. exists d. split; [done|]. by eapply inv_depicts.
Qed.

Lemma history_dependencies (G : history) (s : walker PS) :
  (∀ j w, G !! j = Some w → ∃ d, defs s !! j = Some d ∧ depicts G s w d) →
  ∀ fuel j l, j ∈ dom G → computeDependentIds (objectRegistry s) fuel j = Ret l →
  Forall (λ i, i ∈ dom G) l.
Proof.
  intros HG. induction fuel as [|fuel IH]; intros j l Hj Hl; [done|].
  apply elem_of_dom in Hj as [w Hw]. destruct (HG j w Hw) as (d & Hd & Hdep).
  apply depicts_refers in Hdep. cbn in Hl. unfold getDefinition, of_option in Hl. rewrite Hd in Hl.
  cbn [mbind res_bind] in Hl. destruct d; cbn in Hdep; simplify_eq; try done.
  - apply Forall_cons in Hdep as [? ?]. apply Forall_app. split; [done|]. by constructor.
  - apply Forall_cons in Hdep as [? [? ?]%Forall_app]. apply Forall_app. split; [done|]. by constructor.
  - apply Forall_cons in Hdep as [Hc ?].
    destruct (computeDependentIds (objectRegistry s) fuel classId) as [tr|] eqn:Htr; cbn in Hl; [|done].
    simplify_eq. constructor; [done|]. apply Forall_app. split; [by eapply IH|done].
  - apply Forall_cons in Hdep as [? ?]. apply Forall_app. split; [done|]. by constructor.
Qed.

(** C1. A conversion that returns has registered an image of the object graph:
    there is a history [G] of the ids the walk handed out, the id returned stands
    for the object, and every id of the history is defined by a definition that
    depicts its object - the members of tuples, lists, dicts and instances by ids
    that stand for them, functions and classes by their line and file and by a
    scope that holds exactly the resolutions of their free member access chains,
    modules followed - although the walk memoises, replaces objects by pure ones,
    and treats objects without source as unconvertible. Ids handed out before are
    not touched. *)
Theorem walkPyObject_depicts fuel o s i s' :
  fresh_walker s → walkPyObject fuel o s = (Ret i, s') →
  ∃ G : history, denotes G s' o i ∧ defs s ⊆ defs s' ∧
    ∀ j w, G !! j = Some w →
      (nextObjectID (objectRegistry s) ≤ j < nextObjectID (objectRegistry s'))%Z ∧
      ∃ d, defs s' !! j = Some d ∧ depicts G s' w d.
Proof. apply walkPyObject_image. Qed.

(** C2. What the server is sent is complete: after a conversion that returns, every id
    that can be reached from its result, through any definitions, has a definition.
    So the dependency graph holds an entry for each of them, and looking one up in
    the registry never raises [KeyError]. *)
Theorem conversion_is_closed fuel o s i s' j :
  fresh_walker s → walkPyObject fuel o s = (Ret i, s') →
  reaches (dependentIds (objectRegistry s')) i j →
  is_ret (getDefinition j (objectRegistry s')) = true.
Proof.
  intros Hf Hw Hr. destruct (walkPyObject_image fuel o s i s' Hf Hw) as (G & Hd & _ & HG).
  assert (HG' : ∀ j w, G !! j = Some w → ∃ d, defs s' !! j = Some d ∧ depicts G s' w d)
    by (intros; by eapply HG).
  assert (Hj : j ∈ dom G).
  { induction Hr as [|j' l j Hr IH Hl Hin]; [by eapply denotes_dom|].
    pose proof (history_dependencies G s' HG' _ _ _ IH Hl) as Hall.
    rewrite Forall_forall in Hall. by apply Hall. }
  apply elem_of_dom in Hj as [w Hj]. destruct (HG' j w Hj) as (d & Hdj & _).
  unfold getDefinition, of_option. by rewrite Hdj.
Qed.
End theorems.
