(* ===== verification/PyObjectWalkerEnds.v ===== *)
(** * Conversions end

    The recursion of [walkPyObject] is bounded by the number of objects, cycles
    included, when no object is replaced by a pure one; and a mapping under which it
    never ends. *)
From Stdlib Require Import Lia.
From stdpp Require Import base gmap sets list strings fin_maps fin_map_dom.
From S2P Require Import Prelude PyAst FreeVariableAnalyses AstUtil TypeDescription ObjectRegistry PyHeap PyObjectWalker.

(** ** Computations that agree *)

Create HintDb agree_db.

Section agree.
Context {S : Type} (I : S → Prop).

(** The same outcome from every state of [I]. *)
Definition agree {A} (m1 m2 : M S A) : Prop := ∀ s, I s → m1 s = m2 s.

Lemma agree_refl {A} (m : M S A) : agree m m.
Proof. by intros s Hs. Qed.

Lemma agree_bind {A B} (m1 m2 : M S A) (f1 f2 : A → M S B) :
  keeps I m1 → agree m1 m2 → (∀ a, agree (f1 a) (f2 a)) → agree (mbind f1 m1) (mbind f2 m2).
Proof.
  intros Hk Hm Hf s Hs. unfold mbind, M_bind. rewrite <- (Hm s Hs). specialize (Hk s Hs).
  destruct (m1 s) as [[a|e] s1]; [by apply Hf|done].
Qed.

Lemma agree_catch {A} (m1 m2 : M S A) (h1 h2 : exn → M S A) :
  keeps I m1 → agree m1 m2 → (∀ e, agree (h1 e) (h2 e)) → agree (catch m1 h1) (catch m2 h2).
Proof.
  intros Hk Hm Hh s Hs. unfold catch. rewrite <- (Hm s Hs). specialize (Hk s Hs).
  destruct (m1 s) as [[a|e] s1]; [done|by apply Hh].
Qed.

Lemma agree_mapM {A B} (f1 f2 : A → M S B) l :
  (∀ x, keeps I (f1 x)) → (∀ x, agree (f1 x) (f2 x)) → agree (mapM f1 l) (mapM f2 l).
Proof.
  intros Hk Hf. induction l as [|x l IH]; [apply agree_refl|]. intros s Hs. rewrite !mapM_cons.
  revert s Hs. apply agree_bind; [done|done|]. intros y.
  apply agree_bind; [|done|intros; apply agree_refl]. apply keeps_mapM. auto.
Qed.
End agree.

(** ** Without mappings *)

Section ends.
Context {PS : Type} `{!PureClassMapping PS} `{!Interpreter}.
Abbreviation st := (walker PS).
Context (Hnone : ∀ o s, canMap (PS := PS) o s = (Ret false, s)).
Context (h : heap).

(** The walker adds only file descriptions and unconvertible objects to [h]. *)
Definition is_leaf (x : pyobj) : bool :=
  match kind_of x with KFileDescription _ _ | KUnconvertible => true | _ => false end.

(** At least the objects of [D] have their ids. *)
Record started (D : gset oid) (s : st) : Prop := {
  started_cache : convertedObjectCache s = ∅;
  started_heap : heap_extends h (the_heap s);
  started_new o x : objects (the_heap s) !! o = Some x → o ∈ dom (objects h) ∨ is_leaf x = true;
  started_ok : heap_ok (the_heap s);
  started_ids : D ⊆ dom (pyObjectIdToObjectId s) }.

Section keeps_started.
Context (D : gset oid).
Abbreviation I := (started D).

Lemma keeps_on_registry {A} (m : M registry A) : keeps I (on_registry m).
Proof.
  intros s [? ? ? ? ?]. unfold on_registry. destruct (m (objectRegistry s)). by split.
Qed.

Lemma keeps_new_leaf x : is_leaf x = true → keeps I (on_heap (new_object x)).
Proof.
  intros Hx s [? ? Hn Hok ?]. destruct (new_object_extends x (the_heap s) Hok) as (He & Hok' & Hl).
  split; cbn in *; try done; [by etrans|]. intros o y Hy.
  destruct (decide (o = nextOid (the_heap s))) as [->|].
  - rewrite lookup_insert_eq in Hy. simplify_eq. by right.
  - rewrite lookup_insert_ne in Hy by done. eauto.
Qed.

Lemma keeps_set_file name o : keeps I (set_file name o).
Proof. intros s []. by split. Qed.

Lemma keeps_set_source name text : keeps I (set_source name text).
Proof. intros s []. by split. Qed.

Lemma keeps_set_id o i : keeps I (set_id o i).
Proof. intros s []. split; try done. cbn. rewrite dom_insert_L. set_solver. Qed.

Lemma keeps_object_at o : keeps I (object_at o).
Proof. unfold object_at. auto with keeps_db. Qed.

Lemma converted_none s o : I s → converted o s = (Ret o, s).
Proof.
  intros [Hc ? ? ? ?]. unfold converted, mbind, M_bind, get. rewrite Hc, lookup_empty.
  unfold on_mapping. rewrite Hnone. by destruct s.
Qed.

Lemma keeps_converted o : keeps I (converted o).
Proof. intros s Hs. by rewrite converted_none. Qed.

Hint Resolve keeps_on_registry keeps_new_leaf keeps_set_file keeps_set_source keeps_set_id
  keeps_object_at keeps_converted keeps_mapM : keeps_db.

(** Case analysis on what a computation depends on. *)
Ltac keeps_tac := repeat first
  [ progress intros
  | solve [auto with keeps_db]
  | apply keeps_bind
  | apply keeps_catch
  | apply keeps_when
  | apply keeps_mapM
  | match goal with
    | |- keeps _ (match ?x with _ => _ end) => destruct x
    | |- keeps _ (if ?x then _ else _) => destruct x
    end ].

Lemma keeps_along rest : ∀ v sub, keeps I (along_modules v sub rest).
Proof. induction rest; intros; cbn [along_modules]; keeps_tac. Qed.
Hint Resolve keeps_along : keeps_db.

Lemma keeps_computeSubchain r c : keeps I (computeSubchainAndTerminalValueAlongModules r c).
Proof. unfold computeSubchainAndTerminalValueAlongModules. keeps_tac. Qed.
Hint Resolve keeps_computeSubchain : keeps_db.

Lemma keeps_unresolved {A} c o : keeps I (unresolved c o : M st A).
Proof. apply keeps_raise. Qed.
Hint Resolve keeps_unresolved : keeps_db.

Lemma keeps_lookupChainInFunction f c : keeps I (lookupChainInFunction f c).
Proof. unfold lookupChainInFunction. keeps_tac. Qed.

Lemma keeps_lookup_in_members fs c m : keeps I m → keeps I (lookup_in_members fs c m).
Proof.
  intros Hm. induction fs; cbn [lookup_in_members]; [done|].
  apply keeps_catch; [apply keeps_lookupChainInFunction|]. keeps_tac.
Qed.

Lemma keeps_resolveChainInPyObject c x n : keeps I (resolveChainInPyObject c x n).
Proof.
  unfold resolveChainInPyObject, lookupChainInClass.
  apply keeps_bind; [|keeps_tac]. destruct (kind_of x); try apply keeps_raise.
  - apply keeps_lookupChainInFunction.
  - apply keeps_lookup_in_members. keeps_tac.
Qed.

Lemma keeps_resolveInDict b c : keeps I (resolveInDict b c).
Proof. unfold resolveInDict, resolveChainByDict. keeps_tac. Qed.

Lemma keeps_resolve_all f cs : (∀ c, keeps I (f c)) → ∀ rs, keeps I (resolve_all f cs rs).
Proof. intros Hf. induction cs; intros; cbn [resolve_all]; keeps_tac. Qed.

Lemma keeps_cachedFromArgs name text : keeps I (cachedFromArgs name text).
Proof. unfold cachedFromArgs. keeps_tac. Qed.

Lemma keeps_getSource o : keeps I (getSourceFilenameAndText o).
Proof. unfold getSourceFilenameAndText. keeps_tac. Qed.

Lemma keeps_convert {A} path (m : M st A) :
  keeps I m → keeps I (convertUnresolvedFreeVariableExceptionAndRaise path m).
Proof. unfold convertUnresolvedFreeVariableExceptionAndRaise. keeps_tac. Qed.

Lemma keeps_computeAndResolve x n :
  keeps I (computeAndResolveFreeVariableMemberAccessChainsInAst x n).
Proof.
  apply keeps_bind; [apply keeps_lift|]. intros.
  apply keeps_resolve_all. intros. apply keeps_resolveChainInPyObject.
Qed.
Hint Resolve keeps_cachedFromArgs keeps_getSource keeps_convert keeps_computeAndResolve
  keeps_resolveInDict keeps_resolve_all : keeps_db.

(** *** The handlers, for two recursive calls that agree *)

Section handlers.
Context (w1 w2 : oid → M st Z).
Context (Hk : ∀ o, keeps I (w1 o)) (Ha : ∀ o, agree I (w1 o) (w2 o)).
Hint Resolve Hk : keeps_db.

Ltac agree_tac := repeat first
  [ progress intros
  | apply agree_refl
  | apply Ha
  | apply agree_bind; [solve [keeps_tac]|..]
  | apply agree_catch; [solve [keeps_tac]|..]
  | apply agree_mapM; [solve [keeps_tac]|..]
  | match goal with
    | |- agree _ (match ?x with _ => _ end) _ => destruct x
    | |- agree _ (if ?x then _ else _) _ => destruct x
    end ].

Lemma keeps_walk_resolutions path rs : keeps I (walk_resolutions w1 path rs).
Proof. unfold walk_resolutions. keeps_tac. Qed.
Hint Resolve keeps_walk_resolutions : keeps_db.

Lemma agree_walk_resolutions path rs :
  agree I (walk_resolutions w1 path rs) (walk_resolutions w2 path rs).
Proof. unfold walk_resolutions. agree_tac. Qed.

Lemma keeps_classOrFunctionDefinition o x name at_line :
  keeps I (classOrFunctionDefinition w1 o x name at_line).
Proof. unfold classOrFunctionDefinition. keeps_tac. Qed.
Hint Resolve keeps_classOrFunctionDefinition : keeps_db.

Lemma agree_classOrFunctionDefinition o x name at_line :
  agree I (classOrFunctionDefinition w1 o x name at_line)
    (classOrFunctionDefinition w2 o x name at_line).
Proof.
  unfold classOrFunctionDefinition. repeat (apply agree_bind; [solve [keeps_tac]|apply agree_refl|intros]).
  destruct a0. repeat (apply agree_bind; [solve [keeps_tac]|apply agree_refl|intros]).
  apply agree_bind; [keeps_tac|apply agree_walk_resolutions|]. agree_tac.
Qed.
Hint Resolve agree_walk_resolutions agree_classOrFunctionDefinition : keeps_db.

Ltac handler := agree_tac; auto with keeps_db.

Lemma agree_registerWithBlock i b : agree I (registerWithBlock w1 i b) (registerWithBlock w2 i b).
Proof.
  unfold registerWithBlock, bad_with_block, resolveFreeVariableMemberAccessChains.
  repeat (apply agree_bind; [solve [keeps_tac]|apply agree_refl|intros]).
  apply agree_bind; [keeps_tac|apply agree_walk_resolutions|]. agree_tac.
Qed.

Lemma agree_registerFunction i o x f :
  agree I (registerFunction w1 i o x f) (registerFunction w2 i o x f).
Proof.
  apply agree_bind; [keeps_tac|apply agree_classOrFunctionDefinition|intros; apply agree_refl].
Qed.

Lemma agree_registerClass i o x c : agree I (registerClass w1 i o x c) (registerClass w2 i o x c).
Proof.
  apply agree_bind; [keeps_tac|apply agree_classOrFunctionDefinition|intros; apply agree_refl].
Qed.

Lemma agree_registerClassInstance i x c :
  agree I (registerClassInstance w1 i x c) (registerClassInstance w2 i x c).
Proof. unfold registerClassInstance. agree_tac. Qed.

Lemma agree_registerTuple i l : agree I (registerTuple w1 i l) (registerTuple w2 i l).
Proof. unfold registerTuple. agree_tac. Qed.

Lemma agree_registerList i l : agree I (registerList w1 i l) (registerList w2 i l).
Proof. unfold registerList. agree_tac. Qed.

Lemma agree_registerDict i l : agree I (registerDict w1 i l) (registerDict w2 i l).
Proof. unfold registerDict. agree_tac. Qed.

Lemma agree_registerInstanceMethod i o n :
  agree I (registerInstanceMethod w1 i o n) (registerInstanceMethod w2 i o n).
Proof. unfold registerInstanceMethod. agree_tac. Qed.

Lemma agree_registerException i o n :
  agree I (registerBuiltinExceptionInstance w1 i o n) (registerBuiltinExceptionInstance w2 i o n).
Proof. unfold registerBuiltinExceptionInstance. agree_tac. Qed.

Hint Resolve agree_registerWithBlock agree_registerFunction agree_registerClass
  agree_registerClassInstance agree_registerTuple agree_registerList agree_registerDict
  agree_registerInstanceMethod agree_registerException agree_refl : agree_db.

Lemma keeps_instance i x :
  keeps I (match class_of x with Some c => registerClassInstance w1 i x c | None => raise AssertionError end).
Proof. unfold registerClassInstance. keeps_tac. Qed.
Hint Resolve keeps_instance : keeps_db.

Lemma keeps_registerWithBlock i b : keeps I (registerWithBlock w1 i b).
Proof.
  unfold registerWithBlock, bad_with_block, resolveFreeVariableMemberAccessChains. keeps_tac.
Qed.
Hint Resolve keeps_registerWithBlock : keeps_db.

Lemma keeps_walk_object fuel : ∀ o i, keeps I (walk_object w1 fuel o i).
Proof.
  induction fuel as [|fuel IH]; intros o i; cbn [walk_object]; [apply keeps_raise|].
  apply keeps_bind; [auto with keeps_db|]. intros x. cbv zeta.
  destruct (kind_of x); auto with keeps_db;
    unfold registerRemotePythonObject, registerFileDescription, registerNamedSingleton,
      registerUnconvertible, registerTuple, registerList, registerDict, registerPrimitive,
      registerFunction, registerClass, registerInstanceMethod, registerBuiltinExceptionInstance;
    keeps_tac.
Qed.

(** One step: the futures apart, one unit of fuel is as good as another. *)
Lemma walk_object_agree f1 f2 o i s :
  I s →
  (∀ x r, objects (the_heap s) !! o = Some x → kind_of x = KFuture (Ret r) →
     walk_object w1 f1 r i s = walk_object w2 f2 r i s) →
  walk_object w1 (S f1) o i s = walk_object w2 (S f2) o i s.
Proof.
  intros Hs Hfut. cbn [walk_object].
  destruct (objects (the_heap s) !! o) as [x|] eqn:Hx.
  2: { unfold object_at, mbind, M_bind, get, lift. by rewrite Hx. }
  assert (Ho : object_at o s = (Ret x, s)).
  { unfold object_at, mbind, M_bind, get, lift. by rewrite Hx. }
  rewrite !(bind_step _ _ _ _ _ Ho). cbv zeta.
  destruct (kind_of x) eqn:Hkind;
    lazymatch type of Hkind with
    | _ = KFuture _ => idtac
    | _ => match goal with |- ?m1 s = ?m2 s => cut (agree I m1 m2); [by eauto|] end;
           repeat case_match; auto with agree_db
    end.
  destruct result as [r|e]; [|done]. by apply (Hfut x r).
Qed.
End handlers.

(** The results of the futures are not futures. *)
Context (Hfutures : ∀ o x r y q, objects h !! o = Some x → kind_of x = KFuture (Ret r) →
  objects h !! r = Some y → kind_of y ≠ KFuture q).

Lemma started_object s o x :
  I s → objects (the_heap s) !! o = Some x → objects h !! o = Some x ∨ is_leaf x = true.
Proof.
  intros [? He Hn ? ?] Hx. destruct (Hn o x Hx) as [[y Hy]%elem_of_dom|?]; [left|by right].
  assert (objects (the_heap s) !! o = Some y) by (by eapply lookup_weaken). congruence.
Qed.

Lemma walk_object_fuel w1 w2 f1 f2 o i s :
  (∀ o, keeps I (w1 o)) → (∀ o, agree I (w1 o) (w2 o)) → I s →
  walk_object w1 (S (S f1)) o i s = walk_object w2 (S (S f2)) o i s.
Proof.
  intros Hk Ha Hs. apply walk_object_agree; [done|done|done|]. intros x r Hx Hkx.
  apply walk_object_agree; [done|done|done|]. intros y q Hy Hky. exfalso.
  destruct (started_object s o x Hs Hx) as [Hx'|Hl]; [|unfold is_leaf in Hl; by rewrite Hkx in Hl].
  destruct (started_object s r y Hs Hy) as [Hy'|Hl]; [|unfold is_leaf in Hl; by rewrite Hky in Hl].
  exact (Hfutures _ _ _ _ _ Hx' Hkx Hy' Hky).
Qed.

Lemma keeps_walkPyObject n : ∀ o, keeps I (walkPyObject n o).
Proof.
  induction n as [|n IH]; intros o; cbn [walkPyObject]; [apply keeps_raise|].
  apply keeps_bind; [apply keeps_get|]. intros s.
  destruct (pyObjectIdToObjectId s !! o); [apply keeps_ret|].
  apply keeps_bind; [auto with keeps_db|]. intros o'.
  apply keeps_bind; [unfold allocateId; keeps_tac|]. intros i.
  unfold registerUnconvertible. case_bool_decide; [keeps_tac|].
  apply keeps_bind; [|auto with keeps_db].
  apply keeps_catch; [by apply keeps_walk_object|]. keeps_tac.
Qed.
End keeps_started.

(** An object outside [h] is a leaf: it is registered without further calls. *)
Lemma walk_object_leaf w1 w2 f1 f2 o i (s : st) :
  (∀ x, objects (the_heap s) !! o = Some x → is_leaf x = true) →
  walk_object w1 (S f1) o i s = walk_object w2 (S f2) o i s.
Proof.
  intros Hl. cbn [walk_object]. unfold object_at, mbind, M_bind, get, lift.
  destruct (objects (the_heap s) !! o) as [x|] eqn:Hx; cbn; [|done].
  specialize (Hl x eq_refl). unfold is_leaf in Hl. unfold singleton_name.
  by destruct (kind_of x).
Qed.

Lemma started_weaken D o (s : st) :
  started D s → started ({[o]} ∪ D) (snd (allocateId o s)).
Proof.
  intros [? ? ? ? ?]. split; try done.
  change (pyObjectIdToObjectId _) with
    (<[o := nextObjectID (objectRegistry s)]> (pyObjectIdToObjectId s)).
  rewrite dom_insert_L. set_solver.
Qed.

Context (Hfutures : ∀ o x r y q, objects h !! o = Some x → kind_of x = KFuture (Ret r) →
  objects h !! r = Some y → kind_of y ≠ KFuture q).

Lemma catch_agree {A} (m1 m2 : M st A) hd s : m1 s = m2 s → catch m1 hd s = catch m2 hd s.
Proof. unfold catch. by intros ->. Qed.

Lemma bind_agree {A B} (m1 m2 : M st A) (f : A → M st B) s :
  m1 s = m2 s → mbind f m1 s = mbind f m2 s.
Proof. unfold mbind, M_bind. by intros ->. Qed.

Lemma walkPyObject_agree k : ∀ D n1 n2 o,
  size (dom (objects h) ∖ D) ≤ k → k + 2 ≤ n1 → k + 2 ≤ n2 →
  agree (started D) (walkPyObject n1 o) (walkPyObject n2 o).
Proof.
  induction (lt_wf k) as [k _ IH]. intros D n1 n2 o Hk Hn1 Hn2 s Hs.
  destruct n1 as [|n1], n2 as [|n2]; try lia. cbn [walkPyObject].
  assert (Hget : get s = (Ret s, s)) by done. rewrite !(bind_step _ _ _ _ _ Hget).
  destruct (pyObjectIdToObjectId s !! o) eqn:Ho; [done|].
  rewrite !(bind_step _ _ _ _ _ (converted_none D s o Hs)).
  set (s2 := snd (allocateId o s)).
  assert (Hal : allocateId o s = (Ret (nextObjectID (objectRegistry s)), s2)) by done.
  rewrite !(bind_step _ _ _ _ _ Hal). set (i := nextObjectID (objectRegistry s)).
  case_bool_decide; [done|]. apply bind_agree, catch_agree.
  pose proof (started_weaken D o s Hs) as Hs2. fold s2 in Hs2.
  destruct (decide (o ∈ dom (objects h))) as [Hin|Hout].
  - assert (HoD : o ∉ D).
    { intros HD. apply (started_ids _ _ Hs) in HD. by apply not_elem_of_dom in Ho. }
    assert (Hlt : size (dom (objects h) ∖ ({[o]} ∪ D)) < size (dom (objects h) ∖ D)).
    { apply subset_size. set_solver. }
    assert (∃ f1 f2, n1 = S (S f1) ∧ n2 = S (S f2)) as (f1 & f2 & -> & ->).
    { exists (n1 - 2), (n2 - 2). lia. }
    apply (walk_object_fuel ({[o]} ∪ D)); [done|intros; by apply keeps_walkPyObject| |done].
    intros o'. apply (IH (size (dom (objects h) ∖ ({[o]} ∪ D)))); lia.
  - assert (∃ f1 f2, n1 = S f1 ∧ n2 = S f2) as (f1 & f2 & -> & ->).
    { exists (n1 - 1), (n2 - 1). lia. }
    apply walk_object_leaf. intros x Hx.
    destruct (started_new _ _ Hs2 o x Hx); [done|done].
Qed.
End ends.

(** The results of futures are not futures. *)
Definition futures_ready (h : heap) : Prop := ∀ o x r y q,
  objects h !! o = Some x → kind_of x = KFuture (Ret r) → objects h !! r = Some y →
  kind_of y ≠ KFuture q.

(** A recursion this deep visits every object, and one leaf. *)
Definition walk_bound {PS} (s : walker PS) : nat := size (dom (objects (the_heap s))) + 2.

(** C11. Every walk ends, through cycles, functions and classes: when no object is mapped
    to a pure one and no future gives another future, a recursion one deeper than
    the number of objects, and one more for leaves, is as good as any deeper one, so
    the walk's outcome does not depend on the fuel. *)
Theorem walk_ends {PS} `{!PureClassMapping PS} `{!Interpreter} (s : walker PS) fuel o :
  (∀ o ps, canMap (PS := PS) o ps = (Ret false, ps)) →
  futures_ready (the_heap s) → convertedObjectCache s = ∅ → heap_ok (the_heap s) →
  walk_bound s ≤ fuel →
  walkPyObject fuel o s = walkPyObject (walk_bound s) o s.
Proof.
  intros Hnone Hfut Hc Hok Hfuel. unfold walk_bound in *.
  apply (walkPyObject_agree Hnone (the_heap s) Hfut (size (dom (objects (the_heap s)))) ∅); [|lia|lia|].
  - by rewrite difference_empty_L.
  - split; try done. intros x y Hy. left. by eapply elem_of_dom_2.
Qed.
