(* ===== verification/PyObjectWalkerSamples.v ===== *)
(** * Conversions of concrete objects

    A heap with a cycle, a closure, a module and an object that is mapped: the
    properties of the walk applied to it, and the walks that go wrong. *)
From Stdlib Require Import Lia.
From stdpp Require Import base gmap sets list strings fin_maps fin_map_dom.
From S2P Require Import Prelude PyAst FreeVariableAnalyses AstUtil TypeDescription ObjectRegistry PyHeap PyObjectWalker PyObjectWalkerSpec PyObjectWalkerEnds.

Module WalkerSamples.

(** A program text is the function [def f(): return x + m.y] on its first line. *)
Definition source : node :=
  Module [FunctionDef (Pos 1 0) "f" (arguments None [] None None [])
    [Return (Pos 1 8) (Some (BinOp (Pos 1 15) (Name (Pos 1 15) "x" Load) "Add"
       (Attribute (Pos 1 19) (Name (Pos 1 19) "m" Load) "y" Load)))] []].

Definition sample_interpreter : Interpreter := {|
  parse _ := Ret source;
  getsourcefile _ := Ret (Some "a.py");
  getlines _ := Ret (Some ["def f(): return x + m.y"]);
  getsourcelines _ := Ret (["def f(): return x + m.y"], 1%Z);
  dedent t := t;
  builtins := ∅;
  pythonSingletonToName := ∅;
  connect := 1000%N;
  getitem _ _ := Raise TypeError |}.
#[export] Existing Instance sample_interpreter.

(** No object is mapped. *)
Definition no_mapping : PureClassMapping unit := {|
  canMap _ := mret false;
  mappableInstanceToPure _ := raise KeyError |}.

(** The object 6 is mapped to the object 7. *)
Definition one_mapping : PureClassMapping bool := {|
  canMap o := mret (bool_decide (o = 6%N));
  mappableInstanceToPure _ := mret 7%N |}.

Definition plain (k : kind) : pyobj := PyObj k None None ∅.

(** [x = 7], [m.y = 7], [l = [l, f, o]] and [o], which is mapped to [p = (x,)]. *)
Definition f : function :=
  Function "f" ["x"] [Some 3%N] {["m" := 4%N]}.
Definition sample_heap : heap :=
  Heap (list_to_map
    [ (1%N, plain (KList [1%N; 2%N; 6%N])); (2%N, plain (KFunction f));
      (3%N, plain (KPrimitive (PInt 7))); (4%N, PyObj (KModule "m") None None {["y" := 3%N]});
      (6%N, PyObj KOther (Some 8%N) (Some []) ∅); (7%N, plain (KTuple [3%N]));
      (8%N, plain (KTuple [])) ]) 9%N.

Definition start {PS} (ps : PS) (h : heap) : walker PS :=
  Walker ∅ ∅ ObjectRegistry.init ∅ ∅ h ps.

Lemma sample_heap_ok : heap_ok sample_heap.
Proof. intros o Ho. cbn in Ho. rewrite !dom_insert_L in Ho. set_solver by lia. Qed.

Lemma one_mapping_laws : PureClassMappingLaws (H := one_mapping) bool is_source_error.
Proof. split; intros o; (split; [intros ps h Hh; done|intros s e; cbn; done]). Qed.

Lemma start_fresh {PS} (ps : PS) : fresh_walker (start ps sample_heap).
Proof.
  split; [done| |].
  - intros i Hi. cbn in Hi. by rewrite dom_empty_L in Hi.
  - split; [apply sample_heap_ok|]. intros name o Ho. cbn in Ho. by rewrite lookup_empty in Ho.
Qed.

Lemma sample_getitem p e : getitem p 1 = Raise e → is_source_error e = false.
Proof. cbn. intros He. injection He as <-. reflexivity. Qed.

Definition walked := walkPyObject (H := one_mapping) 9 1%N (start true sample_heap).

Lemma walked_returns : walked = (Ret 0%Z, snd walked).
Proof. assert (H : fst walked = Ret 0%Z) by reflexivity. rewrite <- H. apply surjective_pairing. Qed.

Example walk_sample :
  fst walked = Ret 0%Z ∧
  objectIdToObjectDefinition (objectRegistry (snd walked)) !! 0%Z = Some (List [0; 1; 4]%Z) ∧
  objectIdToObjectDefinition (objectRegistry (snd walked)) !! 1%Z
    = Some (FunctionDefinition 3 1 [("m.y", 2%Z); ("x", 2%Z)]) ∧
  objectIdToObjectDefinition (objectRegistry (snd walked)) !! 4%Z = Some (Tuple [2%Z]).
Proof. split_ands; reflexivity. Qed.

Lemma walkPyObject_depicts_witness :
  ∃ G : history, denotes G (snd walked) 1%N 0%Z ∧
    ∀ j w, G !! j = Some w →
      ∃ d, objectIdToObjectDefinition (objectRegistry (snd walked)) !! j = Some d ∧
        depicts G (snd walked) w d.
Proof.
  destruct (walkPyObject_depicts (PureClassMappingLaws0 := one_mapping_laws) sample_getitem
    9 1%N (start true sample_heap) 0%Z (snd walked) (start_fresh true) walked_returns) as (G & H1 & _ & H2).
  exists G. split; [exact H1|]. intros j w Hj. exact (proj2 (H2 j w Hj)).
Defined.

Lemma walked_dependencies :
  dependentIds (objectRegistry (snd walked)) 0%Z = Ret [0; 1; 4]%Z ∧
  dependentIds (objectRegistry (snd walked)) 1%Z = Ret [2; 2; 3]%Z.
Proof. split; reflexivity. Qed.

Lemma walked_reaches : reaches (dependentIds (objectRegistry (snd walked))) 0%Z 3%Z.
Proof.
  apply (reaches_step _ _ 1%Z [2; 2; 3]%Z); [|exact (proj2 walked_dependencies)|set_solver].
  apply (reaches_step _ _ 0%Z [0; 1; 4]%Z); [constructor|exact (proj1 walked_dependencies)|set_solver].
Qed.

Lemma conversion_is_closed_witness :
  is_ret (getDefinition 3%Z (objectRegistry (snd walked))) = true.
Proof.
  exact (conversion_is_closed (PureClassMappingLaws0 := one_mapping_laws) sample_getitem 9 1%N
    (start true sample_heap) 0%Z (snd walked) 3%Z (start_fresh true) walked_returns walked_reaches).
Defined.

Lemma walk_ends_witness :
  walkPyObject (H := no_mapping) 40 1%N (start tt sample_heap)
  = walkPyObject (H := no_mapping) 9 1%N (start tt sample_heap).
Proof.
  refine (walk_ends (start tt sample_heap) 40 1%N _ _ eq_refl sample_heap_ok _).
  - intros o []. reflexivity.
  - intros o x r y q Hx Hk. exfalso. cbn in Hx.
    repeat (apply lookup_insert_Some in Hx as [[_ <-]|[_ Hx]]; [discriminate Hk|]).
    by rewrite lookup_empty in Hx.
  - vm_compute. lia.
Defined.

(** ** Walks that go wrong *)

(** An object that is converted is registered again each time it occurs: the list
    [[o, o]] is sent with two ids for [o], an unmapped one keeps its identity. *)
Definition shared : heap := Heap (list_to_map
  [(1%N, plain (KList [6%N; 6%N])); (2%N, plain (KList [8%N; 8%N]));
   (6%N, PyObj KOther (Some 8%N) (Some []) ∅); (7%N, plain (KTuple [])); (8%N, plain (KTuple []))]) 9%N.

Lemma mapped_objects_lose_identity :
  objectIdToObjectDefinition (objectRegistry
    (snd (walkPyObject (H := one_mapping) 9 1%N (start true shared)))) !! 0%Z = Some (List [1; 2]%Z) ∧
  objectIdToObjectDefinition (objectRegistry
    (snd (walkPyObject (H := one_mapping) 9 2%N (start true shared)))) !! 0%Z = Some (List [1; 1]%Z).
Proof. split; reflexivity. Qed.

(** A mapped object whose pure image refers to it is walked forever. *)
Lemma mapped_cycle_never_ends fuel : ∀ (s : walker bool),
  objects (the_heap s) !! 7%N = Some (plain (KTuple [6%N])) →
  pyObjectIdToObjectId s !! 6%N = None →
  (convertedObjectCache s !! 6%N = None ∨ convertedObjectCache s !! 6%N = Some 7%N) →
  fst (walkPyObject (H := one_mapping) fuel 6%N s) = Raise RecursionLimit.
Proof.
  induction fuel as [|fuel IH]; intros s Hh Hid Hc; [done|]. cbn [walkPyObject].
  assert (Hget : get s = (Ret s, s)) by done. rewrite (bind_step _ _ _ _ _ Hget), Hid.
  assert (Hconv : ∃ s1, converted (H := one_mapping) 6%N s = (Ret 7%N, s1) ∧
    objects (the_heap s1) = objects (the_heap s) ∧ pyObjectIdToObjectId s1 = pyObjectIdToObjectId s ∧
    convertedObjectCache s1 !! 6%N = Some 7%N).
  { unfold converted, mbind, M_bind, get. destruct Hc as [Hc|Hc]; rewrite Hc.
    - eexists. split; [reflexivity|]. split_ands; [done|done|]. apply lookup_insert_eq.
    - exists s. done. }
  destruct Hconv as (s1 & Hconv & Hh1 & Hid1 & Hc1). rewrite (bind_step _ _ _ _ _ Hconv).
  set (s2 := snd (allocateId 7%N s1)).
  assert (Hal : allocateId 7%N s1 = (Ret (nextObjectID (objectRegistry s1)), s2)) by done.
  rewrite (bind_step _ _ _ _ _ Hal). rewrite bool_decide_eq_false_2 by done.
  specialize (IH s2). destruct fuel as [|fuel]; [done|].
  assert (Hx : objects (the_heap s2) !! 7%N = Some (plain (KTuple [6%N]))).
  { change (the_heap s2) with (the_heap s1). by rewrite Hh1. }
  assert (Hr : fst (walkPyObject (H := one_mapping) (S fuel) 6%N s2) = Raise RecursionLimit).
  { apply IH; [done| |by right]. change (pyObjectIdToObjectId s2) with
      (<[7%N := nextObjectID (objectRegistry s1)]> (pyObjectIdToObjectId s1)).
    rewrite lookup_insert_ne by done. by rewrite Hid1. }
  clear IH. revert Hr. generalize (walkPyObject (H := one_mapping) (S fuel)). intros walk Hr.
  unfold mbind at 1, M_bind at 1, catch. cbn [walk_object].
  assert (Ho : object_at 7%N s2 = (Ret (plain (KTuple [6%N])), s2)).
  { unfold object_at, mbind, M_bind, get, lift. by rewrite Hx. }
  rewrite (bind_step _ _ _ _ _ Ho). cbn. unfold registerTuple, mbind, M_bind. cbn.
  unfold mbind, M_bind. destruct (walk 6%N s2) as [[|e] s3]; cbn in Hr; [done|]. by simplify_eq.
Qed.

(** A variable of a with block that was converted before is indexed by one. *)
Lemma converted_variables_are_indexed :
  fst (resolveInDict {["a" := 6%N]} (["a"], Pos 1 0)
    (Walker {[6%N := 7%N]} ∅ ObjectRegistry.init ∅ ∅ sample_heap true)) = Raise TypeError.
Proof. reflexivity. Qed.
End WalkerSamples.
