(* ===== verification/PyforaClient.v ===== *)
(** * The client of a cluster

    [pyfora/Executor.py], [pyfora/Connection.py], [pyfora/ObjectConverter.py],
    [pyfora/Future.py], the message handlers of [pyfora/SocketIoJsonInterface.py] and
    the callbacks of the generated web objects
    ([BackendGateway/SubscribableWebObjects/generatePythonWrapper.py]): the requests
    that an operation sends, and what each answer does to its future.

    Callbacks are data: a [handler] names the closures that a request was sent
    with, and [run_handler] is their bodies. *)
From Stdlib Require Import Lia.
From stdpp Require Import base gmap sets list strings fin_maps.
From S2P Require Import Prelude TypeDescription ObjectRegistry PyHeap PyObjectWalker.

(** ** Values on the wire, with the web objects they mention *)

Inductive json :=
| JNone
| JBool (b : bool)
| JInt (z : Z)
| JStr (s : string)
| JDict (items : list (string * json))
| JTuple (vs : list json)
| JObj (cls : string) (args : json)
| JDefinitions (definitions : list (Z * pyval)).

(** [j[k]], [k in j] and the truth value of [j]. *)
Definition item (k : string) (j : json) : res json :=
  match j with
  | JDict items => of_option KeyError (assoc k items)
  | _ => Raise TypeError
  end.

Definition contains (k : string) (j : json) : res bool :=
  match j with
  | JDict items => Ret (bool_decide (is_Some (assoc k items)))
  | JTuple vs => Ret (existsb (λ v, match v with JStr s => bool_decide (s = k) | _ => false end) vs)
  | _ => Raise TypeError
  end.

Definition truthy (j : json) : bool :=
  match j with
  | JNone => false
  | JBool b => b
  | JInt z => negb (bool_decide (z = 0%Z))
  | JStr s => negb (bool_decide (s = ""))
  | JDict l => negb (bool_decide (length l = 0))
  | JTuple l => negb (bool_decide (length l = 0))
  | JObj _ _ => true
  | JDefinitions l => negb (bool_decide (length l = 0))
  end.

Definition is_str (s : string) (j : json) : bool :=
  match j with JStr t => bool_decide (t = s) | _ => false end.

(** [isinstance(j, cls)] for a class of web objects. *)
Definition is_object (cls : string) (j : json) : bool :=
  match j with JObj c _ => bool_decide (c = cls) | _ => false end.

(** ** Remote objects, errors and results *)

(** [DefinedRemotePythonObject] and [ComputedRemotePythonObject]. *)
Inductive remote :=
| DefinedRemote (objectId : Z)
| ComputedRemote (computedValue : json) (isException : bool).

(** [_pyforaComputedValueArg]. *)
Definition pyforaComputedValueArg (r : remote) : json :=
  match r with
  | DefinedRemote objectId => JInt objectId
  | ComputedRemote computedValue _ => computedValue
  end.

Section client.
(** Python values that the rehydrator makes. *)
Context {V : Type}.

(** The classes of [Exceptions.py] that results can be, all of them [PyforaError]s. *)
Inductive error :=
| PyforaError (message : json)
| ConversionError (message trace : json)
| ForaToPythonError (message : json + exn)
| ResultExceededBytecountThreshold
| ComputationError (remoteException : V) (trace : json).

Inductive result :=
| RRemote (r : remote)
| RLocal (v : V)
| RDict (d : list (string * remote))
| RTuple (l : list remote)
| RTrue
| RNone
| RError (e : error).

(** ** Futures *)

Inductive fstate := PENDING | RUNNING | CANCELLED | CANCELLED_AND_NOTIFIED | FINISHED.

#[export] Instance fstate_eq_dec : EqDecision fstate.
Proof. solve_decision. Defined.

Record future := Future {
  f_state : fstate;
  f_outcome : option result;
  f_computedValue : json;
  f_onCancel : bool }.

Definition done (s : fstate) : bool :=
  match s with PENDING | RUNNING => false | _ => true end.

(** ** Handlers: the callbacks of a request *)

(** What [createComputation] is for. *)
Inductive creation := ForCall | ForCompilation.

Inductive handler :=
| OnConverted (objectId : Z) (f : nat)
| OnCreated (computedValue : json) (why : creation) (f : nat)
| OnPrioritized (computedValue : json) (f : nat)
| OnStatus (f : nat)
| OnCompiled (f : nat)
| OnDict (f : nat)
| OnTuple (f : nat)
| OnPopulated (resultComputer : json) (f : nat)
| OnJson (f : nat)
| OnExportRequested (computedValue : json) (bucket key : string) (f : nat)
| OnExportFinished (computedValue : json) (bucket key : string) (f : nat)
| OnExportStarted (f : nat)
| OnExportResult (f : nat)
| OnIgnored.

(** The future that a handler is to resolve. *)
Definition target (h : handler) : option nat :=
  match h with
  | OnConverted _ f | OnCreated _ _ f | OnPrioritized _ f | OnStatus f | OnCompiled f
  | OnDict f | OnTuple f | OnPopulated _ f | OnJson f | OnExportRequested _ _ _ f
  | OnExportFinished _ _ _ f | OnExportStarted f | OnExportResult f => Some f
  | OnIgnored => None
  end.

(** A request: [subscribe] and [invoke] of a web object. *)
Inductive verb := Subscribe | Execute.
Record request := Request {
  r_verb : verb; r_object : json; r_field : string; r_args : json; r_handler : handler }.

(** ** State *)

Record client (PS : Type) := Client {
  executorClosed : bool;
  closed : bool;
  connected : bool;
  futures : gmap nat future;
  nextFuture : nat;
  messageHandlers : gmap Z request;
  nextMessageId : Z;
  the_walker : walker PS }.
Arguments Client {PS}.
Arguments executorClosed {PS}.
Arguments closed {PS}.
Arguments connected {PS}.
Arguments futures {PS}.
Arguments nextFuture {PS}.
Arguments messageHandlers {PS}.
Arguments nextMessageId {PS}.
Arguments the_walker {PS}.

Context {PS : Type} `{PureClassMapping PS} `{Interpreter}.
Abbreviation st := (client PS).

Definition set_futures (fs : gmap nat future) (n : nat) (s : st) : st :=
  Client (executorClosed s) (closed s) (connected s) fs n (messageHandlers s) (nextMessageId s)
    (the_walker s).
Definition set_handlers (hs : gmap Z request) (n : Z) (s : st) : st :=
  Client (executorClosed s) (closed s) (connected s) (futures s) (nextFuture s) hs n (the_walker s).
Definition set_walker (w : walker PS) (s : st) : st :=
  Client (executorClosed s) (closed s) (connected s) (futures s) (nextFuture s) (messageHandlers s)
    (nextMessageId s) w.
Definition set_flags (e c k : bool) (s : st) : st :=
  Client e c k (futures s) (nextFuture s) (messageHandlers s) (nextMessageId s) (the_walker s).

Definition future_at (f : nat) : M st future :=
  s ← get; lift (of_option KeyError (futures s !! f)).
Definition put_future (f : nat) (x : future) : M st unit :=
  modify (λ s, set_futures (<[f := x]> (futures s)) (nextFuture s) s).

(** *** [concurrent.futures]

    Setting the outcome of a future that is done overwrites it in the versions for
    Python 2, and raises in later ones. *)
Context (overwrites : bool).

Definition set_outcome (f : nat) (r : result) : M st unit :=
  x ← future_at f;
  if done (f_state x) && negb overwrites then raise (OtherException "InvalidStateError")
  else put_future f (Future FINISHED (Some r) (f_computedValue x) (f_onCancel x)).

Definition set_running_or_notify_cancel (f : nat) : M st bool :=
  x ← future_at f;
  match f_state x with
  | CANCELLED =>
      put_future f (Future CANCELLED_AND_NOTIFIED (f_outcome x) (f_computedValue x) (f_onCancel x)) ;;
      mret false
  | PENDING =>
      put_future f (Future RUNNING (f_outcome x) (f_computedValue x) (f_onCancel x)) ;; mret true
  | _ => raise (OtherException "RuntimeError")
  end.

(** [future.result()] of a future that is done. *)
Definition future_result (f : nat) : M st result :=
  x ← future_at f;
  match f_state x, f_outcome x with
  | (CANCELLED | CANCELLED_AND_NOTIFIED), _ => raise (OtherException "CancelledError")
  | FINISHED, Some (RError e) => raise (OtherException "PyforaError")
  | FINISHED, Some r => mret r
  | _, _ => raise (OtherException "TimeoutError")
  end.

(** *** [SocketIoJsonInterface.send] *)
Definition send (v : verb) (object : json) (field : string) (args : json) (h : handler) :
    M st unit :=
  s ← get;
  if connected s then
    put (set_handlers (<[nextMessageId s := Request v object field args h]> (messageHandlers s))
           (nextMessageId s + 1)%Z s)
  else raise ValueError.

(** ** Executor: futures *)

(** [_create_future]. *)
Definition create_future (onCancel : bool) : M st nat := λ s,
  (Ret (nextFuture s),
   set_futures (<[nextFuture s := Future PENDING None JNone onCancel]> (futures s))
     (S (nextFuture s)) s).

(** [_resolve_future]: [set_exception] for an error, [set_result] for the rest. *)
Definition resolve_future (f : nat) (r : result) : M st unit := set_outcome f r.

(** [_resolveFutureToComputedObject]. *)
Definition resolveFutureToComputedObject (f : nat) (jsonResult : json) : M st unit :=
  x ← future_at f;
  hasStatus ← lift (contains "status" jsonResult);
  isException ← (if hasStatus : bool then lift (is_str "exception" <$> item "status" jsonResult)
                 else mret false);
  resolve_future f (RRemote (ComputedRemote (f_computedValue x) isException)).

(** [if not self.closed: ...]. *)
Definition unless_closed (m : M st unit) : M st unit :=
  s ← get; if closed s then mret tt else m.

(** ** Connection: the requests *)

(** The web objects that the factory makes. *)
Definition pyforaComputedValue (fn : remote) (args : list remote) : json :=
  JObj "PyforaComputedValue"
    (JDict [("argIds", JTuple (pyforaComputedValueArg fn :: (pyforaComputedValueArg <$> args)))]).

Definition createComputation (fn : remote) (args : list remote) (why : creation) (f : nat) :
    M st unit :=
  let computedValue := pyforaComputedValue fn args in
  send Subscribe computedValue "submittedComputationId" JNone (OnCreated computedValue why f).

Definition prioritizeComputation (computedValue : json) (f : nat) : M st unit :=
  send Execute computedValue "increaseRequestCount" (JDict []) (OnPrioritized computedValue f).

Definition subscribeToComputationStatus (computedValue : json) (f : nat) : M st unit :=
  send Subscribe computedValue "jsonStatusRepresentation" JNone (OnStatus f).

(** [computedValue.triggerCompilation]: an exception object has no such method. *)
Definition triggerCompilationOnComputation (computedValue : option json) (f : nat) : M st unit :=
  match computedValue with
  | Some cv => send Execute cv "triggerCompilation" (JDict []) (OnCompiled f)
  | None => raise AttributeError
  end.

Definition cancelComputation (computedValue : json) : M st unit :=
  send Execute computedValue "cancel" (JDict []) OnIgnored.

Definition increaseRequestCount (computedValue : json) : M st unit :=
  send Execute computedValue "increaseRequestCount" (JDict []) OnIgnored.

Definition expandComputedValueToDict (computedValue : json) (f : nat) : M st unit :=
  increaseRequestCount computedValue ;;
  send Subscribe computedValue "pyforaDictToAssignedVarsToComputedValues" JNone (OnDict f).

Definition expandComputedValueToTuple (computedValue : json) (f : nat) : M st unit :=
  increaseRequestCount computedValue ;;
  send Subscribe computedValue "pyforaTupleToTupleOfComputedValues" JNone (OnTuple f).

Definition downloadComputation (computedValue maxBytecount : json) (f : nat) : M st unit :=
  increaseRequestCount computedValue ;;
  let resultComputer := JObj "PyforaResultAsJson"
    (JDict [("computedValue", computedValue); ("maxBytecount", maxBytecount)]) in
  send Subscribe resultComputer "resultIsPopulated" JNone (OnPopulated resultComputer f).

Definition triggerS3DatasetExport (valueAsString : remote) (bucketname keyname : string) (f : nat) :
    M st unit :=
  match valueAsString with
  | ComputedRemote computedValue _ =>
      if negb (is_object "PyforaComputedValue" computedValue) then
        resolve_future f (RError (PyforaError (JStr "The object handle in the object passed to triggerS3DatasetExport should be a ComputedValue")))
      else
      let toCalculate := JObj "ComputedValueForMember"
        (JDict [("baseComputedValue", computedValue);
                ("memberName", JStr "@pyfora_string_as_paged_vec_of_char")]) in
      send Execute toCalculate "increaseRequestCount" (JDict [])
        (OnExportRequested toCalculate bucketname keyname f)
  | DefinedRemote _ =>
      resolve_future f (RError (PyforaError (JStr "The argument to triggerS3DatasetExport should be a ComputedRemotePythonObject")))
  end.

(** [ObjectConverter.convert]. *)
Definition convert (objectId : Z) (f : nat) : M st unit :=
  s ← get;
  let registry := objectRegistry (the_walker s) in
  dependencyGraph ← lift (computeDependencyGraph registry objectId);
  definitions ← lift (mapR (λ objId : Z,
    d ← getDefinition objId registry; v ← serialize (describe d); Ret (objId, v))
    (map_to_list dependencyGraph).*1);
  send Execute (JObj "PyforaObjectConverter" (JDict [])) "convert"
    (JDict [("objectId", JInt objectId);
            ("objectIdToObjectDefinition", JDefinitions definitions)])
    (OnConverted objectId f).

(** ** What the answers do *)

(** [convertJsonResultToPythonObject] of the rehydrator. *)
Context (rehydrate : json → res V).

(** [_translate_download_result]. *)
Definition translate_download_result (jsonResult : json) : res result :=
  conversionError ← contains "foraToPythonConversionError" jsonResult;
  if conversionError : bool then
    message ← item "foraToPythonConversionError" jsonResult;
    Ret (RError (ForaToPythonError (inl message)))
  else
    isException ← item "isException" jsonResult;
    if truthy isException then
      j ← item "result" jsonResult;
      v ← rehydrate j;
      trace ← item "trace" jsonResult;
      Ret (RError (ComputationError v trace))
    else
      exceeded ← contains "maxBytesExceeded" jsonResult;
      if exceeded : bool then Ret (RError ResultExceededBytecountThreshold)
      else j ← item "result" jsonResult; v ← rehydrate j; Ret (RLocal v).

(** [onResultCallback]: what the translation raises becomes the result. *)
Definition onResultCallback (f : nat) (jsonResult : json) : M st unit :=
  resolve_future f
    match translate_download_result jsonResult with
    | Ret r => r
    | Raise e => RError (ForaToPythonError (inr e))
    end.

(** [onExpanded] of both expansions, [expand] making the result of one that is not
    an exception. *)
Definition onExpanded (expand : json → res result) (f : nat) (jsonResult : json) : M st unit :=
  isException ← lift (item "isException" jsonResult);
  result ← lift (if truthy isException then
                   j ← item "result" jsonResult;
                   v ← rehydrate j;
                   trace ← item "trace" jsonResult;
                   Ret (RError (ComputationError v trace))
                 else expand jsonResult);
  resolve_future f result.

Definition dict_of_proxies (jsonResult : json) : res result :=
  d ← item "dictOfProxies" jsonResult;
  match d with
  | JDict items => Ret (RDict ((λ kv, (kv.1, ComputedRemote kv.2 false)) <$> items))
  | _ => Raise AssertionError
  end.

Definition tuple_of_proxies (jsonResult : json) : res result :=
  t ← item "tupleOfComputedValues" jsonResult;
  match t with
  | JTuple vs => Ret (RTuple ((λ v, ComputedRemote v false) <$> vs))
  | _ => Raise AssertionError
  end.

(** [statusChanged]. *)
Definition statusChanged (f : nat) (jsonStatus : json) : M st unit :=
  match jsonStatus with
  | JNone => mret tt
  | _ =>
      status ← lift (item "status" jsonStatus);
      if is_str "failure" status then
        message ← lift (item "message" jsonStatus);
        resolve_future f (RError (PyforaError message))
      else resolveFutureToComputedObject f jsonStatus
  end.

(** [setComputedValue]. *)
Definition setComputedValue (f : nat) (computedValue : json) : M st unit :=
  x ← future_at f; put_future f (Future (f_state x) (f_outcome x) computedValue (f_onCancel x)).

(** [onFailure] with [err['message']]. *)
Definition fail_with_message (f : nat) (err : json) : M st unit :=
  message ← lift (item "message" err);
  resolve_future f (RError (PyforaError message)).

(** What a request is answered with. *)
Inductive answer := Success (j : json) | Changed (j : json) | Failure (err : json).

(** *** The bodies of the callbacks, a definition for those of each request *)

(** [convert]: the callback of [ObjectConverter] runs before the wrapper's test. *)
Definition on_converted (objectId : Z) (f : nat) (a : answer) : M st unit :=
  match a with
  | Success message =>
      isException ← lift (contains "isException" message);
      if isException : bool then
        m ← lift (item "message" message);
        trace ← lift (item "trace" message);
        unless_closed (resolve_future f (RError (ConversionError m trace)))
      else unless_closed (resolve_future f (RRemote (DefinedRemote objectId)))
  | Failure err => unless_closed (resolve_future f (RError (ConversionError err JNone)))
  | Changed _ => mret tt
  end.

(** [createComputation], for the two [onComputationCreated]. *)
Definition on_created (computedValue : json) (why : creation) (f : nat) (a : answer) : M st unit :=
  match why, a with
  | ForCall, Success _ =>
      unless_closed (setComputedValue f computedValue ;; prioritizeComputation computedValue f)
  | ForCall, Failure err => unless_closed (resolve_future f (RError (PyforaError err)))
  | ForCompilation, Success _ => unless_closed (triggerCompilationOnComputation (Some computedValue) f)
  | ForCompilation, Failure _ => unless_closed (triggerCompilationOnComputation None f)
  | _, Changed _ => mret tt
  end.

(** [prioritizeComputation]. *)
Definition on_prioritized (computedValue : json) (f : nat) (a : answer) : M st unit :=
  match a with
  | Success _ =>
      unless_closed (_ ← set_running_or_notify_cancel f; subscribeToComputationStatus computedValue f)
  | Failure err => unless_closed (resolve_future f (RError (PyforaError err)))
  | Changed _ => mret tt
  end.

(** [_subscribeToComputationStatus]. *)
Definition on_status (f : nat) (a : answer) : M st unit :=
  match a with
  | Success j | Changed j => unless_closed (statusChanged f j)
  | Failure err => unless_closed (resolve_future f (RError (PyforaError err)))
  end.

(** [triggerCompilationOnComputation]. *)
Definition on_compiled (f : nat) (a : answer) : M st unit :=
  match a with
  | Success _ | Failure _ => resolve_future f RTrue
  | Changed _ => mret tt
  end.

(** [expandComputedValueToDictOfAssignedVarsToProxyValues]: a failure is never an
    exception, but a response. *)
Definition on_dict (f : nat) (a : answer) : M st unit :=
  match a with
  | Success j | Changed j =>
      match j with JNone => mret tt | _ => unless_closed (onExpanded dict_of_proxies f j) end
  | Failure err => resolve_future f (RError (PyforaError err))
  end.

(** [expandComputedValueToTupleOfProxies]. *)
Definition on_tuple (f : nat) (a : answer) : M st unit :=
  match a with
  | Success j | Changed j =>
      match j with JNone => mret tt | _ => unless_closed (onExpanded tuple_of_proxies f j) end
  | Failure err => resolve_future f (RError (PyforaError err))
  end.

(** [downloadComputation]: [resultStatusChanged], then [resultChanged]. *)
Definition on_populated (resultComputer : json) (f : nat) (a : answer) : M st unit :=
  match a with
  | Success j | Changed j =>
      unless_closed (when (truthy j)
        (send Execute resultComputer "getResultAsJson" (JDict []) (OnJson f)))
  | Failure err => unless_closed (fail_with_message f err)
  end.

Definition on_json (f : nat) (a : answer) : M st unit :=
  match a with
  | Success j => unless_closed (match j with JNone => mret tt | _ => onResultCallback f j end)
  | Failure err => unless_closed (fail_with_message f err)
  | Changed _ => mret tt
  end.

(** [triggerS3DatasetExport]: [subscribeToFinished], then [isFinishedChanged]. *)
Definition on_export_requested (cv : json) (b k : string) (f : nat) (a : answer) : M st unit :=
  match a with
  | Success _ => send Subscribe cv "isFinished" JNone (OnExportFinished cv b k f)
  | Failure err => unless_closed (fail_with_message f err)
  | Changed _ => mret tt
  end.

Definition on_export_finished (cv : json) (b k : string) (f : nat) (a : answer) : M st unit :=
  match a with
  | Success j | Changed j =>
      unless_closed (when (truthy j)
        (send Execute cv "writeToS3" (JDict [("bucketname", JStr b); ("keyname", JStr k)])
           (OnExportStarted f)))
  | Failure err => unless_closed (fail_with_message f err)
  end.

(** [triggerS3DatasetExportOnFinishedCalculation]. *)
Definition on_export_started (f : nat) (a : answer) : M st unit :=
  match a with
  | Success task => send Subscribe task "successOrError" JNone (OnExportResult f)
  | Failure err => fail_with_message f err
  | Changed _ => mret tt
  end.

(** [subscribeToWriteToS3TaskResultAndCallCallback]. *)
Definition on_export_result (f : nat) (a : answer) : M st unit :=
  match a with
  | Success j | Changed j =>
      unless_closed
        match j with
        | JNone => mret tt
        | _ =>
            success ← lift (item "success" j);
            if truthy success then resolve_future f RNone
            else message ← lift (item "message" j);
                 resolve_future f (RError (PyforaError message))
        end
  | Failure err => fail_with_message f err
  end.

Definition run_handler (h : handler) : answer → M st unit :=
  match h with
  | OnConverted objectId f => on_converted objectId f
  | OnCreated computedValue why f => on_created computedValue why f
  | OnPrioritized computedValue f => on_prioritized computedValue f
  | OnStatus f => on_status f
  | OnCompiled f => on_compiled f
  | OnDict f => on_dict f
  | OnTuple f => on_tuple f
  | OnPopulated resultComputer f => on_populated resultComputer f
  | OnJson f => on_json f
  | OnExportRequested cv b k f => on_export_requested cv b k f
  | OnExportFinished cv b k f => on_export_finished cv b k f
  | OnExportStarted f => on_export_started f
  | OnExportResult f => on_export_result f
  | OnIgnored => λ _, mret tt
  end.

(** [message.get('responseType') == t]. *)
Definition is_response (t : string) (message : json) : bool :=
  match item "responseType" message with Ret j => is_str t j | Raise _ => false end.

(** [responseCallback]: how the web object reads a response. *)
Definition read_response (v : verb) (response : json) : res answer :=
  t ← item "responseType" response;
  match v with
  | Subscribe =>
      if is_str "SubscribeResponse" t then Success <$> item "value" response
      else if is_str "ValueChanged" t then Changed <$> item "value" response
      else Ret (Failure response)
  | Execute =>
      if is_str "ExecutionResult" t then Success <$> item "result" response
      else Ret (Failure response)
  end.

(** [_on_message], given the id of the message: its handler stays only for a
    subscription that has just started. *)
Definition on_message (messageId : Z) (message : json) : M st unit :=
  s ← get;
  match messageHandlers s !! messageId with
  | None => mret tt
  | Some r =>
      (if is_response "SubscribeResponse" message then mret tt
       else modify (λ s, set_handlers (delete messageId (messageHandlers s)) (nextMessageId s) s)) ;;
      a ← lift (read_response (r_verb r) message);
      run_handler (r_handler r) a
  end.

(** [_disconnect_failure_message]. *)
Definition disconnect_failure (messageId : Z) : json :=
  JDict [("messageId", JInt messageId); ("responseType", JStr "Failure");
         ("message", JStr "Disconnected from server")].

(** [_on_disconnect]: the handlers are answered one after the other, until one
    raises. *)
Definition on_disconnect : M st unit :=
  s ← get;
  let callbacks := map_to_list (messageHandlers s) in
  modify (λ s, set_handlers ∅ (nextMessageId s) (set_flags (executorClosed s) (closed s) false s)) ;;
  forM_ (λ c : Z * request,
           a ← lift (read_response (r_verb c.2) (disconnect_failure c.1));
           run_handler (r_handler c.2) a) callbacks.

(** ** Executor: the operations *)

(** The attribute [connection] of a closed executor is [None]. *)
Definition with_connection {A} (m : M st A) : M st A :=
  s ← get; if executorClosed s then raise AttributeError else m.

Definition raiseIfClosed : M st unit :=
  s ← get; when (executorClosed s) (raise (OtherException "PyforaError")).

(** The walk of [define]; [fuel] is for [walkPyObject]. *)
Definition walk_for_define (fuel : nat) (obj : oid) : M st Z := λ s,
  let w := the_walker s in
  let '(r, w) := new_walker (objectRegistry w) (fileTextCache w) (sourceFileCache w) (the_heap w)
                   (the_mapping w) in
  match r with
  | Raise e => (Raise e, set_walker w s)
  | Ret _ => let '(r, w) := walkPyObject fuel obj w in (r, set_walker w s)
  end.

Definition define_ (fuel : nat) (obj : oid) : M st nat :=
  raiseIfClosed ;;
  objectId ← catch (walk_for_define fuel obj)
               (λ e, match e with
                     | UnresolvedFreeVariableWithTrace _ _ => raise PythonToForaConversionError
                     | e => raise e
                     end);
  f ← create_future false;
  convert objectId f ;;
  mret f.

(** [RemotePythonObject.__call__] and [_callRemoteObject]. *)
Definition callRemoteObject (fn : remote) (args : list remote) : M st nat :=
  f ← create_future true;
  with_connection (createComputation fn args ForCall f) ;;
  mret f.

(** [_triggerCompilation]. *)
Definition triggerCompilation (fn : remote) (args : list remote) : M st nat :=
  f ← create_future false;
  with_connection (createComputation fn args ForCompilation f) ;;
  mret f.

(** [submit]: [meanwhile] is what arrives while it waits for the definitions. *)
Definition as_remote (r : result) : res remote :=
  match r with RRemote r => Ret r | _ => Raise TypeError end.

Definition submit (fuel : nat) (meanwhile : M st unit) (fn : oid) (args : list oid) : M st nat :=
  raiseIfClosed ;;
  defined ← mapM (define_ fuel) (fn :: args);
  meanwhile ;;
  results ← mapM future_result defined;
  remotes ← lift (mapR as_remote results);
  match remotes with
  | fn :: args => callRemoteObject fn args
  | [] => raise IndexError
  end.

(** [toLocal] of a computed and of a defined object: the connection has no method
    [retrieveConvertedObject]. *)
Definition downloadComputedValueResult (computedValue maxBytecount : json) : M st nat :=
  f ← create_future false;
  with_connection (downloadComputation computedValue maxBytecount f) ;;
  mret f.

Definition downloadDefinedObject (objectId : Z) : M st nat :=
  f ← create_future false;
  with_connection (raise AttributeError : M st unit) ;;
  mret f.

Definition toLocal (r : remote) (maxBytecount : json) : M st nat :=
  match r with
  | DefinedRemote objectId => downloadDefinedObject objectId
  | ComputedRemote computedValue _ => downloadComputedValueResult computedValue maxBytecount
  end.

Definition toDictOfAssignedVarsToProxyValues (computedValue : json) : M st nat :=
  f ← create_future false;
  with_connection (expandComputedValueToDict computedValue f) ;;
  mret f.

Definition toTupleOfProxies (computedValue : json) : M st nat :=
  f ← create_future false;
  with_connection (expandComputedValueToTuple computedValue f) ;;
  mret f.

Definition exportS3Dataset (valueAsString : remote) (bucketname keyname : string) : M st nat :=
  match valueAsString with
  | DefinedRemote _ => raise AssertionError
  | ComputedRemote _ _ =>
      f ← create_future false;
      with_connection (triggerS3DatasetExport valueAsString bucketname keyname f) ;;
      mret f
  end.

(** [close]. *)
Definition close : M st unit := modify (λ s,
  if executorClosed s then s else set_flags true true (connected s) s).

(** [Future.cancel], [_cancelComputation] being [onCancel]. *)
Definition cancel (f : nat) : M st bool :=
  x ← future_at f;
  match f_state x with
  | PENDING =>
      put_future f (Future CANCELLED (f_outcome x) (f_computedValue x) (f_onCancel x)) ;; mret true
  | CANCELLED | CANCELLED_AND_NOTIFIED => mret true
  | RUNNING =>
      if f_onCancel x then
        with_connection (cancelComputation (f_computedValue x)) ;;
        put_future f (Future CANCELLED (f_outcome x) (f_computedValue x) (f_onCancel x)) ;;
        mret true
      else mret false
  | FINISHED => mret false
  end.
End client.

Arguments Client {V PS}.
Arguments executorClosed {V PS}.
Arguments closed {V PS}.
Arguments connected {V PS}.
Arguments futures {V PS}.
Arguments nextFuture {V PS}.
Arguments messageHandlers {V PS}.
Arguments nextMessageId {V PS}.
Arguments the_walker {V PS}.
Arguments RRemote {V}.
Arguments RLocal {V}.
Arguments RDict {V}.
Arguments RTuple {V}.
Arguments RTrue {V}.
Arguments RNone {V}.
Arguments RError {V}.
Arguments PyforaError {V}.
Arguments ConversionError {V}.
Arguments ForaToPythonError {V}.
Arguments ResultExceededBytecountThreshold {V}.
Arguments ComputationError {V}.
Arguments Future {V}.
Arguments f_state {V}.
Arguments f_outcome {V}.
Arguments f_computedValue {V}.
Arguments f_onCancel {V}.

(** The callback of a known request. *)
Ltac open_handler :=
  cbv beta iota delta [run_handler on_converted on_created on_prioritized on_status on_compiled on_dict
    on_tuple on_populated on_json on_export_requested on_export_finished on_export_started on_export_result].
Tactic Notation "open_handler" "in" hyp(H) :=
  cbv beta iota delta [run_handler on_converted on_created on_prioritized on_status on_compiled on_dict
    on_tuple on_populated on_json on_export_requested on_export_finished on_export_started on_export_result] in H.
