(* ===== verification/PyforaClientSpec.v ===== *)
(** * What the answers to a client do

    An answer touches only the future that its request was sent for, and a
    conclusive answer settles it: the future is done, or a new request is to
    resolve it. *)
From Stdlib Require Import Lia.
From stdpp Require Import base gmap sets list strings fin_maps fin_map_dom.
From S2P Require Import Prelude TypeDescription ObjectRegistry PyHeap PyObjectWalker PyforaClient.

Set Default Proof Using "Type".

Section spec.
Context {V PS : Type} `{PureClassMapping PS} `{Interpreter}.
Context (overwrites : bool) (rehydrate : json → res V).
Abbreviation st := (client (V := V) PS).
Abbreviation answer_with := (run_handler overwrites rehydrate).

(** ** What one answer does *)

(** From [s], the state changes only in the future [f], and in new requests that
    are to resolve it. *)
Record touches (f : nat) (s s' : st) : Prop := {
  touches_closed : closed s' = closed s;
  touches_flags : executorClosed s' = executorClosed s ∧ connected s' = connected s;
  touches_next : nextFuture s' = nextFuture s;
  touches_others g : g ≠ f → futures s' !! g = futures s !! g;
  touches_dom : dom (futures s') = dom (futures s);
  touches_ids : (nextMessageId s ≤ nextMessageId s')%Z;
  touches_old i : (i < nextMessageId s)%Z → messageHandlers s' !! i = messageHandlers s !! i;
  touches_new i r : (nextMessageId s ≤ i)%Z → messageHandlers s' !! i = Some r →
    (i < nextMessageId s')%Z ∧ (target (r_handler r) = Some f ∨ r_handler r = OnIgnored) }.

(** Ids are handed out in order. *)
Definition ids_ok (s : st) : Prop :=
  ∀ i r, messageHandlers s !! i = Some r → (i < nextMessageId s)%Z.

Lemma touches_refl f s : ids_ok s → touches f s s.
Proof. intros Hok. split; try done. intros i r Hi Hr. apply Hok in Hr. lia. Qed.

Lemma touches_trans f s1 s2 s3 : touches f s1 s2 → touches f s2 s3 → touches f s1 s3.
Proof.
  intros [Hc [He Hk] Hn Hothers Hd Hids Hold Hnew] [Hc' [He' Hk'] Hn' Hothers' Hd' Hids' Hold' Hnew'].
  split; try congruence.
  - split; congruence.
  - intros g Hg. by rewrite Hothers', Hothers.
  - by etransitivity.
  - intros i Hi. rewrite Hold', Hold; [done|done|]. by eapply Z.lt_le_trans.
  - intros i r Hi Hr. destruct (decide (nextMessageId s2 ≤ i)%Z) as [Hle|Hlt%Z.nle_gt].
    + by apply Hnew'.
    + rewrite Hold' in Hr by done. destruct (Hnew i r Hi Hr). split; [by eapply Z.lt_le_trans|done].
Qed.

Lemma touches_ids_ok f s s' : ids_ok s → touches f s s' → ids_ok s'.
Proof.
  intros Hok Ht i r Hr. destruct (decide (nextMessageId s ≤ i)%Z) as [Hi|Hi].
  - by apply (touches_new _ _ _ Ht i r).
  - rewrite (touches_old _ _ _ Ht) in Hr by lia. apply Hok in Hr.
    pose proof (touches_ids _ _ _ Ht). lia.
Qed.

(** [m] only concerns [f]. *)
Definition concerns {A} (f : nat) (m : M st A) : Prop := ∀ s, ids_ok s → touches f s (snd (m s)).

Lemma concerns_ret {A} f (a : A) : concerns f (mret a).
Proof. intros s Hs. by apply touches_refl. Qed.
Lemma concerns_raise {A} f e : concerns f (raise e : M st A).
Proof. intros s Hs. by apply touches_refl. Qed.
Lemma concerns_lift {A} f (r : res A) : concerns f (lift r).
Proof. intros s Hs. by apply touches_refl. Qed.
Lemma concerns_get f : concerns f get.
Proof. intros s Hs. by apply touches_refl. Qed.

Lemma concerns_bind {A B} f (m : M st A) (k : A → M st B) :
  concerns f m → (∀ a, concerns f (k a)) → concerns f (mbind k m).
Proof.
  intros Hm Hk s Hs. unfold mbind, M_bind. specialize (Hm s Hs).
  destruct (m s) as [[a|e] s1]; cbn in *; [|done].
  eapply touches_trans; [exact Hm|]. apply Hk. by eapply touches_ids_ok.
Qed.

Lemma concerns_when f b (m : M st unit) : concerns f m → concerns f (when b m).
Proof. intros Hm. destruct b; [done|apply concerns_ret]. Qed.

Lemma concerns_future_at f g : concerns f (future_at g).
Proof. apply concerns_bind; [apply concerns_get|intros; apply concerns_lift]. Qed.

Lemma concerns_put_future f x :
  ∀ s, ids_ok s → f ∈ dom (futures s) → touches f s (snd (put_future f x s)).
Proof.
  intros s Hs Hf. split; try done; cbn; [|rewrite dom_insert_L; set_solver|].
  - intros g Hg. by rewrite lookup_insert_ne.
  - intros i r Hi Hr. apply Hs in Hr. lia.
Qed.

(** Read a future, then write it. *)
Lemma concerns_update {A} f (k : future → M st A) :
  (∀ x s, ids_ok s → f ∈ dom (futures s) → touches f s (snd (k x s))) →
  concerns f (mbind k (future_at f)).
Proof.
  intros Hk s Hs. unfold future_at, mbind, M_bind, get, lift, of_option.
  destruct (futures s !! f) as [x|] eqn:Hx; cbn; [|by apply touches_refl].
  apply Hk; [done|]. by eapply elem_of_dom_2.
Qed.

Lemma concerns_set_outcome f r : concerns f (set_outcome overwrites f r).
Proof.
  apply concerns_update. intros x s Hs Hf. destruct (_ && _); [by apply touches_refl|].
  by apply concerns_put_future.
Qed.

Lemma touches_seq {A B} f (m : M st A) (k : A → M st B) s :
  ids_ok s → touches f s (snd (m s)) → (∀ a, concerns f (k a)) → touches f s (snd (mbind k m s)).
Proof.
  intros Hs Hm Hk. unfold mbind, M_bind. destruct (m s) as [[a|e] s1]; cbn in *; [|done].
  eapply touches_trans; [exact Hm|]. apply Hk. by eapply touches_ids_ok.
Qed.

Lemma concerns_set_running f : concerns f (set_running_or_notify_cancel f).
Proof.
  apply concerns_update. intros x s Hs Hf. destruct (f_state x); try by apply touches_refl.
  all: apply touches_seq; [done|by apply concerns_put_future|intros; apply concerns_ret].
Qed.

Lemma concerns_setComputedValue f cv : concerns f (setComputedValue f cv).
Proof. apply concerns_update. intros. by apply concerns_put_future. Qed.

Lemma concerns_send f v o field args h :
  target h = Some f ∨ h = OnIgnored → concerns f (send v o field args h).
Proof.
  clear rehydrate. intros Ht s Hs. unfold send, mbind, M_bind, get.
  destruct (connected s); [|by apply touches_refl].
  split; try done; cbn; [lia| |].
  - intros i Hi. rewrite lookup_insert_ne by lia. done.
  - intros i r Hi. destruct (decide (i = nextMessageId s)) as [->|].
    + rewrite lookup_insert_eq. intros [= <-]. split; [lia|done].
    + rewrite lookup_insert_ne by done. intros Hr. apply Hs in Hr. lia.
Qed.

Lemma concerns_unless_closed f (m : M st unit) : concerns f m → concerns f (unless_closed m).
Proof.
  intros Hm. apply concerns_bind; [apply concerns_get|]. intros s.
  destruct (closed s); [apply concerns_ret|done].
Qed.

Create HintDb concerns_db.
#[local] Hint Resolve concerns_ret concerns_raise concerns_lift concerns_get concerns_when
  concerns_future_at concerns_set_outcome concerns_set_running concerns_setComputedValue
  concerns_unless_closed : concerns_db.

Ltac concerns_tac := repeat first
  [ progress intros
  | lazymatch goal with
    | |- concerns _ (send _ _ _ _ _) => apply concerns_send; first [by left|by right]
    | |- concerns _ (unless_closed _) => apply concerns_unless_closed
    | |- concerns _ (when _ _) => apply concerns_when
    | |- concerns _ (set_outcome _ _ _) => apply concerns_set_outcome
    | |- concerns _ (set_running_or_notify_cancel _) => apply concerns_set_running
    | |- concerns _ (setComputedValue _ _) => apply concerns_setComputedValue
    | |- concerns _ (future_at _) => apply concerns_future_at
    | |- concerns _ (lift _) => apply concerns_lift
    | |- concerns _ (raise _) => apply concerns_raise
    | |- concerns _ (mret _) => apply concerns_ret
    | |- concerns _ (mbind _ _) => apply concerns_bind
    | |- concerns _ (match ?x with _ => _ end) => destruct x
    end ].

Lemma concerns_run_handler h a f : target h = Some f → concerns f (answer_with h a).
Proof.
  intros Hf. destruct h; cbn in Hf; simplify_eq; open_handler;
    unfold onExpanded, statusChanged, resolveFutureToComputedObject, onResultCallback,
      fail_with_message, prioritizeComputation, subscribeToComputationStatus,
      triggerCompilationOnComputation, resolve_future; concerns_tac.
Qed.

(** ** What ends a request

    The answers after which a request has nothing left to do: errors, results, and
    the change that a subscription waits for. *)
Definition conclusive (h : handler) (a : answer) : bool :=
  match h, a with
  | _, Failure _ => true
  | (OnStatus _ | OnDict _ | OnTuple _ | OnExportResult _), (Success j | Changed j) =>
      match j with JNone => false | _ => true end
  | (OnPopulated _ _ | OnExportFinished _ _ _ _), (Success j | Changed j) => truthy j
  | OnJson _, Success j => match j with JNone => false | _ => true end
  | OnIgnored, _ => true
  | OnCompiled _, Changed _ => false
  | _, Success _ => true
  | _, Changed _ => false
  end.

Definition is_done (s : st) (f : nat) : Prop :=
  ∃ x, futures s !! f = Some x ∧ done (f_state x) = true.

(** Either [f] is done, or a request newer than [s] is to resolve it. *)
Definition settled (f : nat) (s s' : st) : Prop :=
  is_done s' f ∨
  ∃ i r, (nextMessageId s ≤ i)%Z ∧ messageHandlers s' !! i = Some r ∧ target (r_handler r) = Some f.

Definition settles {A} (f : nat) (m : M st A) : Prop := ∀ s a s',
  ids_ok s → closed s = false → m s = (Ret a, s') → settled f s s'.

Lemma settles_raise {A} f e : settles f (raise e : M st A).
Proof. by intros s a s' _ _ [=]. Qed.

Lemma settles_set_outcome f r : settles f (set_outcome overwrites f r).
Proof.
  intros s a s' _ _ Hs. unfold set_outcome in Hs.
  apply bind_inv in Hs as (x & s1 & H1 & Hs). destruct (_ && _); [done|].
  unfold put_future, modify in Hs. simplify_eq. left. eexists. cbn. by rewrite lookup_insert_eq.
Qed.

Lemma settles_send f v o field args h : target h = Some f → settles f (send v o field args h).
Proof.
  clear rehydrate. intros Ht s a s' _ _ Hs. unfold send, mbind, M_bind, get in Hs. destruct (connected s); [|done].
  unfold put in Hs. simplify_eq. right. eexists (nextMessageId s), _. cbn.
  rewrite lookup_insert_eq. split; [lia|done].
Qed.

Lemma settles_bind {A B} f (m : M st A) (k : A → M st B) :
  concerns f m → (∀ a, settles f (k a)) → settles f (mbind k m).
Proof.
  intros Hm Hk s b s' Hok Hc Hs. apply bind_inv in Hs as (a & s1 & H1 & H2).
  specialize (Hm s Hok). rewrite H1 in Hm. cbn in Hm.
  destruct (Hk a s1 b s') as [Hd|(i & r & Hi & Hr & Ht)]; [by eapply touches_ids_ok| |done|by left|].
  - by rewrite (touches_closed _ _ _ Hm).
  - right. exists i, r. pose proof (touches_ids _ _ _ Hm). split; [lia|done].
Qed.

Lemma settles_unless_closed f (m : M st unit) : settles f m → settles f (unless_closed m).
Proof.
  intros Hm s a s' Hok Hc Hs. unfold unless_closed, mbind, M_bind, get in Hs. rewrite Hc in Hs.
  by eapply Hm.
Qed.

Ltac settles_tac := repeat first
  [ progress intros
  | lazymatch goal with
    | |- settles _ (send _ _ _ _ _) => by apply settles_send
    | |- settles _ (unless_closed _) => apply settles_unless_closed
    | |- settles _ (set_outcome _ _ _) => apply settles_set_outcome
    | |- settles _ (raise _) => apply settles_raise
    | |- settles _ (mbind _ _) => apply settles_bind; [solve [concerns_tac]|]
    | |- settles _ (match ?x with _ => _ end) => destruct x eqn:?
    end ].

Lemma settles_run_handler h a f :
  target h = Some f → conclusive h a = true → settles f (answer_with h a).
Proof.
  intros Hf Hc. destruct h; cbn in Hf; simplify_eq; destruct a; cbn in Hc; try done;
    open_handler;
    unfold onExpanded, statusChanged, resolveFutureToComputedObject, onResultCallback,
      fail_with_message, prioritizeComputation, subscribeToComputationStatus,
      triggerCompilationOnComputation, resolve_future; rewrite ?Hc; cbn [when]; settles_tac;
    try done.
Qed.
End spec.

#[export] Hint Resolve concerns_ret concerns_raise concerns_lift concerns_get concerns_when
  concerns_future_at concerns_set_outcome concerns_set_running concerns_setComputedValue
  concerns_unless_closed : concerns_db.
