(* ===== verification/PyforaClientLive.v ===== *)
(** * No future is forgotten

    Every future of an open client has a request under way that will resolve it, from
    the operation that made it to the answer that settles it. *)
From Stdlib Require Import Lia.
From stdpp Require Import base gmap sets list strings fin_maps fin_map_dom.
From S2P Require Import Prelude TypeDescription ObjectRegistry PyHeap PyObjectWalker PyforaClient PyforaClientSpec.

Set Default Proof Using "Type".

(** The two ways that a sequence ends. *)
Lemma bind_cases {S A B} (m : M S A) (k : A → M S B) s r s' :
  mbind k m s = (r, s') →
  (∃ a s1, m s = (Ret a, s1) ∧ k a s1 = (r, s')) ∨ (∃ e, m s = (Raise e, s') ∧ r = Raise e).
Proof.
  unfold mbind, M_bind. destruct (m s) as [[a|e] s1]; [eauto|].
  intros [= <- <-]. right. eauto.
Qed.

Section attended.
Context {V PS : Type} `{PureClassMapping PS} `{Interpreter}.
Context (overwrites : bool) (rehydrate : json → res V).
Abbreviation st := (client (V := V) PS).
Abbreviation answer_with := (run_handler overwrites rehydrate).

Definition is_creation (r : request) : Prop :=
  match r_handler r with OnCreated _ _ _ => True | _ => False end.

(** [f] has a request under way; [A] holds the subscriptions that were answered,
    and a creation has done its part when it is. *)
Definition live (A : gset Z) (s : st) (f : nat) : Prop :=
  ∃ i r, messageHandlers s !! i = Some r ∧ target (r_handler r) = Some f ∧ ¬ (i ∈ A ∧ is_creation r).

(** Every future that is not done is live, but for those of [O]. *)
Record attended (O : gset nat) (A : gset Z) (s : st) : Prop := {
  attended_ids : ids_ok s;
  attended_answered i : i ∈ A → (i < nextMessageId s)%Z;
  attended_futures f : f ∈ dom (futures s) → f < nextFuture s;
  attended_targets i r f : messageHandlers s !! i = Some r → target (r_handler r) = Some f →
    f ∈ dom (futures s);
  attended_live f x : closed s = false → f ∉ O → futures s !! f = Some x →
    done (f_state x) = false → live A s f }.

Lemma attended_weaken O O' A s : O ⊆ O' → attended O A s → attended O' A s.
Proof. intros HO []. split; [done..|]. intros f x Hc Hf. apply attended_live0; set_solver. Qed.

(** What touches [f] leaves the others attended. *)
Lemma attended_touches O A s s' f :
  attended ({[f]} ∪ O) A s → f ∈ dom (futures s) → touches f s s' → attended ({[f]} ∪ O) A s'.
Proof.
  intros [Hids Hans Hfut Htar Hlive] Hf Ht. pose proof (touches_ids _ _ _ Ht). split.
  - by eapply touches_ids_ok.
  - intros i Hi. specialize (Hans i Hi). lia.
  - intros g. rewrite (touches_dom _ _ _ Ht), (touches_next _ _ _ Ht). apply Hfut.
  - intros i r g Hr Hg. rewrite (touches_dom _ _ _ Ht).
    destruct (decide (nextMessageId s ≤ i)%Z) as [Hi|Hi].
    + destruct (touches_new _ _ _ Ht i r Hi Hr) as [_ [|Hh]]; [congruence|]. by rewrite Hh in Hg.
    + rewrite (touches_old _ _ _ Ht) in Hr by lia. by eapply Htar.
  - intros g x Hc Hg Hx Hd. rewrite (touches_closed _ _ _ Ht) in Hc.
    rewrite (touches_others _ _ _ Ht) in Hx by set_solver.
    destruct (Hlive g x Hc Hg Hx Hd) as (i & r & Hr & Hrt & Hsp).
    exists i, r. rewrite (touches_old _ _ _ Ht); [done|]. by eapply Hids.
Qed.

(** And if it settles [f], [f] is attended too. *)
Lemma attended_resolved O A s f :
  attended ({[f]} ∪ O) A s → (closed s = false → is_done s f ∨ live A s f) → attended O A s.
Proof.
  intros [Hids Hans Hfut Htar Hlive] Hset. split; [done..|]. intros g x Hc Hg Hx Hd.
  destruct (decide (g = f)) as [->|Hne]; [|apply (Hlive g x); [done|set_solver|done|done]].
  destruct (Hset Hc) as [(y & Hy & Hdy)|]; [congruence|done].
Qed.

Lemma attended_concerns {B} O A s s' f (m : M st B) r :
  attended ({[f]} ∪ O) A s → f ∈ dom (futures s) → concerns f m → m s = (r, s') →
  attended ({[f]} ∪ O) A s'.
Proof.
  intros Hatt Hf Hcon Hm. eapply attended_touches; [exact Hatt|done|].
  pose proof (Hcon s (attended_ids _ _ _ Hatt)) as Ht. by rewrite Hm in Ht.
Qed.

Lemma attended_settles {B} O A s s' f (m : M st B) a :
  attended ({[f]} ∪ O) A s → f ∈ dom (futures s) → concerns f m → settles f m →
  m s = (Ret a, s') → attended O A s'.
Proof.
  intros Hatt Hf Hcon Hset Hm. pose proof (attended_ids _ _ _ Hatt) as Hids.
  pose proof (Hcon s Hids) as Ht. rewrite Hm in Ht. cbn in Ht.
  apply (attended_resolved O A s' f); [by eapply attended_concerns|]. intros Hc.
  rewrite (touches_closed _ _ _ Ht) in Hc.
  destruct (Hset s a s' Hids Hc Hm) as [Hd|(i & r & Hi & Hr & Hrt)]; [by left|right].
  exists i, r. split_ands; [done|done|]. intros [HA _].
  pose proof (attended_answered _ _ _ Hatt i HA). lia.
Qed.

(** What an operation or an answer leaves behind: a future whose callbacks raised
    is forgotten. *)
Definition forgotten {B} (r : res B) (fs O : gset nat) : gset nat :=
  match r with Ret _ => O | Raise _ => fs ∪ O end.

Lemma attended_run {B} O A s s' f (m : M st B) r :
  attended ({[f]} ∪ O) A s → f ∈ dom (futures s) → concerns f m → settles f m →
  m s = (r, s') → attended (forgotten r {[f]} O) A s'.
Proof.
  intros Hatt Hf Hcon Hset Hm. destruct r; cbn; [by eapply attended_settles|].
  by eapply attended_concerns.
Qed.

(** *** Answers *)

(** What is not conclusive changes nothing. *)
Lemma inconclusive h a (s s' : st) u :
  conclusive h a = false → answer_with h a s = (Ret u, s') → s' = s.
Proof.
  intros Hc Hs. destruct h, a; cbn in Hc; try done; open_handler in Hs;
    unfold unless_closed, mbind, M_bind, get, when, statusChanged in Hs;
    try (rewrite Hc in Hs); repeat case_match; unfold mret, M_ret in *; simplify_eq; done.
Qed.

(** The server answers a subscription before it tells of a change, and tells only
    what is conclusive then; one request is never answered with nothing. *)
Definition protocol (A : gset Z) (i : Z) (r : request) (message : json) : Prop :=
  ∀ a, read_response (r_verb r) message = Ret a → is_response "SubscribeResponse" message = false →
    conclusive (r_handler r) a = true ∨ (is_creation r ∧ i ∈ A).

Definition answered (A : gset Z) (i : Z) (message : json) : gset Z :=
  if is_response "SubscribeResponse" message then {[i]} ∪ A else A.

Definition targets (r : request) : gset nat :=
  match target (r_handler r) with Some f => {[f]} | None => ∅ end.

Lemma attended_subscribed O A s i r :
  attended O A s → messageHandlers s !! i = Some r →
  attended (targets r ∪ O) ({[i]} ∪ A) s ∧ (¬ is_creation r → attended O ({[i]} ∪ A) s).
Proof.
  intros [Hids Hans Hfut Htar Hlive] Hr.
  assert (Hk : ∀ P, O ⊆ P → (∀ f, f ∉ P → target (r_handler r) = Some f → ¬ is_creation r) →
    attended P ({[i]} ∪ A) s).
  { intros P HOP HP. split; [done| |done..|].
    - intros j [->%elem_of_singleton|Hj]%elem_of_union; [by eapply Hids|auto].
    - intros f x Hc Hf Hx Hd. destruct (Hlive f x Hc ltac:(set_solver) Hx Hd) as (j & q & Hq & Ht & Hsp).
      exists j, q. split_ands; [done|done|]. intros [[->%elem_of_singleton|]%elem_of_union Hcr].
      + simplify_eq. by eapply HP.
      + by apply Hsp. }
  split; [apply Hk; [set_solver|]|intros; apply Hk; [done|]]; [|naive_solver].
  intros f Hf Ht. unfold targets in Hf. rewrite Ht in Hf. set_solver.
Qed.

Lemma attended_removed O A s i r :
  attended O A s → messageHandlers s !! i = Some r →
  let s1 := set_handlers (delete i (messageHandlers s)) (nextMessageId s) s in
  attended (targets r ∪ O) A s1 ∧ (is_creation r → i ∈ A → attended O A s1).
Proof.
  intros [Hids Hans Hfut Htar Hlive] Hr s1.
  assert (Hk : ∀ P, O ⊆ P → (∀ f, f ∉ P → target (r_handler r) = Some f → is_creation r ∧ i ∈ A) →
    attended P A s1).
  { intros P HOP HP. split; [|done..| |].
    - intros j q Hq. cbn in Hq. apply lookup_delete_Some in Hq as [_ Hq]. by apply Hids in Hq.
    - intros j q f Hq. cbn in Hq. apply lookup_delete_Some in Hq as [_ Hq]. by eapply Htar.
    - intros f x Hc Hf Hx Hd. destruct (Hlive f x Hc ltac:(set_solver) Hx Hd) as (j & q & Hq & Ht & Hsp).
      exists j, q. split_ands; [|done|done]. cbn. rewrite lookup_delete_ne; [done|].
      intros ->. simplify_eq. destruct (HP f Hf Ht). naive_solver. }
  split; [apply Hk; [set_solver|]|intros; apply Hk; [done|naive_solver]].
  intros f Hf Ht. unfold targets in Hf. rewrite Ht in Hf. set_solver.
Qed.

Lemma untargeted h a : target h = None → answer_with h a = (mret tt : M st unit).
Proof. by destruct h. Qed.

(** A creation is answered with a success or a failure. *)
Lemma started_conclusive r message a :
  read_response (r_verb r) message = Ret a → is_response "SubscribeResponse" message = true →
  is_creation r → conclusive (r_handler r) a = true.
Proof.
  destruct r as [v ? ? ? h]. unfold is_creation, is_response, read_response. cbn. intros Ha Hsub Hcr.
  destruct h; try done. destruct (item "responseType" message) as [t|]; cbn in *; [|done].
  rewrite Hsub in Ha.
  destruct v; [destruct (item "value" message)|destruct (is_str "ExecutionResult" t);
    [destruct (item "result" message)|]]; cbn in Ha; by simplify_eq.
Qed.

(** Running the handler of [r] in a state where [r] no longer counts. *)
Lemma attended_handler O A s s' r a u :
  attended (targets r ∪ O) A s → (∀ f, target (r_handler r) = Some f → f ∈ dom (futures s)) →
  (conclusive (r_handler r) a = false → u = Ret tt → attended O A s) →
  answer_with (r_handler r) a s = (u, s') → attended (forgotten u (targets r) O) A s'.
Proof.
  intros Hatt Htar Hinc Hs. unfold targets in *. destruct (target (r_handler r)) as [f|] eqn:Ht.
  - specialize (Htar f eq_refl). destruct u as [[]|e]; cbn.
    + destruct (conclusive (r_handler r) a) eqn:Hc.
      * eapply attended_settles; [exact Hatt|done|by apply concerns_run_handler|
          by apply settles_run_handler|exact Hs].
      * rewrite (inconclusive _ _ _ _ _ Hc Hs). by apply Hinc.
    + by eapply attended_concerns; [exact Hatt|done|apply concerns_run_handler|].
  - rewrite (untargeted _ a Ht) in Hs. unfold mret, M_ret in Hs. simplify_eq. cbn.
    by rewrite (left_id_L ∅ (∪)) in Hatt.
Qed.

Lemma attended_answer O A s s' i r message u :
  attended O A s → messageHandlers s !! i = Some r → protocol A i r message →
  on_message overwrites rehydrate i message s = (u, s') →
  attended (forgotten u (targets r) O) (answered A i message) s'.
Proof.
  intros Hatt Hr Hpro Hs. unfold on_message, mbind at 1, M_bind at 1, get in Hs. rewrite Hr in Hs.
  unfold answered. destruct (is_response "SubscribeResponse" message) eqn:Hsub.
  - destruct (attended_subscribed _ _ _ _ _ Hatt Hr) as [H1 H2].
    unfold mbind, M_bind, mret, M_ret, lift in Hs.
    destruct (read_response (r_verb r) message) as [a|e] eqn:Ha.
    + eapply attended_handler; [exact H1|intros f; by eapply attended_targets| |exact Hs].
      intros Hc _. apply H2. intros Hcr.
      by rewrite (started_conclusive r message a Ha Hsub Hcr) in Hc.
    + simplify_eq. exact H1.
  - destruct (attended_removed _ _ _ _ _ Hatt Hr) as [H1 H2].
    unfold mbind, M_bind, modify, lift in Hs.
    destruct (read_response (r_verb r) message) as [a|e] eqn:Ha.
    + eapply attended_handler; [exact H1|intros f; cbn; by eapply attended_targets| |exact Hs].
      intros Hc _. destruct (Hpro a Ha Hsub) as [|[Hcr HA]]; [congruence|auto].
    + simplify_eq. exact H1.
Qed.

(** *** Operations *)

Lemma attended_created O A (s : st) onCancel :
  attended O A s → attended ({[nextFuture s]} ∪ O) A (snd (create_future onCancel s)).
Proof.
  intros [Hids Hans Hfut Htar Hlive]. split; [exact Hids|exact Hans| | |].
  - intros g. cbn. rewrite dom_insert_L. intros [->%elem_of_singleton|Hg]%elem_of_union; [lia|].
    specialize (Hfut g Hg). lia.
  - intros i r g Hr Hg. cbn in *. rewrite dom_insert_L. apply elem_of_union_r. by eapply Htar.
  - intros g x Hc Hne Hg Hx. cbn in Hg. rewrite lookup_insert_ne in Hg by set_solver.
    destruct (Hlive g x Hc ltac:(set_solver) Hg Hx) as (i & r & ? & ? & ?). by exists i, r.
Qed.

Lemma concerns_with_connection {B} f (m : M st B) : concerns f m → concerns f (with_connection m).
Proof.
  intros Hm. apply concerns_bind; [apply concerns_get|]. intros s.
  destruct (executorClosed s); [apply concerns_raise|done].
Qed.

Lemma settles_with_connection {B} f (m : M st B) : settles f m → settles f (with_connection m).
Proof.
  intros Hm. apply settles_bind; [apply concerns_get|]. intros s.
  destruct (executorClosed s); [apply settles_raise|done].
Qed.

(** An operation that makes a future and sends the request for it. *)
Lemma attended_create O A s s' onCancel (body : nat → M st unit) r :
  attended O A s → (∀ f, concerns f (body f)) → (∀ f, settles f (body f)) →
  (f ← create_future onCancel; body f ;; mret f) s = (r, s') →
  attended (forgotten r {[nextFuture s]} O) A s'.
Proof.
  intros Hatt Hcon Hset Hs. pose proof (attended_created O A s onCancel Hatt) as Hatt1.
  unfold mbind, M_bind in Hs. destruct (create_future onCancel s) as [g s1] eqn:Hcr. cbn in Hatt1.
  assert (g = Ret (nextFuture s) ∧ nextFuture s ∈ dom (futures s1)) as [-> Hf].
  { unfold create_future in Hcr. injection Hcr as <- <-. cbn. split; [done|]. set_solver. }
  destruct (body (nextFuture s) s1) as [u s2] eqn:Hb.
  pose proof (attended_run O A s1 s2 _ _ u Hatt1 Hf (Hcon _) (Hset _) Hb) as Hend.
  destruct u; unfold mret, M_ret in Hs; injection Hs as <- <-; exact Hend.
Qed.

(** The operations of the executor; [submit] is made of them. *)
Inductive op :=
| Define (fuel : nat) (obj : oid)
| Call (fn : remote) (args : list remote)
| TriggerCompilation (fn : remote) (args : list remote)
| ToLocal (r : remote) (maxBytecount : json)
| ToDict (computedValue : json)
| ToTuple (computedValue : json)
| Export (valueAsString : remote) (bucketname keyname : string)
| Cancel (f : nat)
| Close.

Definition run_op (o : op) : M st unit :=
  match o with
  | Define fuel obj => _ ← define_ fuel obj; mret tt
  | Call fn args => _ ← callRemoteObject fn args; mret tt
  | TriggerCompilation fn args => _ ← triggerCompilation fn args; mret tt
  | ToLocal r maxBytecount => _ ← toLocal r maxBytecount; mret tt
  | ToDict cv => _ ← toDictOfAssignedVarsToProxyValues cv; mret tt
  | ToTuple cv => _ ← toTupleOfProxies cv; mret tt
  | Export v b k => _ ← exportS3Dataset overwrites v b k; mret tt
  | Cancel f => _ ← cancel f; mret tt
  | Close => close
  end.

Lemma attended_walker O A (s : st) w : attended O A s → attended O A (set_walker w s).
Proof. intros [Hids Hans Hfut Htar Hlive]. by split. Qed.

Lemma attended_then {B} O A (s s' : st) (m : M st B) u :
  (∀ r s', m s = (r, s') → attended (forgotten r {[nextFuture s]} O) A s') →
  (_ ← m; mret tt) s = (u, s') → attended (forgotten u {[nextFuture s]} O) A s'.
Proof.
  intros Hm Hs. unfold mbind, M_bind, mret, M_ret in Hs.
  destruct (m s) as [r s1] eqn:Hms. specialize (Hm r s1 eq_refl).
  destruct r; injection Hs as <- <-; exact Hm.
Qed.

Lemma concerns_convert f obj : concerns f (convert obj f : M st unit).
Proof.
  unfold convert. do 3 (apply concerns_bind; [auto with concerns_db|intros ?]).
  apply concerns_send. by left.
Qed.

Lemma settles_convert f obj : settles f (convert obj f : M st unit).
Proof.
  unfold convert. do 3 (apply settles_bind; [auto with concerns_db|intros ?]). by apply settles_send.
Qed.

(** Sending requests whose handlers are for [f], the last of them at least. *)
Lemma concerns_export f v b k :
  concerns f (triggerS3DatasetExport overwrites v b k f : M st unit).
Proof.
  unfold triggerS3DatasetExport, resolve_future. repeat case_match; lazymatch goal with
    | |- concerns _ (send _ _ _ _ _) => apply concerns_send; by left
    | |- _ => apply concerns_set_outcome
    end.
Qed.

Lemma settles_export f v b k :
  settles f (triggerS3DatasetExport overwrites v b k f : M st unit).
Proof.
  unfold triggerS3DatasetExport, resolve_future.
  repeat case_match; lazymatch goal with
    | |- settles _ (send _ _ _ _ _) => by apply settles_send
    | |- _ => apply settles_set_outcome
    end.
Qed.

Lemma concerns_counted f cv v o field args h :
  target h = Some f →
  concerns f (increaseRequestCount cv ;; send v o field args h : M st unit).
Proof.
  intros Hh. apply concerns_bind; [apply concerns_send; by right|].
  intros _. apply concerns_send. by left.
Qed.

Lemma settles_counted f cv v o field args h :
  target h = Some f →
  settles f (increaseRequestCount cv ;; send v o field args h : M st unit).
Proof.
  intros Hh. apply settles_bind; [apply concerns_send; by right|].
  intros _. by apply settles_send.
Qed.

Lemma touches_seq_dom {B C} f (m : M st B) (k : B → M st C) s :
  ids_ok s → f ∈ dom (futures s) → concerns f m →
  (∀ a s1, ids_ok s1 → f ∈ dom (futures s1) → touches f s1 (snd (k a s1))) →
  touches f s (snd (mbind k m s)).
Proof.
  intros Hs Hf Hm Hk. pose proof (Hm s Hs) as Ht. unfold mbind, M_bind.
  destruct (m s) as [[a|e] s1]; cbn in *; [|done]. eapply touches_trans; [exact Ht|].
  apply Hk; [by eapply touches_ids_ok|]. by rewrite (touches_dom _ _ _ Ht).
Qed.

Lemma concerns_cancel f : concerns f (cancel f : M st bool).
Proof.
  apply concerns_update. intros x s Hs Hf.
  assert (Hput : ∀ (y : future) (s : st), ids_ok s → f ∈ dom (futures s) →
    touches f s (snd ((put_future f y ;; mret true) s))).
  { intros y s0 Hs0 Hf0. apply touches_seq; [done|by apply concerns_put_future|].
    intros; apply concerns_ret. }
  destruct (f_state x); try apply touches_refl; try apply Hput; try done.
  destruct (f_onCancel x); [|by apply touches_refl].
  apply touches_seq_dom; [done..| |by intros; apply Hput].
  apply concerns_with_connection, concerns_send. by right.
Qed.

Lemma cancel_outcome f (s s' : st) r : cancel f s = (r, s') → s' = s ∨ (∃ b, r = Ret b) ∧ is_done s' f.
Proof.
  unfold cancel, future_at, with_connection, cancelComputation, send, put_future, modify, is_done,
    mbind, M_bind, get, put, lift, mret, M_ret, raise, of_option. intros Hs.
  destruct (futures s !! f) as [x|] eqn:Hx; [|simplify_eq; auto].
  repeat case_match; simplify_eq; auto; right; (split; [by eexists|]); eexists; cbn;
    by rewrite lookup_insert_eq.
Qed.

Lemma attended_cancel O A f (s s' : st) r :
  attended O A s → cancel f s = (r, s') → attended O A s'.
Proof.
  intros Hatt Hs. destruct (cancel_outcome _ _ _ _ Hs) as [->|[_ Hd]]; [done|].
  pose proof (concerns_cancel f s (attended_ids _ _ _ Hatt)) as Ht. rewrite Hs in Ht. cbn in Ht.
  apply (attended_resolved O A s' f); [|auto].
  eapply attended_touches; [by eapply attended_weaken, Hatt; set_solver| |exact Ht].
  rewrite <- (touches_dom _ _ _ Ht). destruct Hd as (x & Hx & _). by eapply elem_of_dom_2.
Qed.

Lemma attended_define O A (s s' : st) fuel obj r :
  attended O A s → define_ fuel obj s = (r, s') → attended (forgotten r {[nextFuture s]} O) A s'.
Proof.
  intros Hatt Hs.
  assert (Hraised : ∀ e (s0 : st), attended O A s0 →
    attended (forgotten (Raise e : res nat) {[nextFuture s]} O) A s0).
  { intros e s0. apply attended_weaken. cbn. set_solver. }
  apply bind_cases in Hs as [([] & s1 & Hc & Hs)|(e & Hc & ->)].
  2: { assert (s' = s) as -> by (unfold raiseIfClosed, mbind, M_bind, get, when in Hc;
         repeat case_match; unfold raise, mret, M_ret in Hc; by simplify_eq). by apply Hraised. }
  assert (s1 = s) as -> by (unfold raiseIfClosed, mbind, M_bind, get, when in Hc;
    repeat case_match; unfold raise, mret, M_ret in Hc; by simplify_eq).
  assert (Hw : ∃ w, snd (walk_for_define fuel obj s) = set_walker w s).
  { unfold walk_for_define. repeat case_match; eauto. }
  destruct Hw as [w Hw]. pose proof (attended_walker O A s w Hatt) as Hatt1.
  apply bind_cases in Hs as [(objectId & s1 & Hq & Hs)|(e & Hq & ->)];
    unfold catch, raise in Hq; destruct (walk_for_define fuel obj s) as [[q|e'] s2]; cbn in Hw; subst s2.
  - injection Hq as -> <-. by eapply attended_create in Hs; [|exact Hatt1|intros; apply concerns_convert|
      intros; apply settles_convert].
  - repeat case_match; simplify_eq.
  - done.
  - assert (s' = set_walker w s) as -> by (repeat case_match; by simplify_eq). by apply Hraised.
Qed.

Lemma attended_op O A s s' o u :
  attended O A s → run_op o s = (u, s') → attended (forgotten u {[nextFuture s]} O) A s'.
Proof.
  intros Hatt Hs. destruct o; cbn in Hs;
    try (eapply attended_then; [|exact Hs]; clear Hs; intros r0 s0 Hs).
  - by eapply attended_define.
  - apply (attended_create O A s s0 true (λ f, with_connection (createComputation fn args ForCall f)) r0 Hatt);
      [intros g..|exact Hs].
    + apply concerns_with_connection, concerns_send. by left.
    + by apply settles_with_connection, settles_send.
  - apply (attended_create O A s s0 false (λ f, with_connection (createComputation fn args ForCompilation f)) r0 Hatt);
      [intros g..|exact Hs].
    + apply concerns_with_connection, concerns_send. by left.
    + by apply settles_with_connection, settles_send.
  - destruct r as [objectId|cv e].
    + apply (attended_create O A s s0 false (λ f, with_connection (raise AttributeError)) r0 Hatt);
        [intros g..|exact Hs].
      * apply concerns_with_connection, concerns_raise.
      * apply settles_with_connection, settles_raise.
    + apply (attended_create O A s s0 false
        (λ f, with_connection (downloadComputation cv maxBytecount f)) r0 Hatt); [intros g..|exact Hs].
      * by apply concerns_with_connection, concerns_counted.
      * by apply settles_with_connection, settles_counted.
  - apply (attended_create O A s s0 false (λ f, with_connection (expandComputedValueToDict computedValue f)) r0 Hatt);
      [intros g..|exact Hs].
    + by apply concerns_with_connection, concerns_counted.
    + by apply settles_with_connection, settles_counted.
  - apply (attended_create O A s s0 false (λ f, with_connection (expandComputedValueToTuple computedValue f)) r0 Hatt);
      [intros g..|exact Hs].
    + by apply concerns_with_connection, concerns_counted.
    + by apply settles_with_connection, settles_counted.
  - destruct valueAsString as [objectId|cv e].
    + unfold exportS3Dataset, raise in Hs. injection Hs as <- <-. cbn.
      eapply attended_weaken, Hatt. set_solver.
    + apply (attended_create O A s s0 false
        (λ f, with_connection (triggerS3DatasetExport overwrites (ComputedRemote cv e) bucketname keyname f))
        r0 Hatt); [intros g..|exact Hs].
      * apply concerns_with_connection, concerns_export.
      * apply settles_with_connection, settles_export.
  - eapply attended_weaken; [|by eapply attended_cancel]. destruct r0; cbn; set_solver.
  - unfold close, modify in Hs. injection Hs as <- <-. destruct Hatt as [Hids Hans Hfut Htar Hlive].
    cbn. destruct (executorClosed s); by split.
Qed.
End attended.
