(* ===== verification/PyforaClientEnds.v ===== *)
(** * What becomes of a call

    The properties of the client: a broken connection resolves every future, a
    closed client is silent, the answers of a cluster decide a call and a download,
    and where a future is left behind. *)
From Stdlib Require Import Lia.
From stdpp Require Import base gmap sets list strings fin_maps fin_map_dom.
From S2P Require Import Prelude TypeDescription ObjectRegistry PyHeap PyObjectWalker PyObjectWalkerSamples PyforaClient PyforaClientSpec PyforaClientLive.

Set Default Proof Using "Type".

Section ends.
Context {V PS : Type} `{PureClassMapping PS} `{Interpreter}.
Context (rehydrate : json → res V).
Abbreviation st := (client (V := V) PS).

(** ** Every future is resolved *)

(** The states that operations and answers lead to: [A] holds the subscriptions that
    were answered, [O] the futures that an exception made their caller or their
    callback forget. *)
Inductive reach : gset nat → gset Z → st → Prop :=
| reach_start s : messageHandlers s = ∅ → futures s = ∅ → reach ∅ ∅ s
| reach_op O A s s' o u :
    reach O A s → run_op true o s = (u, s') → reach (forgotten u {[nextFuture s]} O) A s'
| reach_answer O A s s' i r message u :
    reach O A s → messageHandlers s !! i = Some r → protocol A i r message →
    on_message true rehydrate i message s = (u, s') →
    reach (forgotten u (targets r) O) (answered A i message) s'.

Lemma reach_attended O A s : reach O A s → attended O A s.
Proof.
  induction 1 as [s Hm Hf| |].
  - split.
    + intros i r. rewrite Hm. by rewrite lookup_empty.
    + set_solver.
    + rewrite Hf. set_solver.
    + intros i r f. rewrite Hm. by rewrite lookup_empty.
    + intros f x. rewrite Hf. by rewrite lookup_empty.
  - by eapply attended_op.
  - by eapply attended_answer.
Qed.

Definition for_compilation (h : handler) : bool :=
  match h with OnCreated _ ForCompilation _ => true | _ => false end.

Lemma set_outcome_sets f r (s : st) x :
  futures s !! f = Some x →
  set_outcome true f r s =
    (Ret tt, set_futures (<[f := Future FINISHED (Some r) (f_computedValue x) (f_onCancel x)]> (futures s))
               (nextFuture s) s).
Proof.
  intros Hx. unfold set_outcome, future_at, mbind, M_bind, get, lift, of_option. rewrite Hx. cbn.
  by rewrite andb_false_r.
Qed.

(** A failure resolves the future of an open client. *)
Lemma failure_resolves h err m f (s : st) :
  target h = Some f → for_compilation h = false → item "message" err = Ret m → closed s = false →
  ∃ r, run_handler true rehydrate h (Failure err) s = set_outcome true f r s.
Proof.
  intros Ht Hh Hm Hc. destruct h as [| ? [] ?| | | | | | | | | | | |]; cbn in Ht, Hh; simplify_eq;
    open_handler; unfold unless_closed, fail_with_message, resolve_future, mbind, M_bind, get, lift;
    rewrite ?Hc, ?Hm; by eexists.
Qed.

Definition answer_failure (c : Z * request) : M st unit :=
  a ← lift (read_response (r_verb c.2) (disconnect_failure c.1));
  run_handler true rehydrate (r_handler c.2) a.

Lemma answer_failure_is c :
  answer_failure c = run_handler true rehydrate (r_handler c.2) (Failure (disconnect_failure c.1)).
Proof. destruct c as [i [[] ? ? ? h]]; reflexivity. Qed.

Lemma answer_failures cs (s : st) :
  closed s = false →
  (∀ c, c ∈ cs → for_compilation (r_handler c.2) = false ∧
     ∀ f, target (r_handler c.2) = Some f → f ∈ dom (futures s)) →
  ∃ s', forM_ answer_failure cs s = (Ret tt, s') ∧ connected s' = connected s ∧
    messageHandlers s' = messageHandlers s ∧ dom (futures s') = dom (futures s) ∧
    ∀ f x, futures s' !! f = Some x → done (f_state x) = false →
      futures s !! f = Some x ∧ ∀ c, c ∈ cs → target (r_handler c.2) ≠ Some f.
Proof.
  revert s. induction cs as [|c cs IH]; intros s Hc Hcs.
  { exists s. split_ands; [done..|]. intros f x Hx _. split; [done|]. intros c. by rewrite elem_of_nil. }
  destruct (Hcs c ltac:(set_solver)) as [Hcomp Htar].
  rewrite forM__cons, answer_failure_is. destruct (target (r_handler c.2)) as [f|] eqn:Ht.
  - destruct (failure_resolves (r_handler c.2) (disconnect_failure c.1) _ f s Ht Hcomp eq_refl Hc) as [r Hr].
    destruct (elem_of_dom (D := gset nat) (futures s) f) as [Hdom _].
    destruct (Hdom (Htar f eq_refl)) as [y Hy]. rewrite (set_outcome_sets f r s y Hy) in Hr. step Hr.
    match goal with |- ∃ s', forM_ _ _ ?s1 = _ ∧ _ => destruct (IH s1) as (s' & Hs' & Hk & Hm & Hd & Hf) end.
    { done. }
    { intros c' Hc'. destruct (Hcs c' ltac:(set_solver)) as [? Htar']. split; [done|]. cbn.
      rewrite dom_insert_L. set_solver. }
    exists s'. cbn in *. rewrite dom_insert_L in Hd. split_ands; [done..| |].
    { apply elem_of_dom_2 in Hy. set_solver. }
    intros g x Hx Hdone. destruct (Hf g x Hx Hdone) as [Hg Hne].
    destruct (decide (g = f)) as [->|Hgf].
    + rewrite lookup_insert_eq in Hg. by simplify_eq.
    + rewrite lookup_insert_ne in Hg by done. split; [done|].
      intros c' [->|Hc']%elem_of_cons; [congruence|by apply Hne].
  - rewrite (untargeted true rehydrate _ (Failure (disconnect_failure c.1)) Ht).
    destruct (IH s Hc) as (s' & Hs' & Hk & Hm & Hd & Hf); [set_solver|]. exists s'.
    split_ands; [done..|]. intros g x Hx Hdone. destruct (Hf g x Hx Hdone) as [Hg Hne].
    split; [done|]. intros c' [->|Hc']%elem_of_cons; [congruence|by apply Hne].
Qed.


(** ** A closed client is silent *)

(** The callbacks that look at [closed] before they do anything. The others go on
    after it: what follows an export that was requested or started, the failures of
    an expansion and of an export, and the end of a compilation. *)
Definition looks (h : handler) (a : answer) : bool :=
  match h, a with
  | OnCompiled _, (Success _ | Failure _) => false
  | (OnDict _ | OnTuple _ | OnExportStarted _ | OnExportResult _), Failure _ => false
  | (OnExportRequested _ _ _ _ | OnExportStarted _), Success _ => false
  | _, _ => true
  end.

Lemma on_message_known overwrites i message (s : st) r :
  messageHandlers s !! i = Some r →
  on_message overwrites rehydrate i message s =
    (a ← lift (read_response (r_verb r) message); run_handler overwrites rehydrate (r_handler r) a)
      (if is_response "SubscribeResponse" message then s
       else set_handlers (delete i (messageHandlers s)) (nextMessageId s) s).
Proof.
  intros Hr. unfold on_message, mbind at 1, M_bind at 1, get. rewrite Hr.
  by destruct (is_response "SubscribeResponse" message).
Qed.

(** A closed client is silent: an answer to it, but for the callbacks that do not
    look, resolves no future and sends nothing; it only takes the handler away. *)
Theorem closed_is_silent overwrites i r message (s : st) :
  closed s = true → messageHandlers s !! i = Some r →
  (∀ a, read_response (r_verb r) message = Ret a → looks (r_handler r) a = true) →
  let s' := snd (on_message overwrites rehydrate i message s) in
  futures s' = futures s ∧ nextMessageId s' = nextMessageId s ∧
  messageHandlers s' = if is_response "SubscribeResponse" message then messageHandlers s
                       else delete i (messageHandlers s).
Proof.
  intros Hc Hr Hlooks.
  assert (Hsilent : ∀ h a (s1 : st), closed s1 = true → looks h a = true →
    snd (run_handler overwrites rehydrate h a s1) = s1).
  { intros h a s1 Hc1 Hl. destruct h as [|? []| | | | | | | | | | | |], a; cbn in Hl; try done; open_handler;
      unfold unless_closed, mbind, M_bind, get, lift; rewrite ?Hc1; try done;
      repeat case_match; simplify_eq; try done. }
  rewrite (on_message_known _ _ _ _ _ Hr). unfold mbind, M_bind, lift.
  destruct (read_response (r_verb r) message) as [a|e]; [rewrite Hsilent; [|by case_match|by apply Hlooks]|].
  all: cbn; by case_match.
Qed.

(** ** What decides a call *)

Definition subscribed (v : json) : json :=
  JDict [("responseType", JStr "SubscribeResponse"); ("value", v)].
Definition changed (v : json) : json :=
  JDict [("responseType", JStr "ValueChanged"); ("value", v)].
Definition executed (v : json) : json :=
  JDict [("responseType", JStr "ExecutionResult"); ("result", v)].

(** What a final status makes of the call that [cv] computes. *)
Definition outcome_of_status (cv jsonStatus : json) : res (result (V := V)) :=
  status ← item "status" jsonStatus;
  if is_str "failure" status then m ← item "message" jsonStatus; Ret (RError (PyforaError m))
  else Ret (RRemote (ComputedRemote cv (is_str "exception" status))).

Definition ask := on_message true rehydrate (V := V) (PS := PS).

(** A call, and the answers of the cluster: the computation exists, it has been
    requested, its status is not known yet, its status. *)
Definition call_and_answers (fn : remote) (args : list remote) (i : Z) (v w jsonStatus : json) : M st nat :=
  f ← callRemoteObject fn args;
  ask i (subscribed v) ;;
  ask (i + 1) (executed w) ;;
  ask (i + 2) (subscribed JNone) ;;
  ask (i + 2) (changed jsonStatus) ;;
  mret f.

(** Answering a request whose handler is known. *)
Lemma ask_subscribed i v (s : st) r :
  messageHandlers s !! i = Some r → r_verb r = Subscribe →
  ask i (subscribed v) s = run_handler true rehydrate (r_handler r) (Success v) s.
Proof. intros Hr Hv. unfold ask. rewrite (on_message_known _ _ _ _ _ Hr), Hv. reflexivity. Qed.

Lemma ask_changed i v (s : st) r :
  messageHandlers s !! i = Some r → r_verb r = Subscribe →
  ask i (changed v) s = run_handler true rehydrate (r_handler r) (Changed v)
    (set_handlers (delete i (messageHandlers s)) (nextMessageId s) s).
Proof. intros Hr Hv. unfold ask. rewrite (on_message_known _ _ _ _ _ Hr), Hv. reflexivity. Qed.

Lemma ask_executed i v (s : st) r :
  messageHandlers s !! i = Some r → r_verb r = Execute →
  ask i (executed v) s = run_handler true rehydrate (r_handler r) (Success v)
    (set_handlers (delete i (messageHandlers s)) (nextMessageId s) s).
Proof. intros Hr Hv. unfold ask. rewrite (on_message_known _ _ _ _ _ Hr), Hv. reflexivity. Qed.

Lemma statusChanged_decides f x cv j r (s : st) :
  futures s !! f = Some x → f_computedValue x = cv → outcome_of_status cv j = Ret r →
  statusChanged true f j s = set_outcome true f r s.
Proof.
  intros Hx <- Hr. unfold outcome_of_status in Hr. destruct (item "status" j) as [status|] eqn:Hst; [|done].
  destruct j; try done. cbn in Hr, Hst. unfold statusChanged.
  unfold mbind at 1, M_bind at 1, lift at 1. cbn [item]. unfold of_option in *.
  destruct (assoc "status" items) as [status'|] eqn:Ha; [|done]. injection Hst as ->.
  destruct (is_str "failure" status).
  - unfold mbind, M_bind, lift. cbn [item].
    destruct (assoc "message" items) as [m|]; cbn in Hr; simplify_eq. reflexivity.
  - unfold resolveFutureToComputedObject, future_at, resolve_future, mbind, M_bind, get, lift, of_option.
    rewrite Hx. cbn. rewrite bool_decide_true by (by eexists). cbn. rewrite Ha. cbn. by simplify_eq.
Qed.

(** What each answer does to the future of a call. *)

Definition created_request (cv : json) (f : nat) : request :=
  Request Subscribe cv "submittedComputationId" JNone (OnCreated cv ForCall f).
Definition priority_request (cv : json) (f : nat) : request :=
  Request Execute cv "increaseRequestCount" (JDict []) (OnPrioritized cv f).
Definition status_request (cv : json) (f : nat) : request :=
  Request Subscribe cv "jsonStatusRepresentation" JNone (OnStatus f).

(** [s] with the future [f] set to [x], and another request sent. *)
Definition write (f : nat) (x : future) (s : st) : st :=
  set_futures (<[f := x]> (futures s)) (nextFuture s) s.
Definition sent (r : request) (s : st) : st :=
  set_handlers (<[nextMessageId s := r]> (messageHandlers s)) (nextMessageId s + 1)%Z s.
Definition answered_for (i : Z) (s : st) : st :=
  set_handlers (delete i (messageHandlers s)) (nextMessageId s) s.

Lemma created_answer i v cv f x (s : st) :
  messageHandlers s !! i = Some (created_request cv f) → closed s = false → connected s = true →
  futures s !! f = Some x →
  ask i (subscribed v) s =
    (Ret tt, sent (priority_request cv f) (write f (Future (f_state x) (f_outcome x) cv (f_onCancel x)) s)).
Proof.
  intros Hi Hc Hk Hx. rewrite (ask_subscribed i v s _ Hi eq_refl). cbn [created_request r_handler]; open_handler.
  unfold unless_closed, setComputedValue, prioritizeComputation, send, future_at, put_future, modify,
    mbind, M_bind, get, put, lift, of_option. rewrite Hc, Hx. cbn. by rewrite Hk.
Qed.

Lemma priority_answer i w cv f x (s : st) :
  messageHandlers s !! i = Some (priority_request cv f) → closed s = false → connected s = true →
  futures s !! f = Some x → f_state x = PENDING →
  ask i (executed w) s =
    (Ret tt, sent (status_request cv f)
       (write f (Future RUNNING (f_outcome x) (f_computedValue x) (f_onCancel x)) (answered_for i s))).
Proof.
  intros Hi Hc Hk Hx Hp. rewrite (ask_executed i w s _ Hi eq_refl).
  cbn [priority_request r_handler]; open_handler.
  unfold unless_closed, set_running_or_notify_cancel, subscribeToComputationStatus, send, future_at,
    put_future, modify, mbind, M_bind, get, put, lift, of_option.
  cbn. rewrite Hc. cbn. rewrite Hx, Hp. cbn. by rewrite Hk.
Qed.

Lemma status_unknown i cv f (s : st) :
  messageHandlers s !! i = Some (status_request cv f) →
  ask i (subscribed JNone) s = (Ret tt, s).
Proof.
  intros Hi. rewrite (ask_subscribed i _ s _ Hi eq_refl). cbn [status_request r_handler]; open_handler.
  unfold unless_closed, mbind, M_bind, get. by destruct (closed s).
Qed.

Lemma status_answer i cv f x j r (s : st) :
  messageHandlers s !! i = Some (status_request cv f) → closed s = false →
  futures s !! f = Some x → outcome_of_status (f_computedValue x) j = Ret r →
  ask i (changed j) s =
    (Ret tt, write f (Future FINISHED (Some r) (f_computedValue x) (f_onCancel x)) (answered_for i s)).
Proof.
  intros Hi Hc Hx Hr. rewrite (ask_changed i j s _ Hi eq_refl). cbn [status_request r_handler]; open_handler.
  unfold unless_closed. rewrite (bind_step get _ _ _ _ eq_refl). cbn [closed set_handlers]. rewrite Hc.
  erewrite statusChanged_decides; [by apply set_outcome_sets|exact Hx|reflexivity|exact Hr].
Qed.

Lemma call_sends fn args (s : st) :
  executorClosed s = false → connected s = true →
  callRemoteObject fn args s =
    (Ret (nextFuture s), sent (created_request (pyforaComputedValue fn args) (nextFuture s))
       (snd (create_future true s))).
Proof.
  intros He Hk.
  unfold callRemoteObject, create_future, with_connection, createComputation, send, mbind, M_bind, get, put.
  cbn. rewrite He. cbn. rewrite Hk. reflexivity.
Qed.

(** C25. A call gets its outcome: after the answers of the cluster its future is
    finished, with a remote object that knows its computation and whether it is an
    exception, or with the error of a failure; of the requests that were sent only
    the subscription to the computation's id stays. *)
Theorem call_gets_its_outcome fn args v w jsonStatus r (s : st) :
  executorClosed s = false → closed s = false → connected s = true → ids_ok s →
  outcome_of_status (pyforaComputedValue fn args) jsonStatus = Ret r →
  let f := nextFuture s in
  let cv := pyforaComputedValue fn args in
  let i := nextMessageId s in
  ∃ s', call_and_answers fn args i v w jsonStatus s = (Ret f, s') ∧
    futures s' = <[f := Future FINISHED (Some r) cv true]> (futures s) ∧
    messageHandlers s' = <[i := created_request cv f]> (messageHandlers s).
Proof.
  intros He Hc Hk Hids Hr f cv i. unfold call_and_answers.
  assert (Hfree : ∀ j k, (i < j)%Z → (<[i := k]> (messageHandlers s)) !! j = None).
  { intros j k Hj. rewrite lookup_insert_ne by lia.
    destruct (messageHandlers s !! j) eqn:Hj'; [|done]. apply Hids in Hj'. unfold i in Hj. lia. }
  pose proof (call_sends fn args s He Hk) as Hq0. step Hq0.
  match type of Hq0 with _ = (_, ?s1) =>
    pose proof (created_answer i v cv f _ s1 (lookup_insert_eq _ _ _) Hc Hk (lookup_insert_eq _ _ _)) as Hq1 end.
  step Hq1.
  match type of Hq1 with _ = (_, ?s1) =>
    pose proof (priority_answer (i + 1) w cv f _ s1 (lookup_insert_eq _ _ _) Hc Hk (lookup_insert_eq _ _ _)
      eq_refl) as Hq2 end.
  step Hq2.
  match type of Hq2 with _ = (_, ?s1) =>
    assert (Hq3 : messageHandlers s1 !! (i + 2)%Z = Some (status_request cv f)) end.
  { cbn. replace (nextMessageId s + 1 + 1)%Z with (i + 2)%Z by (unfold i; lia). apply lookup_insert_eq. }
  pose proof (status_unknown (i + 2) cv f _ Hq3) as Hq4. step Hq4.
  pose proof (status_answer (i + 2) cv f _ jsonStatus r _ Hq3 Hc (lookup_insert_eq _ _ _) Hr) as Hq5.
  step Hq5. eexists. split_ands; [done| |]; cbn; rewrite ?insert_insert_eq; [done|].
  replace (nextMessageId s + 1 + 1)%Z with (i + 2)%Z by (unfold i; lia).
  change (nextMessageId s) with i.
  rewrite (delete_insert_id _ (i + 1)%Z) by (apply Hfree; lia).
  by rewrite (delete_insert_id _ (i + 2)%Z) by (apply Hfree; lia).
Qed.

(** ** What decides a download *)

(** What a client is told of each result that the cluster sends, by the keys of its
    dict: a result that has no JSON; one without [isException]; one that is too big; a
    value; an exception with its trace; one that can not be read. *)
Definition unreadable (e : exn) : result (V := V) := RError (ForaToPythonError (inr e)).

Definition downloaded (jsonResult : json) : result (V := V) :=
  match jsonResult with
  | JDict d =>
      match assoc "foraToPythonConversionError" d, truthy <$> assoc "isException" d,
            assoc "maxBytesExceeded" d, rehydrate <$> assoc "result" d, assoc "trace" d with
      | Some message, _, _, _, _ => RError (ForaToPythonError (inl message))
      | None, None, _, _, _ => unreadable KeyError
      | None, Some false, Some _, _, _ => RError ResultExceededBytecountThreshold
      | None, Some false, None, Some (Ret v), _ => RLocal v
      | None, Some true, _, Some (Ret v), Some trace => RError (ComputationError v trace)
      | None, Some _, _, Some (Raise e), _ => unreadable e
      | None, Some _, _, _, _ => unreadable KeyError
      end
  | _ => unreadable TypeError
  end.

Lemma translation_tells j (f : nat) :
  j ≠ JNone → onResultCallback true rehydrate f j = set_outcome (PS := PS) true f (downloaded j).
Proof.
  intros Hj. unfold onResultCallback, resolve_future. f_equal. destruct j as [| | | |d|vs| |]; try done.
  - unfold translate_download_result, downloaded. cbn [contains item mbind res_bind].
    destruct (assoc "foraToPythonConversionError" d) as [m|]; [done|]. cbn.
    destruct (assoc "isException" d) as [b|]; [|done]. cbn. destruct (truthy b).
    + destruct (assoc "result" d) as [x|]; [|done]. cbn. destruct (rehydrate x); [|done]. cbn.
      by destruct (assoc "trace" d).
    + destruct (assoc "maxBytesExceeded" d); [done|]. cbn.
      destruct (assoc "result" d) as [x|]; [|done]. cbn. by destruct (rehydrate x).
  - unfold translate_download_result. cbn [contains item mbind res_bind]. by destruct (existsb _ vs).
Qed.

Definition download_and_answers (cv maxBytecount : json) (i : Z) (w p jsonResult : json) : M st nat :=
  f ← downloadComputedValueResult cv maxBytecount;
  ask i (executed w) ;;
  ask (i + 1) (subscribed (JBool false)) ;;
  ask (i + 1) (changed p) ;;
  ask (i + 2) (executed jsonResult) ;;
  mret f.

Definition ignored_request (cv : json) : request :=
  Request Execute cv "increaseRequestCount" (JDict []) OnIgnored.
Definition resultComputer (cv maxBytecount : json) : json :=
  JObj "PyforaResultAsJson" (JDict [("computedValue", cv); ("maxBytecount", maxBytecount)]).
Definition populated_request (computer : json) (f : nat) : request :=
  Request Subscribe computer "resultIsPopulated" JNone (OnPopulated computer f).
Definition json_request (computer : json) (f : nat) : request :=
  Request Execute computer "getResultAsJson" (JDict []) (OnJson f).

Lemma download_sends cv maxBytecount (s : st) :
  executorClosed s = false → connected s = true →
  downloadComputedValueResult cv maxBytecount s =
    (Ret (nextFuture s), sent (populated_request (resultComputer cv maxBytecount) (nextFuture s))
       (sent (ignored_request cv) (snd (create_future false s)))).
Proof.
  intros He Hk. unfold downloadComputedValueResult, create_future, with_connection, downloadComputation,
    increaseRequestCount, send, mbind, M_bind, get, put.
  cbn. rewrite He. cbn. rewrite Hk. cbn. rewrite Hk. reflexivity.
Qed.

Lemma ignored_answer i w cv (s : st) :
  messageHandlers s !! i = Some (ignored_request cv) →
  ask i (executed w) s = (Ret tt, answered_for i s).
Proof. intros Hi. by rewrite (ask_executed i w s _ Hi eq_refl). Qed.

Lemma unpopulated_answer i computer f (s : st) :
  messageHandlers s !! i = Some (populated_request computer f) →
  ask i (subscribed (JBool false)) s = (Ret tt, s).
Proof.
  intros Hi. rewrite (ask_subscribed i _ s _ Hi eq_refl). cbn [populated_request r_handler]; open_handler.
  unfold unless_closed, mbind, M_bind, get. by destruct (closed s).
Qed.

Lemma populated_answer i p computer f (s : st) :
  messageHandlers s !! i = Some (populated_request computer f) → truthy p = true →
  closed s = false → connected s = true →
  ask i (changed p) s = (Ret tt, sent (json_request computer f) (answered_for i s)).
Proof.
  intros Hi Hp Hc Hk. rewrite (ask_changed i p s _ Hi eq_refl).
  cbn [populated_request r_handler]; open_handler.
  unfold unless_closed, send, mbind, M_bind, get, put. cbn. rewrite Hc, Hp. cbn. by rewrite Hk.
Qed.

Lemma json_answer i j computer f x (s : st) :
  messageHandlers s !! i = Some (json_request computer f) → j ≠ JNone → closed s = false →
  futures s !! f = Some x →
  ask i (executed j) s =
    (Ret tt, write f (Future FINISHED (Some (downloaded j)) (f_computedValue x) (f_onCancel x))
               (answered_for i s)).
Proof.
  intros Hi Hj Hc Hx. rewrite (ask_executed i j s _ Hi eq_refl). cbn [json_request r_handler]; open_handler.
  unfold unless_closed. rewrite (bind_step get _ _ _ _ eq_refl). cbn [closed set_handlers]. rewrite Hc.
  assert (∀ k, match j with JNone => mret tt | _ => k end = (k : M st unit)) as -> by by destruct j.
  rewrite translation_tells by done. by apply set_outcome_sets.
Qed.

(** C24. A download always ends: after the requests of a download of an open client were
    answered, whatever the cluster sends as the result (other than [None], for which the
    client goes on waiting), the future is finished, with what the table [downloaded]
    says of it: the value that it denotes, the exception with its trace, the excess of
    bytes or the failed conversion that it tells of, or, where reading it raises, an
    error made of that exception; and no handler is left. *)
Theorem download_gets_its_result cv maxBytecount w p jsonResult (s : st) :
  executorClosed s = false → closed s = false → connected s = true → ids_ok s →
  truthy p = true → jsonResult ≠ JNone →
  let f := nextFuture s in
  ∃ s', download_and_answers cv maxBytecount (nextMessageId s) w p jsonResult s = (Ret f, s') ∧
    futures s' = <[f := Future FINISHED (Some (downloaded jsonResult)) JNone false]> (futures s) ∧
    messageHandlers s' = messageHandlers s.
Proof.
  intros He Hc Hk Hids Hp Hj f. unfold download_and_answers.
  set (i := nextMessageId s). set (computer := resultComputer cv maxBytecount).
  assert (Hfree : ∀ j, (i ≤ j)%Z → messageHandlers s !! j = None).
  { intros j Hij. destruct (messageHandlers s !! j) eqn:Hj'; [|done]. apply Hids in Hj'. unfold i in Hij. lia. }
  pose proof (download_sends cv maxBytecount s He Hk) as Hq0. step Hq0.
  match type of Hq0 with _ = (_, ?s1) =>
    assert (Hi : messageHandlers s1 !! i = Some (ignored_request cv));
      [cbn; rewrite lookup_insert_ne by (unfold i; lia); apply lookup_insert_eq|];
    pose proof (ignored_answer i w cv s1 Hi) as Hq1 end.
  step Hq1.
  match type of Hq1 with _ = (_, ?s1) =>
    assert (Hi1 : messageHandlers s1 !! (i + 1)%Z = Some (populated_request computer f));
      [cbn; rewrite lookup_delete_ne by (unfold i; lia); apply lookup_insert_eq|];
    pose proof (unpopulated_answer (i + 1) computer f s1 Hi1) as Hq2;
    pose proof (populated_answer (i + 1) p computer f s1 Hi1 Hp Hc Hk) as Hq3 end.
  step Hq2. step Hq3.
  match type of Hq3 with _ = (_, ?s1) =>
    assert (Hi2 : messageHandlers s1 !! (i + 2)%Z = Some (json_request computer f));
      [cbn; replace (nextMessageId s + 1 + 1)%Z with (i + 2)%Z by (unfold i; lia); apply lookup_insert_eq|];
    pose proof (json_answer (i + 2) jsonResult computer f _ s1 Hi2 Hj Hc (lookup_insert_eq _ _ _)) as Hq4 end.
  step Hq4. eexists. split_ands; [done| |]; cbn; [by rewrite insert_insert_eq|].
  replace (nextMessageId s + 1 + 1)%Z with (i + 2)%Z by (unfold i; lia). change (nextMessageId s) with i.
  apply map_eq. intros j.
  destruct (decide (j = i + 2)%Z) as [->|]; [rewrite lookup_delete_eq; by rewrite Hfree by lia|].
  rewrite lookup_delete_ne, lookup_insert_ne by done.
  destruct (decide (j = i + 1)%Z) as [->|]; [rewrite lookup_delete_eq; by rewrite Hfree by lia|].
  rewrite lookup_delete_ne by done.
  destruct (decide (j = i)%Z) as [->|]; [rewrite lookup_delete_eq; by rewrite Hfree by lia|].
  by rewrite lookup_delete_ne, !lookup_insert_ne by done.
Qed.

(** ** Where a future is left behind *)

(** An expansion does not guard what it does with its result: when the rehydration
    of an exception raises, the future stays as it is and nothing is to resolve it. *)
Lemma expansion_error_is_lost i cv f j result e (s : st) :
  messageHandlers s !! i =
    Some (Request Subscribe cv "pyforaDictToAssignedVarsToComputedValues" JNone (OnDict f)) →
  closed s = false → (∃ b, item "isException" j = Ret b ∧ truthy b = true) →
  item "result" j = Ret result → rehydrate result = Raise e →
  ask i (changed j) s = (Raise e, answered_for i s).
Proof.
  intros Hi Hc (b & Hb & Ht) Hr He. rewrite (ask_changed i j s _ Hi eq_refl). cbn [r_handler]; open_handler.
  destruct j; try done. unfold unless_closed, onExpanded, mbind, M_bind, get, lift. cbn [closed set_handlers].
  rewrite Hc, Hb, Ht. cbn [mbind res_bind] in *. rewrite Hr. cbn. by rewrite He.
Qed.

(** The connection has no [retrieveConvertedObject]: bringing a defined object back
    raises, and leaves a future behind. *)
Lemma defined_object_is_never_local objectId maxBytecount (s : st) :
  toLocal (DefinedRemote objectId) maxBytecount s =
    (Raise AttributeError, snd (create_future false s)).
Proof.
  unfold toLocal, downloadDefinedObject, with_connection, create_future, mbind, M_bind, get, raise. cbn.
  by destruct (executorClosed s).
Qed.

(** When the creation for [_triggerCompilation] fails, its callback calls a method of
    the exception. *)
Lemma failed_compilation_raises overwrites cv f err (s : st) :
  closed s = false →
  run_handler overwrites rehydrate (OnCreated cv ForCompilation f) (Failure err) s = (Raise AttributeError, s).
Proof. intros Hc. open_handler; unfold unless_closed, mbind, M_bind, get. by rewrite Hc. Qed.
End ends.

(** ** Samples *)

Module ClientSamples.
Import WalkerSamples.
#[local] Existing Instance no_mapping.

(** The rehydration of a string raises. *)
Definition read_back (j : json) : res nat :=
  match j with JInt z => Ret (Z.to_nat z) | _ => Raise KeyError end.

Definition new_client : client (V := nat) unit :=
  Client false false true ∅ 0 ∅ 0%Z (start tt sample_heap).

Definition fn : remote := DefinedRemote 7%Z.
Definition called : client (V := nat) unit := snd (run_op true (Call fn []) new_client).

Lemma new_client_ids : ids_ok new_client.
Proof. intros i r. cbn. by rewrite lookup_empty. Qed.

Lemma called_reach : reach read_back ∅ ∅ called.
Proof.
  apply (reach_op read_back ∅ ∅ new_client called (Call fn []) (Ret tt)).
  - by apply reach_start.
  - reflexivity.
Qed.


Lemma closed_is_silent_witness :
  let s := snd (close called) in
  closed s = true ∧
  futures (snd (on_message true read_back 0 (subscribed JNone) s)) = futures s.
Proof.
  split; [reflexivity|].
  by apply (closed_is_silent read_back true 0 (created_request (pyforaComputedValue fn []) 0)
    (subscribed JNone) (snd (close called)) eq_refl eq_refl); intros a [= <-].
Defined.

Definition finished (status : string) : json := JDict [("status", JStr status)].

Lemma call_gets_its_outcome_witness :
  ∃ s', call_and_answers read_back fn [] 0 (JInt 5) JNone (finished "exception") new_client = (Ret 0, s') ∧
    futures s' = {[ 0 := Future FINISHED (Some (RRemote (ComputedRemote (pyforaComputedValue fn []) true)))
                           (pyforaComputedValue fn []) true ]} ∧
    messageHandlers s' = {[ 0%Z := created_request (pyforaComputedValue fn []) 0 ]}.
Proof.
  exact (call_gets_its_outcome read_back fn [] (JInt 5) JNone (finished "exception") _ new_client
    eq_refl eq_refl eq_refl new_client_ids eq_refl).
Defined.

Definition bad_result : json := JDict [("isException", JBool false); ("result", JStr "?")].

Lemma download_gets_its_result_witness :
  ∃ s', download_and_answers read_back (JObj "PyforaComputedValue" JNone) JNone 0 JNone (JBool true)
          bad_result new_client = (Ret 0, s') ∧
    futures s' = {[ 0 := Future FINISHED (Some (RError (ForaToPythonError (inr KeyError)))) JNone false ]} ∧
    messageHandlers s' = ∅.
Proof.
  exact (download_gets_its_result read_back (JObj "PyforaComputedValue" JNone) JNone JNone (JBool true)
    bad_result new_client eq_refl eq_refl eq_refl new_client_ids eq_refl ltac:(done)).
Defined.

(** A call that is cancelled before it runs is run all the same, and its result
    takes the place of the cancellation. *)
Lemma cancelled_call_runs :
  let m := (f ← callRemoteObject fn [];
            c ← cancel f;
            ask read_back 0 (subscribed (JInt 5)) ;;
            s1 ← get;
            ask read_back 1 (executed JNone) ;;
            ask read_back 2 (subscribed (finished "result")) ;;
            mret (c, f_state <$> futures s1 !! f, r_field <$> messageHandlers s1 !! 1%Z)) in
  fst (m new_client) = Ret (true, Some CANCELLED, Some "increaseRequestCount") ∧
  f_state <$> futures (snd (m new_client)) !! 0 = Some FINISHED.
Proof. split; reflexivity. Qed.

(** The definition of an object and the answer of the cluster. *)
Example define_sample :
  let m := (f ← define_ 20 7%N; ask read_back 0 (executed (JDict [])) ;; future_result f) in
  fst (m new_client) = Ret (RRemote (DefinedRemote 0)).
Proof. reflexivity. Qed.
End ClientSamples.
