(* ===== verification/PyforaClientTypes.v ===== *)
(** * What a future can resolve to

    The future of each operation resolves to a result of the operation's own kind,
    or to an error, whatever the cluster answers. *)
From Stdlib Require Import Lia.
From stdpp Require Import base gmap sets list strings fin_maps.
From S2P Require Import Prelude TypeDescription ObjectRegistry PyHeap PyObjectWalker PyObjectWalkerSamples PyforaClient PyforaClientSpec PyforaClientLive PyforaClientEnds.

Set Default Proof Using "Type".

(** The kinds of results, and that of each callback. *)
Inductive ty := TDefined | TComputed | TCompiled | TLocal | TDict | TTuple | TExported.

#[export] Instance ty_eq_dec : EqDecision ty.
Proof. solve_decision. Defined.

Definition handler_type (h : handler) : ty :=
  match h with
  | OnConverted _ _ => TDefined
  | OnCreated _ ForCall _ | OnPrioritized _ _ | OnStatus _ => TComputed
  | OnCreated _ ForCompilation _ | OnCompiled _ => TCompiled
  | OnPopulated _ _ | OnJson _ => TLocal
  | OnDict _ => TDict
  | OnTuple _ => TTuple
  | _ => TExported
  end.

(** The kind of the future that an operation makes. *)
Definition op_type (o : op) : option ty :=
  match o with
  | Define _ _ => Some TDefined
  | Call _ _ => Some TComputed
  | TriggerCompilation _ _ => Some TCompiled
  | ToLocal _ _ => Some TLocal
  | ToDict _ => Some TDict
  | ToTuple _ => Some TTuple
  | Export _ _ _ => Some TExported
  | Cancel _ | Close => None
  end.

Section types.
Context {V PS : Type} `{PureClassMapping PS} `{Interpreter}.
Context (overwrites : bool) (rehydrate : json → res V).
Abbreviation st := (client (V := V) PS).

(** Every kind has its errors. *)
Definition result_has (t : ty) (r : result (V := V)) : bool :=
  match r, t with
  | RError _, _ => true
  | RRemote (DefinedRemote _), TDefined => true
  | RRemote (ComputedRemote _ _), TComputed => true
  | RTrue, TCompiled => true
  | RLocal v, TLocal => true
  | RDict d, TDict => true
  | RTuple l, TTuple => true
  | RNone, TExported => true
  | _, _ => false
  end.

(** The kinds of all futures. *)
Context (Γ : nat → ty).

Definition fits (h : handler) : Prop := ∀ f, target h = Some f → Γ f = handler_type h.

Record typed (s : st) : Prop := {
  typed_handlers i r : messageHandlers s !! i = Some r → fits (r_handler r);
  typed_futures f x r : futures s !! f = Some x → f_outcome x = Some r → result_has (Γ f) r = true }.

Lemma typed_put_future f x : 
  (∀ r, f_outcome x = Some r → result_has (Γ f) r = true) → keeps typed (put_future f x).
Proof.
  intros Hx s [Hh Hf]. split; [exact Hh|]. intros g y r. cbn. destruct (decide (g = f)) as [->|Hne].
  - rewrite lookup_insert_eq. intros [= <-]. apply Hx.
  - rewrite lookup_insert_ne by done. apply Hf.
Qed.

Lemma typed_future_at {A} f (k : future → M st A) :
  (∀ x, (∀ r, f_outcome x = Some r → result_has (Γ f) r = true) → keeps typed (k x)) →
  keeps typed (mbind k (future_at f)).
Proof.
  intros Hk s Hs. unfold future_at, mbind, M_bind, get, lift, of_option.
  destruct (futures s !! f) as [x|] eqn:Hx; [|done]. apply Hk; [|done].
  intros r. by apply (typed_futures _ Hs).
Qed.

Lemma typed_set_outcome f r : result_has (Γ f) r = true → keeps typed (set_outcome overwrites f r).
Proof.
  intros Hr. apply typed_future_at. intros x _. destruct (_ && _); [apply keeps_raise|].
  apply typed_put_future. cbn. by intros ? [= <-].
Qed.

Lemma typed_set_running f : keeps typed (set_running_or_notify_cancel f).
Proof.
  apply typed_future_at. intros x Hx. destruct (f_state x); try apply keeps_raise.
  all: apply keeps_bind; [by apply typed_put_future|intros; apply keeps_ret].
Qed.

Lemma typed_setComputedValue f cv : keeps typed (setComputedValue f cv).
Proof. apply typed_future_at. intros x Hx. by apply typed_put_future. Qed.

Lemma typed_send v o field args h : fits h → keeps typed (send v o field args h).
Proof.
  intros Hh s [Hs Hf]. unfold send, mbind, M_bind, get. destruct (connected s); [|done].
  split; [|exact Hf]. intros i r. cbn. destruct (decide (i = nextMessageId s)) as [->|Hne].
  - rewrite lookup_insert_eq. by intros [= <-].
  - rewrite lookup_insert_ne by done. apply Hs.
Qed.

Lemma typed_unless_closed (m : M st unit) : keeps typed m → keeps typed (unless_closed m).
Proof. intros Hm. apply keeps_bind; [apply keeps_get|]. intros s. by destruct (closed s); [apply keeps_ret|]. Qed.

(** What the results of a download and of an expansion are. *)
Lemma translated_local j r : translate_download_result rehydrate j = Ret r → result_has TLocal r = true.
Proof.
  unfold translate_download_result. intros Hr. unfold mbind, res_bind in Hr.
  repeat case_match; by simplify_eq.
Qed.

Lemma expanded_dict j r : dict_of_proxies j = Ret r → result_has TDict r = true.
Proof. unfold dict_of_proxies, mbind, res_bind. intros Hr. repeat case_match; by simplify_eq. Qed.

Lemma expanded_tuple j r : tuple_of_proxies j = Ret r → result_has TTuple r = true.
Proof. unfold tuple_of_proxies, mbind, res_bind. intros Hr. repeat case_match; by simplify_eq. Qed.

Lemma typed_lift {A B} (q : res A) (k : A → M st B) :
  (∀ a, q = Ret a → keeps typed (k a)) → keeps typed (mbind k (lift q)).
Proof. intros Hk s Hs. unfold mbind, M_bind, lift. destruct q; [by apply Hk|done]. Qed.

Lemma typed_expanded expand f j :
  (∀ r, expand j = Ret r → result_has (Γ f) r = true) →
  keeps typed (onExpanded overwrites rehydrate expand f j).
Proof.
  intros Hex. apply typed_lift. intros b _. apply typed_lift. intros r Hr.
  apply typed_set_outcome. destruct (truthy b); [|by apply Hex].
  unfold mbind, res_bind in Hr. repeat case_match; by simplify_eq.
Qed.

Lemma typed_onResult f j :
  Γ f = TLocal → keeps typed (onResultCallback overwrites rehydrate f j).
Proof.
  intros Hf. apply typed_set_outcome. rewrite Hf.
  destruct (translate_download_result rehydrate j) eqn:Hr; [by eapply translated_local|done].
Qed.

Ltac typed_tac Hf := repeat first
  [ progress intros
  | lazymatch goal with
    | |- keeps _ (mret _) => apply keeps_ret
    | |- keeps _ (raise _) => apply keeps_raise
    | |- keeps _ (lift _) => apply keeps_lift
    | |- keeps _ (unless_closed _) => apply typed_unless_closed
    | |- keeps _ (when _ _) => apply keeps_when
    | |- keeps _ (set_running_or_notify_cancel _) => apply typed_set_running
    | |- keeps _ (setComputedValue _ _) => apply typed_setComputedValue
    | |- keeps _ (set_outcome _ _ _) => apply typed_set_outcome; by rewrite Hf
    | |- keeps _ (send _ _ _ _ _) => apply typed_send; intros ? [= <-]; exact Hf
    | |- keeps _ (onResultCallback _ _ _ _) => by apply typed_onResult
    | |- keeps _ (onExpanded _ _ _ _ _) =>
        apply typed_expanded; rewrite Hf; first [exact (expanded_dict _)|exact (expanded_tuple _)]
    | |- keeps _ (mbind _ (lift _)) => apply typed_lift
    | |- keeps _ (mbind _ (future_at _)) => apply typed_future_at
    | |- keeps _ (mbind _ _) => apply keeps_bind
    | |- keeps _ (match ?x with _ => _ end) => destruct x
    end ].

Lemma typed_run_handler h a : fits h → keeps typed (run_handler overwrites rehydrate h a).
Proof.
  intros Hh. destruct (target h) as [f|] eqn:Ht;
    [|rewrite (untargeted overwrites rehydrate h a Ht); apply keeps_ret].
  specialize (Hh f Ht).
  destruct h as [|? []| | | | | | | | | | | |]; cbn in Ht; simplify_eq; cbn in Hh; open_handler;
    unfold statusChanged, resolveFutureToComputedObject, fail_with_message,
      prioritizeComputation, subscribeToComputationStatus, triggerCompilationOnComputation, resolve_future;
    typed_tac Hh.
Qed.

(** ** Messages *)

Lemma typed_on_message i message : keeps typed (on_message overwrites rehydrate i message).
Proof.
  intros s Hs. destruct (messageHandlers s !! i) as [r|] eqn:Hr.
  - rewrite (on_message_known rehydrate overwrites i message s r Hr).
    assert (Hk : keeps typed (a ← lift (read_response (r_verb r) message);
                              run_handler overwrites rehydrate (r_handler r) a)).
    { apply typed_lift. intros a _. apply typed_run_handler. by apply (typed_handlers s Hs i). }
    apply Hk. destruct (is_response _ _); [done|]. destruct Hs as [Hh Hf]. split; [|exact Hf].
    intros j q Hq. cbn in Hq. apply lookup_delete_Some in Hq as [_ Hq]. by apply Hh in Hq.
  - unfold on_message, mbind, M_bind, get. by rewrite Hr.
Qed.

Lemma typed_on_disconnect : keeps typed (on_disconnect overwrites rehydrate).
Proof.
  intros s Hs. pose proof Hs as [Hh Hf].
  set (s1 := set_handlers ∅ (nextMessageId s) (set_flags (executorClosed s) (closed s) false s)).
  assert (Hk : keeps typed (forM_ (λ c : Z * request,
      a ← lift (read_response (r_verb c.2) (disconnect_failure c.1));
      run_handler overwrites rehydrate (r_handler c.2) a) (map_to_list (messageHandlers s)))).
  { apply keeps_forM_. intros [i r] Hir%elem_of_map_to_list. apply typed_lift. intros a _.
    apply typed_run_handler. by apply Hh in Hir. }
  apply (Hk s1). split; [|exact Hf]. intros i r. cbn. by rewrite lookup_empty.
Qed.

(** ** Operations *)

Lemma typed_with_connection {A} (m : M st A) : keeps typed m → keeps typed (with_connection m).
Proof.
  intros Hm. apply keeps_bind; [apply keeps_get|]. intros s.
  destruct (executorClosed s); [apply keeps_raise|done].
Qed.

(** An operation that makes a future and sends the request for it. *)
Lemma typed_create onCancel (body : nat → M st unit) s :
  typed s → keeps typed (body (nextFuture s)) →
  typed (snd ((f ← create_future onCancel; body f ;; mret f) s)).
Proof.
  intros [Hh Hf] Hb. unfold mbind at 1, M_bind at 1, create_future.
  assert (Hk : keeps typed (body (nextFuture s) ;; mret (nextFuture s))).
  { apply keeps_bind; [done|intros; apply keeps_ret]. }
  apply Hk. split; [exact Hh|]. intros g x r. cbn. destruct (decide (g = nextFuture s)) as [->|Hne].
  - rewrite lookup_insert_eq. by intros [= <-].
  - rewrite lookup_insert_ne by done. apply Hf.
Qed.

Lemma typed_cancel f : keeps typed (cancel f).
Proof.
  apply typed_future_at. intros x Hx. destruct (f_state x); try apply keeps_ret.
  - apply keeps_bind; [by apply typed_put_future|intros; apply keeps_ret].
  - destruct (f_onCancel x); [|apply keeps_ret].
    apply keeps_bind; [apply typed_with_connection; by apply typed_send|]. intros _.
    apply keeps_bind; [by apply typed_put_future|intros; apply keeps_ret].
Qed.

Lemma typed_then {B} s (m : M st B) : typed (snd (m s)) → typed (snd ((_ ← m; mret tt) s)).
Proof. unfold mbind, M_bind, mret, M_ret. by destruct (m s) as [[]]. Qed.

Lemma typed_define fuel obj s :
  typed s → Γ (nextFuture s) = TDefined → typed (snd (define_ fuel obj s)).
Proof.
  intros Hs Hf. unfold define_, raiseIfClosed, when.
  rewrite (bind_assoc get). rewrite (bind_step get _ s s s eq_refl).
  destruct (executorClosed s); [done|]. rewrite bind_ret_l.
  assert (Hw : ∃ w, snd (walk_for_define fuel obj s) = set_walker w s).
  { unfold walk_for_define. repeat case_match; eauto. }
  destruct Hw as [w Hw]. unfold mbind at 1, M_bind at 1, catch.
  destruct (walk_for_define fuel obj s) as [[objectId|e] s1]; cbn in Hw; subst s1.
  - apply (typed_create false (convert objectId) (set_walker w s)).
    + destruct Hs. by split.
    + cbn. unfold convert. apply keeps_bind; [apply keeps_get|]. intros s1.
      repeat (apply typed_lift; intros ? _). apply typed_send. by intros ? [= <-].
  - assert (typed (set_walker w s)) by (destruct Hs; by split). by destruct e.
Qed.

Lemma typed_counted cv v o field args h :
  fits h → keeps typed (increaseRequestCount cv ;; send v o field args h).
Proof. intros Hh. apply keeps_bind; [by apply typed_send|]. intros _. by apply typed_send. Qed.

Lemma typed_op o s :
  typed s → (∀ t, op_type o = Some t → Γ (nextFuture s) = t) → typed (snd (run_op overwrites o s)).
Proof.
  intros Hs Ht. destruct o; cbn in Ht; try specialize (Ht _ eq_refl); cbn [run_op];
    try apply typed_then.
  - by apply typed_define.
  - apply (typed_create true (λ f, with_connection (createComputation fn args ForCall f))); [done|].
    apply typed_with_connection, typed_send. by intros ? [= <-].
  - apply (typed_create false (λ f, with_connection (createComputation fn args ForCompilation f))); [done|].
    apply typed_with_connection, typed_send. by intros ? [= <-].
  - destruct r as [objectId|cv e].
    + apply (typed_create false (λ f, with_connection (raise AttributeError))); [done|].
      apply typed_with_connection, keeps_raise.
    + apply (typed_create false (λ f, with_connection (downloadComputation cv maxBytecount f))); [done|].
      apply typed_with_connection, typed_counted. by intros ? [= <-].
  - apply (typed_create false (λ f, with_connection (expandComputedValueToDict computedValue f))); [done|].
    apply typed_with_connection, typed_counted. by intros ? [= <-].
  - apply (typed_create false (λ f, with_connection (expandComputedValueToTuple computedValue f))); [done|].
    apply typed_with_connection, typed_counted. by intros ? [= <-].
  - destruct valueAsString as [objectId|cv e]; [done|].
    apply (typed_create false (λ f, with_connection
      (triggerS3DatasetExport overwrites (ComputedRemote cv e) bucketname keyname f))); [done|].
    apply typed_with_connection. unfold triggerS3DatasetExport, resolve_future.
    destruct (negb _); [by apply typed_set_outcome|]. apply typed_send. by intros ? [= <-].
  - by apply typed_cancel.
  - destruct Hs as [Hh Hf]. unfold close, modify. cbn. destruct (executorClosed s); by split.
Qed.

(** What the executor and its cluster do, in any order, [Γ] telling for each future
    what it was made for. *)
Inductive run : st → Prop :=
| run_start s : messageHandlers s = ∅ → futures s = ∅ → run s
| run_operation s o :
    run s → (∀ t, op_type o = Some t → Γ (nextFuture s) = t) → run (snd (run_op overwrites o s))
| run_message s i message : run s → run (snd (on_message overwrites rehydrate i message s))
| run_disconnect s : run s → run (snd (on_disconnect overwrites rehydrate s)).

(** C36. Results are of the right kind: whatever the cluster answers and whatever
    raises, a future that [define] made is resolved to a defined object, that of a
    call to a computed one, that of a download to a local value, and so on, or to an
    error. *)
Theorem results_are_typed s f x r :
  run s → futures s !! f = Some x → f_outcome x = Some r → result_has (Γ f) r = true.
Proof.
  intros Hrun. revert f x r. apply typed_futures.
  induction Hrun as [s Hm Hf| | |].
  - split; [intros i r; by rewrite Hm, lookup_empty|intros f x r; by rewrite Hf, lookup_empty].
  - by apply typed_op.
  - by apply typed_on_message.
  - by apply typed_on_disconnect.
Qed.
End types.

Module TypeSamples.
Import WalkerSamples ClientSamples.
#[local] Existing Instance no_mapping.

Definition kinds (f : nat) : ty := TComputed.

Lemma called_runs : run true read_back kinds (snd (on_disconnect true read_back called)).
Proof.
  apply run_disconnect. apply (run_operation _ _ _ new_client (Call fn [])).
  - by apply run_start.
  - by intros t [= <-].
Qed.

Lemma results_are_typed_witness :
  ∃ x r, futures (snd (on_disconnect true read_back called)) !! 0 = Some x ∧ f_outcome x = Some r ∧
    result_has (kinds 0) r = true.
Proof.
  eexists _, _. split; [reflexivity|]. split; [reflexivity|].
  by eapply (results_are_typed true read_back kinds _ 0 _ _ called_runs).
Defined.
End TypeSamples.
