(* ===== verification/StronglyConnectedComponents.v ===== *)
(** * Strongly connected components

    [pyfora/StronglyConnectedComponents.py], Tarjan's algorithm: each component is
    found once, and before the components that reach it. *)
From Stdlib Require Import Lia List.
From stdpp Require Import base gmap sets list strings fin_maps fin_map_dom relations.
From S2P Require Import Prelude.

Set Default Proof Using "Type".

Lemma elem_of_concat {A} (x : A) ls : x ∈ concat ls ↔ ∃ l, x ∈ l ∧ l ∈ ls.
Proof.
  induction ls as [|l ls IH]; cbn.
  - split; [by intros ?%elem_of_nil|intros (l & _ & Hl)]. by apply elem_of_nil in Hl.
  - rewrite elem_of_app, IH. setoid_rewrite elem_of_cons. naive_solver.
Qed.

Section tarjan.
Context {K : Type} `{Countable K}.

(** A dict from nodes to lists of nodes, in the order of its iteration. *)
Abbreviation graph := (list (K * list K)).

(** The nested function's variables; the top of [stack], the end of the list in the
    source, is its head. *)
Record state := State {
  indexCounter : nat;
  stack : list K;
  lowLinks : gmap K nat;
  index : gmap K nat;
  result : list (list K) }.

Definition set_lowLinks (l : gmap K nat) (s : state) : state :=
  State (indexCounter s) (stack s) l (index s) (result s).

(** [graph[node]], or nothing when [node] is not a key. *)
Definition successors (g : graph) (node : K) : list K :=
  match list_find (λ kv, kv.1 = node) g with Some (_, kv) => kv.2 | None => [] end.

(** The start of [strongConnect]. *)
Definition enter (node : K) : M state unit := modify (λ s,
  State (S (indexCounter s)) (node :: stack s) (<[node := indexCounter s]> (lowLinks s))
    (<[node := indexCounter s]> (index s)) (result s)).

Definition lowLink (node : K) : M state nat :=
  s ← get; lift (of_option KeyError (lowLinks s !! node)).
Definition index_of (node : K) : M state nat :=
  s ← get; lift (of_option KeyError (index s !! node)).

(** [lowLinks[node] = min(lowLinks[node], n)]. *)
Definition lower (node : K) (n : M state nat) : M state unit :=
  l ← lowLink node;
  n ← n;
  modify (λ s, set_lowLinks (<[node := l `min` n]> (lowLinks s)) s).

(** One turn of the loop over the successors. *)
Definition consider (strongConnect : K → M state unit) (node successor : K) : M state unit :=
  s ← get;
  if negb (bool_decide (successor ∈ dom (lowLinks s))) then
    strongConnect successor ;;
    lower node (lowLink successor)
  else when (bool_decide (successor ∈ stack s)) (lower node (index_of successor)).

(** The loop that pops the component of [node]: what it pops and what stays. *)
Fixpoint pop_until (node : K) (l : list K) : res (list K * list K) :=
  match l with
  | [] => Raise IndexError
  | successor :: l =>
      if bool_decide (successor = node) then Ret ([successor], l)
      else cl ← pop_until node l; Ret (successor :: cl.1, cl.2)
  end.

Definition finish (node : K) : M state unit :=
  l ← lowLink node;
  i ← index_of node;
  when (bool_decide (l = i))
    (s ← get;
     cl ← lift (pop_until node (stack s));
     put (State (indexCounter s) cl.2 (lowLinks s) (index s) (result s ++ [cl.1]))).

Fixpoint strongConnect (g : graph) (fuel : nat) (node : K) : M state unit :=
  match fuel with
  | O => raise RecursionLimit
  | S fuel =>
      enter node ;;
      forM_ (consider (strongConnect g fuel) node) (successors g node) ;;
      finish node
  end.

(** The nodes that the graph mentions. *)
Definition universe (g : graph) : gset K :=
  list_to_set (g.*1 ++ concat (successors g <$> g.*1)).

(** Every node is entered once, so the recursion is no deeper than there are nodes. *)
Definition stronglyConnectedComponents (g : graph) : res (list (list K)) :=
  fst ((forM_ (λ node,
          s ← get;
          when (negb (bool_decide (node ∈ dom (lowLinks s))))
            (strongConnect g (S (size (universe g))) node)) g.*1 ;;
        s ← get; mret (result s))
       (State 0 [] ∅ ∅ [])).

(** ** The reference: paths *)

Context (g : graph).

Definition edge (x y : K) : Prop := y ∈ successors g x.
Abbreviation reaches := (rtc edge).

(** Two nodes are in one component when there are paths both ways. *)
Definition mutual (x y : K) : Prop := reaches x y ∧ reaches y x.

Lemma successors_in_universe x y : edge x y → y ∈ universe g.
Proof.
  unfold edge, universe. rewrite elem_of_list_to_set, elem_of_app. intros Hy. right.
  apply elem_of_concat. exists (successors g x). split; [done|]. apply list_elem_of_fmap_2.
  unfold successors in Hy. destruct (list_find _ g) as [[i kv]|] eqn:Hf; [|by apply elem_of_nil in Hy].
  apply list_find_Some in Hf as (Hi & <- & _). apply list_elem_of_fmap_2. by eapply list_elem_of_lookup_2.
Qed.

(** A set that edges do not leave is not left by paths. *)
Lemma reaches_within (P : K → Prop) x y :
  (∀ u v, P u → edge u v → P v) → reaches x y → P x → P y.
Proof. intros HP. induction 1; eauto. Qed.

(** *** The invariant

    [G] are the nodes that [strongConnect] is working on. *)

Definition idx (s : state) (x : K) : nat := default 0 (index s !! x).
Definition visited (s : state) (x : K) : Prop := x ∈ dom (index s).

Record wf (G : gset K) (s : state) : Prop := {
  wf_dom : dom (lowLinks s) = dom (index s);
  wf_lt x : visited s x → idx s x < indexCounter s;
  wf_universe x : visited s x → x ∈ universe g;
  wf_cover x : visited s x ↔ x ∈ stack s ∨ x ∈ concat (result s);
  wf_nodup : NoDup (stack s ++ concat (result s));
  wf_gray x : x ∈ G → x ∈ stack s;
  wf_black x y : visited s x → x ∉ G → edge x y → visited s y;
  wf_closed pre c post x y : result s = pre ++ c :: post → x ∈ c → edge x y → y ∈ concat (pre ++ [c]);
  wf_mutual c x y : c ∈ result s → x ∈ c → y ∈ c ↔ mutual x y;
  wf_to_gray x : x ∈ stack s → ∃ r, r ∈ G ∧ idx s r ≤ idx s x ∧ reaches x r;
  wf_from_gray r x : r ∈ G → x ∈ stack s → idx s r ≤ idx s x → reaches r x;
  wf_nonempty c : c ∈ result s → c ≠ [] }.

(** What [strongConnect x] does to [s]. *)
Record connects (G : gset K) (x : K) (s s' : state) : Prop := {
  connects_wf : wf G s';
  connects_visits : visited s' x;
  connects_index : index s ⊆ index s';
  connects_low y : visited s y → lowLinks s' !! y = lowLinks s !! y;
  connects_new y : visited s' y → ¬ visited s y → indexCounter s ≤ idx s' y;
  connects_counter : indexCounter s ≤ indexCounter s';
  connects_stack : ∃ new m, stack s' = new ++ stack s ∧ lowLinks s' !! x = Some m ∧
    (∀ u, u ∈ new → ¬ visited s u) ∧
    (∀ u z, u ∈ new → z ∈ stack s → edge u z → m ≤ idx s z) ∧
    (indexCounter s ≤ m ∨ ∃ y, y ∈ stack s ∧ idx s y = m ∧ reaches x y) }.

(** The loop of [strongConnect x] after the successors [seen]; [s] is the state
    before it entered [x]. *)
Record in_loop (G : gset K) (x : K) (s : state) (seen : list K) (s1 : state) : Prop := {
  loop_wf : wf ({[x]} ∪ G) s1;
  loop_done y : y ∈ seen → visited s1 y;
  loop_index : index s ⊆ index s1;
  loop_self : index s1 !! x = Some (indexCounter s);
  loop_low y : visited s y → lowLinks s1 !! y = lowLinks s !! y;
  loop_new y : visited s1 y → ¬ visited s y → indexCounter s ≤ idx s1 y;
  loop_counter : indexCounter s < indexCounter s1;
  loop_stack : ∃ new m, stack s1 = new ++ x :: stack s ∧ lowLinks s1 !! x = Some m ∧
    (∀ u, u ∈ new → ¬ visited s u) ∧
    m ≤ indexCounter s ∧
    (∀ u z, u ∈ new → z ∈ stack s → edge u z → m ≤ idx s z) ∧
    (∀ z, z ∈ seen → z ∈ stack s → m ≤ idx s z) ∧
    (m = indexCounter s ∨ ∃ y, y ∈ stack s ∧ idx s y = m ∧ reaches x y) }.

Lemma idx_preserved s s' x : index s ⊆ index s' → visited s x → idx s' x = idx s x.
Proof.
  unfold visited, idx. intros Hsub [n Hn]%elem_of_dom. rewrite Hn.
  by rewrite (lookup_weaken _ _ _ _ Hn Hsub).
Qed.

Lemma visited_preserved s s' x : index s ⊆ index s' → visited s x → visited s' x.
Proof. unfold visited. intros Hsub%subseteq_dom. set_solver. Qed.

Lemma stack_visited G s x : wf G s → x ∈ stack s → visited s x.
Proof. intros Hwf Hx. apply (wf_cover _ _ Hwf). by left. Qed.

(** Only [lowLinks] changes. *)
Lemma wf_set_lowLinks G s x m :
  wf G s → visited s x → wf G (set_lowLinks (<[x := m]> (lowLinks s)) s).
Proof.
  intros [Hdom] Hx. split; try done. cbn. rewrite dom_insert_L, Hdom. unfold visited in Hx. set_solver.
Qed.

Lemma lower_runs s x l n k :
  lowLinks s !! x = Some l → n s = (Ret k, s) →
  lower x n s = (Ret tt, set_lowLinks (<[x := l `min` k]> (lowLinks s)) s).
Proof.
  intros Hl Hn. unfold lower, lowLink, modify, mbind, M_bind, get, lift, of_option. rewrite Hl. by rewrite Hn.
Qed.

(** *** The loop over the successors *)

Lemma enter_in_loop G x s :
  wf G s → ¬ visited s x → x ∈ universe g → (∀ r, r ∈ G → reaches r x) →
  in_loop G x s [] (snd (enter x s)).
Proof.
  intros Hwf Hx Hu Hr. destruct Hwf as [Hdom Hlt Huni Hcov Hnd Hgr Hbl Hcl Hmu Hto Hfrom Hne].
  assert (Hidx : index s ⊆ <[x := indexCounter s]> (index s)).
  { apply insert_subseteq. by apply not_elem_of_dom. }
  assert (Hold : ∀ y, visited s y → idx (snd (enter x s)) y = idx s y).
  { intros y Hy. by apply idx_preserved. }
  assert (Hself : idx (snd (enter x s)) x = indexCounter s).
  { unfold idx. cbn. by rewrite lookup_insert_eq. }
  assert (Hvis : ∀ y, visited (snd (enter x s)) y ↔ y = x ∨ visited s y).
  { intros y. unfold visited. cbn. rewrite dom_insert_L. set_solver. }
  assert (Hst : ∀ y, y ∈ stack s → visited s y) by (intros y Hy; apply Hcov; by left).
  split.
  - split.
    + cbn. by rewrite !dom_insert_L, Hdom.
    + intros y [->|Hy]%Hvis; [rewrite Hself; cbn; lia|]. rewrite Hold by done. specialize (Hlt y Hy). cbn. lia.
    + intros y [->|Hy]%Hvis; auto.
    + intros y. rewrite Hvis, Hcov. cbn. rewrite elem_of_cons. naive_solver.
    + cbn. apply NoDup_cons. split; [|done]. rewrite elem_of_app, <- Hcov. done.
    + intros y. cbn. rewrite elem_of_cons. set_solver.
    + intros y z [->|Hy]%Hvis Hg; [set_solver|]. intros Hyz. apply Hvis. right. apply (Hbl y); set_solver.
    + exact Hcl.
    + exact Hmu.
    + intros y Hy. cbn in Hy. apply elem_of_cons in Hy as [->|Hy].
      * exists x. split_ands; [set_solver|done|done].
      * destruct (Hto y Hy) as (r & HrG & Hle & Hry). exists r. split_ands; [set_solver| |done].
        rewrite !Hold; auto.
    + intros r y Hr' Hy Hle. cbn in Hy. apply elem_of_cons in Hy as [->|Hy].
      * apply elem_of_union in Hr' as [->%elem_of_singleton|]; auto. apply rtc_refl.
      * apply elem_of_union in Hr' as [->%elem_of_singleton|HrG].
        -- rewrite Hself, Hold in Hle by auto. specialize (Hlt y (Hst y Hy)). lia.
        -- apply Hfrom; [done|done|]. by rewrite !Hold in Hle by auto.
    + exact Hne.
  - intros y Hy. by apply elem_of_nil in Hy.
  - done.
  - cbn. apply lookup_insert_eq.
  - intros y Hy. cbn. apply lookup_insert_ne. by intros ->.
  - intros y [->|Hy]%Hvis; [|done]. by rewrite Hself.
  - cbn. lia.
  - exists [], (indexCounter s). split_ands; [done|cbn; apply lookup_insert_eq|..|by left].
    all: intros *; rewrite ?elem_of_nil; done.
Qed.

(** A successor that was visited before. *)
Lemma loop_lower G x s seen s1 w m k :
  in_loop G x s seen s1 → lowLinks s1 !! x = Some m → ¬ visited s x → visited s1 w →
  (w ∈ stack s → k ≤ idx s w) → 
  (indexCounter s ≤ k ∨ ∃ y, y ∈ stack s ∧ idx s y = k ∧ reaches x y) →
  in_loop G x s (w :: seen) (set_lowLinks (<[x := m `min` k]> (lowLinks s1)) s1).
Proof.
  intros [Hwf Hdone Hidx Hself Hlow Hnew Hcnt (new & m' & Hst & Hm & Hun & Hle & Hedge & Hds & Hwit)] Hm'
    Hx Hw Hws Hk. rewrite Hm in Hm'. injection Hm' as ->. split; try done.
  - apply wf_set_lowLinks; [done|]. unfold visited. by eapply elem_of_dom_2.
  - intros y [->|Hy]%elem_of_cons; [done|by apply Hdone].
  - intros y Hy. cbn. rewrite lookup_insert_ne by (intros ->; done). by apply Hlow.
  - exists new, (m `min` k). split_ands; [done|cbn; apply lookup_insert_eq|done|lia|..].
    + intros u z Hu Hz Huz. specialize (Hedge u z Hu Hz Huz). lia.
    + intros z [->|Hz]%elem_of_cons Hzs; [specialize (Hws Hzs); lia|]. specialize (Hds z Hz Hzs). lia.
    + destruct (decide (k < m)) as [Hkm|].
      * rewrite Nat.min_r by lia. destruct Hk as [|Hk]; [lia|by right].
      * by rewrite Nat.min_l by lia.
Qed.

Lemma loop_skip G x s seen s1 w :
  in_loop G x s seen s1 → visited s1 w → w ∉ stack s1 → in_loop G x s (w :: seen) s1.
Proof.
  intros [Hwf Hdone Hidx Hself Hlow Hnew Hcnt (new & m & Hst & Hm & Hun & Hle & Hedge & Hds & Hwit)] Hw Hws.
  split; try done.
  - intros y [->|Hy]%elem_of_cons; [done|by apply Hdone].
  - exists new, m. split_ands; try done. intros z [->|Hz]%elem_of_cons Hzs; [|by apply Hds].
    destruct Hws. rewrite Hst. apply elem_of_app. right. apply elem_of_cons; by right.
Qed.

(** A successor that was visited just now. *)
Lemma loop_connects G x s seen s1 w s2 :
  wf G s → in_loop G x s seen s1 → ¬ visited s x → ¬ visited s1 w → edge x w →
  connects ({[x]} ∪ G) w s1 s2 →
  ∃ m k, lowLinks s2 !! x = Some m ∧ lowLinks s2 !! w = Some k ∧
    in_loop G x s (w :: seen) (set_lowLinks (<[x := m `min` k]> (lowLinks s2)) s2).
Proof.
  intros Hwf0 [Hwf Hdone Hidx Hself Hlow Hnew Hcnt (new & m & Hst & Hm & Hun & Hle & Hedge & Hds & Hwit)]
    Hx Hw Hxw [Hwf2 Hw2 Hidx2 Hlow2 Hnew2 Hcnt2 (new2 & k & Hst2 & Hk & Hun2 & Hedge2 & Hwit2)].
  assert (Hx1 : visited s1 x) by (unfold visited; by eapply elem_of_dom_2).
  assert (Hold : ∀ y, visited s y → visited s1 y) by (intros y; by apply visited_preserved).
  assert (Hst1 : ∀ y, y ∈ stack s → visited s y) by (intros y; by apply (stack_visited G)).
  assert (Hidx1 : ∀ y, visited s y → idx s1 y = idx s y) by (intros y; by apply idx_preserved).
  assert (Hin : ∀ y, y ∈ stack s → y ∈ stack s1).
  { intros y Hy. rewrite Hst. apply elem_of_app. right. apply elem_of_cons; by right. }
  assert (Hselfi : idx s1 x = indexCounter s) by (unfold idx; by rewrite Hself).
  exists m, k. split_ands; [by rewrite Hlow2|done|]. split.
  - apply wf_set_lowLinks; [done|]. by eapply visited_preserved.
  - intros y [->|Hy]%elem_of_cons; [done|]. eapply visited_preserved; [exact Hidx2|by apply Hdone].
  - by etrans.
  - by eapply lookup_weaken.
  - intros y Hy. cbn. rewrite lookup_insert_ne by (intros ->; done). rewrite Hlow2 by auto. by apply Hlow.
  - intros y Hy Hys. destruct (decide (y ∈ dom (index s1))) as [Hy1|Hy1].
    + change (indexCounter s ≤ idx s2 y). rewrite (idx_preserved s1 s2) by done. by apply Hnew.
    + specialize (Hnew2 y Hy Hy1). change (indexCounter s ≤ idx s2 y). lia.
  - cbn. lia.
  - exists (new2 ++ new), (m `min` k). split_ands.
    + cbn. by rewrite Hst2, Hst, <- app_assoc.
    + cbn. apply lookup_insert_eq.
    + intros u [Hu|Hu]%elem_of_app; [|by apply Hun]. intros Hus. apply (Hun2 u Hu). auto.
    + lia.
    + intros u z [Hu|Hu]%elem_of_app Hz Huz.
      * specialize (Hedge2 u z Hu (Hin z Hz) Huz). rewrite Hidx1 in Hedge2 by auto. lia.
      * specialize (Hedge u z Hu Hz Huz). lia.
    + intros z [->|Hz]%elem_of_cons Hzs; [by destruct Hw; auto|]. specialize (Hds z Hz Hzs). lia.
    + destruct (decide (k < m)) as [Hkm|]; [|by rewrite Nat.min_l by lia]. rewrite Nat.min_r by lia.
      destruct Hwit2 as [|(y & Hy & Hyk & Hwy)]; [lia|]. rewrite Hst in Hy.
      apply elem_of_app in Hy as [Hy|[->|Hy]%elem_of_cons].
      * specialize (Hnew y (stack_visited _ s1 y Hwf ltac:(rewrite Hst; apply elem_of_app; by left)) (Hun y Hy)).
        lia.
      * lia.
      * right. exists y. split_ands; [done|by rewrite <- Hidx1 by auto|by eapply rtc_l].
Qed.

(** One turn, given that the recursive calls do what they should. *)
Lemma consider_loop (rec : K → M state unit) G x s seen s1 w :
  wf G s → in_loop G x s seen s1 → ¬ visited s x → edge x w →
  (¬ visited s1 w → ∃ s2, rec w s1 = (Ret tt, s2) ∧ connects ({[x]} ∪ G) w s1 s2) →
  ∃ s2, consider rec x w s1 = (Ret tt, s2) ∧ index s1 ⊆ index s2 ∧ in_loop G x s (w :: seen) s2.
Proof.
  intros Hwf Hloop Hx Hxw Hrec. pose proof Hloop as
    [Hwf1 Hdone Hidx Hself Hlow Hnew Hcnt (new & m & Hst & Hm & Hun & Hle & Hedge & Hds & Hwit)].
  unfold consider. rewrite (bind_step get _ s1 s1 s1 eq_refl). cbv beta.
  rewrite (wf_dom _ _ Hwf1). destruct (decide (w ∈ dom (index s1))) as [Hw|Hw].
  - rewrite bool_decide_true by done. cbn [negb]. destruct (decide (w ∈ stack s1)) as [Hws|Hws].
    + rewrite bool_decide_true by done. cbn [when]. apply elem_of_dom in Hw as [k Hk].
      rewrite (lower_runs s1 x m _ k Hm) by (unfold index_of, mbind, M_bind, get, lift, of_option; by rewrite Hk).
      eexists. split_ands; [done|done|]. apply loop_lower; try done; [by eapply elem_of_dom_2|..].
      * intros Hz. assert (Hv : visited s w) by by apply (stack_visited G).
        rewrite <- (idx_preserved s s1 w Hidx Hv). unfold idx. by rewrite Hk.
      * rewrite Hst in Hws. apply elem_of_app in Hws as [Hz|[->|Hz]%elem_of_cons].
        -- left. assert (Hv : visited s1 w) by (unfold visited; by eapply elem_of_dom_2).
           specialize (Hnew w Hv (Hun w Hz)). unfold idx in Hnew. by rewrite Hk in Hnew.
        -- left. rewrite Hself in Hk. by injection Hk as ->.
        -- right. exists w. assert (Hv : visited s w) by by apply (stack_visited G).
           split_ands; [done| |by apply rtc_once].
           rewrite <- (idx_preserved s s1 w Hidx Hv). unfold idx. by rewrite Hk.
    + rewrite bool_decide_false by done. cbn [when]. exists s1. split_ands; [done|done|].
      by apply loop_skip.
  - rewrite bool_decide_false by done. cbn [negb]. destruct (Hrec Hw) as (s2 & Hs2 & Hcon).
    step Hs2. destruct (loop_connects G x s seen s1 w s2 Hwf Hloop Hx Hw Hxw Hcon) as (m2 & k & Hm2 & Hk & Hin).
    rewrite (lower_runs s2 x m2 _ k Hm2) by (unfold lowLink, mbind, M_bind, get, lift, of_option; by rewrite Hk).
    eexists. split_ands; [done| |exact Hin]. exact (connects_index _ _ _ _ Hcon).
Qed.

(** *** The end of [strongConnect] *)

Lemma pop_until_app x (new old : list K) :
  x ∉ new → pop_until x (new ++ x :: old) = Ret (new ++ [x], old).
Proof.
  induction new as [|y new IH]; intros Hx; cbn [app pop_until].
  - by rewrite bool_decide_true.
  - rewrite bool_decide_false by set_solver. rewrite IH by set_solver. done.
Qed.

Lemma finish_runs x m i s1 :
  lowLinks s1 !! x = Some m → index s1 !! x = Some i →
  finish x s1 =
    if decide (m = i) then
      match pop_until x (stack s1) with
      | Ret cl => (Ret tt, State (indexCounter s1) cl.2 (lowLinks s1) (index s1) (result s1 ++ [cl.1]))
      | Raise e => (Raise e, s1)
      end
    else (Ret tt, s1).
Proof.
  intros Hm Hi. unfold finish.
  rewrite (bind_step _ _ s1 m s1) by (unfold lowLink, mbind, M_bind, get, lift, of_option; by rewrite Hm).
  rewrite (bind_step _ _ s1 i s1) by (unfold index_of, mbind, M_bind, get, lift, of_option; by rewrite Hi).
  destruct (decide (m = i)) as [->|Hne].
  - rewrite bool_decide_true by done. unfold when, mbind, M_bind, get, lift, put. by destruct (pop_until x (stack s1)).
  - by rewrite bool_decide_false.
Qed.

Section finished.
Context (G : gset K) (x : K) (s s1 : state) (seen : list K) (new : list K) (m : nat).
Hypothesis Hwf : wf G s.
Hypothesis Hx : ¬ visited s x.
Hypothesis Hseen : ∀ y, edge x y → y ∈ seen.
Hypothesis Hwf1 : wf ({[x]} ∪ G) s1.
Hypothesis Hvis : ∀ y, y ∈ seen → visited s1 y.
Hypothesis Hidx : index s ⊆ index s1.
Hypothesis Hself : index s1 !! x = Some (indexCounter s).
Hypothesis Hnew : ∀ y, visited s1 y → ¬ visited s y → indexCounter s ≤ idx s1 y.
Hypothesis Hst : stack s1 = new ++ x :: stack s.
Hypothesis Hun : ∀ u, u ∈ new → ¬ visited s u.
Hypothesis Hedge : ∀ u z, u ∈ new → z ∈ stack s → edge u z → m ≤ idx s z.
Hypothesis Hds : ∀ z, z ∈ seen → z ∈ stack s → m ≤ idx s z.

Lemma finished_stack_idx y : y ∈ stack s → idx s1 y = idx s y.
Proof using All. intros Hy. apply idx_preserved; [done|]. by apply (stack_visited G). Qed.

(** The successors of [x] and of finished nodes were visited. *)
Lemma finished_black y z : visited s1 y → y ∉ G → edge y z → visited s1 z.
Proof using All.
  intros Hy HG Hyz. destruct (decide (y = x)) as [->|Hne].
  - by apply Hvis, Hseen.
  - apply (wf_black _ _ Hwf1 y); [done|set_solver|done].
Qed.

(** Of the nodes above the old stack none was visited before. *)
Lemma finished_fresh u : u ∈ new ++ [x] → ¬ visited s u.
Proof using All. intros [Hu| ->%list_elem_of_singleton]%elem_of_app; [by apply Hun|done]. Qed.

Lemma finished_in_stack u : u ∈ new ++ [x] → u ∈ stack s1.
Proof using All.
  rewrite Hst. intros [Hu| ->%list_elem_of_singleton]%elem_of_app; apply elem_of_app; [by left|].
  right. apply elem_of_cons. by left.
Qed.

Lemma finished_new_edge u z : u ∈ new ++ [x] → z ∈ stack s → edge u z → m ≤ idx s z.
Proof using All. intros [Hu| ->%list_elem_of_singleton]%elem_of_app Hz; [by apply Hedge|auto]. Qed.

(** It reaches an older node: it stays on the stack. *)
Lemma finished_stays :
  lowLinks s1 !! x = Some m → (∃ y, y ∈ stack s ∧ idx s y = m ∧ reaches x y) → m < indexCounter s → wf G s1.
Proof using All.
  intros Hm (y & Hy & Hym & Hxy) Hlt. pose proof Hwf1 as [Hd1 Hl1 Hu1 Hc1 Hn1 Hg1 Hb1 Hcl1 Hmu1 Ht1 Hf1 Hne1].
  split; try done.
  - intros z Hz. apply Hg1. set_solver.
  - exact finished_black.
  - intros u Hu. destruct (Ht1 u Hu) as (r & Hr & Hle & Hur).
    destruct (decide (r ∈ G)) as [HrG|HrG]; [by exists r|].
    assert (r = x) as -> by set_solver. destruct (wf_to_gray _ _ Hwf y Hy) as (r & HrG' & Hle' & Hyr).
    exists r. assert (Hv : visited s r) by (apply (stack_visited G); [done|by apply (wf_gray _ _ Hwf)]).
    split_ands; [done| |by etrans; [|etrans]]. rewrite (idx_preserved s s1 r Hidx Hv).
    unfold idx at 1 in Hle. rewrite Hself in Hle. cbn in Hle. lia.
  - intros r u Hr. apply Hf1. set_solver.
Qed.

(** Otherwise nothing leads out of its component but to components. *)
Lemma finished_closed u z :
  m = indexCounter s → u ∈ new ++ [x] → edge u z → z ∈ new ++ [x] ∨ z ∈ concat (result s1).
Proof using All.
  intros Hm Hu Huz. assert (Hv : visited s1 u) by (apply (stack_visited _ _ _ Hwf1), finished_in_stack, Hu).
  assert (HuG : u ∉ G).
  { intros HG. apply (finished_fresh u Hu). apply (stack_visited G); [done|]. by apply (wf_gray _ _ Hwf). }
  assert (Hz : visited s1 z) by by apply (finished_black u).
  apply (wf_cover _ _ Hwf1) in Hz as [Hz|Hz]; [left|by right]. rewrite Hst in Hz.
  apply elem_of_app in Hz as [Hz|[->|Hz]%elem_of_cons]; rewrite ?elem_of_app, ?list_elem_of_singleton; auto.
  pose proof (finished_new_edge u z Hu Hz Huz).
  pose proof (wf_lt _ _ Hwf z (stack_visited _ _ _ Hwf Hz)). lia.
Qed.

Lemma result_closed u z : u ∈ concat (result s1) → edge u z → z ∈ concat (result s1).
Proof using All.
  intros (c & Hu & Hc)%elem_of_concat Huz. apply list_elem_of_split in Hc as (pre & post & Hr).
  pose proof (wf_closed _ _ Hwf1 pre c post u z Hr Hu Huz) as Hz. rewrite Hr.
  rewrite concat_app in *. cbn in *. rewrite !elem_of_app in *. rewrite elem_of_nil in Hz. naive_solver.
Qed.

Lemma finished_disjoint u : u ∈ stack s1 → u ∉ concat (result s1).
Proof using All. pose proof (wf_nodup _ _ Hwf1) as (_ & Hd & _)%NoDup_app. apply Hd. Qed.

Lemma finished_reaches_out u z :
  m = indexCounter s → u ∈ new ++ [x] → reaches u z → z ∈ new ++ [x] ∨ z ∈ concat (result s1).
Proof using All.
  intros Hm Hu Huz.
  refine (reaches_within (λ z, z ∈ new ++ [x] ∨ z ∈ concat (result s1)) u z _ Huz (or_introl Hu)).
  intros a b [Ha|Ha] Hab; [by eapply finished_closed|right; by eapply result_closed].
Qed.

Lemma finished_mutual_root u : m = indexCounter s → u ∈ new ++ [x] → mutual x u.
Proof using All.
  intros Hm Hu. pose proof (finished_in_stack u Hu) as Hus. split.
  - apply (wf_from_gray _ _ Hwf1); [set_solver|done|]. unfold idx at 1. rewrite Hself. cbn.
    apply Hnew; [by apply (stack_visited _ _ _ Hwf1)|by apply finished_fresh].
  - destruct (wf_to_gray _ _ Hwf1 u Hus) as (r & Hr & _ & Hur).
    apply elem_of_union in Hr as [->%elem_of_singleton|Hr]; [done|].
    assert (Hrs : r ∈ stack s) by by apply (wf_gray _ _ Hwf).
    destruct (finished_reaches_out u r Hm Hu Hur) as [Hin|Hin].
    + destruct (finished_fresh r Hin). by apply (stack_visited G).
    + destruct (finished_disjoint r); [|done]. rewrite Hst. apply elem_of_app. right. apply elem_of_cons. by right.
Qed.

Lemma finished_mutual a b : m = indexCounter s → a ∈ new ++ [x] → b ∈ new ++ [x] ↔ mutual a b.
Proof using All.
  intros Hm Ha. split.
  - intros Hb. destruct (finished_mutual_root a Hm Ha), (finished_mutual_root b Hm Hb). split; by etrans.
  - intros [Hab Hba]. destruct (finished_reaches_out a b Hm Ha Hab) as [|Hb]; [done|].
    destruct (finished_disjoint a (finished_in_stack a Ha)).
    refine (reaches_within (λ z, z ∈ concat (result s1)) b a _ Hba Hb). intros u v. apply result_closed.
Qed.

(** The state when the component has been popped. *)
Definition popped : state :=
  State (indexCounter s1) (stack s) (lowLinks s1) (index s1) (result s1 ++ [new ++ [x]]).

Lemma popped_concat : concat (result popped) = concat (result s1) ++ new ++ [x].
Proof. cbn. rewrite concat_app. cbn. by rewrite app_nil_r. Qed.

Lemma popped_perm : stack popped ++ concat (result popped) ≡ₚ stack s1 ++ concat (result s1).
Proof using All. rewrite popped_concat, Hst. cbn. solve_Permutation. Qed.

Lemma finished_pops : m = indexCounter s → wf G popped.
Proof using All.
  intros Hm. pose proof Hwf1 as [Hd1 Hl1 Hu1 Hc1 Hn1 Hg1 Hb1 Hcl1 Hmu1 Ht1 Hf1 Hne1]. split; try done.
  - intros y. change (visited popped y) with (visited s1 y). rewrite Hc1, <- !elem_of_app, popped_perm. done.
  - by rewrite popped_perm.
  - intros y Hy. by apply (wf_gray _ _ Hwf).
  - exact finished_black.
  - intros pre c post y z Hr Hy Hyz. cbn in Hr. destruct post as [|c' post _] using rev_ind.
    + apply app_inj_tail in Hr as [<- <-]. rewrite concat_app. cbn. rewrite app_nil_r, elem_of_app.
      destruct (finished_closed y z Hm Hy Hyz); auto.
    + rewrite app_comm_cons, app_assoc in Hr. apply app_inj_tail in Hr as [Hr _]. by eapply Hcl1.
  - intros c a b Hc Ha. cbn in Hc. apply elem_of_app in Hc as [Hc| ->%list_elem_of_singleton]; [by apply Hmu1|].
    by apply finished_mutual.
  - intros u Hu. destruct (wf_to_gray _ _ Hwf u Hu) as (r & Hr & Hle & Hur). exists r.
    change (idx popped) with (idx s1). pose proof (wf_gray _ _ Hwf r Hr).
    by rewrite !finished_stack_idx.
  - intros r u Hr Hu Hle. change (idx popped) with (idx s1) in Hle. pose proof (wf_gray _ _ Hwf r Hr).
    rewrite !finished_stack_idx in Hle by done. by apply (wf_from_gray _ _ Hwf).
  - intros c Hc. cbn in Hc. apply elem_of_app in Hc as [Hc| ->%list_elem_of_singleton]; [by apply Hne1|].
    by destruct new.
Qed.
End finished.

Lemma finish_connects G x s seen s1 :
  wf G s → ¬ visited s x → in_loop G x s seen s1 → (∀ y, edge x y → y ∈ seen) →
  ∃ s', finish x s1 = (Ret tt, s') ∧ connects G x s s'.
Proof.
  intros Hwf Hx [Hwf1 Hvis Hidx Hself Hlow Hnew Hcnt (new & m & Hst & Hm & Hun & Hle & Hedge & Hds & Hwit)] Hseen.
  rewrite (finish_runs x m _ s1 Hm Hself).
  destruct (decide (m = indexCounter s)) as [Heq|Hne].
  - assert (Hxn : x ∉ new).
    { pose proof (wf_nodup _ _ Hwf1) as Hnd. rewrite Hst, <- app_assoc in Hnd.
      apply NoDup_app in Hnd as (_ & Hd & _). intros Hin. apply (Hd x Hin). set_solver. }
    rewrite Hst, (pop_until_app x new _ Hxn). eexists. split; [reflexivity|]. split; try done.
    + exact (finished_pops G x s s1 seen new m Hwf Hx Hseen Hwf1 Hvis Hidx Hself Hnew Hst Hun Hedge Hds Heq).
    + unfold visited. by eapply elem_of_dom_2.
    + cbn. lia.
    + exists [], m. split_ands; [done|done|..|left; lia]; intros *; by rewrite elem_of_nil.
  - destruct Hwit as [|Hwit]; [done|]. exists s1. split; [done|]. split; try done.
    + eapply (finished_stays G x s s1 seen new m); try done. lia.
    + unfold visited. by eapply elem_of_dom_2.
    + lia.
    + exists (new ++ [x]), m. split_ands; [by rewrite <- app_assoc|done|..|by right].
      * intros u [Hu| ->%list_elem_of_singleton]%elem_of_app; [by apply Hun|done].
      * intros u z [Hu| ->%list_elem_of_singleton]%elem_of_app Hz Huz; [by eapply Hedge|].
        apply Hds; [by apply Hseen|done].
Qed.

Lemma loop_runs (rec : K → M state unit) G x s ws seen s1 :
  wf G s → ¬ visited s x → in_loop G x s seen s1 → (∀ w, w ∈ ws → edge x w) →
  (∀ w s', wf ({[x]} ∪ G) s' → index s ⊆ index s' → visited s' x → ¬ visited s' w → edge x w →
    ∃ s2, rec w s' = (Ret tt, s2) ∧ connects ({[x]} ∪ G) w s' s2) →
  ∃ seen' s2, forM_ (consider rec x) ws s1 = (Ret tt, s2) ∧ in_loop G x s seen' s2 ∧
    ∀ w, w ∈ seen ∨ w ∈ ws → w ∈ seen'.
Proof.
  intros Hwf Hx Hloop Hws Hrec. revert seen s1 Hloop. induction ws as [|w ws IH]; intros seen s1 Hloop.
  { exists seen, s1. split_ands; [done|done|]. intros w [|Hw]; [done|by apply elem_of_nil in Hw]. }
  destruct (consider_loop rec G x s seen s1 w Hwf Hloop Hx) as (s2 & Hs2 & _ & Hloop2).
  - apply Hws, elem_of_cons. by left.
  - intros Hw. apply Hrec; [by eapply loop_wf|by eapply loop_index| |done|apply Hws, elem_of_cons; by left].
    eapply elem_of_dom_2. by eapply loop_self.
  - assert (Hws' : ∀ w, w ∈ ws → edge x w) by (intros v Hv; apply Hws, elem_of_cons; by right).
    destruct (IH Hws' _ _ Hloop2) as (seen' & s3 & Hs3 & Hloop3 & Hin).
    exists seen', s3. split_ands; [rewrite forM__cons; by step Hs2|done|].
    intros v Hv. apply Hin. rewrite elem_of_cons in Hv |- *. naive_solver.
Qed.

Lemma fewer_left (u d d' : gset K) x :
  d ⊆ d' → x ∈ d' → x ∉ d → x ∈ u → size (u ∖ d') < size (u ∖ d).
Proof. intros. apply subset_size. split; [set_solver|]. intros Hsub. set_solver. Qed.

(** [strongConnect] does its work, given fuel for the nodes not visited. *)
Lemma strongConnect_connects fuel G x s :
  wf G s → ¬ visited s x → x ∈ universe g → (∀ r, r ∈ G → reaches r x) →
  size (universe g ∖ dom (index s)) < fuel →
  ∃ s', strongConnect g fuel x s = (Ret tt, s') ∧ connects G x s s'.
Proof.
  revert G x s. induction fuel as [|fuel IH]; intros G x s Hwf Hx Hu Hr Hfuel; [lia|].
  cbn [strongConnect]. rewrite (bind_step _ _ s tt (snd (enter x s)) eq_refl).
  destruct (loop_runs (strongConnect g fuel) G x s (successors g x) [] _ Hwf Hx
    (enter_in_loop G x s Hwf Hx Hu Hr)) as (seen & s2 & Hs2 & Hloop & Hseen); [done| |].
  - intros w s' Hwf' Hidx Hx' Hw Hxw. apply IH; [done|done|by eapply successors_in_universe| |].
    + intros r [->%elem_of_singleton|HrG]%elem_of_union; [by apply rtc_once|]. eapply rtc_r; eauto.
    + eapply Nat.lt_le_trans; [|apply Nat.lt_succ_r, Hfuel].
      apply (fewer_left _ _ _ x); [by apply subseteq_dom|done..].
  - step Hs2. eapply finish_connects; [done|done|exact Hloop|]. intros y Hy. apply Hseen. by right.
Qed.

(** ** The components *)

Lemma wf_start : wf ∅ (State 0 [] ∅ ∅ []).
Proof.
  assert (Hno : ∀ x, ¬ visited (State 0 [] ∅ ∅ []) x).
  { intros x. unfold visited. cbn. set_solver. }
  split; try (intros x Hx; by destruct (Hno x)); try (intros *; cbn; set_solver).
  - apply NoDup_nil_2.
  - intros pre c post x y Hnil. by destruct pre.
Qed.

Lemma all_nodes_visited nodes s :
  wf ∅ s → (∀ x, x ∈ nodes → x ∈ universe g) →
  ∃ s', forM_ (λ node,
          s ← get;
          when (negb (bool_decide (node ∈ dom (lowLinks s))))
            (strongConnect g (S (size (universe g))) node)) nodes s = (Ret tt, s') ∧
    wf ∅ s' ∧ index s ⊆ index s' ∧ ∀ x, x ∈ nodes → visited s' x.
Proof.
  revert s. induction nodes as [|x nodes IH]; intros s Hwf Hu.
  { exists s. split_ands; [done|done|done|]. intros x Hx. by apply elem_of_nil in Hx. }
  assert (Hone : ∃ s1, (s ← get; when (negb (bool_decide (x ∈ dom (lowLinks s))))
      (strongConnect g (S (size (universe g))) x)) s = (Ret tt, s1) ∧ wf ∅ s1 ∧ index s ⊆ index s1 ∧ visited s1 x).
  { rewrite (bind_step get _ s s s eq_refl). cbv beta. rewrite (wf_dom _ _ Hwf).
    destruct (decide (x ∈ dom (index s))) as [Hx|Hx].
    - rewrite bool_decide_true by done. by exists s.
    - rewrite bool_decide_false by done. cbn [negb when].
      destruct (strongConnect_connects (S (size (universe g))) ∅ x s Hwf Hx) as (s1 & Hs1 & []);
        [apply Hu, elem_of_cons; by left|intros r Hr; by apply elem_of_empty in Hr| |by exists s1].
      apply Nat.lt_succ_r, subseteq_size, subseteq_difference_l. done. }
  destruct Hone as (s1 & Hs1 & Hwf1 & Hsub & Hx1).
  assert (Hu' : ∀ y, y ∈ nodes → y ∈ universe g) by (intros y Hy; apply Hu, elem_of_cons; by right).
  destruct (IH s1 Hwf1 Hu') as (s2 & Hs2 & Hwf2 & Hsub2 & Hall).
  exists s2. split_ands; [rewrite forM__cons; by step Hs1|done|by etrans|].
  intros y [->|Hy]%elem_of_cons; [by eapply visited_preserved|auto].
Qed.

(** What the components of a graph are. *)
Record components_of (components : list (list K)) : Prop := {
  every_node x : x ∈ concat components ↔ x ∈ universe g;
  only_once : NoDup (concat components);
  component_mutual c x y : c ∈ components → x ∈ c → y ∈ c ↔ mutual x y;
  no_later_edge pre c post x y :
    components = pre ++ c :: post → x ∈ c → edge x y → y ∈ concat (pre ++ [c]);
  nonempty c : c ∈ components → c ≠ [] }.

Lemma components_found :
  ∃ components, stronglyConnectedComponents g = Ret components ∧ components_of components.
Proof.
  destruct (all_nodes_visited g.*1 (State 0 [] ∅ ∅ []) wf_start) as (s & Hs & Hwf & _ & Hall).
  { intros x Hx. apply elem_of_list_to_set, elem_of_app. by left. }
  assert (Hempty : stack s = []).
  { destruct (stack s) as [|x l] eqn:Hst; [done|].
    destruct (wf_to_gray _ _ Hwf x) as (r & Hr & _); [rewrite Hst; set_solver|set_solver]. }
  exists (result s). split; [unfold stronglyConnectedComponents; by rewrite (bind_step _ _ _ _ _ Hs)|]. split.
  - intros x. split.
    + intros Hx. apply (wf_universe _ _ Hwf), (wf_cover _ _ Hwf). by right.
    + intros Hx. assert (Hv : visited s x).
      { unfold universe in Hx. apply elem_of_list_to_set, elem_of_app in Hx as [Hx|Hx]; [by apply Hall|].
        apply elem_of_concat in Hx as (l & Hx & Hl). apply list_elem_of_fmap_1 in Hl as (k & -> & Hk).
        by apply (wf_black _ _ Hwf k); [apply Hall|set_solver|]. }
      apply (wf_cover _ _ Hwf) in Hv as [Hv|Hv]; [|done]. rewrite Hempty in Hv. by apply elem_of_nil in Hv.
  - pose proof (wf_nodup _ _ Hwf) as Hnd. by rewrite Hempty in Hnd.
  - intros c x y. apply (wf_mutual _ _ Hwf).
  - intros pre c post x y. apply (wf_closed _ _ Hwf).
  - intros c. apply (wf_nonempty _ _ Hwf).
Qed.

(** C10. The components are the classes of mutual reachability, in the order in which
    they depend on each other: the function returns, every node that the graph
    mentions is in exactly one component and nothing else is, no component is empty, two nodes are in one
    component exactly when there are paths both ways between them, and no edge leads
    from a component to a later one. *)
Theorem components_exact :
  ∃ components, stronglyConnectedComponents g = Ret components ∧
    (∀ c, c ∈ components → c ≠ []) ∧
    (∀ x, x ∈ concat components ↔ x ∈ universe g) ∧ NoDup (concat components) ∧
    (∀ c x y, c ∈ components → x ∈ c → y ∈ c ↔ mutual x y) ∧
    (∀ pre c post x y, components = pre ++ c :: post → x ∈ c → edge x y → y ∈ concat (pre ++ [c])).
Proof. destruct components_found as (components & Hc & []). by exists components. Qed.
End tarjan.

Module SccSamples.
(** Two cycles, one depending on the other, and a node that is no key. *)
Definition two_cycles : list (nat * list nat) := [(1, [2; 3]); (2, [1]); (3, [4]); (4, [3; 5])].

Example two_cycles_components :
  stronglyConnectedComponents two_cycles = Ret [[5]; [4; 3]; [2; 1]].
Proof. reflexivity. Qed.
End SccSamples.
