(* ===== verification/NativeConverterAdaptor.v ===== *)
(** * Building values of the cluster
    ([ufora/FORA/python/PurePython/NativeConverterAdaptor.py])

    Functions, classes, their instances and with blocks become expressions of the
    native language, whose free variables are bound to values that were converted
    before. The native module itself ([ufora.native.FORA], C++) and the syntax trees
    it reads are an interface. *)
From Stdlib Require Import Lia Ascii.
From stdpp Require Import base gmap sets list strings fin_maps sorting.
From S2P Require Import Prelude PyAst AstUtil PyStrings TypeDescription ObjectRegistry.

(** ** The native module

    [V] are the values in [convertedValues]: native values, computed values and
    Python strings; [E] are expressions, [P] and [A] modules and statements of native
    syntax trees. *)
Class ForaNative (V E P A : Type) := {
  (* values *)
  Symbol_unconvertible : V;
  Symbol_CreateInstance : V;
  of_pyval : pyval → V;
  isImplValContainer : V → bool;
  isSymbol : V → res bool;
  hash : V → string;
  getObjectMember : V → string → res (option V);
  createNamedTuple : list V → list string → V;
  simulateApply : list V → res (option V);
  createList : list V → res V;
  createTuple : list V → res V;
  createDict : list (V * V) → res V;
  createListOfPrimitives : list pyval → res V;
  convertConstant : prim → res V;
  (* expressions *)
  mentionedVariables : E → list string;
  freeVariables : E → list string;
  expression_hash : E → string;
  rebindFreeVariableMemberAccessChain : E → list string → string → E;
  replaceUnconvertiblesWithThrowExprs : E → list string → E;
  empytObjectExpression : E;
  prependMemberToCreateObjectExpression : E → string → E → E;
  evaluateRootLevelCreateObjectExpression : E → list (string * V) → bool → res V;
  computedValue_call : E → list V → V;
  (* syntax trees, which the native converter may refuse *)
  parsePython : string → res node;
  parseStringToPythonAst : string → res P;
  functionClassOrLambdaDefAtLine : P → Z → res (option A);
  isFunctionDef : A → bool;
  isLambda : A → bool;
  isClassDef : A → bool;
  convertPythonAstToForaPythonAst : node → string → res A;
  convertPythonAstFunctionDefToFora : A → string → option E;
  convertPythonAstLambdaToFora : A → string → option E;
  convertPythonAstClassDefToFora : A → string → list (list string) → option E;
  convertPythonAstWithBlockFunctionDefToFora : A → string → list string → option E }.

(** ** Dictionaries in the order of their iteration, strings *)

(** [d[k] = v]. *)
Fixpoint dict_set {K A} `{EqDecision K} (k : K) (v : A) (d : list (K * A)) : list (K * A) :=
  match d with
  | [] => [(k, v)]
  | (k', v') :: d => if decide (k' = k) then (k, v) :: d else (k', v') :: dict_set k v d
  end.

Definition dict_get {K A} `{EqDecision K} (k : K) (d : list (K * A)) : option A :=
  snd <$> List.find (λ x, bool_decide (x.1 = k)) d.

(** [s.split('.')]. *)
Fixpoint split_dots (s : string) : list string :=
  match s with
  | EmptyString => [""]
  | String c s =>
      match split_dots s with
      | w :: ws => if Ascii.eqb c "." then "" :: w :: ws else String c w :: ws
      | [] => []
      end
  end.

(** [Expression.freshVarname]: the search ends after as many names as there are used
    ones. *)
Fixpoint numbered_name (startingName : string) (namesUsed : list string) (fuel : nat) (ix : Z) :
    res string :=
  match fuel with
  | O => Raise RecursionLimit
  | S fuel =>
      let name := startingName +:+ "_" +:+ PyStr.str ix in
      if bool_decide (name ∉ namesUsed) then Ret name
      else numbered_name startingName namesUsed fuel (ix + 1)%Z
  end.

Definition freshVarname (startingName : string) (namesUsed : list string) : res string :=
  if bool_decide (startingName ∉ namesUsed) then Ret startingName
  else numbered_name startingName namesUsed (S (length namesUsed)) 1%Z.

(** ** What an object definition has *)

Abbreviation definitions := (gmap Z definition).

Definition definition_of (d : definitions) (objectId : Z) : res definition :=
  of_option KeyError (d !! objectId).

(** [.text] and [.path] of a definition. *)
Definition file_text (d : definition) : res string :=
  match d with File _ text => Ret text | _ => Raise AttributeError end.
Definition file_path (d : definition) : res string :=
  match d with File path _ => Ret path | _ => Raise AttributeError end.

Definition sourceFileId_of (d : definition) : res Z :=
  match d with
  | FunctionDefinition f _ _ | ClassDefinition f _ _ _ | WithBlockDescription _ f _ => Ret f
  | _ => Raise AttributeError
  end.
Definition lineNumber_of (d : definition) : res Z :=
  match d with
  | FunctionDefinition _ l _ | ClassDefinition _ l _ _ | WithBlockDescription _ _ l => Ret l
  | _ => Raise AttributeError
  end.
Definition chains_of (d : definition) : res scope :=
  match d with
  | FunctionDefinition _ _ s | ClassDefinition _ _ s _ | WithBlockDescription s _ _ => Ret s
  | _ => Raise AttributeError
  end.

Section adaptor.
Context {V E P A : Type} `{EqDecision V} {FN : ForaNative V E P A}.

(** The converter's state: what was converted, the components that were, and the
    values that expressions were bound to first. *)
Record converter := Converter {
  convertedValues : gmap Z V;
  convertedComponents : gset (list Z);
  boundExpressions : gmap string (list string) }.

Definition set_value (objectId : Z) (v : V) : M converter unit := modify (λ s,
  Converter (<[objectId := v]> (convertedValues s)) (convertedComponents s) (boundExpressions s)).
Definition set_bound (h : string) (bound : list string) : M converter unit := modify (λ s,
  Converter (convertedValues s) (convertedComponents s) (<[h := bound]> (boundExpressions s))).
Definition add_component (c : list Z) : M converter unit := modify (λ s,
  Converter (convertedValues s) ({[c]} ∪ convertedComponents s) (boundExpressions s)).

(** [self.convertedValues[objectId]]. *)
Definition converted (objectId : Z) : M converter V :=
  s ← get; lift (of_option KeyError (convertedValues s !! objectId)).

(** ** Binding and evaluating expressions *)

(** [_reduceFreeVariableMemberAccessChains]. *)
Fixpoint reduceFreeVariableMemberAccessChains (expr : E) (chains renamed : list (string * V)) :
    res (E * list (string * V)) :=
  match chains with
  | [] => Ret (expr, renamed)
  | (chain, implval) :: chains =>
      let parts := split_dots chain in
      match parts with
      | [name] => reduceFreeVariableMemberAccessChains expr chains (dict_set name implval renamed)
      | _ =>
          newName ← freshVarname (String.concat "_" parts) (mentionedVariables expr);
          reduceFreeVariableMemberAccessChains (rebindFreeVariableMemberAccessChain expr parts newName)
            chains (dict_set newName implval renamed)
      end
  end.

(** [_handleUnconvertibleValuesInExpression]. *)
Definition handleUnconvertibleValuesInExpression (expr : E) (renamed : list (string * V)) : E :=
  replaceUnconvertiblesWithThrowExprs expr
    (filter (λ kv : string * V, kv.2 = Symbol_unconvertible) renamed).*1.

Definition sorted_items (renamed : list (string * V)) : list (string * V) :=
  merge_sort (λ a b : string * V, String.le a.1 b.1) renamed.

(** [_specializeFreeVariablesAndEvaluate]: the first binding of an expression is
    compiled into it, other ones are passed to it. *)
Definition specializeFreeVariablesAndEvaluate (expr : E) (renamed : list (string * V)) :
    M converter V :=
  if forallb (λ kv, isImplValContainer kv.2) renamed then
    (if negb (bool_decide (filter (λ x, x ∉ renamed.*1) (freeVariables expr) = [])) then
       raise PythonToForaConversionError else mret tt) ;;
    let boundValues := (λ kv, hash kv.2) <$> sorted_items renamed in
    s ← get;
    shouldMapArgsAsConstants ←
      match boundExpressions s !! expression_hash expr with
      | None => set_bound (expression_hash expr) boundValues ;; mret true
      | Some bound => mret (bool_decide (boundValues = bound))
      end;
    lift (evaluateRootLevelCreateObjectExpression expr renamed shouldMapArgsAsConstants)
  else
    args ← lift (mapR (λ f, of_option KeyError (dict_get f renamed)) (freeVariables expr));
    mret (computedValue_call expr args).

(** [_specializeFreeVariableMemberAccessChainsAndEvaluate]. *)
Definition specializeFreeVariableMemberAccessChainsAndEvaluate (expr : E)
    (chains : list (string * V)) : M converter V :=
  reduced ← lift (reduceFreeVariableMemberAccessChains expr chains []);
  specializeFreeVariablesAndEvaluate
    (handleUnconvertibleValuesInExpression reduced.1 reduced.2) reduced.2.

(** The values of the chains of a definition that [keep] selects, in a dict. *)
Fixpoint values_of_chains (keep : Z → bool) (chains : scope) (renamed : list (string * V)) :
    M converter (list (string * V)) :=
  match chains with
  | [] => mret renamed
  | (chain, dependentId) :: chains =>
      if keep dependentId then
        v ← converted dependentId;
        values_of_chains keep chains (dict_set chain v renamed)
      else values_of_chains keep chains renamed
  end.

Section definitions.
Context (objectIdToObjectDefinition : definitions).
Abbreviation the_definition := (definition_of objectIdToObjectDefinition).

(** ** Expressions of functions, classes and with blocks *)

(** [_convertClassOrFunctionDefinitionToNativePyAst]. *)
Definition convertClassOrFunctionDefinitionToNativePyAst (d : definition) : res A :=
  sourceFileId ← sourceFileId_of d;
  file ← the_definition sourceFileId;
  sourceText ← file_text file;
  pyAst ← parseStringToPythonAst sourceText;
  lineNumber ← lineNumber_of d;
  found ← functionClassOrLambdaDefAtLine pyAst lineNumber;
  of_option AssertionError found.

(** [objectIdToFreeVar[baseId].split('.')] of each base: of several chains to one
    object the last counts. *)
Definition baseClasses (chains : scope) (baseClassIds : list Z) : res (list (list string)) :=
  mapR (λ baseId, split_dots <$> of_option KeyError
          (dict_get baseId ((λ kv, (kv.2, kv.1)) <$> reverse chains))) baseClassIds.

(** [_convertPyClassOrFunctionDefinitionToForaFunctionExpression]. *)
Definition convertPyClassOrFunctionDefinitionToForaFunctionExpression (d : definition) : res E :=
  pyAst ← convertClassOrFunctionDefinitionToNativePyAst d;
  sourceFileId ← sourceFileId_of d;
  file ← the_definition sourceFileId;
  sourcePath ← file_path file;
  match d with
  | FunctionDefinition _ _ _ =>
      if isFunctionDef pyAst then
        of_option PythonToForaConversionError (convertPythonAstFunctionDefToFora pyAst sourcePath)
      else if isLambda pyAst then
        of_option PythonToForaConversionError (convertPythonAstLambdaToFora pyAst sourcePath)
      else Raise AssertionError
  | ClassDefinition _ _ chains baseClassIds =>
      names ← baseClasses chains baseClassIds;
      if isClassDef pyAst then
        of_option PythonToForaConversionError
          (convertPythonAstClassDefToFora pyAst sourcePath names)
      else Raise AttributeError
  | _ => Raise AssertionError
  end.

(** [_getNativePythonFunctionDefFromWithBlockDescription]. *)
Definition getNativePythonFunctionDefFromWithBlockDescription (sourceFileId lineNumber : Z) : res A :=
  file ← the_definition sourceFileId;
  sourceText ← file_text file;
  sourceTree ← parsePython sourceText;
  withTree ← withBlockAtLineNumber sourceTree lineNumber;
  match withTree with
  | With p _ _ body =>
      convertPythonAstToForaPythonAst
        (FunctionDef p "__withBodyFunction" (arguments None [] None None []) body []) sourceText
  | _ => Raise AttributeError
  end.

(** [_getFunctionExpressionFromWithBlockDescription]. *)
Definition getFunctionExpressionFromWithBlockDescription (chains : scope)
    (sourceFileId lineNumber : Z) : res E :=
  nativeWithBodyAst ← getNativePythonFunctionDefFromWithBlockDescription sourceFileId lineNumber;
  file ← the_definition sourceFileId;
  sourcePath ← file_path file;
  of_option PythonToForaConversionError
    (convertPythonAstWithBlockFunctionDefToFora nativeWithBodyAst sourcePath
       ((λ kv : string * Z, default "" (head (split_dots kv.1))) <$> chains)).

(** ** Values *)

(** [convertWithBlock]. *)
Definition convertWithBlock (chains : scope) (sourceFileId lineNumber : Z) : M converter V :=
  expr ← lift (getFunctionExpressionFromWithBlockDescription chains sourceFileId lineNumber);
  renamed ← values_of_chains (λ _, true) chains [];
  specializeFreeVariableMemberAccessChainsAndEvaluate expr renamed.

(** The bases of a class, as ["baseClass%d"]. *)
Fixpoint values_of_bases (i : Z) (baseClassIds : list Z) (renamed : list (string * V)) :
    M converter (list (string * V)) :=
  match baseClassIds with
  | [] => mret renamed
  | baseId :: baseClassIds =>
      v ← converted baseId;
      values_of_bases (i + 1)%Z baseClassIds (dict_set ("baseClass" +:+ PyStr.str i) v renamed)
  end.

(** [convertClassOrFunctionDefinitionWithNoDependencies]. *)
Definition convertClassOrFunctionDefinitionWithNoDependencies (d : definition) : M converter V :=
  expr ← lift (convertPyClassOrFunctionDefinitionToForaFunctionExpression d);
  chains ← lift (chains_of d);
  renamed ← values_of_chains (λ _, true) chains [];
  renamed ← (match d with
             | ClassDefinition _ _ _ baseClassIds => values_of_bases 0 baseClassIds renamed
             | _ => mret renamed
             end);
  specializeFreeVariableMemberAccessChainsAndEvaluate expr renamed.

(** [convertClassInstanceDescription]. *)
Definition convertClassInstanceDescription (objectId classId : Z) (members : scope) : M converter unit :=
  memberImplVals ← mapM (λ kv : string * Z, v ← converted kv.2; mret (kv.1, v)) members;
  classImplVal ← converted classId;
  symbol ← lift (isSymbol classImplVal);
  if symbol : bool then set_value objectId classImplVal
  else
    let sorted := sorted_items memberImplVals in
    convertedValueOrNone ← lift (simulateApply
      [classImplVal; Symbol_CreateInstance; createNamedTuple sorted.*2 sorted.*1]);
    match convertedValueOrNone with
    | None => raise PythonToForaConversionError
    | Some v => set_value objectId v
    end.

(** ** Mutually recursive objects *)

(** What [_getCreateObjectExpressionAndMemberToObjectIdMap] requires of a member. *)
Definition naive_function (objectId : Z) : res (Z * E) :=
  d ← the_definition objectId;
  match d with
  | ClassInstanceDescription classId _ =>
      classDesc ← the_definition classId;
      sourceFileId ← sourceFileId_of classDesc;
      sourceFile ← the_definition sourceFileId;
      _ ← lineNumber_of classDesc;
      _ ← file_path sourceFile;
      Raise PythonToForaConversionError
  | FunctionDefinition _ _ _ | ClassDefinition _ _ _ _ =>
      expr ← convertPyClassOrFunctionDefinitionToForaFunctionExpression d;
      Ret (objectId, expr)
  | _ => Raise AssertionError
  end.

(** [_computeRenamedObjectMapping]: the name of an object is made of the hash of its
    expression. *)
Fixpoint computeRenamedObjectMapping (functions : list (Z * E)) (mentioned : list string) :
    res (list (Z * string)) :=
  match functions with
  | [] => Ret []
  | (objectId, expr) :: functions =>
      let mentioned := mentioned ++ mentionedVariables expr in
      name ← freshVarname ("_" +:+ expression_hash expr +:+ "_") mentioned;
      renamed ← computeRenamedObjectMapping functions mentioned;
      Ret ((objectId, name) :: renamed)
  end.

(** [_replaceKnownMemberChainsWithRenamedVariables]. *)
Fixpoint rebind_known (renamed : list (Z * string)) (chains : scope) (expr : E) : E :=
  match chains with
  | [] => expr
  | (chain, dependentId) :: chains =>
      rebind_known renamed chains
        (match dict_get dependentId renamed with
         | Some name => rebindFreeVariableMemberAccessChain expr (split_dots chain) name
         | None => expr
         end)
  end.

Definition replaceKnownMemberChainsWithRenamedVariables (functions : list (Z * E))
    (renamed : list (Z * string)) : res (list (Z * E)) :=
  mapR (λ oe : Z * E,
    d ← the_definition oe.1;
    chains ← chains_of d;
    Ret (oe.1, rebind_known renamed chains oe.2)) functions.

(** [_getCreateObjectExpressionAndMemberToObjectIdMap]. *)
Definition getCreateObjectExpressionAndMemberToObjectIdMap (component : list Z) :
    res (E * list (Z * string)) :=
  naiveConvertedFunctions ← mapR naive_function component;
  renamedObjectMapping ← computeRenamedObjectMapping naiveConvertedFunctions [];
  convertedFunctions ← replaceKnownMemberChainsWithRenamedVariables naiveConvertedFunctions
                         renamedObjectMapping;
  members ← mapR (λ on : Z * string,
              f ← of_option KeyError (dict_get on.1 convertedFunctions); Ret (on.2, f))
              (merge_sort (λ a b : Z * string, String.le a.2 b.2) renamedObjectMapping);
  Ret (foldl (λ e m, prependMemberToCreateObjectExpression e m.1 m.2) empytObjectExpression members,
       renamedObjectMapping).

(** The loop of [_bindDependentValuesToCreateObjectExpression]: one dict for the
    chains of all members. *)
Fixpoint dependent_values (component todo : list Z) (renamed : list (string * V)) :
    M converter (list (string * V)) :=
  match todo with
  | [] => mret renamed
  | objectId :: todo =>
      d ← lift (the_definition objectId);
      chains ← lift (chains_of d);
      renamed ← values_of_chains (λ i, negb (bool_decide (i ∈ component))) chains renamed;
      dependent_values component todo renamed
  end.

(** [convertMutuallyRecursiveObjects]. *)
Definition convertMutuallyRecursiveObjects (component : list Z) : M converter (V * list (Z * string)) :=
  created ← lift (getCreateObjectExpressionAndMemberToObjectIdMap component);
  renamed ← dependent_values created.2.*1 created.2.*1 [];
  implVal ← specializeFreeVariableMemberAccessChainsAndEvaluate created.1 renamed;
  mret (implVal, created.2).
End definitions.
End adaptor.
