(* ===== verification/Converter.v ===== *)
(** * Converting what a client sent
    ([ufora/FORA/python/PurePython/Converter.py])

    The server's half of a conversion: the definitions of a dependency graph become
    values, one strongly connected component after the other, so that what an object
    refers to is there before it. [PyforaObjectConverter.v] has the handler of the
    client's request. *)
From Stdlib Require Import Lia.
From stdpp Require Import base gmap sets list strings fin_maps.
From S2P Require Import Prelude PyAst AstUtil PyStrings TypeDescription ObjectRegistry StronglyConnectedComponents NativeConverterAdaptor.

(** Graphs of object ids. *)
Abbreviation graph := (gmap Z (list Z)).

(** [_computeRestrictedGraph]: the end of [stack] is its head here; what was visited
    are the keys of [tr]. *)
Fixpoint restrict (dependencyGraph : graph) (fuel : nat) (stack : list Z) (tr : graph) : res graph :=
  match stack with
  | [] => Ret tr
  | toVisit :: stack =>
      match fuel with
      | O => Raise RecursionLimit
      | S fuel =>
          if bool_decide (toVisit ∈ dom tr) then restrict dependencyGraph fuel stack tr
          else
            dependencies ← of_option KeyError (dependencyGraph !! toVisit);
            restrict dependencyGraph fuel (reverse dependencies ++ stack)
              (<[toVisit := dependencies]> tr)
      end
  end.

(** Every dependency is pushed at most once, when the node that has it is visited. *)
Definition edges (g : graph) : nat := sum_list_with length (map_to_list g).*2.

Definition computeRestrictedGraph (objectId : Z) (dependencyGraph : graph) : res graph :=
  restrict dependencyGraph (S (edges dependencyGraph)) [objectId] ∅.

Section converter.
Context {V E P A : Type} `{EqDecision V} {FN : ForaNative V E P A}.
Abbreviation M_ := (M (converter (V := V))).

(** The tables of [PyforaSingletonAndExceptionConverter.py]. *)
Context (pythonNameToInstance : gmap string V) (pyExceptionClass : V).

Definition convertSingletonByName (name : string) : option V := pythonNameToInstance !! name.

Definition instantiateException (exceptionTypeName : string) (args : V) : res V :=
  match convertSingletonByName exceptionTypeName with
  | None => Ret (of_pyval VNone)
  | Some exceptionTypeInstance =>
      default (of_pyval VNone) <$>
        simulateApply [pyExceptionClass; Symbol_CreateInstance; exceptionTypeInstance; args]
  end.

(** ** Objects without dependencies to convert *)

Definition convertPrimitive (d : definition) : res V :=
  match d with
  | PrimitiveList l => createListOfPrimitives l
  | Primitive (PStr s) => convertConstant (PStr (Base64.b64decode s))
  | Primitive p => convertConstant p
  | _ => Raise PythonToForaConversionError
  end.

Definition convertNamedSingleton (singletonName : string) : res V :=
  of_option PythonToForaConversionError (convertSingletonByName singletonName).

Definition convertBuiltinExceptionInstance (typeName : string) (argsId : Z) : M_ V :=
  args ← converted argsId;
  lift (instantiateException typeName args).

(** An int, which a bool is too, is the id of an object that was converted before. *)
Definition convertRemotePythonObject (computedValueArg : pyval) : M_ V :=
  match computedValueArg with
  | Prim (PInt i) => converted i
  | Prim (PBool b) => converted (if b then 1 else 0)%Z
  | v => mret (of_pyval v)
  end.

Definition convertUnconvertibleValue (objectId : Z) : M_ V :=
  set_value objectId Symbol_unconvertible ;; mret Symbol_unconvertible.

Definition convertFile (text : string) : V := of_pyval (VStr text).

Definition convertInstanceMethod (instanceId : Z) (methodName : string) : M_ V :=
  instance ← converted instanceId;
  bound ← lift (getObjectMember instance methodName);
  lift (of_option AssertionError bound).

Section definitions.
Context (objectIdToObjectDefinition : definitions).
Abbreviation the_definition := (definition_of objectIdToObjectDefinition).

(** ** Containers and components

    [convertComponent] is [convertStronglyConnectedComponent]. *)
Section recursion.
Context (convertComponent : graph → list Z → M_ unit).

(** [_assertContainerDoesNotReferenceItself]. *)
Definition assertContainerDoesNotReferenceItself (containerId : Z) (dependencyGraph : graph)
    (components : list (list Z)) : res unit :=
  lastComponent ← of_option IndexError (last components);
  py_assert (bool_decide (containerId ∈ lastComponent)) ;;
  if bool_decide (1 < length lastComponent) then Raise PythonToForaConversionError
  else
    dependencies ← of_option KeyError (dependencyGraph !! containerId);
    if bool_decide (containerId ∈ (dependencies : list Z)) then Raise PythonToForaConversionError else Ret tt.

(** [_convertListMembers]. *)
Definition convertListMembers (listId : Z) (dependencyGraph : graph) : M_ unit :=
  components ← lift (stronglyConnectedComponents (map_to_list dependencyGraph));
  lift (assertContainerDoesNotReferenceItself listId dependencyGraph components) ;;
  forM_ (convertComponent dependencyGraph) (removelast components).

Definition convertList (listId : Z) (dependencyGraph : graph) (memberIds : list Z) : M_ V :=
  convertListMembers listId dependencyGraph ;;
  members ← mapM converted memberIds;
  lift (createList members).

Definition convertTuple (tupleId : Z) (dependencyGraph : graph) (memberIds : list Z) : M_ V :=
  convertListMembers tupleId dependencyGraph ;;
  members ← mapM converted memberIds;
  lift (createTuple members).

Definition convertDict (dictId : Z) (dependencyGraph : graph) (keyIds valueIds : list Z) : M_ V :=
  convertListMembers dictId dependencyGraph ;;
  items ← mapM (λ kv : Z * Z, k ← converted kv.1; v ← converted kv.2; mret (k, v)) (zip keyIds valueIds);
  lift (createDict (foldl (λ d kv, dict_set kv.1 kv.2 d) [] items)).

Definition convertObjectWithDependencies (objectId : Z) (dependencyGraph : graph) : M_ V :=
  s ← get;
  match convertedValues s !! objectId with
  | Some v => mret v
  | None =>
      components ← lift (stronglyConnectedComponents (map_to_list dependencyGraph));
      forM_ (convertComponent dependencyGraph) components ;;
      converted objectId
  end.

(** [_convert]. *)
Definition convert_ (objectId : Z) (dependencyGraph : graph) : M_ V :=
  d ← lift (the_definition objectId);
  match d with
  | Primitive _ | PrimitiveList _ => lift (convertPrimitive d)
  | RemotePythonObject arg => convertRemotePythonObject arg
  | NamedSingleton name => lift (convertNamedSingleton name)
  | BuiltinExceptionInstance name argsId => convertBuiltinExceptionInstance name argsId
  | FunctionDefinition _ _ _ | ClassDefinition _ _ _ _ | ClassInstanceDescription _ _
  | InstanceMethod _ _ | WithBlockDescription _ _ _ =>
      convertObjectWithDependencies objectId dependencyGraph
  | List ms => convertList objectId dependencyGraph ms
  | Tuple ms => convertTuple objectId dependencyGraph ms
  | Dict ks vs => convertDict objectId dependencyGraph ks vs
  | Unconvertible => convertUnconvertibleValue objectId
  | File _ _ => raise PythonToForaConversionError
  end.

(** The bases of a class that are not converted yet. *)
Definition convert_base (dependencyGraph : graph) (baseId : Z) : M_ unit :=
  s ← get;
  (if bool_decide (baseId ∈ dom (convertedValues s)) then mret tt
   else _ ← convert_ baseId dependencyGraph; mret tt) ;;
  s ← get;
  lift (py_assert (bool_decide (baseId ∈ dom (convertedValues s)))).

(** [convertStronglyConnectedComponentWithOneNode]. *)
Definition convertComponentWithOneNode (dependencyGraph : graph) (objectId : Z) : M_ unit :=
  d ← lift (the_definition objectId);
  match d with
  | Primitive _ | PrimitiveList _ => v ← lift (convertPrimitive d); set_value objectId v
  | FunctionDefinition _ _ _ =>
      v ← convertClassOrFunctionDefinitionWithNoDependencies objectIdToObjectDefinition d;
      set_value objectId v
  | ClassDefinition _ _ _ baseClassIds =>
      forM_ (convert_base dependencyGraph) baseClassIds ;;
      v ← convertClassOrFunctionDefinitionWithNoDependencies objectIdToObjectDefinition d;
      set_value objectId v
  | ClassInstanceDescription classId members =>
      s ← get;
      if bool_decide (objectId ∈ dom (convertedValues s)) then mret tt
      else convertClassInstanceDescription objectId classId members
  | List ms =>
      restricted ← lift (computeRestrictedGraph objectId dependencyGraph);
      v ← convertList objectId restricted ms; set_value objectId v
  | Tuple ms =>
      restricted ← lift (computeRestrictedGraph objectId dependencyGraph);
      v ← convertTuple objectId restricted ms; set_value objectId v
  | Dict ks vs =>
      restricted ← lift (computeRestrictedGraph objectId dependencyGraph);
      v ← convertDict objectId restricted ks vs; set_value objectId v
  | File _ text => set_value objectId (convertFile text)
  | RemotePythonObject arg => v ← convertRemotePythonObject arg; set_value objectId v
  | BuiltinExceptionInstance name argsId =>
      v ← convertBuiltinExceptionInstance name argsId; set_value objectId v
  | NamedSingleton name => v ← lift (convertNamedSingleton name); set_value objectId v
  | WithBlockDescription chains sourceFileId lineNumber =>
      v ← convertWithBlock objectIdToObjectDefinition chains sourceFileId lineNumber;
      set_value objectId v
  | InstanceMethod instanceId methodName =>
      v ← convertInstanceMethod instanceId methodName; set_value objectId v
  | Unconvertible => set_value objectId Symbol_unconvertible
  end.
End recursion.

(** [registerObjectMembers]. *)
Definition registerObjectMembers (objectImplVal : V) (renamedObjectMapping : list (Z * string)) :
    M_ unit :=
  forM_ (λ on : Z * string,
    member ← lift (getObjectMember objectImplVal on.2);
    match member with
    | None => raise PythonToForaConversionError
    | Some v => set_value on.1 v
    end) renamedObjectMapping.

(** [convertStronglyConnectedComponentWithMoreThanOneNode]. *)
Definition convertComponentWithMoreThanOneNode (component : list Z) : M_ unit :=
  converted_ ← convertMutuallyRecursiveObjects objectIdToObjectDefinition component;
  registerObjectMembers converted_.1 converted_.2.

(** [convertStronglyConnectedComponent]; [fuel] bounds the nesting of containers. *)
Fixpoint convertComponent (fuel : nat) (dependencyGraph : graph) (component : list Z) : M_ unit :=
  match fuel with
  | O => raise RecursionLimit
  | S fuel =>
      s ← get;
      if bool_decide (component ∈ convertedComponents s) then mret tt
      else
        match component with
        | [objectId] => convertComponentWithOneNode (convertComponent fuel) dependencyGraph objectId
        | _ => convertComponentWithMoreThanOneNode component
        end ;;
        add_component component
  end.
End definitions.

(** ** The request *)

(** What [convert] tries. A container is in fewer graphs than there are nodes. *)
Definition convert_body (objectId : Z) (objectRegistry : registry) : M_ (V + exn) :=
  dependencyGraph ← lift (computeDependencyGraph objectRegistry objectId);
  definitions ← lift (mapR (λ objId : Z, d ← getDefinition objId objectRegistry; Ret (objId, d))
                        (map_to_list dependencyGraph).*1);
  convertedValue ← convert_ (list_to_map definitions)
                     (convertComponent (list_to_map definitions) (S (S (size dependencyGraph))))
                     objectId dependencyGraph;
  set_value objectId convertedValue ;;
  mret (inl convertedValue).

(** [convert]: the value of the object, or the conversion error that the callback
    gets. *)
Definition convert (objectId : Z) (objectRegistry : registry) : M_ (V + exn) :=
  catch (convert_body objectId objectRegistry) (λ e,
    match e with
    | PythonToForaConversionError => mret (inr e)
    | e => raise e
    end).
End converter.
