(* ===== verification/ConverterGraphs.v ===== *)
(** * Graphs of a conversion

    What [_computeRestrictedGraph] returns, and where a node's component stands in the
    list that Tarjan's algorithm gives for the graph of what it reaches. *)
From Stdlib Require Import Lia List.
From stdpp Require Import base gmap sets list fin_maps fin_map_dom relations.
From S2P Require Import Prelude StronglyConnectedComponents NativeConverterAdaptor Converter.

Set Default Proof Using "Type".

(** ** Graphs with no edge out of them *)

Definition gedge (g : graph) (x y : Z) : Prop := ∃ l, g !! x = Some l ∧ y ∈ l.
Definition closed (g : graph) : Prop := ∀ x y, gedge g x y → y ∈ dom g.

Lemma gedge_subgraph g g' x y : g ⊆ g' → gedge g x y → gedge g' x y.
Proof. intros Hsub (l & Hl & Hy). exists l. split; [by eapply lookup_weaken|done]. Qed.

Lemma reaches_subgraph g g' x y : g ⊆ g' → rtc (gedge g) x y → rtc (gedge g') x y.
Proof. intros Hsub. induction 1; [done|]. eapply rtc_l; [by eapply gedge_subgraph|done]. Qed.

(** A path from a closed part of a graph stays in it. *)
Lemma reaches_closed g g' x y :
  g ⊆ g' → closed g → x ∈ dom g → rtc (gedge g') x y → y ∈ dom g ∧ rtc (gedge g) x y.
Proof.
  intros Hsub Hcl Hx Hxy. induction Hxy as [|x z y Hxz Hzy IH]; [done|].
  assert (Hxz' : gedge g x z).
  { destruct Hxz as (l & Hl & Hz). apply elem_of_dom in Hx as [l' Hl']. exists l'. split; [done|].
    rewrite (lookup_weaken _ _ _ _ Hl' Hsub) in Hl. by simplify_eq. }
  destruct (IH (Hcl x z Hxz')) as [Hy Hpath]. split; [done|]. by eapply rtc_l.
Qed.

(** The graph as the list of its items. *)
Lemma successors_lookup (g : graph) x : successors (map_to_list g) x = default [] (g !! x).
Proof.
  unfold successors. destruct (list_find _ _) as [[i [k l]]|] eqn:Hf; cbn.
  - apply list_find_Some in Hf as (Hi & Hk & _). cbn in Hk. subst k.
    apply list_elem_of_lookup_2, elem_of_map_to_list in Hi. by rewrite Hi.
  - destruct (g !! x) as [l|] eqn:Hx; [|done]. apply list_find_None in Hf. rewrite Forall_forall in Hf.
    by destruct (Hf (x, l)); [apply elem_of_map_to_list|].
Qed.

Lemma edge_gedge g x y : edge (map_to_list g) x y ↔ gedge g x y.
Proof.
  unfold edge, gedge. rewrite successors_lookup. destruct (g !! x) as [l|]; cbn.
  - split; [by exists l|]. by intros (? & [= <-] & ?).
  - rewrite elem_of_nil. naive_solver.
Qed.

Lemma universe_dom g : closed g → universe (map_to_list g) = dom g.
Proof.
  intros Hcl. apply set_eq. intros x. unfold universe. rewrite elem_of_list_to_set, elem_of_app.
  rewrite elem_of_concat, elem_of_dom. split.
  - intros [Hx|(l & Hx & Hl)].
    + apply list_elem_of_fmap_1 in Hx as ([k l] & -> & Hkl). apply elem_of_map_to_list in Hkl. by exists l.
    + apply list_elem_of_fmap_1 in Hl as (k & -> & Hk). apply elem_of_dom, (Hcl k x), edge_gedge, Hx.
  - intros [l Hl]. left. rewrite list_elem_of_fmap. exists (x, l). split; [done|]. by apply elem_of_map_to_list.
Qed.

(** ** Restricted graphs *)

Lemma edges_insert g x l : g !! x = None → edges (<[x := l]> g) = length l + edges g.
Proof. intros Hx. unfold edges. by rewrite map_to_list_insert. Qed.

Lemma edges_left (g tr : graph) x l :
  g !! x = Some l → x ∉ dom tr →
  edges (g ∖ tr) = length l + edges (g ∖ <[x := l]> tr).
Proof.
  intros Hx Htr. rewrite <- (edges_insert _ x).
  - f_equal. apply map_eq. intros y. destruct (decide (y = x)) as [->|Hne].
    + rewrite lookup_insert_eq, lookup_difference. apply not_elem_of_dom in Htr. by rewrite Htr.
    + by rewrite lookup_insert_ne, !lookup_difference, lookup_insert_ne.
  - by rewrite lookup_difference, lookup_insert_eq.
Qed.

Lemma restrict_reaches g root fuel stack tr :
  closed g → tr ⊆ g → (∀ x, x ∈ stack → x ∈ dom g) →
  (∀ x, x ∈ dom tr ∨ x ∈ stack → rtc (gedge g) root x) →
  (∀ x y, gedge tr x y → y ∈ dom tr ∨ y ∈ stack) →
  length stack + edges (g ∖ tr) ≤ fuel →
  ∃ tr', restrict g fuel stack tr = Ret tr' ∧ tr' ⊆ g ∧ closed tr' ∧
    (∀ x, x ∈ dom tr' → rtc (gedge g) root x) ∧ (∀ x, x ∈ dom tr ∨ x ∈ stack → x ∈ dom tr').
Proof.
  intros Hcl. revert stack tr. induction fuel as [|fuel IH]; intros stack tr Htr Hst Hreach Hedges Hfuel;
    destruct stack as [|x stack]; cbn [restrict] in *; try (cbn in Hfuel; lia).
  1,2: exists tr; split_ands; [done|done| |naive_solver|intros x [|Hx]; [done|by apply elem_of_nil in Hx]];
    intros x y Hxy; destruct (Hedges x y Hxy) as [|Hy]; [done|by apply elem_of_nil in Hy].
  destruct (decide (x ∈ dom tr)) as [Hx|Hx].
  - rewrite bool_decide_true by done.
    destruct (IH stack tr) as (tr' & Hr & Hsub & Hcl' & Hre & Hin); [done|set_solver|set_solver| | |].
    + intros y z Hyz. destruct (Hedges y z Hyz) as [|Hz]; [by left|].
      apply elem_of_cons in Hz as [->|]; auto.
    + cbn in Hfuel. lia.
    + exists tr'. split_ands; [done..|]. intros y [Hy|[->|Hy]%elem_of_cons]; apply Hin; auto.
  - rewrite bool_decide_false by done. assert (Hxg : x ∈ dom g) by (apply Hst; set_solver).
    apply elem_of_dom in Hxg as [l Hl]. rewrite Hl. cbn [mbind res_bind of_option].
    assert (Hroot : rtc (gedge g) root x) by (apply Hreach; right; set_solver).
    assert (Hlg : ∀ y, y ∈ l → gedge g x y) by (intros y Hy; by exists l).
    destruct (IH (reverse l ++ stack) (<[x := l]> tr)) as (tr' & Hr & Hsub & Hcl' & Hre & Hin).
    + by apply insert_subseteq_l.
    + intros y Hy. rewrite elem_of_app, elem_of_reverse in Hy.
      destruct Hy as [Hy|Hy]; [apply (Hcl x y), Hlg, Hy|apply Hst; set_solver].
    + intros y Hy. rewrite dom_insert_L, elem_of_union, elem_of_singleton, elem_of_app, elem_of_reverse in Hy.
      destruct Hy as [[->|Hy]|[Hy|Hy]]; [done|apply Hreach; by left| |apply Hreach; right; set_solver].
      eapply rtc_r; [exact Hroot|by apply Hlg].
    + intros y z (l' & Hl' & Hz). rewrite dom_insert_L, elem_of_union, elem_of_singleton, elem_of_app, elem_of_reverse.
      destruct (decide (y = x)) as [->|Hne]; [rewrite lookup_insert_eq in Hl'; simplify_eq; auto|].
      rewrite lookup_insert_ne in Hl' by done.
      destruct (Hedges y z) as [|Hz']; [by exists l'|auto|]. apply elem_of_cons in Hz' as [->|]; auto.
    + rewrite length_app, length_reverse. rewrite (edges_left g tr x l) in Hfuel by done. cbn in Hfuel. lia.
    + exists tr'. split_ands; [done..|]. intros y Hy. apply Hin. rewrite dom_insert_L, elem_of_app.
      destruct Hy as [Hy|[->|Hy]%elem_of_cons]; set_solver.
Qed.

(** The restricted graph of a node holds what it reaches. *)
Record restricted (g : graph) (x : Z) (g' : graph) : Prop := {
  restricted_sub : g' ⊆ g;
  restricted_closed : closed g';
  restricted_self : x ∈ dom g';
  restricted_reaches y : y ∈ dom g' → rtc (gedge g') x y }.

Lemma computeRestrictedGraph_restricted g x :
  closed g → x ∈ dom g → ∃ g', computeRestrictedGraph x g = Ret g' ∧ restricted g x g'.
Proof.
  intros Hcl Hx. unfold computeRestrictedGraph.
  destruct (restrict_reaches g x (S (edges g)) [x] ∅) as (g' & Hr & Hsub & Hcl' & Hre & Hin).
  - done.
  - apply map_empty_subseteq.
  - intros y ->%list_elem_of_singleton. done.
  - intros y [Hy| ->%list_elem_of_singleton]; [set_solver|done].
  - intros y z (l & Hl & _). by rewrite lookup_empty in Hl.
  - cbn. rewrite map_difference_empty. lia.
  - assert (Hx' : x ∈ dom g') by (apply Hin; right; set_solver).
    exists g'. split; [done|]. split; [done|done|done|]. intros y Hy.
    by eapply reaches_closed, Hre.
Qed.

(** ** Components of what a node reaches *)

Section components.
Context (g : graph) (components : list (list Z)).
Hypothesis Hcl : closed g.
Hypothesis Hcomp : components_of (map_to_list g) components.

Lemma in_component x : x ∈ dom g → ∃ c, c ∈ components ∧ x ∈ c.
Proof using All.
  intros Hx. rewrite <- (universe_dom g Hcl) in Hx. apply (every_node _ _ Hcomp) in Hx.
  apply elem_of_concat in Hx as (c & Hx & Hc). by exists c.
Qed.

Lemma component_dom c x : c ∈ components → x ∈ c → x ∈ dom g.
Proof using All.
  intros Hc Hx. rewrite <- (universe_dom g Hcl). apply (every_node _ _ Hcomp), elem_of_concat. by exists c.
Qed.

Lemma component_edge pre c post x y :
  components = pre ++ c :: post → x ∈ c → gedge g x y → y ∈ c ∨ y ∈ concat pre.
Proof using All.
  intros Heq Hx Hxy. apply edge_gedge in Hxy. pose proof (no_later_edge _ _ Hcomp _ _ _ _ _ Heq Hx Hxy) as Hy.
  rewrite concat_app in Hy. cbn in Hy. rewrite app_nil_r, elem_of_app in Hy. naive_solver.
Qed.

(** What a node of a component reaches is in it or before it. *)
Lemma component_reaches pre c post x y :
  components = pre ++ c :: post → x ∈ c → rtc (gedge g) x y → y ∈ concat (pre ++ [c]).
Proof using All.
  intros Heq Hx Hxy.
  assert (Hin : x ∈ concat (pre ++ [c])).
  { rewrite concat_app, elem_of_app. right. cbn. by rewrite app_nil_r. }
  clear Hx. induction Hxy as [|x z y Hxz Hzy IH]; [done|]. apply IH.
  apply elem_of_concat in Hin as (c' & Hx & Hc'). apply list_elem_of_split in Hc' as (p & q & Hpq).
  assert (Heq' : components = p ++ c' :: (q ++ post)).
  { rewrite Heq, (cons_middle c pre post), app_assoc, Hpq. by rewrite <- app_assoc. }
  destruct (component_edge p c' (q ++ post) x z Heq' Hx Hxz) as [Hz|Hz]; rewrite Hpq, concat_app, elem_of_app;
    [right; cbn; rewrite elem_of_app|]; by left.
Qed.

(** The component of a node that reaches all others is the last one. *)
Lemma last_component x :
  x ∈ dom g → (∀ y, y ∈ dom g → rtc (gedge g) x y) → ∃ pre c, components = pre ++ [c] ∧ x ∈ c.
Proof using All.
  intros Hx Hall. destruct (in_component x Hx) as (c & Hc & Hxc).
  apply list_elem_of_split in Hc as (pre & post & Heq). exists pre, c. split; [|done].
  destruct post as [|d post _] using rev_ind; [done|].
  assert (Hd : d ∈ components) by (rewrite Heq; set_solver).
  destruct d as [|z d]; [by destruct (nonempty _ _ Hcomp _ Hd)|].
  assert (Hz : z ∈ concat (pre ++ [c])).
  { eapply component_reaches; [exact Heq|exact Hxc|]. apply Hall. eapply component_dom; [exact Hd|]. by left. }
  pose proof (only_once _ _ Hcomp) as Hnd. rewrite Heq, (cons_middle c), app_assoc, concat_app in Hnd.
  apply NoDup_app in Hnd as (_ & Hnd & _). destruct (Hnd z Hz). rewrite concat_app. cbn. set_solver.
Qed.
End components.
