(* ===== verification/ConverterRuns.v ===== *)
(** * Runs of the converter

    What a conversion may raise, and a calculus of runs of the converter's monad: the
    converted values only grow, and what is recorded as converted is. *)
From Stdlib Require Import Lia.
From stdpp Require Import base gmap sets list strings fin_maps fin_map_dom relations sorting.
From S2P Require Import Prelude PyAst AstUtil PyStrings TypeDescription ObjectRegistry StronglyConnectedComponents NativeConverterAdaptor Converter ConverterGraphs.

Set Default Proof Using "All".

(** ** Exceptions *)

(** The exceptions of a dict or a list that lacks an entry, and of a recursion that
    does not end. *)
Definition unexpected (e : exn) : bool :=
  match e with KeyError | IndexError | RecursionLimit => true | _ => false end.

Definition proper {X} (r : res X) : Prop := ∀ e, r = Raise e → unexpected e = false.

(** What the converter relies on: calls into the native module, and [ast.parse], raise
    their own exceptions only. *)
Class ForaNativeLaws (V E P A : Type) `{ForaNative V E P A} : Prop := {
  isSymbol_proper v : proper (isSymbol v);
  getObjectMember_proper v n : proper (getObjectMember v n);
  simulateApply_proper vs : proper (simulateApply vs);
  createList_proper vs : proper (createList vs);
  createTuple_proper vs : proper (createTuple vs);
  createDict_proper kvs : proper (createDict kvs);
  createListOfPrimitives_proper l : proper (createListOfPrimitives l);
  convertConstant_proper p : proper (convertConstant p);
  evaluateRootLevelCreateObjectExpression_proper e bs b :
    proper (evaluateRootLevelCreateObjectExpression e bs b);
  parsePython_proper t : proper (parsePython t);
  parseStringToPythonAst_proper t : proper (parseStringToPythonAst t);
  functionClassOrLambdaDefAtLine_proper p l : proper (functionClassOrLambdaDefAtLine p l);
  convertPythonAstToForaPythonAst_proper n t : proper (convertPythonAstToForaPythonAst n t) }.

Create HintDb proper_db.
#[export] Hint Resolve isSymbol_proper getObjectMember_proper simulateApply_proper
  createList_proper createTuple_proper createDict_proper createListOfPrimitives_proper
  convertConstant_proper evaluateRootLevelCreateObjectExpression_proper parsePython_proper
  parseStringToPythonAst_proper functionClassOrLambdaDefAtLine_proper
  convertPythonAstToForaPythonAst_proper : proper_db.

Section proper.
Lemma proper_ret {X} (x : X) : proper (Ret x).
Proof. by intros e. Qed.

Lemma proper_raise {X} e : unexpected e = false → proper (Raise e : res X).
Proof. by intros He e' [= <-]. Qed.

Lemma proper_bind {X Y} (r : res X) (f : X → res Y) :
  proper r → (∀ x, r = Ret x → proper (f x)) → proper (mbind f r).
Proof. intros Hr Hf. destruct r as [x|e]; cbn; [by apply Hf|]. intros e' [= <-]. by apply Hr. Qed.

Lemma proper_fmap {X Y} (r : res X) (f : X → Y) : proper r → proper (f <$> r).
Proof. intros Hr. destruct r as [x|e]; cbn; [done|]. intros e' [= <-]. by apply Hr. Qed.

Lemma proper_of_option {X} e (o : option X) : (o = None → unexpected e = false) → proper (of_option e o).
Proof. intros Ho e'. destruct o; [done|]. intros [= <-]. by apply Ho. Qed.

Lemma proper_mapR {X Y} (f : X → res Y) l : (∀ x, x ∈ l → proper (f x)) → proper (mapR f l).
Proof. intros Hf e (x & Hx & He)%mapR_Raise. by apply (Hf x). Qed.

End proper.
#[export] Hint Resolve proper_ret proper_bind proper_fmap : proper_db.
#[export] Hint Extern 1 (proper (Raise _)) => apply proper_raise; reflexivity : proper_db.

(** ** Strings of ids, fresh names *)

Lemma string_app_inj (p s s' : string) : (p +:+ s = p +:+ s')%string → s = s'.
Proof. induction p as [|c p IH]; cbn; [done|]. intros [= H]. by apply IH. Qed.

(** One of the first names is not used. *)
Lemma freshVarname_proper startingName namesUsed : proper (freshVarname startingName namesUsed).
Proof.
  unfold freshVarname. case_bool_decide as Hstart; [apply proper_ret|].
  set (name := λ ix, startingName +:+ "_" +:+ PyStr.str ix).
  assert (Hsearch : ∀ fuel ix, (0 ≤ ix)%Z → (∃ k, (k < fuel)%nat ∧ name (ix + Z.of_nat k)%Z ∉ namesUsed) →
    proper (numbered_name startingName namesUsed fuel ix)).
  { induction fuel as [|fuel IH]; intros ix Hix (k & Hk & Hname); [lia|]. cbn [numbered_name].
    cbv zeta. fold (name ix). case_bool_decide as Hn; [apply proper_ret|]. apply IH; [lia|]. destruct k as [|k].
    - by rewrite Z.add_0_r in Hname.
    - exists k. split; [lia|]. by replace (ix + 1 + Z.of_nat k)%Z with (ix + Z.of_nat (S k))%Z by lia. }
  apply Hsearch; [lia|].
  destruct (decide (Forall (λ k, name (1 + Z.of_nat k)%Z ∈ namesUsed) (seq 0 (S (length namesUsed))))) as [Hall|Hn].
  - exfalso. assert (Hlen : S (length namesUsed) ≤ length namesUsed); [|lia].
    rewrite <- (length_seq (S (length namesUsed)) 0) at 1.
    rewrite <- (length_fmap (λ k, name (1 + Z.of_nat k)%Z)). apply submseteq_length, NoDup_submseteq.
    + apply NoDup_fmap_2_strong; [|apply NoDup_seq]. intros x y _ _ Heq.
      unfold name in Heq. apply string_app_inj, (string_app_inj "_"), PyStr.str_inj in Heq; lia.
    + intros n (k & -> & Hk)%list_elem_of_fmap_1. rewrite Forall_forall in Hall. by apply Hall.
  - apply not_Forall_Exists, Exists_exists in Hn as (k & Hk%elem_of_seq & Hn); [|tc_solve].
    exists k. split; [lia|done].
Qed.
#[export] Hint Resolve freshVarname_proper : proper_db.

Lemma withBlockAtLineNumber_proper n l : proper (withBlockAtLineNumber n l).
Proof.
  unfold withBlockAtLineNumber, AtLineNumber.unique.
  destruct (AtLineNumber.withBlockSubnodesAtLineNumber _) as [|? [|]]; auto with proper_db.
Qed.
#[export] Hint Resolve withBlockAtLineNumber_proper : proper_db.

(** ** Runs of the converter *)

(** The objects that the code of a request has free variables for: the values of these
    are bound when a function, a class or a with block is evaluated. *)
Class BoundIds := bound_id : Z → Prop.

Section spec.
Context {V E P A : Type} `{EqDecision V} {FN : ForaNative V E P A} {BD : BoundIds}.
Abbreviation state := (converter (V := V)).
Abbreviation M_ := (M (converter (V := V))).

Definition have (s : state) (x : Z) : Prop := x ∈ dom (convertedValues s).

(** The components that are taken as converted are. *)
Definition comps_ok (s : state) : Prop :=
  ∀ c x, c ∈ convertedComponents s → x ∈ c → have s x.

Definition grows (s s' : state) : Prop :=
  (∀ x, have s x → have s' x) ∧ (comps_ok s → comps_ok s').

(** What a conversion may raise: an exception that is not about a missing entry. Code
    that has a free variable for a computed value is the exception: the call of its
    expression looks up the arguments without a check of what is bound. *)
Definition acceptable (e : exn) (s : state) : Prop :=
  unexpected e = false ∨
  (e = KeyError ∧
   ∃ x v, bound_id x ∧ convertedValues s !! x = Some v ∧ isImplValContainer v = false).

Definition runs {X} (s : state) (m : M_ X) (Q : X → state → Prop) : Prop :=
  match m s with
  | (Ret a, s') => grows s s' ∧ Q a s'
  | (Raise e, s') => grows s s' ∧ acceptable e s'
  end.

Lemma kept_refl s : grows s s.
Proof using Type. by split. Qed.

Lemma kept_trans s1 s2 s3 : grows s1 s2 → grows s2 s3 → grows s1 s3.
Proof using Type. intros [H1 C1] [H2 C2]. split; auto. Qed.

Lemma kept_have s s' x : grows s s' → have s x → have s' x.
Proof using Type. intros [H _]. apply H. Qed.

Lemma runs_ret {X} s (a : X) (Q : X → state → Prop) : Q a s → runs s (mret a) Q.
Proof. by split. Qed.

Lemma runs_raise {X} s e (Q : X → state → Prop) : unexpected e = false → runs s (raise e) Q.
Proof. split; [done|by left]. Qed.

Lemma runs_bind {X Y} s (m : M_ X) (f : X → M_ Y) (R : X → state → Prop) Q :
  runs s m R → (∀ a s', grows s s' → R a s' → runs s' (f a) Q) → runs s (mbind f m) Q.
Proof.
  unfold runs, mbind, M_bind. intros Hm Hf. destruct (m s) as [[a|e] s1]; [|done].
  destruct Hm as [Hg HR]. specialize (Hf a s1 Hg HR).
  destruct (f a s1) as [[b|e] s2]; destruct Hf; (split; [by eapply kept_trans|done]).
Qed.

Lemma runs_mono {X} s (m : M_ X) (Q R : X → state → Prop) :
  runs s m Q → (∀ a s', grows s s' → Q a s' → R a s') → runs s m R.
Proof. unfold runs. intros Hm HQ. destruct (m s) as [[a|e] s1]; [|done]. naive_solver. Qed.

Lemma runs_lift {X} s (r : res X) (Q : X → state → Prop) :
  proper r → (∀ a, r = Ret a → Q a s) → runs s (lift r) Q.
Proof.
  unfold runs, lift. intros Hr HQ. destruct r as [a|e]; (split; [done|]); [by apply HQ|].
  left. by apply Hr.
Qed.

(** A computation that reads only. *)
Lemma runs_get {Y} s (f : state → M_ Y) Q : runs s (f s) Q → runs s (mbind f get) Q.
Proof. intros Hf. apply (runs_bind _ _ _ (λ a s', a = s ∧ s' = s)); [by split|]. by intros a s' _ [-> ->]. Qed.

Lemma runs_lift_bind {X Y} s (r : res X) (f : X → M_ Y) Q :
  proper r → (∀ a, r = Ret a → runs s (f a) Q) → runs s (mbind f (lift r)) Q.
Proof.
  intros Hr Hf. apply (runs_bind _ _ _ (λ a s', r = Ret a ∧ s' = s)).
  - apply runs_lift; [done|by intros a ->].
  - intros a s' _ [Ha ->]. by apply Hf.
Qed.

Lemma runs_lift_raise {X Y} s e (f : X → M_ Y) (Q : Y → state → Prop) :
  unexpected e = false → runs s (mbind f (lift (Raise e))) Q.
Proof. intros He. split; [apply kept_refl|by left]. Qed.

Lemma runs_converted s x (Q : V → state → Prop) :
  have s x → (∀ v, convertedValues s !! x = Some v → Q v s) → runs s (converted x) Q.
Proof.
  intros Hx HQ. apply elem_of_dom in Hx as [v Hv]. unfold converted. apply runs_get. rewrite Hv.
  apply runs_lift; [apply proper_ret|]. intros a [= <-]. by apply HQ.
Qed.

Lemma runs_converted_bind {Y} s x (f : V → M_ Y) Q :
  have s x → (∀ v, convertedValues s !! x = Some v → runs s (f v) Q) → runs s (mbind f (converted x)) Q.
Proof.
  intros Hx Hf. apply (runs_bind _ _ _ (λ v s', convertedValues s !! x = Some v ∧ s' = s)).
  - by apply runs_converted.
  - intros a s' _ [Ha ->]. by apply Hf.
Qed.

Lemma set_value_have s x v y : have (set_value x v s).2 y ↔ y = x ∨ have s y.
Proof using Type. unfold have. cbn. set_solver. Qed.

Lemma set_value_grows s x v : grows s (set_value x v s).2.
Proof using Type.
  split; [intros y Hy; rewrite set_value_have; by right|].
  intros Hok c y Hc Hy. rewrite set_value_have. right. by eapply Hok.
Qed.

Lemma runs_set_value s x v (Q : unit → state → Prop) :
  Q tt (set_value x v s).2 → runs s (set_value x v) Q.
Proof. intros HQ. split; [apply set_value_grows|done]. Qed.

(** A value that is computed and stored is there afterwards. *)
Lemma runs_store s x (m : M_ V) (R : V → state → Prop) :
  runs s m R → runs s (v ← m; set_value x v) (λ _ s', have s' x).
Proof.
  intros Hm. apply (runs_bind _ _ _ _ _ Hm). intros v s' _ _. apply runs_set_value, set_value_have. by left.
Qed.

Lemma runs_add_component s c :
  (∀ x, x ∈ c → have s x) → runs s (add_component c) (λ _ s', ∀ x, x ∈ c → have s' x).
Proof.
  intros Hc. split; [|done]. split; [done|]. intros Hok c' x. cbn.
  rewrite elem_of_union, elem_of_singleton. intros [->|Hc']; [apply Hc|by eapply Hok].
Qed.

Lemma runs_mapM {X Y} s (f : X → M_ Y) l :
  (∀ x, x ∈ l → runs s (f x) (λ _ s', s' = s)) → runs s (mapM f l) (λ _ s', s' = s).
Proof.
  induction l as [|x l IH]; intros Hf; [by apply runs_ret|].
  change (runs s (y ← f x; ys ← mapM f l; mret (y :: ys)) (λ _ s', s' = s)).
  apply (runs_bind _ _ _ (λ _ s', s' = s)); [apply Hf, elem_of_cons; by left|intros y s' _ ->].
  apply (runs_bind _ _ _ (λ _ s', s' = s)); [apply IH; intros z Hz; apply Hf, elem_of_cons; by right|].
  intros ys s' _ ->. by apply runs_ret.
Qed.
End spec.
