(* ===== verification/NativeConverterAdaptorSpec.v ===== *)
(** * The adaptor finds what it needs

    Proofs on [NativeConverterAdaptor.v]: given the values that a definition refers to,
    every operation ends in a value or in an exception of its own. *)
From Stdlib Require Import Lia.
From stdpp Require Import base gmap sets list strings fin_maps fin_map_dom sorting.
From S2P Require Import Prelude PyAst AstUtil PyStrings TypeDescription ObjectRegistry NativeConverterAdaptor Converter ConverterRuns.

Set Default Proof Using "All".

(** ** Dictionaries *)

Section dicts.
Context {K X : Type} `{EqDecision K}.
Implicit Types d : list (K * X).

Lemma dict_set_elem k v d x : x ∈ dict_set k v d → x = (k, v) ∨ x ∈ d.
Proof.
  induction d as [|[k' v'] d IH]; cbn [dict_set]; [by intros ->%list_elem_of_singleton; left|].
  case_decide as Hk.
  - intros [->|Hx]%elem_of_cons; [by left|right; by apply elem_of_cons; right].
  - intros [->|Hx]%elem_of_cons; [right; apply elem_of_cons; by left|].
    destruct (IH Hx) as [?|?]; [by left|right; apply elem_of_cons; by right].
Qed.

Lemma dict_get_elem k d : k ∈ d.*1 → is_Some (dict_get k d).
Proof.
  induction d as [|[k' v'] d IH]; cbn; [by rewrite elem_of_nil|].
  unfold dict_get in *. cbn. case_bool_decide as Hk; [by eexists|].
  rewrite elem_of_cons. intros [->|Hx]; [by destruct Hk|by apply IH].
Qed.
End dicts.

(** ** What a definition refers to *)

Definition container (d : definition) : bool :=
  match d with List _ | Tuple _ | Dict _ _ => true | _ => false end.

(** The ids whose values are read when an object is converted. *)
Definition reads (d : definition) : list Z :=
  match d with
  | List ms | Tuple ms => ms
  | Dict ks vs => ks ++ vs
  | BuiltinExceptionInstance _ argsId => [argsId]
  | FunctionDefinition _ _ chains | ClassDefinition _ _ chains _
  | WithBlockDescription chains _ _ => chains.*2
  | ClassInstanceDescription classId members => classId :: members.*2
  | InstanceMethod instanceId _ => [instanceId]
  | _ => []
  end.

(** Functions, classes and with blocks: objects whose conversion binds free variables. *)
Definition is_code (d : definition) : bool :=
  match d with
  | FunctionDefinition _ _ _ | ClassDefinition _ _ _ _ | WithBlockDescription _ _ _ => true
  | _ => false
  end.

(** What the client's walker sees to: a source file is a [File], the bases of a class
    are among its free variables. *)
Record well_defined `{BoundIds} (defs : definitions) : Prop := {
  source_is_file x d f : defs !! x = Some d → sourceFileId_of d = Ret f →
    ∃ path text, defs !! f = Some (File path text);
  bases_among x f l chains bases b : defs !! x = Some (ClassDefinition f l chains bases) →
    b ∈ bases → b ∈ chains.*2;
  class_defined x c ms : defs !! x = Some (ClassInstanceDescription c ms) → is_Some (defs !! c);
  code_binds x d y : defs !! x = Some d → is_code d = true → y ∈ reads d → bound_id y }.

Lemma definition_found (defs : definitions) x d : defs !! x = Some d → definition_of defs x = Ret d.
Proof. intros Hd. unfold definition_of. by rewrite Hd. Qed.

Lemma definition_of_Ret (defs : definitions) x d : definition_of defs x = Ret d → defs !! x = Some d.
Proof. unfold definition_of. destruct (defs !! x); [by intros [= <-]|done]. Qed.

Lemma lineNumber_of_proper d : proper (lineNumber_of d).
Proof. destruct d; cbn; auto with proper_db. Qed.
Lemma chains_of_proper d : proper (chains_of d).
Proof. destruct d; cbn; auto with proper_db. Qed.
#[export] Hint Resolve lineNumber_of_proper chains_of_proper : proper_db.

Section adaptor.
Context {V E P A : Type} `{EqDecision V} {FN : ForaNative V E P A} {FL : ForaNativeLaws V E P A} {BD : BoundIds}.
Abbreviation state := (converter (V := V)).
Abbreviation M_ := (M (converter (V := V))).
Implicit Types s : state.

(** ** Binding and evaluating *)

(** The values of a dict are converted ones, of objects that are bound. *)
Definition values_from s (renamed : list (string * V)) : Prop :=
  ∀ kv, kv ∈ renamed → ∃ x, bound_id x ∧ convertedValues s !! x = Some kv.2.

Lemma values_from_nil s : values_from s [].
Proof. by intros kv ?%elem_of_nil. Qed.

Lemma values_from_set s k x v renamed :
  bound_id x → convertedValues s !! x = Some v → values_from s renamed → values_from s (dict_set k v renamed).
Proof. intros Hx Hv Hr kv [->|Hkv]%dict_set_elem; [by exists x|by apply Hr]. Qed.

Lemma reduce_proper s (expr : E) chains renamed :
  values_from s chains → values_from s renamed →
  proper (reduceFreeVariableMemberAccessChains expr chains renamed) ∧
  ∀ r, reduceFreeVariableMemberAccessChains expr chains renamed = Ret r → values_from s r.2.
Proof.
  revert expr renamed. induction chains as [|[chain v] chains IH]; intros expr renamed Hc Hr.
  { split; [apply proper_ret|]. by intros r [= <-]. }
  destruct (Hc (chain, v)) as (x & Hbx & Hx); [apply elem_of_cons; by left|].
  assert (Hc' : values_from s chains) by (intros kv Hkv; apply Hc, elem_of_cons; by right).
  assert (Hset : ∀ k, values_from s (dict_set k v renamed)) by (intros k; by eapply values_from_set).
  cbn [reduceFreeVariableMemberAccessChains].
  destruct (split_dots chain) as [|name [|name' parts]]; [| |];
    try (by apply IH);
    (split; [apply proper_bind; [auto with proper_db|intros n _; by apply IH]|]);
    intros r; (destruct (freshVarname _ _) as [n|]; [cbn [mbind res_bind]; by apply IH|done]).
Qed.

Lemma runs_specialize s (expr : E) renamed :
  values_from s renamed →
  runs s (specializeFreeVariablesAndEvaluate expr renamed) (λ _ _, True).
Proof.
  intros Hr. unfold specializeFreeVariablesAndEvaluate. destruct (forallb _ renamed) eqn:Hall.
  - apply (runs_bind _ _ _ (λ _ _, True)).
    { destruct (negb _); [by apply runs_raise|by apply runs_ret]. }
    intros _ s1 _ _. apply runs_get. apply (runs_bind _ _ _ (λ _ _, True)).
    { destruct (boundExpressions s1 !! expression_hash expr); [by apply runs_ret|].
      apply (runs_bind _ _ _ (λ _ _, True)); [by split|intros; by apply runs_ret]. }
    intros b s2 _ _. apply runs_lift; [apply evaluateRootLevelCreateObjectExpression_proper|done].
  - assert (Hcomp : ∃ x v, bound_id x ∧ convertedValues s !! x = Some v ∧ isImplValContainer v = false).
    { apply not_true_iff_false in Hall. rewrite forallb_forall in Hall.
      setoid_rewrite <- list_elem_of_In in Hall. setoid_rewrite <- Forall_forall in Hall.
      apply not_Forall_Exists, Exists_exists in Hall as (kv & Hkv & Hn); [|tc_solve].
      destruct (Hr kv Hkv) as (x & Hbx & Hx). exists x, kv.2. split_ands; [done|done|by apply not_true_iff_false]. }
    unfold runs, mbind, M_bind, lift. destruct (mapR _ _) as [args|e] eqn:Hargs; (split; [apply kept_refl|]); [done|].
    right. split; [|done]. by apply mapR_of_option in Hargs.
Qed.

Lemma runs_bind_and_evaluate s (expr : E) chains :
  values_from s chains →
  runs s (specializeFreeVariableMemberAccessChainsAndEvaluate expr chains) (λ _ _, True).
Proof.
  intros Hc. destruct (reduce_proper s expr chains [] Hc (values_from_nil s)) as [Hp Hv].
  apply runs_lift_bind; [done|]. intros r Hr. by apply runs_specialize, Hv.
Qed.

Lemma runs_values_of_chains s keep chains renamed :
  (∀ x, x ∈ chains.*2 → keep x = true → bound_id x ∧ have s x) → values_from s renamed →
  runs s (values_of_chains keep chains renamed) (λ r s', s' = s ∧ values_from s r).
Proof.
  revert renamed. induction chains as [|[chain x] chains IH]; intros renamed Hx Hr; cbn [values_of_chains].
  { by apply runs_ret. }
  assert (Hx' : ∀ y, y ∈ chains.*2 → keep y = true → bound_id y ∧ have s y).
  { intros y Hy. apply Hx. cbn. apply elem_of_cons. by right. }
  destruct (keep x) eqn:Hk; [|by apply IH].
  destruct (Hx x) as [Hbx Hsx]; [cbn; apply elem_of_cons; by left|done|].
  apply runs_converted_bind; [done|].
  intros v Hv. apply IH; [done|by eapply values_from_set].
Qed.

Lemma runs_values_of_bases s i bases renamed :
  (∀ x, x ∈ bases → bound_id x ∧ have s x) → values_from s renamed →
  runs s (values_of_bases i bases renamed) (λ r s', s' = s ∧ values_from s r).
Proof.
  revert i renamed. induction bases as [|x bases IH]; intros i renamed Hx Hr; cbn [values_of_bases].
  { by apply runs_ret. }
  destruct (Hx x) as [Hbx Hsx]; [apply elem_of_cons; by left|].
  apply runs_converted_bind; [done|].
  intros v Hv. apply IH; [|by eapply values_from_set]. intros y Hy. apply Hx, elem_of_cons. by right.
Qed.

(** ** Expressions of definitions *)

Section defs.
Context (defs : definitions) (Hwd : well_defined defs).

Lemma source_file_found x d f :
  defs !! x = Some d → sourceFileId_of d = Ret f →
  ∃ path text, definition_of defs f = Ret (File path text).
Proof.
  intros Hd Hf. destruct (source_is_file _ Hwd x d f Hd Hf) as (path & text & Hfile).
  exists path, text. by apply definition_found.
Qed.

Lemma nativePyAst_proper x d :
  defs !! x = Some d → proper (convertClassOrFunctionDefinitionToNativePyAst (FN := FN) defs d).
Proof.
  intros Hd. unfold convertClassOrFunctionDefinitionToNativePyAst.
  destruct (sourceFileId_of d) as [f|e] eqn:Hf; cbn [mbind res_bind].
  - destruct (source_file_found x d f Hd Hf) as (path & text & ->). cbn [mbind res_bind file_text].
    apply proper_bind; [auto with proper_db|intros p _]. apply proper_bind.
    + destruct d; cbn; auto with proper_db.
    + intros l _. apply proper_bind; [auto with proper_db|intros o _]. by apply proper_of_option.
  - destruct d; cbn in Hf; simplify_eq; auto with proper_db.
Qed.

Lemma baseClasses_proper chains bases :
  (∀ b, b ∈ bases → b ∈ chains.*2) → proper (baseClasses chains bases).
Proof.
  intros Hb. apply proper_mapR. intros b Hin. apply proper_fmap, proper_of_option. intros Hnone.
  destruct (dict_get_elem b ((λ kv, (kv.2, kv.1)) <$> reverse chains)) as [n Hn]; [|congruence].
  rewrite <- list_fmap_compose, (list_fmap_ext _ snd) by done.
  rewrite list_elem_of_fmap. destruct (list_elem_of_fmap_1 _ _ _ (Hb b Hin)) as (kv & -> & Hkv).
  exists kv. split; [done|]. by rewrite elem_of_reverse.
Qed.

Lemma foraFunctionExpression_proper x d :
  defs !! x = Some d →
  proper (convertPyClassOrFunctionDefinitionToForaFunctionExpression (FN := FN) defs d).
Proof.
  intros Hd. unfold convertPyClassOrFunctionDefinitionToForaFunctionExpression.
  apply proper_bind; [by eapply nativePyAst_proper|intros pyAst Hast].
  destruct (sourceFileId_of d) as [f|e] eqn:Hf.
  2:{ unfold convertClassOrFunctionDefinitionToNativePyAst in Hast. by rewrite Hf in Hast. }
  destruct (source_file_found x d f Hd Hf) as (path & text & Hfile). cbn [mbind res_bind].
  rewrite Hfile. cbn [mbind res_bind file_path].
  destruct d; auto with proper_db.
  - destruct (isFunctionDef pyAst), (isLambda pyAst); auto with proper_db; by apply proper_of_option.
  - apply proper_bind; [apply baseClasses_proper; intros b Hb; by eapply bases_among|intros ns _].
    destruct (isClassDef pyAst); auto with proper_db. by apply proper_of_option.
Qed.

Lemma withBlockExpression_proper x chains f l :
  defs !! x = Some (WithBlockDescription chains f l) →
  proper (getFunctionExpressionFromWithBlockDescription (FN := FN) defs chains f l).
Proof.
  intros Hd. destruct (source_file_found x _ f Hd eq_refl) as (path & text & Hfile).
  unfold getFunctionExpressionFromWithBlockDescription, getNativePythonFunctionDefFromWithBlockDescription.
  rewrite Hfile. cbn [mbind res_bind file_text file_path].
  apply proper_bind.
  - apply proper_bind; [auto with proper_db|intros tree _].
    apply proper_bind; [auto with proper_db|intros w _]. destruct w; auto with proper_db.
  - intros w _. by apply proper_of_option.
Qed.

(** ** Values *)

Lemma runs_convertWithBlock s x chains f l :
  defs !! x = Some (WithBlockDescription chains f l) → (∀ y, y ∈ chains.*2 → have s y) →
  runs s (convertWithBlock defs chains f l) (λ _ _, True).
Proof.
  intros Hd Hy. apply runs_lift_bind; [by eapply withBlockExpression_proper|intros expr _].
  eapply runs_bind; [apply (runs_values_of_chains s); [|apply values_from_nil]|].
  { intros y Hin _. split; [by eapply (code_binds _ Hwd)|by apply Hy]. }
  intros r s' _ [-> Hr]. by apply runs_bind_and_evaluate.
Qed.

Lemma runs_convertClassOrFunction s x d :
  defs !! x = Some d → (∀ y, y ∈ reads d → have s y) →
  (∃ f l chains, d = FunctionDefinition f l chains) ∨
  (∃ f l chains bases, d = ClassDefinition f l chains bases) →
  runs s (convertClassOrFunctionDefinitionWithNoDependencies defs d) (λ _ _, True).
Proof.
  intros Hd Hy Hkind. apply runs_lift_bind; [by eapply foraFunctionExpression_proper|intros expr _].
  apply runs_lift_bind; [destruct d; cbn; auto with proper_db|intros chains Hchains].
  assert (Hb : ∀ y, y ∈ reads d → bound_id y ∧ have s y).
  { intros y Hin. split; [|by apply Hy]. apply (code_binds _ Hwd x d); [done| |done].
    by destruct Hkind as [(f & l & ch & ->)|(f & l & ch & bs & ->)]. }
  eapply runs_bind; [apply (runs_values_of_chains s); [|apply values_from_nil]|].
  { intros y Hin _. apply Hb. by destruct Hkind as [(f & l & ch & ->)|(f & l & ch & bs & ->)]; cbn in Hchains; simplify_eq. }
  intros r s' _ [-> Hr]. apply (runs_bind _ _ _ (λ r s', s' = s ∧ values_from s r)).
  - destruct d; try (by apply runs_ret). apply runs_values_of_bases; [|done].
    intros b Hin. apply Hb. cbn. by eapply bases_among.
  - intros r' s' _ [-> Hr']. by apply runs_bind_and_evaluate.
Qed.

Lemma runs_convertClassInstance s x c ms :
  have s c → (∀ y, y ∈ ms.*2 → have s y) →
  runs s (convertClassInstanceDescription x c ms) (λ _ s', have s' x).
Proof.
  intros Hc Hms. eapply runs_bind.
  { apply runs_mapM. intros kv Hkv. apply runs_converted_bind; [|intros v _; by apply runs_ret].
    apply Hms, list_elem_of_fmap. by exists kv. }
  intros vs s' _ ->. apply runs_converted_bind; [done|intros cv _].
  apply runs_lift_bind; [auto with proper_db|]. intros [] _.
  - apply runs_set_value, set_value_have. by left.
  - apply runs_lift_bind; [auto with proper_db|]. intros [v|] _; [|by apply runs_raise].
    apply runs_set_value, set_value_have. by left.
Qed.

(** ** Mutually recursive objects *)

Lemma naive_function_proper x : is_Some (defs !! x) → proper (naive_function (FN := FN) defs x).
Proof.
  intros [d Hd]. unfold naive_function. rewrite (definition_found _ _ _ Hd). cbn [mbind res_bind].
  destruct d; auto with proper_db;
    try (apply proper_bind; [by eapply foraFunctionExpression_proper|auto with proper_db]).
  destruct (class_defined _ Hwd _ _ _ Hd) as [c Hc]. rewrite (definition_found _ _ _ Hc). cbn [mbind res_bind].
  destruct (sourceFileId_of c) as [f|e] eqn:Hf; cbn [mbind res_bind].
  - destruct (source_file_found _ c f Hc Hf) as (path & text & ->). cbn [mbind res_bind file_path].
    apply proper_bind; auto with proper_db.
  - destruct c; cbn in Hf; simplify_eq; auto with proper_db.
Qed.

Lemma naive_function_Ret x r :
  naive_function (FN := FN) defs x = Ret r →
  r.1 = x ∧ ∃ d chains, defs !! x = Some d ∧ chains_of d = Ret chains ∧ reads d = chains.*2.
Proof.
  unfold naive_function. destruct (definition_of defs x) as [d|] eqn:Hd; [|done].
  apply definition_of_Ret in Hd. cbn [mbind res_bind]. destruct d; try done.
  1,2: destruct (convertPyClassOrFunctionDefinitionToForaFunctionExpression _ _); [|done];
    intros [= <-]; split; [done|]; eexists _, _; by split_ands.
  destruct (definition_of defs classId) as [c|]; [|done]. cbn [mbind res_bind].
  destruct (sourceFileId_of c) as [f|]; [|done]. cbn [mbind res_bind].
  destruct (definition_of defs f) as [fd|]; [|done]. cbn [mbind res_bind].
  destruct (lineNumber_of c); [|done]. by destruct fd.
Qed.

Lemma renamed_proper (functions : list (Z * E)) mentioned : proper (computeRenamedObjectMapping functions mentioned).
Proof.
  revert mentioned. induction functions as [|[x e] functions IH]; intros mentioned; cbn [computeRenamedObjectMapping]; auto with proper_db.
Qed.

Lemma renamed_ids (functions : list (Z * E)) mentioned r :
  computeRenamedObjectMapping functions mentioned = Ret r → r.*1 = functions.*1.
Proof.
  revert mentioned r. induction functions as [|[x e] functions IH]; intros mentioned r; cbn; [by intros [= <-]|].
  destruct (freshVarname _ _); cbn; [|done].
  destruct (computeRenamedObjectMapping functions _) as [r'|] eqn:Hr; cbn; [|done].
  intros [= <-]. cbn. f_equal. by eapply IH.
Qed.

(** The members of the object that is built are the component. *)
Lemma created_object component :
  (∀ x, x ∈ component → is_Some (defs !! x)) →
  proper (getCreateObjectExpressionAndMemberToObjectIdMap (FN := FN) defs component) ∧
  ∀ r, getCreateObjectExpressionAndMemberToObjectIdMap (FN := FN) defs component = Ret r →
    r.2.*1 = component ∧
    ∀ x, x ∈ component → ∃ d chains, defs !! x = Some d ∧ chains_of d = Ret chains ∧ reads d = chains.*2.
Proof.
  intros Hdef. unfold getCreateObjectExpressionAndMemberToObjectIdMap.
  destruct (mapR _ component) as [functions|e] eqn:Hfun; cbn [mbind res_bind].
  2:{ split; [|done]. intros e' [= <-]. eapply proper_mapR; [|exact Hfun].
      intros x Hx. by apply naive_function_proper, Hdef. }
  pose proof (mapR_fmap _ id fst _ _ (λ x y Hxy, proj1 (naive_function_Ret x y Hxy)) Hfun) as Hids.
  rewrite list_fmap_id in Hids.
  assert (Hchains : ∀ x, x ∈ component → ∃ d chains, defs !! x = Some d ∧ chains_of d = Ret chains ∧ reads d = chains.*2).
  { intros x Hx. apply mapR_Ret in Hfun. apply list_elem_of_lookup in Hx as [i Hi].
    eapply Forall2_lookup_l in Hfun as (y & _ & Hy); [|exact Hi]. by apply naive_function_Ret in Hy as [_ ?]. }
  destruct (computeRenamedObjectMapping functions []) as [renamed|e] eqn:Hren; cbn [mbind res_bind].
  2:{ split; [|done]. intros e' [= <-]. by eapply renamed_proper. }
  apply renamed_ids in Hren as Hrids. rewrite Hids in Hrids.
  destruct (replaceKnownMemberChainsWithRenamedVariables defs functions renamed) as [known|e] eqn:Hkn; cbn [mbind res_bind].
  2:{ split; [|done]. intros e' [= <-]. eapply proper_mapR; [|exact Hkn]. intros [x ex] Hx. cbn.
      destruct (Hchains x) as (d & chains & Hd & Hch & _); [rewrite <- Hids; by apply (list_elem_of_fmap_2 fst) in Hx|].
      rewrite (definition_found _ _ _ Hd). cbn. rewrite Hch. cbn. apply proper_ret. }
  assert (Hkids : known.*1 = component).
  { rewrite <- Hids. eapply mapR_fmap; [|exact Hkn]. intros [x ex] y. cbn.
    destruct (definition_of defs x) as [d|]; [|done]. cbn. destruct (chains_of d); [|done]. cbn. by intros [= <-]. }
  destruct (mapR _ (merge_sort _ renamed)) as [members|e] eqn:Hmem; cbn [mbind res_bind].
  - split; [apply proper_ret|]. by intros r [= <-].
  - split; [|done]. intros e' [= <-]. eapply proper_mapR; [|exact Hmem]. intros [x n] Hx. cbn.
    apply proper_bind; [apply proper_of_option; intros Hnone|intros; apply proper_ret].
    destruct (dict_get_elem x known) as [k Hk]; [|congruence]. rewrite Hkids, <- Hrids.
    rewrite merge_sort_Permutation in Hx. by apply (list_elem_of_fmap_2 fst) in Hx.
Qed.

Lemma runs_dependent_values s component todo renamed :
  (∀ x, x ∈ todo → ∃ d chains, defs !! x = Some d ∧ chains_of d = Ret chains ∧
    ∀ y, y ∈ chains.*2 → bound_id y ∧ (y ∈ component ∨ have s y)) →
  values_from s renamed →
  runs s (dependent_values defs component todo renamed) (λ r s', s' = s ∧ values_from s r).
Proof.
  revert renamed. induction todo as [|x todo IH]; intros renamed Hx Hr; cbn [dependent_values]; [by apply runs_ret|].
  destruct (Hx x) as (d & chains & Hd & Hch & Hhave); [apply elem_of_cons; by left|].
  rewrite (definition_found _ _ _ Hd). apply runs_lift_bind; [apply proper_ret|]. intros ? [= <-].
  rewrite Hch. apply runs_lift_bind; [apply proper_ret|]. intros ? [= <-].
  eapply runs_bind; [apply runs_values_of_chains; [|exact Hr]|].
  - intros y Hy Hk. destruct (Hhave y Hy) as [Hby [Hc|]]; [|done]. by rewrite bool_decide_true in Hk.
  - intros r s' _ [-> Hr']. apply IH; [|done]. intros y Hy. apply Hx, elem_of_cons. by right.
Qed.

Lemma runs_convertMutuallyRecursive s component :
  (∀ x d, x ∈ component → defs !! x = Some d → ∀ y, y ∈ reads d → y ∈ component ∨ have s y) →
  (∀ x, x ∈ component → is_Some (defs !! x)) →
  runs s (convertMutuallyRecursiveObjects defs component) (λ r _, r.2.*1 = component).
Proof.
  intros Hreads Hdef. destruct (created_object component Hdef) as [Hp Hc].
  apply runs_lift_bind; [done|]. intros created Hcr. destruct (Hc created Hcr) as [Hids Hch].
  eapply runs_bind; [apply (runs_dependent_values s _ _ []); [|apply values_from_nil]|].
  - intros x Hx. rewrite Hids in Hx |- *. destruct (Hch x Hx) as (d & chains & Hd & Hcd & Hr).
    exists d, chains. split_ands; [done|done|]. rewrite <- Hr. intros y Hy.
    split; [|by apply (Hreads x d)]. apply (code_binds _ Hwd x d); [done| |done]. by destruct d.
  - intros r s' _ [-> Hr]. eapply runs_bind; [by apply runs_bind_and_evaluate|].
    intros v s' _ _. by apply runs_ret.
Qed.
End defs.
End adaptor.
