(* ===== verification/ConverterSpec.v ===== *)
(** * The converter finds what it needs

    Proofs on [Converter.v]: components are converted in an order in which every value
    that is read is there, whatever the nesting of containers, so that a conversion of
    well-formed definitions ends in a value or in an exception of its own. *)
From Stdlib Require Import Lia.
From stdpp Require Import base gmap sets list strings fin_maps fin_map_dom relations.
From S2P Require Import Prelude TypeDescription ObjectRegistry StronglyConnectedComponents NativeConverterAdaptor Converter ConverterGraphs ConverterRuns NativeConverterAdaptorSpec.

Set Default Proof Using "All".

(** ** What is converted *)

Abbreviation path g := (rtc (gedge g)).

(** What a conversion needs to know of the graph and the definitions of a request: an
    object refers to itself only if it is a container, which is refused, or together
    with other objects. *)
Record convertible `{BoundIds} (G : graph) (defs : definitions) : Prop := {
  graph_closed : closed G;
  graph_defined x : x ∈ dom G → is_Some (defs !! x);
  graph_reads x d y : defs !! x = Some d → y ∈ reads d → gedge G x y;
  graph_files : well_defined defs;
  no_self_reference x d : defs !! x = Some d → x ∈ reads d →
    container d = true ∨ ∃ y, y ≠ x ∧ path G x y ∧ path G y x }.

(** ** Components *)

Section components.
Context (G : graph).

Definition scc (c : list Z) : Prop :=
  c ≠ [] ∧ ∀ x, x ∈ c → x ∈ dom G ∧ ∀ y, y ∈ c ↔ path G x y ∧ path G y x.

Section subgraph.
Context (g : graph) (Hsub : g ⊆ G) (Hcl : closed g).

Lemma path_sub x y : x ∈ dom g → path G x y → y ∈ dom g ∧ path g x y.
Proof. by apply reaches_closed. Qed.

Lemma edge_sub x y : x ∈ dom g → gedge G x y → gedge g x y.
Proof.
  intros Hx (l & Hl & Hy). apply elem_of_dom in Hx as [l' Hl']. exists l'. split; [done|].
  rewrite (lookup_weaken _ _ _ _ Hl' Hsub) in Hl. by simplify_eq.
Qed.

Context (components : list (list Z)) (Hcomp : components_of (map_to_list g) components).

Lemma component_scc c : c ∈ components → scc c.
Proof.
  intros Hc. split; [by eapply nonempty|]. intros x Hx.
  assert (Hxg : x ∈ dom g) by (by eapply component_dom).
  split; [by apply (subseteq_dom g)|]. intros y. rewrite (component_mutual _ _ Hcomp c x y Hc Hx).
  assert (Hpath : ∀ a b, rtc (StronglyConnectedComponents.edge (map_to_list g)) a b ↔ path g a b).
  { intros a b. split; intros Hab; induction Hab as [|? ? ? Hab]; try done;
      (eapply rtc_l; [apply edge_gedge, Hab|done]). }
  unfold mutual. rewrite !Hpath. split; [by intros [??]; split; eapply reaches_subgraph|].
  intros [Hxy Hyx]. apply path_sub in Hxy as [Hyg ?]; [|done]. by apply path_sub in Hyx as [_ ?].
Qed.

End subgraph.
End components.

(** ** Objects without members *)

Section atoms.
Context {V E P A : Type} `{EqDecision V} {FN : ForaNative V E P A} {FL : ForaNativeLaws V E P A} {BD : BoundIds}.
Implicit Types s : converter (V := V).

Lemma runs_read_all s (ids : list Z) : (∀ y, y ∈ ids → have s y) →
  runs s (mapM converted ids) (λ _ s', s' = s).
Proof. intros Hy. apply runs_mapM. intros y Hin. by apply runs_converted; [apply Hy|]. Qed.

Lemma runs_instanceMethod s i m : have s i → runs s (convertInstanceMethod i m) (λ _ _, True).
Proof.
  intros Hi. apply runs_converted_bind; [done|intros v _]. apply runs_lift_bind; [auto with proper_db|intros o _].
  apply runs_lift; [by apply proper_of_option|done].
Qed.

Lemma convertPrimitive_proper d : proper (convertPrimitive d).
Proof. destruct d as [[]| | | | | | | | | | | | | |]; cbn; auto with proper_db. Qed.

(** A string is converted as it was given to the client's registry. *)
Lemma convertPrimitive_defined o (str : string) r :
  ∃ d, ObjectRegistry.objectIdToObjectDefinition (definePrimitive o (PStr str) r).2 !! o = Some d ∧
    convertPrimitive d = convertConstant (PStr str).
Proof. eexists. split; [apply lookup_insert_eq|]. cbn. by rewrite PyStrings.Base64.b64_roundtrip. Qed.

Context (pythonNameToInstance : gmap string V) (pyExceptionClass : V).

Lemma instantiateException_proper n a : proper (instantiateException pythonNameToInstance pyExceptionClass n a).
Proof.
  unfold instantiateException. destruct (convertSingletonByName _ n); [|apply proper_ret].
  apply proper_fmap, simulateApply_proper.
Qed.

Lemma runs_exception s n a :
  have s a → runs s (convertBuiltinExceptionInstance pythonNameToInstance pyExceptionClass n a) (λ _ _, True).
Proof.
  intros Ha. apply runs_converted_bind; [done|intros v _]. apply runs_lift; [apply instantiateException_proper|done].
Qed.

Lemma convertNamedSingleton_proper n : proper (convertNamedSingleton pythonNameToInstance n).
Proof using Type. by apply proper_of_option. Qed.
End atoms.

Section converter.
Context {V E P A : Type} `{EqDecision V} {FN : ForaNative V E P A} {BD : BoundIds}.
Abbreviation state := (converter (V := V)).
Abbreviation M_ := (M (converter (V := V))).
Implicit Types s : state.
Context (G : graph) (defs : definitions) (Hconv : convertible G defs).
Abbreviation scc := (scc G).

(** What a remote object refers to was converted in an earlier request. *)
Definition remote_known s (arg : pyval) : Prop :=
  match arg with
  | Prim (PInt i) => have s i
  | Prim (PBool b) => have s (if b then 1 else 0)%Z
  | _ => True
  end.
Definition remotes_known s : Prop :=
  ∀ x arg, defs !! x = Some (RemotePythonObject arg) → remote_known s arg.

Definition inv s : Prop := remotes_known s ∧ comps_ok s.

Lemma kept_inv s s' : grows s s' → inv s → inv s'.
Proof.
  intros [Hh Hc] [Hr Hok]. split; [|auto]. intros x arg Hx. specialize (Hr x arg Hx).
  destruct arg as [[]| | | | |]; cbn in *; auto.
Qed.

(** What a component needs is in it or converted. *)
Definition ready (c : list Z) s : Prop := ∀ x y, x ∈ c → gedge G x y → y ∈ c ∨ have s y.

Lemma ready_reads c s x d y : ready c s → x ∈ c → defs !! x = Some d → y ∈ reads d → y ∈ c ∨ have s y.
Proof. intros Hc Hx Hd Hy. apply (Hc x); [done|]. by eapply graph_reads. Qed.

(** An object that is a component of its own, and no container, does not refer to
    itself. *)
Lemma ready_alone x d s :
  scc [x] → ready [x] s → defs !! x = Some d → container d = false → ∀ y, y ∈ reads d → have s y.
Proof.
  intros [_ Hscc] Hr Hd Hcont y Hy. assert (Hx : x ∈ [x]) by (apply elem_of_cons; by left).
  destruct (ready_reads _ _ _ _ _ Hr Hx Hd Hy) as [->%list_elem_of_singleton|]; [|done].
  destruct (no_self_reference _ _ Hconv _ _ Hd Hy) as [|(z & Hz & Hxz & Hzx)]; [congruence|].
  destruct (Hscc x Hx) as [_ Hm]. assert (Hin : z ∈ [x]) by (by apply Hm).
  by apply list_elem_of_singleton in Hin.
Qed.

Section subgraph.
Context (g : graph) (Hsub : g ⊆ G) (Hcl : closed g).
Context (components : list (list Z)) (Hcomp : components_of (map_to_list g) components).

(** When the components before one are converted, it can be. *)
Lemma component_ready pre c post s :
  components = pre ++ c :: post → (∀ x, x ∈ concat pre → have s x) → ready c s.
Proof.
  intros Heq Hpre x y Hx Hxy.
  assert (Hxg : x ∈ dom g).
  { eapply component_dom; [done|done| |exact Hx]. rewrite Heq. apply elem_of_app. right. apply elem_of_cons. by left. }
  destruct (component_edge g components Hcl Hcomp pre c post x y Heq Hx) as [|Hy]; [by apply (edge_sub G)|by left|right; auto].
Qed.

(** One component after the other. *)
Lemma runs_components (rec : list Z → M_ unit) pre todo post s :
  components = pre ++ todo ++ post → (∀ x, x ∈ concat pre → have s x) → inv s →
  (∀ c s', c ∈ todo → ready c s' → inv s' → runs s' (rec c) (λ _ s'', ∀ x, x ∈ c → have s'' x)) →
  runs s (forM_ rec todo) (λ _ s', ∀ x, x ∈ concat (pre ++ todo) → have s' x).
Proof.
  revert pre s. induction todo as [|c todo IH]; intros pre s Heq Hpre Hinv Hrec.
  { apply runs_ret. by rewrite app_nil_r. }
  change (runs s (rec c ;; forM_ rec todo) (λ _ s', ∀ x, x ∈ concat (pre ++ c :: todo) → have s' x)).
  rewrite (cons_middle c pre todo), (app_assoc pre [c] todo).
  cbn in Heq. rewrite (cons_middle c pre), (app_assoc pre [c]) in Heq.
  eapply runs_bind.
  - apply Hrec; [apply elem_of_cons; by left| |done]. eapply component_ready; [|exact Hpre].
    rewrite Heq, <- app_assoc. done.
  - intros [] s1 Hg Hc. apply IH; [by rewrite Heq, <- !app_assoc| |by eapply kept_inv|].
    + intros x. rewrite concat_app, elem_of_app. cbn. rewrite app_nil_r.
      intros [Hx|Hx]; [eapply kept_have, Hpre; done|by apply Hc].
    + intros c' s' Hc'. apply Hrec, elem_of_cons. by right.
Qed.
End subgraph.

Context {FL : ForaNativeLaws V E P A}.


(** ** Containers *)

Lemma restricted_trans g x r : g ⊆ G → restricted g x r → restricted G x r.
Proof. intros Hg []. split; [by etrans|done..]. Qed.

(** What a container refers to, directly or not, has a smaller restricted graph. *)
Lemma restricted_smaller x y rx ry :
  restricted G x rx → restricted G y ry → y ∈ dom rx → ¬ path G y x → size ry < size rx.
Proof.
  intros Hx Hy Hyx Hno. rewrite <- !(size_dom (D := gset Z)). apply subset_size. split.
  - intros z Hz. apply (reaches_closed rx G y z); [apply Hx|apply Hx|done|].
    eapply reaches_subgraph; [apply Hy|]. by apply (restricted_reaches _ _ _ Hy).
  - intros Hsub. apply Hno. eapply reaches_subgraph; [apply Hy|]. apply (restricted_reaches _ _ _ Hy), Hsub.
    apply Hx.
Qed.

Section members.
Context (rec : graph → list Z → M_ unit) (x : Z) (r : graph) (Hr : restricted G x r).

(** [rec] converts the components of the members. *)
Context (Hrec : ∀ c s, scc c → (∀ y, y ∈ c → y ∈ dom r ∧ ¬ path G y x) → ready c s → inv s →
  runs s (rec r c) (λ _ s', ∀ y, y ∈ c → have s' y)).

Lemma runs_convertListMembers s :
  inv s →
  runs s (convertListMembers rec x r) (λ _ s', ¬ gedge G x x ∧ ∀ y, y ∈ dom r → y ≠ x → have s' y).
Proof.
  intros Hinv. destruct Hr as [Hsub Hcl Hx Hall]. unfold convertListMembers.
  destruct (components_found (map_to_list r)) as (components & -> & Hcomp).
  apply runs_lift_bind; [apply proper_ret|]. intros ? [= <-].
  destruct (last_component r components Hcl Hcomp x Hx Hall) as (pre & c & Heq & Hxc).
  unfold assertContainerDoesNotReferenceItself. rewrite Heq, last_snoc. cbn [of_option mbind res_bind].
  rewrite (bool_decide_eq_true_2 _ Hxc). cbn [py_assert mbind res_bind].
  case_bool_decide as Hlen; [by apply runs_lift_raise|].
  assert (c = [x]) as ->.
  { destruct c as [|y [|]]; [by apply elem_of_nil in Hxc|by apply list_elem_of_singleton in Hxc as ->|cbn in Hlen; lia]. }
  apply elem_of_dom in Hx as [deps Hdeps]. rewrite Hdeps. cbn [of_option mbind res_bind].
  case_bool_decide as Hself; [by apply runs_lift_raise|].
  apply runs_lift_bind; [apply proper_ret|]. intros _ _. rewrite removelast_last.
  assert (Hno : ¬ gedge G x x).
  { intros Hxx. destruct (edge_sub G r Hsub Hcl x x) as (l & Hl & Hin); [by eapply elem_of_dom_2|done|by simplify_eq]. }
  assert (Hpre : ∀ y, y ∈ concat pre → y ≠ x).
  { intros y Hy ->. pose proof (only_once _ _ Hcomp) as Hnd. rewrite Heq, concat_app in Hnd.
    apply NoDup_app in Hnd as (_ & Hnd & _). apply (Hnd x Hy). cbn. apply elem_of_cons. by left. }
  assert (Hin : ∀ c y, c ∈ pre → y ∈ c → y ∈ dom r ∧ y ≠ x).
  { intros c y Hc Hy. split; [|by apply Hpre, elem_of_concat; exists c].
    eapply component_dom; [done|done| |exact Hy]. rewrite Heq. apply elem_of_app. by left. }
  eapply runs_mono; [apply (runs_components r Hsub Hcl components Hcomp _ [] pre [[x]]); [done| |done|]|].
  - intros y Hy. by apply elem_of_nil in Hy.
  - intros c s' Hc. assert (Hscc : scc c).
    { eapply component_scc; [done..|]. rewrite Heq. apply elem_of_app. by left. }
    apply Hrec; [done|]. intros y Hy. destruct (Hin c y Hc Hy) as [Hyr Hyx]. split; [done|].
    intros Hback. apply Hyx. destruct Hscc as [_ Hscc]. destruct (Hscc y Hy) as [_ Hm].
    destruct (Hin c x Hc) as [_ []]; [|done]. apply Hm. split; [done|].
    eapply reaches_subgraph; [exact Hsub|by apply Hall].
  - intros [] s' _ Hs'. split; [done|]. intros y Hy Hyx. apply Hs'. cbn.
    destruct (in_component r components Hcl Hcomp y Hy) as (c & Hc & Hyc). apply elem_of_concat.
    exists c. split; [done|]. rewrite Heq, elem_of_app in Hc. destruct Hc as [| ->%list_elem_of_singleton]; [done|].
    by apply list_elem_of_singleton in Hyc.
Qed.

(** The three containers: their members, then their value. *)
Lemma runs_container s d (build : M_ V) :
  defs !! x = Some d → container d = true → inv s →
  (∀ s', (∀ y, y ∈ reads d → have s' y) → runs s' build (λ _ _, True)) →
  runs s (convertListMembers rec x r ;; build) (λ _ s', ∀ y, y ∈ dom r → y ≠ x → have s' y).
Proof.
  intros Hd _ Hinv Hbuild. eapply runs_bind; [by apply runs_convertListMembers|].
  intros _ s1 _ [Hno Hhave]. eapply runs_mono.
  - apply Hbuild. intros y Hy. assert (Hxy : gedge G x y) by (by eapply graph_reads).
    apply Hhave; [|by intros ->]. apply (restricted_closed _ _ _ Hr x).
    apply (edge_sub G r (restricted_sub _ _ _ Hr) (restricted_closed _ _ _ Hr)); [apply Hr|done].
  - intros v s2 Hg _ y Hy Hyx. eapply kept_have, Hhave; done.
Qed.

Lemma runs_convertList s ms :
  defs !! x = Some (List ms) → inv s →
  runs s (convertList rec x r ms) (λ _ s', ∀ y, y ∈ dom r → y ≠ x → have s' y).
Proof.
  intros Hd Hinv. eapply runs_container; [done..|]. intros s' Hs'.
  eapply runs_bind; [by apply runs_read_all|]. intros vs ? _ ->. apply runs_lift; auto with proper_db.
Qed.

Lemma runs_convertTuple s ms :
  defs !! x = Some (Tuple ms) → inv s →
  runs s (convertTuple rec x r ms) (λ _ s', ∀ y, y ∈ dom r → y ≠ x → have s' y).
Proof.
  intros Hd Hinv. eapply runs_container; [done..|]. intros s' Hs'.
  eapply runs_bind; [by apply runs_read_all|]. intros vs ? _ ->. apply runs_lift; auto with proper_db.
Qed.

Lemma runs_convertDict s ks vs :
  defs !! x = Some (Dict ks vs) → inv s →
  runs s (convertDict rec x r ks vs) (λ _ s', ∀ y, y ∈ dom r → y ≠ x → have s' y).
Proof.
  intros Hd Hinv. eapply runs_container; [done..|]. intros s' Hs'.
  eapply runs_bind.
  - apply (runs_mapM s'). intros [k v] Hkv. cbn.
    apply runs_converted_bind; [by eapply Hs', elem_of_app; left; eapply elem_of_zip_l|intros kv _].
    apply runs_converted_bind; [by eapply Hs', elem_of_app; right; eapply elem_of_zip_r|intros vv _]. by apply runs_ret.
  - intros items ? _ ->. apply runs_lift; auto with proper_db.
Qed.
End members.

(** ** One object *)

Context (pythonNameToInstance : gmap string V) (pyExceptionClass : V).

Lemma runs_remote s x arg :
  defs !! x = Some (RemotePythonObject arg) → inv s → runs s (convertRemotePythonObject arg) (λ _ _, True).
Proof.
  intros Hd [Hr _]. specialize (Hr x arg Hd).
  destruct arg as [[]| | | | |]; try (by apply runs_ret); by apply runs_converted.
Qed.


Section one_node.
Context (rec : graph → list Z → M_ unit) (g : graph) (Hsub : g ⊆ G) (Hcl : closed g).
Context (x : Z) (Hx : x ∈ dom g) (Hscc : scc [x]).
Context (Hrec : ∀ r, restricted G x r → ∀ c s, scc c → (∀ y, y ∈ c → y ∈ dom r ∧ ¬ path G y x) →
  ready c s → inv s → runs s (rec r c) (λ _ s', ∀ y, y ∈ c → have s' y)).

(** A container is converted in the graph of what it reaches. *)
Lemma runs_restricted s (conv : graph → M_ V) :
  (∀ r, restricted G x r → runs s (conv r) (λ _ s', ∀ y, y ∈ dom r → y ≠ x → have s' y)) →
  runs s (r ← lift (computeRestrictedGraph x g); v ← conv r; set_value x v) (λ _ s', have s' x).
Proof.
  intros Hc. destruct (computeRestrictedGraph_restricted g x Hcl Hx) as (r & Hr & Hrest).
  apply runs_lift_bind; [rewrite Hr; apply proper_ret|]. intros r' Hr'. rewrite Hr in Hr'. injection Hr' as <-.
  eapply runs_store, Hc. by eapply restricted_trans.
Qed.

Lemma runs_bases s f l chains bases :
  defs !! x = Some (ClassDefinition f l chains bases) → ready [x] s →
  runs s (forM_ (convert_base pythonNameToInstance pyExceptionClass defs rec g) bases) (λ _ s', s' = s).
Proof.
  intros Hd Hready. assert (Hb : ∀ b, b ∈ bases → have s b).
  { intros b Hb. eapply ready_alone; [done..|]. cbn. eapply bases_among; [apply Hconv|done|done]. }
  clear Hd. induction bases as [|b bases IH]; [by apply runs_ret|].
  assert (Hhb : bool_decide (b ∈ dom (convertedValues s)) = true).
  { apply bool_decide_eq_true_2, Hb, elem_of_cons. by left. }
  change (runs s (convert_base pythonNameToInstance pyExceptionClass defs rec g b ;;
    forM_ (convert_base pythonNameToInstance pyExceptionClass defs rec g) bases) (λ _ s', s' = s)).
  apply (runs_bind _ _ _ (λ _ s', s' = s)).
  - unfold convert_base. apply runs_get. rewrite Hhb. eapply runs_bind; [by apply (runs_ret s tt (λ _ s', s' = s))|].
    intros [] ? _ ->. apply runs_get. rewrite Hhb. by apply runs_lift; [apply proper_ret|].
  - intros [] ? _ ->. apply IH. intros b' Hb'. apply Hb, elem_of_cons. by right.
Qed.

Lemma runs_oneNode s :
  ready [x] s → inv s →
  runs s (convertComponentWithOneNode pythonNameToInstance pyExceptionClass defs rec g x) (λ _ s', have s' x).
Proof.
  intros Hready Hinv. destruct (graph_defined _ _ Hconv x) as [d Hd]; [by apply (subseteq_dom g)|].
  unfold convertComponentWithOneNode. apply runs_lift_bind; [rewrite (definition_found _ _ _ Hd); apply proper_ret|].
  rewrite (definition_found _ _ _ Hd). intros ? [= <-].
  pose proof (ready_alone x d s Hscc Hready Hd) as Hreads.
  pose proof (graph_files _ _ Hconv) as Hwd.
  destruct d; cbn [container] in Hreads; try specialize (Hreads eq_refl).
  - apply (runs_store _ _ _ (λ _ _, True)), runs_lift; [apply convertPrimitive_proper|done].
  - apply (runs_store _ _ _ (λ _ _, True)), runs_lift; [apply convertPrimitive_proper|done].
  - apply runs_restricted. intros r Hr. eapply runs_convertTuple; [done|by apply Hrec|done|done].
  - apply runs_restricted. intros r Hr. eapply runs_convertList; [done|by apply Hrec|done|done].
  - apply runs_set_value, set_value_have. by left.
  - apply runs_restricted. intros r Hr. eapply runs_convertDict; [done|by apply Hrec|done|done].
  - by eapply runs_store, runs_remote.
  - apply (runs_store _ _ _ (λ _ _, True)), runs_exception, Hreads, elem_of_cons. by left.
  - apply (runs_store _ _ _ (λ _ _, True)), runs_lift; [apply convertNamedSingleton_proper|done].
  - apply (runs_store _ _ _ (λ _ _, True)), (runs_convertClassOrFunction defs Hwd s x); [done|done|by left; do 3 eexists].
  - eapply runs_bind; [by eapply runs_bases|]. intros [] ? _ ->.
    apply (runs_store _ _ _ (λ _ _, True)), (runs_convertClassOrFunction defs Hwd s x); [done|done|by right; do 4 eexists].
  - apply runs_set_value, set_value_have. by left.
  - apply runs_get. case_bool_decide as Hin; [by apply runs_ret|].
    apply (runs_convertClassInstance defs Hwd); [apply Hreads, elem_of_cons; by left|].
    intros y Hy. apply Hreads, elem_of_cons. by right.
  - apply (runs_store _ _ _ (λ _ _, True)), runs_instanceMethod, Hreads, elem_of_cons. by left.
  - by eapply runs_store, runs_convertWithBlock.
Qed.
End one_node.

(** ** Several objects *)

Lemma runs_registerObjectMembers s v (renamed : list (Z * string)) :
  runs s (registerObjectMembers v renamed) (λ _ s', ∀ x, x ∈ renamed.*1 → have s' x).
Proof.
  assert (Hgen : ∀ ids s, (∀ x, x ∈ ids → have s x) →
    runs s (registerObjectMembers v renamed) (λ _ s', ∀ x, x ∈ ids ++ renamed.*1 → have s' x)).
  { induction renamed as [|[x n] renamed IH]; intros ids s0 Hids; [apply runs_ret; by rewrite app_nil_r|].
    unfold registerObjectMembers. cbn. rewrite (cons_middle x ids), (app_assoc ids [x]).
    apply (runs_bind _ _ _ (λ _ s', ∀ y, y ∈ ids ++ [x] → have s' y)); [|by intros [] s1 _ Hs1; apply IH].
    apply runs_lift_bind; [auto with proper_db|]. intros [m|] _; [|by apply runs_raise].
    apply runs_set_value. intros y. rewrite set_value_have, elem_of_app, list_elem_of_singleton. naive_solver. }
  apply (Hgen []). intros x Hx. by apply elem_of_nil in Hx.
Qed.

Lemma runs_moreThanOneNode s c :
  scc c → ready c s →
  runs s (convertComponentWithMoreThanOneNode defs c) (λ _ s', ∀ x, x ∈ c → have s' x).
Proof.
  intros [_ Hscc] Hready. eapply runs_bind.
  - apply (runs_convertMutuallyRecursive defs); [apply Hconv| |].
    + intros x d Hx Hd y. by eapply ready_reads.
    + intros x Hx. apply (graph_defined _ _ Hconv), Hscc, Hx.
  - intros [v renamed] s1 _ Hids. cbn in Hids |- *. rewrite <- Hids. apply runs_registerObjectMembers.
Qed.

(** ** Every component *)

Lemma runs_component fuel g c s :
  g ⊆ G → closed g → scc c → (∀ x, x ∈ c → x ∈ dom g) →
  (∀ x r, x ∈ c → restricted G x r → size r < fuel) → ready c s → inv s →
  runs s (convertComponent pythonNameToInstance pyExceptionClass defs fuel g c)
    (λ _ s', ∀ x, x ∈ c → have s' x).
Proof.
  revert g c s. induction fuel as [|fuel IH]; intros g c s Hsub Hcl Hscc Hdom Hfuel Hready Hinv.
  { exfalso. destruct c as [|x c]; [by destruct Hscc|].
    destruct (computeRestrictedGraph_restricted g x Hcl) as (r & _ & Hr); [apply Hdom, elem_of_cons; by left|].
    specialize (Hfuel x r). apply restricted_trans in Hr; [|done]. rewrite elem_of_cons in Hfuel. lia. }
  cbn [convertComponent]. apply runs_get. case_bool_decide as Hdone.
  { apply runs_ret. intros x Hx. destruct Hinv as [_ Hok]. by eapply Hok. }
  apply (runs_bind _ _ _ (λ _ s', ∀ x, x ∈ c → have s' x)); [|intros [] s1 _ Hc; by apply runs_add_component].
  destruct c as [|x [|x' c]]; [by destruct Hscc| |by apply runs_moreThanOneNode].
  eapply runs_mono; [apply runs_oneNode; try done|].
  - apply Hdom, elem_of_cons. by left.
  - intros r Hr c s0 Hscc' Hc. apply IH; [apply Hr|apply Hr|done|intros y Hy; by apply Hc|].
    intros y ry Hy Hry. destruct (Hc y Hy) as [Hyr Hno].
    pose proof (restricted_smaller x y r ry Hr Hry Hyr Hno).
    assert (Hxr : size r < S fuel) by (apply (Hfuel x); [apply elem_of_cons; by left|done]). lia.
  - intros [] s1 _ Hx y Hy. apply list_elem_of_singleton in Hy. by subst.
Qed.
End converter.
