(* ===== verification/ConverterRequests.v ===== *)
(** * Requests of a client to convert an object

    [Converter.convert], from the registry of the request to the value: the server's
    answer to a client whose definitions are well formed. *)
From Stdlib Require Import Lia.
From stdpp Require Import base gmap sets list strings fin_maps fin_map_dom relations.
From S2P Require Import Prelude TypeDescription ObjectRegistry StronglyConnectedComponents NativeConverterAdaptor Converter ConverterGraphs ConverterRuns NativeConverterAdaptorSpec ConverterSpec.

Set Default Proof Using "All".

(** Definitions that depend on nothing. *)
Definition leaf (d : definition) : bool :=
  match d with
  | Primitive _ | PrimitiveList _ | File _ _ | RemotePythonObject _ | NamedSingleton _
  | Unconvertible => true
  | _ => false
  end.

Definition is_exception (d : definition) : bool :=
  match d with BuiltinExceptionInstance _ _ => true | _ => false end.

Section converter.
Context {V E P A : Type} `{EqDecision V} {FN : ForaNative V E P A} {FL : ForaNativeLaws V E P A} {BD : BoundIds}.
Abbreviation state := (converter (V := V)).
Abbreviation M_ := (M (converter (V := V))).
Implicit Types s : state.
Context (pythonNameToInstance : gmap string V) (pyExceptionClass : V).

(** ** The object of a request *)

Section root.
Context (G : graph) (defs : definitions) (Hconv : convertible G defs).
Context (Hleaf : ∀ x y d, defs !! x = Some d → leaf d = true → ¬ gedge G x y).
Context (root : Z) (Hroot : root ∈ dom G) (Hall : ∀ y, y ∈ dom G → path G root y).
Context (fuel : nat) (Hfuel : size G < fuel).
Abbreviation component := (convertComponent pythonNameToInstance pyExceptionClass defs fuel).
Abbreviation scc := (ConverterSpec.scc G).
Abbreviation ready := (ConverterSpec.ready G).
Abbreviation inv := (ConverterSpec.inv defs).

Lemma root_component c s :
  scc c → ready c s → inv s →
  runs s (component G c) (λ _ s', ∀ x, x ∈ c → have s' x).
Proof.
  intros Hscc Hready Hinv. apply (runs_component G defs Hconv); try done.
  - apply Hconv.
  - intros x Hx. by apply Hscc.
  - intros x r Hx Hr. eapply Nat.le_lt_trans; [|exact Hfuel].
    rewrite <- !(size_dom (D := gset Z)). apply subseteq_size, subseteq_dom, Hr.
Qed.

Lemma runs_withDependencies s :
  inv s →
  runs s (convertObjectWithDependencies component root G)
    (λ _ s', have s root ∨ ∀ y, y ∈ dom G → have s' y).
Proof.
  intros Hinv. unfold convertObjectWithDependencies. apply runs_get.
  destruct (convertedValues s !! root) as [v|] eqn:Hnot.
  { apply runs_ret. left. by eapply elem_of_dom_2. }
  destruct (components_found (map_to_list G)) as (components & -> & Hcomp).
  apply runs_lift_bind; [apply proper_ret|]. intros ? [= <-].
  pose proof (graph_closed _ _ Hconv) as Hcl.
  apply (runs_bind _ _ _ (λ _ s', ∀ y, y ∈ dom G → have s' y)).
  - eapply runs_mono.
    + apply (runs_components G defs Hconv G (reflexivity G) Hcl components Hcomp _ [] components []).
      * by rewrite app_nil_r.
      * intros x Hx. by apply elem_of_nil in Hx.
      * done.
      * intros c s' Hc. apply root_component. by eapply component_scc.
    + intros [] s' _ Hs' y Hy. apply Hs'. destruct (in_component G components Hcl Hcomp y Hy) as (c & Hc & Hyc).
      apply elem_of_concat. by exists c.
  - intros [] s' _ Hs'. apply runs_converted; [by apply Hs'|by right].
Qed.

(** What is converted when the root is: everything, unless the root was before, or is
    an exception. *)
Definition all_converted (d : definition) s s' : Prop :=
  have s root ∨ is_exception d = true ∨ ∀ y, y ∈ dom G → y ≠ root → have s' y.

Lemma leaf_alone d y : defs !! root = Some d → leaf d = true → y ∈ dom G → y = root.
Proof.
  intros Hd Hl Hy. specialize (Hall y Hy). inversion Hall as [|? z ? Hz]; [done|]. by destruct (Hleaf root z d).
Qed.

Lemma runs_convert_ s d :
  inv s → defs !! root = Some d →
  (∀ n a, d = BuiltinExceptionInstance n a → have s a) →
  runs s (convert_ pythonNameToInstance pyExceptionClass defs component root G)
    (λ _ s', all_converted d s s').
Proof.
  intros Hinv Hd Hexc. unfold convert_. rewrite (definition_found _ _ _ Hd).
  apply runs_lift_bind; [apply proper_ret|]. intros ? [= <-].
  assert (Hone : leaf d = true → ∀ s', all_converted d s s').
  { intros Hl s'. right. right. intros y Hy Hne. by apply (leaf_alone d) in Hy. }
  assert (Hrec : ∀ c s', scc c → (∀ y, y ∈ c → y ∈ dom G ∧ ¬ path G y root) → ready c s' → inv s' →
    runs s' (component G c) (λ _ s'', ∀ x, x ∈ c → have s'' x)).
  { intros c s' Hc _. by apply root_component. }
  assert (Hself : restricted G root G) by (by split; [|apply Hconv| |]).
  destruct d; cbn [leaf] in Hone; try specialize (Hone eq_refl).
  - apply runs_lift; [apply convertPrimitive_proper|auto].
  - apply runs_lift; [apply convertPrimitive_proper|auto].
  - eapply runs_mono; [by apply (runs_convertTuple G defs Hconv component root G)|]. intros v s' _ Hy. by right; right.
  - eapply runs_mono; [by apply (runs_convertList G defs Hconv component root G)|]. intros v s' _ Hy. by right; right.
  - by apply runs_raise.
  - eapply runs_mono; [by apply (runs_convertDict G defs Hconv component root G)|]. intros v s' _ Hy. by right; right.
  - eapply runs_mono; [by eapply (runs_remote G defs Hconv)|auto].
  - eapply runs_mono; [by eapply runs_exception, Hexc|]. intros v s' _ _. by right; left.
  - apply runs_lift; [apply convertNamedSingleton_proper|auto].
  - eapply runs_mono; [by apply runs_withDependencies|]. intros v s' _ [|]; [by left|right; right; auto].
  - eapply runs_mono; [by apply runs_withDependencies|]. intros v s' _ [|]; [by left|right; right; auto].
  - eapply runs_bind; [by apply (runs_set_value s _ _ (λ _ _, True))|]. intros _ s' _ _. apply runs_ret, Hone.
  - eapply runs_mono; [by apply runs_withDependencies|]. intros v s' _ [|]; [by left|right; right; auto].
  - eapply runs_mono; [by apply runs_withDependencies|]. intros v s' _ [|]; [by left|right; right; auto].
  - eapply runs_mono; [by apply runs_withDependencies|]. intros v s' _ [|]; [by left|right; right; auto].
Qed.
End root.

End converter.

(** ** The registry of a request *)

Section registry.
Context (r : registry) (root : Z).
Abbreviation deps := (dependentIds r).
Abbreviation reaches := (ObjectRegistry.reaches deps).
Abbreviation registered := (ObjectRegistry.objectIdToObjectDefinition r).

(** What the client's walker sees to, for the objects of a request: they are defined,
    source files are files, a class's bases are among its free variables, and an object
    that refers to itself is a container or part of a longer cycle. *)
Record well_formed_request : Prop := {
  request_complete o : reaches root o → is_ret (deps o);
  request_sources o d f : reaches root o → registered !! o = Some d → sourceFileId_of d = Ret f →
    ∃ path text, registered !! f = Some (File path text);
  request_bases o f l chains bases b : reaches root o →
    registered !! o = Some (ClassDefinition f l chains bases) → b ∈ bases → b ∈ chains.*2;
  request_self o d : reaches root o → registered !! o = Some d → o ∈ reads d →
    container d = true ∨ ∃ o', o' ≠ o ∧ reaches o o' ∧ reaches o' o }.

(** The dependencies of an object hold what its conversion reads. *)
Lemma deps_of o d l :
  registered !! o = Some d → deps o = Ret l →
  (∀ y, y ∈ reads d → y ∈ l) ∧ (leaf d = true → l = []) ∧
  (∀ f, sourceFileId_of d = Ret f → f ∈ l).
Proof.
  intros Hd. unfold dependentIds. cbn [computeDependentIds]. unfold getDefinition. rewrite Hd.
  cbn [of_option mbind res_bind]. destruct d; cbn [reads leaf sourceFileId_of];
    try (intros [= <-]; split_ands; intros *; try done; set_solver).
  destruct (computeDependentIds r _ classId) as [tr|]; cbn; [|done]. intros [= <-].
  split_ands; [|done|done]. set_solver.
Qed.

Section graph.
Context (g : graph) (Hg : computeDependencyGraph r root = Ret g).

Lemma graph_facts o l : g !! o = Some l → deps o = Ret l ∧ (∀ y, y ∈ l → y ∈ dom g) ∧ reaches root o.
Proof. apply (computeDependencyGraph_spec r root g Hg). Qed.

Lemma graph_defs o : o ∈ dom g → is_Some (registered !! o).
Proof. intros [l Hl]%elem_of_dom. apply graph_facts in Hl as [Hl _]. by apply elem_of_dom, (dependentIds_defined r o l). Qed.

Lemma graph_path o o' : o ∈ dom g → reaches o o' → o' ∈ dom g ∧ path g o o'.
Proof.
  intros Ho. induction 1 as [|o1 l o2 _ [Hd IH] Hl Hin]; [done|].
  apply elem_of_dom in Hd as [l' Hl']. destruct (graph_facts o1 l' Hl') as (Hl2 & Hdom & _).
  rewrite Hl in Hl2. injection Hl2 as <-. split; [by apply Hdom|]. eapply rtc_r; [exact IH|by exists l].
Qed.

(** The objects of a request that its code has free variables for. *)
Definition request_binds : BoundIds := λ y,
  ∃ o d, reaches root o ∧ registered !! o = Some d ∧ is_code d = true ∧ y ∈ reads d.

(** The definitions of a request: those of the graph's nodes. *)
Lemma request_definitions :
  ∃ ds, mapR (λ objId : Z, d ← getDefinition objId r; Ret (objId, d)) (map_to_list g).*1 = Ret ds ∧
    ∀ o d, (list_to_map ds : definitions) !! o = Some d ↔ o ∈ dom g ∧ registered !! o = Some d.
Proof.
  assert (Hids : ∀ o, o ∈ (map_to_list g).*1 ↔ o ∈ dom g).
  { intros o. rewrite list_elem_of_fmap, elem_of_dom. setoid_rewrite elem_of_map_to_list'. split.
    - intros ([o' l] & -> & Hl). by exists l.
    - intros [l Hl]. by exists (o, l). }
  assert (Hget : ∀ o x, (d ← getDefinition o r; Ret (o, d)) = Ret x → x.1 = o ∧ registered !! o = Some x.2).
  { intros o x. unfold getDefinition. destruct (registered !! o); cbn; [by intros [= <-]|done]. }
  destruct (mapR _ (map_to_list g).*1) as [ds|e] eqn:Hds.
  - exists ds. split; [done|]. intros o d.
    assert (Hfst : ds.*1 = (map_to_list g).*1).
    { rewrite <- (list_fmap_id (map_to_list g).*1). eapply mapR_fmap; [|exact Hds]. intros x y. apply Hget. }
    rewrite <- (elem_of_list_to_map ds o d) by (rewrite Hfst; apply NoDup_fst_map_to_list).
    apply mapR_Ret in Hds. rewrite <- Hids. split.
    + intros Hin. apply list_elem_of_lookup in Hin as [i Hi].
      destruct (Forall2_lookup_r _ _ _ _ _ Hds Hi) as (o' & Ho' & Heq). apply Hget in Heq as [<- Heq].
      by split; [eapply list_elem_of_lookup_2|].
    + intros [Ho Hd]. apply list_elem_of_lookup in Ho as [i Hi].
      destruct (Forall2_lookup_l _ _ _ _ _ Hds Hi) as ([o' d'] & Hx & Heq). apply Hget in Heq as [Heq Hd'].
      cbn in *. simplify_eq. by eapply list_elem_of_lookup_2.
  - apply mapR_Raise in Hds as (o & Ho & He). apply Hids, graph_defs in Ho as [d Hd].
    unfold getDefinition in He. by rewrite Hd in He.
Qed.

Lemma request_convertible (defs : definitions) :
  well_formed_request →
  (∀ o d, defs !! o = Some d ↔ o ∈ dom g ∧ registered !! o = Some d) →
  convertible (H := request_binds) g defs.
Proof.
  intros Hwf Hdefs.
  assert (Hnode : ∀ o d, defs !! o = Some d → ∃ l, g !! o = Some l ∧ registered !! o = Some d ∧
    reaches root o ∧ deps o = Ret l ∧ ∀ y, y ∈ l → is_Some (registered !! y) ∧ y ∈ dom g).
  { intros o d [[l Hl]%elem_of_dom Hd]%Hdefs. destruct (graph_facts o l Hl) as (Hdl & Hdom & Hr).
    exists l. split_ands; try done. intros y Hy. split; [apply graph_defs|]; by apply Hdom. }
  split.
  - intros x y (l & Hl & Hy). by apply (graph_facts x l Hl).
  - intros x Hx. destruct (graph_defs x Hx) as [d Hd]. exists d. by apply Hdefs.
  - intros x d y Hd Hy. destruct (Hnode x d Hd) as (l & Hl & Hreg & _ & Hdeps & _).
    exists l. split; [done|]. destruct (deps_of x d l Hreg Hdeps) as (Hr & _ & _). by apply Hr.
  - split.
    + intros x d f Hd Hf. destruct (Hnode x d Hd) as (l & Hl & Hreg & Hreach & Hdeps & Hdom).
      destruct (request_sources Hwf x d f Hreach Hreg Hf) as (path & text & Hfile). exists path, text.
      apply Hdefs. split; [|done]. destruct (deps_of x d l Hreg Hdeps) as (_ & _ & Hin). by apply Hdom, Hin.
    + intros x f l chains bases b Hd. destruct (Hnode x _ Hd) as (? & _ & Hreg & Hreach & _).
      by eapply request_bases.
    + intros x c ms Hd. destruct (Hnode x _ Hd) as (l & Hl & Hreg & _ & Hdeps & Hdom).
      destruct (Hdom c) as [[dc Hc] Hcg]; [|exists dc; by apply Hdefs].
      destruct (deps_of x _ l Hreg Hdeps) as (Hr & _ & _). apply Hr. cbn. apply elem_of_cons. by left.
    + intros x d y Hd Hc Hy. destruct (Hnode x d Hd) as (l & Hl & Hreg & Hreach & _). by exists x, d.
  - intros x d Hd Hx. destruct (Hnode x d Hd) as (l & Hl & Hreg & Hreach & _).
    destruct (request_self Hwf x d Hreach Hreg Hx) as [|(o' & Hne & Hto & Hback)]; [by left|right].
    assert (Hxg : x ∈ dom g) by by eapply elem_of_dom_2.
    destruct (graph_path x o' Hxg Hto) as [Ho' Hp]. exists o'. split_ands; [done|done|].
    by apply (graph_path o' x Ho').
Qed.

End graph.
End registry.

(** ** Requests *)

Section request.
Context {V E P A : Type} `{EqDecision V} {FN : ForaNative V E P A} {FL : ForaNativeLaws V E P A}.
Context (pythonNameToInstance : gmap string V) (pyExceptionClass : V).
Abbreviation registered := ObjectRegistry.objectIdToObjectDefinition.
Implicit Types s : converter (V := V).

(** What is converted when the object of a request is: everything that it reaches, if
    it was not before, and is no exception, whose arguments are read only. *)
Definition request_converted r root s s' : Prop :=
  have s root ∨ (∃ n a, registered r !! root = Some (BuiltinExceptionInstance n a)) ∨
  ∀ o, ObjectRegistry.reaches (dependentIds r) root o → have s' o.

Definition request_outcome r root s (result : res (V + exn)) s' : Prop :=
  match result with
  | Ret (inl v) => convertedValues s' !! root = Some v ∧ request_converted r root s s'
  | Ret (inr e) => e = PythonToForaConversionError
  | Raise e => e ≠ PythonToForaConversionError ∧ acceptable (BD := request_binds r root) e s'
  end.

Lemma runs_request r root s :
  well_formed_request r root → comps_ok s →
  (∀ o arg, ObjectRegistry.reaches (dependentIds r) root o →
    registered r !! o = Some (RemotePythonObject arg) → remote_known s arg) →
  (∀ n a, registered r !! root = Some (BuiltinExceptionInstance n a) → have s a) →
  runs (BD := request_binds r root) s (convert_body pythonNameToInstance pyExceptionClass root r) (λ result s', ∃ v, result = inl v ∧
    convertedValues s' !! root = Some v ∧ request_converted r root s s').
Proof.
  intros Hwf Hok Hremote Hexc. unfold convert_body.
  assert (Hgret : is_ret (computeDependencyGraph r root)).
  { apply computeDependencyGraph_returns. intros o. apply Hwf. }
  destruct (computeDependencyGraph r root) as [g|] eqn:Hg; [|done].
  destruct (request_definitions r root g Hg) as (ds & Hds & Hdefs).
  pose proof (request_convertible r root g Hg _ Hwf Hdefs) as Hconv.
  destruct (computeDependencyGraph_spec r root g Hg) as [Hroot Hfacts].
  destruct (graph_defined _ _ Hconv root Hroot) as [d Hd].
  assert (Hinv : inv (list_to_map ds) s).
  { split; [|done]. intros o arg Ho. apply Hdefs in Ho as [Hog Ho]. apply elem_of_dom in Hog as [l Hl].
    apply (Hremote o); [|done]. by apply (Hfacts o l). }
  apply runs_lift_bind; [apply proper_ret|]. intros ? [= <-]. rewrite Hds.
  apply runs_lift_bind; [apply proper_ret|]. intros ? [= <-].
  eapply runs_bind; [apply (runs_convert_ _ _ g (list_to_map ds) Hconv) with (d := d)|].
  - intros x y dx Hx Hl Hxy. apply Hdefs in Hx as [Hxg Hx]. apply elem_of_dom in Hxg as [l Hl'].
    destruct (Hfacts x l Hl') as (Hdeps & _). destruct (deps_of r root x dx l Hx Hdeps) as (_ & Hnil & _).
    destruct Hxy as (l2 & Hl2 & Hy). rewrite (Hnil Hl) in Hl'. simplify_eq. by apply elem_of_nil in Hy.
  - done.
  - intros y Hy. apply elem_of_dom in Hy as [l Hl]. apply (graph_path r root g Hg root y Hroot), (Hfacts y l Hl).
  - lia.
  - done.
  - done.
  - intros n a ->. apply (Hexc n). by apply Hdefs in Hd as [_ Hd].
  - intros v s' _ Hall. apply (runs_bind _ _ _ (λ _ s'', s'' = (set_value root v s').2)); [by apply runs_set_value|].
    intros [] ? _ ->. apply runs_ret. exists v. split_ands; [done|apply lookup_insert_eq|].
    destruct Hall as [Hs|[Hexc'|Hall]]; [by left| |].
    + right; left. apply Hdefs in Hd as [_ Hd]. destruct d; try done. by do 2 eexists.
    + right; right. intros o Ho. apply set_value_have. destruct (decide (o = root)) as [|Hne]; [by left|right].
      apply Hall; [|done]. by apply (graph_path r root g Hg root o Hroot).
Qed.

Lemma convert_outcome r root s :
  well_formed_request r root → comps_ok s →
  (∀ o arg, ObjectRegistry.reaches (dependentIds r) root o →
    registered r !! o = Some (RemotePythonObject arg) → remote_known s arg) →
  (∀ n a, registered r !! root = Some (BuiltinExceptionInstance n a) → have s a) →
  let '(result, s') := convert pythonNameToInstance pyExceptionClass root r s in
  grows s s' ∧ comps_ok s' ∧
  request_outcome r root s result s'.
Proof.
  intros Hwf Hok Hremote Hexc. pose proof (runs_request r root s Hwf Hok Hremote Hexc) as Hruns.
  unfold convert, catch. unfold runs in Hruns.
  destruct (convert_body _ _ root r s) as [[result|e] s']; destruct Hruns as [Hg Hres];
    pose proof (proj2 Hg Hok) as Hok'.
  - destruct Hres as (v & -> & Hv & Hall). done.
  - destruct e; done.
Qed.

(** C3. A conversion never looks for a value that is not there: of a request whose
    definitions are well formed, every object is converted after the objects it refers
    to, however its containers are nested and its classes and functions refer to each
    other. So the request ends with the value of its object, with everything that the
    object reaches converted, or with a conversion error, or with an exception other than
    [KeyError], [IndexError] and the recursion limit; the converted values only grow, and
    what is recorded as converted is. One [KeyError] is left, of code that is called on
    computed values: [acceptable] allows it only if a function, a class or a with block
    that the request reaches has a free variable whose value is no [ImplValContainer]
    (a remote object's, which is a computed value of an earlier request). *)
Theorem convert_finds_values r root s :
  well_formed_request r root → comps_ok s →
  (∀ o arg, ObjectRegistry.reaches (dependentIds r) root o →
    registered r !! o = Some (RemotePythonObject arg) → remote_known s arg) →
  (∀ n a, registered r !! root = Some (BuiltinExceptionInstance n a) → have s a) →
  let '(result, s') := convert pythonNameToInstance pyExceptionClass root r s in
  grows s s' ∧ comps_ok s' ∧
  match result with
  | Ret (inl v) =>
      convertedValues s' !! root = Some v ∧ request_converted r root s s'
  | Ret (inr e) => e = PythonToForaConversionError
  | Raise e => e ≠ PythonToForaConversionError ∧ acceptable (BD := request_binds r root) e s'
  end.
Proof. apply convert_outcome. Qed.
End request.
