(* ===== verification/PyforaObjectConverter.v ===== *)
(** * The server's handler of conversions
    ([ufora/BackendGateway/SubscribableWebObjects/ObjectClassesToExpose/PyforaObjectConverter.py])

    The definitions that a client sends are read into the server's registry, then the
    object is converted. Together with [pyfora/ObjectConverter.py] the request's path
    from one registry to the other. *)
From Stdlib Require Import Lia.
From stdpp Require Import base gmap sets list strings fin_maps fin_map_dom.
From S2P Require Import Prelude PyStrings TypeDescription ObjectRegistry NativeConverterAdaptor Converter ConverterRuns NativeConverterAdaptorSpec ConverterSpec ConverterRequests.

Set Default Proof Using "All".

(** ** Reading descriptions *)

Definition read_int (v : pyval) : option Z := match v with Prim (PInt z) => Some z | _ => None end.
Definition read_string (v : pyval) : option string := match v with VStr s => Some s | _ => None end.
Definition read_ids (v : pyval) : option (list Z) :=
  match v with PyList vs => list.mapM read_int vs | _ => None end.
Definition read_scope (v : pyval) : option scope :=
  match v with
  | Dict_ items => list.mapM (λ kv : string * pyval, z ← read_int kv.2; Some (kv.1, z)) items
  | _ => None
  end.

(** The object that a description is of. *)
Definition undescribe (v : pyval) : option definition :=
  match v with
  | Prim p => Some (Primitive p)
  | PyList l => Some (PrimitiveList l)
  | NamedTuple "Tuple" [ms; _] => Tuple <$> read_ids ms
  | NamedTuple "List" [ms; _] => List <$> read_ids ms
  | NamedTuple "File" [p; t; _] => p ← read_string p; t ← read_string t; Some (File p t)
  | NamedTuple "Dict" [ks; vs; _] => ks ← read_ids ks; vs ← read_ids vs; Some (Dict ks vs)
  | NamedTuple "RemotePythonObject" [a; _] => Some (RemotePythonObject a)
  | NamedTuple "BuiltinExceptionInstance" [t; a; _] =>
      t ← read_string t; a ← read_int a; Some (BuiltinExceptionInstance t a)
  | NamedTuple "NamedSingleton" [n; _] => NamedSingleton <$> read_string n
  | NamedTuple "FunctionDefinition" [f; l; s; _] =>
      f ← read_int f; l ← read_int l; s ← read_scope s; Some (FunctionDefinition f l s)
  | NamedTuple "ClassDefinition" [f; l; s; bs; _] =>
      f ← read_int f; l ← read_int l; s ← read_scope s; bs ← read_ids bs; Some (ClassDefinition f l s bs)
  | NamedTuple "Unconvertible" [_] => Some Unconvertible
  | NamedTuple "ClassInstanceDescription" [c; ms; _] =>
      c ← read_int c; ms ← read_scope ms; Some (ClassInstanceDescription c ms)
  | NamedTuple "InstanceMethod" [i; n; _] => i ← read_int i; n ← read_string n; Some (InstanceMethod i n)
  | NamedTuple "WithBlockDescription" [s; f; l; _] =>
      s ← read_scope s; f ← read_int f; l ← read_int l; Some (WithBlockDescription s f l)
  | _ => None
  end.

Lemma read_ids_ids l : read_ids (ids l) = Some l.
Proof. cbn. induction l as [|z l IH]; [done|]. cbn. by rewrite IH. Qed.

Lemma read_scope_dict s : read_scope (scope_dict s) = Some s.
Proof. cbn. induction s as [|[k z] s IH]; [done|]. cbn. by rewrite IH. Qed.

Lemma undescribe_describe d : undescribe (describe d) = Some d.
Proof.
  destruct d; try reflexivity; cbn [undescribe describe];
    rewrite ?read_ids_ids, ?read_scope_dict; cbn; rewrite ?read_ids_ids, ?read_scope_dict; reflexivity.
Qed.

(** ** Registries that agree *)

Abbreviation registered := ObjectRegistry.objectIdToObjectDefinition.

(** The length of the chain of classes from an object. *)
Inductive depth (r : registry) : Z → nat → Prop :=
| depth_base o d : registered r !! o = Some d → (∀ c ms, d ≠ ClassInstanceDescription c ms) → depth r o 1
| depth_instance o c ms k :
    registered r !! o = Some (ClassInstanceDescription c ms) → depth r c k → depth r o (S k).

Lemma depth_unique r o k k' : depth r o k → depth r o k' → k = k'.
Proof.
  intros Hk. revert k'. induction Hk as [o d Hd Hn|o c ms k Hd _ IH]; intros k' Hk'; inversion Hk' as [? d' Hd'|? c' ms' ? Hd' Hc'];
    simplify_eq; try done; [by destruct (Hn c' ms')|naive_solver|]. f_equal. by apply IH.
Qed.

Lemma depth_size r o k : depth r o k → k ≤ size (registered r).
Proof.
  intros Hk. assert (Hids : ∃ ids, NoDup ids ∧ length ids = k ∧
    ∀ i, i ∈ ids → i ∈ dom (registered r) ∧ ∃ j, j ≤ k ∧ depth r i j).
  { induction Hk as [o d Hd Hn|o c ms k Hd Hc (ids & Hnd & Hlen & Hids)].
    - exists [o]. split_ands; [apply NoDup_singleton|done|]. intros i ->%list_elem_of_singleton.
      split; [by eapply elem_of_dom_2|]. exists 1. split; [done|by eapply depth_base].
    - exists (o :: ids). split_ands; [|cbn; by f_equal|].
      + apply NoDup_cons. split; [|done]. intros Ho. destruct (Hids o Ho) as (_ & j & Hj & Hdj).
        assert (j = S k) by (eapply depth_unique; [done|by eapply depth_instance]). lia.
      + intros i [->|Hi]%elem_of_cons.
        * split; [by eapply elem_of_dom_2|]. exists (S k). split; [done|by eapply depth_instance].
        * destruct (Hids i Hi) as (? & j & ? & ?). split; [done|]. exists j. split; [lia|done]. }
  destruct Hids as (ids & Hnd & <- & Hids). rewrite <- (size_dom (D := gset Z)), <- (size_list_to_set (C := gset Z) ids) by done.
  apply subseteq_size. intros i Hi%elem_of_list_to_set. by apply Hids.
Qed.

Lemma dependentIds_depth r fuel o l : computeDependentIds r fuel o = Ret l → ∃ k, depth r o k.
Proof.
  revert o l. induction fuel as [|fuel IH]; intros o l; cbn [computeDependentIds]; [done|].
  unfold getDefinition. destruct (registered r !! o) as [d|] eqn:Hd; cbn [of_option mbind res_bind]; [|done].
  destruct d; intros Hl; try (exists 1; by eapply depth_base).
  destruct (computeDependentIds r fuel classId) as [tr|] eqn:Htr; [|done].
  destruct (IH _ _ Htr) as [k Hk]. exists (S k). by eapply depth_instance.
Qed.

(** Where two registries agree, so do the dependencies. *)
Lemma dependentIds_agree (r r' : registry) (P : Z → Prop) o l :
  (∀ o, P o → registered r' !! o = registered r !! o) →
  (∀ o c ms, P o → registered r !! o = Some (ClassInstanceDescription c ms) → P c) →
  P o → dependentIds r o = Ret l → dependentIds r' o = Ret l.
Proof.
  intros Hag Hcl Ho Hl. destruct (dependentIds_depth _ _ _ _ Hl) as [k Hk].
  assert (Hk' : depth r' o k ∧ ∀ m m', k ≤ m → k ≤ m' → computeDependentIds r' m' o = computeDependentIds r m o).
  { clear Hl. induction Hk as [o d Hd Hn|o c ms k Hd Hc IH].
    - split; [eapply depth_base; [by rewrite Hag|done]|]. intros [|m] [|m'] Hm Hm'; try lia.
      cbn [computeDependentIds]. unfold getDefinition. rewrite Hag, Hd by done. cbn. destruct d; try done.
      by destruct (Hn classId classMemberNameToClassMemberId).
    - destruct IH as [Hdc Heq]; [by eapply Hcl|]. split; [eapply depth_instance; [by rewrite Hag|done]|].
      intros [|m] [|m'] Hm Hm'; try lia. cbn [computeDependentIds]. unfold getDefinition. rewrite Hag, Hd by done.
      cbn. by rewrite (Heq m m') by lia. }
  destruct Hk' as [Hd' Heq]. unfold dependentIds in *. rewrite <- Hl. apply Heq.
  - apply depth_size in Hk. lia.
  - apply depth_size in Hd'. lia.
Qed.

Section agreement.
Context (r r' : registry) (root : Z).
Abbreviation reaches_in r := (ObjectRegistry.reaches (dependentIds r)).
Context (Hwf : well_formed_request r root).
Context (Hag : ∀ o, reaches_in r root o → registered r' !! o = registered r !! o).

Lemma deps_agree o : reaches_in r root o → dependentIds r' o = dependentIds r o.
Proof.
  intros Ho. pose proof (request_complete _ _ Hwf o Ho) as Hret. destruct (dependentIds r o) as [l|] eqn:Hl; [|done].
  apply (dependentIds_agree r r' (reaches_in r root)); [done| |done|done].
  intros o' c ms Ho' Hd. pose proof (request_complete _ _ Hwf o' Ho') as Hret'.
  destruct (dependentIds r o') as [l'|] eqn:Hl'; [|done]. eapply ObjectRegistry.reaches_step; [exact Ho'|exact Hl'|].
  destruct (deps_of r o' o' _ l' Hd Hl') as (Hr & _ & _). apply Hr. cbn. apply elem_of_cons. by left.
Qed.

Lemma reaches_agree a b : reaches_in r root a → reaches_in r a b ↔ reaches_in r' a b.
Proof.
  intros Ha. split; induction 1 as [|b l b' Hab IH Hl Hb']; try constructor.
  - econstructor; [exact IH| |exact Hb']. rewrite deps_agree; [done|]. by eapply reaches_trans.
  - econstructor; [exact IH| |exact Hb']. rewrite <- deps_agree; [done|]. by eapply reaches_trans.
Qed.

Lemma reaches_root o : reaches_in r' root o ↔ reaches_in r root o.
Proof. symmetry. apply reaches_agree. constructor. Qed.

(** What the client's request is to the server. *)
Lemma well_formed_agree : well_formed_request r' root.
Proof.
  destruct Hwf as [Hc Hs Hb Hself]. split; intros o.
  - rewrite reaches_root. intros Ho. rewrite deps_agree by done. by apply Hc.
  - intros d f Ho. rewrite reaches_root in Ho. rewrite Hag by done. intros Hd Hf.
    destruct (Hs o d f Ho Hd Hf) as (path & text & Hfile). exists path, text. rewrite Hag; [done|].
    pose proof (Hc o Ho) as Hret. destruct (dependentIds r o) as [l|] eqn:Hl; [|done].
    econstructor; [exact Ho|exact Hl|]. by apply (deps_of r o o d l Hd Hl).
  - intros f l chains bases b Ho. rewrite reaches_root in Ho. rewrite Hag by done. by apply Hb.
  - intros d Ho. rewrite reaches_root in Ho. rewrite Hag by done. intros Hd Hin.
    destruct (Hself o d Ho Hd Hin) as [|(o' & Hne & Hto & Hback)]; [by left|right]. exists o'.
    split_ands; [done| |]; (rewrite <- reaches_agree; [done|]); [done|by eapply reaches_trans].
Qed.
End agreement.

(** ** The handler *)

Section handler.
Context {V E P A : Type} `{EqDecision V} {FN : ForaNative V E P A}.
Context (pythonNameToInstance : gmap string V) (pyExceptionClass : V).

(** The module's globals. *)
Record server := Server {
  objectRegistry : registry;
  converter_ : converter (V := V);
  objectIdToIvc : gmap Z V }.

Inductive answer := IsException | ObjectId (objectId : Z).

(** A value of the request. What is no description is stored by the source, and fails
    where it is read; here it is refused at once. *)
Definition receive (kv : string * pyval) : res (Z * definition) :=
  k ← PyStr.int kv.1;
  v ← deserialize kv.2;
  d ← of_option TypeError (undescribe v);
  Ret (k, d).

(** [objectRegistry_[0].objectIdToObjectDefinition.update]. *)
Definition update_registry (ds : list (Z * definition)) (r : registry) : registry :=
  Registry (nextObjectID r)
    (foldl (λ m kd, <[kd.1 := kd.2]> m) (registered r) ds).

Definition run_converter {X} (m : registry → M (converter (V := V)) X) : M server X := λ s,
  let '(result, c) := m (objectRegistry s) (converter_ s) in
  (result, Server (objectRegistry s) c (objectIdToIvc s)).

(** [convert]. *)
Definition convert_request (objectId : Z) (definitions : list (string * pyval)) : M server answer :=
  ds ← lift (mapR receive definitions);
  modify (λ s, Server (update_registry ds (objectRegistry s)) (converter_ s) (objectIdToIvc s)) ;;
  result ← catch (run_converter (convert pythonNameToInstance pyExceptionClass objectId))
             (λ _, raise InternalError);
  match result with
  | inr _ => mret IsException
  | inl v =>
      lift (py_assert (negb (bool_decide (v = of_pyval VNone)))) ;;
      modify (λ s, Server (objectRegistry s) (converter_ s) (<[objectId := v]> (objectIdToIvc s))) ;;
      mret (ObjectId objectId)
  end.

Definition hasObjectId (objectId : Z) (s : server) : bool := bool_decide (objectId ∈ dom (objectIdToIvc s)).
Definition getIvcFromObjectId (objectId : Z) (s : server) : res V :=
  of_option KeyError (objectIdToIvc s !! objectId).
End handler.
Arguments server : clear implicits.

(** ** The client's request *)

(** What [ObjectConverter.convert] sends, the keys as JSON has them. *)
Definition sent (r : registry) (objectId : Z) : res (list (string * pyval)) :=
  dependencyGraph ← computeDependencyGraph r objectId;
  mapR (λ objId : Z, d ← getDefinition objId r; v ← serialize (describe d); Ret (PyStr.str objId, v))
    (map_to_list dependencyGraph).*1.

Lemma update_lookup ds m o :
  NoDup ds.*1 →
  foldl (λ (m : gmap Z definition) kd, <[kd.1 := kd.2]> m) m ds !! o =
  match (list_to_map ds : gmap Z definition) !! o with Some d => Some d | None => m !! o end.
Proof.
  revert m. induction ds as [|[k d] ds IH]; intros m Hnd; [by cbn; rewrite lookup_empty|].
  cbn in *. apply NoDup_cons in Hnd as [Hk Hnd]. rewrite IH by done. destruct (decide (o = k)) as [->|Hne].
  - rewrite lookup_insert_eq. rewrite (not_elem_of_list_to_map_1 ds k) by done. by rewrite lookup_insert_eq.
  - by rewrite !lookup_insert_ne.
Qed.

(** The server reads back what was sent, id by id. *)
Lemma receive_sent r objId d :
  (0 ≤ objId)%Z → registered r !! objId = Some d →
  ∃ v, serialize (describe d) = Ret v ∧ receive (PyStr.str objId, v) = Ret (objId, d).
Proof.
  intros Hid Hd. destruct (serialize_described (describe d) (describe_described d)) as (v & Hv & Hback).
  exists v. split; [done|]. unfold receive. cbn. rewrite PyStr.int_str by done. cbn. rewrite Hback. cbn.
  by rewrite undescribe_describe.
Qed.

Lemma request_received r root items :
  well_formed_request r root →
  (∀ o, ObjectRegistry.reaches (dependentIds r) root o → (0 ≤ o)%Z) →
  sent r root = Ret items →
  ∃ ds, mapR receive items = Ret ds ∧
    ∀ r' o, ObjectRegistry.reaches (dependentIds r) root o →
      registered (update_registry ds r') !! o = registered r !! o.
Proof.
  intros Hwf Hpos. unfold sent. destruct (computeDependencyGraph r root) as [g|] eqn:Hg; cbn [mbind res_bind]; [|done].
  intros Hitems. destruct (computeDependencyGraph_spec r root g Hg) as [Hroot Hfacts].
  assert (Hkeys : ∀ o, o ∈ (map_to_list g).*1 → o ∈ dom g).
  { intros o ([o' l] & -> & Hl)%list_elem_of_fmap_1. apply elem_of_map_to_list in Hl. by eapply elem_of_dom_2. }
  assert (Hread : Forall2 (λ o x, ∃ d, registered r !! o = Some d ∧ receive x = Ret (o, d)) (map_to_list g).*1 items).
  { apply mapR_Ret in Hitems. apply Forall2_same_length_lookup. split; [by eapply Forall2_length|].
    intros i o x Ho Hx. pose proof (Forall2_lookup_lr _ _ _ _ _ _ Hitems Ho Hx) as Hf. cbn in Hf.
    assert (Hnode : o ∈ dom g) by (by eapply Hkeys, list_elem_of_lookup_2).
    apply elem_of_dom in Hnode as [l Hl]. destruct (Hfacts o l Hl) as (_ & _ & Hreach).
    unfold getDefinition in Hf. destruct (registered r !! o) as [d|] eqn:Hd; cbn in Hf; [|done].
    destruct (receive_sent r o d (Hpos o Hreach) Hd) as (v & Hv & Hrec). rewrite Hv in Hf. cbn in Hf.
    simplify_eq. by exists d. }
  destruct (mapR receive items) as [ds|e] eqn:Hds.
  2:{ apply mapR_Raise in Hds as (x & Hx & He). apply list_elem_of_lookup in Hx as [i Hx].
      destruct (Forall2_lookup_r _ _ _ _ _ Hread Hx) as (o & _ & d & _ & Hrec). congruence. }
  exists ds. split; [done|]. apply mapR_Ret in Hds.
  assert (Hboth : Forall2 (λ o kd, kd.1 = o ∧ registered r !! o = Some kd.2) (map_to_list g).*1 ds).
  { apply Forall2_same_length_lookup. split; [by rewrite (Forall2_length _ _ _ Hread), (Forall2_length _ _ _ Hds)|].
    intros i o kd Ho Hkd. destruct (Forall2_lookup_l _ _ _ _ _ Hread Ho) as (x & Hx & d & Hd & Hrec).
    pose proof (Forall2_lookup_lr _ _ _ _ _ _ Hds Hx Hkd) as Hrec'. cbn in Hrec'. rewrite Hrec in Hrec'. by simplify_eq. }
  assert (Hnd : NoDup ds.*1).
  { assert (ds.*1 = (map_to_list g).*1) as ->; [|apply NoDup_fst_map_to_list].
    clear -Hboth. induction Hboth as [|o kd keys ds [Heq _] _ IH]; [done|]. cbn. by rewrite Heq, IH. }
  intros r' o Ho. cbn. rewrite update_lookup by done.
  destruct (graph_path r root g Hg root o Hroot Ho) as [[l Hl]%elem_of_dom _].
  assert (Hin : o ∈ (map_to_list g).*1) by (apply list_elem_of_fmap; exists (o, l); by rewrite elem_of_map_to_list).
  apply list_elem_of_lookup in Hin as [i Hi].
  destruct (Forall2_lookup_l _ _ _ _ _ Hboth Hi) as ([o' d] & Hkd & Heq & Hd). cbn in *. subst o'.
  assert (Hmap : (list_to_map ds : gmap Z definition) !! o = Some d).
  { apply elem_of_list_to_map; [done|]. by eapply list_elem_of_lookup_2. }
  by rewrite Hmap.
Qed.

(** ** A request of the client *)

Section request.
Context {V E P A : Type} `{EqDecision V} {FN : ForaNative V E P A} {FL : ForaNativeLaws V E P A}.
Context (pythonNameToInstance : gmap string V) (pyExceptionClass : V).
Implicit Types st : server V.

(** C4. The server converts the object that the client described: it reads back the
    definitions that the client's registry has, and for a well-formed request it answers
    with the object's id, when it has the object's value and converted everything that
    the object reaches in the client's registry, or that the object cannot be converted,
    or with an error of the native module; no failed request leaves a value. *)
Theorem server_answers r root items st :
  well_formed_request r root →
  (∀ o, ObjectRegistry.reaches (dependentIds r) root o → (0 ≤ o)%Z) →
  sent r root = Ret items →
  comps_ok (converter_ st) →
  (∀ o arg, ObjectRegistry.reaches (dependentIds r) root o →
    registered r !! o = Some (RemotePythonObject arg) → remote_known (converter_ st) arg) →
  (∀ n a, registered r !! root = Some (BuiltinExceptionInstance n a) → have (converter_ st) a) →
  let '(result, st') := convert_request pythonNameToInstance pyExceptionClass root items st in
  (∀ o, ObjectRegistry.reaches (dependentIds r) root o →
    registered (objectRegistry st') !! o = registered r !! o) ∧
  grows (converter_ st) (converter_ st') ∧ comps_ok (converter_ st') ∧
  match result with
  | Ret (ObjectId objectId) => objectId = root ∧ ∃ v,
      objectIdToIvc st' = <[root := v]> (objectIdToIvc st) ∧
      convertedValues (converter_ st') !! root = Some v ∧
      request_converted r root (converter_ st) (converter_ st')
  | Ret IsException => objectIdToIvc st' = objectIdToIvc st
  | Raise e => (e = InternalError ∨ e = AssertionError) ∧ objectIdToIvc st' = objectIdToIvc st
  end.
Proof.
  intros Hwf Hpos Hsent Hok Hremote Hexc.
  destruct (request_received r root items Hwf Hpos Hsent) as (ds & Hds & Hag).
  specialize (Hag (objectRegistry st)). set (r' := update_registry ds (objectRegistry st)) in *.
  assert (Hreach : ∀ o, ObjectRegistry.reaches (dependentIds r') root o ↔ ObjectRegistry.reaches (dependentIds r) root o)
    by (intros o; by apply reaches_root).
  assert (Hroot : ObjectRegistry.reaches (dependentIds r) root root) by constructor.
  assert (Hout : let '(result, c) := convert pythonNameToInstance pyExceptionClass root r' (converter_ st) in
    grows (converter_ st) c ∧ comps_ok c ∧ request_outcome r' root (converter_ st) result c).
  { apply convert_outcome; [by eapply well_formed_agree|done| |].
    - intros o arg Ho. apply Hreach in Ho. rewrite Hag by done. by apply Hremote.
    - intros n a. rewrite Hag by done. apply Hexc. }
  unfold convert_request, catch, run_converter, mbind, M_bind, modify, lift. rewrite Hds.
  cbn [objectRegistry converter_ objectIdToIvc]. fold r'.
  destruct (convert _ _ root r' (converter_ st)) as [result c].
  destruct Hout as (Hg & Hok' & Hres). destruct result as [[v|e]|e]; cbn.
  - destruct (bool_decide (v = of_pyval VNone)) eqn:Hnone; cbn; split_ands; try done; [by right|].
    destruct Hres as [Hv Hall]. exists v. split_ands; [done|done|].
    destruct Hall as [|[(n & a & Hd)|Hall]]; [by left| |].
    + right; left. exists n, a. by rewrite <- (Hag root).
    + right; right. intros o Ho. by apply Hall, Hreach.
  - by split_ands.
  - split_ands; try done. by left.
Qed.
End request.
