(* ===== verification/ConverterSamples.v ===== *)
(** * A conversion that runs

    A native module that writes down what it is asked, a request with nested lists,
    mutually recursive functions, a class with a base and an instance; and requests
    that are not well formed, with the exceptions they end in. *)
From Stdlib Require Import Lia.
From stdpp Require Import base gmap sets list strings fin_maps fin_map_dom.
From S2P Require Import Prelude PyAst PyStrings TypeDescription ObjectRegistry NativeConverterAdaptor Converter ConverterRuns NativeConverterAdaptorSpec ConverterSpec ConverterRequests PyforaObjectConverter.

(** ** Checking a request *)

(** The ids that a request reaches, each with what [well_formed_request] asks; no object
    but a container refers to itself. *)
Definition object_ok (r : registry) (ids : list Z) (o : Z) : bool :=
  match ObjectRegistry.objectIdToObjectDefinition r !! o, dependentIds r o with
  | Some d, Ret l =>
      forallb (λ o', bool_decide (o' ∈ ids)) l &&
      match sourceFileId_of d with
      | Ret f => match ObjectRegistry.objectIdToObjectDefinition r !! f with Some (File _ _) => true | _ => false end
      | Raise _ => true
      end &&
      match d with
      | ClassDefinition _ _ chains bases => forallb (λ b, bool_decide (b ∈ chains.*2)) bases
      | RemotePythonObject _ => false
      | _ => true
      end &&
      (container d || bool_decide (o ∉ reads d))
  | _, _ => false
  end.
Definition request_ok (r : registry) (ids : list Z) (root : Z) : bool :=
  bool_decide (root ∈ ids) && forallb (object_ok r ids) ids.

Lemma request_ok_sound r ids root :
  request_ok r ids root = true →
  well_formed_request r root ∧
  ∀ o, ObjectRegistry.reaches (dependentIds r) root o → o ∈ ids ∧
    ∀ arg, ObjectRegistry.objectIdToObjectDefinition r !! o ≠ Some (RemotePythonObject arg).
Proof.
  intros [Hroot%bool_decide_eq_true Hall]%andb_true_iff. rewrite forallb_forall in Hall.
  setoid_rewrite <- list_elem_of_In in Hall.
  assert (Hin : ∀ o, ObjectRegistry.reaches (dependentIds r) root o → o ∈ ids).
  { intros o Ho. induction Ho as [|o l o' _ IH Hl Ho']; [done|]. specialize (Hall o IH).
    unfold object_ok in Hall. destruct (ObjectRegistry.objectIdToObjectDefinition r !! o); [|done].
    rewrite Hl in Hall. rewrite !andb_true_iff, forallb_forall in Hall. destruct Hall as [[[Hin _] _] _].
    apply list_elem_of_In in Ho'. specialize (Hin o' Ho'). by apply bool_decide_eq_true in Hin. }
  assert (Hok : ∀ o, ObjectRegistry.reaches (dependentIds r) root o → object_ok r ids o = true) by auto.
  clear Hall. split; [split|]; intros o; [intros Ho|intros d f Ho Hd Hf|intros f l chains bases b Ho Hd Hb|intros d Ho Hd Hself|
      intros Ho; split; [by apply Hin|intros arg Hd]];
    specialize (Hok o Ho); unfold object_ok in Hok.
  - destruct (ObjectRegistry.objectIdToObjectDefinition r !! o), (dependentIds r o); done.
  - rewrite Hd in Hok. destruct (dependentIds r o); [|done]. rewrite !andb_true_iff, Hf in Hok.
    destruct Hok as [[[_ Hfile] _] _]. clear Hin. destruct (ObjectRegistry.objectIdToObjectDefinition r !! f) as [[]|]; try done.
    by do 2 eexists.
  - rewrite Hd in Hok. destruct (dependentIds r o); [|done]. rewrite !andb_true_iff, forallb_forall in Hok.
    destruct Hok as [[_ Hb'] _]. rewrite forallb_forall in Hb'. apply list_elem_of_In in Hb.
    specialize (Hb' b Hb). by apply bool_decide_eq_true in Hb'.
  - rewrite Hd in Hok. destruct (dependentIds r o); [|done]. rewrite !andb_true_iff, orb_true_iff in Hok.
    destruct Hok as [_ [Hc|Hno%bool_decide_eq_true]]; [by left|done].
  - rewrite Hd in Hok. destruct (dependentIds r o); [|done]. rewrite !andb_true_iff in Hok. by destruct Hok as [[_ ?] _].
Qed.

Module ConverterSamples.
(** Values are their descriptions; an expression is its text and its free variables; a
    source file lists the free variable of the definition on each line, and classes
    start on line 100. *)
Definition expression : Type := string * list string.
Definition statement : Type := list string * Z.

Definition words (l : list string) : string := String.concat "," l.
Definition line_of (a : statement) : Z := if (a.2 <? 100)%Z then a.2 else (a.2 - 100)%Z.
Definition free_of (a : statement) : list string :=
  match nth_error a.1 (Z.to_nat (line_of a - 1)) with Some w => [w] | None => [] end.
Definition render (p : prim) : string :=
  match p with
  | PNone => "None"
  | PInt z => PyStr.str z
  | PFloat r => r
  | PStr s => s
  | PBool b => if b then "True" else "False"
  end.

#[local] Instance describing_native : ForaNative string expression (list string) statement := {
  Symbol_unconvertible := "`unconvertible";
  Symbol_CreateInstance := "`CreateInstance";
  of_pyval v := match v with Prim p => "py:" +:+ render p | _ => "py:other" end;
  isImplValContainer v := negb (String.prefix "py:" v);
  isSymbol v := Ret (String.prefix "`" v);
  hash v := v;
  getObjectMember v n := Ret (Some (v +:+ "." +:+ n));
  createNamedTuple vs ns := words (zip_with (λ n v, n +:+ "=" +:+ v) ns vs);
  simulateApply vs := Ret (Some ("(" +:+ words vs +:+ ")"));
  createList vs := Ret ("[" +:+ words vs +:+ "]");
  createTuple vs := Ret ("(" +:+ words vs +:+ ")");
  createDict kvs := Ret ("{" +:+ words ((λ kv, kv.1 +:+ ":" +:+ kv.2) <$> kvs) +:+ "}");
  createListOfPrimitives l := Ret ("[" +:+ PyStr.str (Z.of_nat (length l)) +:+ " primitives]");
  convertConstant p := Ret (render p);
  mentionedVariables e := e.2;
  freeVariables e := filter (λ n, negb (String.prefix "_" n)) e.2;
  expression_hash e := e.1;
  rebindFreeVariableMemberAccessChain e chain n :=
    (e.1, (λ x, if bool_decide (Some x = head chain) then n else x) <$> e.2);
  replaceUnconvertiblesWithThrowExprs e ns := e;
  empytObjectExpression := ("", []);
  prependMemberToCreateObjectExpression e n f := (e.1 +:+ n +:+ ":" +:+ f.1 +:+ ";", e.2 ++ f.2);
  evaluateRootLevelCreateObjectExpression e bs _ :=
    Ret (e.1 +:+ "<" +:+ words ((λ kv, kv.1 +:+ "=" +:+ kv.2) <$> bs) +:+ ">");
  computedValue_call e vs := "call(" +:+ words vs +:+ ")";
  parsePython t := Raise (OtherException "SyntaxError");
  parseStringToPythonAst t := Ret (split_dots t);
  functionClassOrLambdaDefAtLine p l := Ret (Some (p, l));
  isFunctionDef a := (a.2 <? 100)%Z;
  isLambda a := false;
  isClassDef a := (100 <=? a.2)%Z;
  convertPythonAstToForaPythonAst n t := Raise (OtherException "SyntaxError");
  convertPythonAstFunctionDefToFora a path := Some ("f" +:+ PyStr.str (line_of a), free_of a);
  convertPythonAstLambdaToFora a path := None;
  convertPythonAstClassDefToFora a path bases := Some ("C" +:+ PyStr.str (line_of a), free_of a);
  convertPythonAstWithBlockFunctionDefToFora a path ns := None }.

#[local] Instance describing_laws : ForaNativeLaws string expression (list string) statement.
Proof. split; intros; cbn; first [apply proper_ret|by apply proper_raise]. Qed.

(** [0] is a list of a nested list, of a function that is mutually recursive with
    another one, and of an instance of a class that has a base. *)
Definition objects : gmap Z definition := list_to_map
  [ (0, List [1; 2; 5]); (1, List [3]); (2, FunctionDefinition 4 1 [("g", 6)]); (3, Primitive (PInt 7));
    (4, File "m.py" "g.f.x"); (5, ClassInstanceDescription 7 [("m", 3)]);
    (6, FunctionDefinition 4 2 [("f", 2)]); (7, ClassDefinition 4 103 [("x", 3); ("B", 8)] [8]);
    (8, ClassDefinition 4 104 [] []) ]%Z.
Definition request : registry := Registry 9 objects.
Definition start : converter (V := string) := Converter ∅ ∅ ∅.

Definition converts (r : registry) (s : converter) (root : Z) : res (string + exn) :=
  (convert ∅ "Exception" root r s).1.

Example request_value : converts request start 0 =
  Ret (inl "[[7],_f1_:f1;_f2_:f2;<>._f1_,(C3<x=7,B=C4<>,baseClass0=C4<>>,`CreateInstance,m=7)]").
Proof. vm_compute. reflexivity. Qed.

Lemma convert_finds_values_witness :
  request_ok request [0; 1; 2; 3; 4; 5; 6; 7; 8]%Z 0 = true ∧
  let '(result, s') := convert ∅ "Exception" 0 request start in
  grows start s' ∧ comps_ok s' ∧
  match result with
  | Ret (inl v) => convertedValues s' !! 0%Z = Some v ∧ request_converted request 0 start s'
  | Ret (inr e) => e = PythonToForaConversionError
  | Raise e => e ≠ PythonToForaConversionError ∧ acceptable (BD := request_binds request 0) e s'
  end.
Proof.
  assert (Hok : request_ok request [0; 1; 2; 3; 4; 5; 6; 7; 8]%Z 0 = true) by (vm_compute; reflexivity).
  split; [exact Hok|]. destruct (request_ok_sound _ _ _ Hok) as [Hwf Hremote].
  apply convert_finds_values.
  - exact Hwf.
  - intros c x Hc. by apply elem_of_empty in Hc.
  - intros o arg Ho Hd. by destruct (proj2 (Hremote o Ho) arg).
  - intros n a Hd. discriminate Hd.
Defined.

Lemma server_answers_witness :
  request_ok request [0; 1; 2; 3; 4; 5; 6; 7; 8]%Z 0 = true ∧
  match sent request 0 with
  | Raise _ => False
  | Ret items =>
      let '(result, st') := convert_request ∅ "Exception" 0 items (Server init start ∅) in
      (∀ o, ObjectRegistry.reaches (dependentIds request) 0 o →
        registered (objectRegistry st') !! o = registered request !! o) ∧
      grows start (converter_ st') ∧ comps_ok (converter_ st') ∧
      match result with
      | Ret (ObjectId objectId) => objectId = 0%Z ∧ ∃ v, objectIdToIvc st' = <[0%Z := v]> ∅ ∧
          convertedValues (converter_ st') !! 0%Z = Some v ∧ request_converted request 0 start (converter_ st')
      | Ret IsException => objectIdToIvc st' = ∅
      | Raise e => (e = InternalError ∨ e = AssertionError) ∧ objectIdToIvc st' = ∅
      end
  end.
Proof.
  assert (Hok : request_ok request [0; 1; 2; 3; 4; 5; 6; 7; 8]%Z 0 = true) by (vm_compute; reflexivity).
  split; [exact Hok|]. destruct (request_ok_sound _ _ _ Hok) as [Hwf Hin].
  destruct (sent request 0) as [items|] eqn:Hsent; [|by vm_compute in Hsent].
  refine (server_answers ∅ "Exception" request 0 items (Server init start ∅) Hwf _ Hsent _ _ _).
  - intros o Ho. destruct (Hin o Ho) as [Ho' _]. rewrite !elem_of_cons, elem_of_nil in Ho'. lia.
  - intros c x Hc. by apply elem_of_empty in Hc.
  - intros o arg Ho Hd. by destruct (proj2 (Hin o Ho) arg).
  - intros n a Hd. discriminate Hd.
Defined.

(** The answer that the request gets. *)
Example request_answer :
  (items ← sent request 0; (convert_request ∅ "Exception" 0 items (Server init start ∅)).1) = Ret (ObjectId 0).
Proof. vm_compute. reflexivity. Qed.

(** ** Requests that are not well formed *)

(** A lambda bound to the name it calls: its own id is among its free variables. *)
Definition recursive_lambda : registry :=
  Registry 2 (list_to_map [(0, FunctionDefinition 1 1 [("f", 0)]); (1, File "m.py" "f")]%Z).
Example recursive_lambda_fails : converts recursive_lambda start 0 = Raise KeyError.
Proof. vm_compute. reflexivity. Qed.

(** An instance that has itself as a member. *)
Definition self_member : registry :=
  Registry 3 (list_to_map [(0, ClassInstanceDescription 1 [("me", 0)]); (1, ClassDefinition 2 150 [] []);
    (2, File "m.py" "")]%Z).
Example self_member_fails : converts self_member start 0 = Raise KeyError.
Proof. vm_compute. reflexivity. Qed.

(** An exception instance that is the object of the request. *)
Definition exception_object : registry :=
  Registry 2 (list_to_map [(0, BuiltinExceptionInstance "ValueError" 1); (1, Tuple [])]%Z).
Example exception_object_fails : converts exception_object start 0 = Raise KeyError.
Proof. vm_compute. reflexivity. Qed.

(** A class whose base is the value of an expression, of which the free variables have
    no chain that ends in the base. *)
Definition computed_base : registry :=
  Registry 4 (list_to_map [(0, ClassDefinition 1 102 [("make_base", 2)] [3]); (1, File "m.py" "make_base");
    (2, FunctionDefinition 1 99 []); (3, ClassDefinition 1 199 [] [])]%Z).
Example computed_base_fails : converts computed_base start 0 = Raise KeyError.
Proof. vm_compute. reflexivity. Qed.

(** A function with a free variable for a computed value, of whose expression another
    variable is free: the look up of the arguments fails, where a function without
    computed values is refused. *)
Definition computed_argument (d : definition) : registry :=
  Registry 3 (list_to_map [(0, FunctionDefinition 1 1 [("g", 2)]); (1, File "m.py" "f"); (2, d)]%Z).
Example computed_argument_fails :
  converts (computed_argument (RemotePythonObject (VStr "x"))) start 0 = Raise KeyError ∧
  converts (computed_argument (Primitive (PInt 7))) start 0 = Ret (inr PythonToForaConversionError).
Proof. split; vm_compute; reflexivity. Qed.

(** Lists that contain themselves are refused, directly or not. *)
Definition cyclic_list : registry := Registry 2 (list_to_map [(0, List [1]); (1, Tuple [0])]%Z).
Example cyclic_list_refused : converts cyclic_list start 0 = Ret (inr PythonToForaConversionError).
Proof. vm_compute. reflexivity. Qed.

(** Two mutually recursive functions of different modules, each with its own [h]: their
    free variables are bound by one dict, and the second [h] is lost. *)
Definition two_h : registry :=
  Registry 6 (list_to_map [(0, FunctionDefinition 2 1 [("g", 1); ("h", 4)]); (1, FunctionDefinition 3 2 [("f", 0); ("h", 5)]);
    (2, File "f.py" "h"); (3, File "g.py" "x.h"); (4, Primitive (PInt 4)); (5, Primitive (PInt 5))]%Z).
Example two_h_bound : converts two_h start 0 = Ret (inl "_f1_:f1;_f2_:f2;<h=5>._f1_").
Proof. vm_compute. reflexivity. Qed.
End ConverterSamples.
