(* ===== verification/ResultTransformer.v ===== *)
(** * Results as JSON
    ([ufora/FORA/python/PurePython/Converter.py], [transformPyforaImplval])

    The way back from a value of the cluster to the client: a value becomes a dict of
    object definitions that refer to each other by ids, one for every value with a hash
    of its own, and the bytes of the definitions are counted
    ([ObjectClassesToExpose/PyforaToJsonTransformer.py]). *)
From Stdlib Require Import Lia.
From stdpp Require Import base gmap sets list strings fin_maps.
From S2P Require Import Prelude PyStrings TypeDescription.

(** ** Object definitions *)

(** A position of [posToJson]; a location of [formatCodeLocation]. *)
Record position := Position { characterOffset : Z; line : Z; col : Z }.
Record location := Location { path : list string; start : position; stop : position }.

(** The dicts that the transformer makes; ids are strings. *)
Inductive objectDef :=
| DEmpty
| DPrimitive (primitive : prim)
| DTuple (members : list string)
| DList (members : list string)
| DHomogenousList (dataStringsAndSizes : list (string * Z)) (dtype firstElement : string) (length : Z)
| DDict (keys values : list string)
| DSingleton (singletonName : string)
| DBuiltinException (typeName args : string)
| DPyAbortException (typeName args : string)
| DInvalidPyforaOperation (operationText : string)
| DBoundMethod (instance methodName : string)
| DClassInstance (classObject : string) (members : list (string * string))
| DClassObject (filename : string) (linenumber : Z) (members : list (string * string))
| DFunctionInstance (filename : string) (linenumber : Z) (members : list (string * string))
| DStacktrace (locations : list location)
| DUntranslatableException (text : string).

(** ** The interface of numpy and of values

    numpy's arrays [arr], which the client reads back from their bytes. *)
Class Numpy (arr : Type) := {
  tostring : arr → string;
  array_length : arr → Z;
  dtype_pickle : arr → string;
  elements : arr → list prim;
  (* [ndarray(shape, dtype, buffer).tolist()], and the zero of a dtype *)
  frombuffer : string → string → Z → res (list prim);
  dtype_zero : string → prim }.

(** What [vectorContentsExtractor] returns of a vector that is loaded. *)
Inductive contents (V arr : Type) :=
| StringContents (s : string)
| ListContents (l : list V)
| NumpyContents (firstElement : V) (arrays : list arr).
Arguments StringContents {V arr} s.
Arguments ListContents {V arr} l.
Arguments NumpyContents {V arr} firstElement arrays.

(** The values, of which the native module reads this. A lexical member comes with
    whether it is bound already; the second component of [objectLexicalMembers] is
    whether a member refers to more than its object. *)
Class ForaValues (V : Type) := {
  implval_hash : V → string;
  invertForaConstant : V → res (option (prim + V));
  vector_length : V → Z;
  isVectorOfChar : V → bool;
  getClassName : V → string;
  getObjectLexicalMember : V → string → res (option (V * bool));
  invertTuple : V → res (option (list V));
  invertDict : V → res (option (list (V * V)));
  invertList : V → res (option V);
  isTuple : V → bool;
  getTuple : V → res (list V);
  getTupleNames : V → list string;
  getStackTrace : V → res (option (list (option (option (list string) * position * position))));
  isObject : V → bool;
  isClass : V → bool;
  getObjectClass : V → option V;
  getObjectDefinitionPoint : V → option (list string * Z);
  objectMembers : V → list (option string);
  objectLexicalMembers : V → list (string * bool);
  symbol_text : V → option string }.

(** ** Counting bytes ([PyforaToJsonTransformer]) *)

Definition HaltTransformationException : exn := OtherException "HaltTransformationException".
Definition ASSUMED_OBJECT_BYTECOUNT_OVERHEAD : Z := 20.

Record transformer := Transformer {
  anyListsThatNeedLoading : bool;
  bytesEncoded : Z;
  maxBytecount : option Z }.

Definition checkIfThresholdExceeded : M transformer unit :=
  t ← get;
  match maxBytecount t with
  | Some m => if (m <? bytesEncoded t)%Z then raise HaltTransformationException else mret tt
  | None => mret tt
  end.

Definition accumulateObjects (objectCount extraBytes : Z) : M transformer unit :=
  modify (λ t, Transformer (anyListsThatNeedLoading t)
    (bytesEncoded t + objectCount * ASSUMED_OBJECT_BYTECOUNT_OVERHEAD + extraBytes) (maxBytecount t)) ;;
  checkIfThresholdExceeded.

Definition needs_loading : M transformer objectDef :=
  modify (λ t, Transformer true (bytesEncoded t) (maxBytecount t)) ;; mret DEmpty.
Definition transformListThatNeedsLoading (length : Z) : M transformer objectDef :=
  accumulateObjects length 0 ;; needs_loading.
Definition transformStringThatNeedsLoading (length : Z) : M transformer objectDef :=
  accumulateObjects 1 length ;; needs_loading.

Definition transformPrimitive (primitive : prim) : M transformer objectDef :=
  let primitive := match primitive with PStr s => PStr (Base64.b64encode s) | p => p end in
  accumulateObjects 1 (match primitive with PStr s => Z.of_nat (String.length s) | _ => 0 end) ;;
  mret (DPrimitive primitive).

(** One object of the size of its overhead. *)
Definition transformed (d : objectDef) : M transformer objectDef := accumulateObjects 1 0 ;; mret d.

(** [sum(len(x) for x in numpyAsStrings)] adds up the sizes of dicts of two keys. *)
Definition transformHomogenousList {arr} `{Numpy arr} (firstElement : string) (arrays : list arr) :
    M transformer objectDef :=
  let numpyAsStrings := (λ x, (Base64.b64encode (tostring x), array_length x)) <$> arrays in
  first ← lift (of_option IndexError (head arrays));
  let numpyDtypeAsString := Base64.b64encode (dtype_pickle first) in
  accumulateObjects 1
    (2 * Z.of_nat (length numpyAsStrings) + Z.of_nat (String.length numpyDtypeAsString)) ;;
  mret (DHomogenousList numpyAsStrings numpyDtypeAsString firstElement
          (foldr Z.add 0%Z (array_length <$> arrays))).

(** ** Transforming a value *)

(** The half of [PyforaSingletonAndExceptionConverter] that reads values. *)
Record exceptionReader (V : Type) := ExceptionReader {
  instanceToPythonName : V → option string;
  pyExceptionClassInstanceName : string;
  pyAbortExceptionClassInstanceName : string }.
Arguments ExceptionReader {V}.
Arguments instanceToPythonName {V}.
Arguments pyExceptionClassInstanceName {V}.
Arguments pyAbortExceptionClassInstanceName {V}.

(** [d[k] = v] on the items of a dict. *)
Fixpoint set_item {X} (k : string) (v : X) (d : list (string * X)) : list (string * X) :=
  match d with
  | [] => [(k, v)]
  | (k', v') :: d => if bool_decide (k' = k) then (k, v) :: d else (k', v') :: set_item k v d
  end.

Section transform.
Context {V arr : Type} `{EqDecision V} {FV : ForaValues V} {NP : Numpy arr}.
Context (reader : option (exceptionReader V)) (pyforaBoundMethodClass : V).
Context (vectorContentsExtractor : V → res (option (contents V arr))).

(** [self.objectDefinitions], where an id has [None] until its value is transformed. *)
Record transformation := Transformation {
  objectDefinitions : gmap string (option objectDef);
  hashToObjectId : gmap string string;
  the_transformer : transformer }.

Definition on_transformer {X} (m : M transformer X) : M transformation X := λ s,
  let '(r, t) := m (the_transformer s) in
  (r, Transformation (objectDefinitions s) (hashToObjectId s) t).
Definition set_definition (id : string) (d : option objectDef) : M transformation unit := modify (λ s,
  Transformation (<[id := d]> (objectDefinitions s)) (hashToObjectId s) (the_transformer s)).
Definition set_hash (h id : string) : M transformation unit := modify (λ s,
  Transformation (objectDefinitions s) (<[h := id]> (hashToObjectId s)) (the_transformer s)).

(** [v.getObjectLexicalMember(name)[0]]. *)
Definition member_value (v : V) (name : string) : res V :=
  m ← getObjectLexicalMember v name;
  fst <$> of_option TypeError m.

(** [convertExceptionInstance] and [convertPyAbortExceptionInstance], by the name of the
    class of their instances. *)
Definition convertException (r : exceptionReader V) (className : string) (v : V) :
    res (option (string * V)) :=
  if bool_decide (getClassName v = className) then
    typeInstance ← member_value v "@class";
    typeInstanceName ← of_option AssertionError (instanceToPythonName r typeInstance);
    args ← member_value v "@args";
    Ret (Some (typeInstanceName, args))
  else Ret None.

Definition formatCodeLocation (c : option (option (list string) * position * position)) : option location :=
  '(paths, start, stop) ← c; p ← paths; Some (Location p start stop).

(** [getStackTraceAsJsonOrNone]; the tuple's second part is the variables. *)
Definition getStackTraceAsJsonOrNone (v : V) : res (option objectDef) :=
  tup ← getTuple v;
  match tup with
  | [trace; _] =>
      hashes ← getStackTrace trace;
      Ret (match hashes with
           | Some locations => Some (DStacktrace (omap formatCodeLocation (locations : list _)))
           | None => None
           end)
  | _ => Ret None
  end.

(** [paths[0]] and the line of a definition point. *)
Definition first_path (p : list string * Z) : res (string * Z) :=
  path ← of_option IndexError (head p.1); Ret (path, p.2).

Section body.
Context (transform : V → M transformation string).

(** A constant, or the characters of a string. *)
Definition transformConstant (c : prim + V) : M transformation objectDef :=
  match c with
  | inl p => on_transformer (transformPrimitive p)
  | inr vec =>
      if bool_decide (vector_length vec = 0%Z) then on_transformer (transformPrimitive (PStr ""))
      else
        lift (py_assert (isVectorOfChar vec)) ;;
        loaded ← lift (vectorContentsExtractor vec);
        match loaded with
        | None => on_transformer (transformStringThatNeedsLoading (vector_length vec))
        | Some (StringContents s) => on_transformer (transformPrimitive (PStr s))
        | Some _ => raise AssertionError
        end
  end.

Definition transformItems (vec : V) : M transformation objectDef :=
  loaded ← lift (vectorContentsExtractor vec);
  match loaded with
  | None => on_transformer (transformListThatNeedsLoading (vector_length vec))
  | Some (ListContents l) => ids ← mapM transform l; on_transformer (transformed (DList ids))
  | Some (NumpyContents firstElement arrays) =>
      first ← transform firstElement; on_transformer (transformHomogenousList first arrays)
  | Some (StringContents _) => raise AssertionError
  end.

(** The members of a function or a class that its object binds. *)
Fixpoint transformMembers (v : V) (lexical : list (string * bool)) (members : list (string * string)) :
    M transformation (list (string * string)) :=
  match lexical with
  | [] => mret members
  | (memberName, bound) :: lexical =>
      if bound then
        member ← lift (getObjectLexicalMember v memberName);
        match member with
        | Some (value, true) =>
            id ← transform value; transformMembers v lexical (set_item memberName id members)
        | _ => transformMembers v lexical members
        end
      else transformMembers v lexical members
  end.

(** The members of an instance, those of its tuple ["@m"]. *)
Fixpoint transformTupleMembers (items : list (string * V)) (members : list (string * string)) :
    M transformation (list (string * string)) :=
  match items with
  | [] => mret members
  | (name, value) :: items => id ← transform value; transformTupleMembers items (set_item name id members)
  end.

Fixpoint transformInstanceMembers (v : V) (names : list (option string)) (members : list (string * string)) :
    M transformation (list (string * string)) :=
  match names with
  | [] => mret members
  | None :: names => transformInstanceMembers v names members
  | Some memberName :: names =>
      member ← lift (getObjectLexicalMember v memberName);
      match member with
      | Some (value, true) =>
          lift (py_assert (bool_decide (memberName = "@m"))) ;;
          lift (py_assert (isTuple value)) ;;
          values ← lift (getTuple value);
          members ← transformTupleMembers (zip (getTupleNames value) values) members;
          transformInstanceMembers v names members
      | _ => transformInstanceMembers v names members
      end
  end.

(** The name of a bound method, without the symbol's colon. *)
Definition method_name (nameAsImplval : V) : res string :=
  match symbol_text nameAsImplval with
  | Some s => Ret (PyStr.drop 1 s)
  | None => Raise ForaToPythonConversionError
  end.

Definition transformObject (v : V) : M transformation objectDef :=
  match getObjectClass v with
  | Some objectClass =>
      if bool_decide (objectClass = pyforaBoundMethodClass) then
        nameAsImplval ← lift (member_value v "@name");
        name ← lift (method_name nameAsImplval);
        self ← lift (member_value v "@self");
        id ← transform self;
        on_transformer (transformed (DBoundMethod id name))
      else
        match getObjectDefinitionPoint v with
        | None => raise ForaToPythonConversionError
        | Some _ =>
            classObject ← transform objectClass;
            members ← transformInstanceMembers v (objectMembers objectClass) [];
            on_transformer (transformed (DClassInstance classObject members))
        end
  | None =>
      match getObjectDefinitionPoint v with
      | None => raise ForaToPythonConversionError
      | Some defPoint =>
          members ← transformMembers v (objectLexicalMembers v) [];
          point ← lift (first_path defPoint);
          on_transformer (transformed (DFunctionInstance point.1 point.2 members))
      end
  end.

Definition transformClass (v : V) : M transformation objectDef :=
  members ← transformMembers v (objectLexicalMembers v) [];
  defPoint ← lift (of_option AttributeError (getObjectDefinitionPoint v));
  point ← lift (first_path defPoint);
  on_transformer (transformed (DClassObject point.1 point.2 members)).

(** What follows the containers: a stack trace, an object or a class. *)
Definition transformRest (v : V) : M transformation objectDef :=
  stacktrace ← (if isTuple v then lift (getStackTraceAsJsonOrNone v) else mret None);
  match stacktrace with
  | Some d => mret d
  | None =>
      if isObject v then transformObject v
      else if isClass v then transformClass v
      else raise ForaToPythonConversionError
  end.

Definition transformContainer (v : V) : M transformation objectDef :=
  tuple ← lift (invertTuple v);
  match tuple with
  | Some l => ids ← mapM transform l; on_transformer (transformed (DTuple ids))
  | None =>
      dict ← lift (invertDict v);
      match dict with
      | Some items =>
          keys ← mapM transform items.*1;
          values ← mapM transform items.*2;
          on_transformer (transformed (DDict keys values))
      | None =>
          listItemsAsVector ← lift (invertList v);
          match listItemsAsVector with
          | Some vec => transformItems vec
          | None => transformRest v
          end
      end
  end.

(** Singletons and exceptions. *)
Definition transformKnown (v : V) : M transformation objectDef :=
  match reader with
  | None => transformContainer v
  | Some r =>
      match instanceToPythonName r v with
      | Some name => on_transformer (transformed (DSingleton name))
      | None =>
          e ← lift (convertException r (pyExceptionClassInstanceName r) v);
          match e with
          | Some (name, args) =>
              id ← transform args; on_transformer (transformed (DBuiltinException name id))
          | None =>
              e ← lift (convertException r (pyAbortExceptionClassInstanceName r) v);
              match e with
              | Some (name, args) =>
                  id ← transform args; on_transformer (transformed (DPyAbortException name id))
              | None => transformContainer v
              end
          end
      end
  end.

Definition transformBody (v : V) : M transformation objectDef :=
  value ← lift (invertForaConstant v);
  match value with
  | Some c => transformConstant c
  | None => transformKnown v
  end.
End body.

(** [transform]; [fuel] bounds how deep values nest. *)
Fixpoint transform (fuel : nat) (v : V) : M transformation string :=
  match fuel with
  | O => raise RecursionLimit
  | S fuel =>
      s ← get;
      match hashToObjectId s !! implval_hash v with
      | Some id => mret id
      | None =>
          let newId := PyStr.str (Z.of_nat (size (objectDefinitions s))) in
          set_definition newId None ;;
          set_hash (implval_hash v) newId ;;
          d ← transformBody (transform fuel) v;
          set_definition newId (Some d) ;;
          mret newId
      end
  end.

(** [transformPyforaImplval]: the definitions, and the id of the value. *)
Definition transformPyforaImplval (fuel : nat) (v : V) : M transformer (string * gmap string (option objectDef)) :=
  λ t, let '(r, s) := transform fuel v (Transformation ∅ ∅ t) in
       (root ← r; Ret (root, objectDefinitions s), the_transformer s).
End transform.
