(* ===== verification/ResultTransformerSpec.v ===== *)
(** * What a result says

    A value is read as a [shape] with its children; the definitions of a result are the
    shapes of the values that it refers to, one for each, with ids for the children. *)
From Stdlib Require Import Lia.
From stdpp Require Import base gmap sets list strings fin_maps fin_map_dom.
From S2P Require Import Prelude PyStrings TypeDescription ResultTransformer.

Set Default Proof Using "Type".

(** ** Shapes of values *)

Inductive shape (V arr : Type) :=
| ShLoading
| ShPrimitive (p : prim)
| ShTuple (l : list V)
| ShList (l : list V)
| ShNumpy (firstElement : V) (arrays : list arr)
| ShDict (items : list (V * V))
| ShSingleton (name : string)
| ShException (name : string) (args : V)
| ShAbort (name : string) (args : V)
| ShBoundMethod (self : V) (name : string)
| ShInstance (objectClass : V) (members : list (string * V))
| ShFunction (path : string) (line : Z) (members : list (string * V))
| ShClass (path : string) (line : Z) (members : list (string * V))
| ShTrace (d : objectDef).
Arguments ShLoading {V arr}.
Arguments ShPrimitive {V arr} p.
Arguments ShTuple {V arr} l.
Arguments ShList {V arr} l.
Arguments ShNumpy {V arr} firstElement arrays.
Arguments ShDict {V arr} items.
Arguments ShSingleton {V arr} name.
Arguments ShException {V arr} name args.
Arguments ShAbort {V arr} name args.
Arguments ShBoundMethod {V arr} self name.
Arguments ShInstance {V arr} objectClass members.
Arguments ShFunction {V arr} path line members.
Arguments ShClass {V arr} path line members.
Arguments ShTrace {V arr} d.

Definition children {V arr} (sh : shape V arr) : list V :=
  match sh with
  | ShLoading | ShPrimitive _ | ShSingleton _ | ShTrace _ => []
  | ShTuple l | ShList l => l
  | ShNumpy first _ => [first]
  | ShDict items => items.*1 ++ items.*2
  | ShException _ args | ShAbort _ args => [args]
  | ShBoundMethod self _ => [self]
  | ShInstance c members => c :: members.*2
  | ShFunction _ _ members | ShClass _ _ members => members.*2
  end.

Section spec.
Context {V arr : Type} `{EqDecision V} {FV : ForaValues V} {NP : Numpy arr}.
Context (reader : option (exceptionReader V)) (pyforaBoundMethodClass : V).
Context (vectorContentsExtractor : V → res (option (contents V arr))).
Abbreviation shape := (shape V arr).

(** The shape of a value: what it is for the first reader that knows it. *)
Definition shape_constant (c : prim + V) : res shape :=
  match c with
  | inl p => Ret (ShPrimitive p)
  | inr vec =>
      if bool_decide (vector_length vec = 0%Z) then Ret (ShPrimitive (PStr ""))
      else
        py_assert (isVectorOfChar vec) ;;
        loaded ← vectorContentsExtractor vec;
        match loaded with
        | None => Ret ShLoading
        | Some (StringContents s) => Ret (ShPrimitive (PStr s))
        | Some _ => Raise AssertionError
        end
  end.

Definition shape_items (vec : V) : res shape :=
  loaded ← vectorContentsExtractor vec;
  match loaded with
  | None => Ret ShLoading
  | Some (ListContents l) => Ret (ShList l)
  | Some (NumpyContents firstElement arrays) => Ret (ShNumpy firstElement arrays)
  | Some (StringContents _) => Raise AssertionError
  end.

Fixpoint bound_members (v : V) (lexical : list (string * bool)) (members : list (string * V)) :
    res (list (string * V)) :=
  match lexical with
  | [] => Ret members
  | (name, bound) :: lexical =>
      if bound : bool then
        member ← getObjectLexicalMember v name;
        match member with
        | Some (value, true) => bound_members v lexical (set_item name value members)
        | _ => bound_members v lexical members
        end
      else bound_members v lexical members
  end.

Definition tuple_members (items members : list (string * V)) : list (string * V) :=
  foldl (λ ms kv, set_item kv.1 kv.2 ms) members items.

Fixpoint instance_members (v : V) (names : list (option string)) (members : list (string * V)) :
    res (list (string * V)) :=
  match names with
  | [] => Ret members
  | None :: names => instance_members v names members
  | Some name :: names =>
      member ← getObjectLexicalMember v name;
      match member with
      | Some (value, true) =>
          py_assert (bool_decide (name = "@m")) ;;
          py_assert (isTuple value) ;;
          values ← getTuple value;
          instance_members v names (tuple_members (zip (getTupleNames value) values) members)
      | _ => instance_members v names members
      end
  end.

Definition shape_object (v : V) : res shape :=
  match getObjectClass v with
  | Some objectClass =>
      if bool_decide (objectClass = pyforaBoundMethodClass) then
        nameAsImplval ← member_value v "@name";
        name ← method_name nameAsImplval;
        self ← member_value v "@self";
        Ret (ShBoundMethod self name)
      else
        match getObjectDefinitionPoint v with
        | None => Raise ForaToPythonConversionError
        | Some _ => ShInstance objectClass <$> instance_members v (objectMembers objectClass) []
        end
  | None =>
      match getObjectDefinitionPoint v with
      | None => Raise ForaToPythonConversionError
      | Some defPoint =>
          members ← bound_members v (objectLexicalMembers v) [];
          point ← first_path defPoint;
          Ret (ShFunction point.1 point.2 members)
      end
  end.

Definition shape_class (v : V) : res shape :=
  members ← bound_members v (objectLexicalMembers v) [];
  defPoint ← of_option AttributeError (getObjectDefinitionPoint v);
  point ← first_path defPoint;
  Ret (ShClass point.1 point.2 members).

Definition shape_rest (v : V) : res shape :=
  stacktrace ← (if isTuple v then getStackTraceAsJsonOrNone v else Ret None);
  match stacktrace with
  | Some d => Ret (ShTrace d)
  | None =>
      if isObject v then shape_object v
      else if isClass v then shape_class v
      else Raise ForaToPythonConversionError
  end.

Definition shape_container (v : V) : res shape :=
  tuple ← invertTuple v;
  match tuple with
  | Some l => Ret (ShTuple l)
  | None =>
      dict ← invertDict v;
      match dict with
      | Some items => Ret (ShDict items)
      | None =>
          listItemsAsVector ← invertList v;
          match listItemsAsVector with
          | Some vec => shape_items vec
          | None => shape_rest v
          end
      end
  end.

Definition shape_known (v : V) : res shape :=
  match reader with
  | None => shape_container v
  | Some r =>
      match instanceToPythonName r v with
      | Some name => Ret (ShSingleton name)
      | None =>
          e ← convertException r (pyExceptionClassInstanceName r) v;
          match e with
          | Some (name, args) => Ret (ShException name args)
          | None =>
              e ← convertException r (pyAbortExceptionClassInstanceName r) v;
              match e with
              | Some (name, args) => Ret (ShAbort name args)
              | None => shape_container v
              end
          end
      end
  end.

Definition shape_of (v : V) : res shape :=
  value ← invertForaConstant v;
  match value with
  | Some c => shape_constant c
  | None => shape_known v
  end.

(** ** Definitions of shapes *)

Abbreviation ids := (gmap string string).

Definition id_of (m : ids) (v : V) : string := default "" (m !! implval_hash v).
Definition member_ids (m : ids) (members : list (string * V)) : list (string * string) :=
  (λ kv, (kv.1, id_of m kv.2)) <$> members.

Definition def_of (m : ids) (sh : shape) : objectDef :=
  match sh with
  | ShLoading => DEmpty
  | ShPrimitive p => DPrimitive (match p with PStr s => PStr (Base64.b64encode s) | p => p end)
  | ShTuple l => DTuple (id_of m <$> l)
  | ShList l => DList (id_of m <$> l)
  | ShNumpy first arrays =>
      DHomogenousList ((λ x, (Base64.b64encode (tostring x), array_length x)) <$> arrays)
        (from_option (λ a, Base64.b64encode (dtype_pickle a)) "" (head arrays))
        (id_of m first) (foldr Z.add 0%Z (array_length <$> arrays))
  | ShDict items => DDict (id_of m <$> items.*1) (id_of m <$> items.*2)
  | ShSingleton name => DSingleton name
  | ShException name args => DBuiltinException name (id_of m args)
  | ShAbort name args => DPyAbortException name (id_of m args)
  | ShBoundMethod self name => DBoundMethod (id_of m self) name
  | ShInstance c members => DClassInstance (id_of m c) (member_ids m members)
  | ShFunction path line members => DFunctionInstance path line (member_ids m members)
  | ShClass path line members => DClassObject path line (member_ids m members)
  | ShTrace d => d
  end.

Definition known (m : ids) (v : V) : Prop := is_Some (m !! implval_hash v).

(** [d] is the definition of [v], all of whose children have ids. *)
Definition describes (m : ids) (v : V) (d : objectDef) : Prop :=
  ∃ sh, shape_of v = Ret sh ∧ (∀ c, c ∈ children sh → known m c) ∧ d = def_of m sh.

Lemma id_of_mono m m' v : m ⊆ m' → known m v → id_of m' v = id_of m v.
Proof. intros Hsub [id Hid]. unfold id_of. rewrite Hid. by rewrite (lookup_weaken _ _ _ _ Hid Hsub). Qed.

Lemma known_mono m m' v : m ⊆ m' → known m v → known m' v.
Proof. intros Hsub [id Hid]. exists id. by eapply lookup_weaken. Qed.

Lemma ids_mono m m' (l : list V) : m ⊆ m' → (∀ c, c ∈ l → known m c) → id_of m' <$> l = id_of m <$> l.
Proof.
  intros Hsub Hl. apply list_fmap_ext. intros i v Hv. apply id_of_mono; [done|]. by eapply Hl, list_elem_of_lookup_2.
Qed.

Lemma member_ids_mono m m' members :
  m ⊆ m' → (∀ c, c ∈ members.*2 → known m c) → member_ids m' members = member_ids m members.
Proof.
  intros Hsub Hl. apply list_fmap_ext. intros i [k v] Hv. cbn. f_equal. apply id_of_mono; [done|].
  apply Hl, list_elem_of_fmap. exists (k, v). split; [done|]. by eapply list_elem_of_lookup_2.
Qed.

Lemma describes_mono m m' v d : m ⊆ m' → describes m v d → describes m' v d.
Proof.
  intros Hsub (sh & Hsh & Hk & ->). exists sh. split; [done|]. split; [intros c Hc; eapply known_mono, Hk; done|].
  destruct sh; cbn [def_of children] in *; try done; f_equal; symmetry;
    first [apply ids_mono|apply member_ids_mono|apply id_of_mono]; try done; intros; apply Hk;
    rewrite ?elem_of_cons, ?elem_of_app, ?elem_of_nil; auto.
Qed.

(** ** Runs of the transformation *)

Class Floor := floor : gmap string string.

Abbreviation state := transformation.
Implicit Types s : state.

(** Ids are the numbers of the definitions, one for each hash; what has a definition is
    described by it. *)
Record inv s : Prop := {
  inv_keys id : id ∈ dom (objectDefinitions s) ↔
    ∃ k, k < size (objectDefinitions s) ∧ id = PyStr.str (Z.of_nat k);
  inv_ids h id : hashToObjectId s !! h = Some id → id ∈ dom (objectDefinitions s);
  inv_inj h h' id : hashToObjectId s !! h = Some id → hashToObjectId s !! h' = Some id → h = h';
  inv_described id d : objectDefinitions s !! id = Some (Some d) →
    ∃ v, hashToObjectId s !! implval_hash v = Some id ∧ describes (hashToObjectId s) v d;
  inv_bytes m : maxBytecount (the_transformer s) = Some m → (bytesEncoded (the_transformer s) ≤ m)%Z;
  inv_loading id : objectDefinitions s !! id = Some (Some DEmpty) →
    anyListsThatNeedLoading (the_transformer s) = true }.

(** Nothing is forgotten, no definition is left open, the bound stays. *)
Record grown s s' : Prop := {
  grown_hashes : hashToObjectId s ⊆ hashToObjectId s';
  grown_definitions : objectDefinitions s ⊆ objectDefinitions s';
  grown_closed id : objectDefinitions s' !! id = Some None → objectDefinitions s !! id = Some None;
  grown_bound : maxBytecount (the_transformer s') = maxBytecount (the_transformer s);
  grown_loading : anyListsThatNeedLoading (the_transformer s) = true →
    anyListsThatNeedLoading (the_transformer s') = true;
  grown_inv : inv s → inv s' }.

Lemma grown_refl s : grown s s.
Proof. by split. Qed.

Lemma grown_trans s1 s2 s3 : grown s1 s2 → grown s2 s3 → grown s1 s3.
Proof. intros [] []. split; [by etrans|by etrans|auto|congruence|auto|auto]. Qed.

Definition calm {X} (r : res X) : Prop := ∀ e, r = Raise e → e ≠ RecursionLimit.

Lemma calm_assert b : calm (py_assert b).
Proof. intros e. destruct b; [done|by intros [= <-]]. Qed.

Lemma calm_res_ret {X} (x : X) : calm (Ret x).
Proof. by intros e. Qed.

Lemma calm_of_option {X} e (o : option X) : e ≠ RecursionLimit → calm (of_option e o).
Proof. intros He e'. destruct o; [done|by intros [= <-]]. Qed.

Lemma calm_res_bind {X Y} (r : res X) (f : X → res Y) : calm r → (∀ x, calm (f x)) → calm (mbind f r).
Proof. intros Hr Hf. destruct r as [x|e]; [apply Hf|by intros e' [= <-]; apply Hr]. Qed.

Lemma calm_fmap {X Y} (r : res X) (f : X → Y) : calm r → calm (f <$> r).
Proof. intros Hr. destruct r as [x|e]; [done|by intros e' [= <-]; apply Hr]. Qed.

(** Runs that start with the ids of [floor], or more of them. *)
Section runs.
Context {FLO : Floor}.

Definition truns {X} s (m : M transformation X) (Q : X → state → Prop) : Prop :=
  inv s → floor ⊆ hashToObjectId s →
  match m s with
  | (Ret x, s') => grown s s' ∧ Q x s'
  | (Raise e, s') => e ≠ RecursionLimit
  end.

Lemma truns_ret {X} s (x : X) (Q : X → state → Prop) : Q x s → truns s (mret x) Q.
Proof. intros HQ _ _. split; [apply grown_refl|done]. Qed.

Lemma truns_raise {X} s e (Q : X → state → Prop) : e ≠ RecursionLimit → truns s (raise e) Q.
Proof. by intros He _ _. Qed.

Lemma truns_bind {X Y} s (m : M transformation X) (f : X → M transformation Y) R Q :
  truns s m R → (∀ x s', grown s s' → R x s' → truns s' (f x) Q) → truns s (mbind f m) Q.
Proof.
  unfold truns, mbind, M_bind. intros Hm Hf Hinv Hlo. specialize (Hm Hinv Hlo). destruct (m s) as [[x|e] s1]; [|done].
  destruct Hm as [Hg HR].
  specialize (Hf x s1 Hg HR (grown_inv _ _ Hg Hinv) (transitivity Hlo (grown_hashes _ _ Hg))).
  destruct (f x s1) as [[y|e] s2]; [|done]. destruct Hf. split; [by eapply grown_trans|done].
Qed.

Lemma truns_mono {X} s (m : M transformation X) (Q R : X → state → Prop) :
  truns s m Q → (∀ x s', grown s s' → Q x s' → R x s') → truns s m R.
Proof.
  unfold truns. intros Hm HQ Hinv Hlo. specialize (Hm Hinv Hlo). destruct (m s) as [[x|e] s1]; [|done]. naive_solver.
Qed.

Lemma truns_lift {X Y} s (r : res X) (f : X → M transformation Y) Q :
  calm r → (∀ x, r = Ret x → truns s (f x) Q) → truns s (mbind f (lift r)) Q.
Proof. unfold truns, mbind, M_bind, lift. intros Hr Hf. destruct r as [x|e]; [by apply Hf|intros _ _; by apply Hr]. Qed.

(** *** The transformer *)

Definition counts (m : M transformer objectDef) (d : objectDef) : Prop :=
  ∀ t, match m t with
       | (Ret d', t') => d' = d ∧ maxBytecount t' = maxBytecount t ∧
           (∀ b, maxBytecount t = Some b → (bytesEncoded t' ≤ b)%Z) ∧
           (anyListsThatNeedLoading t = true ∨ d = DEmpty → anyListsThatNeedLoading t' = true)
       | (Raise e, _) => e ≠ RecursionLimit
       end.

Lemma truns_transformer s m d :
  counts m d → truns s (on_transformer m) (λ d' s', d' = d ∧ hashToObjectId s' = hashToObjectId s ∧
    (d = DEmpty → anyListsThatNeedLoading (the_transformer s') = true)).
Proof.
  intros Hm _ _. unfold on_transformer. specialize (Hm (the_transformer s)).
  destruct (m (the_transformer s)) as [[d'|e] t]; [|done]. destruct Hm as (-> & Hmax & Hb & Hl).
  split; [|auto]. split; cbn; auto. intros []. split; cbn; try done; [intros b; rewrite Hmax; apply Hb|].
  eauto.
Qed.
End runs.

Lemma counts_accumulate count extra d : d ≠ DEmpty → counts (accumulateObjects count extra ;; mret d) d.
Proof.
  intros Hd t. unfold accumulateObjects, checkIfThresholdExceeded, mbind, M_bind, modify, get.
  cbn [maxBytecount bytesEncoded]. destruct (maxBytecount t) as [m|] eqn:Hm; cbn.
  - destruct (Z.ltb_spec m (bytesEncoded t + count * ASSUMED_OBJECT_BYTECOUNT_OVERHEAD + extra)); cbn; [done|].
    split_ands; [done|done|by intros b [= <-]|by intros []].
  - split_ands; [done|done|done|by intros []].
Qed.

Lemma counts_loading count extra : counts (accumulateObjects count extra ;; needs_loading) DEmpty.
Proof.
  intros t. pose proof (counts_accumulate count extra (DSingleton "") ltac:(done) t) as Hc.
  unfold mbind, M_bind in *. destruct (accumulateObjects count extra t) as [[[]|e] t']; [|done].
  unfold needs_loading, mbind, M_bind, modify. cbn in *.
  destruct Hc as (_ & Hmax & Hb & _). by split_ands.
Qed.

Lemma counts_transformed d : d ≠ DEmpty → counts (transformed d) d.
Proof. apply counts_accumulate. Qed.

Lemma counts_primitive p :
  counts (transformPrimitive p) (DPrimitive (match p with PStr s => PStr (Base64.b64encode s) | p => p end)).
Proof. by apply counts_accumulate. Qed.

Lemma counts_homogenous m first (arrays : list arr) :
  counts (transformHomogenousList (id_of m first) arrays) (def_of m (ShNumpy first arrays)).
Proof.
  unfold transformHomogenousList. destruct arrays as [|a arrays]; [by intros t|].
  intros t. unfold lift. cbn [head of_option]. unfold mbind at 1, M_bind at 1. by apply counts_accumulate.
Qed.

(** ** One value *)

(** What a value refers to. *)
Definition refers (v c : V) : Prop :=
  (∃ name b, getObjectLexicalMember v name = Ret (Some (c, b))) ∨
  (∃ name m b vs, getObjectLexicalMember v name = Ret (Some (m, b)) ∧ getTuple m = Ret vs ∧ c ∈ vs) ∨
  (∃ l, invertTuple v = Ret (Some l) ∧ c ∈ l) ∨
  (∃ items, invertDict v = Ret (Some items) ∧ (c ∈ items.*1 ∨ c ∈ items.*2)) ∨
  (∃ vec l, invertList v = Ret (Some vec) ∧ vectorContentsExtractor vec = Ret (Some (ListContents l)) ∧ c ∈ l) ∨
  (∃ vec arrays, invertList v = Ret (Some vec) ∧ vectorContentsExtractor vec = Ret (Some (NumpyContents c arrays))) ∨
  getObjectClass v = Some c.

Lemma member_ids_set_item m k v members :
  member_ids m (set_item k v members) = set_item k (id_of m v) (member_ids m members).
Proof.
  induction members as [|[k' v'] members IH]; cbn; [done|]. case_bool_decide; cbn; [done|]. f_equal. exact IH.
Qed.

Lemma set_item_values (k : string) (v x : V) members :
  x ∈ (set_item k v members).*2 → x = v ∨ x ∈ members.*2.
Proof.
  induction members as [|[k' v'] members IH]; cbn; [by rewrite list_elem_of_singleton; left|].
  case_bool_decide; cbn; rewrite !elem_of_cons.
  - intros [->|Hx]; [by left|by right; right].
  - intros [->|Hx]; [by right; left|]. destruct (IH Hx); [by left|by right; right].
Qed.

(** The children of a shape are what its value refers to. *)
Ltac read_step :=
  match goal with
  | H : mbind _ ?r = Ret _ |- _ =>
      let E := fresh "E" in destruct r eqn:E; cbn [mbind res_bind] in H; [|discriminate H]
  | H : _ <$> ?r = Ret _ |- _ =>
      let E := fresh "E" in destruct r eqn:E; cbn [fmap res_fmap] in H; [|discriminate H]
  | H : Ret _ = Ret _ |- _ => injection H as H; subst
  | H : Raise _ = Ret _ |- _ => discriminate H
  end.

Lemma member_value_refers w n c : member_value w n = Ret c → ∃ b, getObjectLexicalMember w n = Ret (Some (c, b)).
Proof using Type.
  unfold member_value. destruct (getObjectLexicalMember w n) as [[[c' b]|]|]; cbn; [|done|done].
  intros [= <-]. by exists b.
Qed.

Lemma convertException_refers r n w name args :
  convertException r n w = Ret (Some (name, args)) → refers w args.
Proof using Type.
  unfold convertException. case_bool_decide; [|done].
  destruct (member_value w "@class") as [t|]; cbn; [|done]. destruct (instanceToPythonName r t); cbn; [|done].
  destruct (member_value w "@args") as [a|] eqn:Ha; cbn; [|done]. intros [= <- <-].
  left. exists "@args". by apply member_value_refers.
Qed.

Lemma bound_members_refer v lexical acc ms c :
  bound_members v lexical acc = Ret ms → c ∈ ms.*2 → c ∈ acc.*2 ∨ refers v c.
Proof.
  revert acc. induction lexical as [|[name bound] lexical IH]; intros acc; cbn [bound_members].
  { intros [= <-]. by left. }
  destruct bound; [|apply IH]. destruct (getObjectLexicalMember v name) as [m|] eqn:Hm; cbn; [|done].
  destruct m as [[value []]|]; [|apply IH|apply IH]. intros Hms Hc.
  destruct (IH _ Hms Hc) as [Hc'|]; [|by right]. apply set_item_values in Hc' as [->|]; [|by left].
  right. left. by exists name, true.
Qed.

Lemma tuple_members_values items acc c : c ∈ (tuple_members items acc).*2 → c ∈ items.*2 ∨ c ∈ acc.*2.
Proof.
  revert acc. induction items as [|[k x] items IH]; intros acc; cbn; [by right|].
  intros [Hc|Hc]%IH; [left; apply elem_of_cons; by right|].
  apply set_item_values in Hc as [->|]; [left; apply elem_of_cons; by left|by right].
Qed.

Lemma instance_members_refer v names acc ms c :
  instance_members v names acc = Ret ms → c ∈ ms.*2 → c ∈ acc.*2 ∨ refers v c.
Proof.
  revert acc. induction names as [|[name|] names IH]; intros acc; cbn [instance_members];
    [intros [= <-]; by left| |apply IH].
  destruct (getObjectLexicalMember v name) as [m|] eqn:Hm; cbn; [|done].
  destruct m as [[value []]|]; [|apply IH|apply IH].
  destruct (bool_decide (name = "@m")); cbn; [|done]. destruct (isTuple value); cbn; [|done].
  destruct (getTuple value) as [values|] eqn:Hvalues; cbn; [|done]. intros Hms Hc.
  destruct (IH _ Hms Hc) as [Hc'|]; [|by right]. apply tuple_members_values in Hc' as [Hc'|]; [|by left].
  right; right; left. exists name, value, true, values. split_ands; [done|done|].
  apply list_elem_of_fmap_1 in Hc' as ([n x] & -> & Hx). by eapply elem_of_zip_r.
Qed.

Lemma shape_object_refers v sh c : shape_object v = Ret sh → c ∈ children sh → refers v c.
Proof.
  unfold shape_object. destruct (getObjectClass v) as [objectClass|] eqn:Hclass.
  - case_bool_decide.
    + intros Hsh. repeat read_step. intros ->%list_elem_of_singleton.
      left. eexists. by apply member_value_refers.
    + destruct (getObjectDefinitionPoint v); [|done]. intros Hsh. repeat read_step.
      intros [->|Hc]%elem_of_cons; [by do 6 right|].
      destruct (instance_members_refer _ _ _ _ _ E Hc) as [Hn|]; [by apply elem_of_nil in Hn|done].
  - destruct (getObjectDefinitionPoint v); [|done]. intros Hsh. repeat read_step. intros Hc.
    destruct (bound_members_refer _ _ _ _ _ E Hc) as [Hn|]; [by apply elem_of_nil in Hn|done].
Qed.

Lemma shape_class_refers v sh c : shape_class v = Ret sh → c ∈ children sh → refers v c.
Proof.
  unfold shape_class. intros Hsh. repeat read_step. intros Hc.
  destruct (bound_members_refer _ _ _ _ _ E Hc) as [Hn|]; [by apply elem_of_nil in Hn|done].
Qed.

Lemma shape_container_refers v sh c : shape_container v = Ret sh → c ∈ children sh → refers v c.
Proof.
  unfold shape_container, shape_rest, shape_items. intros Hsh Hc. read_step.
  destruct a as [l|]; [read_step; right; right; left; by exists l|]. read_step.
  destruct a as [items|]; [read_step; right; right; right; left; exists items; split; [done|by apply elem_of_app in Hc]|].
  read_step. destruct a as [vec|].
  - read_step. destruct a as [[str|l|first arrays]|]; try discriminate Hsh; read_step; cbn in Hc.
    + do 4 right; left. by exists vec, l.
    + apply list_elem_of_singleton in Hc as ->. do 5 right; left. by exists vec, arrays.
    + by apply elem_of_nil in Hc.
  - read_step. destruct a as [d|]; [read_step; by apply elem_of_nil in Hc|].
    destruct (isObject v); [by eapply shape_object_refers|].
    destruct (isClass v); [by eapply shape_class_refers|discriminate Hsh].
Qed.

Lemma shape_of_refers v sh c : shape_of v = Ret sh → c ∈ children sh → refers v c.
Proof.
  unfold shape_of, shape_known, shape_constant. intros Hsh Hc. read_step. destruct a as [[p|vec]|].
  - read_step. by apply elem_of_nil in Hc.
  - case_bool_decide; [read_step; by apply elem_of_nil in Hc|]. do 2 read_step.
    destruct a0 as [[str| |]|]; try discriminate Hsh; read_step; by apply elem_of_nil in Hc.
  - destruct reader as [r|]; [|by eapply shape_container_refers].
    destruct (instanceToPythonName r v); [read_step; by apply elem_of_nil in Hc|].
    read_step. destruct a as [[name args]|].
    { read_step. apply list_elem_of_singleton in Hc as ->. by eapply convertException_refers. }
    read_step. destruct a as [[name args]|]; [|by eapply shape_container_refers].
    read_step. apply list_elem_of_singleton in Hc as ->. by eapply convertException_refers.
Qed.

(** What the transformation relies on: a hash identifies its value, and calls into the
    native module end. *)
Class ForaValuesLaws : Prop := {
  hash_identifies v v' : implval_hash v = implval_hash v' → v = v';
  invertForaConstant_calm v : calm (invertForaConstant v);
  getObjectLexicalMember_calm v n : calm (getObjectLexicalMember v n);
  invertTuple_calm v : calm (invertTuple v);
  invertDict_calm v : calm (invertDict v);
  invertList_calm v : calm (invertList v);
  getTuple_calm v : calm (getTuple v);
  getStackTrace_calm v : calm (getStackTrace v);
  extractor_calm v : calm (vectorContentsExtractor v) }.
Context {FL : ForaValuesLaws}.

Section value.
Context {FLO : Floor} (rec : V → M transformation string) (v : V).
Hypothesis Hrec : ∀ c s, refers v c →
  truns s (rec c) (λ id s', hashToObjectId s' !! implval_hash c = Some id).

Lemma truns_child c s : refers v c →
  truns s (rec c) (λ id s', known (hashToObjectId s') c ∧ id = id_of (hashToObjectId s') c).
Proof using All.
  intros Hc. eapply truns_mono; [by apply Hrec|]. intros id s' _ Hid. split; [by exists id|].
  unfold id_of. by rewrite Hid.
Qed.

Lemma truns_children l s : (∀ c, c ∈ l → refers v c) →
  truns s (mapM rec l) (λ xs s', (∀ c, c ∈ l → known (hashToObjectId s') c) ∧ xs = id_of (hashToObjectId s') <$> l).
Proof using All.
  revert s. induction l as [|c l IH]; intros s Hl.
  { apply truns_ret. split; [|done]. intros c Hc. by apply elem_of_nil in Hc. }
  change (truns s (y ← rec c; ys ← mapM rec l; mret (y :: ys))
    (λ xs s', (∀ c', c' ∈ c :: l → known (hashToObjectId s') c') ∧ xs = id_of (hashToObjectId s') <$> c :: l)).
  eapply truns_bind; [apply truns_child, Hl, elem_of_cons; by left|]. intros id s1 _ [Hk ->].
  eapply truns_bind; [apply IH; intros c' Hc'; apply Hl, elem_of_cons; by right|]. intros xs s2 Hg [Hks ->].
  apply truns_ret. split.
  - intros c' [->|Hc']%elem_of_cons; [|auto]. eapply known_mono; [apply Hg|done].
  - cbn. f_equal. symmetry. apply id_of_mono; [apply Hg|done].
Qed.

(** The members that were transformed so far. *)
Definition members_are (acc : list (string * V)) (ms : list (string * string)) s : Prop :=
  (∀ c, c ∈ acc.*2 → known (hashToObjectId s) c) ∧ ms = member_ids (hashToObjectId s) acc.

Lemma members_are_grown acc ms s s' : grown s s' → members_are acc ms s → members_are acc ms s'.
Proof.
  intros Hg [Hk ->]. split; [intros c Hc; eapply known_mono; [apply Hg|auto]|].
  symmetry. apply member_ids_mono; [apply Hg|done].
Qed.

Lemma members_are_set acc ms s k c :
  members_are acc ms s → known (hashToObjectId s) c →
  members_are (set_item k c acc) (set_item k (id_of (hashToObjectId s) c) ms) s.
Proof.
  intros [Hk ->] Hc. split; [|by rewrite member_ids_set_item].
  intros x [->|Hx]%set_item_values; [done|auto].
Qed.

Lemma truns_member c k acc ms s (f : list (string * string) → M transformation (list (string * string))) Q :
  refers v c → members_are acc ms s →
  (∀ ms' s', members_are (set_item k c acc) ms' s' → truns s' (f ms') Q) →
  truns s (id ← rec c; f (set_item k id ms)) Q.
Proof using All.
  intros Hc Hms Hf. eapply truns_bind; [by apply truns_child|]. intros id s' Hg [Hk ->].
  apply Hf, members_are_set; [|done]. by eapply members_are_grown.
Qed.

Lemma truns_members lexical acc ms s :
  members_are acc ms s →
  truns s (transformMembers rec v lexical ms) (λ ms' s', ∃ acc',
    bound_members v lexical acc = Ret acc' ∧ members_are acc' ms' s').
Proof using All.
  revert acc ms s. induction lexical as [|[name bound] lexical IH]; intros acc ms s Hms; cbn [transformMembers bound_members].
  { apply truns_ret. by exists acc. }
  destruct bound; [|by apply IH].
  apply truns_lift; [apply getObjectLexicalMember_calm|]. intros member Hmember. rewrite Hmember. cbn [mbind res_bind].
  destruct member as [[value []]|]; [|by apply IH|by apply IH].
  eapply truns_member; [left; by exists name, true|done|]. intros ms' s' Hms'. by apply IH.
Qed.

Lemma truns_tupleMembers items acc ms s :
  (∀ c, c ∈ items.*2 → refers v c) → members_are acc ms s →
  truns s (transformTupleMembers rec items ms) (λ ms' s', members_are (tuple_members items acc) ms' s').
Proof using All.
  revert acc ms s. induction items as [|[name value] items IH]; intros acc ms s Hc Hms; cbn [transformTupleMembers].
  { by apply truns_ret. }
  eapply truns_member; [apply Hc; cbn; apply elem_of_cons; by left|done|]. intros ms' s' Hms'.
  apply IH; [|done]. intros c Hin. apply Hc. cbn. apply elem_of_cons. by right.
Qed.

Lemma truns_instanceMembers names acc ms s :
  members_are acc ms s →
  truns s (transformInstanceMembers rec v names ms) (λ ms' s', ∃ acc',
    instance_members v names acc = Ret acc' ∧ members_are acc' ms' s').
Proof using All.
  revert acc ms s. induction names as [|[name|] names IH]; intros acc ms s Hms;
    cbn [transformInstanceMembers instance_members]; [apply truns_ret; by exists acc| |by apply IH].
  apply truns_lift; [apply getObjectLexicalMember_calm|]. intros member Hmember. rewrite Hmember. cbn [mbind res_bind].
  destruct member as [[value []]|]; [|by apply IH|by apply IH].
  apply truns_lift; [apply calm_assert|]. intros [] ->. cbn [mbind res_bind].
  apply truns_lift; [apply calm_assert|]. intros [] ->. cbn [mbind res_bind].
  apply truns_lift; [apply getTuple_calm|]. intros values Hvalues. rewrite Hvalues. cbn [mbind res_bind].
  eapply truns_bind; [apply truns_tupleMembers; [|exact Hms]|].
  - intros c Hc. right; left. exists name, value, true, values. split_ands; [done|done|].
    apply list_elem_of_fmap_1 in Hc as ([n x] & -> & Hx). by eapply elem_of_zip_r.
  - intros ms' s' _ Hms'. by apply IH.
Qed.

(** The definition that is made is that of the shape that is read. *)
Definition reads_as (r : res shape) (d : objectDef) s : Prop :=
  (∃ sh, r = Ret sh ∧ (∀ c, c ∈ children sh → known (hashToObjectId s) c) ∧ d = def_of (hashToObjectId s) sh) ∧
  (d = DEmpty → anyListsThatNeedLoading (the_transformer s) = true).

Lemma truns_end s m sh :
  (∀ c, c ∈ children sh → known (hashToObjectId s) c) → counts m (def_of (hashToObjectId s) sh) →
  truns s (on_transformer m) (reads_as (Ret sh)).
Proof.
  intros Hk Hm. eapply truns_mono; [by apply truns_transformer|]. intros d s' _ (-> & Heq & Hl).
  split; [|done]. exists sh. by rewrite Heq.
Qed.

Lemma none_known (c : V) s : c ∈ ([] : list V) → known (hashToObjectId s) c.
Proof. intros Hc. by apply elem_of_nil in Hc. Qed.

Lemma truns_constant c s : truns s (transformConstant vectorContentsExtractor c) (reads_as (shape_constant c)).
Proof using All.
  destruct c as [p|vec]; cbn [transformConstant shape_constant].
  { apply truns_end; [intros c; apply none_known|apply counts_primitive]. }
  case_bool_decide.
  { apply truns_end; [intros c; apply none_known|apply counts_primitive]. }
  apply truns_lift; [apply calm_assert|]. intros [] ->. cbn [mbind res_bind].
  apply truns_lift; [apply extractor_calm|]. intros loaded ->. cbn [mbind res_bind].
  destruct loaded as [[str|l|first arrays]|]; try done;
    (apply truns_end; [intros c; apply none_known|]); [apply counts_primitive|apply counts_loading].
Qed.

Lemma truns_items vec s :
  invertList v = Ret (Some vec) →
  truns s (transformItems vectorContentsExtractor rec vec) (reads_as (shape_items vec)).
Proof using All.
  intros Hvec. unfold transformItems, shape_items.
  apply truns_lift; [apply extractor_calm|]. intros loaded Hloaded. rewrite Hloaded. cbn [mbind res_bind].
  destruct loaded as [[str|l|first arrays]|]; [done| | |].
  - eapply truns_bind; [apply truns_children|].
    + intros c Hc. right; right; right; right; left. by exists vec, l.
    + intros xs s' _ [Hk ->]. apply (truns_end s' _ (ShList l)); [done|by apply counts_transformed].
  - eapply truns_bind; [apply truns_child|].
    + right; right; right; right; right; left. by exists vec, arrays.
    + intros id s' _ [Hk ->]. apply (truns_end s' _ (ShNumpy first arrays)); [|apply counts_homogenous].
      by intros c ->%list_elem_of_singleton.
  - apply truns_end; [intros c; apply none_known|apply counts_loading].
Qed.

Lemma member_value_calm w n : calm (member_value w n).
Proof using FL.
  apply calm_res_bind; [apply getObjectLexicalMember_calm|]. intros o. by apply calm_fmap, calm_of_option.
Qed.

Lemma method_name_calm n : calm (method_name n).
Proof using Type. unfold method_name. destruct (symbol_text n); [apply calm_res_ret|by intros e [= <-]]. Qed.

Lemma first_path_calm p : calm (first_path p).
Proof using Type. apply calm_res_bind; [by apply calm_of_option|intros; apply calm_res_ret]. Qed.

Lemma truns_object s :
  truns s (transformObject pyforaBoundMethodClass rec v) (reads_as (shape_object v)).
Proof using All.
  unfold transformObject, shape_object. destruct (getObjectClass v) as [objectClass|] eqn:Hclass.
  - case_bool_decide.
    + apply truns_lift; [apply member_value_calm|]. intros n ->. cbn [mbind res_bind].
      apply truns_lift; [apply method_name_calm|]. intros name ->. cbn [mbind res_bind].
      apply truns_lift; [apply member_value_calm|]. intros self Hself. rewrite Hself. cbn [mbind res_bind].
      eapply truns_bind; [apply truns_child; left; eexists; by apply member_value_refers|].
      intros id s' _ [Hk ->]. apply (truns_end s' _ (ShBoundMethod self name)); [|by apply counts_transformed].
      by intros c ->%list_elem_of_singleton.
    + destruct (getObjectDefinitionPoint v); [|done].
      eapply truns_bind; [apply truns_child; by do 6 right|]. intros id s1 _ [Hk ->].
      eapply truns_bind; [apply (truns_instanceMembers _ [] [])|].
      { split; [intros c; apply none_known|done]. }
      intros ms s2 Hg (members & Hms & Hkm & ->). rewrite Hms.
      rewrite <- (id_of_mono _ _ _ (grown_hashes _ _ Hg) Hk).
      apply (truns_end s2 _ (ShInstance objectClass members)); [|by apply counts_transformed].
      intros c [->|Hc]%elem_of_cons; [|auto]. eapply known_mono; [apply Hg|done].
  - destruct (getObjectDefinitionPoint v) as [defPoint|]; [|done].
    eapply truns_bind; [apply (truns_members _ [] [])|].
    { split; [intros c; apply none_known|done]. }
    intros ms s2 Hg (members & Hms & Hkm & ->). rewrite Hms. cbn [mbind res_bind].
    apply truns_lift; [apply first_path_calm|]. intros point ->. cbn [mbind res_bind].
    apply (truns_end s2 _ (ShFunction point.1 point.2 members)); [done|by apply counts_transformed].
Qed.

Lemma truns_class s : truns s (transformClass rec v) (reads_as (shape_class v)).
Proof using All.
  unfold transformClass, shape_class. eapply truns_bind; [apply (truns_members _ [] [])|].
  { split; [intros c; apply none_known|done]. }
  intros ms s2 Hg (members & Hms & Hkm & ->). rewrite Hms. cbn [mbind res_bind].
  apply truns_lift; [by apply calm_of_option|]. intros defPoint ->. cbn [mbind res_bind].
  apply truns_lift; [apply first_path_calm|]. intros point ->. cbn [mbind res_bind].
  apply (truns_end s2 _ (ShClass point.1 point.2 members)); [done|by apply counts_transformed].
Qed.

Lemma stacktrace_calm w : calm (getStackTraceAsJsonOrNone w).
Proof using FL.
  apply calm_res_bind; [apply getTuple_calm|]. intros [|trace [|? []]]; try apply calm_res_ret.
  apply calm_res_bind; [apply getStackTrace_calm|]. intros hashes. apply calm_res_ret.
Qed.

Lemma stacktrace_loaded w : getStackTraceAsJsonOrNone w = Ret (Some DEmpty) → False.
Proof using Type.
  unfold getStackTraceAsJsonOrNone. destruct (getTuple w) as [tup|]; cbn; [|done].
  destruct tup as [|trace [|? []]]; try done. destruct (getStackTrace trace) as [[]|]; cbn; done.
Qed.

Lemma truns_rest s : truns s (transformRest pyforaBoundMethodClass rec v) (reads_as (shape_rest v)).
Proof using All.
  unfold transformRest, shape_rest.
  apply (truns_bind _ _ _ (λ st _, (if isTuple v then getStackTraceAsJsonOrNone v else Ret None) = Ret st)).
  { destruct (isTuple v); [|by apply truns_ret]. unfold truns, lift.
    destruct (getStackTraceAsJsonOrNone v) as [st|e] eqn:Hst; intros _ _; [split; [apply grown_refl|done]|by eapply stacktrace_calm]. }
  intros st s1 _ Hst. rewrite Hst. cbn [mbind res_bind]. destruct st as [d|].
  - apply truns_ret. split; [exists (ShTrace d); split_ands; [done|intros c; apply none_known|done]|].
    intros ->. destruct (isTuple v); [|done]. by apply stacktrace_loaded in Hst.
  - destruct (isObject v); [apply truns_object|]. destruct (isClass v); [apply truns_class|done].
Qed.

Lemma truns_container s :
  truns s (transformContainer pyforaBoundMethodClass vectorContentsExtractor rec v) (reads_as (shape_container v)).
Proof using All.
  unfold transformContainer, shape_container.
  apply truns_lift; [apply invertTuple_calm|]. intros tuple Htuple. rewrite Htuple. cbn [mbind res_bind].
  destruct tuple as [l|].
  { eapply truns_bind; [apply truns_children; intros c Hc; right; right; left; by exists l|].
    intros xs s' _ [Hk ->]. apply (truns_end s' _ (ShTuple l)); [done|by apply counts_transformed]. }
  apply truns_lift; [apply invertDict_calm|]. intros dict Hdict. rewrite Hdict. cbn [mbind res_bind].
  destruct dict as [items|].
  { eapply truns_bind; [apply truns_children; intros c Hc; right; right; right; left; exists items; auto|].
    intros keys s1 _ [Hk ->].
    eapply truns_bind; [apply truns_children; intros c Hc; right; right; right; left; exists items; auto|].
    intros values s2 Hg [Hk2 ->]. rewrite <- (ids_mono _ _ _ (grown_hashes _ _ Hg) Hk).
    apply (truns_end s2 _ (ShDict items)); [|by apply counts_transformed].
    cbn. intros c [Hc|Hc]%elem_of_app; [|auto]. eapply known_mono; [apply Hg|auto]. }
  apply truns_lift; [apply invertList_calm|]. intros vec Hvec. rewrite Hvec. cbn [mbind res_bind].
  destruct vec as [vec|]; [by apply truns_items|apply truns_rest].
Qed.

Lemma convertException_calm r n w : calm (convertException r n w).
Proof using FL.
  unfold convertException. case_bool_decide; [|apply calm_res_ret].
  apply calm_res_bind; [apply member_value_calm|]. intros t.
  apply calm_res_bind; [by apply calm_of_option|]. intros name.
  apply calm_res_bind; [apply member_value_calm|]. intros args. apply calm_res_ret.
Qed.

Lemma truns_known s :
  truns s (transformKnown reader pyforaBoundMethodClass vectorContentsExtractor rec v) (reads_as (shape_known v)).
Proof using All.
  unfold transformKnown, shape_known. destruct reader as [r|]; [|apply truns_container].
  destruct (instanceToPythonName r v) as [name|].
  { apply (truns_end s _ (ShSingleton name)); [intros c; apply none_known|by apply counts_transformed]. }
  apply truns_lift; [apply convertException_calm|]. intros e He. rewrite He. cbn [mbind res_bind].
  destruct e as [[name args]|].
  { eapply truns_bind; [by eapply truns_child, convertException_refers|]. intros id s' _ [Hk ->].
    apply (truns_end s' _ (ShException name args)); [by intros c ->%list_elem_of_singleton|by apply counts_transformed]. }
  apply truns_lift; [apply convertException_calm|]. intros e He'. rewrite He'. cbn [mbind res_bind].
  destruct e as [[name args]|]; [|apply truns_container].
  eapply truns_bind; [by eapply truns_child, convertException_refers|]. intros id s' _ [Hk ->].
  apply (truns_end s' _ (ShAbort name args)); [by intros c ->%list_elem_of_singleton|by apply counts_transformed].
Qed.

Lemma truns_body s :
  truns s (transformBody reader pyforaBoundMethodClass vectorContentsExtractor rec v)
    (λ d s', describes (hashToObjectId s') v d ∧ (d = DEmpty → anyListsThatNeedLoading (the_transformer s') = true)).
Proof using All.
  unfold describes, shape_of, transformBody. apply truns_lift; [apply invertForaConstant_calm|].
  intros c ->. cbn [mbind res_bind]. destruct c as [c|]; [apply truns_constant|apply truns_known].
Qed.
End value.

(** ** Every value *)

Lemma new_id_fresh s : inv s → PyStr.str (Z.of_nat (size (objectDefinitions s))) ∉ dom (objectDefinitions s).
Proof.
  intros Hinv (k & Hk & Heq)%(inv_keys _ Hinv). apply PyStr.str_inj in Heq; lia.
Qed.

(** The state in which a value is transformed: its id is known, its definition open. *)
Definition opened (v : V) s : state :=
  Transformation (<[PyStr.str (Z.of_nat (size (objectDefinitions s))) := None]> (objectDefinitions s))
    (<[implval_hash v := PyStr.str (Z.of_nat (size (objectDefinitions s)))]> (hashToObjectId s)) (the_transformer s).

Lemma opened_inv v s : inv s → hashToObjectId s !! implval_hash v = None → inv (opened v s).
Proof.
  intros Hinv Hnew. pose proof (new_id_fresh s Hinv) as Hfresh. destruct Hinv as [Hkeys Hids Hinj Hdesc Hbytes Hloading].
  set (n := PyStr.str _) in *. assert (Hsize : size (objectDefinitions (opened v s)) = S (size (objectDefinitions s))).
  { unfold opened. cbn. apply map_size_insert_None. by apply not_elem_of_dom. }
  split; rewrite ?Hsize; cbn [opened objectDefinitions hashToObjectId the_transformer]; try fold n.
  - intros id. rewrite dom_insert_L, elem_of_union, elem_of_singleton, Hkeys. split.
    + intros [->|(k & Hk & ->)]; [by exists (size (objectDefinitions s)); split; [lia|]|by exists k; split; [lia|]].
    + intros (k & Hk & ->). destruct (decide (k = size (objectDefinitions s))) as [->|]; [by left|right].
      exists k. split; [lia|done].
  - intros h id. rewrite dom_insert_L, elem_of_union, elem_of_singleton.
    destruct (decide (h = implval_hash v)) as [->|Hne]; [rewrite lookup_insert_eq; intros [= <-]; by left|].
    rewrite lookup_insert_ne by done. intros Hid. right. by eapply Hids.
  - intros h h' id. destruct (decide (h = implval_hash v)) as [->|Hne], (decide (h' = implval_hash v)) as [->|Hne'];
      rewrite ?lookup_insert_eq, ?lookup_insert_ne by done; try done.
    + intros [= <-] Hid. by destruct Hfresh; eapply Hids.
    + intros Hid [= <-]. by destruct Hfresh; eapply Hids.
    + by apply Hinj.
  - intros id d. destruct (decide (id = n)) as [->|Hne]; [by rewrite lookup_insert_eq|].
    rewrite lookup_insert_ne by done. intros Hd. destruct (Hdesc id d Hd) as (w & Hw & Hdw). exists w.
    assert (Hsub : hashToObjectId s ⊆ <[implval_hash v := n]> (hashToObjectId s)) by (by apply insert_subseteq).
    split; [by eapply lookup_weaken|by eapply describes_mono].
  - done.
  - intros id. destruct (decide (id = n)) as [->|Hne]; [by rewrite lookup_insert_eq|].
    rewrite lookup_insert_ne by done. apply Hloading.
Qed.

Lemma opened_grown_hashes v s : hashToObjectId s !! implval_hash v = None → hashToObjectId s ⊆ hashToObjectId (opened v s).
Proof. intros Hnew. cbn. by apply insert_subseteq. Qed.

(** The definition of an open id is filled in. *)
Lemma filled_inv v d id s :
  inv s → hashToObjectId s !! implval_hash v = Some id → describes (hashToObjectId s) v d →
  (d = DEmpty → anyListsThatNeedLoading (the_transformer s) = true) →
  inv (Transformation (<[id := Some d]> (objectDefinitions s)) (hashToObjectId s) (the_transformer s)).
Proof.
  intros [Hkeys Hids Hinj Hdesc Hbytes Hloading] Hid Hd Hl. pose proof (Hids _ _ Hid) as Hdom.
  assert (Hdom' : dom (<[id := Some d]> (objectDefinitions s)) = dom (objectDefinitions s)).
  { apply dom_insert_lookup_L. by apply elem_of_dom. }
  assert (Hsize : size (<[id := Some d]> (objectDefinitions s)) = size (objectDefinitions s)).
  { apply map_size_insert_Some. by apply elem_of_dom. }
  split; cbn [objectDefinitions hashToObjectId the_transformer]; rewrite ?Hdom', ?Hsize; try done.
  - intros i d'. destruct (decide (i = id)) as [->|Hne].
    + rewrite lookup_insert_eq. intros [= <-]. by exists v.
    + rewrite lookup_insert_ne by done. apply Hdesc.
  - intros i. destruct (decide (i = id)) as [->|Hne].
    + rewrite lookup_insert_eq. intros [= ->]. by apply Hl.
    + rewrite lookup_insert_ne by done. apply Hloading.
Qed.

Lemma filled_grown v d s s1 :
  inv s → hashToObjectId s !! implval_hash v = None → grown (opened v s) s1 → describes (hashToObjectId s1) v d →
  (d = DEmpty → anyListsThatNeedLoading (the_transformer s1) = true) →
  let id := PyStr.str (Z.of_nat (size (objectDefinitions s))) in
  grown s (Transformation (<[id := Some d]> (objectDefinitions s1)) (hashToObjectId s1) (the_transformer s1)).
Proof.
  intros Hinv Hnew [Hhashes Hdefs Hclosed Hbound Hflag Hginv] Hd Hl id.
  pose proof (new_id_fresh s Hinv) as Hfresh%not_elem_of_dom. fold id in Hfresh.
  split; cbn [objectDefinitions hashToObjectId the_transformer]; try done.
  - etrans; [by apply opened_grown_hashes|done].
  - apply map_subseteq_spec. intros i x Hx. assert (Hne : i ≠ id) by (intros ->; congruence).
    rewrite lookup_insert_ne by done. eapply lookup_weaken; [|exact Hdefs].
    cbn. by rewrite lookup_insert_ne.
  - intros i. destruct (decide (i = id)) as [->|Hne]; [by rewrite lookup_insert_eq|].
    rewrite lookup_insert_ne by done. intros Hi%Hclosed. cbn in Hi. by rewrite lookup_insert_ne in Hi.
  - intros _. apply (filled_inv v); [by apply Hginv, opened_inv| |done|done].
    eapply lookup_weaken; [|exact Hhashes]. cbn. by rewrite lookup_insert_eq.
Qed.

(** ** Termination

    Every value is opened once, so a transformation ends on any finite world of values,
    whether or not they refer to themselves. *)
Section world.
Context (world : list V) (world_closed : ∀ v c, v ∈ world → refers v c → c ∈ world).

(** The values of the world that have no id. *)
Definition unseen (m : ids) : list V := filter (λ w, m !! implval_hash w = None) world.

Lemma unseen_sub m m' : m ⊆ m' → unseen m' = filter (λ w, m' !! implval_hash w = None) (unseen m).
Proof.
  intros Hsub. symmetry. apply list_filter_filter_l. intros w Hw.
  destruct (m !! implval_hash w) as [id|] eqn:Hid; [|done]. by rewrite (lookup_weaken _ _ _ _ Hid Hsub) in Hw.
Qed.

Lemma unseen_le m m' : m ⊆ m' → length (unseen m') ≤ length (unseen m).
Proof. intros ->%unseen_sub. apply length_filter. Qed.

Lemma unseen_lt m v id : v ∈ world → m !! implval_hash v = None →
  length (unseen (<[implval_hash v := id]> m)) < length (unseen m).
Proof.
  intros Hv Hnew. rewrite (unseen_sub m) by (by apply insert_subseteq).
  apply (length_filter_lt _ _ v); [by apply list_elem_of_filter|]. by rewrite lookup_insert_eq.
Qed.

Lemma truns_transform fuel (lo : ids) v s :
  v ∈ world → length (unseen lo) < fuel →
  truns (FLO := lo) s (transform reader pyforaBoundMethodClass vectorContentsExtractor fuel v)
    (λ id s', hashToObjectId s' !! implval_hash v = Some id).
Proof using All.
  revert lo v s. induction fuel as [|fuel IH]; intros lo v s Hworld Hfuel; [lia|].
  cbn [transform]. unfold truns, get, mbind at 1, M_bind at 1. intros Hinv Hlo.
  destruct (hashToObjectId s !! implval_hash v) as [id|] eqn:Hid; [by split; [apply grown_refl|]|].
  set (id := PyStr.str _).
  change (match (d ← transformBody reader pyforaBoundMethodClass vectorContentsExtractor
      (transform reader pyforaBoundMethodClass vectorContentsExtractor fuel) v;
      set_definition id (Some d) ;; mret id) (opened v s) with
    | (Ret x, s') => grown s s' ∧ hashToObjectId s' !! implval_hash v = Some x
    | (Raise e, _) => e ≠ RecursionLimit
    end).
  assert (Hless : length (unseen (hashToObjectId (opened v s))) < fuel).
  { eapply Nat.lt_le_trans; [by apply unseen_lt|]. pose proof (unseen_le _ _ Hlo). unfold floor in *. lia. }
  assert (Hbody := λ rec H, truns_body (FLO := hashToObjectId (opened v s)) rec v H (opened v s)).
  specialize (Hbody (transform reader pyforaBoundMethodClass vectorContentsExtractor fuel)).
  specialize (Hbody (λ c s' Hc, IH _ c s' (world_closed _ _ Hworld Hc) Hless) (opened_inv v s Hinv Hid) (reflexivity _)).
  unfold mbind, M_bind. destruct (transformBody _ _ _ _ v (opened v s)) as [[d|e] s1]; [|done].
  destruct Hbody as (Hg & Hd & Hl). unfold set_definition, modify, mret, M_ret. cbn [objectDefinitions hashToObjectId the_transformer].
  split; [by apply (filled_grown v)|]. cbn.
  eapply lookup_weaken; [|apply Hg]. cbn. by rewrite lookup_insert_eq.
Qed.

(** What a transformation returns: [ids] gives each value of the result one id, under which
    its definition stands, and the definitions are those of the values. *)
Record pictures (ids : gmap string string) (v : V) (root : string) (defs : gmap string (option objectDef)) : Prop := {
  pictures_root : ids !! implval_hash v = Some root;
  pictures_numbered id : id ∈ dom defs ↔ ∃ k, k < size defs ∧ id = PyStr.str (Z.of_nat k);
  pictures_inj h h' id : ids !! h = Some id → ids !! h' = Some id → h = h';
  pictures_only id : id ∈ dom defs → ∃ w, ids !! implval_hash w = Some id;
  pictures_described w id : ids !! implval_hash w = Some id →
    ∃ d, defs !! id = Some (Some d) ∧ describes ids w d }.

Lemma start_inv t : (∀ m, maxBytecount t = Some m → (bytesEncoded t ≤ m)%Z) → inv (Transformation ∅ ∅ t).
Proof.
  intros Ht. split; cbn; try done. intros id. rewrite dom_empty_L. split; [by intros ?%elem_of_empty|].
  intros (k & Hk & _). rewrite map_size_empty in Hk. lia.
Qed.

Lemma transformPyforaImplval_outcome fuel v t :
  v ∈ world → length world < fuel → (∀ m, maxBytecount t = Some m → (bytesEncoded t ≤ m)%Z) →
  match transformPyforaImplval reader pyforaBoundMethodClass vectorContentsExtractor fuel v t with
  | (Ret (root, defs), t') => (∃ ids, pictures ids v root defs) ∧
      (∀ m, maxBytecount t = Some m → (bytesEncoded t' ≤ m)%Z) ∧
      ∀ id, defs !! id = Some (Some DEmpty) → anyListsThatNeedLoading t' = true
  | (Raise e, _) => e ≠ RecursionLimit
  end.
Proof using All.
  intros Hworld Hfuel Ht. unfold transformPyforaImplval. pose proof (start_inv t Ht) as Hinv.
  assert (Hless : length (unseen ∅) < fuel) by (eapply Nat.le_lt_trans; [apply length_filter|done]).
  pose proof (truns_transform fuel ∅ v _ Hworld Hless Hinv (map_empty_subseteq _)) as Hrun.
  destruct (transform _ _ _ _ _ _) as [[root|e] s]; [|done]. cbn. destruct Hrun as [Hg Hroot].
  destruct (grown_inv _ _ Hg Hinv) as [Hkeys Hids Hinj Hdesc Hbytes Hloading]. pose proof (grown_bound _ _ Hg) as Hbound.
  split_ands; [|by intros m Hm; apply Hbytes; rewrite Hbound|done].
  assert (Hdefs : ∀ id, id ∈ dom (objectDefinitions s) → ∃ d, objectDefinitions s !! id = Some (Some d)).
  { intros id [[d|] Hd]%elem_of_dom; [by exists d|]. by apply (grown_closed _ _ Hg) in Hd. }
  exists (hashToObjectId s). split; try done.
  - intros id [d Hd]%Hdefs. destruct (Hdesc _ _ Hd) as (w & Hw & _). by exists w.
  - intros w id Hw. destruct (Hdefs id (Hids _ _ Hw)) as [d Hd]. exists d. split; [done|].
    destruct (Hdesc _ _ Hd) as (w' & Hw' & Hdw). by rewrite (hash_identifies w w' (Hinj _ _ _ Hw Hw')).
Qed.
End world.
End spec.
