(* ===== verification/PyforaComputedValue.v ===== *)
(** * Values of computations ([ObjectClassesToExpose/PyforaComputedValue.py])

    What the gateway tells a client of a computation: its arguments, its status, its
    result as JSON, and the parts of a result that is a dict or a tuple. *)
From Stdlib Require Import Lia.
From stdpp Require Import base gmap sets list strings fin_maps.
From S2P Require Import Prelude PyStrings TypeDescription ResultTransformer.

(** ** The vectors that the gateway holds *)

(** A slice of a vector ([ComputedValueVectorSlice]) and the vector data manager; each may
    answer [None] for data that is not in memory. *)
Class VectorData (V arr : Type) := {
  vectorDataIsLoaded : V → bool;
  isVectorEntirelyUnpaged : V → bool;
  getVectorElementsJOR_length : V → Z;
  extractVectorContentsAsNumpyArray : V → option arr;
  extractVectorItem : V → V;
  extractVectorContentsAsPythonArray : V → option (list V);
  slice_extractVectorDataAsNumpyArray : V → option arr;
  slice_extractVectorDataAsNumpyArrayInChunks : V → option (list arr);
  slice_extractVectorItemAsIVC : V → option V;
  slice_vdmThinksIsLoaded : V → bool;
  slice_extractVectorDataAsPythonArray : V → option (list V) }.

(** The failures of a computation, the locations of an exception's trace. *)
Inductive errorState :=
| Halt (uuid : string)
| IllegalComputationState (m0 : string)
| MemoryQuotaExceeded (amount required : string)
| OtherError.

Definition trace := option (list location).

(** What [getResultAsJson] answers; [None] for a result that is not there yet. *)
Inductive answerJson :=
| Result (root_id : string) (obj_definitions : gmap string (option objectDef)) (exception : option trace)
| UntranslatableException (text : string) (t : trace)
| ConversionError
| MaxBytesExceeded (exception : option trace).

Inductive status := StatusFailure (message : option string) | StatusException | StatusResult.

Section computedValue.
Context {V arr : Type} `{EqDecision V} {FV : ForaValues V} {NP : Numpy arr} {VD : VectorData V arr}.

(** A computation's value, when it has one; [None] for [valueIVC] before that. *)
Record computedValue := ComputedValue {
  failure : option errorState;
  isException : bool;
  valueIVC : option V }.

(** ** Arguments *)

(** An argument of [argIds]: the id of a converted object, or another value. *)
Inductive argId := ObjectId (i : Z) | ArgValue (v : V).

(** [validateObjectIds], given the ids of converted objects. *)
Definition validateObjectIds (hasObjectId : Z → bool) (ids : list argId) : bool :=
  forallb (λ i, match i with ObjectId i => hasObjectId i | ArgValue _ => true end) ids.

Definition unwrapArg (getIvcFromObjectId : Z → res V) (a : argId) : res V :=
  match a with ObjectId i => getIvcFromObjectId i | ArgValue v => Ret v end.

(** [args]: the function, the symbol [Call], and its arguments. *)
Definition args (getIvcFromObjectId : Z → res V) (symbol_Call : V) (argIds : list argId) : res (list V) :=
  implVals ← mapR (unwrapArg getIvcFromObjectId) argIds;
  Ret (firstn 1 implVals ++ [symbol_Call] ++ skipn 1 implVals).

(** ** Status *)

Definition failure_message (e : errorState) : option string :=
  match e with
  | Halt uuid => Some ("Computation halted: " ++ uuid)%string
  | IllegalComputationState m0 => Some m0
  | MemoryQuotaExceeded amount required =>
      Some ("Memory quota exceeded (amount: " ++ amount ++ ", required: " ++ required ++ ")")%string
  | OtherError => None
  end.

Definition jsonStatusRepresentation (cv : computedValue) : option status :=
  match failure cv with
  | Some e => Some (StatusFailure (failure_message e))
  | None =>
      match valueIVC cv with
      | None => None
      | Some _ => Some (if isException cv then StatusException else StatusResult)
      end
  end.

(** [exceptionCodeLocationsAsJson]; the value of an exception without a value has no
    [isTuple]. *)
Definition exceptionCodeLocationsAsJson (cv : computedValue) : res trace :=
  v ← (of_option AttributeError (valueIVC cv) : res V);
  if isTuple v then
    tup ← getTuple v;
    match tup with
    | [_; stacktraceAndVarsInScope] =>
        vars ← getTuple stacktraceAndVarsInScope;
        first ← of_option IndexError (head vars);
        hashes ← getStackTrace first;
        Ret (match hashes with
             | Some locations => Some (omap formatCodeLocation (locations : list _))
             | None => None
             end)
    | _ => Ret None
    end
  else Ret None.

(** ** The result *)

(** [extractVectorContents]. [None] asks for the vector to be loaded
    ([increaseRequestCount]). *)
Definition extractLoaded (vec : V) : res (option (contents V arr)) :=
  if isVectorOfChar vec then
    res ← of_option AssertionError (extractVectorContentsAsNumpyArray vec);
    Ret (Some (StringContents (tostring res)))
  else
    let python :=
      res ← of_option AssertionError (extractVectorContentsAsPythonArray vec);
      Ret (Some (ListContents res)) in
    if (getVectorElementsJOR_length vec =? 1)%Z && (1 <? vector_length vec)%Z then
      match extractVectorContentsAsNumpyArray vec with
      | Some res =>
          py_assert (array_length res =? vector_length vec)%Z ;;
          Ret (Some (NumpyContents (extractVectorItem vec) [res]))
      | None => python
      end
    else python.

(** The contents of a slice, and [preventPythonArrayExtraction]. *)
Definition slice_numpy (vec : V) (res : option (contents V arr)) : Prelude.res (option (contents V arr) * bool) :=
  match res with
  | Some c => Ret (Some c, false)
  | None =>
      if (getVectorElementsJOR_length vec =? 1)%Z && (1 <? vector_length vec)%Z then
        match slice_extractVectorDataAsNumpyArrayInChunks vec with
        | Some arrays =>
            first ← of_option ForaToPythonConversionError (slice_extractVectorItemAsIVC vec);
            Ret (Some (NumpyContents first arrays), false)
        | None => Ret (None, negb (slice_vdmThinksIsLoaded vec))
        end
      else Ret (None, false)
  end.

Definition extractPaged (vec : V) : res (option (contents V arr)) :=
  let string :=
    if isVectorOfChar vec then (λ a, StringContents (tostring a)) <$> slice_extractVectorDataAsNumpyArray vec
    else None in
  '(res, preventPythonArrayExtraction) ← slice_numpy vec string;
  Ret (match res with
       | Some c => Some c
       | None =>
           if preventPythonArrayExtraction : bool then None
           else ListContents <$> slice_extractVectorDataAsPythonArray vec
       end).

Definition extractVectorContents (vec : V) : res (option (contents V arr)) :=
  if (vector_length vec =? 0)%Z then Ret (Some (ListContents []))
  else if vectorDataIsLoaded vec && isVectorEntirelyUnpaged vec then extractLoaded vec
  else extractPaged vec.

Section result.
Context (reader : option (exceptionReader V)) (pyforaBoundMethodClass : V) (str_of : V → string).
Context (fuel : nat).

(** The value of an exception is the first element of a tuple of it and its trace. *)
Definition result_value (cv : computedValue) (value : V) : res V :=
  if isException cv && isTuple value then
    tup ← getTuple value; of_option IndexError (head tup)
  else Ret value.

(** [{'isException': ..., 'trace': ...}]. *)
Definition exception_part (cv : computedValue) : res (option trace) :=
  if isException cv then Some <$> exceptionCodeLocationsAsJson cv else Ret None.

Definition getResultAsJson (cv : computedValue) (maxBytecount : option Z) : res (option answerJson) :=
  match failure cv, valueIVC cv with
  | Some _, _ | _, None => Ret None
  | None, Some whole =>
      value ← result_value cv whole;
      match transformPyforaImplval reader pyforaBoundMethodClass extractVectorContents fuel value
              (Transformer false 0 maxBytecount) with
      | (Ret (root, defs), transformer) =>
          if anyListsThatNeedLoading transformer then Ret None
          else e ← exception_part cv; Ret (Some (Result root defs e))
      | (Raise e, _) =>
          if bool_decide (e = ForaToPythonConversionError) then
            if isException cv then
              t ← exceptionCodeLocationsAsJson cv; Ret (Some (UntranslatableException (str_of whole) t))
            else Ret (Some ConversionError)
          else if bool_decide (e = HaltTransformationException) then
            e ← exception_part cv; Ret (Some (MaxBytesExceeded e))
          else Raise e
      end
  end.

Definition resultIsPopulated (cv : computedValue) (maxBytecount : option Z) : res bool :=
  (λ j, bool_decide (is_Some j)) <$> (getResultAsJson cv maxBytecount).

Definition jsonValueRepresentation (cv : computedValue) : res (option answerJson) := getResultAsJson cv None.

(** [exceptionValueAsString]; [None] for a [str] that fails. *)
Definition unwrapExceptionIVC (str_of : V → option string) (v : V) : string :=
  default "<unknown exception>" (str_of v).

Definition exceptionValueAsString (str_of : V → option string) (cv : computedValue) : res (option string) :=
  if isException cv then
    v ← of_option AttributeError (valueIVC cv);
    if isTuple v then
      tup ← getTuple v;
      match tup with
      | [exception; _] => Ret (Some (unwrapExceptionIVC str_of exception))
      | _ => Raise ValueError
      end
    else Ret (Some (unwrapExceptionIVC str_of v))
  else Ret None.

(** ** Expansions *)

(** The elements of a dict or a tuple, the values of computations of their own that name
    the key or the index. *)
Inductive expansion := DictOfProxies (keys : list string) | TupleOfComputedValues (indices : list nat).
Inductive expanded := Expanded (e : expansion) | Excepted (j : option answerJson).

Context (unwrapPyforaDictToDictOfAssignedVars : V → res (list (string * V))).
Context (unwrapPyforaTupleToTuple : V → res (list V)).

Definition pyforaDictToDictOfAssignedVarsToProxyValues (cv : computedValue) : res (option (list (string * V))) :=
  match valueIVC cv with
  | None => Ret None
  | Some v => py_assert (negb (isException cv)) ;; Some <$> unwrapPyforaDictToDictOfAssignedVars v
  end.

Definition pyforaDictToAssignedVarsToComputedValues (cv : computedValue) : res (option expanded) :=
  if isException cv then (λ j, Some (Excepted j)) <$> jsonValueRepresentation cv
  else
    d ← pyforaDictToDictOfAssignedVarsToProxyValues cv;
    Ret (match d : option (list (string * V)) with
         | Some d => Some (Expanded (DictOfProxies d.*1))
         | None => None
         end).

Definition pyforaTupleToTuple (cv : computedValue) : res (option (list V)) :=
  match valueIVC cv with
  | None => Ret None
  | Some v => Some <$> unwrapPyforaTupleToTuple v
  end.

Definition pyforaTupleToTupleOfComputedValues (cv : computedValue) : res (option expanded) :=
  if isException cv then (λ j, Some (Excepted j)) <$> jsonValueRepresentation cv
  else
    t ← pyforaTupleToTuple cv;
    Ret (match t : option (list V) with
         | Some t => Some (Expanded (TupleOfComputedValues (seq 0 (length t))))
         | None => None
         end).
End result.
End computedValue.
