(* ===== verification/PyforaComputedValueSpec.v ===== *)
(** * What the gateway answers for a result

    A result that is sent pictures the value, whole and within its bound. *)
From Stdlib Require Import Lia.
From stdpp Require Import base gmap sets list strings fin_maps fin_map_dom.
From S2P Require Import Prelude PyStrings TypeDescription ResultTransformer ResultTransformerSpec PyforaComputedValue.

Set Default Proof Using "Type".

Section answers.
Context {V arr : Type} `{EqDecision V} {FV : ForaValues V} {NP : Numpy arr} {VD : VectorData V arr}.
Context (reader : option (exceptionReader V)) (pyforaBoundMethodClass : V) (str_of : V → string).
Abbreviation extractor := (extractVectorContents (arr:=arr)).
Context {FL : ForaValuesLaws extractor}.
Context (world : list V) (world_closed : ∀ v c, v ∈ world → refers extractor v c → c ∈ world).

Abbreviation pictures := (pictures reader pyforaBoundMethodClass extractor).
Abbreviation getResultAsJson := (getResultAsJson (arr:=arr) reader pyforaBoundMethodClass str_of).

Lemma locations_calm (cv : computedValue) : calm (exceptionCodeLocationsAsJson cv).
Proof using FL.
  apply calm_res_bind; [by apply calm_of_option|]. intros v. destruct (isTuple v); [|apply calm_res_ret].
  apply calm_res_bind; [apply (getTuple_calm extractor)|]. intros [|x [|y [|? ?]]]; try apply calm_res_ret.
  apply calm_res_bind; [apply (getTuple_calm extractor)|]. intros vars.
  apply calm_res_bind; [by apply calm_of_option|]. intros first.
  apply calm_res_bind; [apply (getStackTrace_calm extractor)|]. intros hashes. apply calm_res_ret.
Qed.

Lemma exception_part_calm (cv : computedValue) : calm (exception_part cv).
Proof using FL.
  unfold exception_part. destruct (isException cv); [apply calm_fmap, locations_calm|apply calm_res_ret].
Qed.

Lemma exception_part_is (cv : computedValue) e : exception_part cv = Ret e → isException cv = bool_decide (is_Some e).
Proof.
  unfold exception_part. destruct (isException cv); [|by intros [= <-]].
  destruct (exceptionCodeLocationsAsJson cv); cbn; [|done]. intros [= <-]. by rewrite bool_decide_eq_true_2.
Qed.

Lemma result_value_calm (cv : computedValue) v : calm (result_value cv v).
Proof using FL.
  unfold result_value. destruct (isException cv && isTuple v); [|apply calm_res_ret].
  apply calm_res_bind; [apply (getTuple_calm extractor)|]. intros tup. by apply calm_of_option.
Qed.

(** What is sent: the definitions of the value of a computation that has not failed, or of
    the first part of an exception, none of them waiting for data. *)
Definition sends (cv : computedValue) (root : string) (defs : gmap string (option objectDef)) (e : option trace) : Prop :=
  isException cv = bool_decide (is_Some e) ∧ failure cv = None ∧
  ∃ whole v ids, valueIVC cv = Some whole ∧ result_value cv whole = Ret v ∧
    pictures ids v root defs ∧ ∀ id, defs !! id ≠ Some (Some DEmpty).

Lemma getResultAsJson_outcome fuel (cv : computedValue) maxBytecount :
  (∀ m, maxBytecount = Some m → (0 ≤ m)%Z) →
  (∀ whole v, valueIVC cv = Some whole → result_value cv whole = Ret v → v ∈ world) →
  length world < fuel →
  match getResultAsJson fuel cv maxBytecount with
  | Ret (Some (Result root defs e)) => sends cv root defs e
  | Ret _ => True
  | Raise e => e ≠ RecursionLimit
  end.
Proof using All.
  intros Hmax Hworld Hfuel. unfold PyforaComputedValue.getResultAsJson, sends.
  destruct (failure cv) eqn:Hfail; [done|]. destruct (valueIVC cv) as [whole|] eqn:Hwhole; [|done].
  pose proof (result_value_calm cv whole) as Hcalm. specialize (Hworld whole).
  destruct (result_value cv whole) as [v|e] eqn:Hv; cbn [mbind res_bind]; [|by apply Hcalm].
  pose proof (transformPyforaImplval_outcome reader pyforaBoundMethodClass extractor world world_closed fuel v
    (Transformer false 0 maxBytecount) (Hworld v eq_refl eq_refl) Hfuel Hmax) as Hrun.
  pose proof (exception_part_calm cv) as Hpart. pose proof (exception_part_is cv) as His.
  pose proof (locations_calm cv) as Hloc.
  destruct (transformPyforaImplval _ _ _ _ _ _) as [[[root defs]|e] t].
  - destruct Hrun as ([ids Hpic] & _ & Hload). destruct (anyListsThatNeedLoading t); [done|].
    destruct (exception_part cv) as [e|e]; cbn; [|by apply Hpart]. split_ands; [by apply His|done|].
    exists whole, v, ids. split_ands; [done|done|done|]. intros id Hid. by apply Hload in Hid.
  - case_bool_decide.
    + destruct (isException cv); [|done].
      destruct (exceptionCodeLocationsAsJson cv); cbn; [done|by apply Hloc].
    + case_bool_decide; [|done]. destruct (exception_part cv); cbn; [done|by apply Hpart].
Qed.

(** C6. The answer to a client that asks for a result: when definitions are sent, the
    computation has not failed and has a value, the definitions picture that value (of an
    exception, its first part), one for each value that it refers to and none that still
    waits for data, and the answer says that it is an exception exactly if it is; and the
    transformation ends: whatever the values of [world] refer to, themselves included as
    the bindings of recursive functions do, it recurses at most once into each of them, so
    that it never runs into a recursion limit above their number. *)
Theorem result_is_sent_whole fuel (cv : computedValue) maxBytecount
    (Hmax : ∀ m, maxBytecount = Some m → (0 ≤ m)%Z)
    (Hworld : ∀ whole v, valueIVC cv = Some whole → result_value cv whole = Ret v → v ∈ world)
    (Hfuel : length world < fuel) :
  (∀ root defs e, getResultAsJson fuel cv maxBytecount = Ret (Some (Result root defs e)) →
     sends cv root defs e) ∧
  getResultAsJson fuel cv maxBytecount ≠ Raise RecursionLimit.
Proof using All.
  pose proof (getResultAsJson_outcome fuel cv maxBytecount Hmax Hworld Hfuel) as Hout. split.
  - intros root defs e Heq. by rewrite Heq in Hout.
  - intros Heq. rewrite Heq in Hout. by apply Hout.
Qed.
End answers.
