(* ===== verification/PythonObjectRehydrator.v ===== *)
(** * Results as Python objects ([pyfora/PythonObjectRehydrator.py])

    The client makes Python objects of the definitions that the cluster answers with, one
    for every id; functions and classes are looked up in the modules of the interpreter, or
    compiled from their source again. *)
From Stdlib Require Import Lia.
From stdpp Require Import base gmap sets list strings fin_maps.
From S2P Require Import Prelude PyAst PyStrings AstUtil TypeDescription PyHeap PyObjectWalker ResultTransformer.

(** The singletons of [NamedSingletons.py] and of [PyAbortSingletons.py], by name. *)
Definition singleton_names : list string :=
  ["AssertionError"; "bool"; "dict"; "float"; "int"; "isinstance"; "issubclass"; "list"; "object";
   "slice"; "str"; "tuple"; "type"; "NoneType"; "AttributeError"; "Exception"; "IndexError";
   "TypeError"; "NotImplementedError"; "UserWarning"; "UnboundLocalError"; "ValueError";
   "ZeroDivisionError"].
Definition abort_singleton_names : list string := ["InvalidPyforaOperation"; "UnconvertibleValueError"].

(** ** What the rehydrator asks of the interpreter

    The modules of [sys.modules] and their [__file__] and [__dict__], paths, the lines of
    functions and classes, execution of compiled code, calls, and dict keys. *)
Class ClientPython := {
  sys_modules : list oid;
  module_file : oid → option string;
  module_dict : oid → list (string * oid);
  abspath : string → string;
  samefile : string → string → res bool;
  findsource : oid → res Z;
  getAstFromFilePath : string → res node;
  exec_code : node → string → gmap string oid → M heap (list (string * oid));
  eval_code : node → string → gmap string oid → M heap oid;
  builtin_object : string → oid;
  builtin_class : kind → option oid;
  call : oid → list oid → M heap oid;
  alteredInit : oid;
  instantiate : oid → M heap oid;
  getattr_of : oid → string → M heap oid;
  iterate : oid → M heap (list oid);
  check_hashable : heap → oid → res unit;
  equal_key : heap → oid → oid → res bool }.

(** The other direction of [purePythonClassMapping]. *)
Class PureClassInversion (PS : Type) := {
  canInvert : oid → M (PS * heap) bool;
  pureInstanceToMappable : oid → M (PS * heap) oid }.

(** [os.path.abspath] without the [c] of [".pyc"]. *)
Definition endswith (suffix s : string) : bool :=
  bool_decide (String.substring (String.length s - String.length suffix) (String.length suffix) s = suffix).

Section rehydrator.
Context {PS : Type} `{PureClassInversion PS} {IN : Interpreter} {CP : ClientPython} {arr : Type} {NP : Numpy arr}.

Definition sanitizeModulePath (pathToModule : string) : string :=
  let res := abspath pathToModule in
  if endswith ".pyc" res then String.substring 0 (String.length res - 1) res else res.

(** [converted] is the dict of one conversion. *)
Record rehydrator := Rehydrator {
  moduleClassesAndFunctionsByPath : gmap string (gmap Z oid);
  pathsToModules : gmap string oid;
  converted : gmap string oid;
  rehydrator_heap : heap;
  rehydrator_mapping : PS }.

Definition on_objects {X} (m : M heap X) : M rehydrator X := λ s,
  let '(r, h) := m (rehydrator_heap s) in
  (r, Rehydrator (moduleClassesAndFunctionsByPath s) (pathsToModules s) (converted s) h (rehydrator_mapping s)).
Definition on_inversion {X} (m : M (PS * heap) X) : M rehydrator X := λ s,
  let '(r, (ps, h)) := m (rehydrator_mapping s, rehydrator_heap s) in
  (r, Rehydrator (moduleClassesAndFunctionsByPath s) (pathsToModules s) (converted s) h ps).
Definition set_members (path : string) (res : gmap Z oid) : M rehydrator unit := modify (λ s,
  Rehydrator (<[path := res]> (moduleClassesAndFunctionsByPath s)) (pathsToModules s) (converted s)
    (rehydrator_heap s) (rehydrator_mapping s)).
Definition set_object (objectId : string) (o : oid) : M rehydrator unit := modify (λ s,
  Rehydrator (moduleClassesAndFunctionsByPath s) (pathsToModules s) (<[objectId := o]> (converted s))
    (rehydrator_heap s) (rehydrator_mapping s)).

(** ** Modules *)

Definition loadPathsToModules : M rehydrator unit := modify (λ s,
  Rehydrator (moduleClassesAndFunctionsByPath s)
    (foldl (λ paths m, match module_file m with
                       | Some f => <[sanitizeModulePath f := m]> paths
                       | None => paths
                       end) (pathsToModules s) sys_modules)
    (converted s) (rehydrator_heap s) (rehydrator_mapping s)).

Definition moduleForFile (path : string) : M rehydrator (option oid) :=
  let path := sanitizeModulePath path in
  s ← get;
  (match pathsToModules s !! path with Some _ => mret tt | None => loadPathsToModules end) ;;
  s ← get;
  mret (pathsToModules s !! path).

Definition heap_object (o : oid) : M rehydrator pyobj :=
  s ← get; lift (of_option AttributeError (objects (rehydrator_heap s) !! o)).

(** [isclass(o) or isfunction(o)]. *)
Definition is_class_or_function (o : oid) : M rehydrator bool :=
  x ← heap_object o;
  mret (match kind_of x with KClass _ | KFunction _ => true | _ => false end).

(** One item of a module; [populate] is the recursive call. Every error but that of two
    items in one line is logged. *)
Definition populateItem (populate : string → M rehydrator unit) (path : string) (res : gmap Z oid)
    (leafItemValue : oid) : M rehydrator (gmap Z oid) :=
  b ← is_class_or_function leafItemValue;
  if b : bool then
    catch
      (source ← lift (getsourcefile leafItemValue);
       sourcePath ← lift (of_option TypeError source);
       same ← lift (samefile path sourcePath);
       if same : bool then
         lineNumber ← lift (findsource leafItemValue);
         let lineNumberToUse := (lineNumber + 1)%Z in
         match res !! lineNumberToUse with
         | Some _ => raise ForaToPythonConversionError
         | None => mret (<[lineNumberToUse := leafItemValue]> res)
         end
       else populate sourcePath ;; mret res)
      (λ e, if bool_decide (e = ForaToPythonConversionError) then raise e else mret res)
  else mret res.

Fixpoint populateItems (populate : string → M rehydrator unit) (path : string) (res : gmap Z oid)
    (items : list (string * oid)) : M rehydrator (gmap Z oid) :=
  match items with
  | [] => mret res
  | (_, leafItemValue) :: items =>
      res ← populateItem populate path res leafItemValue;
      populateItems populate path res items
  end.

(** [populateModuleMembers]. A path is entered only after the modules that its items come
    from, so that [fuel] bounds a recursion of modules that import each other, as the
    interpreter's limit does. *)
Fixpoint populateModuleMembers (fuel : nat) (path : string) : M rehydrator unit :=
  match fuel with
  | O => raise RecursionLimit
  | S fuel =>
      module ← moduleForFile path;
      res ← match module with
            | Some module => populateItems (populateModuleMembers fuel) path ∅ (module_dict module)
            | None => mret ∅
            end;
      set_members path res
  end.

Definition moduleLevelObject (fuel : nat) (path : string) (lineNumber : Z) : M rehydrator (option oid) :=
  s ← get;
  (match moduleClassesAndFunctionsByPath s !! path with
   | Some _ => mret tt
   | None => populateModuleMembers fuel path
   end) ;;
  s ← get;
  members ← lift (of_option KeyError (moduleClassesAndFunctionsByPath s !! path));
  mret (members !! lineNumber).

Definition importModuleMagicVariables (targetDict : gmap string oid) (path : string) :
    M rehydrator (gmap string oid) :=
  actualModule ← moduleForFile path;
  match actualModule with
  | Some m =>
      x ← heap_object m;
      mret (foldl (λ d magicVar, match attributes x !! magicVar with
                                 | Some v => <[magicVar := v]> d
                                 | None => d
                                 end) targetDict ["__file__"; "__path__"; "__name__"; "__package__"])
  | None => mret targetDict
  end.

(** ** Functions, classes and instances *)

(** [list(outputLocals.values())[0]] of a scope with one name. *)
Definition only_local (outputLocals : list (string * oid)) : M rehydrator oid :=
  match outputLocals with [(_, o)] => mret o | _ => raise AssertionError end.

Definition classObjectFromFilenameAndLine (fuel : nat) (filename : string) (lineNumber : Z)
    (members : gmap string oid) : M rehydrator oid :=
  objectOrNone ← moduleLevelObject fuel filename lineNumber;
  match objectOrNone with
  | Some o => mret o
  | None =>
      sourceAst ← lift (getAstFromFilePath filename);
      classAst ← lift (classDefAtLineNumber sourceAst lineNumber);
      globalScope ← importModuleMagicVariables members filename;
      outputLocals ← catch (on_objects (exec_code classAst filename globalScope))
                       (λ _, raise (OtherException "PyforaError"));
      only_local outputLocals
  end.

Definition instantiateFunction (fuel : nat) (filename : string) (lineNumber : Z)
    (memberDictionary : gmap string oid) : M rehydrator oid :=
  objectOrNone ← moduleLevelObject fuel filename lineNumber;
  match objectOrNone with
  | Some o => mret o
  | None =>
      sourceAst ← lift (getAstFromFilePath filename);
      functionAst ← lift (functionDefOrLambdaAtLineNumber sourceAst lineNumber);
      globalScope ← importModuleMagicVariables memberDictionary filename;
      match functionAst with
      | Lambda _ _ _ => on_objects (eval_code functionAst filename globalScope)
      | _ =>
          outputLocals ← on_objects (exec_code functionAst filename globalScope);
          only_local outputLocals
      end
  end.

Definition set_attr (o : oid) (name : string) (v : oid) : M heap unit := modify (λ h,
  Heap (alter (λ x, PyObj (kind_of x) (class_of x) (dict_keys x) (<[name := v]> (attributes x))) o (objects h))
    (nextOid h)).

(** [self.__dict__.update(kwds)]. *)
Definition update_dict (o : oid) (kwds : list (string * oid)) : M heap unit := λ h,
  match objects h !! o with
  | Some (PyObj k c (Some keys) attrs) =>
      (Ret tt, Heap (<[o := PyObj k c (Some (keys ++ filter (.∉ keys) kwds.*1))
                         (foldl (λ m kv, <[kv.1 := kv.2]> m) attrs kwds)]> (objects h)) (nextOid h))
  | _ => (Raise AttributeError, h)
  end.

(** [_instantiateClass]: the class has another [__init__] while it is called, also after
    a call that fails. *)
Definition instantiateClass (classObject : oid) (memberDictionary : list (string * oid)) : M rehydrator oid :=
  x ← heap_object classObject;
  match attributes x !! "__init__" with
  | Some origInit =>
      on_objects (set_attr classObject "__init__" alteredInit) ;;
      res ← on_objects (instantiate classObject);
      on_objects (update_dict res memberDictionary) ;;
      on_objects (set_attr classObject "__init__" origInit) ;;
      mret res
  | None =>
      lift (py_assert (bool_decide (memberDictionary = []))) ;;
      on_objects (instantiate classObject)
  end.

Definition invertPureClassInstanceIfNecessary (instance : oid) : M rehydrator oid :=
  b ← on_inversion (canInvert instance);
  if b : bool then on_inversion (pureInstanceToMappable instance) else mret instance.

(** ** Definitions *)

Definition new_value (k : kind) : M rehydrator oid :=
  on_objects (new_object (PyObj k (builtin_class k) None ∅)).

Definition make_exception (className text : string) : M rehydrator oid :=
  message ← new_value (KPrimitive (PStr text));
  on_objects (call (builtin_object className) [message]).

Definition singletonNameToObject (names : list string) (name : string) : M rehydrator oid :=
  if bool_decide (name ∈ names) then mret (builtin_object name) else raise KeyError.

(** [data[curOffset:curOffset+size] = array]. *)
Definition assign_slice (data : list prim) (curOffset : nat) (array : list prim) : res (list prim) :=
  let low := Nat.min curOffset (length data) in
  let n := Nat.min (curOffset + length array) (length data) - low in
  if bool_decide (length array = n) then Ret (firstn low data ++ array ++ skipn (low + n) data)
  else if bool_decide (length array = 1) then Ret data
  else Raise ValueError.

Fixpoint fill (dtype : string) (data : list prim) (curOffset : nat) (stringsAndSizes : list (string * Z)) :
    res (list prim) :=
  match stringsAndSizes with
  | [] => Ret data
  | (arrayText, size) :: stringsAndSizes =>
      array ← frombuffer (arr:=arr) dtype (Base64.b64decode arrayText) size;
      data ← assign_slice data curOffset array;
      fill dtype data (curOffset + Z.to_nat size) stringsAndSizes
  end.

(** [isinstance(data[0], type(firstElement))]. *)
Definition same_type (p : prim) (k : kind) : bool :=
  match k, p with
  | KPrimitive PNone, PNone | KPrimitive (PInt _), (PInt _ | PBool _) | KPrimitive (PFloat _), PFloat _
  | KPrimitive (PStr _), PStr _ | KPrimitive (PBool _), PBool _ => true
  | _, _ => false
  end.

(** The list of dicts that a trace is. *)
Definition new_dict (items : list (string * oid)) : M rehydrator oid :=
  d ← mapM (λ kv, k ← new_value (KPrimitive (PStr kv.1)); mret (k, kv.2)) items;
  new_value (KDict d).
Definition position_object (p : position) : M rehydrator oid :=
  items ← mapM (λ kv, o ← new_value (KPrimitive (PInt kv.2)); mret (kv.1, o))
    [("characterOffset", characterOffset p); ("line", line p); ("col", col p)];
  new_dict items.
Definition location_object (l : location) : M rehydrator oid :=
  paths ← mapM (λ s, new_value (KPrimitive (PStr s))) (path l);
  path ← new_value (KList paths);
  start ← position_object (start l);
  stop ← position_object (stop l);
  range ← new_dict [("start", start); ("stop", stop)];
  new_dict [("path", path); ("range", range)].

(** [d[k] = v]: an equal key stays. *)
Fixpoint store_item (h : heap) (k v : oid) (items : list (oid * oid)) : res (list (oid * oid)) :=
  match items with
  | [] => Ret [(k, v)]
  | (k', v') :: items =>
      same ← equal_key h k' k;
      if same : bool then Ret ((k', v) :: items)
      else items ← store_item h k v items; Ret ((k', v') :: items)
  end.

Definition args_of (args : oid) : M rehydrator (list oid) :=
  x ← heap_object args;
  match kind_of x with
  | KTuple l | KList l => mret l
  | _ => on_objects (iterate args)
  end.

Section inner.
Context (fuel : nat) (convert : string → M rehydrator oid).

(** The value of an item is evaluated before its key. *)
Fixpoint convertItems (items : list (string * string)) (d : list (oid * oid)) : M rehydrator (list (oid * oid)) :=
  match items with
  | [] => mret d
  | (key, val) :: items =>
      v ← convert val;
      k ← convert key;
      s ← get;
      lift (check_hashable (rehydrator_heap s) k) ;;
      d ← lift (store_item (rehydrator_heap s) k v d);
      convertItems items d
  end.

Definition convertMembers (members : list (string * string)) : M rehydrator (list (string * oid)) :=
  mapM (λ kv, o ← convert kv.2; mret (kv.1, o)) members.

Definition convertHomogenous (stringsAndSizes : list (string * Z)) (dtype firstElement : string) (length : Z) :
    M rehydrator oid :=
  let dtype := Base64.b64decode dtype in
  data ← lift (fill dtype (repeat (dtype_zero (arr:=arr) dtype) (Z.to_nat length)) 0 stringsAndSizes);
  first ← convert firstElement;
  x ← heap_object first;
  p ← lift (of_option IndexError (head data));
  lift (py_assert (same_type p (kind_of x))) ;;
  items ← mapM (λ p, new_value (KPrimitive p)) data;
  new_value (KList items).

Definition convertInner (objectDef : objectDef) : M rehydrator oid :=
  match objectDef with
  | DPrimitive (PStr s) => new_value (KPrimitive (PStr (Base64.b64decode s)))
  | DPrimitive p => new_value (KPrimitive p)
  | DTuple l => os ← mapM convert l; new_value (KTuple os)
  | DList l => os ← mapM convert l; new_value (KList os)
  | DDict keys values => d ← convertItems (zip keys values) []; new_value (KDict d)
  | DUntranslatableException text =>
      make_exception "ForaToPythonConversionError" ("untranslatable FORA exception: " ++ text)
  | DSingleton singletonName => singletonNameToObject singleton_names singletonName
  | DInvalidPyforaOperation text => make_exception "InvalidPyforaOperation" text
  | DHomogenousList stringsAndSizes dtype firstElement length =>
      convertHomogenous stringsAndSizes dtype firstElement length
  | DBuiltinException typeName args =>
      exceptionType ← singletonNameToObject singleton_names typeName;
      a ← convert args;
      l ← args_of a;
      on_objects (call exceptionType l)
  | DClassInstance classObject members =>
      ms ← convertMembers members;
      c ← convert classObject;
      o ← instantiateClass c ms;
      invertPureClassInstanceIfNecessary o
  | DPyAbortException typeName args =>
      exceptionType ← singletonNameToObject abort_singleton_names typeName;
      a ← convert args;
      l ← args_of a;
      on_objects (call exceptionType l)
  | DBoundMethod instance methodName =>
      i ← convert instance;
      catch (on_objects (getattr_of i methodName))
        (λ e, raise (if bool_decide (e = AttributeError) then ForaToPythonConversionError else e))
  | DFunctionInstance filename linenumber members =>
      ms ← convertMembers members;
      instantiateFunction fuel filename linenumber (list_to_map ms)
  | DClassObject filename linenumber members =>
      ms ← convertMembers members;
      classObjectFromFilenameAndLine fuel filename linenumber (list_to_map ms)
  | DStacktrace locations => os ← mapM location_object locations; new_value (KList os)
  | DEmpty => raise ForaToPythonConversionError
  end.
End inner.

(** [convert] of one conversion, from the definitions of the result. *)
Fixpoint convert (definitions : gmap string objectDef) (fuel : nat) (objectId : string) : M rehydrator oid :=
  match fuel with
  | O => raise RecursionLimit
  | S fuel =>
      s ← get;
      match converted s !! objectId with
      | Some o => mret o
      | None =>
          d ← lift (of_option KeyError (definitions !! objectId));
          o ← convertInner fuel (convert definitions fuel) d;
          set_object objectId o ;;
          mret o
      end
  end.

Definition convertJsonResultToPythonObject (fuel : nat) (root_id : string) (definitions : gmap string objectDef) :
    M rehydrator oid :=
  modify (λ s, Rehydrator (moduleClassesAndFunctionsByPath s) (pathsToModules s) ∅
                 (rehydrator_heap s) (rehydrator_mapping s)) ;;
  convert definitions fuel root_id.
End rehydrator.
