(* ===== verification/Results.v ===== *)
(** * From a value of the cluster to a Python object

    The transformer and the rehydrator together: what a client gets of a value of data is
    a Python object of the value's contents, with one object for each value. *)
From Stdlib Require Import Lia.
From stdpp Require Import base gmap sets list strings fin_maps fin_map_dom.
From S2P Require Import Prelude PyAst PyStrings AstUtil TypeDescription PyHeap PyObjectWalker ResultTransformer ResultTransformerSpec PyforaComputedValue PyforaComputedValueSpec PythonObjectRehydrator.

Set Default Proof Using "Type".

(** ** What arrays and dict keys promise *)

Class NumpyLaws (arr : Type) `{Numpy arr} : Prop := {
  frombuffer_tostring (a : arr) :
    frombuffer (arr:=arr) (dtype_pickle a) (tostring a) (array_length a) = Ret (elements a);
  elements_length (a : arr) : Z.of_nat (length (elements a)) = array_length a }.

Definition kind_at (h : heap) (o : oid) (k : kind) : Prop := ∃ x, objects h !! o = Some x ∧ kind_of x = k.

Lemma kind_at_mono h h' o k : heap_extends h h' → kind_at h o k → kind_at h' o k.
Proof. intros Hh (x & Hx & Hk). exists x. split; [by eapply lookup_weaken|done]. Qed.

Class ClientPythonLaws `{ClientPython} : Prop := {
  check_hashable_primitive h o p : kind_at h o (KPrimitive p) → check_hashable h o = Ret tt;
  equal_key_primitive h a b p q :
    kind_at h a (KPrimitive p) → kind_at h b (KPrimitive q) → ∃ x, equal_key h a b = Ret x;
  equal_key_mono h h' a b x : heap_extends h h' → equal_key h a b = Ret x → equal_key h' a b = Ret x }.

(** [d = {}; for k, v in items: d[k] = v]. *)
Fixpoint store_items `{ClientPython} (h : heap) (items d : list (oid * oid)) : res (list (oid * oid)) :=
  match items with
  | [] => Ret d
  | (k, v) :: items => d ← store_item h k v d; store_items h items d
  end.

(** ** Arrays *)

Section arrays.
Context {arr : Type} `{NumpyLaws arr}.

Definition array_strings (a : arr) : string * Z := (Base64.b64encode (tostring a), array_length a).

Lemma assign_slice_fits data off array :
  off + length array ≤ length data →
  assign_slice data off array = Ret (firstn off data ++ array ++ skipn (off + length array) data).
Proof.
  intros Hle. unfold assign_slice. replace (Nat.min off (length data)) with off by lia.
  replace (Nat.min (off + length array) (length data) - off) with (length array) by lia.
  by rewrite bool_decide_eq_true_2.
Qed.

Lemma fill_arrays dtype arrays data off :
  (∀ a, a ∈ arrays → dtype_pickle a = dtype) →
  off + length (arrays ≫= elements) = length data →
  fill (arr:=arr) dtype data off (array_strings <$> arrays) = Ret (firstn off data ++ (arrays ≫= elements)).
Proof using All.
  revert data off. induction arrays as [|a arrays IH]; intros data off Hdtype Hlen; cbn [fmap list_fmap fill array_strings].
  { cbn in *. by rewrite app_nil_r, take_ge by lia. }
  rewrite Base64.b64_roundtrip. rewrite <- (Hdtype a) at 1 by (apply elem_of_cons; by left).
  rewrite frombuffer_tostring. cbn [mbind res_bind].
  rewrite bind_cons, length_app in Hlen.
  rewrite assign_slice_fits by lia. cbn [mbind res_bind].
  assert (Hoff : length (firstn off data) = off) by (rewrite length_take; lia).
  replace (Z.to_nat (array_length a)) with (length (elements a)) by (rewrite <- elements_length; lia).
  rewrite IH; [|intros b Hb; apply Hdtype, elem_of_cons; by right|].
  - f_equal. rewrite bind_cons, !app_assoc. f_equal. apply take_app_length'. rewrite length_app. lia.
  - rewrite !length_app, length_skipn. lia.
Qed.
End arrays.

(** The definitions on the wire, none of them open. *)
Definition sent (defs : gmap string (option objectDef)) : gmap string objectDef := omap (λ d, d) defs.

(** ** Values of data *)

Section results.
Context {V arr : Type} `{EqDecision V} {FV : ForaValues V} {NP : Numpy arr} {NL : NumpyLaws arr}.
Context (reader : option (exceptionReader V)) (pyforaBoundMethodClass : V).
Context (vectorContentsExtractor : V → res (option (contents V arr))).
Context {FL : ForaValuesLaws vectorContentsExtractor}.
Context {PS : Type} {PI : PureClassInversion PS} {IN : Interpreter} {CP : ClientPython} {CL : ClientPythonLaws}.
Abbreviation shape_of := (shape_of reader pyforaBoundMethodClass vectorContentsExtractor).
Abbreviation describes := (describes reader pyforaBoundMethodClass vectorContentsExtractor).
Abbreviation pictures := (pictures reader pyforaBoundMethodClass vectorContentsExtractor).
Abbreviation st := (rehydrator (PS:=PS)).
Implicit Types s : st.

(** Arrays of one type, with a first element of the type of the list's. *)
Definition plain_arrays (first : V) (arrays : list arr) : Prop :=
  ∃ a p q, head arrays = Some a ∧ (∀ b, b ∈ arrays → dtype_pickle b = dtype_pickle a) ∧
    head (arrays ≫= elements) = Some p ∧ shape_of first = Ret (ShPrimitive q) ∧
    same_type p (KPrimitive q) = true.

(** Primitives, singletons, and tuples, lists, arrays and dicts, these with primitives as
    keys. *)
Definition plain_shape (sh : shape V arr) : Prop :=
  match sh with
  | ShPrimitive _ | ShTuple _ | ShList _ => True
  | ShNumpy first arrays => plain_arrays first arrays
  | ShDict items => ∀ k, k ∈ items.*1 → ∃ p, shape_of k = Ret (ShPrimitive p)
  | ShSingleton name => name ∈ singleton_names
  | _ => False
  end.

(** [o] is an object of the contents of a value, [place] being the objects of others. *)
Definition object_is (h : heap) (place : V → option oid) (sh : shape V arr) (o : oid) : Prop :=
  match sh with
  | ShPrimitive p => kind_at h o (KPrimitive p)
  | ShTuple l => ∃ os, kind_at h o (KTuple os) ∧ Forall2 (λ c x, place c = Some x) l os
  | ShList l => ∃ os, kind_at h o (KList os) ∧ Forall2 (λ c x, place c = Some x) l os
  | ShNumpy _ arrays => ∃ os, kind_at h o (KList os) ∧
      Forall2 (λ p x, kind_at h x (KPrimitive p)) (arrays ≫= elements) os
  | ShDict items => ∃ kvs d, kind_at h o (KDict d) ∧ store_items h kvs [] = Ret d ∧
      Forall2 (λ i x, place i.1 = Some x.1 ∧ place i.2 = Some x.2) items kvs
  | ShSingleton name => o = builtin_object name
  | _ => False
  end.

(** Every value that has an object has one of its contents. *)
Definition objects_are (h : heap) (place : V → option oid) : Prop := ∀ w o,
  place w = Some o → ∃ sh, shape_of w = Ret sh ∧ object_is h place sh o.

Lemma store_item_mono h h' k v items d :
  heap_extends h h' → store_item h k v items = Ret d → store_item h' k v items = Ret d.
Proof using CL.
  intros Hh. revert d. induction items as [|[k' v'] items IH]; intros d; cbn [store_item]; [done|].
  destruct (equal_key h k' k) as [b|] eqn:Hb; cbn [mbind res_bind]; [|done].
  rewrite (equal_key_mono _ _ _ _ _ Hh Hb). cbn [mbind res_bind]. destruct b; [done|].
  destruct (store_item h k v items) as [d'|] eqn:Hd; cbn [mbind res_bind]; [|done].
  by rewrite (IH _ eq_refl).
Qed.

Lemma store_items_mono h h' items d d' :
  heap_extends h h' → store_items h items d = Ret d' → store_items h' items d = Ret d'.
Proof using CL.
  intros Hh. revert d. induction items as [|[k v] items IH]; intros d; cbn [store_items]; [done|].
  destruct (store_item h k v d) as [d1|] eqn:Hd; cbn [mbind res_bind]; [|done].
  rewrite (store_item_mono _ _ _ _ _ _ Hh Hd). apply IH.
Qed.

Lemma object_is_mono h h' place place' sh o :
  heap_extends h h' → (∀ w x, place w = Some x → place' w = Some x) →
  object_is h place sh o → object_is h' place' sh o.
Proof using CL.
  intros Hh Hp. destruct sh; cbn; try done; try by apply kind_at_mono.
  - intros (os & Hk & Hos). exists os. split; [by eapply kind_at_mono|]. eapply Forall2_impl; [exact Hos|]. auto.
  - intros (os & Hk & Hos). exists os. split; [by eapply kind_at_mono|]. eapply Forall2_impl; [exact Hos|]. auto.
  - intros (os & Hk & Hos). exists os. split; [by eapply kind_at_mono|]. eapply Forall2_impl; [exact Hos|].
    intros p x. by apply kind_at_mono.
  - intros (kvs & d & Hk & Hd & Hos). exists kvs, d. split; [by eapply kind_at_mono|].
    split; [by eapply store_items_mono|]. eapply Forall2_impl; [exact Hos|]. intros i x []. auto.
Qed.

(** ** Runs of the rehydrator *)

Context (ids : gmap string string) (defs : gmap string (option objectDef)) (v : V) (root : string).
Context (Hpic : pictures ids v root defs).
Context (rank : V → nat) (P : V → Prop).
Context (HP : ∀ w sh, P w → shape_of w = Ret sh →
  plain_shape sh ∧ ∀ c, c ∈ children sh → P c ∧ rank c < rank w).

Definition place s (w : V) : option oid := id ← ids !! implval_hash w; converted s !! id.

Definition rinv s : Prop := heap_ok (rehydrator_heap s) ∧ objects_are (rehydrator_heap s) (place s).

(** Objects are added, those of values below [n]. *)
Record added (n : nat) s s' : Prop := {
  added_heap : heap_extends (rehydrator_heap s) (rehydrator_heap s');
  added_converted : converted s ⊆ converted s';
  added_below id : converted s !! id = None → is_Some (converted s' !! id) →
    ∃ w, ids !! implval_hash w = Some id ∧ rank w < n }.

Lemma added_refl n s : added n s s.
Proof. split; [done|done|]. intros id -> [x Hx]. done. Qed.

Lemma added_trans n s1 s2 s3 : added n s1 s2 → added n s2 s3 → added n s1 s3.
Proof.
  intros [Hh Hc Hb] [Hh' Hc' Hb']. split; [by etrans|by etrans|].
  intros id Hid His. destruct (converted s2 !! id) eqn:E; [by apply Hb; [|rewrite E]|by apply Hb'].
Qed.

Lemma added_le n n' s s' : n ≤ n' → added n s s' → added n' s s'.
Proof. intros Hn [Hh Hc Hb]. split; [done|done|]. intros id Hid His. destruct (Hb id Hid His) as (w & Hw & Hr). exists w. split; [done|lia]. Qed.

Lemma place_mono s s' w o : converted s ⊆ converted s' → place s w = Some o → place s' w = Some o.
Proof.
  intros Hsub. unfold place. destruct (ids !! implval_hash w); cbn; [|done]. intros Hx. by eapply lookup_weaken.
Qed.

(** Computations that return. *)
Definition cruns {X} n s (m : M st X) (Q : X → st → Prop) : Prop :=
  rinv s → ∃ x s', m s = (Ret x, s') ∧ added n s s' ∧ rinv s' ∧ Q x s'.

Lemma cruns_ret {X} n s (x : X) (Q : X → st → Prop) : Q x s → cruns n s (mret x) Q.
Proof. intros HQ Hi. exists x, s. split_ands; [done|apply added_refl|done|done]. Qed.

Lemma cruns_bind {X Y} n s (m : M st X) (f : X → M st Y) R Q :
  cruns n s m R → (∀ x s', added n s s' → rinv s' → R x s' → cruns n s' (f x) Q) → cruns n s (mbind f m) Q.
Proof.
  intros Hm Hf Hi. destruct (Hm Hi) as (x & s1 & Hx & Ha & Hi1 & HR).
  destruct (Hf x s1 Ha Hi1 HR Hi1) as (y & s2 & Hy & Ha2 & Hi2 & HQ).
  exists y, s2. split_ands; [|by eapply added_trans|done|done]. by rewrite (bind_step _ _ _ _ _ Hx).
Qed.

Lemma cruns_mono {X} n s (m : M st X) (Q R : X → st → Prop) :
  cruns n s m Q → (∀ x s', added n s s' → rinv s' → Q x s' → R x s') → cruns n s m R.
Proof. intros Hm HQ Hi. destruct (Hm Hi) as (x & s1 & Hx & Ha & Hi1 & HR). exists x, s1. auto. Qed.

Lemma cruns_lift {X Y} n s (r : res X) x (f : X → M st Y) Q :
  r = Ret x → cruns n s (f x) Q → cruns n s (mbind f (lift r)) Q.
Proof. intros -> Hf. exact Hf. Qed.

Lemma cruns_get {Y} n s (f : st → M st Y) Q : cruns n s (f s) Q → cruns n s (mbind f get) Q.
Proof. intros Hf. exact Hf. Qed.

Lemma cruns_heap_object {Y} n s o x (f : pyobj → M st Y) Q :
  objects (rehydrator_heap s) !! o = Some x → cruns n s (f x) Q → cruns n s (mbind f (heap_object o)) Q.
Proof.
  intros Hx Hf Hi. assert (Hrun : heap_object o s = (Ret x, s)).
  { unfold heap_object, mbind, M_bind, get, lift. by rewrite Hx. }
  rewrite (bind_step _ _ _ _ _ Hrun). by apply Hf.
Qed.

Lemma cruns_new_value n s k :
  cruns n s (new_value k) (λ o s', kind_at (rehydrator_heap s') o k ∧ converted s' = converted s).
Proof using CL.
  intros [Hok Hobj]. unfold new_value, on_objects.
  destruct (new_object_extends (PyObj k (builtin_class k) None ∅) (rehydrator_heap s) Hok) as (Hext & Hok' & Hlk).
  cbn in *. eexists _, _. split; [done|]. split; [|split].
  - split; [exact Hext|done|]. intros id Hid [x Hx]. cbn in Hx. congruence.
  - split; [exact Hok'|]. intros w o Hw. destruct (Hobj w o Hw) as (sh & Hsh & Ho). exists sh. split; [done|].
    by eapply object_is_mono.
  - split; [|done]. by eexists.
Qed.

(** ** One definition *)

Section inner.
Context (fuel n : nat) (rec : string → M st oid).
Hypothesis Hrec : ∀ c id s, P c → rank c < n → ids !! implval_hash c = Some id →
  cruns n s (rec id) (λ o s', place s' c = Some o).

(** A value whose id is known, and whose definition can be made. *)
Definition ready (c : V) : Prop := P c ∧ rank c < n ∧ known ids c.

Lemma cruns_child c s : ready c → cruns n s (rec (id_of ids c)) (λ o s', place s' c = Some o).
Proof using Hrec.
  intros (Hc & Hr & id & Hid). unfold id_of. rewrite Hid. by apply Hrec.
Qed.

Lemma cruns_children l s : (∀ c, c ∈ l → ready c) →
  cruns n s (mapM rec (id_of ids <$> l)) (λ os s', Forall2 (λ c x, place s' c = Some x) l os).
Proof using Hrec.
  revert s. induction l as [|c l IH]; intros s Hl; [by apply cruns_ret|].
  change (cruns n s (y ← rec (id_of ids c); ys ← mapM rec (id_of ids <$> l); mret (y :: ys))
    (λ os s', Forall2 (λ c x, place s' c = Some x) (c :: l) os)).
  eapply cruns_bind; [apply cruns_child, Hl, elem_of_cons; by left|]. intros o s1 _ _ Ho.
  eapply cruns_bind; [apply IH; intros c' Hc'; apply Hl, elem_of_cons; by right|]. intros os s2 Ha _ Hos.
  apply cruns_ret. constructor; [|done]. eapply place_mono; [apply Ha|done].
Qed.

Lemma cruns_values (ps : list prim) s :
  cruns n s (mapM (λ p, new_value (KPrimitive p)) ps)
    (λ os s', Forall2 (λ p x, kind_at (rehydrator_heap s') x (KPrimitive p)) ps os).
Proof using CL.
  revert s. induction ps as [|p ps IH]; intros s; [by apply cruns_ret|].
  change (cruns n s (y ← new_value (KPrimitive p); ys ← mapM (λ p, new_value (KPrimitive p)) ps; mret (y :: ys))
    (λ os s', Forall2 (λ p x, kind_at (rehydrator_heap s') x (KPrimitive p)) (p :: ps) os)).
  eapply cruns_bind; [apply cruns_new_value|]. intros o s1 _ _ [Ho _].
  eapply cruns_bind; [apply IH|]. intros os s2 Ha _ Hos.
  apply cruns_ret. constructor; [|done]. eapply kind_at_mono; [apply Ha|done].
Qed.

(** A container that is made of objects. *)
Lemma cruns_container k s (sh : shape V arr) :
  (∀ s', added n s s' → kind_at (rehydrator_heap s') (nextOid (rehydrator_heap s)) k →
    object_is (rehydrator_heap s') (place s') sh (nextOid (rehydrator_heap s))) →
  cruns n s (new_value k) (λ o s', object_is (rehydrator_heap s') (place s') sh o).
Proof using CL.
  intros Hsh Hi. destruct (cruns_new_value n s k Hi) as (o & s' & Hm & Ha & Hi' & Hk & Hc).
  assert (o = nextOid (rehydrator_heap s)) as -> by (unfold new_value, on_objects in Hm; cbn in Hm; congruence).
  exists (nextOid (rehydrator_heap s)), s'. split_ands; [done|done|done|by apply Hsh].
Qed.

(** The keys of a dict, each a primitive. *)
Definition key_object (h : heap) (kv : oid * oid) : Prop := ∃ p, kind_at h kv.1 (KPrimitive p).

Lemma store_item_runs h k x d :
  (∃ p, kind_at h k (KPrimitive p)) → Forall (key_object h) d →
  ∃ d', store_item h k x d = Ret d' ∧ Forall (key_object h) d'.
Proof using CL.
  intros Hk Hd. induction Hd as [|[k' v'] d Hk' Hd IH]; cbn [store_item].
  { exists [(k, x)]. split; [done|]. by repeat constructor. }
  destruct Hk as [p Hp], Hk' as [q Hq]. destruct (equal_key_primitive _ _ _ _ _ Hq Hp) as [b Hb].
  cbn [fst] in Hb. rewrite Hb. cbn [mbind res_bind]. destruct b.
  - eexists. split; [done|]. constructor; [by exists q|done].
  - destruct IH as (d' & -> & Hd'). cbn [mbind res_bind]. eexists. split; [done|]. constructor; [by exists q|done].
Qed.

Lemma placed_primitive s c o p :
  rinv s → place s c = Some o → shape_of c = Ret (ShPrimitive p) → kind_at (rehydrator_heap s) o (KPrimitive p).
Proof.
  intros [_ Hobj] Hc Hsh. destruct (Hobj c o Hc) as (sh & Hsh' & Ho). rewrite Hsh in Hsh'.
  injection Hsh' as <-. exact Ho.
Qed.

Lemma cruns_items (items : list (V * V)) d s :
  (∀ i, i ∈ items → ready i.1 ∧ ready i.2 ∧ ∃ p, shape_of i.1 = Ret (ShPrimitive p)) →
  Forall (key_object (rehydrator_heap s)) d →
  cruns n s (convertItems rec (zip (id_of ids <$> items.*1) (id_of ids <$> items.*2)) d)
    (λ d' s', ∃ kvs, store_items (rehydrator_heap s') kvs d = Ret d' ∧
       Forall2 (λ i x, place s' i.1 = Some x.1 ∧ place s' i.2 = Some x.2) items kvs).
Proof using Hrec CL.
  revert d s. induction items as [|[k x] items IH]; intros d s Hitems Hd; cbn [fmap list_fmap zip zip_with convertItems fst snd].
  { apply cruns_ret. by exists []. }
  destruct (Hitems (k, x)) as (Hk & Hx & p & Hp); [apply elem_of_cons; by left|]. cbn in Hk, Hx, Hp.
  eapply cruns_bind; [by apply cruns_child|]. intros ox s1 Ha1 _ Hox.
  eapply cruns_bind; [by apply cruns_child|]. intros ok s2 Ha2 Hi2 Hok.
  pose proof (placed_primitive _ _ _ _ Hi2 Hok Hp) as Hkind.
  apply cruns_get. eapply cruns_lift; [by eapply check_hashable_primitive|].
  assert (Hd2 : Forall (key_object (rehydrator_heap s2)) d).
  { eapply Forall_impl; [exact Hd|]. intros kv [q Hq]. exists q. eapply kind_at_mono; [|exact Hq].
    etrans; [apply Ha1|apply Ha2]. }
  destruct (store_item_runs _ ok ox d (ex_intro _ p Hkind) Hd2) as (d1 & Hstore & Hd1).
  eapply cruns_lift; [exact Hstore|].
  eapply cruns_mono; [apply IH; [intros i Hi; apply Hitems, elem_of_cons; by right|done]|].
  intros d' s3 Ha3 _ (kvs & Hkvs & Hall). exists ((ok, ox) :: kvs). split.
  - cbn [store_items]. rewrite (store_item_mono _ _ _ _ _ _ (added_heap _ _ _ Ha3) Hstore). exact Hkvs.
  - constructor; [|done]. split.
    + eapply place_mono; [apply Ha3|exact Hok].
    + eapply place_mono; [|exact Hox]. etrans; [apply (added_converted _ _ _ Ha2)|apply Ha3].
Qed.

Lemma head_dtype (a : arr) arrays : head arrays = Some a →
  from_option (λ a, Base64.b64encode (dtype_pickle a)) "" (head arrays) = Base64.b64encode (dtype_pickle a).
Proof. by intros ->. Qed.

Lemma total_length (arrays : list arr) :
  Z.to_nat (foldr Z.add 0%Z (array_length <$> arrays)) = length (arrays ≫= elements).
Proof using NL.
  induction arrays as [|a arrays IH]; [done|]. cbn [fmap list_fmap foldr]. rewrite bind_cons, length_app, <- IH.
  rewrite <- elements_length. assert (0 ≤ foldr Z.add 0 (array_length <$> arrays))%Z; [|lia].
  clear IH. induction arrays as [|b arrays IH]; cbn; [lia|]. rewrite <- elements_length. lia.
Qed.

Lemma cruns_homogenous first arrays s :
  ready first → plain_arrays first arrays →
  cruns n s (convertHomogenous (arr:=arr) rec (array_strings <$> arrays)
      (from_option (λ a, Base64.b64encode (dtype_pickle a)) "" (head arrays)) (id_of ids first)
      (foldr Z.add 0%Z (array_length <$> arrays)))
    (λ o s', object_is (rehydrator_heap s') (place s') (ShNumpy first arrays) o).
Proof using Hrec NL CL.
  intros Hfirst (a & p & q & Ha & Hdtype & Hp & Hq & Htype). unfold convertHomogenous.
  rewrite (head_dtype a) by done. rewrite Base64.b64_roundtrip, total_length.
  eapply cruns_lift; [apply fill_arrays; [done|by rewrite repeat_length]|]. rewrite take_0, app_nil_l.
  eapply cruns_bind; [by apply cruns_child|]. intros o s1 Ha1 Hi1 Ho.
  destruct (placed_primitive _ _ _ _ Hi1 Ho Hq) as (x & Hx & Hkind).
  eapply cruns_heap_object; [exact Hx|]. rewrite Hp. cbn [of_option].
  eapply cruns_lift; [done|]. rewrite Hkind, Htype. eapply cruns_lift; [done|].
  eapply cruns_bind; [apply cruns_values|]. intros os s2 Ha2 _ Hos.
  apply cruns_container. intros s3 Ha3 Hk. exists os. split; [done|].
  eapply Forall2_impl; [exact Hos|]. intros r y. apply kind_at_mono, Ha3.
Qed.

Lemma cruns_inner w d s :
  P w → describes ids w d → rank w ≤ n →
  cruns n s (convertInner (arr:=arr) fuel rec d)
    (λ o s', ∃ sh, shape_of w = Ret sh ∧ object_is (rehydrator_heap s') (place s') sh o).
Proof using Hrec HP NL CL.
  intros Hw (sh & Hsh & Hknown & ->) Hn. destruct (HP w sh Hw Hsh) as [Hplain Hchildren].
  assert (Hready : ∀ c, c ∈ children sh → ready c).
  { intros c Hc. destruct (Hchildren c Hc). split; [done|]. split; [lia|auto]. }
  cut (cruns n s (convertInner (arr:=arr) fuel rec (def_of ids sh))
    (λ o s', object_is (rehydrator_heap s') (place s') sh o)).
  { intros Hrun. eapply cruns_mono; [exact Hrun|]. intros o s' _ _ Ho. by exists sh. }
  destruct sh as [|p|l|l|first arrays|items|name|name args|name args|self name|c ms|path line ms|path line ms|d];
    cbn [plain_shape] in Hplain; try done; cbn [def_of children] in *.
  - assert (Hp : convertInner (arr:=arr) (PS:=PS) fuel rec
      (DPrimitive (match p with PStr s => PStr (Base64.b64encode s) | p => p end)) = new_value (KPrimitive p)).
    { destruct p; cbn [convertInner]; [done|done|done| |done]. by rewrite Base64.b64_roundtrip. }
    rewrite Hp. by apply cruns_container.
  - eapply cruns_bind; [by apply cruns_children|]. intros os s1 _ _ Hos.
    apply cruns_container. intros s2 Ha Hk. exists os. split; [done|].
    eapply Forall2_impl; [exact Hos|]. intros c x. apply place_mono, Ha.
  - eapply cruns_bind; [by apply cruns_children|]. intros os s1 _ _ Hos.
    apply cruns_container. intros s2 Ha Hk. exists os. split; [done|].
    eapply Forall2_impl; [exact Hos|]. intros c x. apply place_mono, Ha.
  - apply cruns_homogenous; [by apply Hready, list_elem_of_singleton|done].
  - eapply cruns_bind; [apply cruns_items; [|by constructor]|].
    + intros [k x] Hi. split_ands; [apply Hready|apply Hready|apply Hplain]; rewrite ?elem_of_app.
      * left. by apply (list_elem_of_fmap_2 fst _ (k, x)).
      * right. by apply (list_elem_of_fmap_2 snd _ (k, x)).
      * by apply (list_elem_of_fmap_2 fst _ (k, x)).
    + intros dict s1 _ _ (kvs & Hkvs & Hall). apply cruns_container. intros s2 Ha Hk. exists kvs, dict.
      split; [done|]. split; [eapply store_items_mono; [apply Ha|exact Hkvs]|].
      eapply Forall2_impl; [exact Hall|]. intros i x []. split; (eapply place_mono; [apply Ha|done]).
  - cbn [convertInner]. unfold singletonNameToObject. rewrite bool_decide_eq_true_2 by done. by apply cruns_ret.
Qed.
End inner.

(** ** Every definition *)

Lemma converted_insert n s s1 w id o sh :
  added n s s1 → rinv s1 → converted s !! id = None → ids !! implval_hash w = Some id → rank w = n →
  shape_of w = Ret sh → object_is (rehydrator_heap s1) (place s1) sh o →
  ∃ s2, set_object id o s1 = (Ret tt, s2) ∧ added (S n) s s2 ∧ rinv s2 ∧ place s2 w = Some o.
Proof using Hpic CL FL.
  intros Ha [Hok Hobj] Hid Hw Hn Hsh Ho. unfold set_object, modify. eexists. split; [done|].
  assert (Hnew : converted s1 !! id = None).
  { destruct (converted s1 !! id) eqn:E; [|done].
    destruct (added_below _ _ _ Ha id Hid) as (w' & Hw' & Hr); [by rewrite E|].
    rewrite (hash_identifies vectorContentsExtractor w' w) in Hr; [lia|]. by eapply (pictures_inj _ _ _ _ _ _ _ Hpic). }
  assert (Hsub : converted s1 ⊆ <[id := o]> (converted s1)) by (by apply insert_subseteq).
  split; [|split].
  - split; cbn; [apply Ha|etrans; [apply Ha|done]|]. intros i Hi His.
    destruct (decide (i = id)) as [->|Hne]; [exists w; split; [done|lia]|].
    rewrite lookup_insert_ne in His by done. destruct (added_below _ _ _ Ha i Hi His) as (w' & ? & ?).
    exists w'. split; [done|lia].
  - split; [done|]. intros w' o' Hp. unfold place in Hp. cbn in Hp.
    destruct (ids !! implval_hash w') as [i|] eqn:Hi; cbn in Hp; [|done].
    destruct (decide (i = id)) as [->|Hne].
    + rewrite lookup_insert_eq in Hp. injection Hp as <-. exists sh. split.
      { rewrite (hash_identifies vectorContentsExtractor w' w); [done|]. by eapply (pictures_inj _ _ _ _ _ _ _ Hpic). }
      eapply object_is_mono; [|intros x y; by apply place_mono|exact Ho]. done.
    + rewrite lookup_insert_ne in Hp by done.
      destruct (Hobj w' o') as (sh' & Hsh' & Ho'); [unfold place; by rewrite Hi|]. exists sh'. split; [done|].
      eapply object_is_mono; [|intros x y; by apply place_mono|exact Ho']. done.
  - unfold place. rewrite Hw. cbn. by rewrite lookup_insert_eq.
Qed.

Lemma cruns_convert fuel w id s :
  P w → rank w < fuel → ids !! implval_hash w = Some id →
  cruns (S (rank w)) s (convert (arr:=arr) (sent defs) fuel id) (λ o s', place s' w = Some o).
Proof using All.
  revert w id s. induction fuel as [|fuel IH]; intros w id s Hw Hfuel Hid; [lia|].
  cbn [convert]. apply cruns_get. destruct (converted s !! id) as [o|] eqn:Hc.
  { apply cruns_ret. unfold place. by rewrite Hid. }
  destruct (pictures_described _ _ _ _ _ _ _ Hpic w id Hid) as (d & Hd & Hdesc).
  eapply cruns_lift; [by unfold sent; rewrite lookup_omap, Hd|].
  intros Hi. assert (Hrec : ∀ c i s', P c → rank c < rank w → ids !! implval_hash c = Some i →
    cruns (rank w) s' (convert (arr:=arr) (sent defs) fuel i) (λ o s'', place s'' c = Some o)).
  { intros c i s' Hc' Hr Hci Hi'. destruct (IH c i s' Hc' ltac:(lia) Hci Hi') as (o & s2 & Hrun & Ha & Hi2 & Ho).
    exists o, s2. split_ands; [done|by eapply added_le; [|exact Ha]|done|done]. }
  destruct (cruns_inner fuel (rank w) _ Hrec w d s Hw Hdesc (le_n _) Hi) as (o & s1 & Hrun & Ha & Hi1 & sh & Hsh & Ho).
  destruct (converted_insert (rank w) s s1 w id o sh Ha Hi1 Hc Hid eq_refl Hsh Ho) as (s2 & Hset & Ha2 & Hi2 & Hp).
  exists o, s2. split_ands; [|done|done|done].
  rewrite (bind_step _ _ _ _ _ Hrun). by rewrite (bind_step _ _ _ _ _ Hset).
Qed.

(** A conversion that starts afresh. *)
Lemma converted_root fuel s :
  P v → rank v < fuel → heap_ok (rehydrator_heap s) →
  ∃ o s' (object_of : V → option oid),
    convertJsonResultToPythonObject (arr:=arr) fuel root (sent defs) s = (Ret o, s') ∧
    object_of v = Some o ∧ heap_extends (rehydrator_heap s) (rehydrator_heap s') ∧
    objects_are (rehydrator_heap s') object_of.
Proof using All.
  intros Hv Hfuel Hok. unfold convertJsonResultToPythonObject.
  set (s0 := Rehydrator (moduleClassesAndFunctionsByPath s) (pathsToModules s) ∅ (rehydrator_heap s) (rehydrator_mapping s)).
  assert (Hi : rinv s0).
  { split; [done|]. intros w o. unfold place. destruct (ids !! implval_hash w); cbn; done. }
  destruct (cruns_convert fuel v root s0 Hv Hfuel (pictures_root _ _ _ _ _ _ _ Hpic) Hi) as (o & s' & Hrun & Ha & Hi' & Ho).
  exists o, s', (place s'). split_ands; [exact Hrun|done|apply Ha|apply Hi'].
Qed.
End results.

(** ** From the gateway to the client *)

Section client.
Context {V arr : Type} `{EqDecision V} {FV : ForaValues V} {NP : Numpy arr} {NL : NumpyLaws arr}.
Context {VD : VectorData V arr}.
Context (reader : option (exceptionReader V)) (pyforaBoundMethodClass : V) (str_of : V → string).
Abbreviation extractor := (extractVectorContents (arr:=arr)).
Context {FL : ForaValuesLaws extractor}.
Context {PS : Type} {PI : PureClassInversion PS} {IN : Interpreter} {CP : ClientPython} {CL : ClientPythonLaws}.
Context (world : list V) (world_closed : ∀ w c, w ∈ world → refers extractor w c → c ∈ world).
Abbreviation shape_of := (shape_of reader pyforaBoundMethodClass extractor).

End client.
