(* ===== verification/ResultSamples.v ===== *)
(** * A result, from the cluster to the client

    A tuple of a list, a dict, an array and a singleton, some of whose values occur twice. *)
From Stdlib Require Import Lia.
From stdpp Require Import base gmap sets list strings fin_maps.
From S2P Require Import Prelude PyAst PyStrings TypeDescription PyHeap PyObjectWalker ResultTransformer ResultTransformerSpec PyforaComputedValue PyforaComputedValueSpec PythonObjectRehydrator Results.

Module ResultSamples.

(** Values are numbers, their hashes decimals; arrays are strings, of bytes. *)
Definition bytes (s : string) : list prim := (λ c, PInt (Z.of_nat (Ascii.nat_of_ascii c))) <$> String.list_ascii_of_string s.

#[export] Instance sample_numpy : Numpy string := {
  tostring a := a;
  array_length a := Z.of_nat (length (bytes a));
  dtype_pickle _ := "uint8";
  elements := bytes;
  frombuffer _ text size :=
    if bool_decide (Z.of_nat (length (bytes text)) = size) then Ret (bytes text) else Raise ValueError;
  dtype_zero _ := PInt 0 }.

#[export] Instance sample_numpy_laws : NumpyLaws string.
Proof. split; [|done]. intros a. cbn. by rewrite bool_decide_eq_true_2. Qed.

(** [0] is the integer 7, [1] the text "ab", with the characters [2]; [3] is a tuple, [4] a
    list of the elements of [5], [6] a dict, [7] a list of the bytes of [8]; [9] is the tuple
    of these, [10] is the class of [None], [12] a tuple of an exception and its trace,
    [13] a value that has no JSON, [19] a recursive function, whose binding of its own name
    refers to itself, with another one for [0], and [20] a tuple of it and [0]. *)
#[export] Instance sample_values : ForaValues nat := {
  implval_hash v := PyStr.str (Z.of_nat v);
  invertForaConstant v := Ret match v with
    | 0 => Some (inl (PInt 7)) | 1 => Some (inr 2) | 11 => Some (inl (PInt 97)) | _ => None end;
  vector_length v := match v with 2 => 2%Z | 5 => 3%Z | 8 => 2%Z | 18 => 1%Z | _ => 0%Z end;
  isVectorOfChar v := bool_decide (v = 2);
  getClassName _ := "";
  getObjectLexicalMember v name := Ret
    (if bool_decide (v = 19 ∧ name = "f") then Some (19, true)
     else if bool_decide (v = 19 ∧ name = "x") then Some (0, true) else None);
  invertTuple v := Ret match v with 3 => Some [0; 1; 0] | 9 => Some [4; 6; 7; 10; 3] | 20 => Some [19; 0] | _ => None end;
  invertDict v := Ret match v with 6 => Some [(1, 3); (0, 4)] | _ => None end;
  invertList v := Ret match v with 4 => Some 5 | 7 => Some 8 | 17 => Some 18 | _ => None end;
  isTuple v := bool_decide (v = 12);
  getTuple v := Ret match v with 12 => [13; 14] | 14 => [15] | _ => [] end;
  getTupleNames _ := [];
  getStackTrace _ := Ret None;
  isObject v := bool_decide (v = 19);
  isClass _ := false;
  getObjectClass _ := None;
  getObjectDefinitionPoint v := if bool_decide (v = 19) then Some (["m.py"], 3%Z) else None;
  objectMembers _ := [];
  objectLexicalMembers v := if bool_decide (v = 19) then [("f", false); ("x", true)] else [];
  symbol_text _ := None }.

#[export] Instance sample_vectors : VectorData nat string := {
  vectorDataIsLoaded v := bool_decide (v ≠ 5 ∧ v ≠ 18);
  isVectorEntirelyUnpaged _ := true;
  getVectorElementsJOR_length v := if bool_decide (v = 5 ∨ v = 18) then 2%Z else 1%Z;
  extractVectorContentsAsNumpyArray v := match v with 2 => Some "ab" | 8 => Some "az" | _ => None end;
  extractVectorItem _ := 11;
  extractVectorContentsAsPythonArray _ := Some [];
  slice_extractVectorDataAsNumpyArray _ := None;
  slice_extractVectorDataAsNumpyArrayInChunks _ := None;
  slice_extractVectorItemAsIVC _ := None;
  slice_vdmThinksIsLoaded _ := true;
  slice_extractVectorDataAsPythonArray v := match v with 5 => Some [3; 0; 3] | _ => None end }.

Definition sample_reader : exceptionReader nat := ExceptionReader
  (λ v, if bool_decide (v = 10) then Some "NoneType" else None) "PyExceptionInstance" "PyAbortExceptionInstance".

Definition rank (v : nat) : nat :=
  match v with 3 => 1 | 4 | 7 => 2 | 6 => 3 | 9 => 4 | _ => 0 end.

(** Every value that occurs. *)
Definition world : list nat := seq 0 21.

Lemma sample_laws : ForaValuesLaws (extractVectorContents (V:=nat) (arr:=string)).
Proof.
  split; try (intros; by intros e [=]); [intros v v' Hh%PyStr.str_inj; lia|].
  intros v e He ->. do 19 (destruct v as [|v]; [discriminate He|]). discriminate He.
Qed.

Lemma sample_world v c :
  v ∈ world → refers (extractVectorContents (V:=nat) (arr:=string)) v c → c ∈ world.
Proof.
  intros Hv Hc. apply list_elem_of_In, in_seq. cut (c ≤ 20); [lia|]. clear Hv.
  destruct Hc as [(n & b & Hm)|[(n & m & b & vs & Hm & Ht & Hc)|[(l & Hl & Hc)|[(items & Hl & Hc)|[(vec & l & Hv & Hl & Hc)|[(vec & arrays & Hv & Hl)|Hc]]]]]];
    [..|discriminate].
  1,2: cbn in Hm; repeat case_bool_decide; simplify_eq; try lia; cbn in Ht; simplify_eq; by apply elem_of_nil in Hc.
  all: do 21 (try (destruct v as [|v]; try discriminate));
    repeat match goal with
    | H : invertTuple _ = _ |- _ => injection H as <-
    | H : invertDict _ = _ |- _ => injection H as <-
    | H : invertList _ = _ |- _ => injection H as <-
    end; try discriminate;
    try (injection Hl as <-); try (injection Hl as <- <-); cbn in *;
    rewrite ?elem_of_cons, ?elem_of_nil in *; destruct_or?; subst; cbn; try lia; done.
Qed.

Definition plain_ok := plain_shape (V:=nat) (arr:=string) (Some sample_reader) 99 extractVectorContents.

Lemma sample_plain (w : nat) sh :
  w ≤ 11 → shape_of (Some sample_reader) 99 (extractVectorContents (arr:=string)) w = Ret sh →
  plain_ok sh ∧ ∀ c, c ∈ children sh → c ≤ 11 ∧ rank c < rank w.
Proof.
  intros Hw Hsh. destruct w as [|[|[|[|[|[|[|[|[|[|[|[|w]]]]]]]]]]]]; [..|lia];
    vm_compute in Hsh; try discriminate Hsh; injection Hsh as <-.
  all: split; [|intros c; cbn; rewrite ?elem_of_cons, ?elem_of_nil; intros Hc; destruct_or?; subst; cbn; try lia; done].
  all: try exact I.
  - intros k. cbn. rewrite !elem_of_cons, elem_of_nil. intros [->|[->|[]]]; by eexists.
  - exists "az", (PInt 97), (PInt 97). split_ands; try done.
  - apply (bool_decide_unpack ("NoneType" ∈ singleton_names)). by vm_compute.
Qed.

(** A client: objects of the interpreter, with primitives as the only keys. *)
Definition primitive_at (h : heap) (o : oid) : option prim :=
  x ← objects h !! o; match kind_of x with KPrimitive p => Some p | _ => None end.

#[export] Instance sample_client : ClientPython := {
  sys_modules := [];
  module_file _ := None;
  module_dict _ := [];
  abspath f := f;
  samefile f g := Ret (bool_decide (f = g));
  findsource _ := Raise IOError;
  getAstFromFilePath _ := Raise IOError;
  exec_code _ _ _ := raise ValueError;
  eval_code _ _ _ := raise ValueError;
  builtin_object _ := 1%N;
  builtin_class _ := None;
  call c _ := new_object (PyObj KOther (Some c) None ∅);
  alteredInit := 2%N;
  instantiate c := new_object (PyObj KOther (Some c) (Some []) ∅);
  getattr_of _ _ := raise AttributeError;
  iterate _ := raise TypeError;
  check_hashable h o := match primitive_at h o with Some _ => Ret tt | None => Raise TypeError end;
  equal_key h a b :=
    match primitive_at h a, primitive_at h b with
    | Some p, Some q => Ret (bool_decide (p = q))
    | _, _ => Raise TypeError
    end }.

Lemma primitive_at_kind h o p : kind_at h o (KPrimitive p) → primitive_at h o = Some p.
Proof. intros (x & Hx & Hk). unfold primitive_at. rewrite Hx. cbn. by rewrite Hk. Qed.

Lemma primitive_at_mono h h' o p : heap_extends h h' → primitive_at h o = Some p → primitive_at h' o = Some p.
Proof.
  intros Hh. unfold primitive_at. destruct (objects h !! o) as [x|] eqn:Hx; cbn; [|done].
  rewrite (lookup_weaken _ _ _ _ Hx Hh). done.
Qed.

#[export] Instance sample_client_laws : ClientPythonLaws.
Proof.
  split; cbn.
  - intros h o p Hp. by rewrite (primitive_at_kind _ _ _ Hp).
  - intros h a b p q Hp Hq. rewrite (primitive_at_kind _ _ _ Hp), (primitive_at_kind _ _ _ Hq). by eexists.
  - intros h h' a b x Hh. destruct (primitive_at h a) as [p|] eqn:Hp; [|done].
    destruct (primitive_at h b) as [q|] eqn:Hq; [|done].
    by rewrite (primitive_at_mono _ _ _ _ Hh Hp), (primitive_at_mono _ _ _ _ Hh Hq).
Qed.

#[export] Instance no_inversion : PureClassInversion unit := {
  canInvert _ := mret false;
  pureInstanceToMappable _ := raise KeyError }.

#[export] Instance no_sources : Interpreter := {
  parse _ := Raise ValueError;
  getsourcefile _ := Ret None;
  getlines _ := Ret None;
  getsourcelines _ := Raise IOError;
  dedent s := s;
  builtins := ∅;
  pythonSingletonToName := ∅;
  connect := 0%N;
  getitem _ _ := Raise TypeError }.

(** *** Runs *)

Definition answer (v : nat) (is_exception : bool) (maxBytecount : option Z) : res (option answerJson) :=
  getResultAsJson (arr:=string) (Some sample_reader) 99 (λ _, "text") 6
    (ComputedValue None is_exception (Some v)) maxBytecount.

Definition client_state : rehydrator (PS:=unit) :=
  Rehydrator ∅ ∅ ∅ (Heap {[1%N := PyObj KOther None None ∅]} 2%N) tt.

Definition sample_defs : gmap string (option objectDef) :=
  match answer 9 false (Some 1000%Z) with Ret (Some (Result _ defs _)) => defs | _ => ∅ end.

(** Nine definitions for eleven references; too many bytes; an exception without JSON. *)
Example sample_answer : answer 9 false (Some 1000%Z) = Ret (Some (Result "0" sample_defs None)).
Proof. by vm_compute. Qed.
Example sample_size : size sample_defs = 9.
Proof. by vm_compute. Qed.
Example sample_bytes_exceeded : answer 9 false (Some 100%Z) = Ret (Some (MaxBytesExceeded None)).
Proof. by vm_compute. Qed.
Example sample_no_json : answer 13 false None = Ret (Some ConversionError).
Proof. by vm_compute. Qed.
Example sample_exception : answer 12 true None = Ret (Some (UntranslatableException "text" None)).
Proof. by vm_compute. Qed.
Example sample_not_loaded : answer 17 false None = Ret None.
Proof. by vm_compute. Qed.

(** What the client makes of it: the tuple 4 stands in the list 5, in the dict 6 and in the
    result. *)
Example sample_rehydrated :
  (let '(r, s) := convertJsonResultToPythonObject (arr:=string) 6 "0" (sent sample_defs) client_state in
   (r, (λ o, kind_of <$> objects (rehydrator_heap s) !! o) <$> [3; 4; 5; 6; 10; 11]%N)) =
  (Ret 11%N, [Some (KPrimitive (PStr "ab")); Some (KTuple [2; 3; 2]%N); Some (KList [4; 2; 4]%N);
     Some (KDict [(3, 4); (2, 5)]%N); Some (KList [8; 9]%N); Some (KTuple [5; 6; 10; 1; 4]%N)]).
Proof. by vm_compute. Qed.

(** The tuple with the recursive function: three definitions, the function's with the
    binding that does not refer to itself. *)
Definition function_defs : gmap string (option objectDef) :=
  match getResultAsJson (arr:=string) (Some sample_reader) 99 (λ _, "text") 22
      (ComputedValue None false (Some 20)) None with
  | Ret (Some (Result _ defs _)) => defs | _ => ∅ end.
Example function_sent : function_defs !! "1" = Some (Some (DFunctionInstance "m.py" 3 [("x", "2")])).
Proof. by vm_compute. Qed.

Example result_is_sent_whole_witness :
  sends (arr:=string) (Some sample_reader) 99 (ComputedValue None false (Some 20)) "0" function_defs None ∧
  size function_defs = 3.
Proof.
  split; [|by vm_compute].
  refine (proj1 (result_is_sent_whole (arr:=string) (FL:=sample_laws) (Some sample_reader) 99 (λ _, "text")
    world sample_world 22 (ComputedValue None false (Some 20)) None _ _ _) "0" function_defs None _).
  - intros m. discriminate.
  - intros whole v [= <-] [= <-]. by apply (bool_decide_unpack (20 ∈ world)).
  - cbn. lia.
  - by vm_compute.
Defined.

End ResultSamples.
