(* ===== verification/PureImplementationMappings.v ===== *)
(** * Mappings to pure Python
    ([pyfora/PureImplementationMapping.py], [pyfora/PureImplementationMappings.py])

    The registry of replacements of objects that cannot be converted, such as numpy's
    arrays or the functions of [__builtin__], by instances of pure classes, and back. It is
    what the walker and the rehydrator call [purePythonClassMapping]. *)
From Stdlib Require Import Lia Ascii.
From stdpp Require Import base gmap sets list strings fin_maps.
From S2P Require Import Prelude PyAst PyStrings TypeDescription PyHeap ResultTransformer PythonObjectRehydrator.

Set Default Proof Using "Type".

Definition ImportError : exn := OtherException "ImportError".
Definition PyforaNotImplementedError : exn := OtherException "PyforaNotImplementedError".

(** ** One mapping *)

(** An instance of a subclass of [PureImplementationMapping]. *)
Record mapping := Mapping {
  getMappablePythonTypes : list oid;
  getMappableInstances : list oid;
  getPurePythonTypes : list oid;
  mapPythonInstanceToPyforaInstance : oid → M heap oid;
  mapPyforaInstanceToPythonInstance : oid → M heap oid }.

(** The base class, whose methods are not implemented; a subclass replaces them. *)
Definition not_implemented : oid → M heap oid := λ _, raise PyforaNotImplementedError.

(** [sys.modules], and the mappings that modules registered when they were imported. *)
Record world := World {
  sys_modules_keys : list string;
  registered_mappings : gmap string (list mapping) }.

(** The type of an object without [__class__], calls of pure classes, and what imports do. *)
Class Calls := {
  type_of : oid → oid;
  call_class : oid → M heap oid }.
Class Imports := {
  import_module : string → M world unit;
  getenv_PYFORAPATH : option string;
  path_exists : string → bool;
  load_user_module : string → string → M world unit }.

Section mappings.
Context {CA : Calls}.

(** [i.__class__], or [type(i)]. *)
Definition typeOfInstance (h : heap) (i : oid) : oid :=
  match objects h !! i with
  | Some x => default (type_of i) (class_of x)
  | None => type_of i
  end.

(** [InstanceMapping]: one object, and instances of one class. *)
Definition InstanceMapping (instance : oid) (pureClass : option oid) : mapping := {|
  getMappablePythonTypes := [];
  getMappableInstances := [instance];
  getPurePythonTypes := match pureClass with Some c => [c] | None => [] end;
  mapPythonInstanceToPyforaInstance i :=
    lift (py_assert (bool_decide (i = instance))) ;;
    match pureClass with
    | None => raise PyforaNotImplementedError
    | Some c => call_class c
    end;
  mapPyforaInstanceToPythonInstance i :=
    h ← get;
    x ← lift (of_option AttributeError (objects h !! i));
    lift (py_assert (bool_decide (class_of x = pureClass))) ;;
    mret instance |}.

(** *** The registry of modules *)

(** [PureMappingRegistry.mappingsForRootModule] and [registerMapping]. *)
Definition mappingsForRootModule (w : world) (root : string) : list mapping :=
  default [] (registered_mappings w !! root).

Definition registerMapping (root_module : string) (m : mapping) : M world unit := modify (λ w,
  World (sys_modules_keys w)
    (<[root_module := mappingsForRootModule w root_module ++ [m]]> (registered_mappings w))).

(** [s.split('.')] at its ends. *)
Fixpoint first_part (s : string) : string :=
  match s with
  | EmptyString => EmptyString
  | String c s => if Ascii.eqb c "."%char then EmptyString else String c (first_part s)
  end.
Fixpoint last_part (s : string) (acc : string) : string :=
  match s with
  | EmptyString => acc
  | String c s => if Ascii.eqb c "."%char then last_part s EmptyString else last_part s (acc ++ String c EmptyString)
  end.

(** [pureMapping]: of a class of mappings, with its module; or of an instance, with the
    module that its class or it comes from, and the pure class. *)
Definition pureMapping_class (module : string) (m : mapping) : M world unit :=
  let root_module := last_part module "" in
  let root_module := if String.prefix "pure_" root_module then PyStr.drop 5 root_module else root_module in
  registerMapping root_module m.

Definition pureMapping_instance (module instance_module class_module : option string) (instance : oid)
    (cls : option oid) : M world unit :=
  let module := match module with
                | Some m => Some m
                | None => match instance_module with Some m => Some m | None => class_module end
                end in
  module ← lift (of_option AssertionError module);
  registerMapping (first_part module) (InstanceMapping instance cls).

(** ** All mappings *)

Context {IM : Imports}.

Record mappings := Mappings {
  last_seen_sys_modules_len : Z;
  already_loaded : gset string;
  all_mappings : list mapping;
  pythonTypeToMapping : gmap oid mapping;
  pyforaTypeToMapping : gmap oid mapping;
  pythonInstanceIdsToMappingAndId : gmap oid (mapping * oid) }.

Definition no_mappings : mappings := Mappings 0 ∅ [] ∅ ∅ ∅.

Definition enter {X} (v : X) (keys : list oid) (d : gmap oid X) : gmap oid X :=
  foldl (λ d k, <[k := v]> d) d keys.

Definition addMapping (m : mapping) (s : mappings) : mappings :=
  Mappings (last_seen_sys_modules_len s) (already_loaded s) (all_mappings s ++ [m])
    (enter m (getMappablePythonTypes m) (pythonTypeToMapping s))
    (enter m (getPurePythonTypes m) (pyforaTypeToMapping s))
    (foldl (λ d i, <[i := (m, i)]> d) (pythonInstanceIdsToMappingAndId s) (getMappableInstances m)).

(** The mappings with the modules. *)
Abbreviation PS := (mappings * world)%type.

Definition on_world {X} (m : M world X) : M PS X := λ s,
  let '(r, w) := m s.2 in (r, (s.1, w)).

Definition addMappingsForModule (module_name : string) : M PS unit := modify (λ s,
  let s1 := foldl (λ s m, addMapping m s) s.1 (mappingsForRootModule s.2 module_name) in
  (Mappings (last_seen_sys_modules_len s1) ({[module_name]} ∪ already_loaded s1) (all_mappings s1)
     (pythonTypeToMapping s1) (pyforaTypeToMapping s1) (pythonInstanceIdsToMappingAndId s1), s.2)).

Definition except_ImportError (m : M PS unit) : M PS unit :=
  catch m (λ e, if bool_decide (e = ImportError) then mret tt else raise e).

Definition try_load_pure_module (module_name : string) : M PS unit :=
  except_ImportError (on_world (import_module ("pyfora.pure_modules.pure_" ++ module_name)) ;;
                      addMappingsForModule module_name) ;;
  match getenv_PYFORAPATH with
  | None => mret tt
  | Some pyfora_path =>
      forM_ (λ m : string,
        let path := (pyfora_path ++ "/" ++ m)%string in
        when (path_exists path || path_exists (path ++ ".py"))
          (except_ImportError (on_world (load_user_module m pyfora_path) ;; addMappingsForModule module_name)))
        [module_name; ("pure_" ++ module_name)%string]
  end.

Definition load_pure_modules : M PS unit :=
  s ← get;
  if (Z.of_nat (length (sys_modules_keys s.2)) <=? last_seen_sys_modules_len s.1)%Z then mret tt
  else
    let loaded_root_modules : gset string := list_to_set (first_part <$> sys_modules_keys s.2) in
    forM_ (λ root, s ← get;
      if bool_decide (root ∈ already_loaded s.1) || bool_decide (root = "pyfora") then mret tt
      else try_load_pure_module root) (base.elements loaded_root_modules) ;;
    modify (λ s, (Mappings (Z.of_nat (length (sys_modules_keys s.2))) (already_loaded s.1) (all_mappings s.1)
      (pythonTypeToMapping s.1) (pyforaTypeToMapping s.1) (pythonInstanceIdsToMappingAndId s.1), s.2)).

(** *** With the heap *)

Definition on_mappings {X} (m : M PS X) : M (PS * heap) X := λ s,
  let '(r, p) := m s.1 in (r, (p, s.2)).
Definition run_mapping {X} (m : M heap X) : M (PS * heap) X := λ s,
  let '(r, h) := m s.2 in (r, (s.1, h)).

Definition canMap (instance : oid) : M (PS * heap) bool :=
  on_mappings load_pure_modules ;;
  s ← get;
  mret (bool_decide (is_Some (pythonTypeToMapping s.1.1 !! typeOfInstance s.2 instance)) ||
        bool_decide (is_Some (pythonInstanceIdsToMappingAndId s.1.1 !! instance))).

Definition canInvert (instance : oid) : M (PS * heap) bool :=
  s ← get;
  mret (bool_decide (is_Some (pyforaTypeToMapping s.1.1 !! typeOfInstance s.2 instance))).

Definition mappableInstanceToPure (instance : oid) : M (PS * heap) oid :=
  s ← get;
  mapper ← match pythonInstanceIdsToMappingAndId s.1.1 !! instance with
           | Some (mapper, _) => mret mapper
           | None => lift (of_option KeyError (pythonTypeToMapping s.1.1 !! typeOfInstance s.2 instance))
           end;
  run_mapping (mapPythonInstanceToPyforaInstance mapper instance).

Definition pureInstanceToMappable (instance : oid) : M (PS * heap) oid :=
  s ← get;
  mapper ← lift (of_option KeyError (pyforaTypeToMapping s.1.1 !! typeOfInstance s.2 instance));
  run_mapping (mapPyforaInstanceToPythonInstance mapper instance).

(** The interfaces of the walker and of the rehydrator. *)
#[export] Instance mappings_for_walker : PureClassMapping PS := {
  PyHeap.canMap := canMap;
  PyHeap.mappableInstanceToPure := mappableInstanceToPure }.

#[export] Instance mappings_for_rehydrator : PureClassInversion PS := {
  PythonObjectRehydrator.canInvert := canInvert;
  PythonObjectRehydrator.pureInstanceToMappable := pureInstanceToMappable }.
End mappings.

(** ** The mapping that is chosen *)

Section chosen.
Context {CA : Calls} {IM : Imports}.

Definition last_with (keys : mapping → list oid) (k : oid) (ms : list mapping) : option mapping :=
  last (filter (λ m, k ∈ keys m) ms).

(** The last mapping that lists the object itself, or else its type. *)
Definition chosen (ms : list mapping) (t o : oid) : option mapping :=
  match last_with getMappableInstances o ms with
  | Some m => Some m
  | None => last_with getMappablePythonTypes t ms
  end.

(** The dicts have the last mapping for each of their keys. *)
Record mappings_ok (s : mappings) : Prop := {
  python_types_ok t : pythonTypeToMapping s !! t = last_with getMappablePythonTypes t (all_mappings s);
  pyfora_types_ok t : pyforaTypeToMapping s !! t = last_with getPurePythonTypes t (all_mappings s);
  instances_ok o : pythonInstanceIdsToMappingAndId s !! o =
    (λ m, (m, o)) <$> last_with getMappableInstances o (all_mappings s) }.

Lemma no_mappings_ok : mappings_ok no_mappings.
Proof. by split. Qed.

Lemma foldl_insert_lookup {X} (f : oid → X) keys (d : gmap oid X) k :
  foldl (λ d k, <[k := f k]> d) d keys !! k = if bool_decide (k ∈ keys) then Some (f k) else d !! k.
Proof.
  revert d. induction keys as [|k' keys IH]; intros d; cbn [foldl]; [done|]. rewrite IH.
  case_bool_decide as Hin; case_bool_decide as Hin'; rewrite elem_of_cons in Hin'; try done; [by destruct Hin'; right| |].
  - destruct Hin' as [->|]; [by rewrite lookup_insert_eq|done].
  - rewrite lookup_insert_ne by (intros ->; by destruct Hin'; left). done.
Qed.

Lemma enter_lookup {X} (v : X) keys d k :
  enter v keys d !! k = if bool_decide (k ∈ keys) then Some v else d !! k.
Proof. apply (foldl_insert_lookup (λ _, v)). Qed.

Lemma last_with_snoc keys k ms m :
  last_with keys k (ms ++ [m]) = if bool_decide (k ∈ keys m) then Some m else last_with keys k ms.
Proof.
  unfold last_with. rewrite filter_app. case_bool_decide as Hk.
  - rewrite filter_cons_True by done. apply last_snoc.
  - rewrite filter_cons_False by done. by rewrite filter_nil, app_nil_r.
Qed.

Lemma addMapping_ok m s : mappings_ok s → mappings_ok (addMapping m s).
Proof.
  intros [Hp Hq Hi]. split; intros k;
    cbn [addMapping pythonTypeToMapping pyforaTypeToMapping pythonInstanceIdsToMappingAndId all_mappings].
  - by rewrite enter_lookup, last_with_snoc, Hp.
  - by rewrite enter_lookup, last_with_snoc, Hq.
  - rewrite (foldl_insert_lookup (λ i, (m, i))), last_with_snoc, Hi. by case_bool_decide.
Qed.

Lemma addMappingsForModule_ok module : keeps (λ s, mappings_ok s.1) (addMappingsForModule module).
Proof.
  apply keeps_modify. intros [s w] Hs. cbn in *.
  assert (Hfold : mappings_ok (foldl (λ s m, addMapping m s) s (mappingsForRootModule w module))).
  { generalize (mappingsForRootModule w module). intros ms. revert s Hs.
    induction ms as [|m ms IH]; intros s Hs; [done|]. by apply IH, addMapping_ok. }
  by destruct Hfold.
Qed.

Lemma on_world_ok {X} (m : M world X) : keeps (λ s, mappings_ok s.1) (on_world m).
Proof. intros [s w] Hs. unfold on_world. cbn. by destruct (m w). Qed.

Lemma except_ImportError_ok m : keeps (λ s, mappings_ok s.1) m → keeps (λ s, mappings_ok s.1) (except_ImportError m).
Proof. intros Hm. apply keeps_catch; [done|]. intros e. case_bool_decide; [apply keeps_ret|apply keeps_raise]. Qed.

Lemma try_load_ok module : keeps (λ s, mappings_ok s.1) (try_load_pure_module module).
Proof.
  unfold try_load_pure_module. apply keeps_bind.
  { apply except_ImportError_ok, keeps_bind; [apply on_world_ok|]. intros _. apply addMappingsForModule_ok. }
  intros _. destruct getenv_PYFORAPATH as [pyfora_path|]; [|apply keeps_ret].
  apply keeps_forM_. intros m _. apply keeps_when, except_ImportError_ok, keeps_bind; [apply on_world_ok|].
  intros _. apply addMappingsForModule_ok.
Qed.

Lemma load_pure_modules_ok : keeps (λ s, mappings_ok s.1) load_pure_modules.
Proof.
  unfold load_pure_modules. apply keeps_bind; [apply keeps_get|]. intros s.
  destruct (_ <=? _)%Z; [apply keeps_ret|]. apply keeps_bind.
  - apply keeps_forM_. intros root _. apply keeps_bind; [apply keeps_get|]. intros s1.
    destruct (_ || _); [apply keeps_ret|apply try_load_ok].
  - intros _. apply keeps_modify. intros s1 Hs. by destruct Hs.
Qed.

(** The registry of mappings: whatever modules are loaded on the way, an object can be
    mapped exactly if a mapping lists it or its type, and what maps it is the last mapping
    that lists the object itself, or else the last that lists its type; the object of a
    pure class is mapped back by the last mapping that lists the class. No lookup fails, and
    asking changes no object. *)
Theorem last_mapping_is_chosen (s s' : mappings * world) h h' o b
    (Hok : mappings_ok s.1) (Hcan : canMap o (s, h) = (Ret b, (s', h'))) :
  mappings_ok s'.1 ∧ h' = h ∧
  match chosen (all_mappings s'.1) (typeOfInstance h o) o with
  | Some m => b = true ∧
      mappableInstanceToPure o (s', h) = run_mapping (mapPythonInstanceToPyforaInstance m o) (s', h)
  | None => b = false
  end ∧
  ∀ p h1, match last_with getPurePythonTypes (typeOfInstance h1 p) (all_mappings s'.1) with
          | Some m => canInvert p (s', h1) = (Ret true, (s', h1)) ∧
              pureInstanceToMappable p (s', h1) = run_mapping (mapPyforaInstanceToPythonInstance m p) (s', h1)
          | None => canInvert p (s', h1) = (Ret false, (s', h1))
          end.
Proof.
  assert (Hrun : mappings_ok s'.1 ∧ h' = h ∧
    b = bool_decide (is_Some (pythonTypeToMapping s'.1 !! typeOfInstance h o)) ||
        bool_decide (is_Some (pythonInstanceIdsToMappingAndId s'.1 !! o))).
  { unfold canMap in Hcan. apply bind_inv in Hcan as ([] & [s1 h1] & Hload & Hcan).
    unfold on_mappings in Hload. cbn in Hload. pose proof (load_pure_modules_ok s Hok) as Hok'.
    destruct (load_pure_modules s) as [r p]. injection Hload as -> -> ->.
    injection Hcan as <- <- <-. done. }
  destruct Hrun as ([Hp Hq Hi] & -> & ->). split; [done|]. split; [done|]. split.
  - unfold chosen, mappableInstanceToPure, mbind, M_bind, get, lift. cbn. rewrite Hp, Hi.
    destruct (last_with getMappableInstances o _) as [m|]; cbn.
    + split; [apply orb_true_r|done].
    + by destruct (last_with getMappablePythonTypes _ _).
  - intros p h1. unfold canInvert, pureInstanceToMappable, mbind, M_bind, get, lift. cbn. rewrite Hq.
    by destruct (last_with getPurePythonTypes _ _).
Qed.

(** An object that is mapped by [pureMapping] becomes an instance of its pure class, and
    is itself again on the way back. *)
Lemma instance_mapping_roundtrip (o c p : oid) h h' x :
  call_class c h = (Ret p, h') → objects h' !! p = Some x → class_of x = Some c →
  mapPythonInstanceToPyforaInstance (InstanceMapping o (Some c)) o h = (Ret p, h') ∧
  mapPyforaInstanceToPythonInstance (InstanceMapping o (Some c)) p h' = (Ret o, h').
Proof.
  intros Hcall Hx Hc. cbn. unfold mbind, M_bind, lift, get. cbn. rewrite bool_decide_eq_true_2 by done. cbn.
  rewrite Hx. cbn. by rewrite Hc, bool_decide_eq_true_2.
Qed.
End chosen.

(** ** [len], replaced by an instance of [Len] *)

Module MappingSamples.
#[export] Instance sample_calls : Calls := {
  type_of _ := 1%N;
  call_class c := new_object (PyObj KOther (Some c) (Some []) ∅) }.
#[export] Instance sample_imports : Imports := {
  import_module name :=
    if String.eqb name "pyfora.pure_modules.pure___builtin__" then
      pureMapping_instance None (Some "__builtin__") None 5%N (Some 8%N)
    else raise ImportError;
  getenv_PYFORAPATH := None;
  path_exists _ := false;
  load_user_module _ _ := raise ImportError }.

Definition sample_heap : heap := Heap {[5%N := PyObj KBuiltinFunction (Some 1%N) None ∅]} 9%N.
Definition sample_start : mappings * world := (no_mappings, World ["os.path"; "__builtin__"; "pyfora"] ∅).
Definition sample_run : res bool * (mappings * world * heap) := canMap 5%N (sample_start, sample_heap).
Definition sample_state : mappings * world := sample_run.2.1.

(** The function is mapped to the object 9 of the class 8, which is mapped back to it; a
    module without a pure module is tried again when more modules are loaded. *)
Example sample_can_map : fst sample_run = Ret true.
Proof. by vm_compute. Qed.
Example sample_there :
  fst (mappableInstanceToPure 5%N (sample_state, sample_heap)) = Ret 9%N.
Proof. by vm_compute. Qed.
Example sample_back :
  fst (pureInstanceToMappable 9%N (snd (mappableInstanceToPure 5%N (sample_state, sample_heap)))) = Ret 5%N.
Proof. by vm_compute. Qed.
Example sample_loaded : already_loaded sample_state.1 = {["__builtin__"]}.
Proof. by vm_compute. Qed.

Example last_mapping_is_chosen_witness :
  mappings_ok no_mappings ∧ mappings_ok sample_state.1.
Proof.
  split; [apply no_mappings_ok|].
  refine (proj1 (last_mapping_is_chosen sample_start sample_state sample_heap sample_heap 5%N true no_mappings_ok _)).
  by vm_compute.
Defined.
End MappingSamples.
