(* ===== verification/WithBlockExecutor.v ===== *)
(** * With blocks ([pyfora/WithBlockExecutor.py], [pyfora/DownloadPolicy.py])

    The body of a [with] statement runs on the cluster: a trace function of the frame sends
    the block with the variables it can see, waits, and assigns the block's variables in the
    frame, as proxies or as what the policy downloads. *)
From Stdlib Require Import Lia.
From stdpp Require Import base gmap sets list strings fin_maps.
From S2P Require Import Prelude PyAst PyStrings AstUtil TypeDescription PyHeap ResultTransformer PythonObjectRehydrator.

Set Default Proof Using "Type".

(** A download: the object, or word that it has more bytes than asked for. *)
Inductive downloaded := Downloaded (o : oid) | ResultExceededBytecountThreshold.

(** ** What the executor offers

    Operations that wait for the cluster ([resultWithWakeup]); proxies are objects. Of
    [toTupleOfProxies] the error of the computation, with its trace, is told apart. *)
Class Cluster (C F : Type) := {
  define_and_wait : withBlock → M C oid;
  triggerCompilation_and_wait : oid → M C unit;
  call_and_wait : oid → M C oid;
  toTupleOfProxies_and_wait : oid → M C (list oid + (option (list location) * oid));
  toDictOfAssignedVars_and_wait : oid → M C (list (string * oid));
  download_and_wait : oid → M C oid;
  toLocal : oid → option Z → M C F;
  future_outcome : F → M C downloaded;
  pullAllMessagesAndProcess : M C unit;
  (* a trace that is a tuple *)
  as_trace : oid → option (list location);
  parse_file : string → res node }.

(** ** Policies *)

Inductive DownloadPolicy := DownloadAllPolicy | DownloadNonePolicy | DownloadSmallPolicy (maxBytecount : Z).

Inductive policyInstance (F : Type) :=
| Proxy (remoteObject : oid)
| Pending (future : F)
| ProxyAndPending (remote : oid) (future : F).
Arguments Proxy {F} remoteObject.
Arguments Pending {F} future.
Arguments ProxyAndPending {F} remote future.

(** A frame of the interpreter, as far as the block sees it. *)
Record frame := Frame {
  f_globals : gmap string oid;
  f_locals : gmap string oid;
  co_varnames : list string;
  f_lineno : Z }.

(** [f_trace] is what a Python frame of a traceback shows: a path, a position, a name. *)
Record traceFrame := TraceFrame { tb_path : string; tb_line : Z; tb_col : Z; tb_name : option string }.

Record executor := WithBlockExecutor {
  lineNumber : Z;
  sourceText : string;
  sourceFileName : string;
  traceAndException : option (option (list location) * oid);
  compileOnly : bool;
  downloadPolicy : DownloadPolicy }.

(** How a block ends for its frame: quietly ([WithBlockCompleted]), or with the exception of
    the computation. *)
Inductive ending := WithBlockCompleted | ExceptionValue (exceptionValue : oid) (tb : list traceFrame).

Definition new_executor : executor := WithBlockExecutor 0 "" "" None false DownloadNonePolicy.

Definition asCompileOnly (e : executor) : executor :=
  WithBlockExecutor (lineNumber e) (sourceText e) (sourceFileName e) (traceAndException e) true (downloadPolicy e).
Definition set_policy (p : DownloadPolicy) (e : executor) : executor :=
  WithBlockExecutor (lineNumber e) (sourceText e) (sourceFileName e) (traceAndException e) (compileOnly e) p.
Definition downloadAll : executor → executor := set_policy DownloadAllPolicy.
Definition remoteAll : executor → executor := set_policy DownloadNonePolicy.
Definition downloadSmall (bytecount : Z) : executor → executor := set_policy (DownloadSmallPolicy bytecount).

Section block.
Context {C F : Type} {CL : Cluster C F}.

Record blockState := BlockState { the_executor : executor; the_frame : frame; the_cluster : C }.
Abbreviation st := blockState.

Definition on_cluster {X} (m : M C X) : M st X := λ s,
  let '(r, c) := m (the_cluster s) in (r, BlockState (the_executor s) (the_frame s) c).
Definition on_frame (f : frame → frame) : M st unit := modify (λ s,
  BlockState (the_executor s) (f (the_frame s)) (the_cluster s)).

Definition set_traceAndException (t : option (list location) * oid) : M st unit := modify (λ s,
  let e := the_executor s in
  BlockState (WithBlockExecutor (lineNumber e) (sourceText e) (sourceFileName e) (Some t) (compileOnly e)
    (downloadPolicy e)) (the_frame s) (the_cluster s)).

Definition set_local (k : string) (v : oid) (f : frame) : frame :=
  Frame (f_globals f) (<[k := v]> (f_locals f)) (co_varnames f) (f_lineno f).
Definition previous_line (f : frame) : frame :=
  Frame (f_globals f) (f_locals f) (co_varnames f) (f_lineno f - 1).

(** *** The two phases of a policy *)

Definition initiatePolicyCheck (p : DownloadPolicy) (remoteObject : oid) : M C (policyInstance F) :=
  match p with
  | DownloadAllPolicy => f ← toLocal remoteObject None; mret (Pending f)
  | DownloadNonePolicy => mret (Proxy remoteObject)
  | DownloadSmallPolicy maxBytecount =>
      f ← toLocal remoteObject (Some maxBytecount); mret (ProxyAndPending remoteObject f)
  end.

Definition resolveToFinalValue (i : policyInstance F) : M C oid :=
  match i with
  | Proxy remoteObject => mret remoteObject
  | Pending future =>
      r ← future_outcome future;
      match r with
      | Downloaded o => mret o
      | ResultExceededBytecountThreshold => raise (OtherException "ResultExceededBytecountThreshold")
      end
  | ProxyAndPending remote future =>
      r ← future_outcome future;
      match r with
      | Downloaded o => mret o
      | ResultExceededBytecountThreshold => mret remote
      end
  end.

(** *** The block *)

(** [__enter__], from the frame that the interpreter finds and the lines of its file. *)
Definition enter (fileName : string) (line : Z) (lines : list string) : M st unit := modify (λ s,
  let e := the_executor s in
  BlockState (WithBlockExecutor line (String.concat "" lines) fileName (traceAndException e) (compileOnly e)
    (downloadPolicy e)) (the_frame s) (the_cluster s)).

(** The block, with what its frame binds: the locals hide the globals. *)
Definition block_of (e : executor) (f : frame) : withBlock :=
  WithBlock (lineNumber e) (sourceText e) (f_locals f ∪ f_globals f) (sourceFileName e)
    (list_to_set (filter (.∉ dom (f_locals f)) (co_varnames f))).

(** [blockOperation]: the variables that the block assigned. *)
Definition blockOperation : M st (list (string * oid)) :=
  s ← get;
  f_proxy ← on_cluster (define_and_wait (block_of (the_executor s) (the_frame s)));
  if compileOnly (the_executor s) then on_cluster (triggerCompilation_and_wait f_proxy) ;; mret []
  else
    f_result_proxy ← on_cluster (call_and_wait f_proxy);
    tuple ← on_cluster (toTupleOfProxies_and_wait f_result_proxy);
    match tuple with
    | inr failure => set_traceAndException failure ;; mret []
    | inl tuple_of_proxies =>
        proxy_trace ← lift (of_option IndexError (tuple_of_proxies !! 1));
        trace ← on_cluster (download_and_wait proxy_trace);
        (match as_trace trace with
         | Some t =>
             proxy_exception ← lift (of_option IndexError (tuple_of_proxies !! 2));
             e ← on_cluster (download_and_wait proxy_exception);
             set_traceAndException (Some t, e)
         | None => mret tt
         end) ;;
        proxy_dict ← lift (of_option IndexError (tuple_of_proxies !! 0));
        on_cluster (toDictOfAssignedVars_and_wait proxy_dict)
    end.

(** [syntheticTraceback]: the frames of Python files, the first of the trace innermost. *)
Definition is_python_path (path : list string) : option string :=
  match path with
  | [p] => if endswith ".py" p || endswith ".pyc" p || String.prefix "<ipython-input-" p then Some p else None
  | _ => None
  end.

Fixpoint synthetic_frames (trace : list location) : res (list traceFrame) :=
  match trace with
  | [] => Ret []
  | elt :: trace =>
      match is_python_path (path elt) with
      | None => synthetic_frames trace
      | Some p =>
          codeAst ← parse_file p;
          enclosingFunctionName ← findEnclosingFunctionName codeAst (line (start elt));
          frames ← synthetic_frames trace;
          Ret (frames ++ [TraceFrame p (line (start elt)) (col (start elt)) enclosingFunctionName])
      end
  end.

(** A trace may be [None], which cannot be iterated over. *)
Definition syntheticTraceback (trace : option (list location)) : res (list traceFrame) :=
  match trace with
  | Some trace => synthetic_frames trace
  | None => Raise TypeError
  end.

Fixpoint initiateAll (p : DownloadPolicy) (globalsToSet : list (string * oid)) :
    M st (list (string * policyInstance F)) :=
  match globalsToSet with
  | [] => mret []
  | (keyname, remote) :: globalsToSet =>
      i ← on_cluster (initiatePolicyCheck p remote);
      instances ← initiateAll p globalsToSet;
      mret ((keyname, i) :: instances)
  end.

Fixpoint resolveAll (policyInstances : list (string * policyInstance F)) : M st unit :=
  match policyInstances with
  | [] => mret tt
  | (k, i) :: policyInstances =>
      v ← on_cluster (resolveToFinalValue i);
      on_frame (set_local k v) ;;
      resolveAll policyInstances
  end.

(** What [trace] does before it looks at the exception of the block. *)
Definition run_block : M st unit :=
  globalsToSet ← blockOperation;
  s ← get;
  policyInstances ← initiateAll (downloadPolicy (the_executor s)) globalsToSet;
  resolveAll policyInstances.

(** [trace] and [__exit__]. *)
Definition trace : M st ending :=
  catch run_block (λ e, on_frame previous_line ;; raise e) ;;
  s ← get;
  match traceAndException (the_executor s) with
  | Some (t, exceptionValue) =>
      tb ← lift (syntheticTraceback t);
      on_frame previous_line ;;
      mret (ExceptionValue exceptionValue tb)
  | None =>
      on_cluster pullAllMessagesAndProcess ;;
      mret WithBlockCompleted
  end.

(** ** What a block leaves in its frame *)

(** The value of a variable, of its proxy, under a policy. *)
Definition resolves (p : DownloadPolicy) (remote v : oid) : Prop :=
  match p with
  | DownloadNonePolicy => v = remote
  | DownloadAllPolicy => ∃ f c c1 c2 c3,
      toLocal remote None c = (Ret f, c1) ∧ future_outcome f c2 = (Ret (Downloaded v), c3)
  | DownloadSmallPolicy maxBytecount => ∃ f c c1 c2 c3 d,
      toLocal remote (Some maxBytecount) c = (Ret f, c1) ∧ future_outcome f c2 = (Ret d, c3) ∧
      v = match d with Downloaded o => o | ResultExceededBytecountThreshold => remote end
  end.

Definition initiated (p : DownloadPolicy) (remote : oid) (i : policyInstance F) : Prop :=
  ∃ c c1, initiatePolicyCheck p remote c = (Ret i, c1).

Definition assign_all (values : list (string * oid)) (f : frame) : frame :=
  foldl (λ f kv, set_local kv.1 kv.2 f) f values.

(** ** How a block is to end

    What the computation of a block comes to, told from the answers of the cluster, one
    after the other: the variables that it assigned, and the exception that it reports. *)
Inductive computes (w : withBlock) (compile : bool) (c : C) :
    list (string * oid) → option (option (list location) * oid) → C → Prop :=
(* a block that is only compiled assigns nothing *)
| computes_compiled f c1 c2 :
    compile = true → define_and_wait w c = (Ret f, c1) → triggerCompilation_and_wait f c1 = (Ret tt, c2) →
    computes w compile c [] None c2
(* a computation that failed as a whole *)
| computes_error f r failure c1 c2 c3 :
    compile = false → define_and_wait w c = (Ret f, c1) → call_and_wait f c1 = (Ret r, c2) →
    toTupleOfProxies_and_wait r c2 = (Ret (inr failure), c3) →
    computes w compile c [] (Some failure) c3
(* a block that came to its end: it has a dict, and no trace *)
| computes_quietly f r dict tr rest t vars c1 c2 c3 c4 c5 :
    compile = false → define_and_wait w c = (Ret f, c1) → call_and_wait f c1 = (Ret r, c2) →
    toTupleOfProxies_and_wait r c2 = (Ret (inl (dict :: tr :: rest)), c3) →
    download_and_wait tr c3 = (Ret t, c4) → as_trace t = None →
    toDictOfAssignedVars_and_wait dict c4 = (Ret vars, c5) →
    computes w compile c vars None c5
(* a block that raised: a dict of what it assigned before, a trace and the exception *)
| computes_raising f r dict tr ex rest t locations e vars c1 c2 c3 c4 c5 c6 :
    compile = false → define_and_wait w c = (Ret f, c1) → call_and_wait f c1 = (Ret r, c2) →
    toTupleOfProxies_and_wait r c2 = (Ret (inl (dict :: tr :: ex :: rest)), c3) →
    download_and_wait tr c3 = (Ret t, c4) → as_trace t = Some locations →
    download_and_wait ex c4 = (Ret e, c5) → toDictOfAssignedVars_and_wait dict c5 = (Ret vars, c6) →
    computes w compile c vars (Some (Some locations, e)) c6.

(** The block that is sent for a frame: its text, and the values of the names, of which the
    locals hide the globals; a variable of the code without a value is unbound. *)
Definition sent_for (e : executor) (f : frame) (w : withBlock) : Prop :=
  PyHeap.lineNumber w = lineNumber e ∧ PyHeap.sourceText w = sourceText e ∧
  PyHeap.sourceFileName w = sourceFileName e ∧
  (∀ x v, boundVariables w !! x = Some v ↔
    f_locals f !! x = Some v ∨ f_locals f !! x = None ∧ f_globals f !! x = Some v) ∧
  (∀ x, x ∈ unboundLocals w ↔ x ∈ co_varnames f ∧ f_locals f !! x = None).

(** The Python files among the paths of a trace. *)
Definition python_file (path : list string) (p : string) : Prop :=
  path = [p] ∧ (endswith ".py" p ∨ endswith ".pyc" p ∨ String.prefix "<ipython-input-" p).

(** The frames of a traceback for a trace, of which the innermost is the first: a frame for
    each position in a Python file, under the name of the function around it. *)
Inductive shown : list location → list traceFrame → Prop :=
| shown_nil : shown [] []
| shown_python elt p ast name trace tb :
    python_file (path elt) p → parse_file p = Ret ast →
    findEnclosingFunctionName ast (line (start elt)) = Ret name → shown trace tb →
    shown (elt :: trace) (tb ++ [TraceFrame p (line (start elt)) (col (start elt)) name])
| shown_other elt trace tb :
    (∀ p, ¬ python_file (path elt) p) → shown trace tb → shown (elt :: trace) tb.

(** The exception that a statement is left with: the one that its block reports, or else the
    one that the executor still has of an earlier block. *)
Definition left_with (report stale : option (option (list location) * oid)) :
    option (option (list location) * oid) :=
  match report with Some r => Some r | None => stale end.

Lemma on_cluster_inv {X} (m : M C X) s x s' :
  on_cluster m s = (Ret x, s') → m (the_cluster s) = (Ret x, the_cluster s') ∧
    the_executor s' = the_executor s ∧ the_frame s' = the_frame s.
Proof. unfold on_cluster. destruct (m (the_cluster s)) as [r c]. by intros [= -> <-]. Qed.

Lemma on_cluster_keeps {X} (m : M C X) s : the_frame (snd (on_cluster m s)) = the_frame s.
Proof. unfold on_cluster. by destruct (m (the_cluster s)). Qed.

Lemma initiated_resolves p remote i v c c' :
  initiated p remote i → resolveToFinalValue i c = (Ret v, c') → resolves p remote v.
Proof.
  intros (c0 & c1 & Hi). destruct p as [| |b]; cbn in Hi.
  - apply bind_inv in Hi as (f & c2 & Hf & Hi). injection Hi as <- <-. cbn. intros Hv.
    apply bind_inv in Hv as (d & c3 & Hd & Hv). destruct d as [o|]; [|done]. injection Hv as <- <-. eauto 10.
  - injection Hi as <- <-. by intros [= <- <-].
  - apply bind_inv in Hi as (f & c2 & Hf & Hi). injection Hi as <- <-. cbn. intros Hv.
    apply bind_inv in Hv as (d & c3 & Hd & Hv). exists f, c0, c2, c, c3, d. split_ands; [done|done|].
    destruct d; by injection Hv as <- <-.
Qed.

Lemma initiateAll_ret p proxies s instances s' :
  initiateAll p proxies s = (Ret instances, s') →
  Forall2 (λ kr ki, ki.1 = kr.1 ∧ initiated p kr.2 ki.2) proxies instances ∧
  the_executor s' = the_executor s ∧ the_frame s' = the_frame s.
Proof.
  revert s instances s'. induction proxies as [|[k r] proxies IH]; intros s instances s' H; [by injection H as <- <-|].
  cbn [initiateAll] in H. apply bind_inv in H as (i & s1 & Hi & H). apply on_cluster_inv in Hi as (Hi & He & Hf).
  apply bind_inv in H as (l & s2 & Hl & H). injection H as <- <-. destruct (IH _ _ _ Hl) as (Hall & He2 & Hf2).
  split_ands; [|congruence|congruence]. constructor; [|done]. split; [done|]. by eexists _, _.
Qed.

Lemma resolveAll_ret p proxies instances s u s' :
  Forall2 (λ kr ki, ki.1 = kr.1 ∧ initiated p kr.2 ki.2) proxies instances →
  resolveAll instances s = (Ret u, s') →
  ∃ values, Forall2 (λ kr kv, kv.1 = kr.1 ∧ resolves p kr.2 kv.2) proxies values ∧
    the_executor s' = the_executor s ∧ the_frame s' = assign_all values (the_frame s).
Proof.
  intros Hall. revert s. induction Hall as [|[k r] [k' i] proxies instances [Hk Hi] _ IH]; intros s H.
  { injection H as <- <-. by exists []. }
  cbn in Hk, Hi. subst k'. cbn [resolveAll] in H. apply bind_inv in H as (v & s1 & Hv & H).
  apply on_cluster_inv in Hv as (Hv & He & Hf). apply bind_inv in H as ([] & s2 & Ha & H). injection Ha as <-.
  destruct (IH _ H) as (values & Hvalues & He2 & Hf2). exists ((k, v) :: values). split_ands.
  - constructor; [|done]. split; [done|]. by eapply initiated_resolves.
  - by rewrite He2, <- He.
  - rewrite Hf2. cbn. by rewrite Hf.
Qed.

Lemma blockOperation_frame s : the_frame (snd (blockOperation s)) = the_frame s.
Proof.
  enough (Hk : keeps (λ s', the_frame s' = the_frame s) blockOperation) by (by apply Hk).
  assert (Hon : ∀ X (m : M C X), keeps (λ s', the_frame s' = the_frame s) (on_cluster m)).
  { intros X m s1 Hs1. by rewrite on_cluster_keeps. }
  unfold blockOperation. apply keeps_bind; [apply keeps_get|]. intros s0.
  apply keeps_bind; [apply Hon|]. intros f_proxy.
  destruct (compileOnly _); [apply keeps_bind; [apply Hon|]; intros; apply keeps_ret|].
  apply keeps_bind; [apply Hon|]. intros f_result_proxy. apply keeps_bind; [apply Hon|]. intros [tuple|failure].
  - apply keeps_bind; [apply keeps_lift|]. intros proxy_trace. apply keeps_bind; [apply Hon|]. intros trace.
    apply keeps_bind; [|intros; apply keeps_bind; [apply keeps_lift|intros; apply Hon]].
    destruct (as_trace trace); [|apply keeps_ret]. apply keeps_bind; [apply keeps_lift|]. intros proxy_exception.
    apply keeps_bind; [apply Hon|]. intros e. by apply keeps_modify.
  - apply keeps_bind; [by apply keeps_modify|]. intros. apply keeps_ret.
Qed.

Lemma run_block_ret s u s' :
  run_block s = (Ret u, s') → ∃ proxies values s1,
    blockOperation s = (Ret proxies, s1) ∧ the_executor s' = the_executor s1 ∧
    Forall2 (λ kr kv, kv.1 = kr.1 ∧ resolves (downloadPolicy (the_executor s1)) kr.2 kv.2) proxies values ∧
    the_frame s' = assign_all values (the_frame s).
Proof.
  intros H. apply bind_inv in H as (proxies & s1 & Hb & H). pose proof (blockOperation_frame s) as Hframe.
  rewrite Hb in Hframe. cbn in Hframe. apply bind_inv in H as (s1' & s2 & Hget & H). injection Hget as <- <-.
  apply bind_inv in H as (instances & s2 & Hi & H). apply initiateAll_ret in Hi as (Hall & He & Hf).
  destruct (resolveAll_ret _ _ _ _ _ _ Hall H) as (values & Hvalues & He2 & Hf2).
  exists proxies, values, s1. split_ands; [done|congruence|done|]. by rewrite Hf2, Hf, Hframe.
Qed.

(** *** Blocks that fail *)

(** The frame apart from the variables [names]. *)
Definition touches (names : list string) (f f' : frame) : Prop :=
  f_globals f' = f_globals f ∧ ∀ k, k ∉ names → f_locals f' !! k = f_locals f !! k.

Lemma frame_touches_refl names f : touches names f f.
Proof. by split. Qed.

Lemma on_cluster_touches {X} names f (m : M C X) : keeps (λ s, touches names f (the_frame s)) (on_cluster m).
Proof. intros s Hs. by rewrite on_cluster_keeps. Qed.

Lemma initiateAll_touches names f p proxies : keeps (λ s, touches names f (the_frame s)) (initiateAll p proxies).
Proof.
  induction proxies as [|[k r] proxies IH]; [apply keeps_ret|]. cbn [initiateAll].
  apply keeps_bind; [apply on_cluster_touches|]. intros i. apply keeps_bind; [exact IH|]. intros. apply keeps_ret.
Qed.

Lemma resolveAll_touches names f instances :
  (∀ k, k ∈ instances.*1 → k ∈ names) → keeps (λ s, touches names f (the_frame s)) (resolveAll instances).
Proof.
  induction instances as [|[k i] instances IH]; intros Hnames; [apply keeps_ret|]. cbn [resolveAll].
  apply keeps_bind; [apply on_cluster_touches|]. intros v.
  apply keeps_bind; [|intros _; apply IH; intros k' Hk'; apply Hnames; cbn; apply elem_of_cons; by right].
  apply keeps_modify. intros s [Hg Hl]. split; [done|]. intros k' Hk'. cbn.
  rewrite lookup_insert_ne; [by apply Hl|]. intros ->. apply Hk', Hnames. cbn. apply elem_of_cons. by left.
Qed.

Lemma run_block_touches names s :
  (∀ proxies s1 k, blockOperation s = (Ret proxies, s1) → k ∈ proxies.*1 → k ∈ names) →
  touches names (the_frame s) (the_frame (snd (run_block s))).
Proof.
  intros Hnames. unfold run_block, mbind at 1, M_bind at 1. pose proof (blockOperation_frame s) as Hframe.
  destruct (blockOperation s) as [[proxies|e] s1]; cbn in Hframe |- *; [|by rewrite Hframe; apply frame_touches_refl].
  assert (Htouch : touches names (the_frame s) (the_frame (snd (initiateAll (downloadPolicy (the_executor s1)) proxies s1)))).
  { refine (initiateAll_touches names (the_frame s) _ proxies s1 _). rewrite Hframe. apply frame_touches_refl. }
  unfold mbind, M_bind, get. destruct (initiateAll _ _ s1) as [[instances|e] s2] eqn:Hi; [|exact Htouch].
  apply initiateAll_ret in Hi as (Hall & _ & _). refine (resolveAll_touches names (the_frame s) instances _ s2 Htouch).
  intros k Hk. apply (Hnames proxies s1); [done|]. replace proxies.*1 with instances.*1; [done|].
  clear -Hall. induction Hall as [|kr ki proxies instances [Hk _] _ IH]; [done|]. cbn. by rewrite Hk, IH.
Qed.

(** *** What the block came to *)

Lemma block_of_sent e f : sent_for e f (block_of e f).
Proof.
  unfold sent_for. split_ands; [done|done|done| |]; cbn.
  - intros x v. by rewrite lookup_union_Some_raw.
  - intros x. rewrite elem_of_list_to_set, list_elem_of_filter, not_elem_of_dom. tauto.
Qed.

(** The part of [blockOperation] that reads the tuple of proxies. *)
Lemma read_tuple_inv (tuple : list oid) (s s1 : st) vars :
  (proxy_trace ← lift (of_option IndexError (tuple !! 1));
   trace ← on_cluster (download_and_wait proxy_trace);
   (match as_trace trace with
    | Some t =>
        proxy_exception ← lift (of_option IndexError (tuple !! 2));
        e ← on_cluster (download_and_wait proxy_exception);
        set_traceAndException (Some t, e)
    | None => mret tt
    end) ;;
   proxy_dict ← lift (of_option IndexError (tuple !! 0));
   on_cluster (toDictOfAssignedVars_and_wait proxy_dict)) s = (Ret vars, s1) →
  ∃ dict tr rest t c, tuple = dict :: tr :: rest ∧ download_and_wait tr (the_cluster s) = (Ret t, c) ∧
    the_frame s1 = the_frame s ∧ downloadPolicy (the_executor s1) = downloadPolicy (the_executor s) ∧
    match as_trace t with
    | None => toDictOfAssignedVars_and_wait dict c = (Ret vars, the_cluster s1) ∧
        traceAndException (the_executor s1) = traceAndException (the_executor s)
    | Some locations => ∃ ex rest' e c', rest = ex :: rest' ∧ download_and_wait ex c = (Ret e, c') ∧
        toDictOfAssignedVars_and_wait dict c' = (Ret vars, the_cluster s1) ∧
        traceAndException (the_executor s1) = Some (Some locations, e)
    end.
Proof.
  intros H. apply bind_inv in H as (tr & s2 & Htr & H). unfold lift, of_option in Htr.
  destruct tuple as [|dict [|tr' rest]]; [done|done|]. cbn in Htr. injection Htr as <- <-.
  apply bind_inv in H as (t & s3 & Ht & H). apply on_cluster_inv in Ht as (Ht & He3 & Hf3).
  apply bind_inv in H as ([] & s4 & Hset & H). apply bind_inv in H as (d & s5 & Hd & H). injection Hd as <- <-.
  apply on_cluster_inv in H as (Hvars & He1 & Hf1). exists dict, tr', rest, t, (the_cluster s3).
  destruct (as_trace t) as [locations|].
  - apply bind_inv in Hset as (ex & s6 & Hex & Hset). unfold lift, of_option in Hex.
    destruct rest as [|ex' rest]; [done|]. cbn in Hex. injection Hex as <- <-.
    apply bind_inv in Hset as (e & s7 & Hdown & Hset). apply on_cluster_inv in Hdown as (Hdown & He7 & Hf7).
    injection Hset as <-. cbn in *. split_ands; [done|done|congruence|by rewrite He1, He7, He3|].
    exists ex', rest, e, (the_cluster s7). by rewrite He1.
  - injection Hset as <-. split_ands; [done|done|congruence|congruence|done|congruence].
Qed.

Lemma blockOperation_computes s vars s1 :
  blockOperation s = (Ret vars, s1) →
  ∃ report, computes (block_of (the_executor s) (the_frame s)) (compileOnly (the_executor s)) (the_cluster s)
      vars report (the_cluster s1) ∧ the_frame s1 = the_frame s ∧
    downloadPolicy (the_executor s1) = downloadPolicy (the_executor s) ∧
    traceAndException (the_executor s1) = left_with report (traceAndException (the_executor s)).
Proof.
  intros H. unfold blockOperation in H. apply bind_inv in H as (s0 & s0' & Hget & H). injection Hget as <- <-.
  apply bind_inv in H as (f & s2 & Hf & H). apply on_cluster_inv in Hf as (Hf & He2 & Hf2).
  destruct (compileOnly (the_executor s)) eqn:Hcompile.
  { apply bind_inv in H as ([] & s3 & Htr & H). injection H as <- <-. apply on_cluster_inv in Htr as (Htr & He3 & Hf3).
    exists None. split_ands; [by eapply computes_compiled|congruence|congruence|cbn; congruence]. }
  apply bind_inv in H as (r & s3 & Hr & H). apply on_cluster_inv in Hr as (Hr & He3 & Hf3).
  apply bind_inv in H as (answer & s4 & Ht & H). apply on_cluster_inv in Ht as (Ht & He4 & Hf4).
  destruct answer as [tuple|failure].
  - apply read_tuple_inv in H as (dict & tr & rest & t & c & -> & Hdown & Hframe & Hpolicy & H).
    rewrite He4, He3, He2 in Hpolicy. rewrite Hf4, Hf3, Hf2 in Hframe.
    destruct (as_trace t) as [locations|] eqn:Htrace.
    + destruct H as (ex & rest' & e & c' & -> & Hex & Hdict & Hte). exists (Some (Some locations, e)).
      split_ands; [by eapply computes_raising|done|done|done].
    + destruct H as (Hdict & Hte). exists None.
      split_ands; [by eapply computes_quietly|done|done|cbn; congruence].
  - apply bind_inv in H as ([] & s5 & Hset & H). injection H as <- <-. injection Hset as <-. cbn.
    exists (Some failure). split_ands; [by eapply computes_error|congruence|congruence|done].
Qed.

Lemma is_python_path_spec path p : is_python_path path = Some p ↔ python_file path p.
Proof.
  unfold python_file. destruct path as [|q [|]]; cbn; [by split; [|intros [? _]]| |by split; [|intros [? _]]].
  destruct (endswith ".py" q) eqn:H1, (endswith ".pyc" q) eqn:H2, (String.prefix "<ipython-input-" q) eqn:H3; cbn;
    (split; [try by intros [= <-]; rewrite ?H1, ?H2, ?H3; eauto|
             intros [[= <-] Hends]; rewrite ?H1, ?H2, ?H3 in Hends; try done; by destruct Hends as [|[]]]).
Qed.

Lemma syntheticTraceback_shown t tb :
  syntheticTraceback t = Ret tb → ∃ locations, t = Some locations ∧ shown locations tb.
Proof.
  destruct t as [locations|]; [|done]. cbn. intros H. exists locations. split; [done|]. revert tb H.
  induction locations as [|elt locations IH]; cbn [synthetic_frames]; intros tb H; [injection H as <-; constructor|].
  destruct (is_python_path (path elt)) as [p|] eqn:Hp.
  - destruct (parse_file p) as [ast|] eqn:Hast; [|done]. cbn in H.
    destruct (findEnclosingFunctionName ast _) as [name|] eqn:Hname; [|done]. cbn in H.
    destruct (synthetic_frames locations) as [frames|]; [|done]. cbn in H. injection H as <-.
    apply shown_python with ast; [by apply is_python_path_spec|done|done|by apply IH].
  - apply shown_other; [|by apply IH]. intros p Hpython. apply is_python_path_spec in Hpython. congruence.
Qed.

Lemma run_block_computes s u s' :
  run_block s = (Ret u, s') →
  let e := the_executor s in
  ∃ vars values report c,
    computes (block_of e (the_frame s)) (compileOnly e) (the_cluster s) vars report c ∧
    Forall2 (λ kr kv, kv.1 = kr.1 ∧ resolves (downloadPolicy e) kr.2 kv.2) vars values ∧
    traceAndException (the_executor s') = left_with report (traceAndException e) ∧
    the_frame s' = assign_all values (the_frame s).
Proof.
  intros H. destruct (run_block_ret _ _ _ H) as (vars & values & s1 & Hb & He & Hvalues & Hf).
  destruct (blockOperation_computes _ _ _ Hb) as (report & Hc & _ & Hp & Ht). rewrite Hp in Hvalues.
  exists vars, values, report, (the_cluster s1). split_ands; [done|done|congruence|done].
Qed.

(** A variable that no answer of the computation names. *)
Definition not_assigned (s : st) (k : string) : Prop :=
  ∀ w vars report c, sent_for (the_executor s) (the_frame s) w →
    computes w (compileOnly (the_executor s)) (the_cluster s) vars report c → k ∉ vars.*1.

(** The variables that a statement may change, whichever way it ends. *)
Lemma run_block_keeps_others s :
  f_globals (the_frame (snd (run_block s))) = f_globals (the_frame s) ∧
  ∀ k, not_assigned s k → f_locals (the_frame (snd (run_block s))) !! k = f_locals (the_frame s) !! k.
Proof.
  destruct (blockOperation s) as [[proxies|e] s1] eqn:Hb.
  - destruct (run_block_touches proxies.*1 s) as [Hg Hl]; [intros ? ? k Heq; rewrite Hb in Heq; by injection Heq as <- <-|].
    split; [done|]. intros k Hk. apply Hl. destruct (blockOperation_computes _ _ _ Hb) as (report & Hc & _).
    by eapply Hk; [apply block_of_sent|].
  - destruct (run_block_touches [] s) as [Hg Hl]; [intros ? ? k Heq; by rewrite Hb in Heq|].
    split; [done|]. intros k _. by apply Hl, not_elem_of_nil.
Qed.

(** C26. A with block on the cluster assigns its variables in the frame around it. What it
    sends is its text with the frame's names, the locals hiding the globals. When the
    statement ends, every variable that the computation returned has its value, which is the
    proxy or what was downloaded of it, as the policy says, and the rest of the frame is as it
    was. It ends quietly exactly if neither this block reports an exception (the error of the
    computation, or the third item of a result whose second is a tuple) nor the executor still
    has one of an earlier block, and else with that exception and the frames of the trace's
    Python files, one line up. When anything on the way fails, no other variable has
    changed. *)
Theorem block_assigns_its_variables s r s' (Hrun : trace s = (r, s')) :
  let e := the_executor s in
  match r with
  | Ret ending => ∃ w vars values report c,
      sent_for e (the_frame s) w ∧ computes w (compileOnly e) (the_cluster s) vars report c ∧
      Forall2 (λ kr kv, kv.1 = kr.1 ∧ resolves (downloadPolicy e) kr.2 kv.2) vars values ∧
      traceAndException (the_executor s') = left_with report (traceAndException e) ∧
      match left_with report (traceAndException e) with
      | None => ending = WithBlockCompleted ∧ the_frame s' = assign_all values (the_frame s)
      | Some (t, v) => ∃ locations tb, t = Some locations ∧ shown locations tb ∧
          ending = ExceptionValue v tb ∧ the_frame s' = previous_line (assign_all values (the_frame s))
      end
  | Raise _ => f_globals (the_frame s') = f_globals (the_frame s) ∧
      ∀ k, not_assigned s k → f_locals (the_frame s') !! k = f_locals (the_frame s) !! k
  end.
Proof.
  intros ex. pose proof (run_block_keeps_others s) as Hothers.
  unfold trace, catch in Hrun. unfold mbind at 1, M_bind at 1 in Hrun.
  destruct (run_block s) as [[[]|e] s2] eqn:Hblock; [|by injection Hrun as <- <-].
  destruct (run_block_computes _ _ _ Hblock) as (vars & values & report & c & Hc & Hvalues & He & Hf).
  fold ex in Hc, Hvalues, He. pose proof (block_of_sent ex (the_frame s)) as Hsent.
  unfold mbind at 1, M_bind at 1, get in Hrun. rewrite He in Hrun.
  destruct (left_with report (traceAndException ex)) as [[t v]|] eqn:Hleft.
  - unfold mbind at 1, M_bind at 1, lift in Hrun. destruct (syntheticTraceback t) as [tb|e] eqn:Htb;
      injection Hrun as <- <-; [|done].
    apply syntheticTraceback_shown in Htb as (locations & -> & Htb). eexists _, vars, values, report, c.
    rewrite Hleft. split_ands; [done|done|done|done|]. exists locations, tb. cbn. by rewrite Hf.
  - pose proof (on_cluster_keeps pullAllMessagesAndProcess s2) as Hkeep. unfold mbind at 1, M_bind at 1 in Hrun.
    destruct (on_cluster pullAllMessagesAndProcess s2) as [[[]|e] s3] eqn:Hpull; cbn in Hkeep; injection Hrun as <- <-.
    + apply on_cluster_inv in Hpull as (_ & He3 & _). eexists _, vars, values, report, c. rewrite Hleft.
      split_ands; [done|done|done|congruence|done|congruence].
    + cbn in Hothers. by rewrite Hkeep.
Qed.

(** An exception of an earlier block is never forgotten: the executor reports it again. *)
Lemma blockOperation_remembers s :
  is_Some (traceAndException (the_executor s)) →
  is_Some (traceAndException (the_executor (snd (blockOperation s)))).
Proof.
  enough (Hk : keeps (λ s', is_Some (traceAndException (the_executor s'))) blockOperation) by (by apply Hk).
  assert (Hon : ∀ X (m : M C X), keeps (λ s', is_Some (traceAndException (the_executor s'))) (on_cluster m)).
  { intros X m s1 Hs1. unfold on_cluster. by destruct (m (the_cluster s1)). }
  unfold blockOperation. apply keeps_bind; [apply keeps_get|]. intros s0.
  apply keeps_bind; [apply Hon|]. intros f_proxy.
  destruct (compileOnly _); [apply keeps_bind; [apply Hon|]; intros; apply keeps_ret|].
  apply keeps_bind; [apply Hon|]. intros f_result_proxy. apply keeps_bind; [apply Hon|]. intros [tuple|failure].
  - apply keeps_bind; [apply keeps_lift|]. intros proxy_trace. apply keeps_bind; [apply Hon|]. intros trace.
    apply keeps_bind; [|intros; apply keeps_bind; [apply keeps_lift|intros; apply Hon]].
    destruct (as_trace trace); [|apply keeps_ret]. apply keeps_bind; [apply keeps_lift|]. intros proxy_exception.
    apply keeps_bind; [apply Hon|]. intros e. apply keeps_modify. intros; by eexists.
  - apply keeps_bind; [apply keeps_modify; intros; by eexists|]. intros. apply keeps_ret.
Qed.

Lemma stale_exception s s' :
  is_Some (traceAndException (the_executor s)) → trace s ≠ (Ret WithBlockCompleted, s').
Proof.
  intros Hsome Hrun. apply bind_inv in Hrun as ([] & s2 & Hcatch & Hrun). unfold catch in Hcatch.
  destruct (run_block s) as [[[]|e] s3] eqn:Hblock; [|done]. injection Hcatch as ->.
  destruct (run_block_ret _ _ _ Hblock) as (proxies & values & s1 & Hb & He & _ & _).
  pose proof (blockOperation_remembers s Hsome) as [[t v] Ht]. rewrite Hb in Ht. cbn in Ht.
  apply bind_inv in Hrun as (s4 & s5 & Hget & Hrun). injection Hget as <- <-. rewrite He, Ht in Hrun.
  apply bind_inv in Hrun as (tb & s6 & Htb & Hrun). by apply bind_inv in Hrun as ([] & s7 & _ & [=]).
Qed.
End block.

(** ** A block that assigns two variables *)

Module WithBlockSamples.

(** The cluster [true] answers the next computation with an exception; 400 is small. *)
Definition sample_cluster (sample_trace : option (list location)) : Cluster bool oid := {|
  define_and_wait _ := mret 100%N;
  triggerCompilation_and_wait _ := mret tt;
  call_and_wait _ := mret 101%N;
  toTupleOfProxies_and_wait _ := λ fails,
    if fails : bool then (Ret (inr (sample_trace, 500%N)), false)
    else (Ret (inl [200%N; 201%N; 202%N]), false);
  toDictOfAssignedVars_and_wait _ := mret [("x", 400%N); ("y", 401%N)];
  download_and_wait _ := mret 300%N;
  toLocal o _ := mret o;
  future_outcome o := mret (if bool_decide (o = 400%N) then Downloaded 7%N else ResultExceededBytecountThreshold);
  pullAllMessagesAndProcess := mret tt;
  as_trace _ := None;
  parse_file _ := Ret (Module []) |}.
Definition one_line : option (list location) := Some [Location ["a.py"] (Position 0 1 0) (Position 0 1 0)].
#[export] Instance cluster_with_traces : Cluster bool oid := sample_cluster one_line.

Definition sample_frame : frame := Frame ∅ {["y" := 1%N; "z" := 2%N]} ["x"; "y"; "z"] 10.
Definition start (e : executor) (fails : bool) : blockState (C:=bool) := BlockState e sample_frame fails.
Definition after (s : blockState (C:=bool)) : res ending * list (option oid) * Z :=
  let '(r, s') := trace s in
  (r, (λ k, f_locals (the_frame s') !! k) <$> ["x"; "y"; "z"], f_lineno (the_frame s')).

Example sample_remote : after (start new_executor false) =
  (Ret WithBlockCompleted, [Some 400%N; Some 401%N; Some 2%N], 10%Z).
Proof. by vm_compute. Qed.
Example sample_small : after (start (downloadSmall 10 new_executor) false) =
  (Ret WithBlockCompleted, [Some 7%N; Some 401%N; Some 2%N], 10%Z).
Proof. by vm_compute. Qed.
Example sample_all : after (start (downloadAll new_executor) false) =
  (Raise (OtherException "ResultExceededBytecountThreshold"), [Some 7%N; Some 1%N; Some 2%N], 9%Z).
Proof. by vm_compute. Qed.
Example sample_unbound : unboundLocals (block_of new_executor sample_frame) = {["x"]}.
Proof. by vm_compute. Qed.

(** The second block of an executor assigns its variables, and reports the exception of the
    first. *)
Example stale_exception_is_raised :
  let s := snd (trace (start new_executor true)) in
  fst (trace (start new_executor true)) = Ret (ExceptionValue 500%N [TraceFrame "a.py" 1 0 None]) ∧
  after s = (Ret (ExceptionValue 500%N [TraceFrame "a.py" 1 0 None]), [Some 400%N; Some 401%N; Some 2%N], 8%Z).
Proof. by vm_compute. Qed.

(** An exception without a trace is lost. *)
Example exception_without_trace :
  fst (trace (CL:=sample_cluster None) (start new_executor true)) = Raise TypeError.
Proof. by vm_compute. Qed.

(** The block raises: its variables are small enough to be downloaded or not, and the
    exception is that of the tuple's third item. *)
#[local] Instance raising_cluster : Cluster bool oid := {|
  define_and_wait := define_and_wait; triggerCompilation_and_wait := triggerCompilation_and_wait;
  call_and_wait := call_and_wait; toTupleOfProxies_and_wait := toTupleOfProxies_and_wait;
  toDictOfAssignedVars_and_wait := toDictOfAssignedVars_and_wait;
  download_and_wait o := mret (o + 100)%N; toLocal := toLocal; future_outcome := future_outcome;
  pullAllMessagesAndProcess := pullAllMessagesAndProcess;
  as_trace o := if bool_decide (o = 301%N) then one_line else None;
  parse_file := parse_file |}.

Example block_assigns_its_variables_witness :
  let s := start (downloadSmall 10 new_executor) false in
  let ending := ExceptionValue 302%N [TraceFrame "a.py" 1 0 None] in
  ∃ w vars values report c,
    sent_for (the_executor s) sample_frame w ∧
    computes (CL:=raising_cluster) w false (the_cluster s) vars report c ∧
    Forall2 (λ kr kv, kv.1 = kr.1 ∧ resolves (CL:=raising_cluster) (DownloadSmallPolicy 10) kr.2 kv.2) vars values ∧
    traceAndException (the_executor (snd (trace (CL:=raising_cluster) s))) = left_with report None ∧
    match left_with report None with
    | None => ending = WithBlockCompleted ∧
        the_frame (snd (trace (CL:=raising_cluster) s)) = assign_all values sample_frame
    | Some (t, v) => ∃ locations tb, t = Some locations ∧ shown (CL:=raising_cluster) locations tb ∧
        ending = ExceptionValue v tb ∧
        the_frame (snd (trace (CL:=raising_cluster) s)) = previous_line (assign_all values sample_frame)
    end.
Proof.
  exact (block_assigns_its_variables (CL:=raising_cluster) (start (downloadSmall 10 new_executor) false)
    (Ret (ExceptionValue 302%N [TraceFrame "a.py" 1 0 None]))
    (snd (trace (CL:=raising_cluster) (start (downloadSmall 10 new_executor) false))) ltac:(by vm_compute)).
Defined.
End WithBlockSamples.
